(* ===== verification/_CoqProject ===== *)
-Q . S2P
Prelude.v
Layout.v
Memory.v
Spinlock.v
Cstring.v
Kalloc.v
Vm.v
Seg.v
Proc.v
Asm.v
Signal.v
Sched.v
SchedInv.v
Syscall.v
Trap.v
Pipe.v
Sleeplock.v
Bio.v
Log.v
Block.v
Fs.v
FsBlock.v
FsFile.v
FsRw.v
FsDir.v
Ulib.v
Console.v
Kbd.v
Mp.v
Apic.v
Ide.v
Machine.v
Boot.v
Entry.v
Umalloc.v
Grep.v
Sh.v
File.v
Sysfile.v
Exec.v
ExecImage.v
Kernel.v
Main.v
Start.v
KernelInv.v
Mkfs.v
User.v
