(* ===== verification/Prelude.v ===== *)
(** * xv6 (OS202): the verification library

    The program is xv6 for the x86, extended with Unix-like signals: a small
    multiprocessor kernel (processes, paged address spaces, a journaled file
    system, pipes, a console) and its user programs. This library models the
    kernel, from the boot sector on, and its user land as Rocq functions, one
    definition per C function or piece of assembly under src/ and under its
    name, and proves what the parts promise.

    ** The machine

    Kernel code is a function in the monad [M S A] of this file: from a state
    [S] to a result and a state, to giving up the CPU ([Blocked]), or to stopping
    the machine ([Crashed] with a fault: [panic], a page fault, undefined
    behaviour of C, or a CPU that spins for good), with a trace of events (lock
    operations, wakeups, disk writes, console output). [wp] is total
    correctness: the code returns, without fault. [hoare] also says what holds
    where the code gives up the CPU. Where code sleeps in a loop, one pass from
    wake up to sleep is a function into [pass], and a step relation interleaves
    the passes of many processes ([star] is reachability). Machine integers are
    [Z] with their wrap-around written out ([u8], [u16], [u32], [s32]). Memory is
    a function from addresses to bytes (Memory.v); C strings that are only read
    are lists of bytes.

    ** Kernel files

    - Layout.v: constants and address macros (param.h, types.h, memlayout.h,
      mmu.h, fcntl.h). Memory.v: words and byte ranges in memory.
    - Spinlock.v: spinlock.c. Mutual exclusion of interleaved CPUs; interrupt
      nesting over any well nested trace of lock events.
    - Cstring.v: string.c. [memmove] under any overlap; the string routines.
    - Kalloc.v: kalloc.c, the free list threaded through the free pages.
      [free_list] is its abstraction; pages are handed out exclusively.
    - Vm.v: vm.c, two-level page tables in byte memory. [space] abstracts them to
      a map of user pages; [allocuvm], [copyuvm], [copyout] and the others are
      specified on it.
    - Seg.v: the segment and gate descriptors of mmu.h as bit fields, [seginit],
      the task state of [switchuvm], [tvinit] and [idtinit]; the tables read back
      as the processor reads them.
    - Asm.v: swtch.S, trapasm.S, what vectors.pl generates, usys.S, initcode.S and
      implicit_sigret.S, instruction by instruction on a processor with registers,
      descriptor tables and memory; the C functions they call are arguments. A
      context switch and a trap give back what they saved; user code enters the
      kernel through the system call gate alone, and a stub is a C function.
    - Proc.v: proc.h, the process table, with the interfaces [UserMem] (user
      memory of the running process) and [ProcEnv] (what proc.c calls of the
      memory and file system code).
    - Signal.v, Sched.v, SchedInv.v: proc.c. Signal delivery and [sigret];
      [fork], [exit], [wait], [sleep], [wakeup] and the scheduler, a context
      switch being an argument of the operations that switch; the invariant
      of the process table over all interleavings of these ([kstep]).
    - Syscall.v: syscall.c and sysproc.c. Argument fetching never leaves the
      process.
    - Pipe.v: pipe.c. A pipe is a reliable byte stream, without lost wakeups.
    - Sleeplock.v, Bio.v, Log.v: sleeplock.c, bio.c with memide.c, log.c. The
      buffer cache refines the disk; transactions are atomic and durable
      across crashes, a crash keeping any prefix of the disk writes, also during
      recovery.
    - Block.v: the block layer as fs.c sees it, as the classes [BlockLayer]
      (operations) and [BlockSpec] (laws), with Bio.v and Log.v as the instance.
    - Fs.v: fs.c. FsBlock.v, FsFile.v, FsRw.v, FsDir.v: its theorems. Block
      allocation, [bmap], [readi] and [writei] against the bytes of a file, the
      inode cache, directories and paths. They use [BlockSpec] only.
    - File.v, Sysfile.v: file.c and sysfile.c, all the handlers; [pipe] is all or
      nothing.
    - Exec.v: exec.c and [loaduvm]; the stack a program starts with. ExecImage.v:
      the memory of the new program against the file it was read from; a failing
      [exec] gives back its pages and leaves the caller as it was.
    - Console.v: console.c and uart.c; the screen, the line editor, [cprintf].
    - Kbd.v: kbd.c with the tables of kbd.h. Mp.v: mp.c, on the tables of the
      firmware in byte memory. Apic.v: ioapic.c, picirq.c and lapic.c, on the
      registers of the controllers and of the clock chip.
    - Ide.v: ide.c, the request queue and the interrupt handler against a
      controller that serves one request at a time; it refines memide.c.
    - Trap.v: trap.c, and the way [alltraps] of trapasm.S calls it: interrupts,
      system calls, killed processes, the clock.
    - Machine.v: memory, the page table register and the console as one state.
      User memory goes through the page tables, which makes it an instance of
      [UserMem].
    - Kernel.v: the parts put together. The [ProcEnv] of proc.c is the code of
      vm.c, file.c, fs.c and exec.c; [syscalls] is the table of all handlers.
      KernelInv.v: the invariant of the process table over every sequence of
      traps, context switches and scheduler steps of this kernel; each of them
      is one step, so an interrupt inside a system call is not among them.

    ** The start of the system

    - Boot.v: bootmain.c, on a machine with memory and the registers of the disk
      controller. Entry.v: bootasm.S, entry.S with [entrypgdir] of main.c, and
      entryother.S, on the processor of Asm.v with control registers, hidden
      segment parts, paging and the A20 gate: from power on to [main] and to
      [mpenter].
    - Main.v: [main] of main.c with the initialisers of all components in its
      order, [uartinit], [kvmalloc], and the start of the other processors.
      Start.v: with [userinit] behind it, the first process and an account of
      every page of physical memory.
    - Mkfs.v: mkfs.c, the host program that makes the file system image the kernel
      starts from.

    ** User files

    - Ulib.v: ulib.c and printf.c. Umalloc.v: umalloc.c. Grep.v: grep.c.
    - Sh.v: sh.c. The parser inverts the grammar of commands and ends on every
      line; [runcmd] as the tree of the system calls it makes.
    - User.v: cat.c, wc.c, ls.c, echo.c, kill.c, ln.c, mkdir.c, rm.c, zombie.c and
      init.c as interaction trees over the system calls they make ([prog]). [sat]
      is total correctness against any kernel that keeps the contract [fsys];
      [safe] is for init, which runs for ever.

    ** Bounds

    Loops without a structural argument take fuel, and the fuel is proved
    enough: the calls of [parsecmd] nest four deep per byte of the line; [printint] 32
    digits; the search of [malloc] and [free] as many steps as the free list has
    blocks; Control-U at most the 128 bytes of the input buffer; the scans of
    tables and page ranges their length; the walk of the MP table its length in
    bytes; the append loop of mkfs one step per byte; the sector loop of
    [readseg] one step per sector. Loops that poll a device (the disk and the
    keyboard controller at boot, the clock chip) take a bound on the polls that is
    an argument; the theorems assume the device answers within it. Pids are
    followed up to 2^31 - 1.

    ** Not modelled

    - C code uses no stack in the model: the stack pages are accounted for, and
      their contents are the cells of proc.h ([struct trapframe], [struct context])
      and what the assembly pushes.
    - Weak memory and caches: the interleavings are sequentially consistent, and
      the translation of an address reads the page tables in memory.
    - Device inodes reach their driver through the parameters [devsw_read] and
      [devsw_write] of fs.c's operations. The assembled kernel has the disk of
      memide.c, which Ide.v shows ide.c to refine; delays and the status polling of
      the UART are not in the model.
    - sign.pl and the other build scripts; the test programs (usertests.c,
      forktest.c, stressfs.c, mytest.c), which exercise the system and are not part
      of it; declarations without behaviour (defs.h, user.h). *)

From stdpp Require Export base numbers list option gmap strings.
From Stdlib Require Export ZArith Lia.

#[global] Open Scope Z_scope.
#[global] Coercion Z.of_nat : nat >-> Z.

(** ** Machine integers

    [uint], [ushort] and [uchar] of types.h are kept as [Z] in the range of
    their width; every operation that may leave the range is wrapped
    explicitly. *)

Definition u8 (z : Z) : Z := z mod 2 ^ 8.
Definition u16 (z : Z) : Z := z mod 2 ^ 16.
Definition u32 (z : Z) : Z := z mod 2 ^ 32.

(** The [int] with the same bits as [z]. *)
Definition s32 (z : Z) : Z := let u := u32 z in if u <? 2 ^ 31 then u else u - 2 ^ 32.

(** The [short] with the same bits as [z]. *)
Definition s16 (z : Z) : Z := let u := u16 z in if u <? 2 ^ 15 then u else u - 2 ^ 16.

(** The bytes of a string constant, without the NUL. *)
Definition bytes (s : string) : list Z := (λ c, Z.of_nat (Ascii.nat_of_ascii c)) <$> String.list_ascii_of_string s.

Declare Scope word_scope.
Delimit Scope word_scope with word.
Notation "x +w y" := (u32 (x + y)) (at level 50, left associativity) : word_scope.
Notation "x -w y" := (u32 (x - y)) (at level 50, left associativity) : word_scope.

(** C's truth value of an integer. *)
Definition truth (z : Z) : bool := negb (z =? 0).

#[global] Arguments u8 _ : simpl never.
#[global] Arguments u16 _ : simpl never.
#[global] Arguments u32 _ : simpl never.
#[global] Arguments s32 _ : simpl never.
#[global] Arguments s16 _ : simpl never.
#[global] Arguments truth _ : simpl never.

Lemma truth_true z : truth z = true ↔ z ≠ 0.
Proof. unfold truth. rewrite negb_true_iff, Z.eqb_neq. done. Qed.

Lemma truth_false z : truth z = false ↔ z = 0.
Proof. unfold truth. rewrite negb_false_iff, Z.eqb_eq. done. Qed.

Lemma u32_range z : 0 ≤ u32 z < 2 ^ 32.
Proof. apply Z.mod_pos_bound. lia. Qed.

Lemma u32_small z : 0 ≤ z < 2 ^ 32 → u32 z = z.
Proof. intros. by apply Z.mod_small. Qed.

Lemma u32_idemp z : u32 (u32 z) = u32 z.
Proof. apply u32_small, u32_range. Qed.

Lemma u32_add_l x y : u32 (u32 x + y) = u32 (x + y).
Proof. unfold u32. by rewrite Zplus_mod_idemp_l. Qed.

Lemma u32_add_r x y : u32 (x + u32 y) = u32 (x + y).
Proof. unfold u32. by rewrite Zplus_mod_idemp_r. Qed.

Lemma u32_sub_l x y : u32 (u32 x - y) = u32 (x - y).
Proof. unfold u32. by rewrite Zminus_mod_idemp_l. Qed.

Lemma u32_sub_r x y : u32 (x - u32 y) = u32 (x - y).
Proof. unfold u32. by rewrite Zminus_mod_idemp_r. Qed.

Lemma s32_u32 z : s32 (u32 z) = s32 z.
Proof. unfold s32, u32. by rewrite Z.mod_mod. Qed.

Lemma u32_s32 z : u32 (s32 z) = u32 z.
Proof. unfold s32. destruct (_ <? _); unfold u32; [by rewrite Z.mod_mod|]. rewrite <- (Z.mod_add _ 1) by done. by rewrite Z.mul_1_l, Z.sub_add, Z.mod_mod. Qed.

Lemma s32_add z n : s32 (s32 z + n) = s32 (z + n).
Proof.
  rewrite <- s32_u32, <- (s32_u32 (z + n)). f_equal. unfold u32. rewrite Z.add_mod, (Z.add_mod z) by done.
  by rewrite (u32_s32 z : s32 z mod 2 ^ 32 = z mod 2 ^ 32).
Qed.

Lemma s32_idem z : s32 (s32 z) = s32 z.
Proof. by rewrite <- s32_u32, u32_s32, s32_u32. Qed.

Lemma s32_small z : 0 ≤ z < 2 ^ 31 → s32 z = z.
Proof.
  intros. unfold s32. rewrite u32_small by lia.
  destruct (Z.ltb_spec z (2 ^ 31)); lia.
Qed.

(** ** Single bits *)

Lemma testbit_one k j : 0 ≤ k → Z.testbit (Z.shiftl 1 k) j = bool_decide (j = k).
Proof.
  intros Hk. rewrite Z.shiftl_1_l, Z.pow2_bits_eqb by done.
  case_bool_decide; [subst; apply Z.eqb_refl | by apply Z.eqb_neq; congruence].
Qed.

(** [x & (1 << k)] is true exactly when bit [k] of [x] is set. *)
Lemma truth_land_bit x k : 0 ≤ k → truth (Z.land x (Z.shiftl 1 k)) = Z.testbit x k.
Proof.
  intros Hk. apply eq_true_iff_eq. rewrite truth_true. split.
  - intros Hnz. destruct (Z.testbit x k) eqn:Hb; [done|]. destruct Hnz.
    apply Z.bits_inj'. intros j Hj. rewrite Z.land_spec, testbit_one, Z.bits_0 by done.
    case_bool_decide; [by subst; rewrite Hb | apply andb_false_r].
  - intros Hb H0. apply (f_equal (λ z, Z.testbit z k)) in H0.
    rewrite Z.land_spec, testbit_one, Z.bits_0, Hb, bool_decide_eq_true_2 in H0; done.
Qed.

Lemma land_bit_set x k : 0 ≤ k → Z.testbit x k = true → Z.land x (Z.shiftl 1 k) = Z.shiftl 1 k.
Proof.
  intros Hk Hb. apply Z.bits_inj'. intros j Hj. rewrite Z.land_spec, testbit_one by done.
  case_bool_decide; [by subst; rewrite Hb | apply andb_false_r].
Qed.

Lemma testbit_lxor_bit x k j : 0 ≤ k →
  Z.testbit (Z.lxor x (Z.shiftl 1 k)) j = if decide (j = k) then negb (Z.testbit x k) else Z.testbit x j.
Proof.
  intros Hk. rewrite Z.lxor_spec, testbit_one by done. case_decide.
  - subst. rewrite bool_decide_eq_true_2 by done. apply xorb_true_r.
  - rewrite bool_decide_eq_false_2 by done. apply xorb_false_r.
Qed.

Lemma testbit_lor_bit x k j : 0 ≤ k →
  Z.testbit (Z.lor x (Z.shiftl 1 k)) j = Z.testbit x j || bool_decide (j = k).
Proof. intros. by rewrite Z.lor_spec, testbit_one. Qed.

(** A word with all 32 bits clear is 0. *)
Lemma word_bits_zero x : 0 ≤ x < 2 ^ 32 → (∀ k, 0 ≤ k < 32 → Z.testbit x k = false) → x = 0.
Proof.
  intros Hx Hb. apply Z.bits_inj'. intros k Hk. rewrite Z.bits_0.
  destruct (decide (k < 32)); [apply Hb; lia|].
  replace x with (x mod 2 ^ 32) by (apply Z.mod_small; lia).
  apply Z.mod_pow2_bits_high. lia.
Qed.

Lemma word_lxor_bit x k : 0 ≤ x < 2 ^ 32 → 0 ≤ k < 32 → 0 ≤ Z.lxor x (Z.shiftl 1 k) < 2 ^ 32.
Proof.
  intros Hx Hk. replace (Z.lxor x (Z.shiftl 1 k)) with (u32 (Z.lxor x (Z.shiftl 1 k))).
  { apply u32_range. }
  apply Z.bits_inj'. intros j Hj. unfold u32. destruct (decide (j < 32)).
  - by rewrite Z.mod_pow2_bits_low by lia.
  - rewrite Z.mod_pow2_bits_high by lia. rewrite testbit_lxor_bit by lia.
    rewrite decide_False by lia. replace x with (x mod 2 ^ 32) by (apply Z.mod_small; lia).
    symmetry. apply Z.mod_pow2_bits_high. lia.
Qed.

(** ** Events

    What an operation does besides changing its component's state: the spin
    locks it takes, the sleepers it wakes, the blocks it writes to the disk. *)

(** The spin locks of the kernel. *)
Inductive lockid :=
  | Lkmem | Lptable | Lftable | Licache | Lbcache | Llog | Lide | Lcons | Lticks
  | Lpipe (p : Z)
  | Lsleep_buf (b : nat)
  | Lsleep_inode (i : nat).

(** The sleep channels: the addresses [sleep] and [wakeup] are called with. *)
Inductive chan :=
  | Ch_spin (l : lockid)     (** not asleep: spinning on a lock another CPU holds *)
  | Ch_log | Ch_ticks | Ch_input
  | Ch_proc (p : nat)
  | Ch_nread (p : Z)
  | Ch_nwrite (p : Z)
  | Ch_buf (b : nat)
  | Ch_lock_buf (b : nat)
  | Ch_lock_inode (i : nat).

#[global] Instance lockid_eq_dec : EqDecision lockid.
Proof. solve_decision. Defined.
#[global] Instance chan_eq_dec : EqDecision chan.
Proof. solve_decision. Defined.

(** What [sched] requires of the CPU before it switches away. *)
Inductive check :=
  | Holding (l : lockid)      (** this CPU holds the lock *)
  | OneLock                   (** [ncli] is 1 *)
  | IntrOff.                  (** interrupts are off *)

Inductive event :=
  | EAcquire (l : lockid)
  | ERelease (l : lockid)
  | ECli                      (** a [pushcli]/[popcli] pair around a read of the CPU structure *)
  | ECheck (c : check) (msg : string)
  | ESti
  | ESwtch                    (** a context switch; [intena] is saved before and restored after *)
  | EWakeup (c : chan)
  | EDiskWrite (dev blockno : Z) (data : list Z)
  | EPrintf (fmt : string) (args : list Z)   (** [fmt] is the C literal as written *)
  | EPutc (c : Z).

#[global] Instance check_eq_dec : EqDecision check.
Proof. solve_decision. Defined.
#[global] Instance event_eq_dec : EqDecision event.
Proof. solve_decision. Defined.

(** ** The kernel monad

    A kernel operation runs on the state of its component and ends in one of
    three ways: it returns, it goes to sleep on a channel, or it stops the
    machine. *)

Inductive fault :=
  | Panicked (msg : string)        (** a call of [panic] *)
  | PageFault (addr : Z)           (** a kernel access to an unmapped address *)
  | Undefined (what : string)      (** undefined behaviour of C *)
  | Halted.                        (** the CPU spins for ever *)

Inductive outcome (S A : Type) :=
  | Ok (a : A) (s : S) (tr : list event)
  | Blocked (c : chan) (s : S) (tr : list event)
  | Crashed (f : fault) (tr : list event).
Arguments Ok {S A} a s tr.
Arguments Blocked {S A} c s tr.
Arguments Crashed {S A} f tr.

Definition M (S A : Type) : Type := S → outcome S A.

Definition prepend {S A} (tr : list event) (o : outcome S A) : outcome S A :=
  match o with
  | Ok a s t => Ok a s (tr ++ t)
  | Blocked c s t => Blocked c s (tr ++ t)
  | Crashed f t => Crashed f (tr ++ t)
  end.

#[global] Instance M_ret S : MRet (M S) := λ A a s, Ok a s [].
#[global] Instance M_bind S : MBind (M S) := λ A B k m s,
  match m s with
  | Ok a s1 tr => prepend tr (k a s1)
  | Blocked c s1 tr => Blocked c s1 tr
  | Crashed f tr => Crashed f tr
  end.

Definition get_state {S} : M S S := λ s, Ok s s [].
Definition gets {S A} (f : S → A) : M S A := λ s, Ok (f s) s [].
Definition modify {S} (f : S → S) : M S unit := λ s, Ok tt (f s) [].
Definition emit {S} (e : event) : M S unit := λ s, Ok tt s [e].
Definition panic {S A} (msg : string) : M S A := λ _, Crashed (Panicked msg) [].
Definition page_fault {S A} (a : Z) : M S A := λ _, Crashed (PageFault a) [].
Definition undefined {S A} (what : string) : M S A := λ _, Crashed (Undefined what) [].
Definition halt {S A} : M S A := λ _, Crashed Halted [].
Definition block_on {S A} (c : chan) : M S A := λ s, Blocked c s [].

(** [if(c) m] without an else branch. *)
Definition when {S} (c : bool) (m : M S unit) : M S unit := if c then m else mret ().

(** Spin lock operations and wakeups, as seen by the component that calls
    them; Spinlock.v and Proc.v give them their effect. *)
Definition acquire {S} (l : lockid) : M S unit := emit (EAcquire l).
Definition release {S} (l : lockid) : M S unit := emit (ERelease l).
Definition wakeup {S} (c : chan) : M S unit := emit (EWakeup c).
Definition cprintf {S} (fmt : string) (args : list Z) : M S unit := emit (EPrintf fmt args).

(** Run an operation of a component on the state that contains it. *)
Definition zoom {S T A} (get : S → T) (set : T → S → S) (m : M T A) : M S A :=
  λ s, match m (get s) with
       | Ok a t tr => Ok a (set t s) tr
       | Blocked c t tr => Blocked c (set t s) tr
       | Crashed f tr => Crashed f tr
       end.

(** [for(x in l) body x], stopping at the first failure. *)
Fixpoint for_each {S A} (l : list A) (body : A → M S unit) : M S unit :=
  match l with
  | [] => mret ()
  | x :: l' => body x ;; for_each l' body
  end.

Lemma prepend_nil {S A} (o : outcome S A) : prepend [] o = o.
Proof. by destruct o. Qed.

Lemma prepend_app {S A} t1 t2 (o : outcome S A) :
  prepend t1 (prepend t2 o) = prepend (t1 ++ t2) o.
Proof. destruct o; simpl; by rewrite (assoc_L (++)). Qed.

Lemma bind_Ok {S A B} (m : M S A) (k : A → M S B) s a s1 t1 :
  m s = Ok a s1 t1 → (m ≫= k) s = prepend t1 (k a s1).
Proof. intros H. unfold mbind, M_bind. by rewrite H. Qed.

Lemma bind_Crashed {S A B} (m : M S A) (k : A → M S B) s f t1 :
  m s = Crashed f t1 → (m ≫= k) s = Crashed f t1.
Proof. intros H. unfold mbind, M_bind. by rewrite H. Qed.

Lemma bind_inv {S A B} (m : M S A) (k : A → M S B) s b s2 tr :
  (m ≫= k) s = Ok b s2 tr →
  ∃ a s1 t1 t2, m s = Ok a s1 t1 ∧ k a s1 = Ok b s2 t2 ∧ tr = t1 ++ t2.
Proof.
  unfold mbind, M_bind. destruct (m s) as [a s1 t1| |] eqn:Hm; try done.
  destruct (k a s1) as [b' s2' t2| |] eqn:Hk; simpl; intros [= <- <- <-]; eauto 8.
Qed.

Lemma bind_ret_l {S A B} (a : A) (k : A → M S B) s : (mret a ≫= k) s = k a s.
Proof. unfold mbind, M_bind. apply prepend_nil. Qed.

Lemma bind_assoc {S A B C} (m : M S A) (k : A → M S B) (h : B → M S C) s :
  ((m ≫= k) ≫= h) s = (m ≫= λ a, k a ≫= h) s.
Proof.
  unfold mbind, M_bind. destruct (m s) as [a s1 t1| |]; try done.
  destruct (k a s1) as [b s2 t2| |]; simpl; try done. by rewrite prepend_app.
Qed.

(** Compute an operation whose steps are known. *)
Ltac mrun := unfold mbind, M_bind, mret, M_ret, when; simpl.

(** ** Total correctness

    [wp m s Q]: started in [s], [m] returns, and its result, final state and
    events satisfy [Q]. *)

Definition wp {S A} (m : M S A) (s : S) (Q : A → S → list event → Prop) : Prop :=
  match m s with Ok a s' tr => Q a s' tr | _ => False end.

Section wp.
Context {S : Type}.

Lemma wp_Ok {A} (m : M S A) s Q :
  wp m s Q ↔ ∃ a s' tr, m s = Ok a s' tr ∧ Q a s' tr.
Proof.
  unfold wp. split.
  - destruct (m s); [eauto 6 | done | done].
  - by intros (a & s' & tr & -> & H).
Qed.

Lemma wp_ret {A} (a : A) s (Q : A → S → list event → Prop) : Q a s [] → wp (mret a) s Q.
Proof. done. Qed.

Lemma wp_bind {A B} (m : M S A) (k : A → M S B) s Q :
  wp m s (λ a s1 t1, wp (k a) s1 (λ b s2 t2, Q b s2 (t1 ++ t2))) → wp (m ≫= k) s Q.
Proof.
  unfold wp, mbind, M_bind. destruct (m s) as [a s1 t1| |]; try done.
  by destruct (k a s1).
Qed.

(** A part that is known to run quietly. *)
Lemma wp_bind_ok {A B} (m : M S A) (k : A → M S B) s a s' Q :
  m s = Ok a s' [] → wp (k a) s' Q → wp (m ≫= k) s Q.
Proof. unfold wp, mbind, M_bind. intros ->. by destruct (k a s'). Qed.

Lemma wp_mono {A} (m : M S A) s (Q Q' : A → S → list event → Prop) :
  wp m s Q → (∀ a s' tr, Q a s' tr → Q' a s' tr) → wp m s Q'.
Proof. unfold wp. destruct (m s); auto. Qed.

Lemma wp_get_state s (Q : S → S → list event → Prop) : Q s s [] → wp get_state s Q.
Proof. done. Qed.

Lemma wp_gets {A} (f : S → A) s (Q : A → S → list event → Prop) :
  Q (f s) s [] → wp (gets f) s Q.
Proof. done. Qed.

Lemma wp_modify (f : S → S) s (Q : unit → S → list event → Prop) :
  Q tt (f s) [] → wp (modify f) s Q.
Proof. done. Qed.

Lemma wp_emit e s (Q : unit → S → list event → Prop) : Q tt s [e] → wp (emit e) s Q.
Proof. done. Qed.

Lemma wp_zoom {T A} (get : S → T) (set : T → S → S) (m : M T A) s
    (Q : A → S → list event → Prop) :
  wp m (get s) (λ a t tr, Q a (set t s) tr) → wp (zoom get set m) s Q.
Proof. unfold wp, zoom. by destruct (m (get s)). Qed.
End wp.

(** Started in [s], [m] stops the machine with the fault [f]. *)
Definition crashes {S A} (m : M S A) (s : S) (f : fault) : Prop := ∃ tr, m s = Crashed f tr.

Lemma crashes_bind {S A B} (m : M S A) (k : A → M S B) s f :
  wp m s (λ a s1 _, crashes (k a) s1 f) → crashes (m ≫= k) s f.
Proof.
  unfold wp, crashes, mbind, M_bind. destruct (m s) as [a s1 t1| |]; try done.
  intros [tr ->]. simpl. eauto.
Qed.

Lemma crashes_here {S A B} (m : M S A) (k : A → M S B) s f :
  crashes m s f → crashes (m ≫= k) s f.
Proof. unfold crashes, mbind, M_bind. intros [tr ->]. eauto. Qed.

(** Run the operation in the goal through its leading primitive steps. *)
Ltac wp_step :=
  lazymatch goal with
  | |- wp (mbind _ _) _ _ => apply wp_bind
  | |- wp (mret _) _ _ => apply wp_ret
  | |- wp get_state _ _ => apply wp_get_state
  | |- wp (gets _) _ _ => apply wp_gets
  | |- wp (modify _) _ _ => apply wp_modify
  | |- wp (emit _) _ _ => apply wp_emit
  | |- wp (acquire _) _ _ => apply wp_emit
  | |- wp (release _) _ _ => apply wp_emit
  | |- wp (wakeup _) _ _ => apply wp_emit
  | |- wp (zoom _ _ _) _ _ => apply wp_zoom
  end.
Ltac wp_steps := repeat (wp_step; simpl).

(** ** Invariants

    [hoare C m s Q B]: [m] started in [s] returns with [Q], or gives up the CPU
    with [B], or stops the machine if [C] allows that. *)

Definition hoare {S A} (C : Prop) (m : M S A) (s : S) (Q : A → S → Prop) (B : S → Prop) : Prop :=
  match m s with
  | Ok a s' _ => Q a s'
  | Blocked _ s' _ => B s'
  | Crashed _ _ => C
  end.

Section hoare.
Context {S : Type} (C : Prop) (B : S → Prop).

Lemma hoare_ret {A} (a : A) s (Q : A → S → Prop) : Q a s → hoare C (mret a) s Q B.
Proof. done. Qed.

Lemma hoare_bind {A A'} (m : M S A) (k : A → M S A') s Q :
  hoare C m s (λ a s1, hoare C (k a) s1 Q B) B → hoare C (m ≫= k) s Q B.
Proof.
  unfold hoare, mbind, M_bind. destruct (m s) as [a s1 t1| |]; try done. by destruct (k a s1).
Qed.

Lemma hoare_mono {A} (m : M S A) s (Q Q' : A → S → Prop) (B' : S → Prop) :
  hoare C m s Q B' → (∀ a s', Q a s' → Q' a s') → (∀ s', B' s' → B s') → hoare C m s Q' B.
Proof. unfold hoare. destruct (m s); auto. Qed.

Lemma hoare_emit e s (Q : unit → S → Prop) : Q () s → hoare C (emit e) s Q B.
Proof. done. Qed.
Lemma hoare_gets {A} (f : S → A) s (Q : A → S → Prop) : Q (f s) s → hoare C (gets f) s Q B.
Proof. done. Qed.
Lemma hoare_modify (f : S → S) s (Q : unit → S → Prop) : Q () (f s) → hoare C (modify f) s Q B.
Proof. done. Qed.

Lemma hoare_for_each {A} (I : S → Prop) (l : list A) (body : A → M S unit) s :
  (∀ x s, x ∈ l → I s → hoare C (body x) s (λ _ s', I s') B) →
  I s → hoare C (for_each l body) s (λ _ s', I s') B.
Proof.
  intros Hb. revert s. induction l as [|x l IH]; intros s HI; simpl; [done|].
  apply hoare_bind. eapply hoare_mono; [apply Hb; [left | done]| |done].
  intros ? s' HI'. apply IH; [|done]. intros y s1 Hy. apply Hb. by right.
Qed.

(** [for(k = 0; k < n; k++) body(k)] with a loop invariant. *)
Lemma hoare_for_seq (I : nat → S → Prop) (n : nat) (body : nat → M S unit) s :
  (∀ k s, (k < n)%nat → I k s → hoare C (body k) s (λ _ s', I (k + 1)%nat s') B) →
  I O s → hoare C (for_each (seq 0 n) body) s (λ _ s', I n s') B.
Proof.
  intros Hb. assert (∀ m k s, (k + m = n)%nat → I k s →
    hoare C (for_each (seq k m) body) s (λ _ s', I n s') B) as Hgen; [|by apply Hgen].
  induction m as [|m IH]; intros k s' Hkm HI; simpl.
  { apply hoare_ret. by replace n with k by lia. }
  apply hoare_bind. eapply hoare_mono; [apply Hb; [lia | done]| |done].
  intros ? s2 HI2. apply IH; [lia|]. by rewrite <- Nat.add_1_r.
Qed.

Lemma hoare_zoom {T A} (get : S → T) (set : T → S → S) (m : M T A) s Q :
  hoare C m (get s) (λ a t, Q a (set t s)) (λ t, B (set t s)) → hoare C (zoom get set m) s Q B.
Proof. unfold hoare, zoom. by destruct (m (get s)). Qed.
End hoare.

(** [m] runs from [s] to [s'] with result [a]. *)
Definition gives {S A} (m : M S A) (s : S) (a : A) (s' : S) : Prop := ∃ tr, m s = Ok a s' tr.

Lemma gives_ret {S A} (a : A) (s : S) : gives (mret a) s a s.
Proof. by exists []. Qed.

Lemma gives_bind {S A B} (m : M S A) (k : A → M S B) s a s1 b s2 :
  gives m s a s1 → gives (k a) s1 b s2 → gives (m ≫= k) s b s2.
Proof. intros [t1 H1] [t2 H2]. exists (t1 ++ t2). rewrite (bind_Ok _ _ _ _ _ _ H1). by rewrite H2. Qed.

Lemma gives_bind_inv {S A B} (m : M S A) (k : A → M S B) s b s2 :
  gives (m ≫= k) s b s2 → ∃ a s1, gives m s a s1 ∧ gives (k a) s1 b s2.
Proof.
  unfold gives, mbind, M_bind. intros [tr H]. destruct (m s) as [a s1 t1| |]; [|done..]. exists a, s1. split; [eauto|].
  destruct (k a s1) as [b' s2' t2| |]; [|done..]. injection H as -> -> _. eauto.
Qed.

Lemma gives_det {S A} (m : M S A) s a s1 b s2 : gives m s a s1 → gives m s b s2 → a = b ∧ s1 = s2.
Proof. intros [t1 H1] [t2 H2]. rewrite H1 in H2. by injection H2. Qed.

Lemma gives_after {S A B} (m : M S A) (k : A → M S B) s a s1 b s2 :
  gives m s a s1 → gives (m ≫= k) s b s2 → gives (k a) s1 b s2.
Proof. intros Hm (a' & s1' & Hm' & Hk)%gives_bind_inv. by destruct (gives_det _ _ _ _ _ _ Hm Hm') as [-> ->]. Qed.

Lemma gives_zoom_inv {S T A} (get : S → T) (set : T → S → S) (m : M T A) s a s' :
  gives (zoom get set m) s a s' → ∃ t, gives m (get s) a t ∧ s' = set t s.
Proof. unfold gives, zoom. intros [tr H]. destruct (m (get s)) as [b t t1| |]; [|done..]. injection H as -> <- _. eauto. Qed.

Lemma hoare_gives {S A} C (m : M S A) s Q B : hoare C m s Q B → hoare C m s (λ a s', Q a s' ∧ gives m s a s') B.
Proof. unfold hoare, gives. destruct (m s); eauto. Qed.

(** Run the operation in the goal through its leading primitive steps. *)
Ltac hoare_step :=
  lazymatch goal with
  | |- hoare _ (mbind _ _) _ _ _ => apply hoare_bind
  | |- hoare _ (mret _) _ _ _ => apply hoare_ret
  | |- hoare _ (gets _) _ _ _ => apply hoare_gets
  | |- hoare _ (modify _) _ _ _ => apply hoare_modify
  | |- hoare _ (emit _) _ _ _ => apply hoare_emit
  | |- hoare _ (acquire _) _ _ _ => apply hoare_emit
  | |- hoare _ (release _) _ _ _ => apply hoare_emit
  end.

(** ** Disk writes *)

Definition disk_writes (tr : list event) : list (Z * list Z) :=
  omap (λ e, match e with EDiskWrite _ n x => Some (n, x) | _ => None end) tr.

Lemma disk_writes_app t1 t2 : disk_writes (t1 ++ t2) = disk_writes t1 ++ disk_writes t2.
Proof. apply omap_app. Qed.

(** [m] runs from [s] to [s'] with result [a] and writes [w] to the disk. *)
Definition does {S A} (m : M S A) (s : S) (a : A) (s' : S) (w : list (Z * list Z)) : Prop :=
  ∃ tr, m s = Ok a s' tr ∧ disk_writes tr = w.

Lemma does_bind {S A B} (m : M S A) (k : A → M S B) s a s1 w1 b s2 w2 w :
  does m s a s1 w1 → does (k a) s1 b s2 w2 → w = w1 ++ w2 → does (m ≫= k) s b s2 w.
Proof.
  intros (t1 & Hm & <-) (t2 & Hk & <-) ->. exists (t1 ++ t2).
  rewrite (bind_Ok _ _ _ _ _ _ Hm), Hk. split; [done | apply disk_writes_app].
Qed.

Lemma does_bind_l {S A B} (m : M S A) (k : A → M S B) s a s1 b s2 w :
  does m s a s1 [] → does (k a) s1 b s2 w → does (m ≫= k) s b s2 w.
Proof. intros Hm Hk. by eapply does_bind. Qed.

Lemma does_bind_r {S A B} (m : M S A) (k : A → M S B) s a s1 b s2 w :
  does m s a s1 w → does (k a) s1 b s2 [] → does (m ≫= k) s b s2 w.
Proof. intros Hm Hk. eapply does_bind; [done.. | by rewrite app_nil_r]. Qed.

Lemma does_ret {S A} (a : A) (s : S) : does (mret a) s a s [].
Proof. by exists []. Qed.
Lemma does_gets {S A} (f : S → A) s : does (gets f) s (f s) s [].
Proof. by exists []. Qed.
Lemma does_modify {S} (f : S → S) s : does (modify f) s () (f s) [].
Proof. by exists []. Qed.
Lemma does_acquire {S} l (s : S) : does (acquire l) s () s [].
Proof. by eexists. Qed.
Lemma does_release {S} l (s : S) : does (release l) s () s [].
Proof. by eexists. Qed.
Lemma does_wakeup {S} c (s : S) : does (wakeup c) s () s [].
Proof. by eexists. Qed.
Lemma does_zoom {S T A} (get : S → T) (set : T → S → S) (m : M T A) s a t w :
  does m (get s) a t w → does (zoom get set m) s a (set t s) w.
Proof. intros (tr & Hm & Hw). exists tr. unfold zoom. by rewrite Hm. Qed.

Lemma does_fun {S A} (m : M S A) s a s' w a' s'' w' : does m s a s' w → does m s a' s'' w' → a = a' ∧ s' = s'' ∧ w = w'.
Proof. intros (t & Hm & <-) (t' & Hm' & <-). rewrite Hm in Hm'. by simplify_eq. Qed.

(** [m] returns with [Q] and writes nothing to the disk. *)
Definition quiet {S A} (m : M S A) (s : S) (Q : A → S → Prop) : Prop := ∃ a s', does m s a s' [] ∧ Q a s'.

Lemma quiet_does {S A} (m : M S A) s a s' Q : does m s a s' [] → Q a s' → quiet m s Q.
Proof. intros. by exists a, s'. Qed.

Lemma quiet_bind {S A B} (m : M S A) (k : A → M S B) s Q :
  quiet m s (λ a s1, quiet (k a) s1 Q) → quiet (m ≫= k) s Q.
Proof. intros (a & s1 & Hm & b & s2 & Hk & HQ). exists b, s2. split; [by eapply does_bind_l | done]. Qed.

Lemma quiet_bind_does {S A B} (m : M S A) (k : A → M S B) s a s1 Q :
  does m s a s1 [] → quiet (k a) s1 Q → quiet (m ≫= k) s Q.
Proof. intros Hm Hk. apply quiet_bind. by exists a, s1. Qed.

Lemma quiet_mono {S A} (m : M S A) s (Q Q' : A → S → Prop) :
  quiet m s Q → (∀ a s', Q a s' → Q' a s') → quiet m s Q'.
Proof. intros (a & s' & Hm & HQ) H. exists a, s'. auto. Qed.

Lemma quiet_ret {S A} (a : A) (s : S) (Q : A → S → Prop) : Q a s → quiet (mret a) s Q.
Proof. apply quiet_does, does_ret. Qed.
Lemma quiet_gets {S A} (f : S → A) s (Q : A → S → Prop) : Q (f s) s → quiet (gets f) s Q.
Proof. apply quiet_does, does_gets. Qed.
Lemma quiet_get_state {S} (s : S) (Q : S → S → Prop) : Q s s → quiet get_state s Q.
Proof. apply quiet_does. by exists []. Qed.
Lemma quiet_modify {S} (f : S → S) s (Q : unit → S → Prop) : Q () (f s) → quiet (modify f) s Q.
Proof. apply quiet_does, does_modify. Qed.
Lemma quiet_emit {S} e (s : S) (Q : unit → S → Prop) : disk_writes [e] = [] → Q () s → quiet (emit e) s Q.
Proof. intros He. apply quiet_does. by exists [e]. Qed.

(** Continue with the steps whose runs are known. *)
Ltac idiom := repeat (eapply quiet_bind_does; [eassumption|]).

(** One step of an operation that is quiet. *)
Ltac quiet_step :=
  lazymatch goal with
  | |- quiet (mbind _ _) _ _ => apply quiet_bind
  | |- quiet (mret _) _ _ => apply quiet_ret
  | |- quiet (gets _) _ _ => apply quiet_gets
  | |- quiet get_state _ _ => apply quiet_get_state
  | |- quiet (modify _) _ _ => apply quiet_modify
  | |- quiet (emit _) _ _ => apply quiet_emit; [done|]
  | |- quiet (acquire _) _ _ => apply quiet_emit; [done|]
  | |- quiet (release _) _ _ => apply quiet_emit; [done|]
  | |- quiet (wakeup _) _ _ => apply quiet_emit; [done|]
  end.

(** [for(k = 0; k < n; k++) body(k)] with an invariant on the state and the writes so far. *)
Lemma does_for_seq {S} (I : nat → S → list (Z * list Z) → Prop) (n : nat) (body : nat → M S unit) s :
  (∀ k s w, (k < n)%nat → I k s w → ∃ s' w', does (body k) s () s' w' ∧ I (k + 1)%nat s' (w ++ w')) →
  I O s [] → ∃ s' w, does (for_each (seq 0 n) body) s () s' w ∧ I n s' w.
Proof.
  intros Hb. assert (∀ m k s w, (k + m = n)%nat → I k s w →
    ∃ s' w', does (for_each (seq k m) body) s () s' w' ∧ I n s' (w ++ w')) as Hgen.
  { induction m as [|m IH]; intros k s' w Hkm HI; simpl.
    - exists s', []. split; [apply does_ret|]. rewrite app_nil_r. by replace n with k by lia.
    - destruct (Hb k s' w) as (s1 & w1 & H1 & HI1); [lia | done |].
      destruct (IH (k + 1)%nat s1 (w ++ w1)) as (s2 & w2 & H2 & HI2); [lia | done |].
      exists s2, (w1 ++ w2). split; [|by rewrite (assoc_L (++))].
      rewrite Nat.add_1_r in H2. by eapply does_bind. }
  intros HI. destruct (Hgen n O s []) as (s' & w & ? & ?); [done | done | by exists s', w].
Qed.

(** The disk after a sequence of writes. *)
Definition upd_block (d : Z → list Z) (n : Z) (x : list Z) : Z → list Z := λ m, if m =? n then x else d m.
Definition apply_writes (d : Z → list Z) (w : list (Z * list Z)) : Z → list Z :=
  foldl (λ d nx, upd_block d nx.1 nx.2) d w.

Lemma upd_block_ext d d' n x m : (∀ k, d k = d' k) → upd_block d n x m = upd_block d' n x m.
Proof. intros Hd. unfold upd_block. by rewrite Hd. Qed.

Lemma apply_writes_app d w1 w2 : apply_writes d (w1 ++ w2) = apply_writes (apply_writes d w1) w2.
Proof. apply foldl_app. Qed.

Lemma apply_writes_ext d d' w n : d n = d' n → apply_writes d w n = apply_writes d' w n.
Proof.
  revert d d'. induction w as [|[m x] w IH]; intros d d' Hd; simpl; [done|]. apply IH. unfold upd_block. by rewrite Hd.
Qed.

Lemma apply_writes_other d w n : n ∉ w.*1 → apply_writes d w n = d n.
Proof.
  revert d. induction w as [|[m x] w IH]; intros d Hn; simpl in *; [done|].
  apply not_elem_of_cons in Hn as [Hne Hn]. rewrite IH by done. unfold upd_block.
  by rewrite (proj2 (Z.eqb_neq _ _) Hne).
Qed.

(** A block written with one value only ends up with it. *)
Lemma apply_writes_same d w n x : n ∈ w.*1 → (∀ y, (n, y) ∈ w → y = x) → apply_writes d w n = x.
Proof.
  revert d. induction w as [|[m z] w IH]; intros d Hn Hx; simpl in *; [by apply elem_of_nil in Hn|].
  destruct (decide (n ∈ w.*1)) as [Hw|Hw].
  - apply IH; [done|]. intros y Hy. apply Hx. by right.
  - apply elem_of_cons in Hn as [->|?]; [|done]. rewrite apply_writes_other by done.
    unfold upd_block. rewrite Z.eqb_refl. apply Hx. left.
Qed.

(** ** Loops that sleep

    The kernel waits with [while(cond) sleep(chan, lk)]. One pass of such an
    operation runs from the point where it holds its lock to the next call of
    [sleep] or to its return; between passes the rest of the system runs. *)

Inductive pass (L S R : Type) :=
  | Done (r : R) (s : S) (tr : list event)
  | Wait (c : chan) (l : L) (s : S) (tr : list event).
Arguments Done {L S R} r s tr.
Arguments Wait {L S R} c l s tr.

Section passes.
Context {L S R : Type}.

(** The operation under a scheduler that applies [env] while it sleeps. *)
Inductive runs (body : L → S → pass L S R) (env : S → S → Prop) :
    L → S → R → S → Prop :=
  | runs_done l s r s' tr :
      body l s = Done r s' tr → runs body env l s r s'
  | runs_wait l s c l1 s1 tr s2 r s' :
      body l s = Wait c l1 s1 tr → env s1 s2 →
      runs body env l1 s2 r s' → runs body env l s r s'.

(** The same, executable: [envs] are the changes made by the rest of the
    system during each sleep; [None] when the operation is still asleep
    after them. *)
Fixpoint drive (body : L → S → pass L S R) (envs : list (S → S)) (l : L) (s : S)
    : option (R * S) :=
  match body l s with
  | Done r s' _ => Some (r, s')
  | Wait _ l1 s1 _ =>
      match envs with
      | [] => None
      | e :: envs' => drive body envs' l1 (e s1)
      end
  end.

Lemma drive_runs body (env : S → S → Prop) envs l s r s' :
  Forall (λ e, ∀ x, env x (e x)) envs →
  drive body envs l s = Some (r, s') → runs body env l s r s'.
Proof.
  intros Henv. revert l s. induction Henv as [|e envs He _ IH]; intros l s; simpl;
    destruct (body l s) as [r0 s0 tr|c l1 s1 tr] eqn:Hb; intros; simplify_eq.
  - by eapply runs_done.
  - by eapply runs_done.
  - eapply runs_wait; eauto.
Qed.

(** An invariant of every pass and of the environment holds at the end. *)
Lemma runs_invariant body env (I : L → S → Prop) (Q : R → S → Prop) l s r s' :
  (∀ l s r s' tr, I l s → body l s = Done r s' tr → Q r s') →
  (∀ l s c l1 s1 tr s2, I l s → body l s = Wait c l1 s1 tr → env s1 s2 → I l1 s2) →
  runs body env l s r s' → I l s → Q r s'.
Proof. intros Hd Hw Hr. induction Hr; eauto. Qed.
End passes.

(** ** Lists *)

Lemma alter_insert {A} (f : A → A) (l : list A) (i : nat) x :
  (i < length l)%nat → alter f i (<[i := x]> l) = <[i := f x]> l.
Proof.
  revert i. induction l as [|y l IH]; intros [|i] Hi; simpl in *; try lia; [done|].
  unfold alter, insert in *. simpl. f_equal. apply IH. lia.
Qed.

Lemma alter_alter {A} (f g : A → A) (l : list A) (i : nat) :
  alter g i (alter f i l) = alter (g ∘ f) i l.
Proof.
  revert i. induction l as [|y l IH]; intros [|i]; try done. unfold alter in *. simpl. by rewrite IH.
Qed.

Lemma alter_as_insert {A} (f : A → A) (l : list A) (i : nat) x :
  l !! i = Some x → alter f i l = <[i := f x]> l.
Proof.
  intros Hx. rewrite <- (list_insert_id l i x) at 1 by done.
  apply alter_insert. by eapply lookup_lt_Some.
Qed.

(** ** Reachability *)

Inductive star {A} (R : A → A → Prop) : A → A → Prop :=
  | star_refl a : star R a a
  | star_step a b c : star R a b → R b c → star R a c.

Lemma star_left {A} (R : A → A → Prop) a b c : R a b → star R b c → star R a c.
Proof. intros Hab Hs. induction Hs; eauto using @star. Qed.

Lemma star_invariant {A} (R : A → A → Prop) (I : A → Prop) a b :
  (∀ x y, I x → R x y → I y) → star R a b → I a → I b.
Proof. intros Hstep Hs. induction Hs; eauto. Qed.
