(* ===== verification/Layout.v ===== *)
(** * Constants and address arithmetic

    param.h, fcntl.h, types.h, memlayout.h and mmu.h: the limits of the kernel, the
    memory layout, and the macros that take addresses and page table entries
    apart. *)

From S2P Require Import Prelude.

(** ** param.h *)
Definition NPROC : nat := 64.
Definition KSTACKSIZE : Z := 4096.
Definition NCPU : nat := 8.
Definition NOFILE : nat := 16.
Definition NFILE : nat := 100.
Definition NINODE : nat := 50.
Definition NDEV : Z := 10.
Definition ROOTDEV : Z := 1.
Definition MAXARG : nat := 32.
Definition MAXOPBLOCKS : Z := 10.
Definition LOGSIZE : Z := MAXOPBLOCKS * 3.
Definition NBUF : nat := Z.to_nat (MAXOPBLOCKS * 3).
Definition FSSIZE : Z := 1000.

(** ** fcntl.h *)
Definition O_RDONLY : Z := 0.
Definition O_WRONLY : Z := 1.
Definition O_RDWR : Z := 2.
Definition O_CREATE : Z := 0x200.

(** ** types.h: signals *)
Definition SIG_DFL : Z := 0.
Definition SIG_IGN : Z := 1.
Definition SIGKILL : Z := 9.
Definition SIGSTOP : Z := 17.
Definition SIGCONT : Z := 19.

(** ** memlayout.h *)
Definition EXTMEM : Z := 0x100000.
Definition PHYSTOP : Z := 0xE000000.
Definition DEVSPACE : Z := 0xFE000000.
Definition KERNBASE : Z := 0x80000000.
Definition KERNLINK : Z := KERNBASE + EXTMEM.
Definition V2P (a : Z) : Z := u32 (a - KERNBASE).
Definition P2V (a : Z) : Z := u32 (a + KERNBASE).

(** ** mmu.h *)
Definition FL_IF : Z := 0x200.
Definition SEG_KCODE : Z := 1.
Definition SEG_KDATA : Z := 2.
Definition SEG_UCODE : Z := 3.
Definition SEG_UDATA : Z := 4.
Definition DPL_USER : Z := 3.

Definition NPDENTRIES : Z := 1024.
Definition NPTENTRIES : Z := 1024.
Definition PGSIZE : Z := 4096.
Definition PTXSHIFT : Z := 12.
Definition PDXSHIFT : Z := 22.

Definition PDX (va : Z) : Z := Z.land (Z.shiftr va PDXSHIFT) 0x3FF.
Definition PTX (va : Z) : Z := Z.land (Z.shiftr va PTXSHIFT) 0x3FF.
Definition PGADDR (d t o : Z) : Z :=
  u32 (Z.lor (Z.lor (Z.shiftl d PDXSHIFT) (Z.shiftl t PTXSHIFT)) o).
Definition PGROUNDUP (sz : Z) : Z := Z.land (u32 (sz + PGSIZE - 1)) (Z.lnot (PGSIZE - 1)).
Definition PGROUNDDOWN (a : Z) : Z := Z.land a (Z.lnot (PGSIZE - 1)).

Definition PTE_P : Z := 0x001.
Definition PTE_W : Z := 0x002.
Definition PTE_U : Z := 0x004.
Definition PTE_ADDR (pte : Z) : Z := Z.land pte (Z.lnot 0xFFF).
Definition PTE_FLAGS (pte : Z) : Z := Z.land pte 0xFFF.

(** ** Address arithmetic *)

Lemma land_lnot_ones x k : 0 ≤ k → Z.land x (Z.lnot (2 ^ k - 1)) = x - x mod 2 ^ k.
Proof.
  intros Hk. replace (2 ^ k - 1) with (Z.ones k) by (rewrite Z.ones_equiv; lia).
  rewrite <- Z.ldiff_land, Z.ldiff_ones_r, Z.shiftl_mul_pow2, Z.shiftr_div_pow2 by done.
  pose proof (Z.div_mod x (2 ^ k)). pose proof (Z.pow_pos_nonneg 2 k). lia.
Qed.

Lemma PGROUNDDOWN_eq a : PGROUNDDOWN a = a - a mod PGSIZE.
Proof. apply (land_lnot_ones a 12). lia. Qed.

Lemma PGROUNDUP_eq sz : 0 ≤ sz < 2 ^ 32 - PGSIZE →
  PGROUNDUP sz = (sz + PGSIZE - 1) - (sz + PGSIZE - 1) mod PGSIZE.
Proof.
  unfold PGSIZE. intros. unfold PGROUNDUP, PGSIZE. rewrite u32_small by lia.
  rewrite (land_lnot_ones _ 12) by lia. done.
Qed.

Lemma PGROUNDUP_bounds sz : 0 ≤ sz < 2 ^ 32 - PGSIZE →
  sz ≤ PGROUNDUP sz < sz + PGSIZE ∧ PGROUNDUP sz mod PGSIZE = 0.
Proof.
  intros H. rewrite PGROUNDUP_eq by done. unfold PGSIZE in *.
  Z.div_mod_to_equations. lia.
Qed.

Lemma PTE_ADDR_eq pte : PTE_ADDR pte = pte - pte mod PGSIZE.
Proof. apply (land_lnot_ones pte 12). lia. Qed.

Lemma PTE_FLAGS_eq pte : PTE_FLAGS pte = pte mod PGSIZE.
Proof. apply (Z.land_ones pte 12). lia. Qed.

Lemma V2P_eq a : KERNBASE ≤ a < 2 ^ 32 → V2P a = a - KERNBASE.
Proof. unfold KERNBASE. intros. unfold V2P, KERNBASE. apply u32_small. lia. Qed.

Lemma P2V_V2P a : KERNBASE ≤ a < 2 ^ 32 → P2V (V2P a) = a.
Proof.
  intros Ha. rewrite V2P_eq by done. unfold P2V. unfold KERNBASE in *.
  replace (a - 2147483648 + 2147483648) with a by lia. apply u32_small. lia.
Qed.

Lemma PDX_eq va : 0 ≤ va < 2 ^ 32 → PDX va = va / 2 ^ 22.
Proof.
  intros. unfold PDX, PDXSHIFT. rewrite Z.shiftr_div_pow2 by lia.
  change 0x3FF with (Z.ones 10). rewrite Z.land_ones by lia.
  apply Z.mod_small. Z.div_mod_to_equations. lia.
Qed.

Lemma PTX_eq va : PTX va = (va / 2 ^ 12) mod 2 ^ 10.
Proof.
  unfold PTX, PTXSHIFT. rewrite Z.shiftr_div_pow2 by lia.
  change 0x3FF with (Z.ones 10). by rewrite Z.land_ones by lia.
Qed.

(** Flags in the low bits of an aligned address. *)
Lemma lor_low x f k : 0 ≤ k → x mod 2 ^ k = 0 → 0 ≤ f < 2 ^ k → Z.lor x f = x + f.
Proof.
  intros Hk Hx Hf. assert (Z.land x f = 0) as Hl.
  { apply Z.bits_inj'. intros j Hj. rewrite Z.land_spec, Z.bits_0. destruct (decide (j < k)).
    - rewrite <- (Z.mod_pow2_bits_low x k j) by lia. by rewrite Hx, Z.bits_0.
    - replace f with (f mod 2 ^ k) by (apply Z.mod_small; lia).
      rewrite Z.mod_pow2_bits_high by lia. apply andb_false_r. }
  by rewrite Z.add_nocarry_lxor, Z.lxor_lor by done.
Qed.

(** A page table entry made of a page-aligned physical address and flags. *)
Lemma pte_flags x f : x mod PGSIZE = 0 → 0 ≤ f < PGSIZE → PTE_ADDR (x + f) = x ∧ PTE_FLAGS (x + f) = f.
Proof.
  intros Hx Hf. rewrite PTE_ADDR_eq, PTE_FLAGS_eq. unfold PGSIZE in *.
  assert ((x + f) mod 4096 = f) as ->; [|split; lia]. rewrite Z.add_mod, Hx by lia.
  rewrite Z.add_0_l, Z.mod_mod, Z.mod_small; lia.
Qed.

Lemma V2P_mod a : KERNBASE ≤ a < 2 ^ 32 → a mod PGSIZE = 0 → V2P a mod PGSIZE = 0.
Proof.
  intros Ha Hm. rewrite V2P_eq by done. unfold KERNBASE, PGSIZE in *. Z.div_mod_to_equations. lia.
Qed.

Lemma land_1_mod x : Z.land x 1 = x mod 2.
Proof. apply (Z.land_ones x 1). lia. Qed.
