(* ===== verification/Memory.v ===== *)
(** * Byte-addressed memory

    Memory is a total map from addresses to bytes; this file holds the
    accessors of 32-bit words and byte ranges that the components share, and
    their algebra. *)

From S2P Require Import Prelude.

Definition mem : Type := Z → Z.

Definition mset (m : mem) (a v : Z) : mem := λ x, if x =? a then v else m x.

(** Byte [i] of the little-endian representation of [v]. *)
Definition byte_of (v i : Z) : Z := u8 (Z.shiftr v (8 * i)).

Definition in_range (a n x : Z) : bool := (a <=? x) && (x <? a + n).

Definition load32 (m : mem) (a : Z) : Z :=
  m a + 2 ^ 8 * m (a + 1) + 2 ^ 16 * m (a + 2) + 2 ^ 24 * m (a + 3).

Definition store32 (m : mem) (a v : Z) : mem :=
  λ x, if in_range a 4 x then byte_of v (x - a) else m x.

Definition read_bytes (m : mem) (a n : Z) : list Z := (λ i, m (a + i)) <$> seqZ 0 n.

Definition write_bytes (m : mem) (a : Z) (l : list Z) : mem :=
  λ x, if in_range a (length l) x then default (m x) (l !! Z.to_nat (x - a)) else m x.

(** Every cell holds a byte. *)
Definition bytes_ok (m : mem) : Prop := ∀ x, 0 ≤ m x < 2 ^ 8.

(** The two memories agree outside [[a, a+n)]. *)
Definition same_outside (a n : Z) (m m' : mem) : Prop :=
  ∀ x, x < a ∨ a + n ≤ x → m' x = m x.

(** Little-endian words in byte lists (disk blocks, stack frames). *)
Definition le32 (v : Z) : list Z := [byte_of v 0; byte_of v 1; byte_of v 2; byte_of v 3].

Definition le32_val (l : list Z) : Z :=
  match l with
  | b0 :: b1 :: b2 :: b3 :: _ => b0 + 2 ^ 8 * b1 + 2 ^ 16 * b2 + 2 ^ 24 * b3
  | _ => 0
  end.

Definition word_at (l : list Z) (i : nat) : Z := le32_val (drop (4 * i) l).

(** Half words. *)
Definition le16 (v : Z) : list Z := [byte_of v 0; byte_of v 1].

Definition half_at (l : list Z) (i : nat) : Z :=
  match drop (2 * i) l with b0 :: b1 :: _ => b0 + 2 ^ 8 * b1 | _ => 0 end.

Create HintDb memory.

Lemma in_range_true a n x : in_range a n x = true ↔ a ≤ x < a + n.
Proof. unfold in_range. rewrite andb_true_iff, Z.leb_le, Z.ltb_lt. done. Qed.

Lemma in_range_false a n x : in_range a n x = false ↔ x < a ∨ a + n ≤ x.
Proof. unfold in_range. rewrite andb_false_iff, Z.leb_gt, Z.ltb_ge. done. Qed.

(** Case split on the range tests of the goal. *)
Ltac range_cases :=
  repeat match goal with
  | |- context [in_range ?a ?n ?x] =>
      let H := fresh "Hr" in
      destruct (in_range a n x) eqn:H;
      [apply in_range_true in H | apply in_range_false in H]
  | H : context [in_range ?a ?n ?x] |- _ =>
      let H' := fresh "Hr" in
      destruct (in_range a n x) eqn:H';
      [apply in_range_true in H' | apply in_range_false in H']
  end.

Lemma byte_of_range v i : 0 ≤ byte_of v i < 2 ^ 8.
Proof. apply Z.mod_pos_bound. lia. Qed.

Lemma byte_of_0 v : byte_of v 0 = v mod 2 ^ 8.
Proof. unfold byte_of, u8. by rewrite Z.shiftr_0_r. Qed.

Lemma byte_of_div v i : 0 ≤ i → byte_of v i = (v / 2 ^ (8 * i)) mod 2 ^ 8.
Proof. intros. unfold byte_of, u8. rewrite Z.shiftr_div_pow2 by lia. done. Qed.

(** The four bytes of a word give the word back. *)
Lemma bytes_of_word v :
  byte_of v 0 + 2 ^ 8 * byte_of v 1 + 2 ^ 16 * byte_of v 2 + 2 ^ 24 * byte_of v 3 = u32 v.
Proof.
  rewrite !byte_of_div by lia. unfold u32.
  change (2 ^ (8 * 0)) with 1. change (2 ^ (8 * 1)) with 256.
  change (2 ^ (8 * 2)) with 65536. change (2 ^ (8 * 3)) with 16777216.
  change (2 ^ 8) with 256. change (2 ^ 16) with 65536. change (2 ^ 24) with 16777216.
  change (2 ^ 32) with 4294967296. Z.div_mod_to_equations. lia.
Qed.

Lemma mset_same m a v : mset m a v a = v.
Proof. unfold mset. by rewrite Z.eqb_refl. Qed.

Lemma mset_other m a v x : x ≠ a → mset m a v x = m x.
Proof. intros. unfold mset. by rewrite (proj2 (Z.eqb_neq _ _)). Qed.

Lemma load_store32_same m a v : load32 (store32 m a v) a = u32 v.
Proof.
  unfold load32, store32. range_cases; try lia.
  rewrite <- bytes_of_word. repeat f_equal; lia.
Qed.

Lemma load_store32_other m a b v :
  a + 4 ≤ b ∨ b + 4 ≤ a → load32 (store32 m a v) b = load32 m b.
Proof. intros. unfold load32, store32. range_cases; lia. Qed.

Lemma store32_outside m a v : same_outside a 4 m (store32 m a v).
Proof. intros x Hx. unfold store32. range_cases; lia. Qed.

(** A word outside the changed range is unchanged. *)
Lemma load32_same_outside a n m m' b :
  same_outside a n m m' → b + 4 ≤ a ∨ a + n ≤ b → load32 m' b = load32 m b.
Proof. intros Hs Hb. unfold load32. by rewrite !Hs by lia. Qed.

Lemma same_outside_refl a n m : same_outside a n m m.
Proof. done. Qed.

Lemma same_outside_trans a n m1 m2 m3 :
  same_outside a n m1 m2 → same_outside a n m2 m3 → same_outside a n m1 m3.
Proof. intros H1 H2 x Hx. by rewrite H2, H1. Qed.

Lemma same_outside_mono a n a' n' m m' :
  a' ≤ a → a + n ≤ a' + n' → same_outside a n m m' → same_outside a' n' m m'.
Proof. intros ?? H x Hx. apply H. lia. Qed.

Lemma same_outside_mset a n m x v : a ≤ x < a + n → same_outside a n m (mset m x v).
Proof. intros ? y Hy. apply mset_other. lia. Qed.

Lemma load32_range m a : bytes_ok m → 0 ≤ load32 m a < 2 ^ 32.
Proof.
  intros Hm. unfold load32.
  pose proof (Hm a). pose proof (Hm (a + 1)). pose proof (Hm (a + 2)).
  pose proof (Hm (a + 3)). lia.
Qed.

Lemma bytes_ok_store32 m a v : bytes_ok m → bytes_ok (store32 m a v).
Proof. intros Hm x. unfold store32. range_cases; [apply byte_of_range | apply Hm]. Qed.

Lemma length_le32 v : length (le32 v) = 4%nat.
Proof. done. Qed.

Lemma length_le32s l : length (concat (le32 <$> l)) = (4 * length l)%nat.
Proof. induction l as [|a l IH]; [done|]. rewrite fmap_cons. cbn [concat]. rewrite length_app, IH, length_le32. simpl. lia. Qed.

Lemma le32_val_le32 v l : le32_val (le32 v ++ l) = u32 v.
Proof. simpl. apply bytes_of_word. Qed.

Lemma length_read_bytes m a n : length (read_bytes m a n) = Z.to_nat n.
Proof. unfold read_bytes. by rewrite length_fmap, length_seqZ. Qed.

Lemma lookup_read_bytes m a n i :
  0 ≤ i < n → read_bytes m a n !! Z.to_nat i = Some (m (a + i)).
Proof.
  intros. unfold read_bytes. rewrite list_lookup_fmap.
  rewrite (proj2 (lookup_seqZ _ _ _ i)) by lia. done.
Qed.

Lemma read_bytes_lookup f a n (i : nat) : read_bytes f a n !! i = if decide (i < n) then Some (f (a + i)) else None.
Proof.
  case_decide as Hi.
  - rewrite <- (Nat2Z.id i). by rewrite lookup_read_bytes, !Nat2Z.id by lia.
  - apply lookup_ge_None. rewrite length_read_bytes. lia.
Qed.

Lemma read_bytes_app f a m k : 0 ≤ m → 0 ≤ k → read_bytes f a (m + k) = read_bytes f a m ++ read_bytes f (a + m) k.
Proof.
  intros Hm Hk. apply list_eq. intros i. rewrite lookup_app, !read_bytes_lookup, length_read_bytes.
  destruct (decide (i < m)); [by rewrite decide_True by lia|]. destruct (decide (i < m + k)).
  - rewrite decide_True by lia. do 2 f_equal. lia.
  - by rewrite decide_False by lia.
Qed.

Lemma write_bytes_outside m a l : same_outside a (length l) m (write_bytes m a l).
Proof. intros x Hx. unfold write_bytes. range_cases; [lia | done]. Qed.

Lemma write_bytes_lookup m a l i b :
  l !! i = Some b → write_bytes m a l (a + Z.of_nat i) = b.
Proof.
  intros Hi. pose proof (lookup_lt_Some _ _ _ Hi). unfold write_bytes.
  range_cases; [|lia]. replace (Z.to_nat (a + i - a)) with i by lia. by rewrite Hi.
Qed.

Lemma write_bytes_app f a l1 l2 x : write_bytes (write_bytes f a l1) (a + length l1) l2 x = write_bytes f a (l1 ++ l2) x.
Proof.
  unfold write_bytes. rewrite length_app. range_cases; try lia; try done.
  - rewrite lookup_app_r by lia. by replace (Z.to_nat (x - a) - length l1)%nat with (Z.to_nat (x - (a + length l1))) by lia.
  - rewrite lookup_app_l by lia. done.
Qed.

(** Reading back what was written. *)
Lemma read_write_bytes m a l : read_bytes (write_bytes m a l) a (length l) = l.
Proof.
  apply list_eq. intros i. destruct (decide (i < length l)%nat) as [Hi|Hi].
  - destruct (lookup_lt_is_Some_2 _ _ Hi) as [b Hb].
    pose proof (lookup_read_bytes (write_bytes m a l) a (length l) i) as Hr.
    rewrite Nat2Z.id in Hr. rewrite Hr, Hb by lia. f_equal. by apply write_bytes_lookup.
  - rewrite !lookup_ge_None_2; [done| |]; rewrite ?length_read_bytes; lia.
Qed.

Lemma read_bytes_same_outside a n m m' b k :
  same_outside a n m m' → b + k ≤ a ∨ a + n ≤ b → read_bytes m' b k = read_bytes m b k.
Proof.
  intros Hs Hb. unfold read_bytes. apply list_fmap_ext. intros i x Hx.
  apply lookup_seqZ in Hx as [-> ?]. apply Hs. lia.
Qed.

#[export] Hint Resolve same_outside_refl same_outside_mset store32_outside
  write_bytes_outside bytes_ok_store32 byte_of_range : memory.

(** ** Structures inside blocks *)

(** The bytes [x] stored at offset [off] of [l]. *)
Definition splice (off : nat) (x l : list Z) : list Z :=
  take off l ++ x ++ drop (off + length x) l.

Definition word_put (l : list Z) (i : nat) (v : Z) : list Z := splice (4 * i) (le32 v) l.

Lemma length_splice off x l : (off + length x ≤ length l)%nat → length (splice off x l) = length l.
Proof. intros H. unfold splice. rewrite !length_app, length_take, length_drop. lia. Qed.

Lemma lookup_splice off x l i : (off + length x ≤ length l)%nat →
  splice off x l !! i = if decide (off ≤ i < off + length x)%nat then x !! (i - off)%nat else l !! i.
Proof.
  intros H. unfold splice. assert (length (take off l) = off) as Ht by (rewrite length_take; lia).
  destruct (decide (i < off)%nat).
  - rewrite lookup_app_l by lia. rewrite lookup_take_lt by lia. by rewrite decide_False by lia.
  - rewrite lookup_app_r, Ht by lia. case_decide.
    + by rewrite lookup_app_l by lia.
    + rewrite lookup_app_r, lookup_drop by lia. f_equal. lia.
Qed.

(** Reading back a spliced field, and a field beside it. *)
Lemma splice_same off x l n : (off + length x ≤ length l)%nat → n = length x → take n (drop off (splice off x l)) = x.
Proof.
  intros H ->. apply list_eq. intros i. destruct (decide (i < length x)%nat).
  - rewrite lookup_take_lt, lookup_drop, lookup_splice, decide_True by lia. f_equal. lia.
  - rewrite lookup_take_ge by lia. symmetry. apply lookup_ge_None. lia.
Qed.

Lemma splice_other off x l o n : (off + length x ≤ length l)%nat →
  (o + n ≤ off)%nat ∨ (off + length x ≤ o)%nat → take n (drop o (splice off x l)) = take n (drop o l).
Proof.
  intros H Ho. apply list_eq. intros i. destruct (decide (i < n)%nat).
  - rewrite !lookup_take_lt, !lookup_drop, lookup_splice, decide_False by lia. done.
  - by rewrite !lookup_take_ge by lia.
Qed.

Lemma splice_splice off x y l : (off + length x ≤ length l)%nat → length x = length y →
  splice off y (splice off x l) = splice off y l.
Proof.
  intros H Hxy. apply list_eq. intros i. rewrite !lookup_splice; rewrite ?length_splice; try lia.
  case_decide; [done|]. rewrite decide_False; [done | lia].
Qed.

Lemma le32_val_take l : le32_val (take 4 l) = le32_val l.
Proof. by destruct l as [|? [|? [|? [|? l]]]]. Qed.

Lemma length_word_put l i v : (4 * i + 4 ≤ length l)%nat → length (word_put l i v) = length l.
Proof. intros. apply length_splice. by rewrite length_le32. Qed.

Lemma word_at_put_same l i v : (4 * i + 4 ≤ length l)%nat → word_at (word_put l i v) i = u32 v.
Proof.
  intros Hl. unfold word_at, word_put. rewrite <- le32_val_take, splice_same by (rewrite ?length_le32; lia).
  rewrite <- (app_nil_r (le32 v)). apply le32_val_le32.
Qed.

Lemma word_at_put_other l i j v : (4 * i + 4 ≤ length l)%nat → i ≠ j → word_at (word_put l i v) j = word_at l j.
Proof.
  intros Hl Hij. unfold word_at, word_put. rewrite <- le32_val_take, splice_other by (rewrite ?length_le32; lia).
  apply le32_val_take.
Qed.
