(* ===== verification/Spinlock.v ===== *)
(** * spinlock.c: spin locks and interrupt nesting

    The sequential model is what one CPU does with a lock: [pushcli] and
    [popcli] on the CPU's nesting count and interrupt flag, [acquire] and
    [release] on the lock. The interleaved model at the end runs the two-step
    acquire and release of any number of CPUs against one lock word. *)

From S2P Require Import Prelude.

Module Spinlock.

(** [struct cpu] (proc.h), the fields the locks use, and the CPU's interrupt
    flag. *)
Record cpu := mk_cpu {
  cid : nat;            (** index in [cpus] *)
  apicid : Z;
  ifl : bool;           (** [FL_IF] of eflags *)
  ncli : Z;
  intena : bool;
}.

(** [struct spinlock]; [pcs] and [name] serve debugging only. *)
Record spinlock := mk_lock { locked : bool; lcpu : option nat }.

Definition initlock : spinlock := mk_lock false None.

(** proc.c: [mycpu], the search of the CPU table for this CPU's APIC id. *)
Fixpoint mycpu_from (cs : list cpu) (lapicid : Z) (i : nat) : option nat :=
  match cs with
  | [] => None
  | c :: cs' => if apicid c =? lapicid then Some i else mycpu_from cs' lapicid (S i)
  end.

Definition mycpu (cs : list cpu) (ncpu : nat) (flag : bool) (lapicid : Z) : M unit nat :=
  if flag then panic "mycpu called with interrupts enabled\n"
  else match mycpu_from (take ncpu cs) lapicid 0 with
       | Some i => mret i
       | None => panic "unknown apicid\n"
       end.

(** The state one CPU works on: itself and a lock. *)
Definition lstate : Type := cpu * spinlock.

Definition set_if (b : bool) (c : cpu) : cpu := mk_cpu (cid c) (apicid c) b (ncli c) (intena c).
Definition set_ncli (n : Z) (c : cpu) : cpu := mk_cpu (cid c) (apicid c) (ifl c) n (intena c).
Definition set_intena (b : bool) (c : cpu) : cpu := mk_cpu (cid c) (apicid c) (ifl c) (ncli c) b.

(** A call of [mycpu] by the CPU itself: it fails when interrupts are on. *)
Definition mycpu_check : M cpu unit :=
  c ← get_state ;
  if ifl c then panic "mycpu called with interrupts enabled\n" else mret ().

Definition pushcli : M cpu unit :=
  eflags ← gets ifl ;
  modify (set_if false) ;;
  mycpu_check ;;
  n ← gets ncli ;
  when (n =? 0) (modify (set_intena eflags)) ;;
  modify (λ c, set_ncli (ncli c + 1) c).

Definition popcli : M cpu unit :=
  f ← gets ifl ;
  if f : bool then panic "popcli - interruptible" else
  mycpu_check ;;
  modify (λ c, set_ncli (ncli c - 1) c) ;;
  c ← get_state ;
  if ncli c <? 0 then panic "popcli" else
  when ((ncli c =? 0) && intena c) (modify (set_if true)).

Definition on_cpu {A} : M cpu A → M lstate A := zoom fst (λ c s, (c, snd s)).

Definition holding : M lstate bool :=
  on_cpu pushcli ;;
  s ← get_state ;
  on_cpu popcli ;;
  mret (locked s.2 && bool_decide (lcpu s.2 = Some (cid s.1))).

Definition acquire_lock (l : lockid) : M lstate unit :=
  on_cpu pushcli ;;
  h ← holding ;
  if h : bool then panic "acquire" else
  s ← get_state ;
  if locked s.2 then block_on (Ch_spin l)     (* another CPU holds the lock *)
  else
    modify (λ s, (s.1, mk_lock true (lcpu s.2))) ;;
    on_cpu mycpu_check ;;
    modify (λ s, (s.1, mk_lock (locked s.2) (Some (cid s.1)))).

Definition release_lock : M lstate unit :=
  h ← holding ;
  if negb h then panic "release" else
  modify (λ s, (s.1, mk_lock (locked s.2) None)) ;;
  modify (λ s, (s.1, mk_lock false (lcpu s.2))) ;;
  on_cpu popcli.

(** ** One CPU *)

(** Interrupts are off inside critical sections; [intena] remembers the flag
    of the outermost [pushcli]. *)
Definition cpu_ok (c : cpu) : Prop := 0 ≤ ncli c ∧ (0 < ncli c → ifl c = false).

(** The CPU after one more [pushcli]. *)
Definition pushed (c : cpu) : cpu :=
  mk_cpu (cid c) (apicid c) false (ncli c + 1) (if ncli c =? 0 then ifl c else intena c).

Lemma pushcli_run c : pushcli c = Ok () (pushed c) [].
Proof. destruct c as [i a f n e]. unfold pushcli, pushed; mrun. by destruct (n =? 0). Qed.

(** [popcli] undoes [pushcli], up to the remembered flag. *)
Lemma popcli_pushed c :
  cpu_ok c →
  popcli (pushed c) = Ok () (set_intena (intena (pushed c)) c) [].
Proof.
  intros [Hn Hf]. destruct c as [i a f n e]. unfold popcli, pushed; simpl in *.
  unfold set_ncli, set_intena; mrun. replace (n + 1 - 1) with n by lia.
  destruct (Z.ltb_spec n 0); [lia|].
  destruct (Z.eqb_spec n 0) as [->|]; simpl.
  - by destruct f.
  - rewrite Hf by lia. done.
Qed.

Lemma cpu_ok_pushed c : cpu_ok c → cpu_ok (pushed c).
Proof. intros [Hn _]. split; simpl; [lia | done]. Qed.

Lemma pushed_intena_idemp c : set_intena (intena (pushed (pushed c))) (pushed c) = pushed c ∨ ncli c = -1.
Proof.
  destruct c as [i a f n e]. unfold pushed, set_intena; simpl.
  destruct (Z.eqb_spec (n + 1) 0); [right; lia | by left].
Qed.

Lemma holding_run c l :
  cpu_ok c → 0 < ncli c →
  holding (c, l) = Ok (locked l && bool_decide (lcpu l = Some (cid c))) (c, l) [].
Proof.
  intros Hc Hn. unfold holding, on_cpu, zoom; mrun.
  rewrite pushcli_run. simpl. rewrite popcli_pushed by done. simpl. do 3 f_equal.
  destruct c as [i a f n e]; unfold set_intena; simpl in *.
  destruct (Z.eqb_spec n 0); [lia | done].
Qed.

Lemma acquire_free l c :
  cpu_ok c → acquire_lock l (c, initlock) = Ok () (pushed c, mk_lock true (Some (cid c))) [].
Proof.
  intros Hc. unfold acquire_lock, on_cpu, zoom; mrun.
  rewrite pushcli_run. simpl.
  rewrite holding_run by (first [by apply cpu_ok_pushed | destruct Hc; simpl; lia]). done.
Qed.

Lemma release_held c :
  cpu_ok c →
  release_lock (pushed c, mk_lock true (Some (cid c))) =
    Ok () (set_intena (intena (pushed c)) c, initlock) [].
Proof.
  intros Hc. unfold release_lock; mrun.
  rewrite holding_run by (first [by apply cpu_ok_pushed | destruct Hc; simpl; lia]). simpl.
  rewrite bool_decide_eq_true_2 by done. simpl. unfold on_cpu, zoom. simpl.
  rewrite popcli_pushed by done. done.
Qed.

(** ** Traces of lock operations

    The other components report their lock operations as events. A trace is
    disciplined when it never acquires a lock it holds, releases only locks it
    holds, and makes the checks of [sched] with exactly one lock held; running
    a disciplined trace on the CPU and the locks does not panic and leaves the
    CPU as it was. *)

Fixpoint disciplined (held : list lockid) (tr : list event) : option (list lockid) :=
  match tr with
  | [] => Some held
  | EAcquire l :: tr' => if decide (l ∈ held) then None else disciplined (l :: held) tr'
  | ERelease l :: tr' =>
      if decide (l ∈ held) then disciplined (filter (λ x, x ≠ l) held) tr' else None
  | ECheck k _ :: tr' =>
      if match k with
         | Holding l => bool_decide (l ∈ held)
         | OneLock => (length held =? 1)%nat
         | IntrOff => negb (length held =? 0)%nat
         end
      then disciplined held tr' else None
  | ESti :: _ => None
  | _ :: tr' => disciplined held tr'
  end.

Definition locks : Type := lockid → spinlock.
Definition set_lock (L : locks) (l : lockid) (k : spinlock) : locks :=
  λ x, if decide (x = l) then k else L x.

Definition on_lock {A} (l : lockid) : M lstate A → M (cpu * locks) A :=
  zoom (λ s, (s.1, s.2 l)) (λ t s, (t.1, set_lock s.2 l t.2)).

Definition exec_event (e : event) : M (cpu * locks) unit :=
  match e with
  | EAcquire l => on_lock l (acquire_lock l)
  | ERelease l => on_lock l release_lock
  | ECli => zoom fst (λ c s, (c, s.2)) (pushcli ;; popcli)
  | ECheck (Holding l) msg =>
      h ← on_lock l holding ; if h : bool then mret () else panic msg
  | ECheck OneLock msg => c ← gets fst ; if ncli c =? 1 then mret () else panic msg
  | ECheck IntrOff msg => c ← gets fst ; if ifl c then panic msg else mret ()
  | ESti => modify (λ s, (set_if true s.1, s.2))
  | _ => mret ()
  end.

Fixpoint exec_events (tr : list event) : M (cpu * locks) unit :=
  match tr with [] => mret () | e :: tr' => exec_event e ;; exec_events tr' end.

(** The locks this CPU holds are exactly [held]; nobody else holds one. *)
Definition lock_rep (c : cpu) (L : locks) (held : list lockid) : Prop :=
  ∀ l, L l = if decide (l ∈ held) then mk_lock true (Some (cid c)) else initlock.

(** [c] is [c0] with the locks [held] taken. *)
Definition nested (c0 c : cpu) (held : list lockid) : Prop :=
  cid c = cid c0 ∧ ncli c = ncli c0 + length held ∧
  ifl c = (if held is [] then ifl c0 else false) ∧
  (ncli c0 = 0 → held ≠ [] → intena c = ifl c0).

Lemma popcli_run c :
  ifl c = false → 0 < ncli c →
  popcli c = Ok () (set_if ((ncli c - 1 =? 0) && intena c) (set_ncli (ncli c - 1) c)) [].
Proof.
  intros Hf Hn. destruct c as [i a f n e]. simpl in *. subst f.
  unfold popcli; mrun. destruct (Z.ltb_spec (n - 1) 0); [lia|].
  by destruct ((n - 1 =? 0) && e).
Qed.

Lemma release_run c :
  cpu_ok c → 0 < ncli c →
  release_lock (c, mk_lock true (Some (cid c))) =
    Ok () (set_if ((ncli c - 1 =? 0) && intena c) (set_ncli (ncli c - 1) c), initlock) [].
Proof.
  intros Hc Hn. unfold release_lock; mrun. rewrite holding_run by done. simpl.
  rewrite bool_decide_eq_true_2 by done. unfold on_cpu, zoom. simpl.
  destruct Hc as [_ Hf]. by rewrite popcli_run by auto.
Qed.

Lemma nested_cpu_ok c0 c held : cpu_ok c0 → nested c0 c held → cpu_ok c.
Proof.
  intros [Hn Hf] (_ & Hc & Hi & _). split; [lia|]. intros Hp. rewrite Hi.
  destruct held; [|done]. apply Hf. simpl in Hc. lia.
Qed.

Lemma nested_pushed c0 c held l :
  cpu_ok c0 → nested c0 c held → nested c0 (pushed c) (l :: held).
Proof.
  intros [Hn _] (Hid & Hc & Hi & He). split_and!; simpl; [done | lia | done|].
  intros H0 _. rewrite Hc, H0. destruct held as [|x held]; simpl in *.
  - by rewrite Hi.
  - destruct (Z.eqb_spec (Z.pos (Pos.of_succ_nat (length held))) 0); [lia|]. by apply He.
Qed.

Lemma length_filter_remove (l : lockid) held :
  NoDup held → l ∈ held →
  length held = S (length (filter (λ x, x ≠ l) held)).
Proof.
  induction held as [|x held IH]; intros Hnd Hin; [by apply not_elem_of_nil in Hin|].
  apply NoDup_cons in Hnd as [Hni Hnd]. rewrite filter_cons.
  destruct (decide (x = l)) as [->|Hne].
  - destruct (decide (l ≠ l)) as [?|_]; [done|]. simpl. f_equal. f_equal.
    symmetry. clear -Hni. induction held as [|y held IH]; [done|].
    apply not_elem_of_cons in Hni as [Hne Hni]. rewrite filter_cons.
    rewrite decide_True by done. f_equal. auto.
  - rewrite decide_True by done. simpl. f_equal. apply IH; [done|].
    by apply elem_of_cons in Hin as [?|?].
Qed.

(** A [pushcli]/[popcli] pair. *)
Lemma cli_pair_run c : cpu_ok c →
  (pushcli ;; popcli) c = Ok () (set_intena (intena (pushed c)) c) [].
Proof. intros Hc. mrun. rewrite pushcli_run. simpl. by rewrite popcli_pushed. Qed.

Lemma nested_cli c0 c held :
  nested c0 c held → nested c0 (set_intena (intena (pushed c)) c) held.
Proof.
  intros (Hid & Hc & Hi & He). split_and!; simpl; try done. intros H0 Hne.
  destruct (Z.eqb_spec (ncli c) 0); [|auto]. destruct held; [done | simpl in *; lia].
Qed.

Lemma set_lock_same (L : locks) l : ∀ x, set_lock L l (L l) x = L x.
Proof. intros x. unfold set_lock. by case_decide; subst. Qed.

Lemma exec_disciplined tr : ∀ c0 c L held held',
  cpu_ok c0 → ncli c0 = 0 → NoDup held → nested c0 c held → lock_rep c L held →
  disciplined held tr = Some held' →
  ∃ c' L', exec_events tr (c, L) = Ok () (c', L') [] ∧ nested c0 c' held' ∧ lock_rep c' L' held'.
Proof.
  induction tr as [|e tr IH]; intros c0 c L held held' H0 Hz0 Hnd Hn HL Hd; simpl in *.
  { simplify_eq. by exists c, L. }
  pose proof (nested_cpu_ok _ _ _ H0 Hn) as Hok. destruct e as [l|l| |k msg| | | | | |]; simpl in *.
  - case_decide as Hin; [done|].
    destruct (IH c0 (pushed c) (set_lock L l (mk_lock true (Some (cid c)))) (l :: held) held')
      as (c' & L' & He & Hn' & HL'); [done | done | by constructor | by apply nested_pushed | | done |].
    + intros x. unfold set_lock. rewrite (HL x). destruct (decide (x = l)) as [->|Hne].
      * by rewrite decide_True by (apply elem_of_cons; auto).
      * destruct (decide (x ∈ held)) as [Hx|Hx].
        { by rewrite decide_True by (apply elem_of_cons; auto). }
        { by rewrite decide_False by (rewrite elem_of_cons; intuition). }
    + exists c', L'. split; [|done]. mrun. unfold on_lock, zoom. simpl. rewrite (HL l).
      rewrite decide_False by done. rewrite acquire_free by done. simpl. by rewrite He.
  - case_decide as Hin; [|done].
    pose proof (length_filter_remove l held Hnd Hin) as Hlen.
    destruct Hn as (Hid & Hc & Hi & He). destruct held as [|y held]; [by apply not_elem_of_nil in Hin|].
    simpl in Hi. set (held1 := filter (λ x, x ≠ l) (y :: held)) in *.
    set (c1 := set_if ((ncli c - 1 =? 0) && intena c) (set_ncli (ncli c - 1) c)).
    destruct (IH c0 c1 (set_lock L l initlock) held1 held') as (c' & L' & Hex & Hn' & HL');
      [done | done | by apply NoDup_filter | | | done |].
    + split_and!; simpl; [done | lia | |].
      * destruct H0 as [H0 H0f]. destruct (Z.eqb_spec (ncli c - 1) 0) as [Hz|Hz]; simpl.
        { rewrite He by (done || lia). destruct held1; [done | simpl in *; lia]. }
        { destruct held1; [|done]. symmetry. apply H0f. simpl in *. lia. }
      * intros Hz Hne. by apply He.
    + intros x. unfold set_lock. rewrite (HL x). unfold held1.
      destruct (decide (x = l)) as [->|Hne].
      * rewrite decide_False; [done|]. rewrite list_elem_of_filter. tauto.
      * destruct (decide (x ∈ y :: held)) as [Hx|Hx].
        { by rewrite decide_True by (rewrite list_elem_of_filter; tauto). }
        { by rewrite decide_False by (rewrite list_elem_of_filter; tauto). }
    + exists c', L'. split; [|done]. mrun. unfold on_lock, zoom. simpl. rewrite (HL l).
      destruct H0 as [H0 _]. rewrite decide_True by done.
      rewrite release_run by (done || (simpl in *; lia)). fold c1. simpl. by rewrite Hex.
  - destruct (IH c0 (set_intena (intena (pushed c)) c) L held held') as (c' & L' & Hex & Hr);
      [done | done | done | by apply nested_cli | done | done |].
    exists c', L'. split; [|done]. unfold mbind at 1, M_bind at 1, zoom. simpl fst.
    rewrite cli_pair_run by done. simpl snd. by rewrite Hex.
  - destruct Hn as (Hid & Hc & Hi & He).
    destruct k as [l| |]; simpl in *.
    + case_bool_decide as Hin; [|done].
      destruct (IH c0 c (set_lock L l (L l)) held held') as (c' & L' & Hex & Hr); [done..| | done |].
      { intros x. rewrite set_lock_same. apply HL. }
      exists c', L'. split; [|done]. mrun. unfold on_lock, zoom. simpl.
      rewrite holding_run; [| done |]; cycle 1.
      { destruct held; [by apply not_elem_of_nil in Hin | simpl in *; lia]. }
      rewrite (HL l), decide_True by done. simpl. rewrite bool_decide_eq_true_2 by done.
      simpl. rewrite (HL l), decide_True in Hex by done. by rewrite Hex.
    + destruct (Nat.eqb_spec (length held) 1) as [Hl|]; [|done].
      destruct (IH c0 c L held held') as (c' & L' & Hex & Hr); [done..|].
      exists c', L'. split; [|done]. mrun. rewrite (proj2 (Z.eqb_eq _ _)) by lia.
      simpl. by rewrite Hex.
    + destruct (Nat.eqb_spec (length held) 0) as [Hl|Hl]; [done|].
      destruct (IH c0 c L held held') as (c' & L' & Hex & Hr); [done..|].
      exists c', L'. split; [|done]. mrun. destruct held; [done|]. rewrite Hi.
      simpl. by rewrite Hex.
  - done.
  - destruct (IH c0 c L held held') as (c' & L' & ? & ?); try done. exists c', L'. by mrun; rewrite H.
  - destruct (IH c0 c L held held') as (c' & L' & ? & ?); try done. exists c', L'. by mrun; rewrite H.
  - destruct (IH c0 c L held held') as (c' & L' & ? & ?); try done. exists c', L'. by mrun; rewrite H.
  - destruct (IH c0 c L held held') as (c' & L' & ? & ?); try done. exists c', L'. by mrun; rewrite H.
  - destruct (IH c0 c L held held') as (c' & L' & ? & ?); try done. exists c', L'. by mrun; rewrite H.
Qed.

(** ** Many CPUs

    Each CPU runs [acquire] and [release] of one lock in the steps the
    hardware interleaves: the exchange on [locked] and the update of [cpu] are
    separate stores. *)

Inductive lpc :=
  | Outside        (** not in acquire, and not holding the lock *)
  | Spinning       (** in the [xchg] loop of acquire *)
  | Taken          (** the exchange succeeded, [lk->cpu] not yet set *)
  | Inside         (** acquire returned *)
  | Clearing.      (** release cleared [lk->cpu], [lk->locked] is still 1 *)

#[global] Instance lpc_eq_dec : EqDecision lpc.
Proof. solve_decision. Defined.

Record lock_world := mk_world { pcs : nat → lpc; word : spinlock }.

Definition set_pc (w : lock_world) (c : nat) (p : lpc) (k : spinlock) : lock_world :=
  mk_world (λ x, if decide (x = c) then p else pcs w x) k.

Inductive lock_step : lock_world → lock_world → Prop :=
  | ls_start w c :            (* pushcli; not holding *)
      pcs w c = Outside → lock_step w (set_pc w c Spinning (word w))
  | ls_spin w c :             (* xchg returns 1 *)
      pcs w c = Spinning → locked (word w) = true →
      lock_step w (set_pc w c Spinning (mk_lock true (lcpu (word w))))
  | ls_take w c :             (* xchg returns 0 *)
      pcs w c = Spinning → locked (word w) = false →
      lock_step w (set_pc w c Taken (mk_lock true (lcpu (word w))))
  | ls_own w c :              (* lk->cpu = mycpu() *)
      pcs w c = Taken →
      lock_step w (set_pc w c Inside (mk_lock (locked (word w)) (Some c)))
  | ls_clear w c :            (* lk->cpu = 0 *)
      pcs w c = Inside →
      lock_step w (set_pc w c Clearing (mk_lock (locked (word w)) None))
  | ls_free w c :             (* movl $0, lk->locked *)
      pcs w c = Clearing →
      lock_step w (set_pc w c Outside (mk_lock false (lcpu (word w)))).

Definition in_lock (p : lpc) : bool :=
  match p with Taken | Inside | Clearing => true | _ => false end.

Definition lock_inv (w : lock_world) : Prop :=
  (locked (word w) = true ↔ ∃ c, in_lock (pcs w c) = true) ∧
  (∀ c d, in_lock (pcs w c) = true → in_lock (pcs w d) = true → c = d) ∧
  (∀ c, lcpu (word w) = Some c ↔ pcs w c = Inside).

Lemma lock_inv_step w w' : lock_inv w → lock_step w w' → lock_inv w'.
Proof.
  intros (H1 & H2 & H3) Hs. assert (∀ c d, in_lock (pcs w c) = true → pcs w d = Inside → c = d) as H4.
  { intros c d Hc Hd. apply H2; [done|]. by rewrite Hd. }
  assert (∀ c, in_lock (pcs w c) = true → locked (word w) = true) as H5.
  { intros c Hc. apply H1. eauto. }
  destruct Hs as [w c Hc|w c Hc Hl|w c Hc Hl|w c Hc|w c Hc|w c Hc]; unfold lock_inv; simpl.
  - split_and!.
    + rewrite H1. split; intros [d Hd]; exists d; case_decide; subst; try done. by rewrite Hc in Hd.
    + intros x y. repeat case_decide; simpl; try done. apply H2.
    + intros x. rewrite H3. case_decide; subst; [by rewrite Hc | done].
  - split_and!.
    + split; [|done]. intros _. apply H1 in Hl as [d Hd]. exists d.
      case_decide; subst; [by rewrite Hc in Hd | done].
    + intros x y. repeat case_decide; simpl; try done. apply H2.
    + intros x. rewrite H3. case_decide; subst; [by rewrite Hc | done].
  - assert (∀ d, in_lock (pcs w d) = false) as H6.
    { intros d. destruct (in_lock (pcs w d)) eqn:Hd; [|done]. apply H5 in Hd. congruence. }
    split_and!.
    + split; [|done]. intros _. exists c. by rewrite decide_True.
    + intros x y. repeat case_decide; subst; simpl; try done; by rewrite ?H6.
    + intros x. rewrite H3. case_decide; subst; [by rewrite Hc | done].
  - split_and!.
    + split; [intros _; exists c; by rewrite decide_True|]. intros _. apply (H5 c). by rewrite Hc.
    + intros x y. repeat case_decide; subst; try done; intros Hx Hy.
      * apply H2; [by rewrite Hc | done].
      * apply H2; [done | by rewrite Hc].
      * by apply H2.
    + intros x. split; [intros [= ->]; by rewrite decide_True|].
      case_decide; subst; [done|]. intros Hx. rewrite (H4 c x); [done | by rewrite Hc | done].
  - split_and!.
    + split; [intros _; exists c; by rewrite decide_True|]. intros _. apply (H5 c). by rewrite Hc.
    + intros x y. repeat case_decide; subst; try done; intros Hx Hy.
      * apply H2; [by rewrite Hc | done].
      * apply H2; [done | by rewrite Hc].
      * by apply H2.
    + intros x. split; [done|]. case_decide as Hne; subst; [done|]. intros Hx.
      destruct Hne. symmetry. apply (H4 c x); [by rewrite Hc | done].
  - assert (∀ d, d ≠ c → in_lock (pcs w d) = false) as H6.
    { intros d Hne. destruct (in_lock (pcs w d)) eqn:Hd; [|done].
      exfalso. apply Hne. apply H2; [done | by rewrite Hc]. }
    split_and!.
    + split; [done|]. intros [d Hd]. case_decide; [done|]. by rewrite H6 in Hd.
    + intros x y. repeat case_decide; subst; try done; intros Hx Hy; by rewrite H6 in *.
    + intros x. rewrite H3. case_decide; subst; [by rewrite Hc | done].
Qed.

(** ** The properties of spinlock.c *)

(** C12: starting with the lock free and every CPU outside, whatever the
    interleaving, at most one CPU is between a successful exchange and the
    store that frees the lock; and the test of [holding] (locked, and owned by
    this CPU) is true on exactly the CPU whose acquire has returned. *)
Theorem mutual_exclusion w :
  star lock_step (mk_world (λ _, Outside) initlock) w →
  (∀ c d, pcs w c = Inside → pcs w d = Inside → c = d) ∧
  (∀ c, locked (word w) && bool_decide (lcpu (word w) = Some c) = true ↔ pcs w c = Inside).
Proof.
  intros Hs. assert (lock_inv w) as (H1 & H2 & H3).
  { eapply (star_invariant lock_step); eauto using lock_inv_step. split_and!; simpl; try done.
    split; [done | by intros [? ?]]. }
  split.
  - intros c d Hc Hd. apply H2; by rewrite ?Hc, ?Hd.
  - intros c. rewrite andb_true_iff, bool_decide_eq_true, H3. split; [tauto|].
    intros Hc. split; [|done]. apply H1. exists c. by rewrite Hc.
Qed.

Lemma mutual_exclusion_witness :
  ∃ w, star lock_step (mk_world (λ _, Outside) initlock) w ∧ pcs w 1%nat = Inside ∧
       (∀ c d, pcs w c = Inside → pcs w d = Inside → c = d).
Proof.
  eexists. split; [|split].
  - eapply star_step; [eapply star_step; [eapply star_step; [apply star_refl|]|]|].
    + by apply (ls_start _ 1%nat).
    + by apply (ls_take _ 1%nat).
    + by apply (ls_own _ 1%nat).
  - done.
  - apply mutual_exclusion.
    eapply star_step; [eapply star_step; [eapply star_step; [apply star_refl|]|]|].
    + by apply (ls_start _ 1%nat).
    + by apply (ls_take _ 1%nat).
    + by apply (ls_own _ 1%nat).
Defined.

(** a trace of lock operations that acquires only locks it does not hold,
    releases only locks it holds, makes the checks of sched with exactly one
    lock held, and ends with none, runs on a CPU without a panic and without
    spinning when no other CPU holds the locks; afterwards the nesting count
    and the interrupt flag are what they were. *)
Theorem lock_trace_safe c (L : locks) tr :
  ncli c = 0 → (∀ l, L l = initlock) → disciplined [] tr = Some [] →
  wp (exec_events tr) (c, L) (λ _ s' _,
    ncli s'.1 = 0 ∧ ifl s'.1 = ifl c ∧ ∀ l, s'.2 l = initlock).
Proof.
  intros Hc HL Hd. destruct (exec_disciplined tr c c L [] []) as (c' & L' & He & Hn & HL').
  - split; [lia | intros; lia].
  - done.
  - constructor.
  - split_and!; simpl; [done | lia | done | done].
  - intros l. by rewrite HL.
  - done.
  - unfold wp. rewrite He. simpl. destruct Hn as (_ & Hn & Hi & _).
    split_and!; [simpl in Hn; lia | done|]. intros l. by rewrite (HL' l).
Qed.

Lemma lock_trace_safe_witness :
  let c := mk_cpu 0 0 true 0 false in
  let tr := [EAcquire Llog; EAcquire Lptable; ERelease Lptable; ERelease Llog] in
  wp (exec_events tr) (c, (λ _, initlock) : locks) (λ _ s' _,
    ncli s'.1 = 0 ∧ ifl s'.1 = true ∧ ∀ l, s'.2 l = initlock).
Proof. by apply lock_trace_safe. Defined.

End Spinlock.
