(* ===== verification/Cstring.v ===== *)
(** * string.c: the kernel's memory and string routines

    The routines run on byte memory; a [char*] is an address. Loops whose
    count is an argument recurse on it; [strlen] has the length of the
    terminated string as its bound (see [strlen_cstr]). *)

From S2P Require Import Prelude Memory.

Module Cstring.

(** x86.h: [rep stosb] and [rep stosl]. *)
Definition stosb (m : mem) (addr data cnt : Z) : mem :=
  λ x, if in_range addr cnt x then u8 data else m x.
Definition stosl (m : mem) (addr data cnt : Z) : mem :=
  λ x, if in_range addr (4 * cnt) x then byte_of data ((x - addr) mod 4) else m x.

Definition memset (m : mem) (dst c n : Z) : mem :=
  if (s32 dst `rem` 4 =? 0) && (n mod 4 =? 0) then
    let c := Z.land c 255 in
    stosl m dst (Z.lor (Z.lor (Z.lor (Z.shiftl c 24) (Z.shiftl c 16)) (Z.shiftl c 8)) c) (n / 4)
  else stosb m dst c n.

Fixpoint memcmp (m : mem) (s1 s2 : Z) (n : nat) : Z :=
  match n with
  | O => 0
  | S n' => if negb (m s1 =? m s2) then m s1 - m s2 else memcmp m (s1 + 1) (s2 + 1) n'
  end.

(** [while(n-- > 0) *--d = *--s;] *)
Fixpoint copy_backward (m : mem) (d s : Z) (n : nat) : mem :=
  match n with
  | O => m
  | S n' => copy_backward (mset m (d - 1) (m (s - 1))) (d - 1) (s - 1) n'
  end.

(** [while(n-- > 0) *d++ = *s++;] *)
Fixpoint copy_forward (m : mem) (d s : Z) (n : nat) : mem :=
  match n with
  | O => m
  | S n' => copy_forward (mset m d (m s)) (d + 1) (s + 1) n'
  end.

Definition memmove (m : mem) (dst src : Z) (n : nat) : mem :=
  if (src <? dst) && (dst <? src + n) then copy_backward m (dst + n) (src + n) n
  else copy_forward m dst src n.

Definition memcpy (m : mem) (dst src : Z) (n : nat) : mem := memmove m dst src n.

Fixpoint strncmp (m : mem) (p q : Z) (n : nat) : Z :=
  match n with
  | O => 0
  | S n' =>
      if truth (m p) && (m p =? m q) then strncmp m (p + 1) (q + 1) n'
      else u8 (m p) - u8 (m q)
  end.

(** [while(n-- > 0) *s++ = 0;] *)
Fixpoint zero_fill (m : mem) (s : Z) (n : nat) : mem :=
  match n with
  | O => m
  | S n' => zero_fill (mset m s 0) (s + 1) n'
  end.

Fixpoint strncpy (m : mem) (s t : Z) (n : nat) : mem :=
  match n with
  | O => m
  | S n' =>
      let m' := mset m s (m t) in
      if truth (m t) then strncpy m' (s + 1) (t + 1) n' else zero_fill m' (s + 1) n'
  end.

(** [while(--n > 0 && ( *s++ = *t++) != 0); *s = 0;] with [n] the value after
    the first decrement. *)
Fixpoint safestrcpy_loop (m : mem) (s t : Z) (n : nat) : mem :=
  match n with
  | O => mset m s 0
  | S n' =>
      let m' := mset m s (m t) in
      if truth (m t) then safestrcpy_loop m' (s + 1) (t + 1) n' else mset m' (s + 1) 0
  end.

Definition safestrcpy (m : mem) (s t n : Z) : mem :=
  if n <=? 0 then m else safestrcpy_loop m s t (Z.to_nat (n - 1)).

(** [for(n = 0; s[n]; n++);], [None] when no NUL is met within [fuel]. *)
Fixpoint strlen_from (fuel : nat) (m : mem) (s n : Z) : option Z :=
  match fuel with
  | O => None
  | S f => if truth (m (s + n)) then strlen_from f m s (n + 1) else Some n
  end.
Definition strlen (fuel : nat) (m : mem) (s : Z) : option Z := strlen_from fuel m s 0.

(** ** memset *)

Lemma land_255 c : Z.land c 255 = u8 c.
Proof. change 255 with (Z.ones 8). by rewrite Z.land_ones by lia. Qed.

Lemma repeat_byte c i :
  0 ≤ i < 4 →
  byte_of (Z.lor (Z.lor (Z.lor (Z.shiftl (u8 c) 24) (Z.shiftl (u8 c) 16))
                        (Z.shiftl (u8 c) 8)) (u8 c)) i = u8 c.
Proof.
  intros Hi. assert (∀ k, 8 ≤ k → Z.testbit (u8 c) k = false) as Hhi.
  { intros k Hk. unfold u8. by rewrite Z.mod_pow2_bits_high by lia. }
  apply Z.bits_inj'. intros k Hk. unfold byte_of, u8 at 1.
  destruct (Z.lt_ge_cases k 8).
  - rewrite Z.mod_pow2_bits_low, Z.shiftr_spec, !Z.lor_spec, !Z.shiftl_spec by lia.
    assert (i = 0 ∨ i = 1 ∨ i = 2 ∨ i = 3) as [->|[->|[->| ->]]] by lia.
    + rewrite !(Z.testbit_neg_r (u8 c)) by lia. simpl. f_equal; lia.
    + rewrite (Z.testbit_neg_r (u8 c) (k + 8 * 1 - 24)),
        (Z.testbit_neg_r (u8 c) (k + 8 * 1 - 16)), (Hhi (k + 8 * 1)) by lia.
      rewrite orb_false_r. simpl. f_equal; lia.
    + rewrite (Z.testbit_neg_r (u8 c) (k + 8 * 2 - 24)),
        (Hhi (k + 8 * 2)), (Hhi (k + 8 * 2 - 8)) by lia.
      rewrite !orb_false_r. simpl. f_equal; lia.
    + rewrite (Hhi (k + 8 * 3)), (Hhi (k + 8 * 3 - 8)), (Hhi (k + 8 * 3 - 16)) by lia.
      rewrite !orb_false_r. f_equal; lia.
  - rewrite Z.mod_pow2_bits_high by lia. by rewrite Hhi by lia.
Qed.

(** The word-wise path and the byte-wise path fill the same bytes. *)
Lemma memset_fill m dst c n x :
  0 ≤ n → memset m dst c n x = if in_range dst n x then u8 c else m x.
Proof.
  intros Hn. unfold memset. destruct (_ && _) eqn:Hp; [|done].
  apply andb_true_iff in Hp as [_ Hn4%Z.eqb_eq]. unfold stosl.
  replace (4 * (n / 4)) with n by (Z.div_mod_to_equations; lia).
  destruct (in_range dst n x); [|done]. rewrite land_255.
  apply repeat_byte. apply Z.mod_pos_bound. lia.
Qed.

Lemma memset_outside m dst c n : 0 ≤ n → same_outside dst n m (memset m dst c n).
Proof. intros Hn x Hx. rewrite memset_fill by done. range_cases; [lia | done]. Qed.

Lemma bytes_ok_memset m dst c n : 0 ≤ n → bytes_ok m → bytes_ok (memset m dst c n).
Proof.
  intros Hn Hm x. rewrite memset_fill by done.
  range_cases; [apply Z.mod_pos_bound; lia | apply Hm].
Qed.

(** ** memmove *)

Lemma copy_forward_lookup (n : nat) : ∀ m d s x,
  d ≤ s ∨ s + n ≤ d →
  copy_forward m d s n x = if in_range d n x then m (s + (x - d)) else m x.
Proof.
  induction n as [|n IH]; intros m d s x Hds; simpl.
  - range_cases; [lia | done].
  - rewrite IH by lia. unfold mset. range_cases; repeat case_match; try lia; f_equal; lia.
Qed.

Lemma copy_backward_lookup (n : nat) : ∀ m d s x,
  s ≤ d →
  copy_backward m d s n x = if in_range (d - n) n x then m (s - n + (x - (d - n))) else m x.
Proof.
  induction n as [|n IH]; intros m d s x Hds; simpl.
  - range_cases; [lia | done].
  - rewrite IH by lia. unfold mset. range_cases; repeat case_match; try lia; f_equal; lia.
Qed.

Lemma memmove_lookup m dst src (n : nat) x :
  memmove m dst src n x = if in_range dst n x then m (src + (x - dst)) else m x.
Proof.
  unfold memmove. destruct (_ && _) eqn:Hp.
  - apply andb_true_iff in Hp as [?%Z.ltb_lt ?%Z.ltb_lt].
    rewrite copy_backward_lookup by lia. range_cases; try lia; f_equal; lia.
  - apply andb_false_iff in Hp as [?%Z.ltb_ge|?%Z.ltb_ge];
      apply copy_forward_lookup; lia.
Qed.

Lemma memmove_outside m dst src (n : nat) : same_outside dst n m (memmove m dst src n).
Proof. intros x Hx. rewrite memmove_lookup. range_cases; [lia | done]. Qed.

Lemma memmove_write m dst src (n : nat) x :
  memmove m dst src n x = write_bytes m dst (read_bytes m src n) x.
Proof.
  rewrite memmove_lookup. unfold write_bytes. rewrite length_read_bytes, Nat2Z.id.
  range_cases; [|done]. by rewrite lookup_read_bytes by lia.
Qed.

(** ** Strings *)

(** The string at [p], cut at [n] bytes: what the bounded routines see. *)
Fixpoint cname (m : mem) (p : Z) (n : nat) : list Z :=
  match n with
  | O => []
  | S n' => if truth (m p) then m p :: cname m (p + 1) n' else []
  end.

Lemma length_cname m n : ∀ p, (length (cname m p n) ≤ n)%nat.
Proof. induction n as [|n IH]; intros p; simpl; [done|]. case_match; simpl; [|lia]. specialize (IH (p + 1)). lia. Qed.

(** A change outside the range of a string does not change it. *)
Lemma cname_ext m m' (n : nat) : ∀ p,
  (∀ x, p ≤ x < p + n → m' x = m x) → cname m' p n = cname m p n.
Proof.
  induction n as [|n IH]; intros p Hx; simpl; [done|].
  rewrite (Hx p) by lia. case_match; [|done]. f_equal. apply IH. intros. apply Hx. lia.
Qed.

Lemma strncmp_zero m (n : nat) : bytes_ok m → ∀ p q,
  strncmp m p q n = 0 ↔ cname m p n = cname m q n.
Proof.
  intros Hm. induction n as [|n IH]; intros p q; simpl; [done|].
  pose proof (Hm p). pose proof (Hm q). unfold u8. rewrite !Z.mod_small by lia.
  destruct (truth (m p)) eqn:Hp, (truth (m q)) eqn:Hq; simpl;
    rewrite ?truth_true, ?truth_false in *.
  - destruct (Z.eqb_spec (m p) (m q)) as [Heq|Hne].
    + rewrite IH, Heq. split; [by intros -> | by intros [= ->]].
    + split; [lia | intros [= ?]; lia].
  - rewrite (proj2 (Z.eqb_neq _ _)) by lia. split; [lia | done].
  - split; [lia | done].
  - split; [done | lia].
Qed.

Lemma zero_fill_lookup (n : nat) : ∀ m s x,
  zero_fill m s n x = if in_range s n x then 0 else m x.
Proof.
  induction n as [|n IH]; intros m s x; simpl.
  - range_cases; [lia | done].
  - rewrite IH. unfold mset. range_cases; repeat case_match; try lia; done.
Qed.

(** [strncpy] leaves the string padded with NULs in the [n] bytes at [s]. *)
Lemma strncpy_lookup (n : nat) : ∀ m s t x,
  t + n ≤ s ∨ s + n ≤ t →
  strncpy m s t n x =
    if in_range s n x then default 0 (cname m t n !! Z.to_nat (x - s)) else m x.
Proof.
  induction n as [|n IH]; intros m s t x Hst; simpl.
  - range_cases; [lia | done].
  - destruct (truth (m t)) eqn:Ht.
    + rewrite IH by lia. rewrite (cname_ext m) by (intros; apply mset_other; lia).
      unfold mset. range_cases; repeat case_match; try lia; try done.
      * by replace (Z.to_nat (x - s)) with (S (Z.to_nat (x - (s + 1)))) by lia.
      * by replace (Z.to_nat (x - s)) with O by lia.
    + apply truth_false in Ht. rewrite zero_fill_lookup. unfold mset.
      range_cases; repeat case_match; try lia; done.
Qed.

Lemma safestrcpy_loop_spec (n : nat) : ∀ m s t,
  t + (n + 1) ≤ s ∨ s + (n + 1) ≤ t →
  let m' := safestrcpy_loop m s t n in
  let l := cname m t n in
  (∀ i b, l !! i = Some b → m' (s + Z.of_nat i) = b) ∧ m' (s + length l) = 0 ∧
  same_outside s (n + 1) m m'.
Proof.
  induction n as [|n IH]; intros m s t Hst; simpl.
  - split_and!; [done | rewrite Z.add_0_r; apply mset_same | apply same_outside_mset; lia].
  - destruct (truth (m t)) eqn:Ht.
    + destruct (IH (mset m s (m t)) (s + 1) (t + 1)) as (IH1 & IH2 & IH3); [lia|].
      rewrite (cname_ext m) in IH1, IH2 by (intros; apply mset_other; lia).
      split_and!.
      * intros [|i] b Hb; simpl in Hb; simplify_eq.
        { rewrite Z.add_0_r, IH3 by lia. apply mset_same. }
        rewrite <- (IH1 _ _ Hb). f_equal. lia.
      * simpl. rewrite <- IH2. f_equal. lia.
      * intros x Hx. rewrite IH3 by lia. apply mset_other. lia.
    + apply truth_false in Ht. split_and!.
      * intros i b Hb. by rewrite lookup_nil in Hb.
      * simpl. rewrite Z.add_0_r, mset_other by lia. by rewrite mset_same.
      * intros x Hx. by rewrite !mset_other by lia.
Qed.

(** [m] holds the NUL-terminated string [l] at [s]. *)
Definition cstr (m : mem) (s : Z) (l : list Z) : Prop :=
  (∀ i b, l !! i = Some b → m (s + Z.of_nat i) = b ∧ b ≠ 0) ∧ m (s + length l) = 0.

Lemma strlen_from_cstr m l : ∀ s n,
  (∀ i b, l !! i = Some b → m (s + n + Z.of_nat i) = b ∧ b ≠ 0) → m (s + n + length l) = 0 →
  strlen_from (S (length l)) m s n = Some (n + length l).
Proof.
  induction l as [|b l IH]; intros s n Hl H0.
  - simpl in *. rewrite Z.add_0_r in H0 |- *. rewrite H0. done.
  - destruct (Hl O b eq_refl) as [Hb Hnz]. rewrite Z.add_0_r in Hb.
    change (strlen_from (S (length (b :: l))) m s n) with
      (if truth (m (s + n)) then strlen_from (S (length l)) m s (n + 1) else Some n).
    rewrite Hb, (proj2 (truth_true b)) by done. rewrite IH.
    + f_equal. simpl length. lia.
    + intros i b' Hb'. destruct (Hl (S i) b' Hb') as [<- ?].
      split; [f_equal; lia | done].
    + rewrite <- H0. f_equal. simpl length. lia.
Qed.

(** ** The properties of string.c *)

(** memmove copies the [n] bytes at [src] to [dst] as they were before the
    call, whatever the overlap of the two ranges, and changes no other byte. *)
Theorem memmove_correct m dst src (n : nat) :
  (∀ i, 0 ≤ i < n → memmove m dst src n (dst + i) = m (src + i)) ∧
  same_outside dst n m (memmove m dst src n).
Proof.
  split; [|apply memmove_outside]. intros i Hi. rewrite memmove_lookup.
  range_cases; [f_equal; lia | lia].
Qed.

(** memset stores the low byte of [c] in each of the [n] bytes at [dst],
    on the word-wise path as on the byte-wise one, and changes no other byte. *)
Theorem memset_correct m dst c n :
  0 ≤ n →
  (∀ x, dst ≤ x < dst + n → memset m dst c n x = u8 c) ∧
  same_outside dst n m (memset m dst c n).
Proof.
  intros Hn. split; [|by apply memset_outside]. intros x Hx.
  rewrite memset_fill by done. range_cases; [done | lia].
Qed.

Lemma memset_correct_witness :
  0 ≤ 8 ∧ (∀ x, 4 ≤ x < 4 + 8 → memset (λ _, 7) 4 257 8 x = u8 257) ∧
  same_outside 4 8 (λ _, 7) (memset (λ _, 7) 4 257 8).
Proof. split; [lia | apply (memset_correct (λ _, 7) 4 257 8); lia]. Defined.

(** safestrcpy into a buffer of [n > 0] bytes that does not overlap the
    source leaves the source string, cut at [n - 1] bytes, NUL-terminated in
    the buffer, and writes nothing outside the buffer. *)
Theorem safestrcpy_correct m s t n :
  0 < n → t + n ≤ s ∨ s + n ≤ t →
  let m' := safestrcpy m s t n in
  let l := cname m t (Z.to_nat (n - 1)) in
  (∀ i b, l !! i = Some b → m' (s + Z.of_nat i) = b) ∧ m' (s + length l) = 0 ∧
  length l < n ∧ same_outside s n m m'.
Proof.
  intros Hn Hst. unfold safestrcpy. destruct (Z.leb_spec n 0); [lia|].
  destruct (safestrcpy_loop_spec (Z.to_nat (n - 1)) m s t) as (H1 & H2 & H3); [lia|].
  pose proof (length_cname m (Z.to_nat (n - 1)) t).
  split_and!; [done | done | lia |]. eapply same_outside_mono, H3; lia.
Qed.

Definition mem_ab : mem := λ x, if x =? 100 then 97 else if x =? 101 then 98 else 0.

Lemma safestrcpy_correct_witness :
  0 < 2 ∧ (100 + 2 ≤ 0 ∨ 0 + 2 ≤ 100) ∧
  safestrcpy mem_ab 0 100 2 0 = 97 ∧ safestrcpy mem_ab 0 100 2 1 = 0.
Proof.
  split_and!; [lia | lia | |].
  - destruct (safestrcpy_correct mem_ab 0 100 2 ltac:(lia) ltac:(lia)) as (H & _).
    by apply (H O 97).
  - destruct (safestrcpy_correct mem_ab 0 100 2 ltac:(lia) ltac:(lia)) as (_ & H & _).
    exact H.
Defined.

(** strncpy leaves in the [n] bytes at [s] the string at [t], cut at [n]
    bytes and padded with NULs, and changes no other byte. *)
Theorem strncpy_correct m s t (n : nat) :
  t + n ≤ s ∨ s + n ≤ t →
  (∀ i : nat, (i < n)%nat → strncpy m s t n (s + i) = default 0 (cname m t n !! i)) ∧
  same_outside s n m (strncpy m s t n).
Proof.
  intros Hst. split.
  - intros i Hi. rewrite strncpy_lookup by done. range_cases; [|lia].
    by replace (Z.to_nat (s + i - s)) with i by lia.
  - intros x Hx. rewrite strncpy_lookup by done. range_cases; [lia | done].
Qed.

Lemma strncpy_correct_witness :
  (100 + 4 ≤ 0 ∨ 0 + 4 ≤ 100) ∧ strncpy mem_ab 0 100 4 1 = 98.
Proof.
  split; [lia|]. destruct (strncpy_correct mem_ab 0 100 4 ltac:(lia)) as [H _].
  apply (H 1%nat). lia.
Defined.

(** strncmp returns 0 exactly when the two strings, cut at [n] bytes, are
    equal (the comparison of directory names). *)
Theorem strncmp_correct m p q (n : nat) :
  bytes_ok m → strncmp m p q n = 0 ↔ cname m p n = cname m q n.
Proof. intros Hm. by apply strncmp_zero. Qed.

Lemma mem_ab_ok : bytes_ok mem_ab.
Proof. intros x. unfold mem_ab. repeat case_match; lia. Qed.

Lemma strncmp_correct_witness :
  bytes_ok mem_ab ∧ (strncmp mem_ab 100 100 2 = 0 ↔ cname mem_ab 100 2 = cname mem_ab 100 2).
Proof. split; [apply mem_ab_ok | apply strncmp_correct, mem_ab_ok]. Defined.

(** strlen of a NUL-terminated string returns its length: the loop stops
    at the first NUL. *)
Theorem strlen_correct m s l :
  cstr m s l → strlen (S (length l)) m s = Some (Z.of_nat (length l)).
Proof.
  intros [Hl H0]. unfold strlen. rewrite (strlen_from_cstr m l s 0); [done| |].
  - intros i b Hb. rewrite Z.add_0_r. auto.
  - by rewrite Z.add_0_r.
Qed.

Lemma strlen_correct_witness :
  cstr mem_ab 100 [97; 98] ∧ strlen 3 mem_ab 100 = Some 2.
Proof.
  assert (cstr mem_ab 100 [97; 98]) as H.
  { split; [|done]. intros [|[|i]] b Hb; simpl in Hb; simplify_eq; done. }
  split; [exact H | exact (strlen_correct mem_ab 100 [97; 98] H)].
Defined.

End Cstring.

#[export] Hint Resolve Cstring.memset_outside Cstring.bytes_ok_memset
  Cstring.memmove_outside : memory.
