(* ===== verification/Kalloc.v ===== *)
(** * kalloc.c: the physical page allocator

    The free list is threaded through the free pages themselves: the first
    word of a free page is the address of the next one. The model keeps the
    list in byte memory, as the code does; [free_list] is its abstraction. *)

From S2P Require Import Prelude Memory Layout Cstring.

Module Kalloc.
Import Cstring.

(** [kmem], with the memory that holds the pages. *)
Record kmem := mk_kmem {
  use_lock : bool;
  freelist : Z;        (** a [struct run*] *)
  kmemory : mem;
}.

Section kalloc.
(** First address after the kernel (kernel.ld). *)
Context (kend : Z).

Definition lock_if (s : kmem) : M kmem unit := when (use_lock s) (acquire Lkmem).
Definition unlock_if (s : kmem) : M kmem unit := when (use_lock s) (release Lkmem).

Definition kfree (v : Z) : M kmem unit :=
  if truth (v mod PGSIZE) || (v <? kend) || (PHYSTOP <=? V2P v) then panic "kfree"
  else
    modify (λ s, mk_kmem (use_lock s) (freelist s) (memset (kmemory s) v 1 PGSIZE)) ;;
    s ← get_state ;
    lock_if s ;;
    modify (λ s, mk_kmem (use_lock s) (freelist s) (store32 (kmemory s) v (freelist s))) ;;
    modify (λ s, mk_kmem (use_lock s) v (kmemory s)) ;;
    unlock_if s.

Definition kalloc : M kmem Z :=
  s ← get_state ;
  lock_if s ;;
  r ← gets freelist ;
  when (truth r) (modify (λ s, mk_kmem (use_lock s) (load32 (kmemory s) r) (kmemory s))) ;;
  unlock_if s ;;
  mret r.

(** [for(; p + PGSIZE <= vend; p += PGSIZE) kfree(p);] for [n] iterations. *)
Fixpoint freerange_loop (n : nat) (p : Z) : M kmem unit :=
  match n with
  | O => mret ()
  | S n' => kfree p ;; freerange_loop n' (p + PGSIZE)
  end.

(** The loop runs once for each whole page between [p] and [vend]. *)
Definition freerange (vstart vend : Z) : M kmem unit :=
  let p := PGROUNDUP vstart in
  freerange_loop (Z.to_nat ((vend - p) / PGSIZE)) p.

Definition kinit1 (vstart vend : Z) : M kmem unit :=
  modify (λ s, mk_kmem false (freelist s) (kmemory s)) ;;
  freerange vstart vend.

Definition kinit2 (vstart vend : Z) : M kmem unit :=
  freerange vstart vend ;;
  modify (λ s, mk_kmem true (freelist s) (kmemory s)).

(** ** The free list as a list of pages *)

(** A page the allocator may own. *)
Definition page_ok (v : Z) : Prop := v mod PGSIZE = 0 ∧ kend ≤ v ∧ v < KERNBASE + PHYSTOP.

Fixpoint chain (m : mem) (p : Z) (l : list Z) : Prop :=
  match l with
  | [] => p = 0
  | v :: l' => p = v ∧ chain m (load32 m v) l'
  end.

Definition free_list (s : kmem) (l : list Z) : Prop :=
  chain (kmemory s) (freelist s) l ∧ NoDup l ∧ Forall page_ok l.

(** The kernel is linked above [KERNBASE]. *)
Context (kend_high : KERNBASE < kend).

Lemma page_ok_range v : page_ok v → 0 < v < 2 ^ 32.
Proof using kend_high. intros (_ & ? & ?). unfold KERNBASE, PHYSTOP in *. lia. Qed.

Lemma pages_disjoint v w : page_ok v → page_ok w → v ≠ w → v + PGSIZE ≤ w ∨ w + PGSIZE ≤ v.
Proof using Type.
  intros (Hv & _) (Hw & _) Hne. unfold PGSIZE in *. Z.div_mod_to_equations. lia.
Qed.

(** Changing memory within a page leaves the chain through the others. *)
Lemma chain_outside m m' v l : ∀ p,
  page_ok v → Forall page_ok l → v ∉ l → same_outside v PGSIZE m m' →
  chain m p l → chain m' p l.
Proof using Type.
  induction l as [|w l IH]; intros p Hv Hl Hni Hs Hc; simpl in *; [done|].
  apply Forall_cons in Hl as [Hw Hl]. apply not_elem_of_cons in Hni as [Hne Hni].
  destruct Hc as [-> Hc]. split; [done|].
  rewrite (load32_same_outside v PGSIZE m m') by
    (done || (destruct (pages_disjoint v w); unfold PGSIZE in *; auto; lia)).
  auto.
Qed.

Definition lock_events (s : kmem) : list event :=
  if use_lock s then [EAcquire Lkmem; ERelease Lkmem] else [].

Lemma kfree_check v : page_ok v →
  truth (v mod PGSIZE) || (v <? kend) || (PHYSTOP <=? V2P v) = false.
Proof using kend_high.
  intros Hv. pose proof (page_ok_range v Hv). destruct Hv as (Hm & Hk & Hp).
  rewrite Hm, V2P_eq by lia. rewrite !orb_false_iff. split_and!; [done | |].
  - by apply Z.ltb_ge.
  - apply Z.leb_gt. lia.
Qed.

Lemma kfree_spec s l v :
  free_list s l → page_ok v → v ∉ l →
  wp (kfree v) s (λ _ s' tr,
    free_list s' (v :: l) ∧ use_lock s' = use_lock s ∧
    same_outside v PGSIZE (kmemory s) (kmemory s') ∧
    (∀ x, v + 4 ≤ x < v + PGSIZE → kmemory s' x = 1) ∧ tr = lock_events s).
Proof using kend_high.
  intros (Hc & Hnd & Hok) Hv Hni. unfold kfree. rewrite kfree_check by done.
  pose proof (page_ok_range v Hv).
  assert (same_outside v PGSIZE (kmemory s)
    (store32 (memset (kmemory s) v 1 PGSIZE) v (freelist s))) as Hout.
  { intros x Hx. unfold PGSIZE in Hx. rewrite store32_outside by lia.
    apply memset_outside; unfold PGSIZE; lia. }
  assert (0 ≤ freelist s < 2 ^ 32) as Hfl.
  { destruct l as [|w l]; simpl in Hc; [lia|]. destruct Hc as [-> _].
    apply Forall_cons in Hok as [Hw _]. pose proof (page_ok_range w Hw). lia. }
  destruct s as [ul fl m]; simpl in *.
  assert (free_list (mk_kmem ul v (store32 (memset m v 1 PGSIZE) v fl)) (v :: l)) as Hl'.
  { split_and!; [|by constructor|by constructor]. simpl. split; [done|].
    rewrite load_store32_same, u32_small by done. by apply (chain_outside m _ v). }
  assert (∀ x, v + 4 ≤ x < v + PGSIZE → store32 (memset m v 1 PGSIZE) v fl x = 1) as H1.
  { intros x Hx. rewrite store32_outside by lia. rewrite memset_fill by done.
    range_cases; [done | lia]. }
  unfold lock_if, unlock_if, lock_events. destruct ul; wp_steps; by split_and!.
Qed.

Lemma kalloc_spec s l :
  free_list s l →
  wp kalloc s (λ r s' tr,
    kmemory s' = kmemory s ∧ use_lock s' = use_lock s ∧ tr = lock_events s ∧
    match l with [] => r = 0 ∧ s' = s | v :: l' => r = v ∧ free_list s' l' end).
Proof using kend_high.
  intros (Hc & Hnd & Hok). unfold kalloc, lock_if, unlock_if, lock_events.
  destruct s as [ul fl m]; simpl in *.
  destruct l as [|v l]; simpl in Hc.
  - subst fl. destruct ul; wp_steps; split_and!; done.
  - destruct Hc as [-> Hc]. apply Forall_cons in Hok as [Hv Hok].
    apply NoDup_cons in Hnd as [Hni Hnd]. pose proof (page_ok_range v Hv).
    assert (truth v = true) as Ht by (apply truth_true; lia).
    destruct ul; wp_steps; rewrite Ht; wp_steps; split_and!; done.
Qed.

(** [n] consecutive pages from [p]. *)
Fixpoint pages (n : nat) (p : Z) : list Z :=
  match n with O => [] | S n' => p :: pages n' (p + PGSIZE) end.

Lemma elem_of_pages n : ∀ p v,
  v ∈ pages n p ↔ ∃ k : nat, (k < n)%nat ∧ v = p + k * PGSIZE.
Proof using Type.
  induction n as [|n IH]; intros p v; simpl.
  - split; [by intros ?%not_elem_of_nil | intros (k & ? & _); lia].
  - rewrite elem_of_cons, IH. split.
    + intros [->|(k & ? & ->)]; [exists O | exists (S k)]; lia.
    + intros ([|k] & ? & ->); [left; lia | right; exists k; lia].
Qed.

Lemma freerange_loop_spec n : ∀ s l p,
  free_list s l → (∀ v, v ∈ pages n p → page_ok v ∧ v ∉ l) →
  wp (freerange_loop n p) s (λ _ s' _,
    free_list s' (reverse (pages n p) ++ l) ∧ use_lock s' = use_lock s ∧ ∀ x, x < p → kmemory s' x = kmemory s x).
Proof using kend_high.
  induction n as [|n IH]; intros s l p Hl Hp; simpl; [by apply wp_ret|].
  apply wp_bind. destruct (Hp p) as [Hv Hni]; [apply elem_of_cons; auto|].
  eapply wp_mono; [by apply kfree_spec|]. intros _ s1 t1 (Hl1 & Hu & Hm & _).
  eapply wp_mono; [apply (IH s1 (p :: l)); [done|]|].
  - intros v Hin. split; [apply Hp; apply elem_of_cons; auto|].
    rewrite not_elem_of_cons. split; [|apply Hp; apply elem_of_cons; auto].
    apply elem_of_pages in Hin as (k & _ & ->). unfold PGSIZE. lia.
  - intros _ s2 t2 (Hl2 & Hu2 & Hm2). rewrite reverse_cons, <- (assoc_L (++)). simpl.
    split_and!; [done | congruence|]. intros x Hx. rewrite Hm2 by (unfold PGSIZE; lia). apply Hm. lia.
Qed.

(** ** Clients

    The allocator together with the pages in use: clients free only pages
    they hold, and write only in pages they hold. *)
Inductive kstep : kmem * gset Z → kmem * gset Z → Prop :=
  | kstep_alloc s u r s' tr :
      kalloc s = Ok r s' tr → r ≠ 0 → kstep (s, u) (s', {[r]} ∪ u)
  | kstep_nomem s u s' tr :
      kalloc s = Ok 0 s' tr → kstep (s, u) (s', u)
  | kstep_free s u v s' tr :
      v ∈ u → kfree v s = Ok () s' tr → kstep (s, u) (s', u ∖ {[v]})
  | kstep_write s u v m' :
      v ∈ u → same_outside v PGSIZE (kmemory s) m' →
      kstep (s, u) (mk_kmem (use_lock s) (freelist s) m', u).

(** [pool] is split into the free pages and the pages in use. *)
Definition pool_inv (pool : gset Z) (c : kmem * gset Z) : Prop :=
  ∃ l, free_list c.1 l ∧ list_to_set l ## c.2 ∧ list_to_set l ∪ c.2 = pool ∧
       (∀ v, v ∈ c.2 → page_ok v).

Lemma pool_step_inv pool c c' : pool_inv pool c → kstep c c' → pool_inv pool c'.
Proof using kend_high.
  intros (l & Hl & Hd & Hp & Hok) Hs. destruct Hs as [s u r s' tr Hk Hr|s u s' tr Hk
    |s u v s' tr Hv Hk|s u v m' Hv Hout]; simpl in *.
  - pose proof (kalloc_spec s l Hl) as Hw. unfold wp in Hw. rewrite Hk in Hw.
    destruct Hw as (_ & _ & _ & Hw). destruct l as [|w l]; [by destruct Hw|].
    destruct Hw as [-> Hl']. destruct Hl as (_ & Hnd & Hf).
    apply NoDup_cons in Hnd as [Hni _]. apply Forall_cons in Hf as [Hw _].
    rewrite list_to_set_cons in Hd, Hp. exists l. split_and!; simpl; [done | | |].
    + apply (not_elem_of_list_to_set (C := gset Z)) in Hni. set_solver.
    + set_solver.
    + set_solver.
  - pose proof (kalloc_spec s l Hl) as Hw. unfold wp in Hw. rewrite Hk in Hw.
    destruct Hw as (_ & _ & _ & Hw). destruct l as [|w l].
    + destruct Hw as [_ ->]. by exists [].
    + destruct Hw as [<- _]. destruct Hl as (_ & _ & Hf%Forall_cons_1).
      destruct (page_ok_range 0); [apply Hf | lia].
  - assert (v ∉ l) as Hni by (intros ?%(elem_of_list_to_set (C := gset Z)); set_solver).
    pose proof (kfree_spec s l v Hl (Hok v Hv) Hni) as Hw. unfold wp in Hw.
    rewrite Hk in Hw. destruct Hw as (Hl' & _). exists (v :: l).
    rewrite list_to_set_cons. split_and!; simpl; [done | set_solver | | set_solver].
    rewrite <- Hp. apply set_eq. intros x. destruct (decide (x = v)); set_solver.
  - exists l. split_and!; try done. destruct Hl as (Hc & Hnd & Hf). split_and!; try done.
    simpl. eapply chain_outside; eauto. intros ?%(elem_of_list_to_set (C := gset Z)). set_solver.
Qed.

(** C35: from any state reached by clients that free and write only pages they
    hold, every page of the initial pool is either free or in use, never both;
    kalloc then returns a page of the pool that nobody holds, and returns 0
    exactly when no page is free. *)
Theorem kalloc_exclusive s0 l0 s u :
  free_list s0 l0 → star kstep (s0, ∅) (s, u) →
  wp kalloc s (λ r s' _,
    (r = 0 ↔ u = list_to_set l0) ∧
    (r = 0 ∨ (r ∉ u ∧ r ∈ l0 ∧ page_ok r))).
Proof using kend_high.
  intros Hl0 Hs. assert (pool_inv (list_to_set l0) (s, u)) as (l & Hl & Hd & Hp & _).
  { eapply (star_invariant kstep); eauto using pool_step_inv. exists l0.
    split_and!; simpl; [done | set_solver | set_solver | set_solver]. }
  eapply wp_mono; [by apply kalloc_spec|]. simpl. intros r s' tr (_ & _ & _ & Hr).
  destruct l as [|v l]; simpl in Hd, Hp.
  - destruct Hr as [-> _]. split; [set_solver | by left].
  - destruct Hr as [-> _]. destruct Hl as (_ & _ & Hf%Forall_cons_1).
    destruct (page_ok_range v) as [Hv _]; [apply Hf|]. split; [split|].
    + lia.
    + intros ->. set_solver.
    + right. split_and!; [set_solver | | apply Hf].
      apply (elem_of_list_to_set (C := gset Z)). rewrite <- Hp. set_solver.
Qed.

Lemma length_pages n p : length (pages n p) = n.
Proof using. revert p. induction n as [|n IH]; intros p; simpl; [done|]. by rewrite IH. Qed.

(** freerange adds to the free list exactly the whole pages between [vstart]
    and [vend], none of them twice, and writes nothing below them. *)
Lemma freerange_run s l vstart vend :
  free_list s l → kend ≤ vstart ≤ vend → vend ≤ KERNBASE + PHYSTOP → (∀ v, v ∈ l → v < vstart) →
  wp (freerange vstart vend) s (λ _ s' _, ∃ new,
    free_list s' (new ++ l) ∧ use_lock s' = use_lock s ∧ (∀ x, x < vstart → kmemory s' x = kmemory s x) ∧
    length new = Z.to_nat ((vend - PGROUNDUP vstart) / PGSIZE) ∧
    ∀ v, v ∈ new ↔ v mod PGSIZE = 0 ∧ vstart ≤ v ∧ v + PGSIZE ≤ vend).
Proof using kend_high.
  intros Hf Hs He Hl. unfold freerange. unfold KERNBASE, PHYSTOP in *.
  destruct (PGROUNDUP_bounds vstart) as [Hb Hm]; [unfold PGSIZE; lia|].
  set (p := PGROUNDUP vstart) in *. set (n := Z.to_nat ((vend - p) / PGSIZE)).
  assert (∀ v, v ∈ pages n p ↔ v mod PGSIZE = 0 ∧ vstart ≤ v ∧ v + PGSIZE ≤ vend) as Hin.
  { intros v. rewrite elem_of_pages. unfold n, PGSIZE in *. split.
    - intros (k & Hk & ->). Z.div_mod_to_equations. lia.
    - intros (? & ? & ?). exists (Z.to_nat ((v - p) / 4096)).
      Z.div_mod_to_equations. lia. }
  eapply wp_mono.
  { apply (freerange_loop_spec n s l); [done|]. intros v Hv%Hin. split; [|intros ?%Hl; lia].
    unfold page_ok, KERNBASE, PHYSTOP, PGSIZE in *. lia. }
  intros _ s' tr (Hl' & Hu & Hx). exists (reverse (pages n p)). split_and!; [done | done | | |].
  - intros x ?. apply Hx. lia.
  - by rewrite length_reverse, length_pages.
  - intros v. by rewrite elem_of_reverse.
Qed.

(** freerange puts on the free list exactly the whole pages between
    [vstart] and [vend], none of them twice. *)
Theorem freerange_exact s vstart vend :
  freelist s = 0 → kend ≤ vstart ≤ vend → vend ≤ KERNBASE + PHYSTOP →
  wp (freerange vstart vend) s (λ _ s' _,
    ∃ l, free_list s' l ∧
      ∀ v, v ∈ l ↔ v mod PGSIZE = 0 ∧ vstart ≤ v ∧ v + PGSIZE ≤ vend).
Proof using kend_high.
  intros Hf Hs He. eapply wp_mono; [apply (freerange_run s []); [|done..|]|].
  - split_and!; [done | constructor | constructor].
  - by intros v ?%not_elem_of_nil.
  - intros _ s' tr (l & Hl & _ & _ & _ & Hv). rewrite app_nil_r in Hl. by exists l.
Qed.

End kalloc.

(** ** Witnesses: a machine with two free pages *)

Definition kend0 : Z := KERNBASE + 0x200000.
Definition two_pages : kmem :=
  mk_kmem true (kend0 + PGSIZE) (store32 (λ _, 0) (kend0 + PGSIZE) kend0).

Lemma two_pages_free : free_list kend0 two_pages [kend0 + PGSIZE; kend0].
Proof.
  split_and!.
  - by vm_compute.
  - rewrite NoDup_ListNoDup. repeat constructor; vm_compute; intuition lia.
  - repeat constructor; vm_compute; intuition discriminate.
Qed.

Lemma kalloc_exclusive_witness :
  KERNBASE < kend0 ∧
  wp kalloc two_pages (λ r s' _,
    (r = 0 ↔ ∅ = (list_to_set [kend0 + PGSIZE; kend0] : gset Z)) ∧
    (r = 0 ∨ (r ∉ (∅ : gset Z) ∧ r ∈ [kend0 + PGSIZE; kend0] ∧ page_ok kend0 r))).
Proof.
  split; [done|]. eapply (kalloc_exclusive kend0); [done | apply two_pages_free | constructor].
Defined.

Lemma freerange_exact_witness :
  wp (freerange kend0 kend0 (kend0 + 3 * PGSIZE)) (mk_kmem false 0 (λ _, 0)) (λ _ s' _,
    ∃ l, free_list kend0 s' l ∧
      ∀ v, v ∈ l ↔ v mod PGSIZE = 0 ∧ kend0 ≤ v ∧ v + PGSIZE ≤ kend0 + 3 * PGSIZE).
Proof. by apply freerange_exact. Defined.

End Kalloc.
