(* ===== verification/Vm.v ===== *)
(** * vm.c: page tables and address spaces

    Two-level page tables in the byte memory of the page allocator, exactly as
    the hardware reads them. [space] is the abstraction: which user pages
    an address space maps and where; the theorems say what [allocuvm],
    [deallocuvm], [copyuvm], [freevm] and [copyout] do to it and to the free
    list. *)

From S2P Require Import Prelude Memory Layout Cstring Kalloc.

Module Vm.
Import Cstring Kalloc.

Section vm.
(** The addresses kernel.ld provides: the end of the kernel, and its data. *)
Context (kend kdata : Z).

Abbreviation K := (M kmem).

Definition ld (a : Z) : K Z := gets (λ s, load32 (kmemory s) a).
Definition st (a v : Z) : K unit := modify (λ s, mk_kmem (use_lock s) (freelist s) (store32 (kmemory s) a v)).
Definition fill (a c n : Z) : K unit :=
  if a =? 0 then page_fault 0
  else modify (λ s, mk_kmem (use_lock s) (freelist s) (memset (kmemory s) a c n)).
Definition copy (dst src : Z) (n : Z) : K unit :=
  modify (λ s, mk_kmem (use_lock s) (freelist s) (memmove (kmemory s) dst src (Z.to_nat n))).

Definition walkpgdir (pgdir va : Z) (alloc : bool) : K Z :=
  let pde := pgdir + 4 * PDX va in
  e ← ld pde ;
  if truth (Z.land e PTE_P) then mret (P2V (PTE_ADDR e) + 4 * PTX va)
  else if negb alloc then mret 0 else
    pgtab ← kalloc ;
    if pgtab =? 0 then mret 0 else
    fill pgtab 0 PGSIZE ;;
    st pde (Z.lor (Z.lor (Z.lor (V2P pgtab) PTE_P) PTE_W) PTE_U) ;;
    mret (pgtab + 4 * PTX va).

(** [for(;;)] of [mappages]; [n] bounds the iterations. *)
Fixpoint mappages_loop (n : nat) (pgdir a last pa perm : Z) : K Z :=
  pte ← walkpgdir pgdir a true ;
  if pte =? 0 then mret (-1) else
  e ← ld pte ;
  if truth (Z.land e PTE_P) then panic "remap" else
  st pte (Z.lor (Z.lor pa perm) PTE_P) ;;
  if a =? last then mret 0 else
  match n with
  | O => undefined "mappages does not reach its last page"
  | S n' => mappages_loop n' pgdir (u32 (a + PGSIZE)) last (u32 (pa + PGSIZE)) perm
  end.

Definition mappages (pgdir va size pa perm : Z) : K Z :=
  let a := PGROUNDDOWN va in
  let last := PGROUNDDOWN (u32 (va + size - 1)) in
  mappages_loop (Z.to_nat (u32 (last - a) / PGSIZE)) pgdir a last pa perm.

(** [kmap]: virtual address, physical start and end, permissions *)
Definition kmap : list (Z * Z * Z * Z) :=
  [(KERNBASE, 0, EXTMEM, PTE_W);
   (KERNLINK, V2P KERNLINK, V2P kdata, 0);
   (kdata, V2P kdata, PHYSTOP, PTE_W);
   (DEVSPACE, DEVSPACE, 0, PTE_W)].

(** The loop of [deallocuvm]; [n] bounds the iterations. *)
Fixpoint deallocuvm_loop (n : nat) (pgdir a oldsz : Z) : K unit :=
  if oldsz <=? a then mret () else
  match n with
  | O => undefined "deallocuvm does not terminate"
  | S n' =>
      pte ← walkpgdir pgdir a false ;
      if pte =? 0 then deallocuvm_loop n' pgdir (u32 (u32 (PGADDR (PDX a + 1) 0 0 - PGSIZE) + PGSIZE)) oldsz
      else
        e ← ld pte ;
        when (truth (Z.land e PTE_P))
          (let pa := PTE_ADDR e in
           if pa =? 0 then panic "kfree" else
           kfree kend (P2V pa) ;;
           st pte 0) ;;
        deallocuvm_loop n' pgdir (u32 (a + PGSIZE)) oldsz
  end.

Definition deallocuvm (pgdir oldsz newsz : Z) : K Z :=
  if oldsz <=? newsz then mret oldsz else
  let a := PGROUNDUP newsz in
  deallocuvm_loop (Z.to_nat ((oldsz - a) / PGSIZE + 1)) pgdir a oldsz ;;
  mret newsz.

Definition freevm (pgdir : Z) : K unit :=
  if pgdir =? 0 then panic "freevm: no pgdir" else
  deallocuvm pgdir KERNBASE 0 ;;
  for_each (seqZ 0 NPDENTRIES) (λ i,
    e ← ld (pgdir + 4 * i) ;
    when (truth (Z.land e PTE_P)) (kfree kend (P2V (PTE_ADDR e)))) ;;
  kfree kend pgdir.

(** The loop of [setupkvm] over [kmap]; whether it succeeded. *)
Fixpoint setupkvm_loop (pgdir : Z) (ks : list (Z * Z * Z * Z)) : K bool :=
  match ks with
  | [] => mret true
  | (virt, pstart, pend, perm) :: ks' =>
      r ← mappages pgdir virt (u32 (pend - pstart)) pstart perm ;
      if r <? 0 then mret false else setupkvm_loop pgdir ks'
  end.

Definition setupkvm : K Z :=
  pgdir ← kalloc ;
  if pgdir =? 0 then mret 0 else
  fill pgdir 0 PGSIZE ;;
  if DEVSPACE <? P2V PHYSTOP then panic "PHYSTOP too high" else
  ok ← setupkvm_loop pgdir kmap ;
  if ok : bool then mret pgdir
  else freevm pgdir ;; mret 0.

(** [init] is the code of initcode.S. *)
Definition inituvm (pgdir : Z) (init : list Z) : K unit :=
  if PGSIZE <=? length init then panic "inituvm: more than a page" else
  mem ← kalloc ;
  fill mem 0 PGSIZE ;;
  mappages pgdir 0 PGSIZE (V2P mem) (Z.lor PTE_W PTE_U) ;;
  modify (λ s, mk_kmem (use_lock s) (freelist s) (write_bytes (kmemory s) mem init)).

Fixpoint allocuvm_loop (n : nat) (pgdir a oldsz newsz : Z) : K Z :=
  if newsz <=? a then mret newsz else
  match n with
  | O => undefined "allocuvm does not terminate"
  | S n' =>
      mem ← kalloc ;
      if mem =? 0 then
        cprintf "allocuvm out of memory\n" [] ;;
        deallocuvm pgdir newsz oldsz ;;
        mret 0
      else
        fill mem 0 PGSIZE ;;
        r ← mappages pgdir a PGSIZE (V2P mem) (Z.lor PTE_W PTE_U) ;
        if r <? 0 then
          cprintf "allocuvm out of memory (2)\n" [] ;;
          deallocuvm pgdir newsz oldsz ;;
          kfree kend mem ;;
          mret 0
        else allocuvm_loop n' pgdir (u32 (a + PGSIZE)) oldsz newsz
  end.

Definition allocuvm (pgdir oldsz newsz : Z) : K Z :=
  if KERNBASE <=? newsz then mret 0 else
  if newsz <? oldsz then mret oldsz else
  let a := PGROUNDUP oldsz in
  allocuvm_loop (Z.to_nat ((newsz - a) / PGSIZE + 1)) pgdir a oldsz newsz.

Definition clearpteu (pgdir uva : Z) : K unit :=
  pte ← walkpgdir pgdir uva false ;
  if pte =? 0 then panic "clearpteu" else
  e ← ld pte ;
  st pte (Z.land e (Z.lnot PTE_U)).

Fixpoint copyuvm_loop (n : nat) (pgdir d i sz : Z) : K Z :=
  if sz <=? i then mret d else
  match n with
  | O => undefined "copyuvm does not terminate"
  | S n' =>
      pte ← walkpgdir pgdir i false ;
      if pte =? 0 then panic "copyuvm: pte should exist" else
      e ← ld pte ;
      if negb (truth (Z.land e PTE_P)) then panic "copyuvm: page not present" else
      let pa := PTE_ADDR e in
      let flags := PTE_FLAGS e in
      mem ← kalloc ;
      if mem =? 0 then freevm d ;; mret 0 else
      copy mem (P2V pa) PGSIZE ;;
      r ← mappages d i PGSIZE (V2P mem) flags ;
      if r <? 0 then
        kfree kend mem ;;
        freevm d ;;
        mret 0
      else copyuvm_loop n' pgdir d (u32 (i + PGSIZE)) sz
  end.

Definition copyuvm (pgdir sz : Z) : K Z :=
  d ← setupkvm ;
  if d =? 0 then mret 0
  else copyuvm_loop (Z.to_nat (sz / PGSIZE + 1)) pgdir d 0 sz.

(** [*pte] is read without a test for a null [pte]. *)
Definition uva2ka (pgdir uva : Z) : K Z :=
  pte ← walkpgdir pgdir uva false ;
  if pte =? 0 then undefined "null pte" else
  e ← ld pte ;
  if negb (truth (Z.land e PTE_P)) then mret 0
  else if negb (truth (Z.land e PTE_U)) then mret 0
  else mret (P2V (PTE_ADDR e)).

(** [copyout] of the bytes [buf]; [fuel] bounds the pages it visits. *)
Fixpoint copyout_loop (fuel : nat) (pgdir va : Z) (buf : list Z) : K Z :=
  match buf with
  | [] => mret 0
  | _ =>
      match fuel with
      | O => undefined "copyout does not terminate"
      | S fuel' =>
          let va0 := PGROUNDDOWN va in
          pa0 ← uva2ka pgdir va0 ;
          if pa0 =? 0 then mret (-1) else
          let n := Z.min (PGSIZE - (va - va0)) (length buf) in
          modify (λ s, mk_kmem (use_lock s) (freelist s)
            (write_bytes (kmemory s) (pa0 + (va - va0)) (take (Z.to_nat n) buf))) ;;
          copyout_loop fuel' pgdir (u32 (va0 + PGSIZE)) (drop (Z.to_nat n) buf)
      end
  end.

Definition copyout (pgdir va : Z) (buf : list Z) : K Z :=
  copyout_loop (length buf) pgdir va buf.

(** ** Page tables *)

Context (kend_high : KERNBASE < kend).

(** [x] is an address inside the page [p]. *)
Definition in_page (p x : Z) : Prop := p ≤ x < p + PGSIZE.

(** The page tables [tabs] of the page directory [d]: an entry for each present
    one, in a page of its own. *)
Definition pt_rep (m : mem) (d : Z) (tabs : Z → option Z) : Prop :=
  page_ok kend d ∧
  (∀ i, 0 ≤ i < 1024 →
     match tabs i with
     | Some t => load32 m (d + 4 * i) = V2P t + 7 ∧ page_ok kend t ∧ t ≠ d
     | None => Z.land (load32 m (d + 4 * i)) PTE_P = 0
     end) ∧
  (∀ i j t, tabs i = Some t → tabs j = Some t → i = j) ∧
  (∀ i t, tabs i = Some t → 0 ≤ i < 1024).

(** The page table entry of [va]: 0 where there is no page table. *)
Definition pte (m : mem) (tabs : Z → option Z) (va : Z) : Z :=
  match tabs (PDX va) with Some t => load32 m (t + 4 * PTX va) | None => 0 end.

(** The pages the page directory and its tables lie in. *)
Definition owns (d : Z) (tabs : Z → option Z) (p : Z) : Prop :=
  p = d ∨ ∃ i, 0 ≤ i < 1024 ∧ tabs i = Some p.

Lemma PDX_range va : 0 ≤ PDX va < 1024.
Proof. unfold PDX. change 0x3FF with (Z.ones 10). rewrite Z.land_ones by lia. apply Z.mod_pos_bound. lia. Qed.

Lemma PTX_range va : 0 ≤ PTX va < 1024.
Proof. unfold PTX. change 0x3FF with (Z.ones 10). rewrite Z.land_ones by lia. apply Z.mod_pos_bound. lia. Qed.

Lemma page_ok_V2P p : page_ok kend p →
  P2V (V2P p) = p ∧ V2P p mod PGSIZE = 0 ∧ V2P p = p - KERNBASE ∧ 0 < V2P p ∧ p + PGSIZE < 2 ^ 32.
Proof using kend_high.
  intros Hp. pose proof (page_ok_range kend kend_high p Hp) as Hr. destruct Hp as (Hm & Hk & Hp).
  assert (KERNBASE ≤ p < 2 ^ 32) as Hr' by lia.
  split_and!; [by apply P2V_V2P | by apply V2P_mod | by apply V2P_eq | rewrite V2P_eq by done; lia |].
  unfold KERNBASE, PHYSTOP, PGSIZE in *. lia.
Qed.

Lemma entry_range p f : page_ok kend p → 0 ≤ f < PGSIZE → 0 ≤ V2P p + f < 2 ^ 32.
Proof using kend_high.
  intros Hp Hf. destruct (page_ok_V2P p Hp) as (_ & _ & HV & Hpos & Hr). unfold KERNBASE, PGSIZE in *. lia.
Qed.

(** Decoding an entry. *)
Lemma entry_decode p f : page_ok kend p → 0 ≤ f < PGSIZE → f mod 2 = 1 →
  truth (Z.land (V2P p + f) PTE_P) = true ∧ P2V (PTE_ADDR (V2P p + f)) = p ∧ PTE_FLAGS (V2P p + f) = f.
Proof using kend_high.
  intros Hp Hf Hodd. destruct (page_ok_V2P p Hp) as (Hv & Hm & _). destruct (pte_flags (V2P p) f Hm Hf) as [-> ->].
  split_and!; [|done..]. apply truth_true. unfold PTE_P. rewrite land_1_mod. unfold PGSIZE in Hm.
  assert (V2P p mod 2 = 0) by (Z.div_mod_to_equations; lia). rewrite Z.add_mod by lia. rewrite H, Hodd. done.
Qed.

(** ** Locality *)

(** [m'] differs from [m] only inside pages that satisfy [P]. *)
Definition same_off (P : Z → Prop) (m m' : mem) : Prop :=
  ∀ x, (∀ p, P p → ¬ in_page p x) → m' x = m x.

Lemma same_off_refl P m : same_off P m m.
Proof using. done. Qed.

Lemma same_off_trans P m1 m2 m3 : same_off P m1 m2 → same_off P m2 m3 → same_off P m1 m3.
Proof using. intros H1 H2 x Hx. rewrite H2, H1; done. Qed.

Lemma same_off_mono (P Q : Z → Prop) m m' : (∀ p, P p → Q p) → same_off P m m' → same_off Q m m'.
Proof using. intros HPQ H x Hx. apply H. eauto. Qed.

Lemma same_off_page (P : Z → Prop) p m m' : P p → same_outside p PGSIZE m m' → same_off P m m'.
Proof using. intros Hp Hs x Hx. apply Hs. specialize (Hx p Hp). unfold in_page in Hx. lia. Qed.

(** A page that does not satisfy [P] keeps its contents. *)
Lemma same_off_at P m m' q x :
  same_off P m m' → (∀ p, P p → page_ok kend p) → page_ok kend q → ¬ P q → in_page q x → m' x = m x.
Proof using.
  intros Hs HP Hq Hnq Hx. apply Hs. intros p Hp Hpx.
  destruct (pages_disjoint kend p q) as [|]; [by apply HP | done | by intros -> | |]; unfold in_page in *; lia.
Qed.

Lemma load32_off P m m' q i :
  same_off P m m' → (∀ p, P p → page_ok kend p) → page_ok kend q → ¬ P q → 0 ≤ i < 1024 →
  load32 m' (q + 4 * i) = load32 m (q + 4 * i).
Proof using.
  intros Hs HP Hq Hnq Hi. unfold load32. 
  by rewrite !(same_off_at P m m' q) by (done || (unfold in_page, PGSIZE; lia)).
Qed.

(** ** The page table walk *)

Lemma owns_ok m d tabs p : pt_rep m d tabs → owns d tabs p → page_ok kend p.
Proof using. intros (Hd & Ht & _) [->|(i & Hi & Hp)]; [done|]. specialize (Ht i Hi). rewrite Hp in Ht. naive_solver. Qed.

Lemma owns_table d tabs va t : tabs (PDX va) = Some t → owns d tabs t.
Proof using. intros Ht. right. exists (PDX va). split; [apply PDX_range | done]. Qed.

(** The representation depends only on the pages it lies in. *)
Lemma pt_rep_off P m m' d tabs :
  pt_rep m d tabs → same_off P m m' → (∀ p, P p → page_ok kend p) → (∀ p, owns d tabs p → ¬ P p) →
  pt_rep m' d tabs ∧ ∀ va, pte m' tabs va = pte m tabs va.
Proof using.
  intros Hrep Hs HP Hown. pose proof Hrep as (Hd & Ht & Hinj). split.
  - split; [done|]. split; [|done]. intros i Hi. rewrite (load32_off P m m') by (done || apply Hown; by left). by apply Ht.
  - intros va. unfold pte. destruct (tabs (PDX va)) as [t|] eqn:Hva; [|done].
    pose proof (owns_table d tabs va t Hva) as Ho. pose proof (PTX_range va).
    apply (load32_off P); try done; [by eapply owns_ok | by apply Hown].
Qed.

Lemma walk_lookup s d tabs va :
  pt_rep (kmemory s) d tabs →
  walkpgdir d va false s = Ok (match tabs (PDX va) with Some t => t + 4 * PTX va | None => 0 end) s [].
Proof using kend_high.
  intros (Hd & Ht & _). specialize (Ht (PDX va) (PDX_range va)). unfold walkpgdir, ld. mrun.
  destruct (tabs (PDX va)) as [t|].
  - destruct Ht as (-> & Hok & _). destruct (entry_decode t 7 Hok) as (-> & -> & _); done.
  - by rewrite Ht.
Qed.

(** The address of an entry is not null. *)
Lemma entry_addr_pos t va : page_ok kend t → (t + 4 * PTX va =? 0) = false.
Proof using kend_high.
  intros Hok. apply Z.eqb_neq. pose proof (page_ok_range kend kend_high t Hok). pose proof (PTX_range va). lia.
Qed.

(** ** Growing a page table *)

(** A page directory [d] with its tables, beside the free pages [l]. *)
Definition vmrep (s : kmem) (l : list Z) (d : Z) (tabs : Z → option Z) : Prop :=
  free_list kend s l ∧ pt_rep (kmemory s) d tabs ∧ ∀ p, owns d tabs p → p ∉ l.

(** [s'] is [s] after more page tables have been made out of free pages. *)
Definition grown (d : Z) (s : kmem) (l : list Z) (tabs : Z → option Z) (s' : kmem) (l' : list Z) (tabs' : Z → option Z)
    : Prop :=
  use_lock s' = use_lock s ∧ same_off (owns d tabs') (kmemory s) (kmemory s') ∧
  ∃ new, l = new ++ l' ∧ ∀ p, owns d tabs' p ↔ owns d tabs p ∨ p ∈ new.

Lemma grown_refl d s l tabs : grown d s l tabs s l tabs.
Proof using. split_and!; [done | done |]. exists []. split; [done|]. intros p. rewrite elem_of_nil. naive_solver. Qed.

Lemma grown_trans d s l tabs s1 l1 tabs1 s2 l2 tabs2 :
  grown d s l tabs s1 l1 tabs1 → grown d s1 l1 tabs1 s2 l2 tabs2 → grown d s l tabs s2 l2 tabs2.
Proof using.
  intros (Hu1 & Hs1 & new1 & -> & Ho1) (Hu2 & Hs2 & new2 & -> & Ho2). split_and!; [congruence | |].
  - eapply same_off_trans; [eapply same_off_mono; [|exact Hs1] | exact Hs2]. intros p Hp. apply Ho2. by left.
  - exists (new1 ++ new2). rewrite (assoc_L (++)). split; [done|]. intros p. rewrite Ho2, Ho1, elem_of_app. naive_solver.
Qed.

(** The new tables are for entries of the directory in [I]. *)
Definition grown_in (I : Z → Prop) d s l tabs s' l' tabs' : Prop :=
  grown d s l tabs s' l' tabs' ∧ ∀ i, tabs' i ≠ tabs i → I i.

Lemma grown_in_refl I d s l tabs : grown_in I d s l tabs s l tabs.
Proof using. split; [apply grown_refl | done]. Qed.

Lemma grown_in_trans I d s l tabs s1 l1 tabs1 s2 l2 tabs2 :
  grown_in I d s l tabs s1 l1 tabs1 → grown_in I d s1 l1 tabs1 s2 l2 tabs2 → grown_in I d s l tabs s2 l2 tabs2.
Proof using.
  intros [H1 I1] [H2 I2]. split; [by eapply grown_trans|]. intros i Hi.
  destruct (decide (tabs1 i = tabs i)) as [E|]; [|by apply I1]. apply I2. by rewrite E.
Qed.

Lemma grown_in_mono (I J : Z → Prop) d s l tabs s' l' tabs' :
  (∀ i, I i → J i) → grown_in I d s l tabs s' l' tabs' → grown_in J d s l tabs s' l' tabs'.
Proof using. intros H [Hg Hi]. split; [done|]. auto. Qed.

Definition upd_tab {A} (f : Z → option A) (i : Z) (x : option A) : Z → option A := λ j, if j =? i then x else f j.

Lemma upd_tab_same {A} (f : Z → option A) i x : upd_tab f i x i = x.
Proof using. unfold upd_tab. by rewrite Z.eqb_refl. Qed.

Lemma upd_tab_other {A} (f : Z → option A) i j x : j ≠ i → upd_tab f i x j = f j.
Proof using. intros Hne. unfold upd_tab. by rewrite (proj2 (Z.eqb_neq _ _) Hne). Qed.

Lemma owns_upd d tabs i v p : 0 ≤ i < 1024 → tabs i = None →
  owns d (upd_tab tabs i (Some v)) p ↔ owns d tabs p ∨ p ∈ [v].
Proof using.
  intros Hi Hn. unfold owns. rewrite list_elem_of_singleton. split.
  - intros [?|(j & Hj & Hp)]; [by auto|]. destruct (decide (j = i)) as [->|Hne].
    + rewrite upd_tab_same in Hp. naive_solver.
    + rewrite upd_tab_other in Hp by done. eauto.
  - intros [[?|(j & Hj & Hp)]| ->]; [by auto | right; exists j | right; exists i].
    + rewrite upd_tab_other; [done|]. congruence.
    + by rewrite upd_tab_same.
Qed.

(** The entry [walkpgdir] stores for a new table. *)
Lemma new_pde v : page_ok kend v → Z.lor (Z.lor (Z.lor (V2P v) PTE_P) PTE_W) PTE_U = V2P v + 7.
Proof using kend_high.
  intros Hv. destruct (page_ok_V2P v Hv) as (_ & Hm & _). rewrite <- !Z.lor_assoc. by apply (lor_low _ _ 12).
Qed.

Lemma free_list_head s v l : free_list kend s (v :: l) → page_ok kend v ∧ v ∉ l.
Proof using. intros (_ & Hnd & Hf). apply NoDup_cons in Hnd as [? _]. by apply Forall_cons in Hf as [? _]. Qed.

(** Writing inside pages that are not free keeps the free list. *)
Lemma free_list_off P s s' l :
  free_list kend s l → freelist s' = freelist s → same_off P (kmemory s) (kmemory s') →
  (∀ p, P p → page_ok kend p ∧ p ∉ l) → free_list kend s' l.
Proof using.
  intros (Hc & Hnd & Hf) Hfl Hs HP. split_and!; [|done|done]. rewrite Hfl.
  generalize (freelist s), Hc. clear Hc Hnd. revert HP Hf. clear Hfl.
  intros HP Hf. assert (∀ p, p ∈ l → ¬ P p ∧ page_ok kend p) as Hin.
  { intros p Hp. split; [intros Hpp; by apply HP in Hpp as [_ ?] | by apply (proj1 (Forall_forall _ _) Hf)]. }
  clear Hf. induction l as [|v l IH]; intros z Hc; simpl in *; [done|]. destruct Hc as [-> Hc]. split; [done|].
  destruct (Hin v) as [Hv Hok]; [by left|].
  assert (load32 (kmemory s') v = load32 (kmemory s) v) as ->.
  { pose proof (load32_off P (kmemory s) (kmemory s') v 0) as Hl. rewrite Z.mul_0_r, Z.add_0_r in Hl.
    apply Hl; try done. intros p Hp. by apply HP. }
  apply IH; [|by intros; apply Hin; right | done]. intros p Hp. destruct (HP p Hp) as [? Hni]. split; [done|].
  intros ?. apply Hni. by right.
Qed.

(** A new page table: the free page [v], cleared, becomes table [i]. *)
Lemma new_table s l d tabs i v m2 :
  vmrep s (v :: l) d tabs → 0 ≤ i < 1024 → tabs i = None →
  m2 = store32 (memset (kmemory s) v 0 PGSIZE) (d + 4 * i) (V2P v + 7) →
  pt_rep m2 d (upd_tab tabs i (Some v)) ∧ same_off (λ p, p = d ∨ p = v) (kmemory s) m2 ∧
  (∀ j, 0 ≤ j < 1024 → load32 m2 (v + 4 * j) = 0) ∧
  (∀ va, PDX va ≠ i → pte m2 tabs va = pte (kmemory s) tabs va).
Proof using kend_high.
  intros (Hfl & Hrep & Hsep) Hi Hnone ->. pose proof Hrep as (Hd & Ht & Hinj & Hrange).
  destruct (free_list_head s v l Hfl) as [Hv Hvl]. pose proof (page_ok_V2P v Hv) as (_ & _ & HV & _ & Hv32).
  set (m1 := memset (kmemory s) v 0 PGSIZE). set (m2 := store32 m1 (d + 4 * i) (V2P v + 7)).
  assert (v ≠ d) as Hvd by (intros ->; apply (Hsep d); [by left | by left]).
  assert (∀ j, tabs j ≠ Some v) as Hnv.
  { intros j Hj. apply (Hsep v); [right; exists j; eauto | by left]. }
  assert (same_off (λ p, p = d) m1 m2) as Hoff2.
  { apply (same_off_page _ d); [done|]. intros x Hx. apply store32_outside. unfold PGSIZE in *. lia. }
  assert (same_off (λ p, p = v) (kmemory s) m1) as Hoff1.
  { apply (same_off_page _ v); [done|]. intros x Hx. by apply memset_outside. }
  assert (∀ j, 0 ≤ j < 1024 → load32 m1 (d + 4 * j) = load32 (kmemory s) (d + 4 * j)) as Hd1.
  { intros j Hj. apply (load32_off (λ p, p = v)); try done. by intros p ->. }
  assert (∀ q, page_ok kend q → q ≠ d → q ≠ v → ∀ j, 0 ≤ j < 1024 → load32 m2 (q + 4 * j) = load32 (kmemory s) (q + 4 * j)) as Hq.
  { intros q Hqok Hqd Hqv j Hj. rewrite (load32_off (λ p, p = d) m1 m2) by (done || (by intros p ->)).
    apply (load32_off (λ p, p = v)); try done. by intros p ->. }
  split_and!.
  - split_and!; [done | | |].
    + intros j Hj. destruct (decide (j = i)) as [->|Hne].
      * rewrite upd_tab_same. unfold m2. rewrite load_store32_same, u32_small by (by apply entry_range). done.
      * rewrite upd_tab_other by done. unfold m2. rewrite load_store32_other by lia. rewrite Hd1 by done. by apply Ht.
    + intros j j' t Hj Hj'. destruct (decide (j = i)) as [->|Hne], (decide (j' = i)) as [->|Hne']; [done | | |];
        rewrite ?upd_tab_same, ?upd_tab_other in * by done; simplify_eq; [by destruct (Hnv j')| by destruct (Hnv j)|].
      by eapply Hinj.
    + intros j t Hj. destruct (decide (j = i)) as [->|Hne]; [done|]. rewrite upd_tab_other in Hj by done. eauto.
  - eapply same_off_trans; eapply same_off_mono; [|exact Hoff1| |exact Hoff2]; naive_solver.
  - intros j Hj. rewrite (load32_off (λ p, p = d) m1 m2) by (done || (by intros p ->)).
    unfold load32, m1. rewrite !memset_fill by done. unfold PGSIZE. range_cases; try lia. done.
  - intros va Hva. unfold pte. destruct (tabs (PDX va)) as [t|] eqn:Htv; [|done].
    pose proof (Ht (PDX va) (PDX_range va)) as Hok. rewrite Htv in Hok. destruct Hok as (_ & Hok & Htd).
    apply Hq; try done; [|apply PTX_range]. intros ->. by destruct (Hnv (PDX va)).
Qed.

Lemma walk_alloc s l d tabs va :
  vmrep s l d tabs →
  wp (walkpgdir d va true) s (λ r s' _, ∃ l' tabs',
    vmrep s' l' d tabs' ∧ grown_in (λ i, i = PDX va) d s l tabs s' l' tabs' ∧
    (∀ va', pte (kmemory s') tabs' va' = pte (kmemory s) tabs va') ∧
    ((r = 0 ∧ l' = []) ∨ ∃ t, tabs' (PDX va) = Some t ∧ r = t + 4 * PTX va)).
Proof using kend_high.
  intros Hvm. pose proof Hvm as (Hfl & Hrep & Hsep). pose proof Hrep as (Hd & Ht & _).
  pose proof (PDX_range va) as Hpdx. pose proof (Ht _ Hpdx) as Hva.
  unfold walkpgdir, ld. wp_steps. destruct (tabs (PDX va)) as [t|] eqn:Htab.
  { destruct Hva as (-> & Hok & _). destruct (entry_decode t 7 Hok) as (-> & -> & _); [done.. |].
    apply wp_ret. exists l, tabs. split_and!; [done | apply grown_in_refl | done | right; by exists t]. }
  rewrite Hva. change (truth 0) with false. simpl negb. cbv iota. apply wp_bind.
  eapply wp_mono; [by apply (kalloc_spec kend kend_high s l)|]. intros r s1 t1 (Hm1 & Hu1 & _ & Hr).
  destruct l as [|v l]; [destruct Hr as [-> ->] | destruct Hr as [-> Hfl1]].
  { rewrite Z.eqb_refl. apply wp_ret. exists [], tabs. split_and!; [done | apply grown_in_refl | done | by left]. }
  destruct (free_list_head s v l Hfl) as [Hv Hvl]. pose proof (page_ok_range kend kend_high v Hv) as Hvr.
  unfold fill, st. rewrite (proj2 (Z.eqb_neq v 0)) by lia. wp_steps. rewrite new_pde, Hm1 by done.
  set (m2 := store32 _ _ _). destruct (new_table s l d tabs (PDX va) v m2) as (Hrep2 & Hoff & Hzero & Hother); try done.
  assert (∀ p, owns d (upd_tab tabs (PDX va) (Some v)) p ↔ owns d tabs p ∨ p ∈ [v]) as Hown by (intros; by apply owns_upd).
  exists l, (upd_tab tabs (PDX va) (Some v)). split_and!.
  - split_and!; [| done |].
    + apply (free_list_off (λ p, p = d ∨ p = v) s1); [done | done | by rewrite Hm1 |].
      intros p [->| ->]; split; try done. intros Hin. apply (Hsep d); [by left | by right].
    + intros p [Hp| ->%list_elem_of_singleton]%Hown; [|done]. intros Hin. apply (Hsep p Hp). by right.
  - split; [|intros i Hi; destruct (decide (i = PDX va)); [done | by rewrite upd_tab_other in Hi]].
    split_and!; simpl; [done | |by exists [v]].
    eapply same_off_mono; [|exact Hoff]. intros p [->| ->]; apply Hown; [left; by left | right; by left].
  - intros va'. simpl. unfold pte at 1. destruct (decide (PDX va' = PDX va)) as [He|Hne].
    + rewrite He, upd_tab_same. rewrite Hzero by apply PTX_range. unfold pte. by rewrite He, Htab.
    + rewrite upd_tab_other by done. by apply Hother.
  - right. exists v. by rewrite upd_tab_same.
Qed.

(** ** Mapping pages *)

Lemma page_number va va' : 0 ≤ va < 2 ^ 32 → 0 ≤ va' < 2 ^ 32 →
  va / PGSIZE = va' / PGSIZE ↔ PDX va = PDX va' ∧ PTX va = PTX va'.
Proof using.
  intros H H'. rewrite !PDX_eq, !PTX_eq by done. unfold PGSIZE. change (2 ^ 22) with (2 ^ 12 * 2 ^ 10).
  rewrite <- !Zdiv_Zdiv by lia. change 4096 with (2 ^ 12). set (a := va / 2 ^ 12). set (b := va' / 2 ^ 12).
  split; [by intros ->|]. intros [Hq Hm]. rewrite (Z.div_mod a (2 ^ 10)), (Z.div_mod b (2 ^ 10)) by lia. congruence.
Qed.

Definition set_mem (m : mem) (s : kmem) : kmem := mk_kmem (use_lock s) (freelist s) m.

(** Storing an entry of a page table. *)
Lemma store_pte s l d tabs va t v :
  vmrep s l d tabs → tabs (PDX va) = Some t → 0 ≤ va < 2 ^ 32 →
  let m' := store32 (kmemory s) (t + 4 * PTX va) v in
  vmrep (set_mem m' s) l d tabs ∧ same_off (owns d tabs) (kmemory s) m' ∧
  ∀ va', 0 ≤ va' < 2 ^ 32 →
    pte m' tabs va' = if va' / PGSIZE =? va / PGSIZE then u32 v else pte (kmemory s) tabs va'.
Proof using.
  intros (Hfl & Hrep & Hsep) Ht Hva m'. pose proof Hrep as (Hd & Htabs & Hinj & Hrange).
  pose proof (Htabs _ (PDX_range va)) as Hok. rewrite Ht in Hok. destruct Hok as (_ & Hok & Htd).
  pose proof (PTX_range va) as Hptx. assert (owns d tabs t) as Hot by (by eapply owns_table).
  assert (same_off (λ p, p = t) (kmemory s) m') as Hoff.
  { apply (same_off_page _ t); [done|]. intros x Hx. apply store32_outside. unfold PGSIZE in *. lia. }
  assert (∀ q j, page_ok kend q → q ≠ t → 0 ≤ j < 1024 → load32 m' (q + 4 * j) = load32 (kmemory s) (q + 4 * j)) as Hq.
  { intros q j Hqok Hqt Hj. apply (load32_off (λ p, p = t)); try done. by intros p ->. }
  split_and!.
  - split_and!; [| |done].
    + apply (free_list_off (λ p, p = t) s); try done. intros p ->. split; [done | by apply Hsep].
    + split; [done|]. split; [|done]. intros j Hj. simpl. rewrite Hq by (done || congruence). by apply Htabs.
  - eapply same_off_mono; [|exact Hoff]. by intros p ->.
  - intros va' Hva'. unfold pte. destruct (Z.eqb_spec (va' / PGSIZE) (va / PGSIZE)) as [He|Hne].
    + apply page_number in He as [-> ->]; [|done..]. rewrite Ht. apply load_store32_same.
    + destruct (tabs (PDX va')) as [t'|] eqn:Ht'; [|done]. pose proof (PTX_range va') as Hptx'.
      destruct (decide (t' = t)) as [->|Htt].
      * assert (PDX va' = PDX va) as Hp by (by eapply Hinj). unfold m'. rewrite load_store32_other; [done|].
        assert (PTX va' ≠ PTX va); [|lia]. intros Hx. apply Hne. by apply page_number.
      * apply Hq; try done. pose proof (Htabs _ (PDX_range va')) as Hok'. rewrite Ht' in Hok'. naive_solver.
Qed.

(** The entry [mappages] stores. *)
Lemma new_pte pa perm : pa mod PGSIZE = 0 → 0 ≤ perm < PGSIZE →
  Z.lor (Z.lor pa perm) PTE_P = pa + Z.lor perm PTE_P ∧ 0 ≤ Z.lor perm PTE_P < PGSIZE ∧ Z.lor perm PTE_P mod 2 = 1.
Proof using.
  intros Hpa Hperm. unfold PTE_P. assert (0 ≤ Z.lor perm 1 < PGSIZE) as Hr.
  { unfold PGSIZE in *. split; [apply Z.lor_nonneg; lia|]. destruct (decide (perm = 0)) as [->|]; [done|].
    apply (Z.log2_lt_pow2 _ 12); [|rewrite Z.log2_lor by lia; simpl].
    - assert (0 ≤ Z.lor perm 1) by (apply Z.lor_nonneg; lia).
      assert (Z.lor perm 1 ≠ 0); [|lia]. intros Hz%Z.lor_eq_0_iff. lia.
    - rewrite Z.max_l by apply Z.log2_nonneg. apply Z.log2_lt_pow2; lia. }
  split_and!; try lia.
  - rewrite <- Z.lor_assoc. by apply (lor_low _ _ 12).
  - rewrite <- land_1_mod, Z.land_lor_distr_l. change (Z.land 1 1) with 1. rewrite land_1_mod.
    destruct (Z.mod_pos_bound perm 2); [lia|]. assert (perm mod 2 = 0 ∨ perm mod 2 = 1) as [-> | ->] by lia; done.
Qed.

(** The entries after [k] pages from [a] have been mapped to [pa] with flags [f]. *)
Definition mapped_range (e e' : Z → Z) (a : Z) (k : nat) (pa f : Z) : Prop :=
  ∀ va, 0 ≤ va < 2 ^ 32 →
    e' va = if in_range a (k * PGSIZE) va then pa + (PGROUNDDOWN va - a) + f else e va.

Lemma rounddown_same a va : a mod PGSIZE = 0 → a ≤ va < a + PGSIZE → PGROUNDDOWN va = a.
Proof using. intros Ha Hva. rewrite PGROUNDDOWN_eq. unfold PGSIZE in *. Z.div_mod_to_equations. lia. Qed.

Lemma same_page_range a va : a mod PGSIZE = 0 → va / PGSIZE = a / PGSIZE ↔ a ≤ va < a + PGSIZE.
Proof using. intros Ha. unfold PGSIZE in *. Z.div_mod_to_equations. lia. Qed.

(** One round of [mappages], followed by [k]. *)
Lemma map_step (I : Z → Prop) s l d tabs a v (k : K Z) (Q : Z → kmem → Prop) :
  I (PDX a) → vmrep s l d tabs → 0 ≤ a < 2 ^ 32 → 0 ≤ v < 2 ^ 32 → Z.land (pte (kmemory s) tabs a) PTE_P = 0 →
  (∀ s' tabs', vmrep s' [] d tabs' → grown_in I d s l tabs s' [] tabs' →
     (∀ va, pte (kmemory s') tabs' va = pte (kmemory s) tabs va) → Q (-1) s') →
  (∀ s' l' tabs', vmrep s' l' d tabs' → grown_in I d s l tabs s' l' tabs' →
     (∀ va, 0 ≤ va < 2 ^ 32 → pte (kmemory s') tabs' va =
        if va / PGSIZE =? a / PGSIZE then v else pte (kmemory s) tabs va) → wp k s' (λ r s'' _, Q r s'')) →
  wp (pte ← walkpgdir d a true ;
      if pte =? 0 then mret (-1) else
      e ← ld pte ;
      if truth (Z.land e PTE_P) then panic "remap" else
      st pte v ;; k) s (λ r s' _, Q r s').
Proof using kend_high.
  intros HI Hvm Ha Hv Hun Hnomem Hk. apply wp_bind. eapply wp_mono; [by apply walk_alloc|].
  intros r s1 t1 (l1 & tabs1 & Hvm1 & Hg1 & Hp1 & Hr). apply (grown_in_mono _ I) in Hg1; [|by intros i ->]. destruct Hr as [[-> ->]|(t & Ht & ->)].
  { apply wp_ret. by apply (Hnomem s1 tabs1). }
  pose proof Hvm1 as (_ & Hrep1 & _). rewrite entry_addr_pos by (eapply owns_ok; [done | by eapply owns_table]).
  unfold ld, st. wp_steps. assert (load32 (kmemory s1) (t + 4 * PTX a) = pte (kmemory s) tabs a) as ->.
  { rewrite <- Hp1. unfold pte. by rewrite Ht. }
  rewrite Hun. change (truth 0) with false. cbv iota. wp_steps.
  destruct (store_pte s1 l1 d tabs1 a t v Hvm1 Ht Ha) as (Hvm2 & Hoff & Hp2).
  eapply wp_mono; [apply (Hk (set_mem (store32 (kmemory s1) (t + 4 * PTX a) v) s1) l1 tabs1); [done | |] | done].
  - eapply grown_in_trans; [exact Hg1|]. split; [|done]. split_and!; [done | done|]. exists []. split; [done|].
    intros p. rewrite elem_of_nil. naive_solver.
  - intros va Hva. simpl. rewrite Hp2 by done. rewrite u32_small by done. case_match; [done | apply Hp1].
Qed.

Lemma mappages_loop_spec (I : Z → Prop) perm d (n : nat) : 0 ≤ perm < PGSIZE → ∀ a pa s l tabs,
  vmrep s l d tabs → a mod PGSIZE = 0 → 0 ≤ a → a + n * PGSIZE < 2 ^ 32 →
  pa mod PGSIZE = 0 → 0 ≤ pa → pa + (n + 1) * PGSIZE ≤ 2 ^ 32 →
  (∀ va, a ≤ va < a + (n + 1) * PGSIZE → I (PDX va)) →
  (∀ va, a ≤ va < a + (n + 1) * PGSIZE → Z.land (pte (kmemory s) tabs va) PTE_P = 0) →
  wp (mappages_loop n d a (a + n * PGSIZE) pa perm) s (λ r s' _, ∃ l' tabs' k,
    vmrep s' l' d tabs' ∧ grown_in I d s l tabs s' l' tabs' ∧
    mapped_range (pte (kmemory s) tabs) (pte (kmemory s') tabs') a k pa (Z.lor perm PTE_P) ∧
    ((r = 0 ∧ k = S n) ∨ (r = -1 ∧ l' = [] ∧ (k ≤ n)%nat))).
Proof using kend_high.
  intros Hperm. induction n as [|n IH]; intros a pa s l tabs Hvm Ha Ha0 Ha32 Hpa Hpa0 Hpa32 HI Hun;
    cbn [mappages_loop]; destruct (new_pte pa perm Hpa Hperm) as (-> & Hf & _).
  all: apply (map_step I s l d tabs a (pa + Z.lor perm PTE_P)); [apply HI; unfold PGSIZE; lia | done | unfold PGSIZE in *; lia | unfold PGSIZE in *; lia | apply Hun; unfold PGSIZE; lia | |].
  1, 3: intros s' tabs' Hvm' Hg' Hp'; exists [], tabs', O; split_and!; [done | done | | right; split_and!; [done | done | lia]];
    intros va Hva; rewrite Hp'; range_cases; [lia | done].
  - intros s' l' tabs' Hvm' Hg' Hp'. rewrite Z.add_0_r, Z.eqb_refl. apply wp_ret.
    exists l', tabs', 1%nat. split_and!; [done | done | | by left].
    intros va Hva. rewrite Hp' by done. destruct (Z.eqb_spec (va / PGSIZE) (a / PGSIZE)) as [He|Hne].
    + apply same_page_range in He; [|done]. range_cases; [|lia]. rewrite (rounddown_same a) by done. lia.
    + rewrite same_page_range in Hne by done. range_cases; [lia | done].
  - intros s' l' tabs' Hvm' Hg' Hp'. rewrite (proj2 (Z.eqb_neq _ _)) by (unfold PGSIZE; lia).
    rewrite !u32_small by (unfold PGSIZE in *; lia). replace (a + S n * PGSIZE) with (a + PGSIZE + n * PGSIZE) by lia.
    eapply wp_mono; [apply (IH (a + PGSIZE) (pa + PGSIZE) s' l' tabs'); [done|..]|].
    + unfold PGSIZE in *. Z.div_mod_to_equations. lia.
    + unfold PGSIZE in *; lia.
    + unfold PGSIZE in *; lia.
    + unfold PGSIZE in *. Z.div_mod_to_equations. lia.
    + unfold PGSIZE in *; lia.
    + unfold PGSIZE in *; lia.
    + intros va Hva. apply HI. unfold PGSIZE in *. lia.
    + intros va Hva. rewrite Hp' by (clear -Ha Ha0 Ha32 Hva; unfold PGSIZE in *; Z.div_mod_to_equations; lia). destruct (Z.eqb_spec (va / PGSIZE) (a / PGSIZE)) as [He|Hne].
      * apply same_page_range in He; [lia | done].
      * apply Hun. unfold PGSIZE in *; lia.
    + intros r s2 t2 (l2 & tabs2 & k & Hvm2 & Hg2 & Hm2 & Hr). exists l2, tabs2, (S k).
      split_and!; [done | by eapply grown_in_trans | |].
      * intros va Hva. rewrite Hm2, Hp' by done. destruct (Z.eqb_spec (va / PGSIZE) (a / PGSIZE)) as [He|Hne].
        -- apply same_page_range in He; [|done]. rewrite (rounddown_same a) by done. unfold PGSIZE in *. range_cases; lia.
        -- rewrite same_page_range in Hne by done. unfold PGSIZE in *. range_cases; lia.
      * destruct Hr as [[-> ->]|(-> & -> & Hk)]; [by left | right; split_and!; [done | done | lia]].
Qed.

Lemma mappages_loop_eq d va (n : nat) pa perm :
  va mod PGSIZE = 0 → 0 ≤ va → va + (n + 1) * PGSIZE ≤ 2 ^ 32 →
  mappages d va ((n + 1) * PGSIZE) pa perm = mappages_loop n d va (va + n * PGSIZE) pa perm.
Proof using.
  intros Hva H0 H32. unfold mappages. rewrite (u32_small (va + (n + 1) * PGSIZE - 1)) by (unfold PGSIZE in *; lia).
  rewrite (rounddown_same va va) by (done || (unfold PGSIZE; lia)).
  rewrite (rounddown_same (va + n * PGSIZE)) by (unfold PGSIZE in *; Z.div_mod_to_equations; lia).
  replace (va + n * PGSIZE - va) with (n * PGSIZE) by lia. rewrite u32_small by (unfold PGSIZE in *; lia).
  rewrite Z.div_mul by done. by rewrite Nat2Z.id.
Qed.

(** ** User address spaces *)

(** User pages are numbered from 0. *)
Definition NUPAGES : Z := KERNBASE / PGSIZE.

(** [um n] is the page and the flags user page [n] is mapped to. *)
Definition urep (m : mem) (tabs : Z → option Z) (um : Z → option (Z * Z)) : Prop :=
  (∀ n, 0 ≤ n < NUPAGES →
     match um n with
     | Some (p, f) => pte m tabs (n * PGSIZE) = V2P p + f ∧ page_ok kend p ∧ 0 ≤ f < PGSIZE ∧ f mod 2 = 1
     | None => Z.land (pte m tabs (n * PGSIZE)) PTE_P = 0
     end) ∧
  (∀ n x, um n = Some x → 0 ≤ n < NUPAGES) ∧
  (∀ n n' p f f', um n = Some (p, f) → um n' = Some (p, f') → n = n').

(** The address space of page directory [d], beside the free pages [l]. *)
Definition space (s : kmem) (l : list Z) (d : Z) (tabs : Z → option Z) (um : Z → option (Z * Z)) : Prop :=
  vmrep s l d tabs ∧ urep (kmemory s) tabs um ∧
  ∀ n p f, um n = Some (p, f) → p ∉ l ∧ ¬ owns d tabs p.

(** The pages an address space and the free list account for. *)
Definition pool (l : list Z) (d : Z) (tabs : Z → option Z) (um : Z → option (Z * Z)) (p : Z) : Prop :=
  p ∈ l ∨ owns d tabs p ∨ ∃ n f, um n = Some (p, f).

Lemma page_base n va : 0 ≤ n → n * PGSIZE / PGSIZE = n ∧ (va / PGSIZE = n ↔ n * PGSIZE ≤ va < n * PGSIZE + PGSIZE).
Proof using. intros Hn. unfold PGSIZE. split; [by apply Z.div_mul|]. Z.div_mod_to_equations. lia. Qed.

Lemma pte_page m tabs va : 0 ≤ va < 2 ^ 32 → pte m tabs va = pte m tabs (va / PGSIZE * PGSIZE).
Proof using.
  intros Hva. unfold pte. destruct (proj1 (page_number va (va / PGSIZE * PGSIZE) Hva ltac:(unfold PGSIZE; Z.div_mod_to_equations; lia))) as [<- <-];
    [|done]. by rewrite Z.div_mul.
Qed.

Lemma NUPAGES_bound n : 0 ≤ n < NUPAGES → 0 ≤ n * PGSIZE ∧ n * PGSIZE + PGSIZE ≤ KERNBASE ∧ (n * PGSIZE) mod PGSIZE = 0.
Proof using.
  change NUPAGES with 524288. unfold PGSIZE, KERNBASE. intros Hn. split_and!; [lia | lia | by apply Z.mod_mul].
Qed.

(** Pages that were neither free nor part of the page table are not part of it now. *)
Lemma grown_not_owns d s l tabs s' l' tabs' p :
  grown d s l tabs s' l' tabs' → p ∉ l → ¬ owns d tabs p → p ∉ l' ∧ ¬ owns d tabs' p.
Proof using.
  intros (_ & _ & new & -> & Ho) Hl Hp. rewrite not_elem_of_app in Hl. split; [by destruct Hl|].
  rewrite Ho. naive_solver.
Qed.

(** The kernel is mapped in both page tables in the same way. *)
Definition same_kernel (m : mem) (tabs : Z → option Z) (m' : mem) (tabs' : Z → option Z) : Prop :=
  ∀ va, KERNBASE ≤ va < 2 ^ 32 → pte m' tabs' va = pte m tabs va.

(** A page is mapped that was free before, or the memory for a page table has run out. *)
Lemma map_page s l d tabs um n p perm :
  space s l d tabs um → 0 ≤ n < NUPAGES → um n = None →
  page_ok kend p → p ∉ l → ¬ owns d tabs p → (∀ n' f, um n' ≠ Some (p, f)) → 0 ≤ perm < PGSIZE →
  wp (mappages d (n * PGSIZE) PGSIZE (V2P p) perm) s (λ r s' _, ∃ l' tabs',
    grown d s l tabs s' l' tabs' ∧ same_kernel (kmemory s) tabs (kmemory s') tabs' ∧
    ((r = 0 ∧ space s' l' d tabs' (upd_tab um n (Some (p, Z.lor perm PTE_P)))) ∨
     (r = -1 ∧ l' = [] ∧ space s' l' d tabs' um))).
Proof using kend_high.
  intros (Hvm & (Hu & Hur & Hui) & Hsep) Hn Hnone Hp Hpl Hpo Hpu Hperm. pose proof (Hu n Hn) as Hn0. rewrite Hnone in Hn0.
  destruct (page_ok_V2P p Hp) as (_ & HVm & _ & HVp & _). destruct (entry_range p 4095 Hp) as [_ HV]; [done|].
  destruct (NUPAGES_bound n Hn) as (Hn1 & Hn2 & Hn3). destruct (new_pte (V2P p) perm HVm Hperm) as (_ & Hf & Hodd).
  change (mappages d (n * PGSIZE) PGSIZE) with (mappages d (n * PGSIZE) ((0%nat + 1) * PGSIZE)).
  rewrite mappages_loop_eq by (done || (unfold PGSIZE, KERNBASE in *; lia)).
  eapply wp_mono; [apply (mappages_loop_spec (λ _, True) perm d 0 Hperm (n * PGSIZE) (V2P p) s l tabs Hvm); try done|].
  { unfold PGSIZE, KERNBASE in *; lia. }
  { lia. }
  { assert (V2P p ≤ 2 ^ 32 - PGSIZE); [|unfold PGSIZE in *; lia]. unfold PGSIZE in *. Z.div_mod_to_equations. lia. }
  { intros va Hva. rewrite pte_page by (unfold PGSIZE, KERNBASE in *; lia).
    rewrite (proj2 (proj2 (page_base n va (proj1 Hn)))) by (unfold PGSIZE in *; lia). done. }
  intros r s' tr (l' & tabs' & k & Hvm' & [Hg _] & Hmap & Hr). exists l', tabs'. split; [done|]. split.
  { intros va Hva. rewrite Hmap by (unfold KERNBASE in *; lia). destruct Hr as [[_ ->]|(_ & _ & ?)]; range_cases; try done; unfold PGSIZE in *; lia. }
  assert (∀ n', 0 ≤ n' < NUPAGES → n' ≠ n ∨ k = O → pte (kmemory s') tabs' (n' * PGSIZE) = pte (kmemory s) tabs (n' * PGSIZE)) as Hoth.
  { intros n' Hn' Hne. destruct (NUPAGES_bound n' Hn') as (Hb1 & Hb2 & _). rewrite Hmap by (unfold KERNBASE, PGSIZE in *; lia).
    destruct Hr as [[_ ->]|(_ & _ & Hk)]; range_cases; try done; unfold PGSIZE in *; lia. }
  destruct Hr as [[-> ->]|(-> & -> & Hk)]; [left | right].
  - split; [done|]. split_and!; [done | |].
    + split_and!.
      * intros n' Hn'. destruct (decide (n' = n)) as [->|Hne]; [|rewrite upd_tab_other, Hoth by auto; by apply Hu].
        rewrite upd_tab_same. split_and!; try done; try lia. rewrite Hmap by (unfold KERNBASE, PGSIZE in *; lia).
        rewrite (rounddown_same (n * PGSIZE)) by (done || (unfold PGSIZE; lia)). unfold PGSIZE. range_cases; lia.
      * intros n' x. unfold upd_tab. destruct (Z.eqb_spec n' n) as [->|]; [by intros|]. apply Hur.
      * intros n1 n2 q f f'. unfold upd_tab. destruct (Z.eqb_spec n1 n) as [->|], (Z.eqb_spec n2 n) as [->|]; try done.
        -- intros [= <- _] Hx. by destruct (Hpu n2 f').
        -- intros Hx [= <- _]. by destruct (Hpu n1 f).
        -- apply Hui.
    + intros n' q f. unfold upd_tab. destruct (Z.eqb_spec n' n) as [->|].
      * intros [= <- _]. by eapply grown_not_owns.
      * intros [? ?]%Hsep. by eapply grown_not_owns.
  - split_and!; try done. assert (k = O) as -> by lia. split_and!; [done | |].
    + split_and!; try done. intros n' Hn'. rewrite Hoth by auto. by apply Hu.
    + intros n' q f [? ?]%Hsep. by eapply grown_not_owns.
Qed.

(** ** Unmapping pages *)

(** The step from [s] to [s'] wrote only into pages that satisfy [P]. *)
Definition evolves (P : Z → Prop) (s s' : kmem) : Prop :=
  use_lock s' = use_lock s ∧ same_off P (kmemory s) (kmemory s').

Lemma evolves_refl P s : evolves P s s.
Proof using. done. Qed.

Lemma evolves_trans P s1 s2 s3 : evolves P s1 s2 → evolves P s2 s3 → evolves P s1 s3.
Proof using. intros [? ?] [? ?]. split; [congruence | by eapply same_off_trans]. Qed.

Lemma evolves_mono (P Q : Z → Prop) s s' : (∀ p, P p → Q p) → evolves P s s' → evolves Q s s'.
Proof using. intros ? [? ?]. split; [done | by eapply same_off_mono]. Qed.

(** Everything an address space accounts for is a page of the allocator. *)
Lemma pool_ok s l d tabs um p : space s l d tabs um → pool l d tabs um p → page_ok kend p.
Proof using.
  intros ((Hfl & Hrep & _) & (Hu & Hur & _) & _) [Hp|[Hp|(n & f & Hp)]].
  - destruct Hfl as (_ & _ & Hok). by apply (proj1 (Forall_forall _ _) Hok).
  - by eapply owns_ok.
  - specialize (Hu n (Hur _ _ Hp)). rewrite Hp in Hu. naive_solver.
Qed.

(** A mapped page has a page table. *)
Lemma mapped_table s l d tabs um n p f :
  space s l d tabs um → um n = Some (p, f) →
  ∃ t, tabs (PDX (n * PGSIZE)) = Some t ∧ load32 (kmemory s) (t + 4 * PTX (n * PGSIZE)) = V2P p + f ∧
    page_ok kend p ∧ 0 ≤ f < PGSIZE ∧ f mod 2 = 1.
Proof using kend_high.
  intros (_ & (Hu & Hur & _) & _) Hn. specialize (Hu n (Hur _ _ Hn)). rewrite Hn in Hu.
  destruct Hu as (Hp & Hok & Hf & Hodd). unfold pte in Hp. destruct (tabs _) as [t|]; [by exists t|].
  destruct (page_ok_V2P p Hok) as (_ & _ & _ & ? & _). lia.
Qed.

Lemma unmap_page s l d tabs um n p f t :
  space s l d tabs um → um n = Some (p, f) → tabs (PDX (n * PGSIZE)) = Some t →
  wp (kfree kend p ;; st (t + 4 * PTX (n * PGSIZE)) 0) s (λ _ s' _,
    space s' (p :: l) d tabs (upd_tab um n None) ∧ evolves (λ q, q = p ∨ owns d tabs q) s s').
Proof using kend_high.
  intros Hsp Hn Ht. pose proof Hsp as (Hvm & (Hu & Hur & Hui) & Hsep). pose proof Hvm as (Hfl & Hrep & Hown).
  destruct (NUPAGES_bound n (Hur _ _ Hn)) as (Hn1 & Hn2 & _). destruct (Hsep _ _ _ Hn) as [Hpl Hpo].
  assert (page_ok kend p) as Hp by (eapply pool_ok; [done | right; right; eauto]).
  apply wp_bind. eapply wp_mono; [by apply (kfree_spec kend kend_high s l p)|]. intros _ s1 t1 (Hfl1 & Hl1 & Hs1 & _).
  assert (same_off (λ q, q = p) (kmemory s) (kmemory s1)) as Hoff1 by (by apply (same_off_page _ p)).
  destruct (pt_rep_off (λ q, q = p) (kmemory s) (kmemory s1) d tabs) as [Hrep1 Hpte1]; [done | done | by intros q -> | by intros q Hq -> |].
  unfold st. wp_steps. assert (vmrep s1 (p :: l) d tabs) as Hvm1.
  { split_and!; [done | done|]. intros q Hq [->|]%elem_of_cons; [done | by apply (Hown q)]. }
  destruct (store_pte s1 (p :: l) d tabs (n * PGSIZE) t 0 Hvm1 Ht ltac:(unfold KERNBASE, PGSIZE in *; lia)) as (Hvm2 & Hoff2 & Hpte2).
  split; [split; [exact Hvm2 | split; [split; [|split]|]] | split; [done|]].
  - intros n' Hn'. destruct (NUPAGES_bound n' Hn') as (Hb1 & Hb2 & _). simpl. rewrite Hpte2 by (unfold KERNBASE, PGSIZE in *; lia).
    rewrite !Z.div_mul by done. unfold upd_tab. destruct (n' =? n); [done|]. rewrite Hpte1. by apply Hu.
  - intros n' x. unfold upd_tab. case_match; [done | apply Hur].
  - intros n1 n2 q f1 f2. unfold upd_tab. do 2 case_match; try done. apply Hui.
  - intros n' q f'. unfold upd_tab. destruct (Z.eqb_spec n' n) as [->|Hne]; [done|]. intros Hq. destruct (Hsep _ _ _ Hq) as [Hql Hqo].
    split; [|done]. intros [->|]%elem_of_cons; [|done]. by destruct (Hne (Hui _ _ _ _ _ Hq Hn)).
  - simpl. eapply same_off_trans; eapply same_off_mono; [|exact Hoff1| |exact Hoff2].
    + intros q ->. by left.
    + intros q Hq. by right.
Qed.

(** The page goes from the address space to the free list. *)
Lemma pool_unmap l d tabs um n p f q :
  um n = Some (p, f) → pool (p :: l) d tabs (upd_tab um n None) q ↔ pool l d tabs um q.
Proof using.
  intros Hn. unfold pool. rewrite elem_of_cons. split.
  - intros [[->|?]|[?|(n' & f' & Hq)]]; [right; right; eauto | by left | by right; left |].
    unfold upd_tab in Hq. case_match; [done|]. right; right; eauto.
  - intros [?|[?|(n' & f' & Hq)]]; [by left; right | by right; left |].
    destruct (decide (n' = n)) as [->|Hne]; [left; left; congruence|]. right; right. exists n', f'. by rewrite upd_tab_other.
Qed.

(** The pages that may change when the user pages from [lo] on do. *)
Definition touched (l : list Z) (d : Z) (tabs : Z → option Z) (um : Z → option (Z * Z)) (lo p : Z) : Prop :=
  p ∈ l ∨ owns d tabs p ∨ ∃ n f, lo ≤ n ∧ um n = Some (p, f).

Lemma touched_unmap l d tabs um n p f lo q :
  um n = Some (p, f) → lo ≤ n → touched (p :: l) d tabs (upd_tab um n None) (n + 1) q → touched l d tabs um lo q.
Proof using.
  intros Hn Hlo [[->|?]%elem_of_cons|[?|(n' & f' & Hle & Hq)]]; [right; right; eauto | by left | by right; left |].
  unfold upd_tab in Hq. case_match; [done|]. right; right. exists n', f'. split; [lia | done].
Qed.

Lemma touched_mono l d tabs um lo lo' q : lo ≤ lo' → touched l d tabs um lo' q → touched l d tabs um lo q.
Proof using.
  intros Hle [?|[?|(n & f & ? & ?)]]; [by left | by right; left | right; right]. exists n, f. split; [lia | done].
Qed.

(** [um'] is [um] without the pages from [lo] that begin below [sz]. *)
Definition cleared (um um' : Z → option (Z * Z)) (lo sz : Z) : Prop :=
  ∀ n, um' n = if (lo <=? n) && (n * PGSIZE <? sz) then None else um n.

Lemma PGADDR_next lo : 0 ≤ lo < NUPAGES →
  let a := lo * PGSIZE in let n1 := (PDX a + 1) * 1024 in
  u32 (u32 (PGADDR (PDX a + 1) 0 0 - PGSIZE) + PGSIZE) = n1 * PGSIZE ∧ lo < n1 ∧
  ∀ n, lo ≤ n < n1 → PDX (n * PGSIZE) = PDX a.
Proof using.
  intros Hlo a n1. destruct (NUPAGES_bound lo Hlo) as (H0 & H1 & _).
  unfold n1, a in *. clear n1 a. rewrite (PDX_eq (lo * PGSIZE)) by (unfold KERNBASE, PGSIZE in *; lia).
  unfold PGADDR, PDXSHIFT. simpl Z.shiftl at 2. rewrite !Z.lor_0_r, Z.shiftl_mul_pow2 by lia.
  unfold PGSIZE, KERNBASE in *. set (q := lo * 4096 / 2 ^ 22). assert (0 ≤ q < 512) by (unfold q; Z.div_mod_to_equations; lia).
  rewrite (u32_small ((q + 1) * 2 ^ 22)) by lia. rewrite (u32_small ((q + 1) * 2 ^ 22 - 4096)), u32_small by lia.
  split_and!; [lia | unfold q; Z.div_mod_to_equations; lia |]. intros n Hn. rewrite PDX_eq by lia. unfold q in *. Z.div_mod_to_equations. lia.
Qed.

Lemma deallocuvm_loop_spec d tabs oldsz (fuel : nat) : oldsz ≤ KERNBASE → ∀ lo s l um,
  space s l d tabs um → 0 ≤ lo → oldsz ≤ (lo + fuel) * PGSIZE →
  wp (deallocuvm_loop fuel d (lo * PGSIZE) oldsz) s (λ _ s' _, ∃ l' um',
    space s' l' d tabs um' ∧ evolves (touched l d tabs um lo) s s' ∧ cleared um um' lo oldsz ∧
    ∀ p, pool l' d tabs um' p ↔ pool l d tabs um p).
Proof using kend_high.
  intros Hold. induction fuel as [|fuel IH]; intros lo s l um Hsp Hlo Hfuel; cbn [deallocuvm_loop];
    destruct (Z.leb_spec oldsz (lo * PGSIZE)) as [Hle|Hgt]; try (unfold PGSIZE in *; lia).
  1, 2: apply wp_ret; exists l, um; split_and!; try done; intros n;
    destruct (Z.leb_spec lo n), (Z.ltb_spec (n * PGSIZE) oldsz); try done; unfold PGSIZE in *; lia.
  assert (0 ≤ lo < NUPAGES) as Hlo' by (change NUPAGES with 524288; unfold KERNBASE, PGSIZE in *; lia).
  destruct (NUPAGES_bound lo Hlo') as (Hb1 & Hb2 & _). pose proof Hsp as ((_ & Hrep & _) & (Hu & _) & _).
  eapply wp_bind_ok; [by eapply walk_lookup|]. destruct (tabs (PDX (lo * PGSIZE))) as [t|] eqn:Ht.
  - rewrite entry_addr_pos by (eapply owns_ok; [done | by eapply owns_table]). unfold ld. do 2 wp_step.
    replace (u32 (lo * PGSIZE + PGSIZE)) with ((lo + 1) * PGSIZE) by (rewrite u32_small; unfold PGSIZE, KERNBASE in *; lia).
    pose proof (Hu lo Hlo') as He. unfold pte in He. rewrite Ht in He. destruct (um lo) as [[p f]|] eqn:Hum.
    + destruct He as (-> & Hp & Hf & Hodd). destruct (entry_decode p f Hp Hf Hodd) as (-> & Hv & _). rewrite Hv.
      destruct (page_ok_V2P p Hp) as (_ & Hpm & _ & Hpos & _). destruct (pte_flags (V2P p) f Hpm Hf) as [Ha _]. rewrite Ha.
      rewrite (proj2 (Z.eqb_neq _ _)) by lia. simpl when. apply wp_bind. eapply wp_mono; [by eapply unmap_page|].
      intros _ s1 t1 [Hsp1 Hev1]. eapply wp_mono; [apply (IH (lo + 1) s1 (p :: l) _ Hsp1); [lia | unfold PGSIZE in *; lia]|].
      intros _ s2 t2 (l2 & um2 & Hsp2 & Hev2 & Hc2 & Hp2). exists l2, um2. split_and!; [done | | |].
      * eapply evolves_trans; eapply evolves_mono; [|exact Hev1| |exact Hev2].
        -- intros q [->|?]; right; [right | by left]. exists lo, f. split; [lia | done].
        -- intros q. by apply (touched_unmap l d tabs um lo p f).
      * intros n. rewrite Hc2. unfold upd_tab.
        destruct (Z.leb_spec (lo + 1) n), (Z.leb_spec lo n), (Z.eqb_spec n lo), (Z.ltb_spec (n * PGSIZE) oldsz); simpl; try done; subst; lia.
      * intros q. rewrite Hp2. by eapply pool_unmap.
    + rewrite He. change (truth 0) with false. simpl when. wp_step. wp_step.
      eapply wp_mono; [apply (IH (lo + 1) s l um Hsp); [lia | unfold PGSIZE in *; lia]|].
      intros _ s2 t2 (l2 & um2 & Hsp2 & Hev2 & Hc2 & Hp2). exists l2, um2. split_and!; [done | | | done].
      { eapply evolves_mono; [|done]. intros q. apply touched_mono. lia. }
      intros n. rewrite Hc2. destruct (decide (n = lo)) as [->|]; [|destruct (Z.leb_spec (lo + 1) n), (Z.leb_spec lo n); try done; lia].
      rewrite Hum. by do 2 case_match.
  - rewrite Z.eqb_refl. destruct (PGADDR_next lo Hlo') as (-> & Hlt & Hsame).
    eapply wp_mono; [apply (IH _ s l um Hsp); [lia | unfold PGSIZE in *; lia]|].
    intros _ s2 t2 (l2 & um2 & Hsp2 & Hev2 & Hc2 & Hp2). exists l2, um2. split_and!; [done | | | done].
    { eapply evolves_mono; [|done]. intros q. apply touched_mono. lia. }
    intros n. rewrite Hc2. set (n1 := (PDX (lo * PGSIZE) + 1) * 1024) in *.
    destruct (decide (lo ≤ n < n1)) as [Hin|]; [|destruct (Z.leb_spec n1 n), (Z.leb_spec lo n); try done; lia].
    destruct (um n) as [[p f]|] eqn:Hum; [|by do 2 case_match].
    destruct (mapped_table s l d tabs um n p f Hsp Hum) as (t & Ht' & _). rewrite Hsame, Ht in Ht' by done. done.
Qed.

(** [deallocuvm] unmaps and frees exactly the pages that lie above the new size. *)
Lemma deallocuvm_spec s l d tabs um oldsz newsz :
  space s l d tabs um → 0 ≤ newsz → oldsz ≤ KERNBASE → newsz < oldsz →
  wp (deallocuvm d oldsz newsz) s (λ r s' _, ∃ l' um', r = newsz ∧
    space s' l' d tabs um' ∧ evolves (touched l d tabs um (PGROUNDUP newsz / PGSIZE)) s s' ∧
    cleared um um' (PGROUNDUP newsz / PGSIZE) oldsz ∧
    ∀ p, pool l' d tabs um' p ↔ pool l d tabs um p).
Proof using kend_high.
  intros Hsp H0 H1 Hlt. unfold deallocuvm. rewrite (proj2 (Z.leb_gt _ _)) by lia.
  destruct (PGROUNDUP_bounds newsz ltac:(unfold KERNBASE, PGSIZE in *; lia)) as [Hb Hm].
  set (lo := PGROUNDUP newsz / PGSIZE). assert (PGROUNDUP newsz = lo * PGSIZE) as Hlo by (unfold lo, PGSIZE in *; Z.div_mod_to_equations; lia).
  rewrite Hlo. wp_step. eapply wp_mono; [apply (deallocuvm_loop_spec d tabs oldsz _ H1 lo s l um Hsp)|].
  - unfold PGSIZE in *; lia.
  - unfold PGSIZE in *. Z.div_mod_to_equations. lia.
  - intros _ s' tr (l' & um' & ? & ? & ? & ?). wp_step. exists l', um'. split_and!; done.
Qed.

(** ** Growing an address space *)

(** Free pages may be taken and given back, and written to. *)
Lemma space_free P s s' l l' d tabs um :
  space s l d tabs um → free_list kend s' l' → same_off P (kmemory s) (kmemory s') →
  (∀ p, P p → page_ok kend p ∧ ¬ owns d tabs p) →
  (∀ p, p ∈ l' → ¬ owns d tabs p ∧ ∀ n f, um n ≠ Some (p, f)) →
  space s' l' d tabs um.
Proof using.
  intros ((_ & Hrep & _) & (Hu & Hur) & Hsep) Hfl Hoff HP Hl'.
  destruct (pt_rep_off P (kmemory s) (kmemory s') d tabs) as [Hrep' Hpte]; [done | done | by intros p [? _]%HP | by intros p Ho [_ ?]%HP |].
  split; [split; [done|]; split; [done|]; by intros p Ho [? _]%Hl'|]. split; [split; [|done]|].
  - intros n Hn. rewrite Hpte. by apply Hu.
  - intros n p f Hp. split; [|by apply (Hsep n p f)]. intros Hin. by apply (proj2 (Hl' p Hin) n f).
Qed.

Lemma space_kfree s l d tabs um p :
  space s l d tabs um → page_ok kend p → ¬ pool l d tabs um p →
  wp (kfree kend p) s (λ _ s' _, space s' (p :: l) d tabs um ∧ evolves (λ q, q = p) s s').
Proof using kend_high.
  intros Hsp Hp Hnp. pose proof Hsp as ((Hfl & Hrep & Hown) & _ & Hsep).
  eapply wp_mono; [apply (kfree_spec kend kend_high s l p); [done | done |]|].
  { intros Hin. apply Hnp. by left. }
  intros _ s1 t1 (Hfl1 & Hl1 & Hs1 & _). assert (same_off (λ q, q = p) (kmemory s) (kmemory s1)) by (by apply (same_off_page _ p)).
  split; [|done]. eapply space_free; [done | done | done | |].
  - intros q ->. split; [done|]. intros Ho. apply Hnp. by right; left.
  - intros q [->|Hq]%elem_of_cons.
    + split; [intros Ho; apply Hnp; by right; left | intros n f Hn; apply Hnp; right; right; eauto].
    + split; [intros Ho; by apply (Hown q) | intros n f Hn]. by destruct (Hsep _ _ _ Hn).
Qed.

(** The head of the free list belongs to nobody. *)
Lemma space_head s v l d tabs um :
  space s (v :: l) d tabs um → page_ok kend v ∧ ¬ pool l d tabs um v.
Proof using.
  intros ((Hfl & _ & Hown) & _ & Hsep). destruct (free_list_head s v l Hfl) as [Hv Hvl]. split; [done|].
  intros [?|[Ho|(n & f & Hn)]]; [done | apply (Hown v Ho); by left | destruct (Hsep _ _ _ Hn) as [Hni _]; apply Hni; by left].
Qed.

(** A page is taken from the free list and set up by [g], inside it. *)
Lemma space_take s v l d tabs um s1 m' :
  space s (v :: l) d tabs um → free_list kend s1 l → kmemory s1 = kmemory s →
  same_outside v PGSIZE (kmemory s) m' → space (set_mem m' s1) l d tabs um.
Proof using.
  intros Hsp Hfl1 Hm1 Hout. destruct (space_head s v l d tabs um Hsp) as [Hv Hnv]. pose proof Hsp as ((Hfl & _ & Hown) & _ & Hsep).
  assert (same_off (λ q, q = v) (kmemory s) m') as Hoff by (by apply (same_off_page _ v)).
  eapply (space_free (λ q, q = v)); [done | | done | |].
  - eapply free_list_off; [exact Hfl1 | done | by rewrite Hm1 |]. intros q ->. split; [done|]. intros Hin. apply Hnv. by left.
  - intros q ->. split; [done|]. intros Ho. apply Hnv. by right; left.
  - intros q Hq. split; [intros Ho; apply (Hown q Ho); by right|]. intros n f Hn. destruct (Hsep _ _ _ Hn) as [Hni _]. apply Hni. by right.
Qed.

(** What [grown] and a new mapping do to the pages in play. *)
Lemma grow_pool d s l tabs s' l' tabs' um n v f :
  grown d s l tabs s' l' tabs' → um n = None →
  (∀ q, pool l' d tabs' (upd_tab um n (Some (v, f))) q ↔ pool (v :: l) d tabs um q) ∧
  (∀ q lo, touched l' d tabs' (upd_tab um n (Some (v, f))) lo q → touched (v :: l) d tabs um lo q) ∧
  (∀ q, owns d tabs' q → owns d tabs q ∨ q ∈ l).
Proof using.
  intros (_ & _ & new & -> & Ho) Hn. split_and!.
  - intros q. unfold pool. rewrite elem_of_cons, elem_of_app, Ho. split.
    + intros [?|[[?|?]|(n' & f' & Hq)]]; [by left; right; right | by right; left | by left; right; left |].
      unfold upd_tab in Hq. case_match; [left; left; congruence | right; right; eauto].
    + intros [[->|[?|?]]|[?|(n' & f' & Hq)]]; [|by right; left; right | by left | by right; left; left |].
      * right; right. exists n, f. by rewrite upd_tab_same.
      * right; right. exists n', f'. rewrite upd_tab_other; [done|]. congruence.
  - intros q lo. unfold touched. rewrite elem_of_cons, elem_of_app, Ho.
    intros [?|[[?|?]|(n' & f' & Hle & Hq)]]; [by left; right; right | by right; left | by left; right; left |].
    unfold upd_tab in Hq. case_match; [left; left; congruence | right; right; eauto].
  - intros q. rewrite Ho, elem_of_app. intros [?|?]; [by left | by right; left].
Qed.

(** Running out of memory while page table pages are made. *)
Lemma grow_pool_same d s l tabs s' l' tabs' um q :
  grown d s l tabs s' l' tabs' →
  (pool l' d tabs' um q ↔ pool l d tabs um q) ∧
  (∀ lo, touched l' d tabs' um lo q → touched l d tabs um lo q).
Proof using.
  intros (_ & _ & new & -> & Ho). unfold pool, touched. clear kend_high kdata kend. split; [|intros lo]; rewrite elem_of_app, Ho; tauto.
Qed.

(** One page of [allocuvm] and [copyuvm]: a free page, set up inside by the
    caller, is mapped. *)
Lemma map_new s v l d tabs um s1 m' n perm :
  space s (v :: l) d tabs um → free_list kend s1 l → kmemory s1 = kmemory s → use_lock s1 = use_lock s →
  same_outside v PGSIZE (kmemory s) m' → 0 ≤ n < NUPAGES → um n = None → 0 ≤ perm < PGSIZE →
  wp (mappages d (n * PGSIZE) PGSIZE (V2P v) perm) (set_mem m' s1) (λ r s' _, ∃ l' tabs',
    grown d (set_mem m' s1) l tabs s' l' tabs' ∧ evolves (λ q, q = v ∨ owns d tabs' q) s s' ∧
    same_kernel (kmemory s) tabs (kmemory s') tabs' ∧
    (∀ x, in_page v x → kmemory s' x = m' x) ∧ ¬ pool l' d tabs' um v ∧
    ((r = 0 ∧ space s' l' d tabs' (upd_tab um n (Some (v, Z.lor perm PTE_P)))) ∨
     (r = -1 ∧ l' = [] ∧ space s' l' d tabs' um))).
Proof using kend_high.
  intros Hsp Hfl1 Hm1 Hu1 Hout Hn Hum Hperm. destruct (space_head s v l d tabs um Hsp) as [Hv Hnv].
  pose proof (space_take s v l d tabs um s1 m' Hsp Hfl1 Hm1 Hout) as Hsp1.
  assert (v ∉ l ∧ ¬ owns d tabs v ∧ ∀ n f, um n ≠ Some (v, f)) as (Hvl & Hvo & Hvu).
  { split_and!; [intros ?; apply Hnv; by left | intros ?; apply Hnv; by right; left | intros n' f ?; apply Hnv; right; right; eauto]. }
  eapply wp_mono; [by apply (map_page (set_mem m' s1) l d tabs um n v perm)|].
  intros r s' tr (l' & tabs' & Hg & Hk & Hr). exists l', tabs'. split; [done|].
  pose proof Hg as (Hgu & Hgo & _). destruct (grown_not_owns _ _ _ _ _ _ _ v Hg Hvl Hvo) as [Hvl' Hvo'].
  assert (∀ q, owns d tabs' q → page_ok kend q) as Hok.
  { destruct Hr as [[_ ((_ & Hrep & _) & _)]|(_ & _ & ((_ & Hrep & _) & _))]; intros q; by apply (owns_ok (kmemory s')). }
  split; [|split; [|split; [|split; [|done]]]].
  - split; [by rewrite Hgu|]. eapply same_off_trans; eapply same_off_mono; [|exact (same_off_page (λ q, q = v) v _ _ eq_refl Hout)| |exact Hgo].
    + by left.
    + by right.
  - intros va Hva. rewrite (Hk va Hva). destruct Hsp as ((_ & Hrep & _) & _).
    apply (pt_rep_off (λ q, q = v) (kmemory s) m' d tabs Hrep); [by apply (same_off_page _ v) | by intros q -> | by intros q Hq ->].
  - intros x Hx. by apply (same_off_at (owns d tabs') m' (kmemory s') v).
  - intros [?|[?|(n' & f & ?)]]; [done | done | by apply (Hvu n' f)].
Qed.

Lemma PGROUNDUP_page n : 0 ≤ n → n * PGSIZE ≤ KERNBASE → PGROUNDUP (n * PGSIZE) = n * PGSIZE.
Proof using.
  intros Hn Hle. destruct (PGROUNDUP_bounds (n * PGSIZE)) as [? ?]; [unfold KERNBASE, PGSIZE in *; lia|]. unfold PGSIZE in *. Z.div_mod_to_equations. lia.
Qed.

(** The user pages of a page map, from page [lo] on, are not mapped. *)
Definition above_free (um : Z → option (Z * Z)) (lo : Z) : Prop := ∀ n, lo ≤ n → um n = None.

(** What [allocuvm] leaves when it has mapped the pages from [lo] below [newsz]. *)
Definition alloc_done (lo newsz : Z) (l : list Z) (um um' : Z → option (Z * Z)) (m' : mem) : Prop :=
  (∀ n, n < lo → um' n = um n) ∧ (∀ n, lo ≤ n → newsz ≤ n * PGSIZE → um' n = None) ∧
  (∀ n, lo ≤ n → n * PGSIZE < newsz → ∃ p, um' n = Some (p, 7) ∧ p ∈ l ∧ ∀ x, in_page p x → m' x = 0).

Lemma alloc_done_step lo newsz v l l2 um um3 m3 :
  lo * PGSIZE < newsz → (∀ q, q ∈ l2 → q ∈ l) → (∀ x, in_page v x → m3 x = 0) →
  alloc_done (lo + 1) newsz l2 (upd_tab um lo (Some (v, 7))) um3 m3 → alloc_done lo newsz (v :: l) um um3 m3.
Proof using.
  intros Hlt Hl2 Hz (H1 & H2 & H3). split_and!.
  - intros n Hn. rewrite H1 by lia. apply upd_tab_other. lia.
  - intros n Hn Hsz. apply H2; [|done]. assert (n ≠ lo) by (intros ->; lia). lia.
  - intros n Hn Hsz. destruct (decide (n = lo)) as [->|].
    + exists v. rewrite H1, upd_tab_same by lia. split_and!; [done | by left | done].
    + destruct (H3 n) as (p & ? & ? & ?); [lia | done|]. exists p. split_and!; [done | right; by apply Hl2 | done].
Qed.

(** Nothing is left of the pages [P] beside a page directory, its page tables,
    [n] pages of the user and one more page. *)
Definition crowded (n : Z) (P : Z → Prop) : Prop :=
  ∀ ps, NoDup ps → (∀ p, p ∈ ps → P p) → Z.of_nat (length ps) ≤ 1026 + n.

Lemma length_omap_le {A B} (f : A → option B) (l : list A) : (length (omap f l) ≤ length l)%nat.
Proof using. induction l as [|x l IH]; [done|]. cbn [omap list_omap length]. destruct (f x); cbn [length]; lia. Qed.

Lemma crowded_pool d tabs um lo n v (P : Z → Prop) :
  above_free um lo → 0 ≤ lo ≤ n → (∀ n x, um n = Some x → 0 ≤ n) → (∀ p, P p → p = v ∨ pool [] d tabs um p) → crowded n P.
Proof using.
  intros Hfree Hlo Hpos HP ps Hnd Hps.
  assert (length ps ≤ length ([v; d] ++ omap tabs (seqZ 0 1024) ++ omap (λ n, fst <$> um n) (seqZ 0 lo)))%nat as Hlen.
  { apply submseteq_length, NoDup_submseteq; [done|]. intros p Hp. rewrite !elem_of_app, !list_elem_of_omap, !elem_of_cons.
    destruct (HP p (Hps p Hp)) as [?|[[]%elem_of_nil|[[?|(i & Hi & Ht)]|(n' & f & Hn)]]]; [by left; left | by left; right; left | |].
    - right; left. exists i. split; [apply elem_of_seqZ; lia | done].
    - right; right. exists n'. rewrite Hn. split; [|done]. apply elem_of_seqZ. pose proof (Hpos _ _ Hn).
      destruct (decide (n' < lo)); [lia|]. rewrite Hfree in Hn by lia. done. }
  rewrite !length_app in Hlen. pose proof (length_omap_le tabs (seqZ 0 1024)). pose proof (length_omap_le (λ n, fst <$> um n) (seqZ 0 lo)).
  rewrite length_seqZ in *. cbn [length] in Hlen. lia.
Qed.

Lemma allocuvm_loop_spec d oldsz newsz lo0 (fuel : nat) :
  newsz < KERNBASE → 0 ≤ oldsz ≤ newsz → lo0 = PGROUNDUP oldsz / PGSIZE → ∀ lo s l tabs um,
  space s l d tabs um → lo0 ≤ lo → above_free um lo → newsz ≤ (lo + fuel) * PGSIZE →
  wp (allocuvm_loop fuel d (lo * PGSIZE) oldsz newsz) s (λ r s' _, ∃ l' tabs' um',
    space s' l' d tabs' um' ∧ (∀ p, pool l' d tabs' um' p ↔ pool l d tabs um p) ∧
    ((r = newsz ∧ evolves (touched l d tabs um lo) s s' ∧ alloc_done lo newsz l um um' (kmemory s')) ∨
     (r = 0 ∧ evolves (touched l d tabs um lo0) s s' ∧ cleared um um' lo0 newsz ∧
        crowded (PGROUNDUP newsz / PGSIZE) (pool l d tabs um)))).
Proof using kend_high.
  intros Hnew Hold Hlo0. destruct (PGROUNDUP_bounds oldsz) as [Hup Hupm]; [unfold KERNBASE, PGSIZE in *; lia|].
  assert (lo0 * PGSIZE = PGROUNDUP oldsz) as Hlo0' by (rewrite Hlo0; unfold PGSIZE in *; Z.div_mod_to_equations; lia).
  induction fuel as [|fuel IH]; intros lo s l tabs um Hsp Hlo Hfree Hfuel; cbn [allocuvm_loop];
    destruct (Z.leb_spec newsz (lo * PGSIZE)) as [Hle|Hgt]; try (unfold PGSIZE in *; lia).
  1, 2: apply wp_ret; exists l, tabs, um; split; [done|]; split; [done|]; left; split; [done|]; split; [done|];
    split; [done|]; split; [by intros n Hn _; apply Hfree | intros n ? ?; unfold PGSIZE in *; lia].
  assert (0 ≤ lo < NUPAGES) as Hlo' by (change NUPAGES with 524288; unfold KERNBASE, PGSIZE in *; lia).
  destruct (NUPAGES_bound lo Hlo') as (Hb1 & Hb2 & _).
  assert (0 ≤ lo ≤ PGROUNDUP newsz / PGSIZE) as Hnp.
  { destruct (PGROUNDUP_bounds newsz) as [? ?]; [unfold KERNBASE, PGSIZE in *; lia|]. unfold PGSIZE in *. Z.div_mod_to_equations. lia. }
  assert (∀ n x, um n = Some x → 0 ≤ n) as Hpos by (destruct Hsp as (_ & (_ & Hur & _) & _); intros n x Hx; by destruct (Hur n x Hx)).
  wp_step. eapply wp_mono; [apply (kalloc_spec kend kend_high s l); apply Hsp|].
  intros mem s1 t1 (Hm1 & Hu1 & _ & Hr). destruct l as [|v l]; [destruct Hr as [-> ->] | destruct Hr as [-> Hfl1]].
  - rewrite Z.eqb_refl. wp_step. apply wp_emit. wp_step. eapply wp_mono; [apply (deallocuvm_spec s [] d tabs um newsz oldsz Hsp)|];
      [lia | lia | unfold PGSIZE in *; lia |].
    intros r s2 t2 (l2 & um2 & -> & Hsp2 & Hev2 & Hc2 & Hp2). wp_step. exists l2, tabs, um2.
    split; [done|]. split; [done|]. right. rewrite Hlo0. split_and!; [done.. |].
    apply (crowded_pool d tabs um lo _ 0); [done | done | done | by right].
  - destruct (space_head s v l d tabs um Hsp) as [Hv Hnv]. pose proof (page_ok_range kend kend_high v Hv) as Hvr.
    rewrite (proj2 (Z.eqb_neq v 0)) by lia. unfold fill at 1. rewrite (proj2 (Z.eqb_neq v 0)) by lia. do 2 wp_step.
    change (mk_kmem (use_lock s1) (freelist s1) ?m) with (set_mem m s1). rewrite Hm1.
    wp_step. eapply wp_mono; [apply (map_new s v l d tabs um s1 _ lo 6); try done|].
    { intros x Hx. by apply memset_outside. }
    { by apply Hfree. }
    intros r s2 t2 (l2 & tabs2 & Hg & Hev & _ & Hz & Hnv2 & Hr).
    assert (∀ x, in_page v x → kmemory s2 x = 0) as Hzero.
    { intros x Hx. rewrite Hz by done. rewrite memset_fill by done. unfold in_page in Hx. range_cases; [done | lia]. }
    destruct (grow_pool d _ l tabs s2 l2 tabs2 um lo v 7 Hg) as (Hpool & Htouch & Hown); [by apply Hfree|].
    assert (∀ lo', evolves (touched (v :: l) d tabs um lo') s s2) as Hev'.
    { intros lo'. eapply evolves_mono; [|exact Hev]. intros q [->|[?|?]%Hown]; [left; by left | by right; left | left; by right]. }
    destruct Hr as [[-> Hsp2]|(-> & -> & Hsp2)].
    + simpl Z.lor in Hsp2. change (0 <? 0) with false. cbv iota.
      replace (u32 (lo * PGSIZE + PGSIZE)) with ((lo + 1) * PGSIZE) by (rewrite u32_small; unfold PGSIZE, KERNBASE in *; lia).
      eapply wp_mono; [apply (IH (lo + 1) s2 l2 tabs2 _ Hsp2); [lia | | unfold PGSIZE in *; lia]|].
      { intros n Hn. rewrite upd_tab_other by lia. apply Hfree. lia. }
      intros r s3 t3 (l3 & tabs3 & um3 & Hsp3 & Hp3 & Hr3). exists l3, tabs3, um3. split; [done|].
      split; [intros q; by rewrite Hp3, Hpool|]. destruct Hr3 as [(-> & Hev3 & Hd3)|(-> & Hev3 & Hc3 & Hcr)]; [left | right]; (split; [done|]).
      * split; [eapply evolves_trans; [apply Hev'|]; eapply evolves_mono; [|exact Hev3]; intros q Hq%Htouch; eapply touched_mono; [|done]; lia|].
        eapply alloc_done_step; [done | | | exact Hd3]; [by destruct Hg as (_ & _ & new & -> & _); intros; apply elem_of_app; right|].
        intros x Hx. rewrite <- (Hzero x Hx). destruct Hev3 as [_ Hev3].
        apply (same_off_at _ _ _ v x Hev3); [|done| |done].
        -- intros q Hq%Htouch. eapply (pool_ok s); [done|]. destruct Hq as [?|[?|(n & f & _ & ?)]]; [by left | by right; left | right; right; eauto].
        -- intros [?|[?|(n & f & Hn & Hx')]]; [by apply Hnv2; left | by apply Hnv2; right; left|].
           rewrite upd_tab_other, Hfree in Hx' by lia. done.
      * split; [eapply evolves_trans; [apply Hev'|]; eapply evolves_mono; [|exact Hev3]; intros q; apply Htouch|].
        split; [|intros ps Hnd Hps; apply Hcr; [done|]; intros p Hp; by apply Hpool, Hps].
        intros n. rewrite Hc3. unfold upd_tab. destruct (Z.eqb_spec n lo) as [->|]; [|done].
        rewrite (proj2 (Z.leb_le lo0 lo)), (proj2 (Z.ltb_lt _ _)) by lia. done.
    + change (-1 <? 0) with true. cbv iota. wp_step. apply wp_emit. wp_step.
      eapply wp_mono; [apply (deallocuvm_spec s2 [] d tabs2 um newsz oldsz Hsp2)|]; [lia | lia | unfold PGSIZE in *; lia |].
      intros r s3 t3 (l3 & um3 & -> & Hsp3 & Hev3 & Hc3 & Hp3). wp_step.
      eapply wp_mono; [apply (space_kfree s3 l3 d tabs2 um3 v Hsp3 Hv); by rewrite Hp3|].
      intros _ s4 t4 [Hsp4 Hev4]. wp_step. exists (v :: l3), tabs2, um3. split; [done|].
      pose proof (λ q, grow_pool_same d _ l tabs s2 [] tabs2 um q Hg) as Hsame. split.
      * intros q. transitivity (q = v ∨ pool l3 d tabs2 um3 q); [unfold pool; rewrite elem_of_cons; tauto|].
        rewrite Hp3, (proj1 (Hsame q)). unfold pool. rewrite elem_of_cons. tauto.
      * right. split; [done|]. assert (crowded (PGROUNDUP newsz / PGSIZE) (pool (v :: l) d tabs um)) as Hcr.
        { apply (crowded_pool d tabs2 um lo _ v); [done | done | done |]. intros p. rewrite (proj1 (Hsame p)). unfold pool. rewrite elem_of_cons. tauto. }
        split; [|by rewrite Hlo0 in *]. eapply evolves_trans; [apply Hev'|]. eapply evolves_trans; eapply evolves_mono; [|exact Hev3| |exact Hev4].
        -- rewrite <- Hlo0. intros q Hq%(proj2 (Hsame q)). destruct Hq as [?|?]; [left; by right | by right].
        -- intros q ->. left. by left.
Qed.

(** The byte a user program reads at [va]. *)
Definition uread (m : mem) (um : Z → option (Z * Z)) (va : Z) : option Z :=
  match um (va / PGSIZE) with Some (p, _) => Some (m (p + va mod PGSIZE)) | None => None end.

Lemma page_offset p va : in_page p (p + va mod PGSIZE).
Proof using. unfold in_page, PGSIZE. pose proof (Z.mod_pos_bound va 4096). lia. Qed.

(** A page outside the touched ones reads the same. *)
Lemma uread_untouched s l d tabs um lo s' n p f :
  space s l d tabs um → evolves (touched l d tabs um lo) s s' → um n = Some (p, f) → n < lo →
  ∀ x, in_page p x → kmemory s' x = kmemory s x.
Proof using.
  intros Hsp [_ Hev] Hn Hlo x Hx. apply (same_off_at _ _ _ p x Hev); [| |  |done].
  - intros q Hq. eapply pool_ok; [done|]. destruct Hq as [?|[?|(n' & f' & _ & ?)]]; [by left | by right; left | right; right; eauto].
  - eapply pool_ok; [done | right; right; eauto].
  - destruct Hsp as (_ & (_ & _ & Hui) & Hsep). destruct (Hsep _ _ _ Hn) as [Hl Ho].
    intros [?|[?|(n' & f' & Hle & Hq)]]; [done | done|]. pose proof (Hui _ _ _ _ _ Hn Hq). lia.
Qed.

Lemma allocuvm_spec s l d tabs um oldsz newsz :
  space s l d tabs um → 0 ≤ oldsz ≤ newsz → newsz < KERNBASE → above_free um (PGROUNDUP oldsz / PGSIZE) →
  wp (allocuvm d oldsz newsz) s (λ r s' _, ∃ l' tabs' um',
    space s' l' d tabs' um' ∧ (∀ p, pool l' d tabs' um' p ↔ pool l d tabs um p) ∧
    evolves (pool l d tabs um) s s' ∧
    (∀ va, 0 ≤ va < PGROUNDUP oldsz → uread (kmemory s') um' va = uread (kmemory s) um va) ∧
    ((r = newsz ∧ alloc_done (PGROUNDUP oldsz / PGSIZE) newsz l um um' (kmemory s')) ∨
     (r = 0 ∧ (∀ n, um' n = um n) ∧ crowded (PGROUNDUP newsz / PGSIZE) (pool l d tabs um)))).
Proof using kend_high.
  intros Hsp Hold Hnew Hfree. unfold allocuvm. rewrite (proj2 (Z.leb_gt _ _)), (proj2 (Z.ltb_ge _ _)) by lia.
  destruct (PGROUNDUP_bounds oldsz) as [Hup Hupm]; [unfold KERNBASE, PGSIZE in *; lia|].
  set (lo := PGROUNDUP oldsz / PGSIZE) in *.
  assert (PGROUNDUP oldsz = lo * PGSIZE) as Hlo by (unfold lo, PGSIZE in *; Z.div_mod_to_equations; lia). rewrite Hlo.
  eapply wp_mono; [apply (allocuvm_loop_spec d oldsz newsz lo); try done; unfold PGSIZE in *; Z.div_mod_to_equations; lia|].
  intros r s' tr (l' & tabs' & um' & Hsp' & Hp & Hr). exists l', tabs', um'. split; [done|]. split; [done|].
  assert (evolves (touched l d tabs um lo) s s' ∧ ∀ n, n < lo → um' n = um n) as [Hev Hum].
  { destruct Hr as [(_ & ? & ? & _)|(_ & ? & Hc & _)]; [done|]. split; [done|]. intros n Hn. rewrite Hc, (proj2 (Z.leb_gt _ _)); done. }
  split; [eapply evolves_mono; [|exact Hev]; intros p [?|[?|(n & f & _ & ?)]]; [by left | by right; left | right; right; eauto]|]. split.
  - intros va Hva. assert (va / PGSIZE < lo) as Hn by (unfold PGSIZE in *; Z.div_mod_to_equations; lia).
    unfold uread. rewrite Hum by done. destruct (um (va / PGSIZE)) as [[p f]|] eqn:Hva'; [|done]. f_equal.
    eapply uread_untouched; [exact Hsp | done.. | apply page_offset].
  - destruct Hr as [(-> & _ & ?)|(-> & _ & Hc & ?)]; [by left | right]. split; [done|]. split; [|done]. intros n. rewrite Hc.
    destruct (Z.leb_spec lo n); [|done]. simpl. rewrite Hfree by done. by case_match.
Qed.

(** C22: [allocuvm] grows an address space or leaves it as it was: either every
    page from the old size up to the new one is mapped, to a page that was
    free, zeroed, present, writable and accessible to the user, or memory has
    run out, 0 is returned and the mapping is what it was. In both cases the
    program reads the same bytes below the old size, and no page is lost: the
    free list and the address space account for the same pages as before. *)
Theorem allocuvm_correct s l d tabs um oldsz newsz :
  space s l d tabs um → 0 ≤ oldsz ≤ newsz → newsz < KERNBASE → above_free um (PGROUNDUP oldsz / PGSIZE) →
  wp (allocuvm d oldsz newsz) s (λ r s' _, ∃ l' tabs' um',
    space s' l' d tabs' um' ∧ (∀ p, pool l' d tabs' um' p ↔ pool l d tabs um p) ∧
    (∀ va, 0 ≤ va < oldsz → uread (kmemory s') um' va = uread (kmemory s) um va) ∧
    ((r = newsz ∧ alloc_done (PGROUNDUP oldsz / PGSIZE) newsz l um um' (kmemory s')) ∨ (r = 0 ∧ ∀ n, um' n = um n))).
Proof using kend_high.
  intros Hsp Hold Hnew Hfree. destruct (PGROUNDUP_bounds oldsz) as [Hup _]; [unfold KERNBASE, PGSIZE in *; lia|].
  eapply wp_mono; [by apply allocuvm_spec|]. intros r s' _ (l' & tabs' & um' & Hsp' & Hp & _ & Hread & Hr). exists l', tabs', um'.
  split; [done|]. split; [done|]. split; [intros va Hva; apply Hread; lia|]. destruct Hr as [?|(? & ? & _)]; auto.
Qed.

(** ** Releasing an address space *)

(** The loop of [freevm] over the page directory, from entry [i]. *)
Lemma freevm_tables s d tabs (k : nat) : page_ok kend d → pt_rep (kmemory s) d tabs → ∀ i s1 l1,
  i + k = 1024 → 0 ≤ i → free_list kend s1 l1 → (∀ p, p ∈ l1 → p ≠ d) →
  (∀ x, in_page d x → kmemory s1 x = kmemory s x) → (∀ j t, i ≤ j → tabs j = Some t → t ∉ l1) →
  wp (for_each (seqZ i k) (λ i,
        e ← ld (d + 4 * i) ; when (truth (Z.land e PTE_P)) (kfree kend (P2V (PTE_ADDR e))))) s1 (λ _ s2 _, ∃ l2,
    free_list kend s2 l2 ∧ d ∉ l2 ∧ evolves (λ p, ∃ j, i ≤ j ∧ tabs j = Some p) s1 s2 ∧
    ∀ p, p ∈ l2 ↔ p ∈ l1 ∨ ∃ j, i ≤ j ∧ tabs j = Some p).
Proof using kend_high.
  intros Hd (_ & Ht & Hinj & Hrange). induction k as [|k IH]; intros i s1 l1 Hk Hi Hfl Hnd Hsame Hni.
  { apply wp_ret. exists l1. split_and!; [done | by intros ?%Hnd | done |]. intros p. split; [by left|].
    intros [?|(j & Hj & Hp%Hrange)]; [done | lia]. }
  rewrite seqZ_cons by lia. cbn [for_each]. unfold ld. do 3 wp_step.
  assert (load32 (kmemory s1) (d + 4 * i) = load32 (kmemory s) (d + 4 * i)) as ->.
  { unfold load32. by rewrite !Hsame by (unfold in_page, PGSIZE; lia). }
  specialize (Ht i ltac:(lia)). replace (Z.pred (S k)) with (Z.of_nat k) by lia. replace (Z.succ i) with (i + 1) by lia.
  destruct (tabs i) as [t|] eqn:Hti.
  - destruct Ht as (-> & Htok & Htd). destruct (entry_decode t 7 Htok) as (-> & -> & _); [done..|]. simpl when.
    eapply wp_mono; [apply (kfree_spec kend kend_high s1 l1 t Hfl Htok); by apply (Hni i)|].
    intros _ s2 t2 (Hfl2 & Hu2 & Hs2 & _).
    eapply wp_mono; [apply (IH (i + 1) s2 (t :: l1)); [lia | lia | done | | |]|].
    + intros p [->|Hp]%elem_of_cons; [done | by apply Hnd].
    + intros x Hx. rewrite <- Hsame by done. apply (same_off_at (λ q, q = t) _ _ d x); [by apply (same_off_page _ t) | by intros q -> | done | congruence | done].
    + intros j t' Hj Ht'. rewrite not_elem_of_cons. split; [|by apply (Hni j); [lia|]]. intros ->. pose proof (Hinj _ _ _ Ht' Hti). lia.
    + intros _ s3 t3 (l3 & Hfl3 & Hd3 & Hev3 & Hl3). exists l3. split_and!; [done | done | |].
      * eapply evolves_trans; [|eapply evolves_mono; [|exact Hev3]]; [split; [done|]; apply (same_off_page _ t); [|done]; by exists i|].
        intros q (j & Hj & Hq). exists j. split; [lia | done].
      * intros p. rewrite Hl3, elem_of_cons. split.
        -- intros [[->|?]|(j & ? & ?)]; [right; by exists i | by left | right; exists j; split; [lia | done]].
        -- intros [?|(j & Hj & Hp)]; [by left; right|]. destruct (decide (j = i)) as [->|]; [left; left; congruence|].
           right. exists j. split; [lia | done].
  - rewrite Ht. change (truth 0) with false. simpl when. wp_step.
    eapply wp_mono; [apply (IH (i + 1) s1 l1); [lia | lia | done | done | done | by intros j t' Hj; apply Hni; lia]|].
    intros _ s3 t3 (l3 & Hfl3 & Hd3 & Hev3 & Hl3). exists l3. split_and!; [done | done | |].
    * eapply evolves_mono; [|exact Hev3]. intros q (j & Hj & Hq). exists j. split; [lia | done].
    * intros p. rewrite Hl3. split; (intros [?|(j & Hj & Hp)]; [by left | right; exists j; split; [|done]]); [lia|].
      assert (j ≠ i) by congruence. lia.
Qed.

(** [freevm] gives every page of the address space back. *)
Lemma freevm_spec s l d tabs um :
  space s l d tabs um →
  wp (freevm d) s (λ _ s' _, ∃ l', free_list kend s' l' ∧ evolves (pool l d tabs um) s s' ∧
    ∀ p, p ∈ l' ↔ pool l d tabs um p).
Proof using kend_high.
  intros Hsp. pose proof Hsp as ((_ & (Hd & _) & _) & _). pose proof (page_ok_range kend kend_high d Hd) as Hdr.
  unfold freevm. rewrite (proj2 (Z.eqb_neq d 0)) by lia. wp_step.
  eapply wp_mono; [apply (deallocuvm_spec s l d tabs um KERNBASE 0 Hsp); done|].
  intros _ s1 t1 (l1 & um1 & _ & Hsp1 & Hev1 & Hc1 & Hp1). pose proof Hsp1 as ((Hfl1 & Hrep1 & Hown1) & (_ & Hur1 & _) & _).
  assert (∀ n, um1 n = None) as Hnone.
  { intros n. destruct (um1 n) as [x|] eqn:Hn; [|done]. destruct (NUPAGES_bound n (Hur1 _ _ Hn)) as (H1 & H2 & _).
    rewrite Hc1 in Hn. change (PGROUNDUP 0 / PGSIZE) with 0 in Hn.
    rewrite (proj2 (Z.leb_le _ _)), (proj2 (Z.ltb_lt _ _)) in Hn by (unfold PGSIZE in *; lia). done. }
  assert (∀ p, pool l d tabs um p ↔ p ∈ l1 ∨ p = d ∨ ∃ j, 0 ≤ j ∧ tabs j = Some p) as Hpool.
  { intros p. rewrite <- Hp1. unfold pool, owns. split.
    - intros [?|[[?|(j & Hj & ?)]|(n & f & Hn)]]; [by left | by right; left | right; right; exists j; split; [lia | done] | by rewrite Hnone in Hn].
    - destruct Hrep1 as (_ & _ & _ & Hrange). intros [?|[?|(j & Hj & Hp)]]; [by left | by right; left; left | right; left; right].
      exists j. split; [by eapply Hrange | done]. }
  wp_step. change NPDENTRIES with (Z.of_nat 1024).
  eapply wp_mono; [apply (freevm_tables s1 d tabs 1024 Hd Hrep1 0 s1 l1); try done|].
  { intros p Hp ->. apply (Hown1 d); [by left | done]. }
  { intros j t Hj Ht Hin. apply (Hown1 t); [|done]. right. exists j. split; [|done]. destruct Hrep1 as (_ & _ & _ & Hrange). by eapply Hrange. }
  intros _ s2 t2 (l2 & Hfl2 & Hd2 & Hev2 & Hl2). eapply wp_mono; [by apply (kfree_spec kend kend_high s2 l2 d)|].
  intros _ s3 t3 (Hfl3 & Hu3 & Hs3 & _). exists (d :: l2). split_and!; [done | |].
  - eapply evolves_trans; [eapply evolves_mono; [|exact Hev1]|eapply evolves_trans; [eapply evolves_mono; [|exact Hev2]|]].
    + intros p [?|[?|(n & f & _ & ?)]]; [by left | by right; left | right; right; eauto].
    + intros p Hp. apply Hpool. auto.
    + split; [done|]. apply (same_off_page _ d); [|done]. apply Hpool. auto.
  - intros p. rewrite elem_of_cons, Hl2, Hpool. tauto.
Qed.

(** ** The kernel part of an address space *)

(** kernel.ld starts the data of the kernel on a page of its own. *)
Definition data_ok : Prop := kdata mod PGSIZE = 0 ∧ KERNLINK < kdata < KERNBASE + PHYSTOP.

(** The entry a list of segments prescribes for [va]. *)
Fixpoint kent (ks : list (Z * Z * Z * Z)) (va : Z) : option Z :=
  match ks with
  | [] => None
  | (virt, pstart, pend, perm) :: ks' =>
      if in_range virt (u32 (pend - pstart)) va
      then Some (pstart + (PGROUNDDOWN va - virt) + Z.lor perm PTE_P) else kent ks' va
  end.

(** Segments that [mappages] can map: page-aligned, not wrapping around, above
    [KERNBASE], and disjoint. *)
Fixpoint kmap_ok (ks : list (Z * Z * Z * Z)) : Prop :=
  match ks with
  | [] => True
  | (virt, pstart, pend, perm) :: ks' =>
      (∃ n : nat, u32 (pend - pstart) = (n + 1) * PGSIZE ∧ KERNBASE ≤ virt ∧ virt mod PGSIZE = 0 ∧
         virt + (n + 1) * PGSIZE ≤ 2 ^ 32 ∧ 0 ≤ pstart ∧ pstart mod PGSIZE = 0 ∧ pstart + (n + 1) * PGSIZE ≤ 2 ^ 32 ∧
         0 ≤ perm < PGSIZE) ∧
      (∀ va, virt ≤ va < virt + u32 (pend - pstart) → kent ks' va = None) ∧ kmap_ok ks'
  end.

Lemma kmap_is_ok : data_ok → kmap_ok kmap.
Proof using.
  intros [Hm Hk]. unfold kmap, kmap_ok. rewrite (V2P_eq kdata), (V2P_eq KERNLINK) by (unfold KERNLINK, KERNBASE, PHYSTOP, EXTMEM in *; lia).
  rewrite (u32_small (EXTMEM - 0)) by done. rewrite (u32_small (kdata - KERNBASE - _)), (u32_small (PHYSTOP - _)) by (unfold KERNLINK, KERNBASE, PHYSTOP, EXTMEM in *; lia).
  change (u32 (0 - DEVSPACE)) with 0x2000000. cbn [kent].
  change (u32 (0 - DEVSPACE)) with 0x2000000.
  rewrite (u32_small (kdata - KERNBASE - _)), (u32_small (PHYSTOP - _)) by (unfold KERNLINK, KERNBASE, PHYSTOP, EXTMEM in *; lia).
  unfold KERNLINK, KERNBASE, PHYSTOP, EXTMEM, DEVSPACE, PGSIZE, PTE_W in *.
  split_and!; try done; try (intros va Hva; range_cases; (done || lia)).
  - exists 255%nat. split_and!; done.
  - exists (Z.to_nat ((kdata - 0x80100000) / 4096 - 1)). split_and!; try done; Z.div_mod_to_equations; lia.
  - exists (Z.to_nat ((0x8E000000 - kdata) / 4096 - 1)). split_and!; try done; Z.div_mod_to_equations; lia.
  - exists (Z.to_nat 8191). rewrite Z2Nat.id by done. split_and!; done.
Qed.

Lemma setupkvm_loop_spec d ks : ∀ s l tabs,
  vmrep s l d tabs → kmap_ok ks → (∀ va, 0 ≤ va < 2 ^ 32 → kent ks va ≠ None → Z.land (pte (kmemory s) tabs va) PTE_P = 0) →
  wp (setupkvm_loop d ks) s (λ b s' _, ∃ l' tabs',
    vmrep s' l' d tabs' ∧ grown_in (λ i, 512 ≤ i) d s l tabs s' l' tabs' ∧ (b = false → l' = []) ∧
    (∀ va, 0 ≤ va < KERNBASE → pte (kmemory s') tabs' va = pte (kmemory s) tabs va) ∧
    (b = true → ∀ va, 0 ≤ va < 2 ^ 32 → pte (kmemory s') tabs' va = default (pte (kmemory s) tabs va) (kent ks va))).
Proof using kend_high.
  induction ks as [|[[[virt pstart] pend] perm] ks IH]; intros s l tabs Hvm Hok Hun; cbn [setupkvm_loop].
  { apply wp_ret. exists l, tabs. split_and!; [done.. | apply grown_in_refl | done | done | done]. }
  destruct Hok as [(n & Hsz & Hv0 & Hvm0 & Hv32 & Hp0 & Hpm & Hp32 & Hperm) [Hdis Hok]].
  wp_step. cbn [kent] in Hun |- *. rewrite Hsz in Hun, Hdis |- *. rewrite mappages_loop_eq by (done || (unfold KERNBASE in *; lia)).
  eapply wp_mono; [apply (mappages_loop_spec (λ i, 512 ≤ i) perm d n Hperm virt pstart s l tabs Hvm); try done; try (unfold KERNBASE, PGSIZE in *; lia)|].
  { intros va Hva. rewrite PDX_eq by (unfold KERNBASE, PGSIZE in *; lia). apply (Z.div_le_mono KERNBASE va (2 ^ 22)); unfold PGSIZE in *; lia. }
  { intros va Hva. apply Hun; [unfold KERNBASE, PGSIZE in *; lia|]. range_cases; [done | lia]. }
  intros r s1 t1 (l1 & tabs1 & k & Hvm1 & Hg1 & Hmap & Hr).
  assert (∀ va, 0 ≤ va < KERNBASE → pte (kmemory s1) tabs1 va = pte (kmemory s) tabs va) as Hlow.
  { intros va Hva. rewrite Hmap by (unfold KERNBASE in *; lia). range_cases; [lia | done]. }
  destruct Hr as [[-> ->]|(-> & -> & _)]; [change (0 <? 0) with false | change (-1 <? 0) with true]; cbv iota;
    [|wp_step; exists [], tabs1; by split_and!].
  eapply wp_mono; [apply (IH s1 l1 tabs1 Hvm1 Hok)|].
  { intros va Hva Hk. rewrite Hmap by done. range_cases; [by rewrite Hdis in Hk by lia|].
    apply Hun; [done|]. by rewrite (proj2 (in_range_false _ _ _)) by lia. }
  intros b s2 t2 (l2 & tabs2 & Hvm2 & Hg2 & Hno & Hlow2 & Hb). exists l2, tabs2. split_and!; [done.. | by eapply grown_in_trans | done | |].
  - intros va Hva. by rewrite Hlow2, Hlow.
  - intros -> va Hva. rewrite (Hb eq_refl va Hva), Hmap by done.
    range_cases; try lia; by rewrite Hdis by lia.
Qed.

(** A page of zeros is an empty page directory. *)
Lemma zero_page_space s l d :
  free_list kend s l → page_ok kend d → d ∉ l → (∀ x, in_page d x → kmemory s x = 0) →
  space s l d (λ _, None) (λ _, None) ∧ ∀ va, pte (kmemory s) (λ _, None) va = 0.
Proof using.
  intros Hfl Hd Hdl Hz. split; [|done]. split; [split; [done|]; split; [split; [done|]; split; [|done]|]|split].
  - intros i Hi. unfold load32. by rewrite !Hz by (unfold in_page, PGSIZE; lia).
  - by intros p [->|(i & _ & ?)].
  - done.
  - done.
Qed.

(** Nothing of the kernel is mapped below [KERNBASE]. *)
Lemma kent_high ks va : kmap_ok ks → va < KERNBASE → kent ks va = None.
Proof using.
  induction ks as [|[[[virt pstart] pend] perm] ks IH]; cbn [kent kmap_ok]; [done|].
  intros [(n & _ & Hv & _) [_ Hok]] Hva. range_cases; [lia | auto].
Qed.

(** [n] entries of a directory have at most [n] tables. *)
Lemma tables_bound lo (n : nat) (l : list Z) (tabs : Z → option Z) :
  NoDup l → (∀ p, p ∈ l → ∃ i, lo ≤ i < lo + n ∧ tabs i = Some p) → (length l ≤ n)%nat.
Proof using.
  intros Hnd Hl. transitivity (length (omap tabs (seqZ lo n))).
  - apply submseteq_length, NoDup_submseteq; [done|]. intros p Hp. destruct (Hl p Hp) as (i & Hi & Ht).
    apply list_elem_of_omap. exists i. split; [|done]. apply elem_of_seqZ. lia.
  - transitivity (length (seqZ lo n)); [apply length_omap_le | rewrite length_seqZ; lia].
Qed.

Lemma setupkvm_spec s l :
  data_ok → free_list kend s l →
  wp setupkvm s (λ r s' _, evolves (λ p, p ∈ l) s s' ∧
    ((r = 0 ∧ (length l ≤ 513)%nat ∧ ∃ l', free_list kend s' l' ∧ ∀ p, p ∈ l' ↔ p ∈ l) ∨
     (∃ l' tabs, page_ok kend r ∧ space s' l' r tabs (λ _, None) ∧ (∀ p, pool l' r tabs (λ _, None) p ↔ p ∈ l) ∧
        (length l ≤ length l' + 513)%nat ∧
        ∀ va, 0 ≤ va < 2 ^ 32 → pte (kmemory s') tabs va = default 0 (kent kmap va)))).
Proof using kend_high.
  intros Hdata Hfl. unfold setupkvm. wp_step. eapply wp_mono; [by apply (kalloc_spec kend kend_high s l)|].
  intros d s1 t1 (Hm1 & Hu1 & _ & Hr). destruct l as [|v l]; [destruct Hr as [-> ->] | destruct Hr as [-> Hfl1]].
  { rewrite Z.eqb_refl. wp_step. split; [done|]. left. split; [done|]. split; [cbn; lia|]. by exists []. }
  destruct (free_list_head s v l Hfl) as [Hv Hvl]. pose proof (page_ok_range kend kend_high v Hv) as Hvr.
  rewrite (proj2 (Z.eqb_neq v 0)) by lia. unfold fill. rewrite (proj2 (Z.eqb_neq v 0)) by lia. do 2 wp_step. rewrite Hm1.
  change (mk_kmem (use_lock s1) (freelist s1) ?m) with (set_mem m s1). set (s2 := set_mem _ s1).
  assert (same_off (λ q, q = v) (kmemory s) (kmemory s2)) as Hoff.
  { apply (same_off_page _ v); [done|]. intros x Hx. by apply memset_outside. }
  assert (∀ x, in_page v x → kmemory s2 x = 0) as Hz.
  { intros x Hx. simpl. rewrite memset_fill by done. unfold in_page in Hx. range_cases; [done | lia]. }
  destruct (zero_page_space s2 l v) as [Hsp Hpte]; [|done|done|done|].
  { eapply free_list_off; [exact Hfl1 | done | by rewrite Hm1 | by intros q ->]. }
  change (DEVSPACE <? P2V PHYSTOP) with false. cbv iota. wp_step.
  eapply wp_mono; [apply (setupkvm_loop_spec v kmap s2 l _ (proj1 Hsp) (kmap_is_ok Hdata)); intros; by rewrite Hpte|].
  intros b s3 t3 (l3 & tabs3 & Hvm3 & [Hg3 Hidx] & Hno & Hlow & Hb).
  assert (evolves (λ p, p ∈ v :: l) s s3) as Hev.
  { destruct Hg3 as (Hu3 & Ho3 & new & -> & Hown). apply (evolves_trans _ s s2 s3); [split; [done|]; eapply same_off_mono; [|exact Hoff]; intros p ->; by left|].
    split; [done|]. eapply same_off_mono; [|exact Ho3]. intros p [[->|(i & _ & ?)]|?]%Hown; [by left | done | right; apply elem_of_app; by left]. }
  assert (∀ p, pool l3 v tabs3 (λ _, None) p ↔ p ∈ v :: l) as Hpool.
  { intros p. rewrite (proj1 (grow_pool_same v s2 l _ s3 l3 tabs3 _ p Hg3)). unfold pool, owns. rewrite elem_of_cons.
    split; [intros [?|[[?|(i & _ & ?)]|(n & f & ?)]]; by auto | intros [?|?]; auto]. }
  assert (space s3 l3 v tabs3 (λ _, None)) as Hsp3.
  { split; [done|]. split; [split; [|done]|done]. intros n Hn. destruct (NUPAGES_bound n Hn) as (? & ? & _).
    rewrite Hlow by (unfold PGSIZE in *; lia). by rewrite Hpte. }
  assert (length l ≤ length l3 + 512)%nat as Hlen.
  { destruct Hg3 as (_ & _ & new & -> & Hown). rewrite length_app. cut (length new ≤ 512)%nat; [lia|].
    destruct Hfl as (_ & [Hvn [Hnd _]%NoDup_app]%NoDup_cons & _). apply (tables_bound 512 512 new tabs3 Hnd). intros p Hp.
    destruct (proj2 (Hown p) (or_intror Hp)) as [->|(i & Hi & Hti)]; [by destruct Hvn; apply elem_of_app; left|].
    exists i. split; [|done]. split; [|lia]. apply Hidx. by rewrite Hti. }
  destruct b.
  - wp_step. split; [done|]. right. exists l3, tabs3.
    split; [done|]. split; [done|]. split; [done|]. split; [cbn; lia|]. intros va Hva. by rewrite (Hb eq_refl va Hva), Hpte.
  - wp_step. eapply wp_mono; [apply (freevm_spec s3 l3 v tabs3 (λ _, None) Hsp3)|]. intros _ s4 t4 (l4 & Hfl4 & Hev4 & Hl4). wp_step.
    split; [eapply evolves_trans; [done|]; eapply evolves_mono; [|exact Hev4]; intros p; apply Hpool|].
    left. split; [done|]. split; [|exists l4; split; [done|]; intros p; by rewrite Hl4, Hpool].
    rewrite (Hno eq_refl) in Hlen. cbn in *. lia.
Qed.

(** ** Copying an address space *)

(** The pages an address space uses. *)
Definition used (d : Z) (tabs : Z → option Z) (um : Z → option (Z * Z)) (p : Z) : Prop :=
  owns d tabs p ∨ ∃ n f, um n = Some (p, f).

(** An address space stays, with its contents, as long as nothing is written to its pages. *)
Lemma space_frame P m m' d tabs um :
  pt_rep m d tabs → urep m tabs um → same_off P m m' → (∀ p, P p → page_ok kend p) →
  (∀ p, used d tabs um p → ¬ P p) →
  pt_rep m' d tabs ∧ urep m' tabs um ∧ ∀ n p f x, um n = Some (p, f) → in_page p x → m' x = m x.
Proof using.
  intros Hrep (Hu & Hur & Hui) Hoff HP Hused.
  destruct (pt_rep_off P m m' d tabs Hrep Hoff HP) as [Hrep' Hpte]; [intros p Ho; apply Hused; by left|].
  split; [done|]. split; [split; [intros n Hn; rewrite Hpte; by apply Hu | done]|].
  intros n p f x Hn Hx. apply (same_off_at P _ _ p x Hoff HP); [|apply Hused; right; eauto | done].
  specialize (Hu n (Hur _ _ Hn)). rewrite Hn in Hu. by destruct Hu as (_ & ? & _).
Qed.

Lemma lor_present f : f mod 2 = 1 → Z.lor f PTE_P = f.
Proof using.
  intros Hf. unfold PTE_P. assert (Z.lor (f - 1) 1 = f - 1 + 1) as Hl by (apply (lor_low _ _ 1); [lia | simpl; Z.div_mod_to_equations; lia | done]).
  replace f with (Z.lor (f - 1) 1) at 1 by lia. rewrite <- Z.lor_assoc. change (Z.lor 1 1) with 1. lia.
Qed.

(** What [copyuvm] leaves when it has copied the pages from [lo] below [sz]. *)
Definition copy_done (lo sz : Z) (pum um um' : Z → option (Z * Z)) (m m' : mem) : Prop :=
  (∀ n, n < lo → um' n = um n) ∧ (∀ n, lo ≤ n → sz ≤ n * PGSIZE → um' n = None) ∧
  (∀ n, lo ≤ n → n * PGSIZE < sz → ∃ p q f, pum n = Some (p, f) ∧ um' n = Some (q, f) ∧
     ∀ j, 0 ≤ j < PGSIZE → m' (q + j) = m (p + j)).

Lemma copy_done_step lo sz pum um um3 m m2 m3 p q f :
  lo * PGSIZE < sz → pum lo = Some (p, f) → (∀ j, 0 ≤ j < PGSIZE → m3 (q + j) = m (p + j)) →
  (∀ n p f x, pum n = Some (p, f) → in_page p x → m2 x = m x) →
  copy_done (lo + 1) sz pum (upd_tab um lo (Some (q, f))) um3 m2 m3 → copy_done lo sz pum um um3 m m3.
Proof using.
  intros Hlt Hp Hq Hsame (H1 & H2 & H3). split_and!.
  - intros n Hn. rewrite H1 by lia. apply upd_tab_other. lia.
  - intros n Hn Hsz. apply H2; [|done]. assert (n ≠ lo) by (intros ->; lia). lia.
  - intros n Hn Hsz. destruct (decide (n = lo)) as [->|].
    + exists p, q, f. rewrite H1, upd_tab_same by lia. by split_and!.
    + destruct (H3 n) as (p' & q' & f' & Hp' & Hq' & Hc); [lia | done|]. exists p', q', f'. split_and!; [done | done|].
      intros j Hj. rewrite Hc by done. eapply Hsame; [exact Hp'|]. unfold in_page. lia.
Qed.

(** [mappages] for a copied page. *)
Lemma copy_page s v l d tabs um s1 n p f :
  space s (v :: l) d tabs um → free_list kend s1 l → kmemory s1 = kmemory s → use_lock s1 = use_lock s →
  0 ≤ n < NUPAGES → um n = None → 0 ≤ f < PGSIZE → f mod 2 = 1 →
  let s2 := set_mem (memmove (kmemory s) v p (Z.to_nat PGSIZE)) s1 in
  wp (mappages d (n * PGSIZE) PGSIZE (V2P v) f) s2 (λ r s' _, ∃ l' tabs',
    grown d s2 l tabs s' l' tabs' ∧
    evolves (λ q, q = v ∨ owns d tabs' q) s s' ∧ same_kernel (kmemory s) tabs (kmemory s') tabs' ∧
    (∀ j, 0 ≤ j < PGSIZE → kmemory s' (v + j) = kmemory s (p + j)) ∧ ¬ pool l' d tabs' um v ∧
    ((r = 0 ∧ space s' l' d tabs' (upd_tab um n (Some (v, f)))) ∨ (r = -1 ∧ l' = [] ∧ space s' l' d tabs' um))).
Proof using kend_high.
  intros Hsp Hfl1 Hm1 Hu1 Hn Hum Hf Hodd s2.
  eapply wp_mono; [apply (map_new s v l d tabs um s1 _ n f); try done; apply (memmove_outside _ _ _ (Z.to_nat PGSIZE))|].
  rewrite lor_present by done. intros r s3 t3 (l3 & tabs3 & Hg & Hev & Hk & Hc & Hnv & Hr). exists l3, tabs3.
  split; [done|]. split; [done|]. split; [done|]. split; [|done]. intros j Hj. rewrite Hc by (unfold in_page; lia).
  rewrite memmove_lookup, Z2Nat.id by done. range_cases; [f_equal; lia | lia].
Qed.

(** The page table of the copy cannot be completed: everything is given back. *)
Lemma copy_fail s d tabs um v :
  space s [] d tabs um → page_ok kend v → ¬ pool [] d tabs um v →
  wp (kfree kend v ;; freevm d ;; mret 0) s (λ r s' _, r = 0 ∧ ∃ l', free_list kend s' l' ∧
    evolves (λ q, q = v ∨ pool [] d tabs um q) s s' ∧ ∀ q, q ∈ l' ↔ q = v ∨ pool [] d tabs um q).
Proof using kend_high.
  intros Hsp Hv Hnv. wp_step. eapply wp_mono; [apply (space_kfree s [] d tabs um v Hsp Hv Hnv)|]. intros _ s3 t3 [Hsp3 Hev3]. wp_step.
  eapply wp_mono; [by apply (freevm_spec s3 [v] d tabs um)|]. intros _ s4 t4 (l4 & Hfl4 & Hev4 & Hl4). wp_step.
  assert (∀ q, pool [v] d tabs um q ↔ q = v ∨ pool [] d tabs um q) as Hpv.
  { intros q. unfold pool. rewrite list_elem_of_singleton, elem_of_nil. tauto. }
  split; [done|]. exists l4. split; [done|]. split; [|intros q; by rewrite Hl4, Hpv].
  eapply evolves_trans; eapply evolves_mono; [|exact Hev3| |exact Hev4]; intros q; [by left | apply Hpv].
Qed.

Lemma copyuvm_loop_spec d pd ptabs pum sz (fuel : nat) :
  sz ≤ KERNBASE → (∀ n, 0 ≤ n → n * PGSIZE < sz → pum n ≠ None) → ∀ lo s l tabs um,
  space s l d tabs um → pt_rep (kmemory s) pd ptabs → urep (kmemory s) ptabs pum →
  (∀ p, used pd ptabs pum p → ¬ pool l d tabs um p) →
  0 ≤ lo → above_free um lo → sz ≤ (lo + fuel) * PGSIZE →
  wp (copyuvm_loop fuel pd d (lo * PGSIZE) sz) s (λ r s' _, evolves (pool l d tabs um) s s' ∧
    ((r = 0 ∧ ∃ l', free_list kend s' l' ∧ ∀ p, p ∈ l' ↔ pool l d tabs um p) ∨
     (r = d ∧ evolves (touched l d tabs um lo) s s' ∧ ∃ l' tabs' um', space s' l' d tabs' um' ∧
        (∀ p, pool l' d tabs' um' p ↔ pool l d tabs um p) ∧ copy_done lo sz pum um um' (kmemory s) (kmemory s') ∧
        same_kernel (kmemory s) tabs (kmemory s') tabs'))).
Proof using kend_high.
  intros Hsz Hall. induction fuel as [|fuel IH]; intros lo s l tabs um Hsp Hprep Hpu Hsep Hlo Hfree Hfuel; cbn [copyuvm_loop];
    destruct (Z.leb_spec sz (lo * PGSIZE)) as [Hle|Hgt]; try (unfold PGSIZE in *; lia).
  1, 2: apply wp_ret; split; [done|]; right; split; [done|]; split; [done|]; exists l, tabs, um; split; [done|]; split; [done|];
    (split; [|done]); split; [done|]; split; [by intros n Hn _; apply Hfree | intros n ? ?; unfold PGSIZE in *; lia].
  assert (0 ≤ lo < NUPAGES) as Hlo' by (change NUPAGES with 524288; unfold KERNBASE, PGSIZE in *; lia).
  destruct (NUPAGES_bound lo Hlo') as (Hb1 & Hb2 & _). pose proof (proj1 Hpu lo Hlo') as He.
  destruct (pum lo) as [[p f]|] eqn:Hpl; [|by destruct (Hall lo Hlo Hgt)]. destruct He as (Hpte & Hpok & Hf & Hodd).
  eapply wp_bind_ok; [by apply (walk_lookup s pd ptabs)|]. unfold pte in Hpte.
  destruct (page_ok_V2P p Hpok) as (_ & Hpm & _ & Hpos & _). destruct (ptabs (PDX (lo * PGSIZE))) as [t|] eqn:Ht; [|lia].
  rewrite entry_addr_pos by (eapply owns_ok; [exact Hprep | by eapply owns_table]). unfold ld. do 2 wp_step. rewrite Hpte.
  destruct (entry_decode p f Hpok Hf Hodd) as (-> & Hv & ->). simpl negb. cbv iota.
  destruct (pte_flags (V2P p) f Hpm Hf) as [Ha _]. rewrite Ha in Hv |- *.
  wp_step. eapply wp_mono; [apply (kalloc_spec kend kend_high s l); apply Hsp|].
  intros mem s1 t1 (Hm1 & Hu1 & _ & Hr). destruct l as [|v l]; [destruct Hr as [-> ->] | destruct Hr as [-> Hfl1]].
  - rewrite Z.eqb_refl. wp_step. eapply wp_mono; [by apply (freevm_spec s [] d tabs um)|].
    intros _ s2 t2 (l2 & Hfl2 & Hev2 & Hl2). wp_step. split; [done|]. left. split; [done|]. by exists l2.
  - destruct (space_head s v l d tabs um Hsp) as [Hvok Hnv]. pose proof (page_ok_range kend kend_high v Hvok) as Hvr.
    rewrite (proj2 (Z.eqb_neq v 0)) by lia. unfold copy. do 2 wp_step. rewrite Hm1, Hv.
    change (mk_kmem (use_lock s1) (freelist s1) ?m) with (set_mem m s1).
    wp_step. eapply wp_mono; [apply (copy_page s v l d tabs um s1 lo p f Hsp Hfl1 Hm1 Hu1 Hlo' (Hfree lo ltac:(lia)) Hf Hodd)|].
    intros r s2 t2 (l2 & tabs2 & Hg & Hev & Hk & Hc & Hnv2 & Hr).
    destruct (grow_pool d _ l tabs s2 l2 tabs2 um lo v f Hg (Hfree lo ltac:(lia))) as (Hpool & Htouch & Hown).
    assert (∀ q, q = v ∨ owns d tabs2 q → touched (v :: l) d tabs um lo q) as Hin.
    { intros q [->|[?|?]%Hown]; [left; by left | by right; left | left; by right]. }
    assert (∀ q lo', touched (v :: l) d tabs um lo' q → pool (v :: l) d tabs um q) as Htp.
    { intros q lo' [?|[?|(n & f' & _ & ?)]]; [by left | by right; left | right; right; eauto]. }
    destruct (space_frame (pool (v :: l) d tabs um) (kmemory s) (kmemory s2) pd ptabs pum Hprep Hpu) as (Hprep2 & Hpu2 & Hcont);
      [destruct Hev as [_ Hoff]; eapply same_off_mono; [|exact Hoff]; eauto | intros q; by apply (pool_ok s) | done |].
    destruct Hr as [[-> Hsp2]|(-> & -> & Hsp2)].
    + change (0 <? 0) with false. cbv iota.
      replace (u32 (lo * PGSIZE + PGSIZE)) with ((lo + 1) * PGSIZE) by (rewrite u32_small; unfold PGSIZE, KERNBASE in *; lia).
      eapply wp_mono; [apply (IH (lo + 1) s2 l2 tabs2 _ Hsp2 Hprep2 Hpu2); [|lia| |unfold PGSIZE in *; lia]|].
      { intros q Hq. rewrite Hpool. by apply Hsep. }
      { intros n Hn. rewrite upd_tab_other by lia. apply Hfree. lia. }
      intros r s3 t3 [Hev3 Hr3]. split.
      { eapply evolves_trans; eapply evolves_mono; [|exact Hev| |exact Hev3]; [eauto | intros q; by apply Hpool]. }
      destruct Hr3 as [(-> & l3 & Hfl3 & Hl3)|(-> & Hev3' & l3 & tabs3 & um3 & Hsp3 & Hp3 & Hd3 & Hk3)]; [left | right]; (split; [done|]).
      { exists l3. split; [done|]. intros q. by rewrite Hl3, Hpool. }
      split; [eapply evolves_trans; eapply evolves_mono; [|exact Hev| |exact Hev3']; [done|]; intros q Hq%Htouch; eapply touched_mono; [|done]; lia|].
      exists l3, tabs3, um3. split; [done|]. split; [intros q; by rewrite Hp3, Hpool|].
      split; [|intros va Hva; by rewrite (Hk3 va Hva), (Hk va Hva)].
      eapply copy_done_step; [done | done | | exact Hcont | exact Hd3]. intros j Hj. rewrite <- Hc by done.
      eapply uread_untouched; [exact Hsp2 | exact Hev3' | apply upd_tab_same | lia | unfold in_page; lia].
    + change (-1 <? 0) with true. cbv iota.
      eapply wp_mono; [apply (copy_fail s2 d tabs2 um v Hsp2 Hvok Hnv2)|]. intros r s4 t4 (-> & l4 & Hfl4 & Hev4 & Hl4).
      pose proof (λ q, proj1 (grow_pool_same d _ l tabs s2 [] tabs2 um q Hg)) as Hsame.
      assert (∀ q, q = v ∨ pool [] d tabs2 um q ↔ pool (v :: l) d tabs um q) as Hpv.
      { intros q. rewrite Hsame. unfold pool. rewrite elem_of_cons. tauto. }
      split; [|left; split; [done|]; exists l4; split; [done|]; intros q; by rewrite Hl4, Hpv].
      eapply evolves_trans; eapply evolves_mono; [|exact Hev| |exact Hev4]; [eauto | intros q; apply Hpv].
Qed.

Lemma space_used s l d tabs um p : space s l d tabs um → used d tabs um p → p ∉ l.
Proof using. intros ((_ & _ & Hown) & _ & Hsep) [Ho|(n & f & Hn)]; [by apply Hown | by apply (Hsep n p f)]. Qed.

(** Work on free pages leaves an address space as it is, for the kernel and for its program. *)
Lemma space_beside s l d tabs um s' l' :
  space s l d tabs um → evolves (λ p, p ∈ l) s s' → free_list kend s' l' → (∀ p, p ∈ l' → p ∈ l) →
  space s' l' d tabs um ∧ ∀ va, uread (kmemory s') um va = uread (kmemory s) um va.
Proof using.
  intros Hsp [_ Hoff] Hfl' Hl'. pose proof (λ p, space_used s l d tabs um p Hsp) as Hused. destruct Hsp as ((Hfl & Hrep & Hown) & Hu & Hsep).
  destruct (space_frame (λ p, p ∈ l) (kmemory s) (kmemory s') d tabs um) as (Hrep' & Hu' & Hc'); try done.
  { destruct Hfl as (_ & _ & Hf). by apply (proj1 (Forall_forall _ _) Hf). }
  split; [split; [split; [done|]; split; [done|]; intros p Ho Hin; by apply (Hown p Ho), Hl'|]; split; [done|]|].
  - intros n p f Hn. destruct (Hsep n p f Hn) as [Hnl Hno]. split; [|done]. intros Hin. by apply Hnl, Hl'.
  - intros va. unfold uread. destruct (um (va / PGSIZE)) as [[p f]|] eqn:Hp; [|done]. f_equal. eapply Hc'; [exact Hp | apply page_offset].
Qed.

(** C11: [copyuvm] gives the child of a fork an address space of its own with
    the parent's contents: every page below [sz] is mapped with the parent's
    flags to a page that was free and holds the same bytes, the kernel is
    mapped as [kmap] says, and the parent's address space and contents are
    untouched. When memory runs out 0 is returned and the free list has
    exactly the pages it had. *)
Theorem copyuvm_correct s l pd ptabs pum sz :
  data_ok → space s l pd ptabs pum → 0 ≤ sz ≤ KERNBASE → (∀ n, 0 ≤ n → n * PGSIZE < sz → pum n ≠ None) →
  wp (copyuvm pd sz) s (λ r s' _, ∃ l',
    space s' l' pd ptabs pum ∧ (∀ va, uread (kmemory s') pum va = uread (kmemory s) pum va) ∧
    ((r = 0 ∧ ∀ p, p ∈ l' ↔ p ∈ l) ∨
     (∃ tabs um, space s' l' r tabs um ∧ (∀ p, pool l' r tabs um p ↔ p ∈ l) ∧
        (∀ va, 0 ≤ va < sz → uread (kmemory s') um va = uread (kmemory s) pum va ∧
           snd <$> um (va / PGSIZE) = snd <$> pum (va / PGSIZE)) ∧
        (∀ n, sz ≤ n * PGSIZE → um n = None) ∧
        ∀ va, KERNBASE ≤ va < 2 ^ 32 → pte (kmemory s') tabs va = default 0 (kent kmap va)))).
Proof using kend_high.
  intros Hdata Hsp Hsz Hall. pose proof Hsp as ((Hfl & Hprep & Hpown) & Hpu & Hpsep).
  unfold copyuvm. wp_step. eapply wp_mono; [by apply (setupkvm_spec s l)|]. intros d s1 t1 [Hev1 Hr1].
  assert (∀ p, p ∈ l → page_ok kend p) as Hok by (destruct Hfl as (_ & _ & Hf); by apply (proj1 (Forall_forall _ _) Hf)).
  assert (∀ p, used pd ptabs pum p → p ∉ l) as Hsep by (intros p; by apply (space_used s)).
  pose proof (λ s2 l2, space_beside s l pd ptabs pum s2 l2 Hsp) as Hparent.
  destruct Hr1 as [(-> & _ & l1 & Hfl1 & Hl1)|(l1 & tabs1 & Hd & Hsp1 & Hp1 & Hk1)].
  { rewrite Z.eqb_refl. wp_step. destruct (Hparent s1 l1 Hev1 Hfl1) as [? ?]; [apply Hl1|]. exists l1.
    split; [done|]. split; [done|]. by left. }
  pose proof (page_ok_range kend kend_high d Hd) as Hdr. rewrite (proj2 (Z.eqb_neq d 0)) by lia.
  destruct (space_frame (λ p, p ∈ l) (kmemory s) (kmemory s1) pd ptabs pum) as (Hrep1 & Hu1 & Hc1); [done | done | apply Hev1 | done | done |].
  change 0 with (0 * PGSIZE) at 2. eapply wp_mono; [apply (copyuvm_loop_spec d pd ptabs pum sz _ (proj2 Hsz) Hall 0 s1 l1 tabs1 _ Hsp1 Hrep1 Hu1)|].
  { intros p Hp. rewrite Hp1. by apply Hsep. }
  { lia. }
  { done. }
  { unfold PGSIZE in *. Z.div_mod_to_equations. lia. }
  intros r s2 t2 [Hev2 Hr2]. assert (evolves (λ p, p ∈ l) s s2) as Hev.
  { eapply evolves_trans; [done|]. eapply evolves_mono; [|exact Hev2]. intros p. apply Hp1. }
  destruct Hr2 as [(-> & l2 & Hfl2 & Hl2)|(-> & _ & l2 & tabs2 & um2 & Hsp2 & Hp2 & (_ & Hd2 & Hd3) & Hk2)].
  - destruct (Hparent s2 l2 Hev Hfl2) as [? ?]; [intros p Hp; by apply Hp1, Hl2|]. exists l2. split; [done|]. split; [done|].
    left. split; [done|]. intros p. by rewrite Hl2, Hp1.
  - destruct (Hparent s2 l2 Hev) as [? ?]; [apply Hsp2 | intros p Hp; apply Hp1, Hp2; by left |]. exists l2. split; [done|]. split; [done|].
    right. exists tabs2, um2. split; [done|]. split; [intros p; by rewrite Hp2|]. split_and!.
    + intros va Hva. destruct (Hd3 (va / PGSIZE)) as (p & q & f & Hp & Hq & Hc); [unfold PGSIZE in *; Z.div_mod_to_equations; lia..|].
      unfold uread. rewrite Hp, Hq. split; [|done]. f_equal. pose proof (Z.mod_pos_bound va PGSIZE ltac:(done)).
      rewrite Hc by done. eapply Hc1; [exact Hp | apply page_offset].
    + intros n Hn. apply Hd2; [unfold PGSIZE in *; lia | done].
    + intros va Hva. rewrite (Hk2 va Hva). apply Hk1. unfold KERNBASE in *. lia.
Qed.

(** ** The guard page *)

(** The entry of a page [allocuvm] mapped, without the user flag. *)
Lemma clear_user p : page_ok kend p → Z.land (V2P p + 7) (Z.lnot PTE_U) = V2P p + 3.
Proof using kend_high.
  intros Hp. destruct (page_ok_V2P p Hp) as (_ & Hm & _). rewrite <- !(lor_low (V2P p) _ 12) by done.
  rewrite Z.land_lor_distr_l. change (Z.land 7 (Z.lnot PTE_U)) with 3. f_equal.
  apply Z.bits_inj'. intros j Hj. rewrite Z.land_spec, Z.lnot_spec by lia. destruct (decide (j = 2)) as [->|Hne].
  - rewrite <- (Z.mod_pow2_bits_low (V2P p) 12 2) by lia. change (2 ^ 12) with PGSIZE. by rewrite Hm, Z.bits_0.
  - change PTE_U with (2 ^ 2). rewrite Z.pow2_bits_eqb by lia. by rewrite (proj2 (Z.eqb_neq 2 j)), andb_true_r by lia.
Qed.

Lemma clearpteu_spec s l d tabs um n p :
  space s l d tabs um → um n = Some (p, 7) →
  let um' := upd_tab um n (Some (p, 3)) in
  wp (clearpteu d (n * PGSIZE)) s (λ _ s' _, space s' l d tabs um' ∧ (∀ q, pool l d tabs um' q ↔ pool l d tabs um q) ∧
    evolves (owns d tabs) s s' ∧ ∀ va, uread (kmemory s') um' va = uread (kmemory s) um va).
Proof using kend_high.
  intros Hsp Hn um'. pose proof Hsp as (Hvm & (Hu & Hur & Hui) & Hsep). pose proof Hvm as (_ & Hrep & _).
  destruct (mapped_table s l d tabs um n p 7 Hsp Hn) as (t & Ht & Hent & Hp & _). destruct (NUPAGES_bound n (Hur _ _ Hn)) as (Hn1 & Hn2 & _).
  unfold clearpteu. eapply wp_bind_ok; [by apply (walk_lookup s d tabs)|]. rewrite Ht.
  rewrite entry_addr_pos by (eapply owns_ok; [done | by eapply owns_table]). unfold ld, st. wp_steps. rewrite Hent, (clear_user p Hp).
  destruct (store_pte s l d tabs (n * PGSIZE) t (V2P p + 3) Hvm Ht ltac:(unfold KERNBASE, PGSIZE in *; lia)) as (Hvm2 & Hoff2 & Hpte2).
  split; [split; [exact Hvm2 | split; [split; [|split]|]] | split; [|split; [done|]]].
  - intros n' Hn'. destruct (NUPAGES_bound n' Hn') as (Hb1 & Hb2 & _). simpl. rewrite Hpte2 by (unfold KERNBASE, PGSIZE in *; lia).
    rewrite !Z.div_mul by done. unfold um', upd_tab. destruct (n' =? n); [|by apply Hu]. rewrite u32_small by (by apply entry_range). done.
  - intros n' x. unfold um', upd_tab. destruct (Z.eqb_spec n' n) as [->|]; [by intros _; eapply Hur | apply Hur].
  - intros n1 n2 q f1 f2. unfold um', upd_tab. destruct (Z.eqb_spec n1 n) as [->|], (Z.eqb_spec n2 n) as [->|]; try done; intros H1 H2; simplify_eq; eauto.
  - intros n' q f'. unfold um', upd_tab. destruct (Z.eqb_spec n' n) as [->|]; [intros [= <- <-]; by eapply Hsep | apply Hsep].
  - intros q. assert ((∃ n f, um' n = Some (q, f)) ↔ ∃ n f, um n = Some (q, f)) as Hq; [|unfold pool; by rewrite Hq].
    unfold um', upd_tab. split; intros (n' & f & Hq); destruct (Z.eqb_spec n' n) as [->|]; simplify_eq; eauto.
    exists n, 3. by rewrite Z.eqb_refl.
    exists n', f. by rewrite (proj2 (Z.eqb_neq n' n)).
  - intros va. unfold uread, um', upd_tab.
    assert (∀ q f n', um n' = Some (q, f) → store32 (kmemory s) (t + 4 * PTX (n * PGSIZE)) (V2P p + 3) (q + va mod PGSIZE) = kmemory s (q + va mod PGSIZE)) as Hsame.
    { intros q f n' Hq. apply (same_off_at (owns d tabs) _ _ q _ Hoff2); [intros r Hr; by eapply owns_ok | eapply pool_ok; [done | right; right; eauto] | by destruct (Hsep _ _ _ Hq) | apply page_offset]. }
    destruct (Z.eqb_spec (va / PGSIZE) n) as [->|]; [rewrite Hn; simpl; f_equal; by eapply Hsame|].
    destruct (um (va / PGSIZE)) as [[q f]|] eqn:Hq; [simpl; f_equal; by eapply Hsame | done].
Qed.

(** ** Copying out to a program *)

(** The program may access page [n]. *)
Definition accessible (um : Z → option (Z * Z)) (n : Z) : bool :=
  match um n with Some (_, f) => truth (Z.land f PTE_U) | None => false end.

Lemma land_flags p f g : page_ok kend p → 0 ≤ f < PGSIZE → 0 ≤ g < PGSIZE → Z.land (V2P p + f) g = Z.land f g.
Proof using kend_high.
  intros Hp Hf Hg. destruct (page_ok_V2P p Hp) as (_ & Hm & _). rewrite <- (lor_low (V2P p) f 12) by done.
  rewrite Z.land_lor_distr_l. assert (Z.land (V2P p) g = 0) as ->; [|by apply Z.lor_0_l].
  apply Z.bits_inj'. intros j Hj. rewrite Z.land_spec, Z.bits_0. unfold PGSIZE in *. destruct (decide (j < 12)).
  - rewrite <- (Z.mod_pow2_bits_low (V2P p) 12 j) by lia. change (2 ^ 12) with 4096. by rewrite Hm, Z.bits_0.
  - replace g with (g mod 2 ^ 12) by (apply Z.mod_small; lia). rewrite Z.mod_pow2_bits_high by lia. apply andb_false_r.
Qed.

(** [uva2ka] where the page directory has a page table for the address. *)
Lemma uva2ka_run s l d tabs um n t :
  space s l d tabs um → 0 ≤ n < NUPAGES → tabs (PDX (n * PGSIZE)) = Some t →
  uva2ka d (n * PGSIZE) s =
    Ok (match um n with Some (p, _) => if accessible um n then p else 0 | None => 0 end) s [].
Proof using kend_high.
  intros Hsp Hn Ht. pose proof Hsp as ((_ & Hrep & _) & (Hu & _) & _). specialize (Hu n Hn). unfold pte in Hu. rewrite Ht in Hu.
  unfold uva2ka, ld, accessible. mrun. rewrite (walk_lookup s d tabs), Ht by done.
  rewrite entry_addr_pos by (eapply owns_ok; [done | by eapply owns_table]). simpl. destruct (um n) as [[p f]|].
  - destruct Hu as (-> & Hp & Hf & Hodd). destruct (entry_decode p f Hp Hf Hodd) as (-> & -> & _). simpl.
    rewrite land_flags by done. by destruct (truth _).
  - rewrite Hu. done.
Qed.

(** Bytes written inside a user page. *)
Lemma uread_write s l d tabs um n p f off (bs : list Z) :
  space s l d tabs um → um n = Some (p, f) → 0 ≤ off → off + length bs ≤ PGSIZE →
  let s' := set_mem (write_bytes (kmemory s) (p + off) bs) s in
  space s' l d tabs um ∧
  ∀ x, uread (kmemory s') um x =
    if in_range (n * PGSIZE + off) (length bs) x then bs !! Z.to_nat (x - (n * PGSIZE + off)) else uread (kmemory s) um x.
Proof using.
  intros Hsp Hn Hoff Hlen s'. pose proof Hsp as ((Hfl & Hrep & Hown) & (Hu & Hur & Hui) & Hsep). destruct (Hsep _ _ _ Hn) as [Hpl Hpo].
  assert (page_ok kend p) as Hp by (eapply pool_ok; [done | right; right; eauto]).
  assert (same_off (λ q, q = p) (kmemory s) (kmemory s')) as Hsame.
  { apply (same_off_page _ p); [done|]. intros x Hx. apply write_bytes_outside. lia. }
  split.
  - apply (space_free (λ q, q = p) s s' l); [done | | done | by intros q -> |].
    + apply (free_list_off (λ q, q = p) s); [done | done | done | by intros q ->].
    + intros q Hq. split; [intros Ho; by apply (Hown q) | intros n' f' Hn'; by destruct (Hsep _ _ _ Hn')].
  - intros x. unfold uread. pose proof (Z.mod_pos_bound x PGSIZE ltac:(done)) as Hx. pose proof (Z.div_mod x PGSIZE ltac:(done)) as Hdm.
    destruct (decide (x / PGSIZE = n)) as [He|Hne].
    + rewrite He, Hn. simpl. unfold write_bytes. replace (p + x mod PGSIZE - (p + off)) with (x - (n * PGSIZE + off)) by lia.
      range_cases; try lia; [|done]. destruct (lookup_lt_is_Some_2 bs (Z.to_nat (x - (n * PGSIZE + off)))) as [b ->]; [lia | done].
    + rewrite (proj2 (in_range_false _ _ _)) by (unfold PGSIZE in *; lia). destruct (um (x / PGSIZE)) as [[q g]|] eqn:Hq; [|done]. f_equal.
      apply (same_off_at (λ q, q = p) _ _ q); [done | by intros ? -> | eapply pool_ok; [done | right; right; eauto] | | apply page_offset].
      intros ->. by apply Hne, (Hui _ _ p g f).
Qed.

(** With enough free pages [inituvm] maps one page at 0, which holds [init] and
    then zeros. *)
Lemma inituvm_spec s l d tabs init :
  space s l d tabs (λ _, None) → (1025 < length l)%nat → length init < PGSIZE →
  wp (inituvm d init) s (λ _ s' _, evolves (λ p, p ∈ l ∨ owns d tabs p) s s' ∧ ∃ v l' tabs',
    let um := upd_tab (λ _, None) 0 (Some (v, 7)) in
    space s' l' d tabs' um ∧ (∀ p, pool l' d tabs' um p ↔ pool l d tabs (λ _, None) p) ∧ same_kernel (kmemory s) tabs (kmemory s') tabs' ∧
    ∀ x, 0 ≤ x < PGSIZE → uread (kmemory s') um x = Some (default 0 (init !! Z.to_nat x))).
Proof using kend_high.
  intros Hsp Hlen Hinit. unfold inituvm. rewrite (proj2 (Z.leb_gt _ _)) by done. wp_step.
  eapply wp_mono; [apply (kalloc_spec kend kend_high s l); apply Hsp|]. intros mem s1 t1 (Hm1 & Hu1 & _ & Hr).
  destruct l as [|v l]; [cbn in Hlen; lia|]. destruct Hr as [-> Hfl1]. destruct (space_head s v l d tabs _ Hsp) as [Hv Hnv].
  pose proof (page_ok_range kend kend_high v Hv) as Hvr. unfold fill at 1. rewrite (proj2 (Z.eqb_neq v 0)) by lia. do 2 wp_step.
  change (mk_kmem (use_lock s1) (freelist s1) ?m) with (set_mem m s1). rewrite Hm1. wp_step.
  eapply wp_mono; [apply (map_new s v l d tabs (λ _, None) s1 _ 0 6); try done; intros x Hx; by apply memset_outside|].
  intros r s2 t2 (l2 & tabs2 & Hg & Hev & Hk & Hz & _ & Hr). destruct (grow_pool d _ l tabs s2 l2 tabs2 (λ _, None) 0 v 7 Hg eq_refl) as (Hpool & _ & Hown).
  destruct Hr as [[-> Hsp2]|(-> & -> & _)].
  - wp_step. change (Z.lor 6 PTE_P) with 7 in Hsp2.
    destruct (uread_write s2 l2 d tabs2 _ 0 v 7 0 init Hsp2) as [Hsp3 Hread]; [by rewrite upd_tab_same | done | lia|].
    rewrite !Z.add_0_r in *. pose proof Hsp2 as ((_ & Hrep2 & _) & _ & Hsep). destruct (Hsep 0 v 7 ltac:(by rewrite upd_tab_same)) as [_ Hvo]. split.
    + apply (evolves_trans _ s s2); [eapply evolves_mono; [|exact Hev]; intros q [->|[?|?]%Hown]; [left; by left | by right | left; by right]|].
      split; [done|]. apply (same_off_page _ v); [left; by left|]. intros x Hx. apply write_bytes_outside. lia.
    + exists v, l2, tabs2. split; [exact Hsp3|]. split; [exact Hpool|]. split.
      * intros va Hva. rewrite <- (Hk va Hva).
        apply (pt_rep_off (λ q, q = v) (kmemory s2) _ d tabs2 Hrep2); [|by intros q -> | by intros q Hq ->].
        apply (same_off_page _ v); [done|]. intros x Hx. apply write_bytes_outside. lia.
      * intros x Hx. etransitivity; [apply Hread|]. range_cases.
        -- rewrite Z.sub_0_r. destruct (lookup_lt_is_Some_2 init (Z.to_nat x)) as [b ->]; [lia | done].
        -- unfold uread. rewrite Z.div_small, upd_tab_same, Z.mod_small by done. rewrite Hz by (unfold in_page; lia). rewrite memset_fill by done.
           range_cases; [|lia]. by rewrite lookup_ge_None_2 by lia.
  - exfalso. destruct Hsp as ((_ & _ & Hdl) & _). destruct Hg as (_ & _ & new & -> & Ho). rewrite app_nil_r in *. cbn in Hlen.
    cut (length new ≤ 1024)%nat; [lia|]. destruct Hfl1 as (_ & Hnd & _). apply (tables_bound 0 1024 new tabs2 Hnd). intros p Hp.
    destruct (proj2 (Ho p) (or_intror Hp)) as [->|(i & Hi & Ht)]; [|by exists i]. destruct (Hdl d); [by left | by right].
Qed.

(** What [copyout] has done when it has copied the first [k] bytes. *)
Definition copied_out (m : mem) (um : Z → option (Z * Z)) (va : Z) (buf : list Z) (k : Z) (m' : mem) : Prop :=
  ∀ x, uread m' um x = if in_range va k x then buf !! Z.to_nat (x - va) else uread m um x.

Lemma copied_out_app m um va buf m1 m2 (n k : Z) :
  0 ≤ n ≤ length buf → 0 ≤ k →
  copied_out m um va (take (Z.to_nat n) buf) n m1 → copied_out m1 um (va + n) (drop (Z.to_nat n) buf) k m2 →
  copied_out m um va buf (n + k) m2.
Proof using.
  intros Hn Hk H1 H2 x. rewrite H2, H1. range_cases; try lia; try done.
  - rewrite lookup_drop. f_equal. lia.
  - rewrite lookup_take_lt by lia. done.
Qed.

(** The pages of the program. *)
Definition user_page (um : Z → option (Z * Z)) (p : Z) : Prop := ∃ n f, um n = Some (p, f).

Lemma copyout_loop_spec d tabs um (fuel : nat) : ∀ s l va buf,
  space s l d tabs um → (length buf ≤ fuel)%nat → 0 ≤ va → va + length buf ≤ KERNBASE →
  (∀ n, 0 ≤ n → va / PGSIZE ≤ n → n * PGSIZE < va + length buf → tabs (PDX (n * PGSIZE)) ≠ None) →
  wp (copyout_loop fuel d va buf) s (λ r s' _, space s' l d tabs um ∧ evolves (user_page um) s s' ∧ ∃ k, 0 ≤ k ≤ length buf ∧
    copied_out (kmemory s) um va buf k (kmemory s') ∧ (∀ x, va ≤ x < va + k → accessible um (x / PGSIZE) = true) ∧
    ((r = 0 ∧ k = length buf) ∨ (r = -1 ∧ k < length buf ∧ accessible um ((va + k) / PGSIZE) = false))).
Proof using kend_high.
  induction fuel as [|fuel IH]; intros s l va buf Hsp Hfuel Hva Hend Htabs; (destruct buf as [|b buf];
    [cbn [copyout_loop]; apply wp_ret; split; [done|]; split; [done|]; exists 0; split_and!; [done | done | | | by left];
     [intros x; range_cases; [lia | done] | intros; lia]|]); [simpl in Hfuel; lia|].
  cbn [copyout_loop]. set (bs := b :: buf) in *. assert (0 < length bs) as Hpos by (simpl; lia).
  assert (PGROUNDDOWN va = va / PGSIZE * PGSIZE) as Hva0.
  { rewrite PGROUNDDOWN_eq. pose proof (Z.div_mod va PGSIZE ltac:(done)). lia. }
  rewrite Hva0. set (n := va / PGSIZE) in *. pose proof (Z.mod_pos_bound va PGSIZE ltac:(done)) as Hmod.
  pose proof (Z.div_mod va PGSIZE ltac:(done)) as Hdm. fold n in Hdm.
  assert (0 ≤ n < NUPAGES) as Hn by (change NUPAGES with 524288; unfold KERNBASE, PGSIZE in *; lia).
  destruct (tabs (PDX (n * PGSIZE))) as [t|] eqn:Ht; [|by destruct (Htabs n ltac:(lia) ltac:(lia) ltac:(lia))].
  eapply wp_bind_ok; [by apply (uva2ka_run s l d tabs um n t)|].
  destruct (accessible um n) eqn:Hacc; unfold accessible in Hacc; destruct (um n) as [[p f]|] eqn:Hum; try done.
  2, 3: rewrite Z.eqb_refl; apply wp_ret; split; [done|]; split; [done|]; exists 0; split_and!; [lia | lia | intros x; range_cases; [lia | done] | intros; lia |];
    right; split_and!; [done | lia | rewrite Z.add_0_r; fold n; unfold accessible; by rewrite Hum].
  assert (page_ok kend p) as Hp by (eapply pool_ok; [done | right; right; eauto]).
  pose proof (page_ok_range kend kend_high p Hp) as Hpr. rewrite (proj2 (Z.eqb_neq p 0)) by lia.
  set (k := Z.min (PGSIZE - (va - n * PGSIZE)) (length bs)). assert (0 < k ≤ length bs) as Hk by (unfold k; lia).
  assert (Z.of_nat (length (take (Z.to_nat k) bs)) = k) as Hlen by (rewrite length_take; lia).
  assert (∀ x, va ≤ x < va + k → accessible um (x / PGSIZE) = true) as Hpage.
  { intros x Hx. assert (x / PGSIZE = n) as -> by (unfold k, PGSIZE in *; Z.div_mod_to_equations; lia). unfold accessible. by rewrite Hum. }
  do 2 wp_step. destruct (uread_write s l d tabs um n p f (va - n * PGSIZE) (take (Z.to_nat k) bs)) as [Hsp1 Hr1]; [done | done | lia | lia |].
  change (mk_kmem (use_lock s) (freelist s) ?m) with (set_mem m s). set (s1 := set_mem _ s) in *.
  assert (evolves (user_page um) s s1) as Hev1.
  { split; [done|]. apply (same_off_page _ p); [by exists n, f|]. intros x Hx. apply write_bytes_outside. rewrite Hlen. lia. }
  rewrite Hlen in Hr1. replace (n * PGSIZE + (va - n * PGSIZE)) with va in Hr1 by lia.
  destruct (decide (k = length bs)) as [Hall|Hpart].
  - rewrite (drop_ge bs) by lia. replace (copyout_loop fuel d _ []) with (mret 0 : K Z) by (by destruct fuel). apply wp_ret.
    split; [done|]. split; [done|]. exists k. split_and!; [lia | lia | | done | by left]. intros x. rewrite Hr1. by rewrite take_ge by lia.
  - assert (k = PGSIZE - (va - n * PGSIZE)) as Hkp by (unfold k in *; lia). pose proof (length_drop bs (Z.to_nat k)) as Hld.
    replace (u32 (n * PGSIZE + PGSIZE)) with (va + k) by (rewrite u32_small; unfold PGSIZE, KERNBASE in *; lia).
    eapply wp_mono; [apply (IH s1 l (va + k) (drop (Z.to_nat k) bs) Hsp1); [lia | lia | lia |]|].
    + intros n' Hn' Hle Hlt. apply Htabs; [done | | lia]. enough (n ≤ (va + k) / PGSIZE) by lia.
      unfold PGSIZE in *. Z.div_mod_to_equations. lia.
    + intros r s2 t2 (Hsp2 & Hev2 & k2 & Hk2 & Hc2 & Ha2 & Hr2). split; [done|]. split; [by eapply evolves_trans|]. exists (k + k2). split_and!; [lia | lia | | |].
      * eapply copied_out_app; [lia | lia | exact Hr1 | exact Hc2].
      * intros x Hx. destruct (decide (x < va + k)); [apply Hpage | apply Ha2]; lia.
      * destruct Hr2 as [[-> ->]|(-> & Hlt & Ha)]; [left; lia | right]. rewrite (Z.add_assoc va). split_and!; [done | lia | done].
Qed.

(** [copyout] writes the buffer into the program's memory at [va], as the
    program reads it, and returns 0; at the first page that is not mapped for
    the user it stops and returns -1, having written exactly the bytes before
    that page, all of them in pages mapped for the user. Nothing else the program
    can read changes. *)
Theorem copyout_correct s l d tabs um va buf :
  space s l d tabs um → 0 ≤ va → va + length buf ≤ KERNBASE →
  (∀ n, 0 ≤ n → va / PGSIZE ≤ n → n * PGSIZE < va + length buf → tabs (PDX (n * PGSIZE)) ≠ None) →
  wp (copyout d va buf) s (λ r s' _, space s' l d tabs um ∧ ∃ k, 0 ≤ k ≤ length buf ∧
    copied_out (kmemory s) um va buf k (kmemory s') ∧ (∀ x, va ≤ x < va + k → accessible um (x / PGSIZE) = true) ∧
    ((r = 0 ∧ k = length buf) ∨ (r = -1 ∧ k < length buf ∧ accessible um ((va + k) / PGSIZE) = false))).
Proof using kend_high.
  intros Hsp Hva Hend Ht. eapply wp_mono; [by apply copyout_loop_spec|]. intros r s' _ (? & _ & ?). done.
Qed.

Lemma copyout_no_table s l d tabs um va b buf :
  space s l d tabs um → tabs (PDX (PGROUNDDOWN va)) = None →
  crashes (copyout d va (b :: buf)) s (Undefined "null pte").
Proof using kend_high.
  intros ((_ & Hrep & _) & _) Ht. unfold copyout. cbn [copyout_loop length]. exists [].
  unfold uva2ka. mrun. rewrite (walk_lookup s d tabs), Ht by done. done.
Qed.

(** where the page directory has no page table for the address, [uva2ka],
    and with it [copyout], reads the entry through a null pointer. *)
Theorem uva2ka_no_table s l d tabs um va b buf :
  space s l d tabs um → tabs (PDX (PGROUNDDOWN va)) = None →
  crashes (copyout d va (b :: buf)) s (Undefined "null pte").
Proof using kend_high. apply copyout_no_table. Qed.

End vm.

(** ** An address space of one page *)

Definition kdata0 : Z := KERNBASE + 0x108000.
Definition pd0 : Z := kend0 + 2 * PGSIZE.
Definition page0 : Z := kend0 + 3 * PGSIZE.

Lemma empty_space : space kend0 two_pages [kend0 + PGSIZE; kend0] pd0 (λ _, None) (λ _, None).
Proof.
  apply zero_page_space; [apply two_pages_free | by vm_compute | | ].
  - rewrite !not_elem_of_cons. split_and!; [done | done | apply not_elem_of_nil].
  - intros x Hx. unfold two_pages. simpl. rewrite store32_outside; [done|]. unfold in_page, pd0, PGSIZE in Hx. unfold PGSIZE. lia.
Qed.

Lemma page0_not_free : page0 ∉ [kend0 + PGSIZE; kend0].
Proof. rewrite !not_elem_of_cons. split_and!; [done | done | apply not_elem_of_nil]. Qed.

Lemma page0_not_owned : ¬ owns pd0 (λ _, None) page0.
Proof. intros [H|(i & _ & H)]; [by vm_compute in H | done]. Qed.

Lemma one_page_space : ∃ s l tabs um f,
  space kend0 s l pd0 tabs um ∧ um 0 = Some (page0, f) ∧ truth (Z.land f PTE_U) = true ∧ above_free um 1.
Proof.
  destruct (proj1 (wp_Ok _ _ _) (map_page kend0 ltac:(done) two_pages _ pd0 _ _ 0 page0 6 empty_space ltac:(done) eq_refl
    ltac:(by vm_compute) page0_not_free page0_not_owned ltac:(done) ltac:(done)))
    as (r & s & tr & Hrun & l & tabs & _ & _ & [[-> Hsp]|(-> & _ & _)]).
  - exists s, l, tabs, (upd_tab (λ _, None) 0 (Some (page0, 7))), 7. split_and!; [done | done | done|].
    intros n Hn. by rewrite upd_tab_other by lia.
  - exfalso. assert (match mappages pd0 (0 * PGSIZE) PGSIZE (V2P page0) 6 two_pages with Ok r _ _ => r | _ => 0 end = 0) as H by (by vm_compute).
    by rewrite Hrun in H.
Qed.

Lemma allocuvm_correct_witness : ∃ s l tabs um,
  wp (allocuvm kend0 pd0 PGSIZE (3 * PGSIZE)) s (λ r s' _, ∃ l' tabs' um',
    space kend0 s' l' pd0 tabs' um' ∧ (∀ p, pool l' pd0 tabs' um' p ↔ pool l pd0 tabs um p) ∧
    (∀ va, 0 ≤ va < PGSIZE → uread (kmemory s') um' va = uread (kmemory s) um va) ∧
    ((r = 3 * PGSIZE ∧ alloc_done (PGROUNDUP PGSIZE / PGSIZE) (3 * PGSIZE) l um um' (kmemory s')) ∨ (r = 0 ∧ ∀ n, um' n = um n))).
Proof.
  destruct one_page_space as (s & l & tabs & um & f & Hsp & _ & _ & Hfree). exists s, l, tabs, um.
  apply (allocuvm_correct kend0); done.
Defined.

Lemma copyuvm_correct_witness : ∃ s (l : list Z) ptabs pum,
  wp (copyuvm kend0 kdata0 pd0 PGSIZE) s (λ r s' _, ∃ l' : list Z,
    space kend0 s' l' pd0 ptabs pum ∧ (∀ va, uread (kmemory s') pum va = uread (kmemory s) pum va) ∧
    ((r = 0 ∧ ∀ p, p ∈ l' ↔ p ∈ l) ∨
     (∃ tabs um, space kend0 s' l' r tabs um ∧ (∀ p, pool l' r tabs um p ↔ p ∈ l) ∧
        (∀ va, 0 ≤ va < PGSIZE → uread (kmemory s') um va = uread (kmemory s) pum va ∧
           snd <$> um (va / PGSIZE) = snd <$> pum (va / PGSIZE)) ∧
        (∀ n, PGSIZE ≤ n * PGSIZE → um n = None) ∧
        ∀ va, KERNBASE ≤ va < 2 ^ 32 → pte (kmemory s') tabs va = default 0 (kent (kmap kdata0) va)))).
Proof.
  destruct one_page_space as (s & l & tabs & um & f & Hsp & H0 & _). exists s, l, tabs, um.
  apply (copyuvm_correct kend0 kdata0); [done | by vm_compute | done | done |].
  intros n Hn Hlt. assert (n = 0) as -> by (unfold PGSIZE in *; lia). by rewrite H0.
Defined.

Lemma copyout_correct_witness : ∃ s l tabs um,
  wp (copyout pd0 4090 [1; 2; 3]) s (λ r s' _, space kend0 s' l pd0 tabs um ∧ ∃ k, 0 ≤ k ≤ length [1; 2; 3] ∧
    copied_out (kmemory s) um 4090 [1; 2; 3] k (kmemory s') ∧ (∀ x, 4090 ≤ x < 4090 + k → accessible um (x / PGSIZE) = true) ∧
    ((r = 0 ∧ k = length [1; 2; 3]) ∨ (r = -1 ∧ k < length [1; 2; 3] ∧ accessible um ((4090 + k) / PGSIZE) = false))).
Proof.
  destruct one_page_space as (s & l & tabs & um & f & Hsp & H0 & _). exists s, l, tabs, um.
  apply (copyout_correct kend0); [done | done | lia | done |]. intros n Hn _ Hlt. assert (n = 0) as -> by (unfold PGSIZE in *; simpl in *; lia).
  destruct (mapped_table kend0 ltac:(done) s l pd0 tabs um 0 page0 f Hsp H0) as (t & -> & _). done.
Defined.

Lemma uva2ka_no_table_witness : crashes (copyout pd0 4090 [1; 2; 3]) two_pages (Undefined "null pte").
Proof. apply (uva2ka_no_table kend0 ltac:(done) two_pages [kend0 + PGSIZE; kend0] pd0 (λ _, None) (λ _, None)); [apply empty_space | done]. Defined.

End Vm.
