(* ===== verification/Seg.v ===== *)
(** * Segments and gates

    The descriptors of mmu.h as the C bit fields they are, the instructions of
    x86.h that load the descriptor tables, and the code that fills the tables:
    [seginit] and the task state part of [switchuvm] (vm.c), [tvinit] and
    [idtinit] (trap.c). The theorems read the tables back the way the processor
    does. *)

From S2P Require Import Prelude Layout Memory.

Module Seg.

Definition SEG_TSS : Z := 5.
Definition NSEGS : nat := 6.
Definition STA_X : Z := 0x8.
Definition STA_W : Z := 0x2.
Definition STA_R : Z := 0x2.
Definition STS_T32A : Z := 0x9.
Definition STS_IG32 : Z := 0xE.
Definition STS_TG32 : Z := 0xF.
Definition T_SYSCALL : nat := 64.

(** ** Bit fields

    The fields of a C structure of bit fields, the lowest bits first, each with
    its width; a value is cut to its width when it is stored. *)
Fixpoint pack (l : list (Z * Z)) : Z :=
  match l with [] => 0 | (w, v) :: l => v mod 2 ^ w + 2 ^ w * pack l end.

(** The processor's view of the same bits *)
Fixpoint unpack (ws : list Z) (x : Z) : list Z :=
  match ws with [] => [] | w :: ws => x mod 2 ^ w :: unpack ws (x / 2 ^ w) end.

(** ** Descriptors *)

Record segdesc := mk_segdesc {
  lim_15_0 : Z; base_15_0 : Z; base_23_16 : Z; s_type : Z; s_s : Z; s_dpl : Z; s_p : Z;
  lim_19_16 : Z; avl : Z; s_rsv1 : Z; db : Z; g : Z; base_31_24 : Z;
}.

Definition seg_widths : list Z := [16; 16; 8; 4; 1; 2; 1; 4; 1; 1; 1; 1; 8].
Definition seg_fields (d : segdesc) : list Z :=
  [lim_15_0 d; base_15_0 d; base_23_16 d; s_type d; s_s d; s_dpl d; s_p d; lim_19_16 d; avl d; s_rsv1 d; db d; g d; base_31_24 d].
Definition seg_word (d : segdesc) : Z := pack (zip seg_widths (seg_fields d)).

Definition SEG (type base lim dpl : Z) : segdesc :=
  mk_segdesc (Z.land (Z.shiftr lim 12) 0xffff) (Z.land base 0xffff) (Z.land (Z.shiftr base 16) 0xff) type 1 dpl 1
    (Z.shiftr lim 28) 0 0 1 1 (Z.shiftr base 24).
Definition SEG16 (type base lim dpl : Z) : segdesc :=
  mk_segdesc (Z.land lim 0xffff) (Z.land base 0xffff) (Z.land (Z.shiftr base 16) 0xff) type 1 dpl 1
    (Z.shiftr lim 16) 0 0 1 0 (Z.shiftr base 24).

Definition set_s (x : Z) (d : segdesc) : segdesc :=
  mk_segdesc (lim_15_0 d) (base_15_0 d) (base_23_16 d) (s_type d) x (s_dpl d) (s_p d) (lim_19_16 d) (avl d) (s_rsv1 d) (db d) (g d) (base_31_24 d).

Record gatedesc := mk_gatedesc {
  off_15_0 : Z; g_cs : Z; args : Z; g_rsv1 : Z; g_type : Z; g_s : Z; g_dpl : Z; g_p : Z; off_31_16 : Z;
}.

Definition gate_widths : list Z := [16; 16; 5; 3; 4; 1; 2; 1; 16].
Definition gate_fields (d : gatedesc) : list Z :=
  [off_15_0 d; g_cs d; args d; g_rsv1 d; g_type d; g_s d; g_dpl d; g_p d; off_31_16 d].
Definition gate_word (d : gatedesc) : Z := pack (zip gate_widths (gate_fields d)).

Definition SETGATE (istrap : bool) (sel off d : Z) : gatedesc :=
  mk_gatedesc (Z.land off 0xffff) sel 0 0 (if istrap then STS_TG32 else STS_IG32) 0 d 1 (Z.shiftr off 16).

(** ** The tables of a CPU *)

(** The layout of [struct taskstate]: its fields with their sizes *)
Definition ts_layout : list (string * Z) :=
  [("link", 4); ("esp0", 4); ("ss0", 2); ("padding1", 2); ("esp1", 4); ("ss1", 2); ("padding2", 2); ("esp2", 4); ("ss2", 2); ("padding3", 2);
   ("cr3", 4); ("eip", 4); ("eflags", 4); ("eax", 4); ("ecx", 4); ("edx", 4); ("ebx", 4); ("esp", 4); ("ebp", 4); ("esi", 4); ("edi", 4);
   ("es", 2); ("padding4", 2); ("cs", 2); ("padding5", 2); ("ss", 2); ("padding6", 2); ("ds", 2); ("padding7", 2); ("fs", 2); ("padding8", 2);
   ("gs", 2); ("padding9", 2); ("ldt", 2); ("padding10", 2); ("t", 2); ("iomb", 2)].

(** [sizeof(struct taskstate)] *)
Definition TSSIZE : Z := foldr (λ f n, f.2 + n) 0 ts_layout.

(** The fields the kernel sets *)
Record taskstate := mk_taskstate { esp0 : Z; ss0 : Z; iomb : Z }.

(** The registers that [lgdt], [lidt] and [ltr] load *)
Record tables := mk_tables {
  gdt : list segdesc;
  idt : list gatedesc;
  ts : taskstate;
  gdtr : Z * Z;          (** limit and base *)
  idtr : Z * Z;
  tr : Z;
}.

Definition set_gdt (x : list segdesc) (t : tables) : tables := mk_tables x (idt t) (ts t) (gdtr t) (idtr t) (tr t).
Definition set_idt (x : list gatedesc) (t : tables) : tables := mk_tables (gdt t) x (ts t) (gdtr t) (idtr t) (tr t).
Definition set_ts (x : taskstate) (t : tables) : tables := mk_tables (gdt t) (idt t) x (gdtr t) (idtr t) (tr t).
Definition set_gdtr (x : Z * Z) (t : tables) : tables := mk_tables (gdt t) (idt t) (ts t) x (idtr t) (tr t).
Definition set_idtr (x : Z * Z) (t : tables) : tables := mk_tables (gdt t) (idt t) (ts t) (gdtr t) x (tr t).
Definition set_tr (x : Z) (t : tables) : tables := mk_tables (gdt t) (idt t) (ts t) (gdtr t) (idtr t) x.

(** The array [pd] of x86.h, and what the processor reads from its six bytes *)
Definition pseudo (p size : Z) : list Z := u16 <$> [size - 1; p; Z.shiftr p 16].
Definition descriptor (pd : list Z) : Z * Z :=
  match flat_map le16 pd with
  | [a; b; c; d; e; f] => (a + 2 ^ 8 * b, c + 2 ^ 8 * d + 2 ^ 16 * e + 2 ^ 24 * f)
  | _ => (0, 0)
  end.
Definition lgdt (p size : Z) (t : tables) : tables := set_gdtr (descriptor (pseudo p size)) t.
Definition lidt (p size : Z) (t : tables) : tables := set_idtr (descriptor (pseudo p size)) t.
Definition ltr (sel : Z) (t : tables) : tables := set_tr (u16 sel) t.

Section tables.
(** Where the linker puts the tables and the entry points of vectors.S *)
Context (gdt_addr idt_addr ts_addr : Z) (vectors : nat → Z).

(** vm.c *)
Definition seginit (t : tables) : tables :=
  let t := set_gdt (<[Z.to_nat SEG_KCODE := SEG (Z.lor STA_X STA_R) 0 0xffffffff 0]> (gdt t)) t in
  let t := set_gdt (<[Z.to_nat SEG_KDATA := SEG STA_W 0 0xffffffff 0]> (gdt t)) t in
  let t := set_gdt (<[Z.to_nat SEG_UCODE := SEG (Z.lor STA_X STA_R) 0 0xffffffff DPL_USER]> (gdt t)) t in
  let t := set_gdt (<[Z.to_nat SEG_UDATA := SEG STA_W 0 0xffffffff DPL_USER]> (gdt t)) t in
  lgdt gdt_addr (8 * length (gdt t)) t.


(** The task state that [switchuvm] sets up for a process with the kernel stack
    [kstack] *)
Definition switch_task (kstack : Z) (t : tables) : tables :=
  let t := set_gdt (<[Z.to_nat SEG_TSS := SEG16 STS_T32A ts_addr (TSSIZE - 1) 0]> (gdt t)) t in
  let t := set_gdt (alter (set_s 0) (Z.to_nat SEG_TSS) (gdt t)) t in
  let t := set_ts (mk_taskstate (u32 (kstack + KSTACKSIZE)) (Z.shiftl SEG_KDATA 3) 0xFFFF) t in
  ltr (Z.shiftl SEG_TSS 3) t.

(** trap.c *)
Fixpoint set_gates (n : nat) (l : list gatedesc) : list gatedesc :=
  match n with
  | O => l
  | S n => <[n := SETGATE false (Z.shiftl SEG_KCODE 3) (vectors n) 0]> (set_gates n l)
  end.
Definition tvinit (t : tables) : tables :=
  let t := set_idt (set_gates 256 (idt t)) t in
  set_idt (<[T_SYSCALL := SETGATE true (Z.shiftl SEG_KCODE 3) (vectors T_SYSCALL) DPL_USER]> (idt t)) t.
Definition idtinit (t : tables) : tables := lidt idt_addr (8 * length (idt t)) t.

End tables.

(** ** What the processor makes of a descriptor *)

(** A code or data segment, or a task state segment: base, limit in bytes,
    privilege level and type *)
Record segment := mk_segment { g_base : Z; g_limit : Z; g_level : Z; g_system : bool; g_kind : Z }.
Definition segment_of (x : Z) : option segment :=
  match unpack seg_widths x with
  | [l0; b0; b1; type; s; dpl; p; l1; _; _; _; g; b2] =>
      if p =? 0 then None else
      let lim := l0 + 2 ^ 16 * l1 in
      Some (mk_segment (b0 + 2 ^ 16 * b1 + 2 ^ 24 * b2) (if g =? 0 then lim else lim * 2 ^ 12 + 0xfff) dpl (s =? 0) type)
  | _ => None
  end.

(** A gate: where it leads, the level software needs to use it, and whether it
    turns interrupts off *)
Record gate := mk_gate { e_sel : Z; e_off : Z; e_level : Z; e_masks : bool }.
Definition gate_of (x : Z) : option gate :=
  match unpack gate_widths x with
  | [o0; sel; _; _; type; s; dpl; p; o1] =>
      if negb (p =? 0) && (s =? 0) then
        if type =? STS_IG32 then Some (mk_gate sel (o0 + 2 ^ 16 * o1) dpl true)
        else if type =? STS_TG32 then Some (mk_gate sel (o0 + 2 ^ 16 * o1) dpl false)
        else None
      else None
  | _ => None
  end.

(** The entry of the interrupt table for a vector *)
Definition vector_gate (t : tables) (n : nat) : option gate :=
  if 8 * n + 7 <=? (idtr t).1 then idt t !! n ≫= λ d, gate_of (gate_word d) else None.

(** ** Theorems *)

Lemma unpack_pack ws l : Forall (λ w, 0 ≤ w) ws → length ws = length l →
  unpack ws (pack (zip ws l)) = zip_with (λ w v, v mod 2 ^ w) ws l.
Proof.
  intros Hw. revert l. induction Hw as [|w ws Hw _ IH]; intros [|v l] Hl; try done. cbn [zip zip_with pack unpack] in *.
  assert (0 < 2 ^ w) by (apply Z.pow_pos_nonneg; lia).
  rewrite (Z.mul_comm (2 ^ w)), Z.mod_add, Z.mod_mod, Z.div_add, (Z.div_small (v mod _)) by (lia || apply Z.mod_pos_bound; lia).
  rewrite Z.add_0_l, IH by (cbn in Hl; lia). done.
Qed.

Lemma gate_of_SETGATE istrap sel off d : 0 ≤ sel < 2 ^ 16 → 0 ≤ off < 2 ^ 32 → 0 ≤ d < 4 →
  gate_of (gate_word (SETGATE istrap sel off d)) = Some (mk_gate sel off d (negb istrap)).
Proof.
  intros Hs Ho Hd. unfold gate_of, gate_word. rewrite unpack_pack by (repeat constructor; lia).
  cbn [gate_widths gate_fields zip_with SETGATE off_15_0 g_cs args g_rsv1 g_type g_s g_dpl g_p off_31_16].
  change 0xffff with (Z.ones 16). rewrite Z.land_ones, Z.shiftr_div_pow2, Z.mod_mod by lia.
  rewrite (Z.mod_small sel), (Z.mod_small d), (Z.mod_small (off / _)) by (Z.div_mod_to_equations; lia).
  assert (off mod 2 ^ 16 + 2 ^ 16 * (off / 2 ^ 16) = off) as -> by (Z.div_mod_to_equations; lia).
  by destruct istrap.
Qed.

Lemma segment_of_word d : segment_of (seg_word d) =
  match zip_with (λ w v, v mod 2 ^ w) seg_widths (seg_fields d) with
  | [l0; b0; b1; type; s; dpl; p; l1; _; _; _; g; b2] =>
      if p =? 0 then None else
      let lim := l0 + 2 ^ 16 * l1 in
      Some (mk_segment (b0 + 2 ^ 16 * b1 + 2 ^ 24 * b2) (if g =? 0 then lim else lim * 2 ^ 12 + 0xfff) dpl (s =? 0) type)
  | _ => None
  end.
Proof. unfold segment_of, seg_word. by rewrite unpack_pack by (repeat constructor; lia). Qed.

Lemma base_parts b : 0 ≤ b < 2 ^ 32 →
  Z.land b 0xffff mod 2 ^ 16 + 2 ^ 16 * (Z.land (Z.shiftr b 16) 0xff mod 2 ^ 8) + 2 ^ 24 * (Z.shiftr b 24 mod 2 ^ 8) = b.
Proof.
  intros Hb. change 0xffff with (Z.ones 16). change 0xff with (Z.ones 8).
  rewrite !Z.land_ones, !Z.shiftr_div_pow2, !Z.mod_mod by lia.
  change (2 ^ 16) with 65536. change (2 ^ 24) with 16777216. change (2 ^ 8) with 256. change (2 ^ 32) with 4294967296 in Hb.
  Z.div_mod_to_equations. lia.
Qed.

(** A segment with a limit in pages *)
Lemma segment_of_SEG type base lim dpl : 0 ≤ type < 16 → 0 ≤ base < 2 ^ 32 → 0 ≤ lim < 2 ^ 32 → 0 ≤ dpl < 4 →
  segment_of (seg_word (SEG type base lim dpl)) = Some (mk_segment base (lim / 2 ^ 12 * 2 ^ 12 + 0xfff) dpl false type).
Proof.
  intros Ht Hb Hl Hd. rewrite segment_of_word. cbn [seg_widths seg_fields zip_with SEG lim_15_0 base_15_0 base_23_16 s_type s_s s_dpl
    s_p lim_19_16 avl s_rsv1 db g base_31_24]. rewrite base_parts by done.
  rewrite (Z.mod_small type), (Z.mod_small dpl) by lia. cbn [Z.eqb Z.modulo]. do 3 f_equal.
  change 0xffff with (Z.ones 16). rewrite Z.land_ones, !Z.shiftr_div_pow2 by lia.
  change (2 ^ 16) with 65536. change (2 ^ 12) with 4096. change (2 ^ 28) with 268435456. change (2 ^ 4) with 16.
  change (2 ^ 32) with 4294967296 in Hl. change (1 mod 2 ^ 1 =? 0) with false. cbv iota. Z.div_mod_to_equations. lia.
Qed.

(** A task state segment, with a limit in bytes *)
Lemma segment_of_task type base lim : 0 ≤ type < 16 → 0 ≤ base < 2 ^ 32 → 0 ≤ lim < 2 ^ 20 →
  segment_of (seg_word (set_s 0 (SEG16 type base lim 0))) = Some (mk_segment base lim 0 true type).
Proof.
  intros Ht Hb Hl. rewrite segment_of_word. cbn [seg_widths seg_fields zip_with set_s SEG16 lim_15_0 base_15_0 base_23_16 s_type s_s s_dpl
    s_p lim_19_16 avl s_rsv1 db g base_31_24]. rewrite base_parts by done.
  rewrite (Z.mod_small type) by lia. cbn [Z.eqb Z.modulo]. do 3 f_equal.
  change 0xffff with (Z.ones 16). rewrite Z.land_ones, !Z.shiftr_div_pow2 by lia.
  change (2 ^ 16) with 65536. change (2 ^ 4) with 16. change (2 ^ 20) with 1048576 in Hl. change (0 mod 2 ^ 1 =? 0) with true. cbv iota. Z.div_mod_to_equations. lia.
Qed.

Lemma descriptor_pseudo p size : 0 ≤ p < 2 ^ 32 → 0 < size ≤ 2 ^ 16 → descriptor (pseudo p size) = (size - 1, p).
Proof.
  intros Hp Hs. unfold descriptor, pseudo, u16. cbn [fmap list_fmap flat_map app le16]. rewrite !byte_of_div by lia.
  rewrite Z.shiftr_div_pow2 by lia. change (2 ^ (8 * 0)) with 1. change (2 ^ (8 * 1)) with 256. change (2 ^ 8) with 256.
  change (2 ^ 16) with 65536 in *. change (2 ^ 24) with 16777216. change (2 ^ 32) with 4294967296 in Hp.
  f_equal; Z.div_mod_to_equations; lia.
Qed.

Lemma set_gates_length vectors n l : length (set_gates vectors n l) = length l.
Proof. induction n; cbn [set_gates]; by rewrite ?length_insert. Qed.

Lemma set_gates_lookup vectors n i l : (n ≤ length l)%nat → (i < n)%nat →
  set_gates vectors n l !! i = Some (SETGATE false (Z.shiftl SEG_KCODE 3) (vectors i) 0).
Proof.
  revert i. induction n as [|n IH]; intros i Hn Hi; [lia|]. cbn [set_gates].
  destruct (decide (i = n)) as [->|]; [apply list_lookup_insert_eq; rewrite set_gates_length; lia|].
  rewrite list_lookup_insert_ne by done. apply IH; lia.
Qed.

(** The interrupt table that tvinit fills and idtinit loads, read back by the
    processor: all 256 vectors, and no others, have a gate into the kernel's code
    at their own entry point; only the gate of system calls is open to user
    code, and only it leaves interrupts on. *)
Theorem tvinit_gates idt_addr vectors t : length (idt t) = 256%nat → 0 ≤ idt_addr < 2 ^ 32 →
  (∀ n, 0 ≤ vectors n < 2 ^ 32) →
  let t' := idtinit idt_addr (tvinit vectors t) in
  (idtr t').2 = idt_addr ∧
  ∀ n, vector_gate t' n = if decide (n < 256)%nat
    then Some (mk_gate (8 * SEG_KCODE) (vectors n) (if decide (n = T_SYSCALL) then DPL_USER else 0) (bool_decide (n ≠ T_SYSCALL)))
    else None.
Proof.
  intros Hlen Ha Hv. cbv zeta.
  assert (idtr (idtinit idt_addr (tvinit vectors t)) = (2047, idt_addr)) as E.
  { unfold idtinit, lidt; cbn [idtr set_idtr idt set_idt tvinit]. rewrite length_insert, set_gates_length, Hlen. by apply descriptor_pseudo. }
  split; [by rewrite E|]. intros n. unfold vector_gate. rewrite E. cbn [fst]. case_decide as Hn.
  - rewrite (proj2 (Z.leb_le _ _)) by lia. cbn [idtinit lidt set_idtr idt set_idt tvinit].
    destruct (decide (n = T_SYSCALL)) as [->|Hne].
    + rewrite list_lookup_insert_eq by (rewrite set_gates_length; unfold T_SYSCALL; lia). cbn [mbind option_bind].
      by rewrite gate_of_SETGATE by (done || apply Hv).
    + rewrite list_lookup_insert_ne, set_gates_lookup by (done || lia). cbn [mbind option_bind].
      rewrite gate_of_SETGATE by (done || apply Hv). by rewrite bool_decide_true.
  - by rewrite (proj2 (Z.leb_gt _ _)) by lia.
Qed.

Definition ex_tables : tables :=
  mk_tables (replicate 6 (SEG 0 0 0 0)) (replicate 256 (SETGATE false 0 0 0)) (mk_taskstate 0 0 0) (0, 0) (0, 0) 0.

(** Where a field lies, as the processor finds it *)
Fixpoint offset_in (l : list (string * Z)) (name : string) : option Z :=
  match l with [] => None | (f, n) :: l => if decide (f = name) then Some 0 else Z.add n <$> offset_in l name end.

Lemma ts_offsets : TSSIZE = 104 ∧ offset_in ts_layout "esp0" = Some 4 ∧ offset_in ts_layout "ss0" = Some 8 ∧ offset_in ts_layout "iomb" = Some 102.
Proof. by vm_compute. Qed.

(** The segment with a selector's index *)
Definition selected (t : tables) (i : Z) : option segment := gdt t !! Z.to_nat i ≫= λ d, segment_of (seg_word d).

(** The segments of seginit: the kernel and user code and data segments all
    cover the whole address space, at their level; switchuvm's task state segment is
    for the kernel's use alone and leads to the process's kernel stack. *)
Theorem segments_correct gdt_addr ts_addr kstack t : length (gdt t) = NSEGS → 0 ≤ gdt_addr < 2 ^ 32 → 0 ≤ ts_addr < 2 ^ 32 →
  0 ≤ kstack < 2 ^ 32 - KSTACKSIZE →
  let t' := switch_task ts_addr kstack (seginit gdt_addr t) in
  gdtr t' = (8 * NSEGS - 1, gdt_addr) ∧
  selected t' SEG_KCODE = Some (mk_segment 0 0xffffffff 0 false (Z.lor STA_X STA_R)) ∧
  selected t' SEG_KDATA = Some (mk_segment 0 0xffffffff 0 false STA_W) ∧
  selected t' SEG_UCODE = Some (mk_segment 0 0xffffffff 3 false (Z.lor STA_X STA_R)) ∧
  selected t' SEG_UDATA = Some (mk_segment 0 0xffffffff 3 false STA_W) ∧
  selected t' (tr t' / 8) = Some (mk_segment ts_addr (TSSIZE - 1) 0 true STS_T32A) ∧
  esp0 (ts t') = kstack + KSTACKSIZE ∧ ss0 (ts t') = 8 * SEG_KDATA ∧ TSSIZE ≤ iomb (ts t').
Proof.
  intros Hlen Hg Ht Hk. cbv zeta. destruct t as [gd id ts0 gr ir tr0]. cbn [gdt] in Hlen. unfold NSEGS in Hlen.
  do 6 (destruct gd as [|? gd]; [done|]). destruct gd; [|done]. unfold KSTACKSIZE in Hk.
  cbn [switch_task seginit lgdt ltr set_gdt set_gdtr set_ts set_tr gdt gdtr tr ts esp0 ss0 iomb]. split_and!.
  - by apply descriptor_pseudo.
  - reflexivity.
  - reflexivity.
  - reflexivity.
  - reflexivity.
  - exact (segment_of_task STS_T32A ts_addr (TSSIZE - 1) ltac:(done) Ht ltac:(done)).
  - apply u32_small. unfold KSTACKSIZE. lia.
  - done.
  - done.
Qed.

End Seg.
