(* ===== verification/Proc.v ===== *)
(** * proc.h: the process table and what it stands on

    [struct proc] with its trap frame and kernel context, the process table,
    and the interfaces through which the process code uses user memory
    ([UserMem]) and the memory and file system components ([ProcEnv]). The
    operations of proc.c are in Signal.v and Sched.v. *)

From S2P Require Import Prelude Layout Memory.

(** ** Interfaces *)

(** User memory seen through the page table in use: bytes that may be
    unmapped. Loads and stores fail together; as long as the page table is in
    order ([user_ok]) a store changes one byte and nothing of the page table. *)
Class UserMem (E : Type) := {
  user_ok : E → Prop;
  load8 : E → Z → option Z;
  store8 : E → Z → Z → option E;
  store8_mapped : ∀ e a v, is_Some (store8 e a v) ↔ is_Some (load8 e a);
  load8_store8 : ∀ e a v e', user_ok e → store8 e a v = Some e' →
    user_ok e' ∧ ∀ b, load8 e' b = if decide (b = a) then Some v else load8 e b;
}.

(** The operations of kalloc.c, vm.c, file.c, fs.c and log.c that proc.c calls.
    Pointers to page tables and pages are addresses (0 on failure); files and
    inodes are indices in their tables. *)
Class ProcEnv (E : Type) := {
  env_kalloc : M E Z;
  env_kfree : Z → M E unit;
  env_setupkvm : M E Z;
  env_inituvm : Z → M E unit;
  env_allocuvm : Z → Z → Z → M E Z;
  env_deallocuvm : Z → Z → Z → M E Z;
  env_copyuvm : Z → Z → M E Z;
  env_freevm : Z → M E unit;
  env_lcr3 : Z → M E unit;
  env_switchkvm : M E unit;
  env_filedup : nat → M E unit;
  env_fileclose : nat → M E unit;
  env_idup : nat → M E unit;
  env_iput : nat → M E unit;
  env_namei_root : M E (option nat);
  env_begin_op : M E unit;
  env_end_op : M E unit;
  env_iinit : M E unit;
  env_initlog : M E unit;
  (** these operations use the pid, working directory and [killed] of [myproc()] *)
  env_as : Z → option nat → Z → E → E;
}.

Module Proc.

Inductive procstate := UNUSED | EMBRYO | SLEEPING | RUNNABLE | RUNNING | ZOMBIE.

#[global] Instance procstate_eq_dec : EqDecision procstate.
Proof. solve_decision. Defined.

(** [struct trapframe] (x86.h) as its 19 words: a segment register shares its
    word with its padding. *)
Record trapframe := mk_tf {
  edi : Z; esi : Z; ebp : Z; oesp : Z; ebx : Z; edx : Z; ecx : Z; eax : Z;
  gs : Z; fs : Z; es : Z; ds : Z; trapno : Z;
  err : Z; eip : Z; cs : Z; eflags : Z;
  esp : Z; ss : Z;
}.

Definition tf_words (t : trapframe) : list Z :=
  [edi t; esi t; ebp t; oesp t; ebx t; edx t; ecx t; eax t; gs t; fs t; es t; ds t;
   trapno t; err t; eip t; cs t; eflags t; esp t; ss t].

Definition words_tf (l : list Z) : trapframe :=
  let w i := default 0 (l !! i) in
  mk_tf (w 0%nat) (w 1%nat) (w 2%nat) (w 3%nat) (w 4%nat) (w 5%nat) (w 6%nat) (w 7%nat)
        (w 8%nat) (w 9%nat) (w 10%nat) (w 11%nat) (w 12%nat) (w 13%nat) (w 14%nat)
        (w 15%nat) (w 16%nat) (w 17%nat) (w 18%nat).

Definition tf0 : trapframe := words_tf [].

Definition set_eax (x : Z) (t : trapframe) : trapframe :=
  words_tf (<[7%nat := x]> (tf_words t)).
Definition set_eip (x : Z) (t : trapframe) : trapframe :=
  words_tf (<[14%nat := x]> (tf_words t)).
Definition set_esp (x : Z) (t : trapframe) : trapframe :=
  words_tf (<[17%nat := x]> (tf_words t)).

#[global] Arguments set_eax : simpl never.
#[global] Arguments set_eip : simpl never.
#[global] Arguments set_esp : simpl never.

Lemma esp_set_esp x t : esp (set_esp x t) = x.
Proof. done. Qed.
Lemma esp_set_eip x t : esp (set_eip x t) = esp t.
Proof. by destruct t. Qed.
Lemma eip_set_eip x t : eip (set_eip x t) = x.
Proof. done. Qed.
Lemma set_esp_set_esp x y t : set_esp x (set_esp y t) = set_esp x t.
Proof. by destruct t. Qed.
Lemma set_esp_id t : set_esp (esp t) t = t.
Proof. by destruct t. Qed.

(** [sizeof(struct trapframe)] *)
Definition TFSIZE : Z := 76.

(** The frame as it lies in memory. *)
Definition tf_bytes (t : trapframe) : list Z := flat_map le32 (tf_words t).
Definition bytes_tf (l : list Z) : trapframe := words_tf (word_at l <$> seq 0 19).

(** [struct context]; [sizeof] is 20. *)
Record context := mk_ctx { c_edi : Z; c_esi : Z; c_ebx : Z; c_ebp : Z; c_eip : Z }.
Definition ctx0 : context := mk_ctx 0 0 0 0 0.

(** [struct proc] *)
Record proc := mk_proc {
  sz : Z;   (** size of process memory (bytes) *)
  pgdir : Z;   (** page table *)
  kstack : Z;   (** bottom of the kernel stack *)
  state : procstate;
  pid : Z;
  parent : option nat;   (** index of the parent in the table *)
  tf_ptr : Z;   (** [p->tf] *)
  tf : trapframe;   (** [*p->tf] *)
  ctx_ptr : Z;   (** [p->context] *)
  ctx : context;   (** [*p->context] *)
  ret_slot : Z;   (** the word above the context: where [forkret] returns *)
  chan_of : option chan;   (** sleep channel, [None] when 0 *)
  killed : Z;
  ofile : list (option nat);   (** open files: indices in the file table *)
  cwd : option nat;   (** current directory: index in the inode cache *)
  name : list Z;   (** [char name[16]] *)
  pending_signals : Z;
  signal_mask : Z;
  signal_handlers : list Z;   (** the 32 handler pointers *)
  user_trap_fram_backup : Z;   (** user address of the saved frame *)
  freeze : Z;
  old_signal_mask : Z;
}.

Definition set_sz (x : Z) (p : proc) : proc :=
  mk_proc x (pgdir p) (kstack p) (state p) (pid p) (parent p) (tf_ptr p) (tf p) (ctx_ptr p) (ctx p) (ret_slot p) (chan_of p) (killed p) (ofile p) (cwd p) (name p) (pending_signals p) (signal_mask p) (signal_handlers p) (user_trap_fram_backup p) (freeze p) (old_signal_mask p).
Definition set_pgdir (x : Z) (p : proc) : proc :=
  mk_proc (sz p) x (kstack p) (state p) (pid p) (parent p) (tf_ptr p) (tf p) (ctx_ptr p) (ctx p) (ret_slot p) (chan_of p) (killed p) (ofile p) (cwd p) (name p) (pending_signals p) (signal_mask p) (signal_handlers p) (user_trap_fram_backup p) (freeze p) (old_signal_mask p).
Definition set_kstack (x : Z) (p : proc) : proc :=
  mk_proc (sz p) (pgdir p) x (state p) (pid p) (parent p) (tf_ptr p) (tf p) (ctx_ptr p) (ctx p) (ret_slot p) (chan_of p) (killed p) (ofile p) (cwd p) (name p) (pending_signals p) (signal_mask p) (signal_handlers p) (user_trap_fram_backup p) (freeze p) (old_signal_mask p).
Definition set_state (x : procstate) (p : proc) : proc :=
  mk_proc (sz p) (pgdir p) (kstack p) x (pid p) (parent p) (tf_ptr p) (tf p) (ctx_ptr p) (ctx p) (ret_slot p) (chan_of p) (killed p) (ofile p) (cwd p) (name p) (pending_signals p) (signal_mask p) (signal_handlers p) (user_trap_fram_backup p) (freeze p) (old_signal_mask p).
Definition set_pid (x : Z) (p : proc) : proc :=
  mk_proc (sz p) (pgdir p) (kstack p) (state p) x (parent p) (tf_ptr p) (tf p) (ctx_ptr p) (ctx p) (ret_slot p) (chan_of p) (killed p) (ofile p) (cwd p) (name p) (pending_signals p) (signal_mask p) (signal_handlers p) (user_trap_fram_backup p) (freeze p) (old_signal_mask p).
Definition set_parent (x : option nat) (p : proc) : proc :=
  mk_proc (sz p) (pgdir p) (kstack p) (state p) (pid p) x (tf_ptr p) (tf p) (ctx_ptr p) (ctx p) (ret_slot p) (chan_of p) (killed p) (ofile p) (cwd p) (name p) (pending_signals p) (signal_mask p) (signal_handlers p) (user_trap_fram_backup p) (freeze p) (old_signal_mask p).
Definition set_tf_ptr (x : Z) (p : proc) : proc :=
  mk_proc (sz p) (pgdir p) (kstack p) (state p) (pid p) (parent p) x (tf p) (ctx_ptr p) (ctx p) (ret_slot p) (chan_of p) (killed p) (ofile p) (cwd p) (name p) (pending_signals p) (signal_mask p) (signal_handlers p) (user_trap_fram_backup p) (freeze p) (old_signal_mask p).
Definition set_tf (x : trapframe) (p : proc) : proc :=
  mk_proc (sz p) (pgdir p) (kstack p) (state p) (pid p) (parent p) (tf_ptr p) x (ctx_ptr p) (ctx p) (ret_slot p) (chan_of p) (killed p) (ofile p) (cwd p) (name p) (pending_signals p) (signal_mask p) (signal_handlers p) (user_trap_fram_backup p) (freeze p) (old_signal_mask p).
Definition set_ctx_ptr (x : Z) (p : proc) : proc :=
  mk_proc (sz p) (pgdir p) (kstack p) (state p) (pid p) (parent p) (tf_ptr p) (tf p) x (ctx p) (ret_slot p) (chan_of p) (killed p) (ofile p) (cwd p) (name p) (pending_signals p) (signal_mask p) (signal_handlers p) (user_trap_fram_backup p) (freeze p) (old_signal_mask p).
Definition set_ctx (x : context) (p : proc) : proc :=
  mk_proc (sz p) (pgdir p) (kstack p) (state p) (pid p) (parent p) (tf_ptr p) (tf p) (ctx_ptr p) x (ret_slot p) (chan_of p) (killed p) (ofile p) (cwd p) (name p) (pending_signals p) (signal_mask p) (signal_handlers p) (user_trap_fram_backup p) (freeze p) (old_signal_mask p).
Definition set_ret_slot (x : Z) (p : proc) : proc :=
  mk_proc (sz p) (pgdir p) (kstack p) (state p) (pid p) (parent p) (tf_ptr p) (tf p) (ctx_ptr p) (ctx p) x (chan_of p) (killed p) (ofile p) (cwd p) (name p) (pending_signals p) (signal_mask p) (signal_handlers p) (user_trap_fram_backup p) (freeze p) (old_signal_mask p).
Definition set_chan_of (x : option chan) (p : proc) : proc :=
  mk_proc (sz p) (pgdir p) (kstack p) (state p) (pid p) (parent p) (tf_ptr p) (tf p) (ctx_ptr p) (ctx p) (ret_slot p) x (killed p) (ofile p) (cwd p) (name p) (pending_signals p) (signal_mask p) (signal_handlers p) (user_trap_fram_backup p) (freeze p) (old_signal_mask p).
Definition set_killed (x : Z) (p : proc) : proc :=
  mk_proc (sz p) (pgdir p) (kstack p) (state p) (pid p) (parent p) (tf_ptr p) (tf p) (ctx_ptr p) (ctx p) (ret_slot p) (chan_of p) x (ofile p) (cwd p) (name p) (pending_signals p) (signal_mask p) (signal_handlers p) (user_trap_fram_backup p) (freeze p) (old_signal_mask p).
Definition set_ofile (x : list (option nat)) (p : proc) : proc :=
  mk_proc (sz p) (pgdir p) (kstack p) (state p) (pid p) (parent p) (tf_ptr p) (tf p) (ctx_ptr p) (ctx p) (ret_slot p) (chan_of p) (killed p) x (cwd p) (name p) (pending_signals p) (signal_mask p) (signal_handlers p) (user_trap_fram_backup p) (freeze p) (old_signal_mask p).
Definition set_cwd (x : option nat) (p : proc) : proc :=
  mk_proc (sz p) (pgdir p) (kstack p) (state p) (pid p) (parent p) (tf_ptr p) (tf p) (ctx_ptr p) (ctx p) (ret_slot p) (chan_of p) (killed p) (ofile p) x (name p) (pending_signals p) (signal_mask p) (signal_handlers p) (user_trap_fram_backup p) (freeze p) (old_signal_mask p).
Definition set_name (x : list Z) (p : proc) : proc :=
  mk_proc (sz p) (pgdir p) (kstack p) (state p) (pid p) (parent p) (tf_ptr p) (tf p) (ctx_ptr p) (ctx p) (ret_slot p) (chan_of p) (killed p) (ofile p) (cwd p) x (pending_signals p) (signal_mask p) (signal_handlers p) (user_trap_fram_backup p) (freeze p) (old_signal_mask p).
Definition set_pending_signals (x : Z) (p : proc) : proc :=
  mk_proc (sz p) (pgdir p) (kstack p) (state p) (pid p) (parent p) (tf_ptr p) (tf p) (ctx_ptr p) (ctx p) (ret_slot p) (chan_of p) (killed p) (ofile p) (cwd p) (name p) x (signal_mask p) (signal_handlers p) (user_trap_fram_backup p) (freeze p) (old_signal_mask p).
Definition set_signal_mask (x : Z) (p : proc) : proc :=
  mk_proc (sz p) (pgdir p) (kstack p) (state p) (pid p) (parent p) (tf_ptr p) (tf p) (ctx_ptr p) (ctx p) (ret_slot p) (chan_of p) (killed p) (ofile p) (cwd p) (name p) (pending_signals p) x (signal_handlers p) (user_trap_fram_backup p) (freeze p) (old_signal_mask p).
Definition set_signal_handlers (x : list Z) (p : proc) : proc :=
  mk_proc (sz p) (pgdir p) (kstack p) (state p) (pid p) (parent p) (tf_ptr p) (tf p) (ctx_ptr p) (ctx p) (ret_slot p) (chan_of p) (killed p) (ofile p) (cwd p) (name p) (pending_signals p) (signal_mask p) x (user_trap_fram_backup p) (freeze p) (old_signal_mask p).
Definition set_user_trap_fram_backup (x : Z) (p : proc) : proc :=
  mk_proc (sz p) (pgdir p) (kstack p) (state p) (pid p) (parent p) (tf_ptr p) (tf p) (ctx_ptr p) (ctx p) (ret_slot p) (chan_of p) (killed p) (ofile p) (cwd p) (name p) (pending_signals p) (signal_mask p) (signal_handlers p) x (freeze p) (old_signal_mask p).
Definition set_freeze (x : Z) (p : proc) : proc :=
  mk_proc (sz p) (pgdir p) (kstack p) (state p) (pid p) (parent p) (tf_ptr p) (tf p) (ctx_ptr p) (ctx p) (ret_slot p) (chan_of p) (killed p) (ofile p) (cwd p) (name p) (pending_signals p) (signal_mask p) (signal_handlers p) (user_trap_fram_backup p) x (old_signal_mask p).
Definition set_old_signal_mask (x : Z) (p : proc) : proc :=
  mk_proc (sz p) (pgdir p) (kstack p) (state p) (pid p) (parent p) (tf_ptr p) (tf p) (ctx_ptr p) (ctx p) (ret_slot p) (chan_of p) (killed p) (ofile p) (cwd p) (name p) (pending_signals p) (signal_mask p) (signal_handlers p) (user_trap_fram_backup p) (freeze p) x.

(** Processes are compared field by field. *)
Lemma proc_ext p q :
  sz p = sz q → pgdir p = pgdir q → kstack p = kstack q → state p = state q → pid p = pid q →
  parent p = parent q → tf_ptr p = tf_ptr q → tf p = tf q → ctx_ptr p = ctx_ptr q → ctx p = ctx q →
  ret_slot p = ret_slot q → chan_of p = chan_of q → killed p = killed q → ofile p = ofile q →
  cwd p = cwd q → name p = name q → pending_signals p = pending_signals q →
  signal_mask p = signal_mask q → signal_handlers p = signal_handlers q →
  user_trap_fram_backup p = user_trap_fram_backup q → freeze p = freeze q →
  old_signal_mask p = old_signal_mask q → p = q.
Proof. destruct p, q. simpl. intros. by subst. Qed.

Ltac proc_eq := apply proc_ext; simpl; try done.

(** A slot of the table before its first use (bss). *)
Definition proc0 : proc :=
  mk_proc 0 0 0 UNUSED 0 None 0 tf0 0 ctx0 0 None 0 (replicate NOFILE None) None
    (replicate 16 0) 0 0 (replicate 32 0) 0 0 0.

(** Byte offsets of fields in [struct proc], for accesses through a null
    pointer. *)
Definition off_state : Z := 12.
Definition off_killed : Z := 36.
Definition off_signal_mask : Z := 128.
Definition off_freeze : Z := 264.

Section pstate.
Context {E : Type}.

Record pstate := mk_pstate {
  procs : list proc;          (** [ptable.proc] *)
  nextpid : Z;
  initproc : option nat;
  cur : option nat;           (** [mycpu()->proc] *)
  first : bool;               (** the static variable of [forkret] *)
  env : E;                    (** memory and file system *)
}.

Definition set_procs (x : list proc) (s : pstate) : pstate :=
  mk_pstate x (nextpid s) (initproc s) (cur s) (first s) (env s).
Definition set_nextpid (x : Z) (s : pstate) : pstate :=
  mk_pstate (procs s) x (initproc s) (cur s) (first s) (env s).
Definition set_initproc (x : option nat) (s : pstate) : pstate :=
  mk_pstate (procs s) (nextpid s) x (cur s) (first s) (env s).
Definition set_cur (x : option nat) (s : pstate) : pstate :=
  mk_pstate (procs s) (nextpid s) (initproc s) x (first s) (env s).
Definition set_first (x : bool) (s : pstate) : pstate :=
  mk_pstate (procs s) (nextpid s) (initproc s) (cur s) x (env s).
Definition set_env (x : E) (s : pstate) : pstate :=
  mk_pstate (procs s) (nextpid s) (initproc s) (cur s) (first s) x.

(** [mycpu()->proc], read between [pushcli] and [popcli]. *)
Definition myproc : M pstate (option nat) := emit ECli ;; gets cur.

(** Follow a process pointer to the field at offset [off]. *)
Definition deref (p : option nat) (off : Z) : M pstate nat :=
  match p with Some i => mret i | None => page_fault off end.

(** [*p] for a pointer into the table. *)
Definition getp (i : nat) : M pstate proc := λ s,
  match procs s !! i with
  | Some p => Ok p s []
  | None => Crashed (Undefined "process pointer") []
  end.

(** [p->field = ...] *)
Definition updp (i : nat) (f : proc → proc) : M pstate unit :=
  modify (λ s, set_procs (alter f i (procs s)) s).

Definition on_env {A} : M E A → M pstate A := zoom env set_env.

(** ** Running the primitives *)

Lemma wp_getp i p s (Q : proc → pstate → list event → Prop) :
  procs s !! i = Some p → Q p s [] → wp (getp i) s Q.
Proof. intros Hp HQ. unfold wp, getp. by rewrite Hp. Qed.

Lemma wp_updp i f s (Q : unit → pstate → list event → Prop) :
  Q () (set_procs (alter f i (procs s)) s) [] → wp (updp i f) s Q.
Proof. done. Qed.

Lemma wp_myproc s (Q : option nat → pstate → list event → Prop) :
  Q (cur s) s [ECli] → wp myproc s Q.
Proof. done. Qed.

Lemma getp_Ok i s p : procs s !! i = Some p → getp i s = Ok p s [].
Proof. intros Hp. unfold getp. by rewrite Hp. Qed.

Lemma getp_inv i s p s' tr : getp i s = Ok p s' tr → procs s !! i = Some p ∧ s' = s ∧ tr = [].
Proof. unfold getp. destruct (procs s !! i); [intros [= <- <- <-] | done]. done. Qed.

End pstate.
Arguments pstate E : clear implicits.

(** Code that uses [myproc()] itself *)
Definition as_me {E A} `{ProcEnv E} : M E A → M (pstate E) A :=
  zoom (λ s, match cur s ≫= (procs s !!.) with Some p => env_as (pid p) (cwd p) (killed p) (env s) | None => env s end) set_env.

(** ** One process of the table at a time *)

Section at_proc.
Context {E : Type}.
Implicit Types s : pstate E.

(** [s] with process [i] replaced by [p] and the environment by [e]. *)
Definition at_proc s (i : nat) (p : proc) (e : E) : pstate E :=
  set_env e (set_procs (<[i := p]> (procs s)) s).

Lemma at_proc_id s i p : procs s !! i = Some p → s = at_proc s i p (env s).
Proof. intros Hi. unfold at_proc. rewrite list_insert_id by done. by destruct s. Qed.

Section wp_at.
Context (s : pstate E) (i : nat) (Hi : (i < length (procs s))%nat).

Lemma wp_updp_at p e f (Q : unit → pstate E → list event → Prop) :
  Q () (at_proc s i (f p) e) [] → wp (updp i f) (at_proc s i p e) Q.
Proof using Hi.
  intros HQ. apply wp_updp. unfold at_proc in *. simpl.
  rewrite alter_insert by done. by unfold set_env, set_procs in *; simpl in *.
Qed.

Lemma wp_getp_at p e (Q : proc → pstate E → list event → Prop) :
  Q p (at_proc s i p e) [] → wp (getp i) (at_proc s i p e) Q.
Proof using Hi. intros HQ. eapply wp_getp; [|done]. by apply list_lookup_insert_eq. Qed.

Lemma wp_env_at {A} (m : M E A) p e (Q : A → pstate E → list event → Prop) :
  wp m e (λ a e' tr, Q a (at_proc s i p e') tr) → wp (on_env m) (at_proc s i p e) Q.
Proof. intros Hm. by apply wp_zoom. Qed.

End wp_at.

Section hoare_at.
Context (C : Prop) (B : pstate E → Prop) (s : pstate E) (i : nat) (Hi : (i < length (procs s))%nat).

Lemma hoare_updp_at p e f (Q : unit → pstate E → Prop) :
  Q () (at_proc s i (f p) e) → hoare C (updp i f) (at_proc s i p e) Q B.
Proof using Hi.
  intros HQ. unfold hoare, updp, modify, at_proc in *. simpl. rewrite alter_insert by done. done.
Qed.

Lemma hoare_getp_at p e (Q : proc → pstate E → Prop) :
  Q p (at_proc s i p e) → hoare C (getp i) (at_proc s i p e) Q B.
Proof using Hi.
  intros HQ. unfold hoare, getp. simpl. by rewrite list_lookup_insert_eq.
Qed.

Lemma hoare_getp_other j q p e (Q : proc → pstate E → Prop) :
  j ≠ i → procs s !! j = Some q → Q q (at_proc s i p e) → hoare C (getp j) (at_proc s i p e) Q B.
Proof.
  intros Hj Hq HQ. unfold hoare, getp. simpl. by rewrite list_lookup_insert_ne, Hq by done.
Qed.

Lemma hoare_env_at {A} (m : M E A) p e (Q : A → pstate E → Prop) :
  hoare C m e (λ a e', Q a (at_proc s i p e')) (λ e', B (at_proc s i p e')) →
  hoare C (on_env m) (at_proc s i p e) Q B.
Proof. intros Hm. apply hoare_zoom. exact Hm. Qed.

Lemma hoare_for_updp_at {X} (l : list X) (g : X → proc → proc) (Q : unit → pstate E → Prop) : ∀ p e,
  Q () (at_proc s i (foldl (λ p x, g x p) p l) e) →
  hoare C (for_each l (λ x, updp i (g x))) (at_proc s i p e) Q B.
Proof using Hi.
  induction l as [|x l IH]; intros p e HQ; [done|]. simpl.
  by apply hoare_bind, hoare_updp_at, IH.
Qed.

End hoare_at.

End at_proc.

(** Steps on the process in the goal's state. *)
Ltac slot_step :=
  lazymatch goal with
  | |- hoare _ (updp ?i _) (at_proc _ ?i _ _) _ _ => apply hoare_updp_at; [done|]
  | |- hoare _ (getp ?i) (at_proc _ ?i _ _) _ _ => apply hoare_getp_at; [done|]
  | |- hoare _ (on_env _) (at_proc _ _ _ _) _ _ => apply hoare_env_at
  | _ => hoare_step
  end.

(** ** The trap frame in memory *)

Definition word_ok (w : Z) : Prop := 0 ≤ w < 2 ^ 32.
Definition tf_ok (t : trapframe) : Prop := Forall word_ok (tf_words t).

Lemma tf_ok_esp t : tf_ok t → 0 ≤ esp t < 2 ^ 32.
Proof. intros Ht. apply (Forall_lookup_1 _ _ 17 _ Ht). done. Qed.

Lemma tf_ok_set_esp x t : word_ok x → tf_ok t → tf_ok (set_esp x t).
Proof. intros Hx Ht. exact (Forall_insert _ _ 17 _ Ht Hx). Qed.

Lemma tf_ok_set_eip x t : word_ok x → tf_ok t → tf_ok (set_eip x t).
Proof. intros Hx Ht. exact (Forall_insert _ _ 14 _ Ht Hx). Qed.

Lemma words_tf_words t : words_tf (tf_words t) = t.
Proof. by destruct t. Qed.

Lemma length_tf_bytes t : length (tf_bytes t) = 76%nat.
Proof. done. Qed.

Lemma word_at_flat_map l : ∀ i w,
  l !! i = Some w → word_at (flat_map le32 l) i = u32 w.
Proof.
  induction l as [|x l IH]; intros [|i] w Hi; simplify_eq/=.
  - unfold word_at. simpl. apply bytes_of_word.
  - rewrite <- (IH i w Hi). unfold word_at.
    by replace (4 * S i)%nat with (S (S (S (S (4 * i))))) by lia.
Qed.

(** Writing a frame to memory and reading it back gives the frame. *)
Lemma bytes_tf_tf_bytes t : tf_ok t → bytes_tf (tf_bytes t) = t.
Proof.
  intros Ht. unfold bytes_tf. rewrite <- (words_tf_words t) at 2. f_equal.
  apply list_eq. intros i. rewrite list_lookup_fmap.
  destruct (decide (i < 19)%nat) as [Hi|Hi].
  - rewrite lookup_seq_lt by done. simpl.
    destruct (lookup_lt_is_Some_2 (tf_words t) i) as [w Hw]; [done|].
    unfold tf_bytes. rewrite (word_at_flat_map _ _ _ Hw), Hw. f_equal.
    apply u32_small. apply (Forall_lookup_1 _ _ _ _ Ht Hw).
  - rewrite lookup_seq_ge by lia. symmetry. apply lookup_ge_None_2. simpl. lia.
Qed.

End Proc.
