(* ===== verification/Asm.v ===== *)
(** * The assembly of the kernel

    swtch.S, trapasm.S, the entry points that vectors.pl generates, usys.S,
    initcode.S and implicit_sigret.S, on a processor with its registers, its
    descriptor tables (Seg.v) and memory. An instruction is an operation of the kernel monad
    on the processor; C functions that the assembly calls are parameters. The
    theorems show that a context switch returns to where it was made, and that a
    trap saves the interrupted program in a [struct trapframe] and resumes it. *)

From S2P Require Import Prelude Layout Memory Proc Seg.

Module Asm.
Import Proc.

(** ** The processor *)

Inductive reg := EAX | ECX | EDX | EBX | ESP | EBP | ESI | EDI.
Inductive sreg := CS | DS | ES | FS | GS | SS.

Definition reg_eqb (x y : reg) : bool :=
  match x, y with
  | EAX, EAX | ECX, ECX | EDX, EDX | EBX, EBX | ESP, ESP | EBP, EBP | ESI, ESI | EDI, EDI => true
  | _, _ => false
  end.
Definition sreg_eqb (x y : sreg) : bool :=
  match x, y with CS, CS | DS, DS | ES, ES | FS, FS | GS, GS | SS, SS => true | _, _ => false end.

Record cpu := mk_cpu {
  regs : reg → Z;
  segs : sreg → Z;
  pc : Z;
  flags : Z;
  ram : mem;            (** memory as addressed through the page table in use *)
  tabs : Seg.tables;
}.

Definition setr (r : reg) (v : Z) (s : cpu) : cpu :=
  mk_cpu (λ x, if reg_eqb r x then v else regs s x) (segs s) (pc s) (flags s) (ram s) (tabs s).
Definition sets (r : sreg) (v : Z) (s : cpu) : cpu :=
  mk_cpu (regs s) (λ x, if sreg_eqb r x then v else segs s x) (pc s) (flags s) (ram s) (tabs s).
Definition set_pc (v : Z) (s : cpu) : cpu := mk_cpu (regs s) (segs s) v (flags s) (ram s) (tabs s).
Definition set_flags (v : Z) (s : cpu) : cpu := mk_cpu (regs s) (segs s) (pc s) v (ram s) (tabs s).
Definition set_ram (m : mem) (s : cpu) : cpu := mk_cpu (regs s) (segs s) (pc s) (flags s) m (tabs s).

Abbreviation A := (M cpu).

(** ** Instructions *)

Definition push (v : Z) : A unit :=
  modify (λ s, let a := u32 (regs s ESP - 4) in set_ram (store32 (ram s) a v) (setr ESP a s)).
Definition pop : A Z :=
  a ← gets (λ s, regs s ESP) ;
  modify (setr ESP (u32 (a + 4))) ;;
  gets (λ s, load32 (ram s) a).

(** The operand of [pushl %esp] is read before the push. *)
Definition pushl (r : reg) : A unit := v ← gets (λ s, regs s r) ; push v.
Definition pushl_imm (v : Z) : A unit := push v.
Definition pushl_seg (r : sreg) : A unit := v ← gets (λ s, segs s r) ; push v.
Definition popl (r : reg) : A unit := v ← pop ; modify (setr r v).
Definition popl_seg (r : sreg) : A unit := v ← pop ; modify (sets r (u16 v)).
Definition pushal : A unit :=
  sp ← gets (λ s, regs s ESP) ;
  pushl EAX ;; pushl ECX ;; pushl EDX ;; pushl EBX ;; push sp ;; pushl EBP ;; pushl ESI ;; pushl EDI.
Definition popal : A unit :=
  popl EDI ;; popl ESI ;; popl EBP ;; pop ;; popl EBX ;; popl EDX ;; popl ECX ;; popl EAX.
Definition movl (r r' : reg) : A unit := modify (λ s, setr r' (regs s r) s).
Definition movl_imm (v : Z) (r : reg) : A unit := modify (setr r (u32 v)).
Definition movl_load (disp : Z) (r r' : reg) : A unit := modify (λ s, setr r' (load32 (ram s) (u32 (regs s r + disp))) s).
Definition movl_store (r r' : reg) : A unit := modify (λ s, set_ram (store32 (ram s) (regs s r') (regs s r)) s).
Definition movw_imm (v : Z) (r : reg) : A unit := modify (λ s, setr r (regs s r - regs s r mod 2 ^ 16 + u16 v) s).
Definition movw_seg (r : reg) (r' : sreg) : A unit := modify (λ s, sets r' (u16 (regs s r)) s).
Definition addl (v : Z) (r : reg) : A unit := modify (λ s, setr r (u32 (regs s r + v)) s).
Definition ret : A unit := v ← pop ; modify (set_pc v).

(** A call of a C function, from its entry to its return to [next] *)
Definition call (f : A unit) (next : Z) : A unit := push next ;; f.

(** ** Traps *)

Definition cpl (s : cpu) : Z := Z.land (segs s CS) 3.

(** The exceptions for which the processor pushes an error code, by the processor
    manual: double fault, invalid task state, segment not present, stack fault,
    general protection, page fault and alignment check *)
Definition error_vectors : list nat := [8; 10; 11; 12; 13; 14; 17]%nat.
Definition pushes_code (n : nat) : bool := bool_decide (n ∈ error_vectors).

(** The processor takes vector [n], with an error code for the exceptions that
    have one: it goes to the kernel stack of the task state when it comes from user
    code, pushes where it was, and continues at the gate. *)
Definition enter (n : nat) (code : option Z) : A unit :=
  s ← get_state ;
  match Seg.vector_gate (tabs s) n with
  | None => undefined "no gate"
  | Some g =>
      (if cpl s =? 0 then mret () else
       modify (setr ESP (Seg.esp0 (Seg.ts (tabs s)))) ;;
       modify (sets SS (Seg.ss0 (Seg.ts (tabs s)))) ;;
       push (segs s SS) ;;
       push (regs s ESP)) ;;
      push (flags s) ;;
      push (segs s CS) ;;
      push (pc s) ;;
      match code with Some c => push c | None => mret () end ;;
      modify (sets CS (Seg.e_sel g)) ;;
      modify (set_pc (Seg.e_off g)) ;;
      when (Seg.e_masks g) (modify (λ s, set_flags (Z.land (flags s) (Z.lnot FL_IF)) s))
  end.

Definition T_GPFLT : nat := 13.

(** [int $n], followed by the instruction at [next]: a gate that the program may
    not use is a general protection fault at the instruction itself. *)
Definition int (n : nat) (next : Z) : A unit :=
  s ← get_state ;
  match Seg.vector_gate (tabs s) n with
  | Some g => if Seg.e_level g <? cpl s then enter T_GPFLT (Some (8 * n + 2)) else modify (set_pc next) ;; enter n None
  | None => enter T_GPFLT (Some (8 * n + 2))
  end.

(** [iret], to the same or to an outer level *)
Definition iret : A unit :=
  old ← gets cpl ;
  ip ← pop ;
  code ← pop ;
  fl ← pop ;
  modify (set_pc ip) ;;
  modify (sets CS (u16 code)) ;;
  modify (set_flags fl) ;;
  if Z.land code 3 =? old then mret () else
  sp ← pop ;
  st ← pop ;
  modify (setr ESP sp) ;;
  modify (sets SS (u16 st)).

(** ** swtch.S *)

Definition swtch : A unit :=
  movl_load 4 ESP EAX ;;
  movl_load 8 ESP EDX ;;
  pushl EBP ;;
  pushl EBX ;;
  pushl ESI ;;
  pushl EDI ;;
  movl_store ESP EAX ;;
  movl EDX ESP ;;
  popl EDI ;;
  popl ESI ;;
  popl EBX ;;
  popl EBP ;;
  ret.

(** ** vectors.pl and trapasm.S *)

(** The test of vectors.pl for the vectors that push no code of their own *)
Definition has_code (n : nat) : bool := (n =? 8)%nat || ((10 <=? n)%nat && (n <=? 14)%nat) || (n =? 17)%nat.

Definition vector (n : nat) : A unit :=
  when (negb (has_code n)) (pushl_imm 0) ;;
  pushl_imm n.

(** vectors.pl has the processor's list. *)
Lemma has_code_correct n : has_code n = pushes_code n.
Proof. do 18 (destruct n as [|n]; [done|]). done. Qed.

Section trapasm.
(** The two C functions, and the addresses their calls return to *)
Context (trap sig_handler_runner : A unit) (after_trap after_runner : Z).

Definition alltraps_frame : A unit :=
  pushl_seg DS ;;
  pushl_seg ES ;;
  pushl_seg FS ;;
  pushl_seg GS ;;
  pushal ;;
  movw_imm (Z.shiftl SEG_KDATA 3) EAX ;;
  movw_seg EAX DS ;;
  movw_seg EAX ES ;;
  pushl ESP.

Definition trapret_frame : A unit :=
  popal ;;
  popl_seg GS ;;
  popl_seg FS ;;
  popl_seg ES ;;
  popl_seg DS ;;
  addl 8 ESP ;;
  iret.

Definition trapret : A unit :=
  pushl ESP ;;
  call sig_handler_runner after_runner ;;
  addl 4 ESP ;;
  trapret_frame.

Definition alltraps : A unit :=
  alltraps_frame ;;
  call trap after_trap ;;
  addl 4 ESP ;;
  trapret.

End trapasm.

(** ** usys.S, implicit_sigret.S and initcode.S *)

Definition T_SYSCALL : nat := 64.

(** syscall.h *)
Definition SYS : list (string * Z) :=
  [("fork", 1); ("exit", 2); ("wait", 3); ("pipe", 4); ("read", 5); ("kill", 6); ("exec", 7); ("fstat", 8); ("chdir", 9);
   ("dup", 10); ("getpid", 11); ("sbrk", 12); ("sleep", 13); ("uptime", 14); ("open", 15); ("write", 16); ("mknod", 17);
   ("unlink", 18); ("link", 19); ("mkdir", 20); ("close", 21); ("sigprocmask", 22); ("sigaction", 23); ("sigret", 24)].

(** [SYS_ ## name] *)
Definition number (name : string) : option Z := (λ e, e.2.2) <$> list_find (λ e, e.1 = name) SYS.

Section user.
(** What the kernel does from the trap to its return, and where code and data lie *)
Context (kernel : A unit).

(** A stub of usys.S; [next] is its [ret] *)
Definition stub (num next : Z) : A unit :=
  movl_imm num EAX ;;
  int T_SYSCALL next ;;
  kernel ;;
  ret.

(** The stubs of usys.S by name; [ret_of] is where the linker puts their [ret] *)
Definition usys_names : list string :=
  ["fork"; "exit"; "wait"; "pipe"; "read"; "write"; "close"; "kill"; "exec"; "open"; "mknod"; "unlink"; "fstat"; "link"; "mkdir"; "chdir";
   "dup"; "getpid"; "sbrk"; "sleep"; "uptime"; "sigprocmask"; "sigaction"; "sigret"].
Definition usys (ret_of : string → Z) : list (string * A unit) :=
  omap (λ name, (λ num, (name, stub num (ret_of name))) <$> number name) usys_names.

Definition implicit_sigret (next : Z) : A unit :=
  movl_imm 24 EAX ;;
  int T_SYSCALL next ;;
  kernel.

(** The start of initcode.S, and a pass of the loop behind it, at [exit] *)
Definition initcode_start (argv init exit : Z) : A unit :=
  pushl_imm argv ;;
  pushl_imm init ;;
  pushl_imm 0 ;;
  movl_imm 7 EAX ;;
  int T_SYSCALL exit ;;
  kernel.

Definition initcode_exit (exit jump : Z) : A unit :=
  movl_imm 2 EAX ;;
  int T_SYSCALL jump ;;
  kernel ;;
  modify (set_pc exit).

End user.

(** ** The stack *)

(** Words pushed one after the other on a stack whose top is [a] *)
Fixpoint pushed (m : mem) (a : Z) (ws : list Z) : mem :=
  match ws with [] => m | w :: ws => pushed (store32 m (a - 4) w) (a - 4) ws end.

Lemma pushed_app m a ws ws' : pushed m a (ws ++ ws') = pushed (pushed m a ws) (a - 4 * length ws) ws'.
Proof.
  revert m a. induction ws as [|w ws IH]; intros m a; cbn [pushed app length]; [by rewrite Z.mul_0_r, Z.sub_0_r|].
  rewrite IH. f_equal. lia.
Qed.

Lemma pushed_outside m a ws : same_outside (a - 4 * length ws) (4 * length ws) m (pushed m a ws).
Proof.
  revert m a. induction ws as [|w ws IH]; intros m a x Hx; cbn [pushed length] in *; [done|].
  rewrite IH by lia. apply store32_outside. lia.
Qed.

Lemma load_pushed m a ws (i : nat) w : ws !! i = Some w → load32 (pushed m a ws) (a - 4 * i - 4) = u32 w.
Proof.
  revert m a i. induction ws as [|w' ws IH]; intros m a [|i] Hi; cbn [pushed] in *; simplify_eq/=.
  - rewrite (load32_same_outside _ _ _ _ _ (pushed_outside _ _ _)) by lia.
    replace (a - 4 * 0%nat - 4) with (a - 4) by lia. apply load_store32_same.
  - rewrite <- (IH (store32 m (a - 4) w') (a - 4) i Hi). f_equal. lia.
Qed.

Definition set_sp (a : Z) (m : mem) (s : cpu) : cpu := set_ram m (setr ESP a s).

Lemma push_run v s a : regs s ESP = a → 4 ≤ a < 2 ^ 32 → push v s = Ok () (set_sp (a - 4) (store32 (ram s) (a - 4) v) s) [].
Proof. intros Ha Hb. unfold push, modify. cbv zeta. by rewrite Ha, (u32_small (a - 4)) by lia. Qed.

Lemma pop_run s a : regs s ESP = a → 0 ≤ a < 2 ^ 32 - 4 → pop s = Ok (load32 (ram s) a) (setr ESP (a + 4) s) [].
Proof. intros Ha Hb. unfold pop. mrun. by rewrite Ha, (u32_small (a + 4)) by lia. Qed.

Lemma pushl_run r s a : regs s ESP = a → 4 ≤ a < 2 ^ 32 →
  pushl r s = Ok () (set_sp (a - 4) (store32 (ram s) (a - 4) (regs s r)) s) [].
Proof. intros. unfold pushl. erewrite bind_Ok by reflexivity. by erewrite push_run. Qed.

Lemma pushl_seg_run r s a : regs s ESP = a → 4 ≤ a < 2 ^ 32 →
  pushl_seg r s = Ok () (set_sp (a - 4) (store32 (ram s) (a - 4) (segs s r)) s) [].
Proof. intros. unfold pushl_seg. erewrite bind_Ok by reflexivity. by erewrite push_run. Qed.

Lemma popl_run r s a : regs s ESP = a → 0 ≤ a < 2 ^ 32 - 4 → popl r s = Ok () (setr r (load32 (ram s) a) (setr ESP (a + 4) s)) [].
Proof. intros. unfold popl. by erewrite bind_Ok by by apply pop_run. Qed.

Lemma popl_seg_run r s a : regs s ESP = a → 0 ≤ a < 2 ^ 32 - 4 →
  popl_seg r s = Ok () (sets r (u16 (load32 (ram s) a)) (setr ESP (a + 4) s)) [].
Proof. intros. unfold popl_seg. by erewrite bind_Ok by by apply pop_run. Qed.

Lemma ret_run s a : regs s ESP = a → 0 ≤ a < 2 ^ 32 - 4 → ret s = Ok () (set_pc (load32 (ram s) a) (setr ESP (a + 4) s)) [].
Proof. intros. unfold ret. by erewrite bind_Ok by by apply pop_run. Qed.

Ltac state := cbn [regs segs pc flags ram tabs setr sets set_pc set_flags set_ram set_sp reg_eqb sreg_eqb].
Ltac one l := eapply wp_bind_ok; [eapply l; [state; first [eassumption | reflexivity] | lia]|].
Ltac step :=
  first [one push_run | one pop_run | one pushl_run | one pushl_seg_run | one popl_run | one popl_seg_run
        | eapply wp_bind_ok; [reflexivity|]]; state.

(** What [swtch] does: it leaves a [struct context] on the old stack and its
    address in [*old], and loads the one at [new]. *)
Definition context_at (m : mem) (a : Z) : context :=
  mk_ctx (load32 m a) (load32 m (a + 4)) (load32 m (a + 8)) (load32 m (a + 12)) (load32 m (a + 16)).

Definition saved (s : cpu) : context :=
  mk_ctx (regs s EDI) (regs s ESI) (regs s EBX) (regs s EBP) (load32 (ram s) (regs s ESP)).

Definition runs (c : context) (sp : Z) (s : cpu) : Prop :=
  mk_ctx (regs s EDI) (regs s ESI) (regs s EBX) (regs s EBP) (pc s) = c ∧ regs s ESP = sp.

Lemma swtch_run s sp : regs s ESP = sp → 16 ≤ sp < 2 ^ 32 - 12 → load32 (ram s) (sp + 8) < 2 ^ 32 - 20 → bytes_ok (ram s) →
  let m := store32 (pushed (ram s) sp [regs s EBP; regs s EBX; regs s ESI; regs s EDI]) (load32 (ram s) (sp + 4)) (sp - 16) in
  wp swtch s (λ _ s' tr, tr = [] ∧ ram s' = m ∧ runs (context_at m (load32 (ram s) (sp + 8))) (load32 (ram s) (sp + 8) + 20) s').
Proof.
  intros Hsp Hb Hnew Hm. cbv zeta. pose proof (load32_range _ (sp + 8) Hm) as Hr.
  unfold swtch. step. rewrite Hsp, (u32_small (sp + 4)) by lia.
  step. rewrite Hsp, (u32_small (sp + 8)) by lia. set (new := load32 (ram s) (sp + 8)) in *. 
  do 10 step. unfold wp. erewrite ret_run; [|state; reflexivity | lia]. unfold runs, context_at. cbn [pushed]. state.
  rewrite <- !Z.sub_add_distr, <- !Z.add_assoc. by split_and!.
Qed.

(** The context that the pushes of [swtch] make with the return address *)
Lemma saved_context s sp : regs s ESP = sp → (∀ r, 0 ≤ regs s r < 2 ^ 32) →
  context_at (pushed (ram s) sp [regs s EBP; regs s EBX; regs s ESI; regs s EDI]) (sp - 16) = saved s.
Proof.
  intros Hsp Hreg. unfold context_at, saved. rewrite Hsp. f_equal.
  - replace (sp - 16) with (sp - 4 * 3%nat - 4) by lia. erewrite (load_pushed _ _ _ 3) by reflexivity. by apply u32_small.
  - replace (sp - 16 + 4) with (sp - 4 * 2%nat - 4) by lia. erewrite (load_pushed _ _ _ 2) by reflexivity. by apply u32_small.
  - replace (sp - 16 + 8) with (sp - 4 * 1%nat - 4) by lia. erewrite (load_pushed _ _ _ 1) by reflexivity. by apply u32_small.
  - replace (sp - 16 + 12) with (sp - 4 * 0%nat - 4) by lia. erewrite (load_pushed _ _ _ 0) by reflexivity. by apply u32_small.
  - replace (sp - 16 + 16) with sp by lia. apply (load32_same_outside _ _ _ _ _ (pushed_outside _ _ _)). cbn. lia.
Qed.

(** C18: swtch returns to where it was called: it leaves on the old stack a context
    and its address where the caller asked; as long as nobody writes over that
    context and the words above it, a later switch to it, from whatever stack, comes
    back behind the call with the stack pointer and the registers that the C calling
    convention preserves as they were. *)
Theorem swtch_returns s sp old : regs s ESP = sp → 16 ≤ sp < 2 ^ 32 - 12 → bytes_ok (ram s) →
  load32 (ram s) (sp + 4) = old → old + 4 ≤ sp - 16 ∨ sp + 4 ≤ old → load32 (ram s) (sp + 8) < 2 ^ 32 - 20 →
  (∀ r, 0 ≤ regs s r < 2 ^ 32) →
  wp swtch s (λ _ s1 _, load32 (ram s1) old = sp - 16 ∧
    ∀ t spt, regs t ESP = spt → 16 ≤ spt < 2 ^ 32 - 12 → bytes_ok (ram t) →
      (∀ x, sp - 16 ≤ x < sp + 4 → ram t x = ram s1 x) →
      (spt ≤ sp - 16 ∨ sp + 20 ≤ spt) → (load32 (ram t) (spt + 4) + 4 ≤ sp - 16 ∨ sp + 4 ≤ load32 (ram t) (spt + 4)) →
      load32 (ram t) (spt + 8) = load32 (ram s1) old →
      wp swtch t (λ _ t1 _, runs (saved s) (sp + 4) t1)).
Proof.
  intros Hsp Hb Hm Hold Hdis Hnew Hreg. eapply wp_mono; [by apply swtch_run|]. intros _ s1 _ (_ & Hram & _).
  rewrite Hold in Hram. assert (load32 (ram s1) old = sp - 16) as Hctx.
  { rewrite Hram, load_store32_same. apply u32_small. lia. }
  split; [done|]. intros t spt Hspt Hbt Hmt Hsame Hst Hot Hnt. rewrite Hctx in Hnt.
  eapply wp_mono; [apply swtch_run; [done.. | lia | done]|]. intros _ t1 _ (_ & Hram1 & Hrun). rewrite Hnt in Hrun.
  replace (sp - 16 + 20) with (sp + 4) in Hrun by lia.
  match type of Hrun with runs ?c _ _ => assert (c = saved s) as <-; [|done] end.
  rewrite <- Hram1, <- (saved_context s sp Hsp Hreg). unfold context_at.
  f_equal; (rewrite Hram1, load_store32_other, (load32_same_outside _ _ _ _ _ (pushed_outside _ _ _)) by (cbn; lia));
    unfold load32 at 1; rewrite !Hsame, Hram by lia; apply load_store32_other; lia.
Qed.

(** ** Traps *)

(** The frame at an address *)
Definition read_tf (m : mem) (a : Z) : trapframe := words_tf ((λ i : nat, load32 m (a + 4 * i)) <$> seq 0 19).

Lemma read_tf_pushed m a t : tf_ok t → read_tf (pushed m a (reverse (tf_words t))) (a - TFSIZE) = t.
Proof.
  intros Ht. unfold read_tf. replace ((λ i : nat, _) <$> seq 0 19) with (tf_words t); [by destruct t|].
  apply list_eq. intros i. rewrite list_lookup_fmap. destruct (decide (i < 19)%nat) as [Hi|]; cycle 1.
  { rewrite (lookup_ge_None_2 (seq 0 19)), lookup_ge_None_2 by (cbn; lia). done. }
  rewrite lookup_seq_lt by done. cbn [fmap option_fmap option_map Nat.add].
  destruct (lookup_lt_is_Some_2 (tf_words t) i ltac:(cbn; lia)) as [w Hw]. rewrite Hw. f_equal.
  replace (a - TFSIZE + 4 * i) with (a - 4 * (18 - i)%nat - 4) by (unfold TFSIZE; lia).
  rewrite (load_pushed _ _ _ _ w).
  - symmetry. apply u32_small. by apply (Forall_lookup_1 _ _ _ _ Ht Hw).
  - rewrite reverse_lookup by (cbn; lia). rewrite <- Hw. f_equal. cbn. lia.
Qed.

(** The program interrupted in [s], as the frame describes it *)
Definition frame_of (s : cpu) (sp n code : Z) : trapframe :=
  mk_tf (regs s EDI) (regs s ESI) (regs s EBP) sp (regs s EBX) (regs s EDX) (regs s ECX) (regs s EAX)
    (segs s GS) (segs s FS) (segs s ES) (segs s DS) n code (pc s) (segs s CS) (flags s) (regs s ESP) (segs s SS).

Lemma wp_last {B} (m : A B) s b s' (Q : B → cpu → list event → Prop) : m s = Ok b s' [] → Q b s' [] → wp m s Q.
Proof. unfold wp. by intros ->. Qed.

Ltac final := eapply wp_last; [first [eapply push_run | eapply pushl_run | eapply popl_run]; [state; first [eassumption | reflexivity] | lia]|]; state.

(** The words that the processor and the vector push *)
Definition hw_words (s : cpu) (n code : Z) : list Z := [segs s SS; regs s ESP; flags s; segs s CS; pc s; code; n].

(** The rest of the frame and the argument of [trap] *)
Definition sw_words (s : cpu) (a : Z) : list Z :=
  [segs s DS; segs s ES; segs s FS; segs s GS; regs s EAX; regs s ECX; regs s EDX; regs s EBX; a - 16; regs s EBP; regs s ESI; regs s EDI; a - 48].

Lemma enter_vector s n g top e : cpl s = 3 → Seg.vector_gate (tabs s) n = Some g → Seg.esp0 (Seg.ts (tabs s)) = top → 80 ≤ top < 2 ^ 32 →
  (pushes_code n = false → e = 0) →
  wp (enter n (if pushes_code n then Some e else None) ;; vector n) s (λ _ s' tr, tr = [] ∧ regs s' ESP = top - 28 ∧
    (∀ r, r ≠ ESP → regs s' r = regs s r) ∧ segs s' CS = Seg.e_sel g ∧ segs s' SS = Seg.ss0 (Seg.ts (tabs s)) ∧
    (∀ r, r ≠ CS → r ≠ SS → segs s' r = segs s r) ∧ tabs s' = tabs s ∧ ram s' = pushed (ram s) top (hw_words s n e)).
Proof.
  intros Hcpl Hg Htop Hb Hcode. apply wp_bind. unfold enter. step. rewrite Hg, Hcpl. cbn [Z.eqb].
  apply wp_bind. do 3 step. final. rewrite Htop. do 3 step. apply wp_bind. unfold vector. rewrite has_code_correct.
  destruct (pushes_code n) eqn:Hn; [final | rewrite (Hcode eq_refl)]; cbn [app]; do 2 step; destruct (Seg.e_masks g); (eapply wp_last; [reflexivity|]); cbn [when negb]; step; final; split_and!; try done; try lia; by intros [].
Qed.

Lemma movw_low x v : u16 (x - x mod 2 ^ 16 + u16 v) = u16 v.
Proof. unfold u16. change (2 ^ 16) with 65536. Z.div_mod_to_equations. lia. Qed.

Lemma frame_run s a : regs s ESP = a → 52 ≤ a < 2 ^ 32 →
  wp alltraps_frame s (λ _ s' tr, tr = [] ∧ regs s' ESP = a - 52 ∧ segs s' DS = 8 * SEG_KDATA ∧ segs s' ES = 8 * SEG_KDATA ∧
    segs s' CS = segs s CS ∧ segs s' SS = segs s SS ∧ tabs s' = tabs s ∧ ram s' = pushed (ram s) a (sw_words s a)).
Proof.
  intros Ha Hb. unfold alltraps_frame. do 4 step. apply wp_bind. unfold pushal. do 8 step. final. do 3 step. final.
  split_and!; [done | lia | by rewrite movw_low | by rewrite movw_low | done | done | done|].
  unfold sw_words. cbn [pushed]. replace (a - 4 - 4 - 4 - 4) with (a - 16) by lia.
  by replace (a - 16 - 4 - 4 - 4 - 4 - 4 - 4 - 4 - 4) with (a - 48) by lia.
Qed.

(** The program that a frame describes goes on *)
Definition resumes (t : trapframe) (s : cpu) : Prop :=
  (regs s EDI = edi t ∧ regs s ESI = esi t ∧ regs s EBP = ebp t ∧ regs s EBX = ebx t ∧ regs s EDX = edx t ∧
   regs s ECX = ecx t ∧ regs s EAX = eax t ∧ regs s ESP = esp t) ∧
  (segs s CS = u16 (cs t) ∧ segs s DS = u16 (ds t) ∧ segs s ES = u16 (es t) ∧ segs s FS = u16 (fs t) ∧ segs s GS = u16 (gs t) ∧
   segs s SS = u16 (ss t)) ∧
  pc s = eip t ∧ flags s = eflags t.

Lemma trapret_run s a : regs s ESP = a → 0 ≤ a < 2 ^ 32 - 76 → cpl s = 0 → Z.land (cs (read_tf (ram s) a)) 3 = 3 →
  wp trapret_frame s (λ _ s' tr, tr = [] ∧ ram s' = ram s ∧ resumes (read_tf (ram s) a) s').
Proof.
  intros Ha Hb Hcpl Hcs. set (t := read_tf (ram s) a) in *.
  unfold trapret_frame. apply wp_bind. unfold popal. do 7 step. final. do 4 step. step.
  rewrite (u32_small (_ + 8)) by lia. unfold iret. step. do 6 step.
  match goal with |- context [Z.land (load32 (ram s) ?x) 3] => replace (load32 (ram s) x) with (cs t) by (cbn; f_equal; lia) end.
  rewrite Hcs. change (cpl _) with (cpl s) at 1. rewrite Hcpl. cbn [Z.eqb].
  do 3 step. eapply wp_last; [reflexivity|]. split; [done|]. split; [done|]. unfold resumes. state.
  split_and!; try apply (f_equal u16); cbn; (f_equal; lia).
Qed.

(** A C function that gets a pointer to the frame, returns to its caller, changes
    the frame by [F] and keeps the word at [u], which is not part of the frame or of
    the free stack *)
Definition handles (u : Z) (f : A unit) (F : trapframe → trapframe) : Prop :=
  ∀ s b a, regs s ESP = b → load32 (ram s) (b + 4) = a → 0 ≤ b → b + 8 ≤ a < 2 ^ 32 →
    u + 4 ≤ b ∨ a + TFSIZE ≤ u →
    wp f s (λ _ s' _, regs s' ESP = b + 4 ∧ segs s' CS = segs s CS ∧ read_tf (ram s') a = F (read_tf (ram s) a) ∧
      load32 (ram s') u = load32 (ram s) u).

Lemma read_tf_same_outside lo n m m' a : same_outside lo n m m' → lo + n ≤ a → read_tf m' a = read_tf m a.
Proof.
  intros Hs Ha. unfold read_tf. f_equal. apply list_fmap_ext. intros i j _. apply (load32_same_outside _ _ _ _ _ Hs). lia.
Qed.

(** A call of such a function with the pointer that is already on the stack *)
Lemma call_handler u f F next s a : handles u f F → regs s ESP = a - 4 → 8 ≤ a < 2 ^ 32 → load32 (ram s) (a - 4) = a →
  u + 4 ≤ a - 8 ∨ a + TFSIZE ≤ u →
  wp (call f next) s (λ _ s' _, regs s' ESP = a - 4 ∧ segs s' CS = segs s CS ∧ read_tf (ram s') a = F (read_tf (ram s) a) ∧
    load32 (ram s') u = load32 (ram s) u).
Proof.
  intros Hf Hsp Ha Harg Hu. unfold call. step.
  eapply wp_mono; [eapply (Hf _ (a - 8) a); [state; lia | state | lia | lia | done]|].
  - replace (a - 8 + 4) with (a - 4) by lia. by rewrite load_store32_other by lia.
  - intros _ s' tr (H1 & H2 & H3 & H4). rewrite H1, H2, H3, H4. state. split_and!; [lia | done | | apply load_store32_other; unfold TFSIZE in Hu; lia]. f_equal.
    eapply read_tf_same_outside; [apply store32_outside | lia].
Qed.

Lemma trapret_resumes u runner G next s a : handles u runner G → regs s ESP = a → 8 ≤ a < 2 ^ 32 - 76 → Z.land (segs s CS) 3 = 0 →
  Z.land (cs (G (read_tf (ram s) a))) 3 = 3 → u + 4 ≤ a - 8 ∨ a + TFSIZE ≤ u →
  wp (trapret runner next) s (λ _ s' _, resumes (G (read_tf (ram s) a)) s' ∧ load32 (ram s') u = load32 (ram s) u).
Proof.
  intros Hrun Hsp Ha Hk Hcs Hu. unfold TFSIZE in Hu. unfold trapret. step. apply wp_bind.
  assert (read_tf (store32 (ram s) (a - 4) a) a = read_tf (ram s) a) as E.
  { eapply read_tf_same_outside; [apply store32_outside | lia]. }
  eapply wp_mono; [apply (call_handler u _ G _ _ a); [done | state; lia | lia | state; by rewrite load_store32_same, u32_small by lia | unfold TFSIZE; lia]|].
  intros _ s1 ? (H1 & H2 & H3 & H4). revert H3 H4. state. rewrite Hsp, E, load_store32_other by lia. intros H3 H4.
  step. rewrite H1, u32_small by lia. rewrite <- H3 in *.
  eapply wp_mono; [eapply (trapret_run _ a); [state; lia | lia | unfold cpl; state; by rewrite H2 | done]|].
  intros _ s2 ? (-> & Hm & Hr). rewrite Hm. done.
Qed.

Lemma trap_returns u trap runner F G after_trap after_runner s n g top e :
  handles u trap F → handles u runner G → cpl s = 3 → Seg.vector_gate (tabs s) n = Some g → Z.land (Seg.e_sel g) 3 = 0 →
  Seg.esp0 (Seg.ts (tabs s)) = top → 88 ≤ top < 2 ^ 32 → (pushes_code n = false → e = 0) → u + 4 ≤ top - 84 ∨ top ≤ u →
  let t := frame_of s (top - 44) n e in
  tf_ok t → Z.land (cs (G (F t))) 3 = 3 →
  wp ((enter n (if pushes_code n then Some e else None) ;; vector n) ;; alltraps trap runner after_trap after_runner) s
    (λ _ s' _, resumes (G (F t)) s' ∧ load32 (ram s') u = load32 (ram s) u).
Proof.
  intros Htrap Hrun Hcpl Hg Hk Htop Hb Hcode Hu t Hok Hcs. apply wp_bind.
  eapply wp_mono; [apply enter_vector; [done.. | lia | done]|]. intros _ s1 _ (-> & Hsp1 & Hr1 & Hc1 & _ & Hs1 & _ & Hm1).
  cbn [app]. unfold alltraps. apply wp_bind.
  eapply wp_mono; [apply (frame_run s1 (top - 28)); [done | lia]|]. intros _ s2 _ (-> & Hsp2 & _ & _ & Hc2 & _ & _ & Hm2). cbn [app].
  assert (ram s2 = pushed (ram s) top (reverse (tf_words t) ++ [top - 76])) as Hm.
  { rewrite Hm2, Hm1. unfold sw_words. replace (top - 28 - 16) with (top - 44) by lia. replace (top - 28 - 48) with (top - 76) by lia.
    replace (top - 28) with (top - 4 * length (hw_words s n e)) by (cbn; lia). rewrite <- pushed_app. by rewrite !Hr1, !Hs1. }
  assert (read_tf (ram s2) (top - 76) = t ∧ load32 (ram s2) (top - 80) = top - 76) as [Ht Harg].
  { rewrite Hm, pushed_app. cbn [pushed length]. rewrite length_reverse. cbn [tf_words length].
    replace (top - 4 * 19%nat - 4) with (top - 80) by lia. rewrite load_store32_same, u32_small by lia. split; [|done].
    rewrite (read_tf_same_outside (top - 80) 4 _ _ _ (store32_outside _ _ _)) by lia. by apply read_tf_pushed. }
  apply wp_bind. eapply wp_mono; [apply (call_handler u _ F _ _ (top - 76)); [done | lia | lia | by replace (top - 76 - 4) with (top - 80) by lia | unfold TFSIZE; lia]|].
  intros _ s3 ? (Hsp3 & Hc3 & Ht3 & Hu3). rewrite Ht in Ht3. step. rewrite Hsp3, u32_small by lia. rewrite <- Ht3 in *.
  eapply wp_mono; [eapply (trapret_resumes u _ G _ _ (top - 76)); [done | state; lia | lia | state | state | unfold TFSIZE; lia]|].
  - by rewrite Hc3, Hc2, Hc1.
  - done.
  - intros ? s4 ? [H4 H5]. split; [exact H4|]. rewrite H5. state. rewrite Hu3, Hm.
    apply (load32_same_outside _ _ _ _ _ (pushed_outside _ _ _)). cbn. lia.
Qed.

(** C6: a trap is transparent to the program it interrupts: whatever the vector,
    the processor, vectors.S and alltraps leave all of a user program's registers in
    a struct trapframe on the kernel stack, and when trap and sig_handler_runner
    leave the frame alone, trapret resumes the program with every register, segment,
    the flags and the program counter as they were. *)
Theorem trap_transparent trap runner after_trap after_runner s n g top e :
  handles top trap id → handles top runner id → cpl s = 3 → Seg.vector_gate (tabs s) n = Some g → Z.land (Seg.e_sel g) 3 = 0 →
  Seg.esp0 (Seg.ts (tabs s)) = top → 88 ≤ top < 2 ^ 32 → (pushes_code n = false → e = 0) →
  tf_ok (frame_of s (top - 44) n e) → (∀ r, 0 ≤ segs s r < 2 ^ 16) →
  wp ((enter n (if pushes_code n then Some e else None) ;; vector n) ;; alltraps trap runner after_trap after_runner) s
    (λ _ s' _, (∀ r, regs s' r = regs s r) ∧ (∀ r, segs s' r = segs s r) ∧ pc s' = pc s ∧ flags s' = flags s).
Proof.
  intros Ht Hr Hcpl Hg Hk Htop Hb Hcode Hok Hseg.
  eapply wp_mono; [eapply (trap_returns top trap runner id id); try eassumption; by right|].
  intros _ s' _ [[(? & ? & ? & ? & ? & ? & ? & ?) [(? & ? & ? & ? & ? & ?) [Hpc Hfl]]] _].
  split_and!; [by intros [] | | done | done]. intros r. rewrite <- (Z.mod_small (segs s r) (2 ^ 16)) by apply Hseg. by destruct r.
Qed.

Lemma int_syscall s g next : Seg.vector_gate (tabs s) T_SYSCALL = Some g → Seg.e_level g = 3 → cpl s = 3 →
  int T_SYSCALL next s = enter T_SYSCALL None (set_pc next s).
Proof.
  intros Hg Hl Hcpl. unfold int. erewrite bind_Ok by reflexivity. rewrite prepend_nil, Hg, Hl, Hcpl. change (3 <? 3) with false. cbv iota.
  erewrite bind_Ok by reflexivity. apply prepend_nil.
Qed.

(** C32: a system call as its caller sees it: when the kernel answers a system call
    trap with [sys] of the number it finds in the frame's [eax], the stub of usys.S
    for the number [num] is a C function that returns [sys num] to its caller,
    with all other registers and the stack pointer as a C function leaves them. *)
Theorem stub_returns trap runner sys after_trap after_runner s g top sp num next :
  handles sp trap (λ t, set_eax (sys (eax t)) t) → handles sp runner id → cpl s = 3 → Seg.vector_gate (tabs s) T_SYSCALL = Some g →
  Seg.e_level g = 3 → Z.land (Seg.e_sel g) 3 = 0 → Seg.esp0 (Seg.ts (tabs s)) = top → 88 ≤ top < 2 ^ 32 →
  regs s ESP = sp → 0 ≤ sp → sp + 4 ≤ top - 84 → 0 ≤ num < 2 ^ 32 →
  tf_ok (frame_of (set_pc next (setr EAX num s)) (top - 44) T_SYSCALL 0) →
  wp (stub (vector T_SYSCALL ;; alltraps trap runner after_trap after_runner) num next) s (λ _ s' _,
    regs s' EAX = sys num ∧ pc s' = load32 (ram s) sp ∧ regs s' ESP = sp + 4 ∧ ∀ x, x ≠ EAX → x ≠ ESP → regs s' x = regs s x).
Proof.
  intros Ht Hr Hcpl Hg Hl Hk Htop Hb Hsp Hlo Hhi Hnum Hok. unfold stub. step. rewrite (u32_small num) by done.
  set (s1 := set_pc next (setr EAX num s)) in *.
  pose proof (trap_returns sp trap runner (λ t, set_eax (sys (eax t)) t) id after_trap after_runner s1 T_SYSCALL g top 0 Ht Hr Hcpl Hg Hk Htop Hb
    ltac:(done) ltac:(lia) Hok Hcpl) as Htrap. change (pushes_code T_SYSCALL) with false in Htrap. cbv iota in Htrap.
  set (all := alltraps _ _ _ _) in *.
  assert ((int T_SYSCALL next ;; (vector T_SYSCALL ;; all) ;; ret) (setr EAX num s) =
    (((enter T_SYSCALL None ;; vector T_SYSCALL) ;; all) ;; ret) s1) as E.
  { rewrite !bind_assoc. unfold mbind at 1 4, M_bind at 1 4. rewrite (int_syscall _ g) by done. fold s1.
    destruct (enter T_SYSCALL None s1); [|done..]. f_equal. apply bind_assoc. }
  unfold wp. rewrite E. apply wp_bind. eapply wp_mono; [exact Htrap|]. intros _ s2 tr [Hres Hu].
  destruct Hres as [(? & ? & ? & ? & ? & ? & Hax & Hsp2) _]. change (regs s2 ESP = regs s ESP) in Hsp2. rewrite Hsp in Hsp2.
  eapply wp_last; [eapply ret_run; [exact Hsp2 | lia]|]. state. split_and!; [exact Hax | exact Hu | done|]. by intros [].
Qed.

Lemma ret_handles u : handles u ret id.
Proof. intros s b a Hb _ Hlo Ha _. eapply wp_last; [eapply ret_run; [done | lia]|]. by state. Qed.

(** A kernel that answers every system call with 7 *)
Definition ex_trap : A unit :=
  modify (λ s, set_ram (store32 (ram s) (load32 (ram s) (regs s ESP + 4) + 28) 7) s) ;; ret.

Lemma ex_trap_handles u : handles u ex_trap (set_eax 7).
Proof.
  intros s b a Hb Harg Hlo Ha Hu. unfold TFSIZE in Hu. unfold ex_trap. step. rewrite Hb, Harg.
  eapply wp_last; [eapply ret_run; [done | lia]|]. state. split_and!; [done | done | | apply load_store32_other; lia].
  unfold read_tf, set_eax, words_tf, tf_words. cbn [fmap list_fmap seq lookup list_lookup].
  f_equal; try (apply load_store32_other; lia).
  etransitivity; [|exact (load_store32_same (ram s) (a + 28) 7)]. by f_equal.
Qed.

(** A user program with the kernel's tables *)
Definition ex_vectors (n : nat) : Z := 0x80105000 + 8 * Z.of_nat n mod 2 ^ 10.
Definition ex_user : cpu :=
  mk_cpu (λ r, match r with ESP => 0x2ffc | EAX => 6 | EBX => 0x1234 | _ => 0 end) (λ r, if sreg_eqb r CS then 0x1b else 0x23) 0x40 0x202 (λ _, 0)
    (Seg.switch_task 0x80112000 0x8dffe000 (Seg.seginit 0x80112100 (Seg.idtinit 0x80114800 (Seg.tvinit ex_vectors Seg.ex_tables)))).

Lemma trap_transparent_witness :
  wp ((enter 14 (Some 4) ;; vector 14) ;; alltraps ret ret 0x80105a00 0x80105a10) ex_user (λ _ s' _, regs s' EBX = 0x1234 ∧ pc s' = 0x40).
Proof.
  eapply wp_mono.
  - apply (trap_transparent ret ret 0x80105a00 0x80105a10 ex_user 14 (Seg.mk_gate 8 0x80105070 0 true) 0x8dfff000 4);
      [apply ret_handles | apply ret_handles | reflexivity | vm_compute; reflexivity | reflexivity | vm_compute; reflexivity
      | lia | done | repeat constructor; vm_compute; done | by intros []].
  - intros _ s' _ (H & _ & Hpc & _). by rewrite H, Hpc.
Defined.

Lemma stub_returns_witness :
  wp (stub (vector T_SYSCALL ;; alltraps ex_trap ret 0x80105a00 0x80105a10) 11 0x46) ex_user (λ _ s' _, regs s' EAX = 7 ∧ regs s' ESP = 0x3000).
Proof.
  eapply wp_mono.
  - apply (stub_returns ex_trap ret (λ _, 7) 0x80105a00 0x80105a10 ex_user (Seg.mk_gate 8 0x80105200 3 false) 0x8dfff000 0x2ffc 11 0x46);
      [apply ex_trap_handles | apply ret_handles | reflexivity | vm_compute; reflexivity | reflexivity | reflexivity
      | vm_compute; reflexivity | lia | reflexivity | lia | lia | lia | repeat constructor; vm_compute; done].
  - by intros _ s' _ (H1 & _ & H3 & _).
Defined.

(** C29: user code can enter the kernel by an int instruction through the system
    call gate alone; with any other vector the processor raises a general
    protection fault instead, at that instruction. *)
Theorem user_int_syscall idt_addr vectors tb s n next : length (Seg.idt tb) = 256%nat → 0 ≤ idt_addr < 2 ^ 32 →
  (∀ n, 0 ≤ vectors n < 2 ^ 32) → tabs s = Seg.idtinit idt_addr (Seg.tvinit vectors tb) → cpl s = 3 → (n < 256)%nat →
  int n next s = if decide (n = T_SYSCALL) then enter T_SYSCALL None (set_pc next s) else enter T_GPFLT (Some (8 * n + 2)) s.
Proof.
  intros Hlen Ha Hv Htabs Hcpl Hn. destruct (Seg.tvinit_gates idt_addr vectors tb Hlen Ha Hv) as [_ Hg].
  unfold int. erewrite bind_Ok by reflexivity. rewrite prepend_nil, Htabs, Hg, Hcpl, decide_True by done.
  change Seg.T_SYSCALL with T_SYSCALL. cbn [Seg.e_level]. case_decide as Hs.
  - subst n. change (DPL_USER <? 3) with false. cbv iota. erewrite bind_Ok by reflexivity. apply prepend_nil.
  - done.
Qed.

Lemma user_int_syscall_witness :
  int 32 0x44 ex_user = enter T_GPFLT (Some 258) ex_user.
Proof.
  refine (user_int_syscall 0x80114800 ex_vectors
    (Seg.switch_task 0x80112000 0x8dffe000 (Seg.seginit 0x80112100 Seg.ex_tables)) ex_user 32 0x44 eq_refl _ _ _ eq_refl _).
  - lia.
  - intros n. unfold ex_vectors. change (2 ^ 10) with 1024. Z.div_mod_to_equations. lia.
  - reflexivity.
  - lia.
Defined.

(** A process about to call [swtch(0x2000, 0x3000)] *)
Definition ex_switch : cpu :=
  mk_cpu (λ r, match r with ESP => 0x1000 | EBX => 7 | _ => 0 end) (λ _, 8) 0x80104000 0
    (λ x, if x =? 0x1005 then 0x20 else if x =? 0x1009 then 0x30 else 0) Seg.ex_tables.

Lemma swtch_returns_witness : wp swtch ex_switch (λ _ s1 _, load32 (ram s1) 0x2000 = 0xff0).
Proof.
  eapply wp_mono; [apply (swtch_returns ex_switch 0x1000 0x2000)|]; try done.
  - intros x. cbn. destruct (x =? 0x1005); [lia|]. destruct (x =? 0x1009); lia.
  - by right.
  - by intros [].
  - by intros _ s1 _ [H _].
Defined.

(** usys.S has exactly one stub for every number of syscall.h. *)
Lemma usys_complete kernel ret_of : (usys kernel ret_of).*1 = usys_names ∧ omap number usys_names ≡ₚ SYS.*2.
Proof. split; [reflexivity|]. apply (bool_decide_unpack _). by vm_compute. Qed.

End Asm.
