(* ===== verification/Signal.v ===== *)
(** * proc.c: signals

    The signal system calls, the default handlers and the delivery of pending
    signals on the way back to user mode ([sig_handler_runner], called by
    trapret in trapasm.S). *)

From S2P Require Import Prelude Layout Memory Proc.

Module Signal.
Import Proc.

(** The code between [start_implicit_sigret] and [done_implicit_sigret]:
    [movl $SYS_sigret, %eax; int $T_SYSCALL]. *)
Definition SYS_sigret : Z := 24.
Definition T_SYSCALL : Z := 64.
Definition implicit_sigret : list Z := [0xB8; SYS_sigret; 0; 0; 0; 0xCD; T_SYSCALL].

Section signal.
Context {E : Type} `{UserMem E}.
Implicit Types s : pstate E.

(** ** User memory *)

(** Copy bytes to user addresses, as [memmove] and assignments through user
    pointers do. *)
Fixpoint put_bytes (a : Z) (l : list Z) : M E unit :=
  match l with
  | [] => mret ()
  | b :: l' => λ e,
      match store8 e a b with
      | Some e' => put_bytes (u32 (a + 1)) l' e'
      | None => Crashed (PageFault a) []
      end
  end.

Fixpoint get_bytes (a : Z) (n : nat) : M E (list Z) :=
  match n with
  | O => mret []
  | S n' => λ e,
      match load8 e a with
      | Some b => (l ← get_bytes (u32 (a + 1)) n' ; mret (b :: l)) e
      | None => Crashed (PageFault a) []
      end
  end.

Definition put_word (a v : Z) : M E unit := put_bytes a (le32 v).
Definition get_word (a : Z) : M E Z := l ← get_bytes a 4 ; mret (le32_val l).

(** ** The handlers of TASK-2.3 *)

Definition SIGKILL_handler : M (pstate E) unit :=
  cprintf "Killed\n" [] ;;
  p ← myproc ;
  i ← deref p off_killed ;
  updp i (set_killed 1).

Definition SIGSTOP_handler : M (pstate E) unit :=
  p ← myproc ;
  i ← deref p off_state ;
  pr ← getp i ;
  if decide (state pr = SLEEPING) then mret () else
  p ← myproc ;
  i ← deref p off_freeze ;
  updp i (set_freeze 1).

Definition SIGCONT_handler : M (pstate E) unit :=
  p ← myproc ;
  i ← deref p off_freeze ;
  updp i (set_freeze 0).

(** ** kill *)

(** Post [signum] to the first process of the table whose pid is [pid]. *)
Definition kill (pid' signum : Z) : M (pstate E) Z :=
  if (signum <? 0) || (31 <? signum) then mret (-1) else
  acquire Lptable ;;
  ps ← gets procs ;
  match list_find (λ p, pid p = pid') ps with
  | Some (i, _) =>
      cprintf "Signsl recieved:%d\n" [signum] ;;
      updp i (λ p, set_pending_signals (Z.lor (pending_signals p) (Z.shiftl 1 signum)) p) ;;
      p ← getp i ;
      when (bool_decide (state p = SLEEPING) && (signum =? SIGKILL)) (updp i (set_state RUNNABLE)) ;;
      release Lptable ;;
      mret 0
  | None =>
      release Lptable ;;
      mret (-1)
  end.

(** ** The system calls of TASK-2.1 *)

Definition sigprocmask (sigmask : Z) : M (pstate E) Z :=
  p ← myproc ;
  i ← deref p off_signal_mask ;
  pr ← getp i ;
  updp i (set_signal_mask sigmask) ;;
  mret (signal_mask pr).

(** [p->signal_handlers[k]] *)
Definition handler (p : proc) (k : Z) : M (pstate E) Z :=
  if k <? 0 then undefined "signal_handlers index" else
  match signal_handlers p !! Z.to_nat k with
  | Some h => mret h
  | None => undefined "signal_handlers index"
  end.

(** [p->signal_handlers[k] = h] *)
Definition set_handler (i : nat) (k h : Z) : M (pstate E) unit :=
  p ← getp i ;
  if (k <? 0) || (Z.of_nat (length (signal_handlers p)) <=? k)
  then undefined "signal_handlers index"
  else updp i (λ p, set_signal_handlers (<[Z.to_nat k := h]> (signal_handlers p)) p).

(** [act] and [oldact] point to [struct sigaction] in user memory: the handler
    at offset 0 and the mask at offset 4. *)
Definition sigaction (signum act oldact : Z) : M (pstate E) Z :=
  if (signum =? SIGKILL) || (signum =? SIGSTOP) then mret (-1) else
  m ← on_env (get_word (u32 (act + 4))) ;
  if m <? 0 then mret (-1) else
  p ← myproc ;
  i ← deref p off_signal_mask ;
  when (negb (oldact =? 0))
    (pr ← getp i ;
     h ← handler pr signum ;
     on_env (put_word oldact h) ;;
     pr ← getp i ;
     on_env (put_word (u32 (oldact + 4)) (signal_mask pr))) ;;
  h ← on_env (get_word act) ;
  set_handler i signum h ;;
  m ← on_env (get_word (u32 (act + 4))) ;
  updp i (set_signal_mask m) ;;
  mret 0.

Definition sigret : M (pstate E) unit :=
  p ← myproc ;
  i ← deref p 24 ;
  pr ← getp i ;
  l ← on_env (get_bytes (user_trap_fram_backup pr) 76) ;
  updp i (set_tf (bytes_tf l)) ;;
  updp i (λ p, set_tf (set_esp (u32 (esp (tf p) + TFSIZE)) (tf p)) p).

(** ** Delivery *)

(** Build the artificial frame for a user handler. *)
Definition deliver (i : nat) (k h : Z) : M (pstate E) unit :=
  cprintf "before backup\n" [k] ;;
  updp i (λ p, set_tf (set_esp (u32 (esp (tf p) - TFSIZE)) (tf p)) p) ;;
  p ← getp i ;
  on_env (put_bytes (esp (tf p)) (tf_bytes (tf p))) ;;
  updp i (λ p, set_user_trap_fram_backup (esp (tf p)) p) ;;
  let size := Z.of_nat (length implicit_sigret) in
  updp i (λ p, set_tf (set_esp (u32 (esp (tf p) - size)) (tf p)) p) ;;
  p ← getp i ;
  on_env (put_bytes (esp (tf p)) implicit_sigret) ;;
  on_env (put_word (u32 (esp (tf p) - 4)) k) ;;
  on_env (put_word (u32 (esp (tf p) - 8)) (esp (tf p))) ;;
  updp i (λ p, set_tf (set_esp (u32 (esp (tf p) - 8)) (tf p)) p) ;;
  updp i (λ p, set_tf (set_eip h (tf p)) p) ;;
  cprintf "after backup\n" [k].

(** One iteration of the loop of [sig_handler_runner]. *)
Definition sig_one (i : nat) (n : nat) : M (pstate E) unit :=
  let k := Z.of_nat n in
  p ← getp i ;
  let sig := Z.land (pending_signals p) (Z.shiftl 1 k) in
  if truth sig then
    cprintf "Execute (if not block) signal number %d...\n" [k] ;;
    updp i (λ p, set_pending_signals (Z.lxor (pending_signals p) (Z.shiftl 1 k)) p) ;;
    if k =? SIGSTOP then SIGSTOP_handler
    else if k =? SIGKILL then SIGKILL_handler
    else
      p ← getp i ;
      if negb (truth (Z.land (signal_mask p) sig)) then
        h ← handler p k ;
        if (k =? SIGCONT) && (h =? SIG_DFL) then cprintf "bennuy\n" [] ;; SIGCONT_handler
        else if h =? SIG_DFL then SIGKILL_handler
        else if h =? SIG_IGN then mret ()
        else deliver i k h
      else mret ()
  else mret ().

(** [tfcs] is the [cs] of the frame trapret is about to return through. *)
Definition sig_handler_runner (tfcs : Z) : M (pstate E) unit :=
  if negb (Z.land tfcs 3 =? DPL_USER) then mret () else
  p ← myproc ;
  i ← deref p 124 ;
  for_each (seq 0 32) (sig_one i).

(** ** Specification of user memory accesses *)

Definition mapped (e : E) (a n : Z) : Prop := user_ok e ∧ ∀ x, a ≤ x < a + n → is_Some (load8 e x).

(** [e'] is [e] with the bytes [l] at [a]. *)
Definition loads_as (e e' : E) (a : Z) (l : list Z) : Prop :=
  (user_ok e → user_ok e') ∧
  ∀ b, load8 e' b = if in_range a (length l) b then l !! Z.to_nat (b - a) else load8 e b.

(** The bytes [l] lie at [a]. *)
Definition holds (e : E) (a : Z) (l : list Z) : Prop :=
  ∀ i b, l !! i = Some b → load8 e (a + Z.of_nat i) = Some b.

Lemma mapped_sub e a n b m : mapped e a n → a ≤ b → b + m ≤ a + n → mapped e b m.
Proof. intros [Hok Hm] Hb Hn. split; [done|]. intros x Hx. apply Hm. lia. Qed.

Lemma loads_as_holds e e' a l : loads_as e e' a l → holds e' a l.
Proof.
  intros [_ Hl] i b Hi. pose proof (lookup_lt_Some _ _ _ Hi). rewrite (Hl _).
  range_cases; [|lia]. rewrite <- Hi. f_equal. lia.
Qed.

(** A write elsewhere does not change them. *)
Lemma loads_as_frame e e' a l b l' :
  loads_as e e' a l → a + length l ≤ b ∨ b + length l' ≤ a → holds e b l' → holds e' b l'.
Proof.
  intros [_ Hl] Hab Hh i x Hi. pose proof (lookup_lt_Some _ _ _ Hi). rewrite (Hl _).
  range_cases; [lia|]. by apply Hh.
Qed.

Lemma loads_as_mapped e e' a l b n : loads_as e e' a l → mapped e b n → mapped e' b n.
Proof.
  intros [Hok Hl] [Hmo Hm]. split; [by apply Hok|]. intros x Hx. rewrite (Hl x). range_cases; [|by apply Hm].
  apply lookup_lt_is_Some_2. lia.
Qed.

Lemma wp_put_bytes l : ∀ e a,
  0 ≤ a → a + length l ≤ 2 ^ 32 → mapped e a (length l) →
  wp (put_bytes a l) e (λ _ e' tr, tr = [] ∧ loads_as e e' a l).
Proof.
  induction l as [|b l IH]; intros e a Ha Hl [Hmo Hm]; simpl in Hl, Hm.
  { apply wp_ret. split; [done|]. split; [done|]. intros x. simpl. range_cases; [lia | done]. }
  unfold wp. simpl. destruct (store8 e a b) as [e1|] eqn:Hs; cycle 1.
  { destruct (proj2 (store8_mapped e a b)) as [? Hx]; [apply Hm; lia | congruence]. }
  destruct (load8_store8 _ _ _ _ Hmo Hs) as [Hok1 Hld].
  assert (mapped e1 (a + 1) (length l)) as Hm1.
  { split; [done|]. intros x Hx. rewrite Hld. case_decide; [done|]. apply Hm. lia. }
  destruct (decide (l = [])) as [->|Hne].
  { simpl. split; [done|]. split; [done|]. intros x. rewrite Hld. simpl. case_decide as Hx; range_cases; try lia.
    - by replace (Z.to_nat (x - a)) with O by lia.
    - done. }
  assert (0 < length l) by (destruct l; simpl in *; [done | lia]).
  rewrite u32_small by lia. pose proof (IH e1 (a + 1)) as Hw. unfold wp in Hw.
  destruct (put_bytes (a + 1) l e1) as [[] e' tr| |]; [|destruct Hw; try lia; done..].
  destruct Hw as [-> [Hok2 Hw]]; [lia | lia | done |].
  split; [done|]. split; [intros _; by apply Hok2|]. intros x. rewrite (Hw x), Hld. simpl length. range_cases; try lia.
  - by replace (Z.to_nat (x - a)) with (S (Z.to_nat (x - (a + 1)))) by lia.
  - case_decide; [|lia]. by replace (Z.to_nat (x - a)) with O by lia.
  - case_decide; [lia | done].
Qed.

Lemma wp_get_bytes l : ∀ e a,
  0 ≤ a → a + length l ≤ 2 ^ 32 →
  holds e a l → wp (get_bytes a (length l)) e (λ r e' tr, r = l ∧ e' = e ∧ tr = []).
Proof.
  induction l as [|b l IH]; intros e a Ha Hl Hld; [done|].
  unfold wp. simpl. pose proof (Hld O b eq_refl) as H0. rewrite Z.add_0_r in H0. rewrite H0.
  destruct (decide (l = [])) as [->|Hne]; [by mrun|].
  assert (0 < length l) by (destruct l; simpl in *; [done | lia]).
  simpl in Hl. rewrite u32_small by lia. pose proof (IH e (a + 1)) as Hw. unfold wp in Hw.
  assert (∀ i b, l !! i = Some b → load8 e (a + 1 + Z.of_nat i) = Some b) as Hld'.
  { intros i b' Hi. rewrite <- (Hld (S i) b' Hi). f_equal. lia. }
  mrun. destruct (get_bytes (a + 1) (length l) e) as [r e' tr| |];
    [|by destruct Hw; try lia..].
  destruct Hw as (-> & -> & ->); [lia | lia | done | done].
Qed.

Arguments put_bytes : simpl never.
Arguments get_bytes : simpl never.
Arguments tf_bytes : simpl never.

(** Adjacent writes, the upper one first. *)
Lemma loads_as_app e e1 e2 a l1 l2 b :
  loads_as e e1 b l2 → loads_as e1 e2 a l1 → b = a + length l1 → loads_as e e2 a (l1 ++ l2).
Proof.
  intros [Ho2 H2] [Ho1 H1] ->. split; [by intros ?%Ho2%Ho1|]. intros x. rewrite (H1 x), (H2 x), length_app. range_cases; try lia.
  - by rewrite lookup_app_l by lia.
  - rewrite lookup_app_r by lia. f_equal. lia.
  - done.
Qed.

(** Adjacent writes, the lower one first. *)
Lemma loads_as_app_up e e1 e2 a l1 l2 b :
  loads_as e e1 a l1 → loads_as e1 e2 b l2 → b = a + length l1 → loads_as e e2 a (l1 ++ l2).
Proof.
  intros [Ho1 H1] [Ho2 H2] ->. split; [by intros ?%Ho1%Ho2|]. intros x. rewrite (H2 x), (H1 x), length_app. range_cases; try lia.
  - rewrite lookup_app_r by lia. f_equal. lia.
  - by rewrite lookup_app_l by lia.
  - done.
Qed.

(** ** What a pending signal does *)

Inductive action := AStop | AKill | ACont | ANone | AUser (h : Z).

Definition action_of (p : proc) (k : Z) : action :=
  if k =? SIGSTOP then AStop
  else if k =? SIGKILL then AKill
  else if Z.testbit (signal_mask p) k then ANone
  else let h := default 0 (signal_handlers p !! Z.to_nat k) in
    if (k =? SIGCONT) && (h =? SIG_DFL) then ACont
    else if h =? SIG_DFL then AKill
    else if h =? SIG_IGN then ANone
    else AUser h.

Definition clear_pending (k : Z) (p : proc) : proc :=
  set_pending_signals (Z.lxor (pending_signals p) (Z.shiftl 1 k)) p.

(** The 91 bytes below the interrupted stack pointer when a user handler is
    entered: return address, argument, the sigret code, the saved frame. *)
Definition FRAME : Z := 91.
Definition user_stack (t : trapframe) (k : Z) : list Z :=
  le32 (esp t - TFSIZE - 7) ++ le32 k ++ implicit_sigret ++ tf_bytes (set_esp (esp t - TFSIZE) t).

(** The process on entry to the handler [h]. *)
Definition enter_handler (h : Z) (p : proc) : proc :=
  set_tf (set_eip h (set_esp (esp (tf p) - FRAME) (tf p)))
    (set_user_trap_fram_backup (esp (tf p) - TFSIZE) p).

(** One iteration of the delivery loop, as a relation between the process and
    its memory before and after. *)
Inductive delivered (k : Z) (p : proc) (e : E) : proc → E → Prop :=
  | dl_clear : Z.testbit (pending_signals p) k = false → delivered k p e p e
  | dl_stop : Z.testbit (pending_signals p) k = true → action_of p k = AStop →
      delivered k p e
        (if decide (state p = SLEEPING) then clear_pending k p
         else set_freeze 1 (clear_pending k p)) e
  | dl_kill : Z.testbit (pending_signals p) k = true → action_of p k = AKill →
      delivered k p e (set_killed 1 (clear_pending k p)) e
  | dl_cont : Z.testbit (pending_signals p) k = true → action_of p k = ACont →
      delivered k p e (set_freeze 0 (clear_pending k p)) e
  | dl_none : Z.testbit (pending_signals p) k = true → action_of p k = ANone →
      delivered k p e (clear_pending k p) e
  | dl_user h e' : Z.testbit (pending_signals p) k = true → action_of p k = AUser h →
      loads_as e e' (esp (tf p) - FRAME) (user_stack (tf p) k) →
      delivered k p e (enter_handler h (clear_pending k p)) e'.

Inductive delivered_all : list nat → proc → E → proc → E → Prop :=
  | da_nil p e : delivered_all [] p e p e
  | da_cons (n : nat) l p e p1 e1 p2 e2 :
      delivered n p e p1 e1 → delivered_all l p1 e1 p2 e2 → delivered_all (n :: l) p e p2 e2.

(** ** The loop body meets its specification *)

(** What the loop needs of a process. *)
Definition sig_wf (p : proc) : Prop :=
  length (signal_handlers p) = 32%nat ∧ Forall word_ok (signal_handlers p) ∧
  word_ok (pending_signals p) ∧ tf_ok (tf p).

(** Stack room for [n] handler frames. *)
Definition stack_room (p : proc) (e : E) (n : Z) : Prop :=
  n * FRAME ≤ esp (tf p) ∧ mapped e (esp (tf p) - n * FRAME) (n * FRAME).

Lemma wp_deliver s i p e k h :
  (i < length (procs s))%nat → tf_ok (tf p) → stack_room p e 1 →
  wp (deliver i k h) (at_proc s i p e) (λ _ s' _, ∃ e',
    loads_as e e' (esp (tf p) - FRAME) (user_stack (tf p) k) ∧
    s' = at_proc s i (enter_handler h p) e').
Proof.
  intros Hi Hok [Hr Hm]. unfold FRAME in *. pose proof (tf_ok_esp _ Hok) as He.
  unfold deliver, enter_handler. simpl in Hr, Hm.
  change (Z.of_nat (length implicit_sigret)) with 7. cbv zeta.
  apply wp_bind, wp_emit, wp_bind, wp_updp_at; [done|].
  apply wp_bind, wp_getp_at; [done|]. simpl. rewrite ?esp_set_esp.
  rewrite (u32_small (esp (tf p) - TFSIZE)) by (unfold TFSIZE; lia).
  apply wp_bind, wp_env_at. eapply wp_mono.
  { apply wp_put_bytes; rewrite ?length_tf_bytes; unfold TFSIZE; [lia | lia |].
    eapply mapped_sub; [exact Hm | lia..]. }
  intros _ e1 ? [_ Hl1]. apply wp_bind, wp_updp_at; [done|]. simpl.
  apply wp_bind, wp_updp_at; [done|]. simpl. rewrite ?esp_set_esp, ?set_esp_set_esp.
  rewrite (u32_small (esp (tf p) - TFSIZE - 7)) by (unfold TFSIZE; lia).
  apply wp_bind, wp_getp_at; [done|]. simpl. rewrite ?esp_set_esp.
  assert (mapped e1 (esp (tf p) - 91) 91) as Hm1.
  { eapply loads_as_mapped; [done|]. eapply mapped_sub; [exact Hm | lia..]. }
  apply wp_bind, wp_env_at. eapply wp_mono.
  { apply (wp_put_bytes implicit_sigret); unfold TFSIZE; simpl; [lia | lia |].
    eapply mapped_sub; [exact Hm1 | lia..]. }
  intros _ e2 ? [_ Hl2]. apply wp_bind, wp_env_at.
  rewrite (u32_small (_ - 4)) by (unfold TFSIZE; lia).
  pose proof (loads_as_mapped _ _ _ _ _ _ Hl2 Hm1) as Hm2. eapply wp_mono.
  { apply wp_put_bytes; unfold TFSIZE; simpl; [lia | lia |]. eapply mapped_sub; [exact Hm2 | lia..]. }
  intros _ e3 ? [_ Hl3]. apply wp_bind, wp_env_at.
  rewrite (u32_small (_ - 8)) by (unfold TFSIZE; lia).
  pose proof (loads_as_mapped _ _ _ _ _ _ Hl3 Hm2) as Hm3. eapply wp_mono.
  { apply wp_put_bytes; unfold TFSIZE; simpl; [lia | lia |]. eapply mapped_sub; [exact Hm3 | lia..]. }
  intros _ e4 ? [_ Hl4]. apply wp_bind, wp_updp_at; [done|]. simpl.
  rewrite ?esp_set_esp, ?set_esp_set_esp, (u32_small (_ - 8)) by (unfold TFSIZE; lia).
  apply wp_bind, wp_updp_at; [done|]. simpl. apply wp_emit. exists e4. split.
  2: { unfold TFSIZE. by replace (esp (tf p) - 76 - 7 - 8) with (esp (tf p) - 91) by lia. }
  unfold user_stack, TFSIZE in *.
  replace (esp (tf p) - 91) with (esp (tf p) - 76 - 7 - 8) by lia.
  eapply loads_as_app; [|exact Hl4|reflexivity].
  replace (_ + _) with (esp (tf p) - 76 - 7 - 4) by (simpl; lia).
  eapply loads_as_app; [|exact Hl3|reflexivity].
  eapply loads_as_app; [exact Hl1 | | simpl; lia].
  by replace (_ + _) with (esp (tf p) - 76 - 7) by (simpl; lia).
Qed.

(** Signal [n] is pending and its action satisfies [f]. *)
Definition fires (f : action → bool) (p : proc) (n : nat) : bool :=
  Z.testbit (pending_signals p) n && f (action_of p n).

Definition is_kill (a : action) : bool := match a with AKill => true | _ => false end.
Definition is_cont (a : action) : bool := match a with ACont => true | _ => false end.
Definition is_user (a : action) : bool := match a with AUser _ => true | _ => false end.
Definition is_stop (a : action) : bool := match a with AStop => true | _ => false end.

(** How many signals of [l] will enter a user handler. *)
Definition user_count (p : proc) (l : list nat) : nat := length (List.filter (fires is_user p) l).

Lemma wp_handler (s : pstate E) p (n : nat) (Q : Z → pstate E → list event → Prop) :
  length (signal_handlers p) = 32%nat → (n < 32)%nat →
  Q (default 0 (signal_handlers p !! n)) s [] → wp (handler p n) s Q.
Proof.
  intros Hl Hn HQ. unfold handler. rewrite (proj2 (Z.ltb_ge _ _)) by lia. rewrite Nat2Z.id.
  destruct (signal_handlers p !! n) eqn:Hh; [done|]. apply lookup_ge_None in Hh. lia.
Qed.

Lemma wp_SIGKILL_handler s i p e :
  (i < length (procs s))%nat → cur s = Some i →
  wp SIGKILL_handler (at_proc s i p e) (λ _ s' _, s' = at_proc s i (set_killed 1 p) e).
Proof.
  intros Hi Hc. unfold SIGKILL_handler. apply wp_bind, wp_emit, wp_bind, wp_myproc.
  simpl. rewrite Hc. by apply wp_bind, wp_ret, wp_updp_at.
Qed.

Lemma wp_SIGSTOP_handler s i p e :
  (i < length (procs s))%nat → cur s = Some i →
  wp SIGSTOP_handler (at_proc s i p e) (λ _ s' _,
    s' = at_proc s i (if decide (state p = SLEEPING) then p else set_freeze 1 p) e).
Proof.
  intros Hi Hc. unfold SIGSTOP_handler. apply wp_bind, wp_myproc.
  simpl. rewrite Hc. apply wp_bind, wp_ret, wp_bind, wp_getp_at; [done|].
  case_decide; [done|]. apply wp_bind, wp_myproc. simpl. rewrite Hc.
  by apply wp_bind, wp_ret, wp_updp_at.
Qed.

Lemma wp_SIGCONT_handler s i p e :
  (i < length (procs s))%nat → cur s = Some i →
  wp SIGCONT_handler (at_proc s i p e) (λ _ s' _, s' = at_proc s i (set_freeze 0 p) e).
Proof.
  intros Hi Hc. unfold SIGCONT_handler. apply wp_bind, wp_myproc.
  simpl. rewrite Hc. by apply wp_bind, wp_ret, wp_updp_at.
Qed.

Lemma wp_sig_one s i p e (n : nat) :
  (i < length (procs s))%nat → cur s = Some i → sig_wf p → (n < 32)%nat →
  (fires is_user p n = true → stack_room p e 1) →
  wp (sig_one i n) (at_proc s i p e) (λ _ s' _, ∃ p' e',
    delivered n p e p' e' ∧ s' = at_proc s i p' e').
Proof.
  intros Hi Hc (Hlen & _ & _ & Hok) Hn Hroom. unfold sig_one.
  apply wp_bind, wp_getp_at; [done|]. simpl snd.
  rewrite truth_land_bit by lia. destruct (Z.testbit _ n) eqn:Hb; cycle 1.
  { apply wp_ret. eauto using delivered. }
  apply wp_bind, wp_emit, wp_bind, wp_updp_at; [done|].
  change (set_pending_signals _ p) with (clear_pending n p).
  destruct (Z.of_nat n =? SIGSTOP) eqn:Hs.
  { eapply wp_mono; [by apply wp_SIGSTOP_handler|]. intros _ s' _ ->. eexists _, _.
    split; [|done]. refine (dl_stop _ _ _ Hb _). unfold action_of. by rewrite Hs. }
  destruct (Z.of_nat n =? SIGKILL) eqn:Hk.
  { eapply wp_mono; [by apply wp_SIGKILL_handler|]. intros _ s' _ ->. eexists _, _.
    split; [|done]. refine (dl_kill _ _ _ Hb _). unfold action_of. by rewrite Hs, Hk. }
  apply wp_bind, wp_getp_at; [done|]. rewrite land_bit_set, truth_land_bit by (done || lia).
  assert (action_of p n = _) as Hact by (unfold action_of; rewrite Hs, Hk; reflexivity).
  unfold fires in Hroom. rewrite Hb in Hroom.
  change (signal_mask (clear_pending n p)) with (signal_mask p).
  destruct (Z.testbit (signal_mask p) n).
  { apply wp_ret. eauto using delivered. }
  apply wp_bind, wp_handler; [done..|]. simpl signal_handlers. rewrite Nat2Z.id in Hact.
  change (signal_handlers (clear_pending n p)) with (signal_handlers p).
  set (h := default 0 (signal_handlers p !! n)) in *. cbv zeta in Hact.
  destruct ((Z.of_nat n =? SIGCONT) && (h =? SIG_DFL)).
  { eapply wp_bind, wp_emit, wp_mono; [by apply wp_SIGCONT_handler|]. intros _ s' _ ->.
    eauto using delivered. }
  destruct (h =? SIG_DFL).
  { eapply wp_mono; [by apply wp_SIGKILL_handler|]. intros _ s' _ ->. eauto using delivered. }
  destruct (h =? SIG_IGN).
  { apply wp_ret. eauto using delivered. }
  rewrite Hact in Hroom. eapply wp_mono; [apply wp_deliver; [done | done | by apply Hroom]|].
  intros _ s' _ (e' & Hl & ->). eauto using delivered.
Qed.

(** ** The whole loop *)

(** [p'] differs from [p] at most in the fields the delivery loop writes. *)
Definition signal_fields_only (p p' : proc) : Prop :=
  p' = set_tf (tf p') (set_killed (killed p') (set_pending_signals (pending_signals p')
    (set_user_trap_fram_backup (user_trap_fram_backup p') (set_freeze (freeze p') p)))).

Lemma signal_fields_only_refl p : signal_fields_only p p.
Proof. by destruct p. Qed.

Lemma signal_fields_only_trans p q r :
  signal_fields_only p q → signal_fields_only q r → signal_fields_only p r.
Proof. unfold signal_fields_only. intros Hq Hr. rewrite Hr. rewrite Hq. done. Qed.

Lemma action_of_fields p p' k : signal_fields_only p p' → action_of p' k = action_of p k.
Proof. intros ->. done. Qed.

Section one_delivery.
Context (n : nat) (p : proc) (e : E) (p' : proc) (e' : E) (Hd : delivered n p e p' e').

Lemma delivered_fields : signal_fields_only p p'.
Proof using Hd. destruct Hd; try case_decide; by destruct p. Qed.

Lemma delivered_pending j :
  Z.testbit (pending_signals p') j = Z.testbit (pending_signals p) j && negb (bool_decide (j = Z.of_nat n)).
Proof using Hd.
  assert (∀ q, pending_signals q = pending_signals (clear_pending n p) →
    Z.testbit (pending_signals p) n = true →
    Z.testbit (pending_signals q) j =
      Z.testbit (pending_signals p) j && negb (bool_decide (j = Z.of_nat n))) as Hclear.
  { intros q -> Hb. simpl. rewrite testbit_lxor_bit by lia. case_decide as Hj.
    - subst. by rewrite Hb, bool_decide_eq_true_2.
    - rewrite bool_decide_eq_false_2 by done. by rewrite andb_true_r. }
  destruct Hd as [Hb|Hb|Hb|Hb|Hb|? ? Hb]; try case_decide; try by apply Hclear.
  all: case_bool_decide; [by subst; rewrite Hb | by rewrite andb_true_r].
Qed.

Lemma delivered_killed : killed p' = if fires is_kill p n then 1 else killed p.
Proof using Hd.
  unfold fires. destruct Hd as [Hb|Hb Ha|Hb Ha|Hb Ha|Hb Ha|? ? Hb Ha]; rewrite Hb; try rewrite Ha;
    simpl; try case_decide; done.
Qed.

Lemma delivered_freeze : freeze p' =
  if fires is_cont p n then 0
  else if fires is_stop p n && bool_decide (state p ≠ SLEEPING) then 1 else freeze p.
Proof using Hd.
  unfold fires. destruct Hd as [Hb|Hb Ha|Hb Ha|Hb Ha|Hb Ha|? ? Hb Ha]; rewrite Hb; try rewrite Ha;
    simpl; try done.
  case_decide; [by rewrite bool_decide_eq_false_2; [|intros ?] | by rewrite bool_decide_eq_true_2].
Qed.

Lemma delivered_no_user : fires is_user p n = false →
  tf p' = tf p ∧ user_trap_fram_backup p' = user_trap_fram_backup p ∧ e' = e.
Proof using Hd.
  unfold fires. destruct Hd as [Hb|Hb Ha|Hb Ha|Hb Ha|Hb Ha|? ? Hb Ha]; rewrite Hb; try rewrite Ha;
    simpl; try case_decide; done.
Qed.

Lemma delivered_fires f (m : nat) : m ≠ n → fires f p' m = fires f p m.
Proof using Hd.
  intros Hm. unfold fires. rewrite (action_of_fields p p') by apply delivered_fields.
  rewrite delivered_pending, bool_decide_eq_false_2 by lia. by rewrite andb_true_r.
Qed.

Lemma delivered_wf : (n < 32)%nat → sig_wf p →
  (fires is_user p n = true → stack_room p e 1) → sig_wf p'.
Proof using Hd.
  intros Hn (Hlen & Hh & Hp & Ht) Hroom.
  assert (sig_wf (clear_pending n p)) as Hc.
  { split_and!; [done | done | apply word_lxor_bit; [done | lia] | done]. }
  unfold fires in Hroom.
  destruct Hd as [Hb|Hb Ha|Hb Ha|Hb Ha|Hb Ha|h ? Hb Ha]; try case_decide; try done.
  rewrite Hb, Ha in Hroom. destruct Hroom as [Hr _]; [done|]. unfold FRAME in Hr.
  destruct Hc as (? & ? & ? & ?). split_and!; [done..|].
  apply tf_ok_set_eip.
  - unfold action_of in Ha. repeat case_match; simplify_eq.
    destruct (signal_handlers p !! _) as [h|] eqn:Hl; [|done].
    by apply (Forall_lookup_1 _ _ _ _ Hh Hl).
  - apply tf_ok_set_esp; [|done]. pose proof (tf_ok_esp _ Ht).
    unfold word_ok, FRAME. change (tf (clear_pending n p)) with (tf p). lia.
Qed.

Lemma delivered_room (m : nat) :
  stack_room p e (Nat.b2n (fires is_user p n) + m)%nat → stack_room p' e' m.
Proof using Hd.
  destruct (fires is_user p n) eqn:Hf; cycle 1.
  { destruct (delivered_no_user Hf) as (Ht & _ & ->). unfold stack_room. by rewrite Ht. }
  unfold fires in Hf. intros [Hr Hm]. unfold FRAME in *.
  destruct Hd as [Hb|Hb Ha|Hb Ha|Hb Ha|Hb Ha|h e1 Hb Ha Hl]; rewrite Hb in Hf; try rewrite Ha in Hf; try done.
  unfold stack_room, enter_handler, FRAME. simpl in *.
  split; [lia|]. eapply loads_as_mapped; [done|]. eapply mapped_sub; [exact Hm | lia..].
Qed.
End one_delivery.

Lemma user_count_cons p n l :
  user_count p (n :: l) = (Nat.b2n (fires is_user p n) + user_count p l)%nat.
Proof. unfold user_count. simpl. by destruct (fires is_user p n). Qed.

Lemma user_count_nil p l : user_count p l = 0%nat → List.filter (fires is_user p) l = [].
Proof. apply nil_length_inv. Qed.

Lemma user_count_snoc p l ns n :
  List.filter (fires is_user p) l = ns ++ [n] → user_count p l = S (length ns).
Proof. intros Hf. unfold user_count. rewrite Hf, length_app. simpl. lia. Qed.

Lemma user_count_ext p p' l :
  (∀ m, m ∈ l → fires is_user p' m = fires is_user p m) → user_count p' l = user_count p l.
Proof.
  intros Heq. unfold user_count. f_equal. apply filter_ext_in. intros m Hm.
  by apply Heq, list_elem_of_In.
Qed.

Lemma wp_deliver_all s i l : ∀ p e,
  (i < length (procs s))%nat → cur s = Some i → NoDup l → (∀ n, n ∈ l → (n < 32)%nat) →
  sig_wf p → stack_room p e (user_count p l) →
  wp (for_each l (sig_one i)) (at_proc s i p e) (λ _ s' _, ∃ p' e',
    delivered_all l p e p' e' ∧ s' = at_proc s i p' e').
Proof.
  induction l as [|n l IH]; intros p e Hi Hc Hnd Hlt Hwf Hroom; simpl.
  { apply wp_ret. eauto using delivered_all. }
  apply NoDup_cons in Hnd as [Hn Hnd]. rewrite user_count_cons in Hroom.
  assert (n < 32)%nat by (apply Hlt; left).
  assert (fires is_user p n = true → stack_room p e 1) as Hroom1.
  { intros Hf. rewrite Hf in Hroom. destruct Hroom as [Hr Hm]. unfold FRAME in *. simpl in *.
    split; unfold FRAME; [lia|]. eapply mapped_sub; [exact Hm | lia..]. }
  apply wp_bind. eapply wp_mono; [by apply wp_sig_one|].
  intros _ s1 _ (p1 & e1 & Hd & ->). eapply wp_mono.
  - apply IH; [done..| | by eapply delivered_wf|].
    + intros m Hm. apply Hlt. by right.
    + rewrite (user_count_ext p p1).
      * by eapply delivered_room.
      * intros m Hm. eapply delivered_fires; [done|]. by intros ->.
  - intros _ s2 _ (p2 & e2 & Hda & ->). eauto using delivered_all.
Qed.

(** ** What the loop does to the process *)

Definition freeze_step (p : proc) (fz : Z) (n : nat) : Z :=
  if fires is_cont p n then 0
  else if fires is_stop p n && bool_decide (state p ≠ SLEEPING) then 1 else fz.

Lemma existsb_ext_elem {A} (f g : A → bool) l :
  (∀ x, x ∈ l → f x = g x) → existsb f l = existsb g l.
Proof.
  intros Hfg. induction l as [|x l IH]; [done|]. simpl. rewrite Hfg by left.
  f_equal. apply IH. intros y Hy. apply Hfg. by right.
Qed.

Lemma foldl_ext_elem {A B} (f g : A → B → A) l : ∀ a,
  (∀ a x, x ∈ l → f a x = g a x) → foldl f a l = foldl g a l.
Proof.
  induction l as [|x l IH]; intros a Hfg; [done|]. simpl. rewrite Hfg by left.
  apply IH. intros a' y Hy. apply Hfg. by right.
Qed.

Section all_deliveries.
Implicit Types (l : list nat) (p : proc) (e : E).

Lemma delivered_all_fields l p e p' e' : delivered_all l p e p' e' → signal_fields_only p p'.
Proof.
  induction 1 as [|n l p e p1 e1 p2 e2 Hd _ IH]; [apply signal_fields_only_refl|].
  eauto using signal_fields_only_trans, delivered_fields.
Qed.

Lemma delivered_all_pending l p e p' e' j : delivered_all l p e p' e' →
  Z.testbit (pending_signals p') j =
    Z.testbit (pending_signals p) j && negb (existsb (λ n, j =? Z.of_nat n) l).
Proof.
  induction 1 as [|n l p e p1 e1 p2 e2 Hd _ IH]; simpl; [by rewrite andb_true_r|].
  rewrite IH, (delivered_pending _ _ _ _ _ Hd), negb_orb, andb_assoc. f_equal. f_equal.
  f_equal. case_bool_decide; symmetry; [by apply Z.eqb_eq | by apply Z.eqb_neq].
Qed.

Lemma delivered_all_killed l p e p' e' : delivered_all l p e p' e' → NoDup l →
  killed p' = if existsb (fires is_kill p) l then 1 else killed p.
Proof.
  induction 1 as [|n l p e p1 e1 p2 e2 Hd _ IH]; intros Hnd; [done|]. simpl.
  apply NoDup_cons in Hnd as [Hn Hnd]. rewrite (IH Hnd), (delivered_killed _ _ _ _ _ Hd).
  rewrite (existsb_ext_elem (fires is_kill p1) (fires is_kill p) l); cycle 1.
  { intros m Hm. eapply delivered_fires; [done | by intros ->]. }
  by destruct (fires is_kill p n), (existsb (fires is_kill p) l).
Qed.

Lemma delivered_all_freeze l p e p' e' : delivered_all l p e p' e' → NoDup l →
  freeze p' = foldl (freeze_step p) (freeze p) l.
Proof.
  induction 1 as [|n l p e p1 e1 p2 e2 Hd _ IH]; intros Hnd; [done|]. simpl.
  apply NoDup_cons in Hnd as [Hn Hnd]. rewrite (IH Hnd), (delivered_freeze _ _ _ _ _ Hd).
  apply foldl_ext_elem. intros fz m Hm. unfold freeze_step.
  assert (m ≠ n) by (by intros ->). rewrite !(delivered_fires _ _ _ _ _ Hd) by done.
  assert (state p1 = state p) as -> by (by rewrite (delivered_fields _ _ _ _ _ Hd)). done.
Qed.

Lemma filter_fires_step (n : nat) l p e p1 e1 : delivered n p e p1 e1 → n ∉ l →
  List.filter (fires is_user p1) l = List.filter (fires is_user p) l.
Proof.
  intros Hd Hn. apply filter_ext_in. intros m Hm%list_elem_of_In.
  eapply delivered_fires; [done | by intros ->].
Qed.

Lemma delivered_all_no_user l p e p' e' : delivered_all l p e p' e' → NoDup l →
  List.filter (fires is_user p) l = [] →
  tf p' = tf p ∧ user_trap_fram_backup p' = user_trap_fram_backup p ∧ e' = e.
Proof.
  induction 1 as [|n l p e p1 e1 p2 e2 Hd _ IH]; intros Hnd Hf; [done|]. simpl in Hf.
  apply NoDup_cons in Hnd as [Hn Hnd]. destruct (fires is_user p n) eqn:Hu; [done|].
  destruct (delivered_no_user _ _ _ _ _ Hd Hu) as (Ht & Hb & ->).
  rewrite <- (filter_fires_step _ _ _ _ _ _ Hd Hn) in Hf.
  destruct (IH Hnd Hf) as (-> & -> & ->). done.
Qed.
End all_deliveries.

(** The frame after entering the handlers of the signals [ns] in order. *)
Definition handler_of (p : proc) (n : nat) : Z := default 0 (signal_handlers p !! n).
Definition enter_tf (t : trapframe) (h : Z) : trapframe := set_eip h (set_esp (esp t - FRAME) t).
Definition entered (p : proc) (ns : list nat) : trapframe :=
  foldl (λ t n, enter_tf t (handler_of p n)) (tf p) ns.

(** The bytes the handlers of the signals [ns] find on the stack, when the first
    is entered from the frame [t]: the frame of the last one lowest. *)
Fixpoint user_frames (p : proc) (t : trapframe) (ns : list nat) : list Z :=
  match ns with
  | [] => []
  | n :: ns => user_frames p (enter_tf t (handler_of p n)) ns ++ user_stack t n
  end.

(** The frame [t] is saved at [a] in user memory. *)
Definition saved_at (e : E) (a : Z) (t : trapframe) : Prop :=
  holds e a (tf_bytes t).

(** [deliver]ed for a user handler: what the process and its memory hold. *)
Lemma delivered_user (n : nat) p e p' e' : delivered n p e p' e' → fires is_user p n = true →
  tf p' = enter_tf (tf p) (handler_of p n) ∧
  user_trap_fram_backup p' = esp (tf p) - TFSIZE ∧
  saved_at e' (esp (tf p) - TFSIZE) (set_esp (esp (tf p) - TFSIZE) (tf p)) ∧
  loads_as e e' (esp (tf p) - FRAME) (user_stack (tf p) n).
Proof.
  unfold fires. destruct 1 as [Hb|Hb Ha|Hb Ha|Hb Ha|Hb Ha|h e1 Hb Ha Hl]; rewrite Hb;
    try rewrite Ha; try done. intros _. split_and!; [|done| |done].
  - unfold enter_handler, enter_tf, handler_of. simpl. f_equal.
    unfold action_of in Ha. repeat case_match; simplify_eq. by rewrite Nat2Z.id.
  - intros i b Hi. rewrite (proj2 Hl _). pose proof (lookup_lt_Some _ _ _ Hi) as Hlt.
    rewrite length_tf_bytes in Hlt. unfold user_stack, FRAME, TFSIZE in *. range_cases.
    + rewrite !lookup_app_r by (simpl; lia). rewrite <- Hi. f_equal. simpl. lia.
    + rewrite !length_app, length_tf_bytes in *. simpl in *. lia.
Qed.

Lemma handler_of_fields p p1 n : signal_fields_only p p1 → handler_of p1 n = handler_of p n.
Proof. intros ->. done. Qed.

Lemma entered_cons p p1 n ns :
  signal_fields_only p p1 → tf p1 = enter_tf (tf p) (handler_of p n) →
  entered p (n :: ns) = entered p1 ns.
Proof.
  intros Hf Ht. unfold entered. simpl. rewrite Ht.
  apply foldl_ext_elem. intros t m _. by rewrite (handler_of_fields p p1).
Qed.

Lemma entered_fields p p1 ns : signal_fields_only p p1 → tf p1 = tf p → entered p1 ns = entered p ns.
Proof. intros Hf Ht. unfold entered. rewrite Ht. apply foldl_ext_elem. intros. by rewrite (handler_of_fields p p1). Qed.

(** The last user handler entered has the frame built by the ones before it
    saved below that frame's stack pointer. *)
Lemma delivered_all_user l p e p' e' : delivered_all l p e p' e' → ∀ ns n, NoDup l →
  List.filter (fires is_user p) l = ns ++ [n] →
  let t := entered p ns in
  tf p' = enter_tf t (handler_of p n) ∧
  user_trap_fram_backup p' = esp t - TFSIZE ∧
  saved_at e' (esp t - TFSIZE) (set_esp (esp t - TFSIZE) t).
Proof.
  induction 1 as [|m l p e p1 e1 p2 e2 Hd Hda IH]; intros ns n Hnd Hf.
  { by destruct ns. }
  apply NoDup_cons in Hnd as [Hm Hnd]. simpl in Hf.
  pose proof (filter_fires_step _ _ _ _ _ _ Hd Hm) as Hstep.
  pose proof (delivered_fields _ _ _ _ _ Hd) as Hfl.
  destruct (fires is_user p m) eqn:Hu; cycle 1.
  - destruct (delivered_no_user _ _ _ _ _ Hd Hu) as (Ht & _ & ->).
    rewrite <- Hstep in Hf. specialize (IH ns n Hnd Hf). cbv zeta in *.
    by rewrite (entered_fields p p1), (handler_of_fields p p1) in IH.
  - destruct (delivered_user _ _ _ _ _ Hd Hu) as (Ht & Hb & Hs & _).
    destruct ns as [|m' ns]; simplify_list_eq.
    + destruct (delivered_all_no_user _ _ _ _ _ Hda Hnd) as (-> & -> & ->); [congruence|].
      done.
    + rewrite (entered_cons p p1) by done. rewrite <- Hstep in H1.
      specialize (IH ns n Hnd H1). by rewrite (handler_of_fields p p1) in IH.
Qed.

Lemma user_frames_fields p p1 ns : signal_fields_only p p1 → ∀ t, user_frames p1 t ns = user_frames p t ns.
Proof. intros Hf. induction ns as [|n ns IH]; intros t; simpl; [done|]. by rewrite IH, (handler_of_fields p p1). Qed.

Lemma length_user_frames p ns : ∀ t, Z.of_nat (length (user_frames p t ns)) = length ns * FRAME.
Proof.
  induction ns as [|n ns IH]; intros t; simpl; [done|]. rewrite length_app, Nat2Z.inj_add, IH. unfold user_stack, FRAME.
  rewrite !length_app, length_tf_bytes. simpl. lia.
Qed.

(** The frame the process returns with, and all of its memory. *)
Lemma delivered_all_frames l p e p' e' : delivered_all l p e p' e' → NoDup l →
  let ns := List.filter (fires is_user p) l in
  tf p' = entered p ns ∧ loads_as e e' (esp (tf p) - length ns * FRAME) (user_frames p (tf p) ns).
Proof.
  induction 1 as [p e|m l p e p1 e1 p2 e2 Hd Hda IH]; intros Hnd; cbv zeta.
  { split; [done|]. split; [done|]. intros b. simpl. range_cases; [lia | done]. }
  apply NoDup_cons in Hnd as [Hm Hnd]. specialize (IH Hnd). cbv zeta in IH. rewrite (filter_fires_step _ _ _ _ _ _ Hd Hm) in IH.
  pose proof (delivered_fields _ _ _ _ _ Hd) as Hfl. rewrite (user_frames_fields p p1) in IH by done. simpl. set (ns := List.filter _ l) in *.
  destruct (fires is_user p m) eqn:Hu; cycle 1.
  { destruct (delivered_no_user _ _ _ _ _ Hd Hu) as (Ht & _ & ->). by rewrite Ht, (entered_fields p p1) in IH. }
  destruct (delivered_user _ _ _ _ _ Hd Hu) as (Ht & _ & _ & Hl). rewrite <- (entered_cons p p1 m) in IH by done. destruct IH as [IHt IHl]. split; [done|].
  rewrite Ht in IHl. eapply loads_as_app; [exact Hl | | rewrite length_user_frames; simpl length; lia].
  replace (_ - _) with (esp (enter_tf (tf p) (handler_of p m)) - length ns * FRAME); [done|].
  unfold enter_tf. rewrite esp_set_eip, esp_set_esp. simpl length. lia.
Qed.

(** ** The return to user mode *)

Lemma wp_runner s i p tfcs :
  cur s = Some i → procs s !! i = Some p → sig_wf p → Z.land tfcs 3 = DPL_USER →
  stack_room p (env s) (user_count p (seq 0 32)) →
  wp (sig_handler_runner tfcs) s (λ _ s' _, ∃ p' e',
    delivered_all (seq 0 32) p (env s) p' e' ∧ s' = at_proc s i p' e').
Proof.
  intros Hc Hp Hwf Hcs Hroom. unfold sig_handler_runner. rewrite Hcs. simpl negb.
  apply wp_bind, wp_myproc. rewrite Hc. apply wp_bind, wp_ret.
  rewrite (at_proc_id s i p) at 1 by done. eapply wp_mono.
  - apply wp_deliver_all; [by eapply lookup_lt_Some | done | apply NoDup_seq | | done | done].
    intros n Hn. apply elem_of_seq in Hn. lia.
  - done.
Qed.

Lemma fires_cont_only p n : n ≠ 19%nat → fires is_cont p n = false.
Proof.
  intros Hn. unfold fires, action_of. repeat case_match; try by rewrite andb_false_r.
  match goal with H : _ && _ = true |- _ => apply andb_true_iff in H as [H _] end.
  unfold SIGCONT in *. lia.
Qed.

Lemma fires_stop_only p n : n ≠ 17%nat → fires is_stop p n = false.
Proof.
  intros Hn. unfold fires, action_of. repeat case_match; try by rewrite andb_false_r.
  unfold SIGSTOP in *. lia.
Qed.

Lemma freeze_after p fz : foldl (freeze_step p) fz (seq 0 32) =
  if fires is_cont p 19 then 0
  else if Z.testbit (pending_signals p) SIGSTOP && bool_decide (state p ≠ SLEEPING) then 1 else fz.
Proof.
  assert (∀ n x, n ≠ 17%nat → n ≠ 19%nat → freeze_step p x n = x) as Hskip.
  { intros n x ? ?. unfold freeze_step. by rewrite fires_cont_only, fires_stop_only. }
  assert (fires is_stop p 17 = Z.testbit (pending_signals p) SIGSTOP) as Hstop.
  { unfold fires. apply andb_true_r. }
  change (seq 0 32) with (seq 0 17 ++ [17%nat; 18%nat; 19%nat] ++ seq 20 12).
  rewrite !foldl_app. set (x := foldl _ fz (seq 0 17)).
  assert (x = fz) as -> by (unfold x; simpl; by rewrite !Hskip by lia).
  set (y := foldl _ fz _). assert (∀ z, foldl (freeze_step p) z (seq 20 12) = z) as ->.
  { intros z. simpl. by rewrite !Hskip by lia. }
  unfold y. simpl. rewrite (Hskip 18%nat) by lia. unfold freeze_step.
  rewrite (fires_cont_only p 17), (fires_stop_only p 19), Hstop by lia. done.
Qed.

Lemma pending_cleared p p' e e' :
  sig_wf p → delivered_all (seq 0 32) p e p' e' → pending_signals p' = 0.
Proof.
  intros (_ & _ & Hw & _) Hd.
  assert (∀ j, Z.testbit (pending_signals p') j =
    Z.testbit (pending_signals p) j && negb (existsb (λ n, j =? Z.of_nat n) (seq 0 32))) as Hb.
  { intros j. by eapply delivered_all_pending. }
  apply Z.bits_inj'. intros j Hj. rewrite Hb, Z.bits_0. destruct (decide (j < 32)).
  - replace (existsb _ _) with true; [apply andb_false_r|]. symmetry. apply existsb_exists.
    exists (Z.to_nat j). split; [apply in_seq; lia | apply Z.eqb_eq; lia].
  - replace (pending_signals p) with (u32 (pending_signals p)) by (by apply u32_small).
    unfold u32. rewrite Z.mod_pow2_bits_high by lia. done.
Qed.

(** ** Properties *)


(** [s2] is reached from [s1] by user code of process [i] that has not written
    over the frame saved at the backup address. *)
Definition frame_intact (i : nat) (s1 s2 : pstate E) : Prop :=
  cur s2 = Some i ∧ ∃ p1 p2, procs s1 !! i = Some p1 ∧ procs s2 !! i = Some p2 ∧
    user_trap_fram_backup p2 = user_trap_fram_backup p1 ∧
    ∀ x, user_trap_fram_backup p1 ≤ x < user_trap_fram_backup p1 + TFSIZE →
      load8 (env s2) x = load8 (env s1) x.

Lemma wp_sigret s i p t :
  cur s = Some i → procs s !! i = Some p → tf_ok t →
  let a := user_trap_fram_backup p in
  0 ≤ a → a + TFSIZE ≤ 2 ^ 32 → saved_at (env s) a t →
  wp sigret s (λ _ s' _,
    s' = at_proc s i (set_tf (set_esp (u32 (esp t + TFSIZE)) t) p) (env s)).
Proof.
  intros Hc Hp Ht a Ha Ha' Hs. pose proof (lookup_lt_Some _ _ _ Hp) as Hi.
  unfold sigret. apply wp_bind, wp_myproc. rewrite Hc. apply wp_bind, wp_ret.
  rewrite (at_proc_id s i p) at 1 by done. apply wp_bind, wp_getp_at; [done|].
  apply wp_bind, wp_env_at. eapply wp_mono.
  { apply (wp_get_bytes (tf_bytes t)); [done | rewrite length_tf_bytes; unfold TFSIZE in *; lia|done]. }
  intros l e ? (-> & -> & _). rewrite bytes_tf_tf_bytes by done.
  apply wp_bind, wp_updp_at; [done|]. by apply wp_updp_at.
Qed.

Lemma entered_ok p ns : tf_ok (tf p) → Forall word_ok (signal_handlers p) →
  length ns * FRAME ≤ esp (tf p) →
  tf_ok (entered p ns) ∧ esp (entered p ns) = esp (tf p) - length ns * FRAME.
Proof.
  intros Ht Hh. induction ns as [|n ns IH] using rev_ind; intros Hr; unfold FRAME in *.
  { split; [done|]. unfold entered. simpl. lia. }
  rewrite length_app in Hr. simpl in Hr. destruct IH as [IHt IHe]; [lia|].
  pose proof (tf_ok_esp _ Ht). unfold entered in *. rewrite foldl_snoc, length_app.
  unfold enter_tf at 1 3, FRAME. rewrite esp_set_eip, esp_set_esp, IHe. split; [|simpl; lia].
  apply tf_ok_set_eip; [|apply tf_ok_set_esp; [unfold word_ok; lia | done]].
  unfold handler_of. destruct (signal_handlers p !! n) eqn:Hl; [|done].
  by apply (Forall_lookup_1 _ _ _ _ Hh Hl).
Qed.

(** C14: [sigret] undoes the last user handler entered. If the pending signals
    with user handlers are [ns] followed by [n], then a [sigret] executed any
    time later, with the saved frame intact, puts back exactly the frame that
    was in effect before the handler of [n] was entered, stack pointer
    included; with one such signal ([ns] empty) that is the interrupted frame
    itself. The saved frame stays intact across [sigret]. *)
Theorem sigret_restores s i p tfcs ns n :
  cur s = Some i → procs s !! i = Some p → sig_wf p → Z.land tfcs 3 = DPL_USER →
  stack_room p (env s) (user_count p (seq 0 32)) →
  List.filter (fires is_user p) (seq 0 32) = ns ++ [n] →
  wp (sig_handler_runner tfcs) s (λ _ s1 _, ∀ s2, frame_intact i s1 s2 →
    wp sigret s2 (λ _ s3 _, frame_intact i s1 s3 ∧
      ∃ p3, procs s3 !! i = Some p3 ∧ tf p3 = entered p ns)).
Proof.
  intros Hc Hp Hwf Hcs Hroom Hns. pose proof (lookup_lt_Some _ _ _ Hp) as Hi.
  eapply wp_mono; [by apply wp_runner|]. intros _ s' _ (p' & e' & Hd & ->) s2 Hint.
  destruct (delivered_all_user _ _ _ _ _ Hd _ _ (NoDup_seq 0 32) Hns) as (_ & Hb & Hs).
  destruct Hwf as (_ & Hh & _ & Ht). destruct Hroom as [Hroom _].
  rewrite (user_count_snoc _ _ _ _ Hns) in Hroom. unfold FRAME in Hroom.
  destruct (entered_ok p ns) as [Hok Hesp]; [done | done | unfold FRAME; lia |].
  pose proof (tf_ok_esp _ Ht). unfold FRAME in *.
  pose proof Hint as (Hc2 & p1 & p2 & Hp1 & Hp2 & Hbk & Hmem).
  simpl in Hp1. rewrite list_lookup_insert_eq in Hp1 by done. simplify_eq. simpl in Hmem.
  rewrite Hb in Hbk, Hmem. unfold TFSIZE in *. eapply wp_mono.
  { apply (wp_sigret s2 i p2 (set_esp (esp (entered p ns) - 76) (entered p ns))); rewrite ?Hbk; try done.
    - apply tf_ok_set_esp; [unfold word_ok; lia | done].
    - lia.
    - unfold TFSIZE. lia.
    - intros j b Hj. pose proof (lookup_lt_Some _ _ _ Hj) as Hlt. rewrite length_tf_bytes in Hlt.
      rewrite Hmem by lia. by apply Hs. }
  intros _ s3 _ ->. pose proof (lookup_lt_Some _ _ _ Hp2) as Hi2. split.
  - split; [done|]. eexists _, _. split_and!; [by apply list_lookup_insert_eq.. | |].
    + simpl. by rewrite Hbk, Hb.
    + rewrite Hb. intros x Hx. by apply Hmem.
  - eexists. split; [by apply list_lookup_insert_eq|]. simpl.
    rewrite ?esp_set_esp, ?set_esp_set_esp. unfold TFSIZE.
    rewrite u32_small by lia. rewrite Z.sub_add. apply set_esp_id.
Qed.

(** ** The system calls *)

Lemma wp_put_word e a v :
  0 ≤ a → a + 4 ≤ 2 ^ 32 → mapped e a 4 →
  wp (put_word a v) e (λ _ e' _, loads_as e e' a (le32 v)).
Proof.
  intros. eapply wp_mono; [by apply wp_put_bytes|]. by intros ? ? ? [_ ?].
Qed.

Lemma wp_get_word e a v (Q : Z → E → list event → Prop) :
  0 ≤ a → a + 4 ≤ 2 ^ 32 → word_ok v → holds e a (le32 v) → Q v e [] → wp (get_word a) e Q.
Proof.
  intros ? ? Hv ? HQ. unfold get_word. apply wp_bind. eapply wp_mono.
  { by apply (wp_get_bytes (le32 v)). }
  intros l e' tr (-> & -> & ->). apply wp_ret.
  rewrite <- (app_nil_r (le32 v)), le32_val_le32, u32_small by done. done.
Qed.

(** A [struct sigaction] in user memory. *)
Definition action_at (e : E) (a h m : Z) : Prop :=
  0 ≤ a ∧ a + 8 ≤ 2 ^ 32 ∧ word_ok h ∧ word_ok m ∧ holds e a (le32 h) ∧ holds e (a + 4) (le32 m).

Lemma wp_set_handler s i p e (k : nat) h (Q : unit → pstate E → list event → Prop) :
  (i < length (procs s))%nat → length (signal_handlers p) = 32%nat → (k < 32)%nat →
  Q () (at_proc s i (set_signal_handlers (<[k := h]> (signal_handlers p)) p) e) [] →
  wp (set_handler i k h) (at_proc s i p e) Q.
Proof.
  intros Hi Hl Hk HQ. unfold set_handler. apply wp_bind, wp_getp_at; [done|].
  rewrite Hl, (proj2 (Z.ltb_ge _ _)), (proj2 (Z.leb_gt _ _)) by lia.
  apply wp_updp_at; [done|]. by rewrite Nat2Z.id.
Qed.

(** Where [sigaction] may write the previous action. *)
Definition oldact_ok (e : E) (act oldact : Z) : Prop :=
  oldact = 0 ∨ (0 < oldact ∧ oldact + 8 ≤ 2 ^ 32 ∧ mapped e oldact 8 ∧
                (act + 8 ≤ oldact ∨ oldact + 8 ≤ act)).

(** The writes to [oldact], for an [act] that lies apart from it. *)
Lemma wp_save_old s i p (k : nat) act oldact h m :
  (i < length (procs s))%nat → length (signal_handlers p) = 32%nat → (k < 32)%nat →
  action_at (env s) act h m → oldact_ok (env s) act oldact →
  wp (when (negb (oldact =? 0))
       (pr ← getp i ;
        h ← handler pr k ;
        on_env (put_word oldact h) ;;
        pr ← getp i ;
        on_env (put_word (u32 (oldact + 4)) (signal_mask pr)))) (at_proc s i p (env s))
    (λ _ s' _, ∃ e', s' = at_proc s i p e' ∧ action_at e' act h m ∧
      (if decide (oldact = 0) then e' = env s
       else loads_as (env s) e' oldact (le32 (handler_of p k) ++ le32 (signal_mask p)))).
Proof.
  intros Hi Hlen Hk Hact Hold. destruct Hold as [->|(Ho & Ho' & Hm & Hapart)].
  { apply wp_ret. exists (env s). by rewrite decide_True. }
  rewrite (proj2 (Z.eqb_neq oldact 0)) by lia. simpl when.
  apply wp_bind, wp_getp_at; [done|]. apply wp_bind, wp_handler; [done..|].
  apply wp_bind, wp_env_at. eapply wp_mono.
  { apply wp_put_word; [lia | lia |]. eapply mapped_sub; [exact Hm | lia..]. }
  intros ? e1 ? Hl1. apply wp_bind, wp_getp_at; [done|]. apply wp_env_at.
  rewrite u32_small by lia. eapply wp_mono.
  { apply wp_put_word; [lia | lia |]. eapply loads_as_mapped; [exact Hl1|]. eapply mapped_sub; [exact Hm | lia..]. }
  intros ? e2 ? Hl2. exists e2.
  assert (loads_as (env s) e2 oldact (le32 (handler_of p k) ++ le32 (signal_mask p))) as Hl.
  { exact (loads_as_app_up _ _ _ _ _ _ _ Hl1 Hl2 eq_refl). }
  rewrite decide_False by lia.
  split_and!; [done | | done]. destruct Hact as (? & ? & ? & ? & ? & ?).
  split_and!; try done; (eapply loads_as_frame; [done | | done]); rewrite length_app, !length_le32; lia.
Qed.

(** [sigaction] on a signal other than SIGKILL and SIGSTOP, with [act] readable
    and [oldact] null or writable and apart from [act], succeeds: the handler of
    the signal and the process mask are those of [act], the previous pair is in
    [oldact], and nothing else changes. *)
Theorem sigaction_correct s i p (k : nat) act oldact h m :
  cur s = Some i → procs s !! i = Some p → length (signal_handlers p) = 32%nat →
  (k < 32)%nat → Z.of_nat k ≠ SIGKILL → Z.of_nat k ≠ SIGSTOP → action_at (env s) act h m →
  oldact_ok (env s) act oldact →
  wp (sigaction k act oldact) s (λ r s' _, r = 0 ∧ ∃ e',
    s' = at_proc s i (set_signal_mask m
           (set_signal_handlers (<[k := h]> (signal_handlers p)) p)) e' ∧
    (if decide (oldact = 0) then e' = env s
     else loads_as (env s) e' oldact (le32 (handler_of p k) ++ le32 (signal_mask p)))).
Proof.
  intros Hc Hp Hlen Hk Hnk Hns Hact Hold. pose proof (lookup_lt_Some _ _ _ Hp) as Hi.
  unfold sigaction. rewrite (proj2 (Z.eqb_neq _ _) Hnk), (proj2 (Z.eqb_neq _ _) Hns). simpl orb.
  rewrite (at_proc_id s i p) at 1 by done. pose proof Hact as (Ha & Ha' & Hwh & Hwm & Hah & Ham).
  rewrite u32_small by lia.
  apply wp_bind, wp_env_at, (wp_get_word _ _ m); [lia | lia | done | done |].
  rewrite (proj2 (Z.ltb_ge m 0)) by (unfold word_ok in *; lia).
  apply wp_bind, wp_myproc. simpl cur. rewrite Hc. apply wp_bind, wp_ret, wp_bind.
  eapply wp_mono; [by eapply wp_save_old|]. intros _ s1 _ (e1 & -> & Hact1 & Hl).
  destruct Hact1 as (_ & _ & _ & _ & Hah1 & Ham1).
  apply wp_bind, wp_env_at, (wp_get_word _ _ h); [lia | lia | done | done |].
  apply wp_bind, wp_set_handler; [done..|].
  apply wp_bind, wp_env_at, (wp_get_word _ _ m); [lia | lia | done | done |].
  apply wp_bind, wp_updp_at; [done|]. apply wp_ret. eauto.
Qed.

(** [sigaction] does not check its signal number: with a number outside
    0..31 and a readable [act] it accesses [signal_handlers] out of bounds, where
    [kill] rejects the same number. *)
Theorem sigaction_out_of_range s i p k act oldact h m :
  cur s = Some i → procs s !! i = Some p → length (signal_handlers p) = 32%nat →
  ¬ (0 ≤ k ≤ 31) → action_at (env s) act h m →
  kill (pid p) k s = Ok (-1) s [] ∧
  crashes (sigaction k act oldact) s (Undefined "signal_handlers index").
Proof.
  intros Hc Hp Hlen Hk (Ha & Ha' & Hwh & Hwm & Hah & Ham).
  pose proof (lookup_lt_Some _ _ _ Hp) as Hi. split.
  { unfold kill. replace ((k <? 0) || (31 <? k)) with true by lia. done. }
  unfold sigaction. replace ((k =? SIGKILL) || (k =? SIGSTOP)) with false
    by (unfold SIGKILL, SIGSTOP; lia).
  rewrite (at_proc_id s i p) at 1 by done. rewrite u32_small by lia.
  apply crashes_bind, wp_env_at, (wp_get_word _ _ m); [lia | lia | done | done |].
  rewrite (proj2 (Z.ltb_ge m 0)) by (unfold word_ok in *; lia).
  apply crashes_bind, wp_myproc. simpl cur. rewrite Hc. apply crashes_bind, wp_ret.
  destruct (oldact =? 0); simpl when.
  - apply crashes_bind, wp_ret, crashes_bind, wp_env_at, (wp_get_word _ _ h);
      [lia | lia | done | done |].
    apply crashes_here, crashes_bind, wp_getp_at; [done|]. rewrite Hlen.
    change (Z.of_nat 32) with 32. replace ((k <? 0) || (32 <=? k)) with true by lia. by eexists.
  - apply crashes_here, crashes_bind, wp_getp_at; [done|]. apply crashes_here.
    unfold handler. destruct (Z.ltb_spec k 0); [by eexists|].
    rewrite lookup_ge_None_2 by lia. by eexists.
Qed.

Lemma kill_effect s pid' signum : ∃ r s' tr,
  kill pid' signum s = Ok r s' tr ∧
  ((r = -1 ∧ s' = s ∧ (¬ (0 ≤ signum ≤ 31) ∨ ∀ p, p ∈ procs s → pid p ≠ pid')) ∨
   (r = 0 ∧ 0 ≤ signum ≤ 31 ∧ ∃ i p p',
     procs s !! i = Some p ∧ pid p = pid' ∧
     (∀ j q, (j < i)%nat → procs s !! j = Some q → pid q ≠ pid') ∧
     s' = set_procs (<[i := p']> (procs s)) s ∧
     (∀ k, Z.testbit (pending_signals p') k = Z.testbit (pending_signals p) k || bool_decide (k = signum)) ∧
     state p' = (if decide (state p = SLEEPING ∧ signum = SIGKILL) then RUNNABLE else state p) ∧
     p' = set_pending_signals (pending_signals p') (set_state (state p') p))).
Proof.
  unfold kill. destruct (decide (0 ≤ signum ≤ 31)) as [Hs|Hs]; cycle 1.
  { replace ((signum <? 0) || (31 <? signum)) with true by lia. eexists _, _, _.
    split; [done|]. left. by auto. }
  replace ((signum <? 0) || (31 <? signum)) with false by lia. mrun.
  destruct (list_find _ (procs s)) as [[i p]|] eqn:Hf; cycle 1.
  { eexists _, _, _. split; [done|]. left. split_and!; [done..|]. right. intros p Hp.
    apply list_find_None in Hf. by eapply Forall_forall in Hf. }
  apply list_find_Some in Hf as (Hp & Hpid & Hfirst).
  pose proof (lookup_lt_Some _ _ _ Hp) as Hi.
  mrun. rewrite (alter_as_insert _ _ _ _ Hp). unfold getp. simpl.
  rewrite list_lookup_insert_eq by done. simpl.
  assert (∀ st, ∀ k, Z.testbit (pending_signals (set_state st
    (set_pending_signals (Z.lor (pending_signals p) (Z.shiftl 1 signum)) p))) k =
    Z.testbit (pending_signals p) k || bool_decide (k = signum)) as Hbit.
  { intros st k. simpl. by rewrite testbit_lor_bit by lia. }
  destruct (decide (state p = SLEEPING ∧ signum = SIGKILL)) as [[Hst ->]|Hno].
  - rewrite bool_decide_eq_true_2 by done. simpl. rewrite alter_insert by done.
    eexists _, _, _. split; [done|]. right. split_and!; [done..|]. eexists i, p, _.
    split_and!; [done | done | by eauto | done | exact (Hbit RUNNABLE) | by rewrite decide_True | done].
  - replace (bool_decide (state p = SLEEPING) && (signum =? SIGKILL)) with false; cycle 1.
    { symmetry. case_bool_decide; [|done]. apply Z.eqb_neq. naive_solver. }
    simpl. eexists _, _, _. split; [done|]. right. split_and!; [done | lia | lia |]. eexists i, p, _.
    split_and!; [done | done | by eauto | done | exact (Hbit (state p)) | by rewrite decide_False | by destruct p].
Qed.

(** [kill] fails and changes nothing when the signal number is not in 0..31
    or no process has the pid; otherwise it sets exactly the signal's bit in
    the first process with the pid, and wakes it exactly when it sleeps and
    the signal is SIGKILL. *)
Theorem kill_correct s pid' signum : ∃ r s' tr,
  kill pid' signum s = Ok r s' tr ∧
  ((r = -1 ∧ s' = s ∧ (¬ (0 ≤ signum ≤ 31) ∨ ∀ p, p ∈ procs s → pid p ≠ pid')) ∨
   (r = 0 ∧ 0 ≤ signum ≤ 31 ∧ ∃ i p p',
     procs s !! i = Some p ∧ pid p = pid' ∧
     (∀ j q, (j < i)%nat → procs s !! j = Some q → pid q ≠ pid') ∧
     s' = set_procs (<[i := p']> (procs s)) s ∧
     (∀ k, Z.testbit (pending_signals p') k = Z.testbit (pending_signals p) k || bool_decide (k = signum)) ∧
     state p' = (if decide (state p = SLEEPING ∧ signum = SIGKILL) then RUNNABLE else state p) ∧
     p' = set_pending_signals (pending_signals p') (set_state (state p') p))).
Proof. apply kill_effect. Qed.

(** [sigprocmask] replaces the mask of the calling process, returns the previous
    one, and is undone by calling it with the value it returned. *)
Theorem sigprocmask_roundtrip s i p m :
  cur s = Some i → procs s !! i = Some p →
  wp (sigprocmask m) s (λ r s1 _,
    r = signal_mask p ∧ s1 = at_proc s i (set_signal_mask m p) (env s) ∧
    wp (sigprocmask r) s1 (λ r' s2 _, r' = m ∧ s2 = s)).
Proof.
  intros Hc Hp. pose proof (lookup_lt_Some _ _ _ Hp) as Hi.
  unfold sigprocmask. rewrite (at_proc_id s i p) at 1 by done.
  apply wp_bind, wp_myproc. simpl cur. rewrite Hc. apply wp_bind, wp_ret.
  apply wp_bind, wp_getp_at; [done|]. apply wp_bind, wp_updp_at; [done|]. apply wp_ret.
  split_and!; [done..|].
  apply wp_bind, wp_myproc. simpl cur. rewrite Hc. apply wp_bind, wp_ret.
  apply wp_bind, wp_getp_at; [done|]. apply wp_bind, wp_updp_at; [done|]. apply wp_ret.
  split; [done|]. transitivity (at_proc s i p (env s)); [by destruct p | by rewrite <- at_proc_id].
Qed.

(** a signal that arrives while it is blocked by the mask is discarded, not
    held: after the return to user mode it is no longer pending and no action
    was taken for it. *)
Theorem blocked_signal_discarded s i p tfcs (k : nat) :
  cur s = Some i → procs s !! i = Some p → sig_wf p → Z.land tfcs 3 = DPL_USER →
  user_ok (env s) → (k < 32)%nat → Z.of_nat k ≠ SIGKILL → Z.of_nat k ≠ SIGSTOP →
  Z.testbit (signal_mask p) k = true → pending_signals p = Z.shiftl 1 k →
  wp (sig_handler_runner tfcs) s (λ _ s' _, s' = at_proc s i (set_pending_signals 0 p) (env s)).
Proof.
  intros Hc Hp Hwf Hcs Hok Hk Hnk Hns Hmask Hpend.
  assert (∀ f n, (∀ a, f a = true → a ≠ ANone) → fires f p n = false) as Hno.
  { intros f n Hf. unfold fires. rewrite Hpend, testbit_one by lia. case_bool_decide as Hn; [|done].
    simpl. unfold action_of. rewrite Hn, (proj2 (Z.eqb_neq _ _) Hnk), (proj2 (Z.eqb_neq _ _) Hns), Hmask.
    destruct (f ANone) eqn:Hfa; [|done]. by destruct (Hf _ Hfa). }
  assert (List.filter (fires is_user p) (seq 0 32) = []) as Huser.
  { induction (seq 0 32) as [|n l IH]; [done|]. simpl. rewrite Hno; [done|]. by intros []. }
  eapply wp_mono; [apply wp_runner; try done|].
  { unfold user_count. rewrite Huser. split; simpl; [by apply (tf_ok_esp (tf p)), Hwf | split; [done|]; intros x ?; lia]. }
  intros _ s' _ (p' & e' & Hd & ->). pose proof (NoDup_seq 0 32) as Hnd.
  destruct (delivered_all_no_user _ _ _ _ _ Hd Hnd Huser) as (Ht & Hb & ->). f_equal.
  rewrite (delivered_all_fields _ _ _ _ _ Hd), Ht, Hb, (pending_cleared _ _ _ _ Hwf Hd).
  rewrite (delivered_all_freeze _ _ _ _ _ Hd Hnd), (delivered_all_killed _ _ _ _ _ Hd Hnd).
  rewrite freeze_after, (Hno is_cont) by (by intros []).
  rewrite Hpend, testbit_one, bool_decide_eq_false_2 by (congruence || lia). simpl andb.
  assert (∀ l, existsb (fires is_kill p) l = false) as Hkill.
  { induction l as [|n l IH]; [done|]. simpl. rewrite Hno; [done|]. by intros []. }
  rewrite Hkill. by destruct p.
Qed.

End signal.

(** ** A concrete process

    Flat user memory; one process with user handlers for signals 2 and 3. *)

Definition flat : Type := Z → option Z.

#[global] Program Instance flat_mem : UserMem flat := {|
  user_ok := λ _, True;
  load8 := λ e a, e a;
  store8 := λ e a v,
    match e a with Some _ => Some (λ b, if decide (b = a) then Some v else e b) | None => None end;
|}.
Next Obligation. intros e a v. simpl. destruct (e a); split; intros []; by eauto. Qed.
Next Obligation. intros e a v e' _. simpl. destruct (e a); [intros [= <-]; done | done]. Qed.

Definition ex_proc (pending mask : Z) : proc :=
  set_signal_handlers (<[3%nat := 0x600]> (<[2%nat := 0x500]> (replicate 32 0)))
    (set_signal_mask mask (set_pending_signals pending
      (set_tf (set_eip 0x123 (set_esp 0x3000 tf0)) (set_pid 7 (set_state RUNNING proc0))))).

Definition ex_state (pending mask : Z) : pstate flat :=
  mk_pstate [ex_proc pending mask] 8 None (Some 0%nat) false (λ _, Some 0).

Lemma ex_sig_wf pending mask : word_ok pending → sig_wf (ex_proc pending mask).
Proof.
  intros Hp. split_and!; [done | | done | ]; repeat constructor; unfold word_ok; simpl; lia.
Qed.

Lemma ex_mapped a n : mapped (E := flat) (λ _, Some 0) a n.
Proof. split; [done|]. by intros x _. Qed.

Lemma ex_action_at a : 0 ≤ a → a + 8 ≤ 2 ^ 32 → action_at (E := flat) (λ _, Some 0) a 0 0.
Proof.
  intros. split_and!; try done; intros i b Hi; do 4 (destruct i as [|i]; [by injection Hi as <-|]); done.
Qed.


(** Signals 2 and 3 pending: [sigret] puts back the frame that enters the handler
    of signal 2, not the interrupted one. *)
Lemma sigret_restores_witness :
  wp (sig_handler_runner 0x1b) (ex_state 0xc 0) (λ _ s1 _, ∀ s2, frame_intact 0 s1 s2 →
    wp sigret s2 (λ _ s3 _, ∃ p3, procs s3 !! 0%nat = Some p3 ∧ eip (tf p3) = 0x500)).
Proof.
  eapply wp_mono; [apply (sigret_restores _ 0%nat (ex_proc 0xc 0) _ [2%nat] 3%nat); try done|].
  - apply ex_sig_wf. unfold word_ok. lia.
  - intros ? s1 ? Hret s2 Hint. eapply wp_mono; [by apply Hret|].
    intros ? s3 ? (_ & p3 & Hp3 & Ht). exists p3. split; [done|]. by rewrite Ht.
Defined.

Lemma sigaction_correct_witness :
  wp (sigaction 4 0x100 0) (ex_state 0 5) (λ r s' _, r = 0).
Proof.
  eapply wp_mono; [apply (sigaction_correct _ 0%nat (ex_proc 0 5) 4%nat 0x100 0 0 0); try done|].
  - lia.
  - by apply ex_action_at.
  - by left.
  - by intros ? ? ? [-> _].
Defined.

Lemma sigaction_out_of_range_witness :
  crashes (sigaction 40 0x100 0) (ex_state 0 5) (Undefined "signal_handlers index").
Proof.
  apply (sigaction_out_of_range (ex_state 0 5) 0%nat (ex_proc 0 5) 40 0x100 0 0 0); try done.
  - lia.
  - by apply ex_action_at.
Defined.

Lemma sigprocmask_roundtrip_witness :
  wp (sigprocmask 9) (ex_state 0 5) (λ r _ _, r = 5).
Proof.
  eapply wp_mono; [by apply (sigprocmask_roundtrip _ 0%nat (ex_proc 0 5))|].
  by intros ? ? ? [-> _].
Defined.

Lemma blocked_signal_discarded_witness :
  wp (sig_handler_runner 0x1b) (ex_state 4 4) (λ _ s' _,
    procs s' = [ex_proc 0 4]).
Proof.
  eapply wp_mono; [apply (blocked_signal_discarded _ 0%nat (ex_proc 4 4) _ 2%nat); try done|].
  - apply ex_sig_wf. unfold word_ok. lia.
  - lia.
  - by intros ? ? ? ->.
Defined.

End Signal.
