(* ===== verification/Sched.v ===== *)
(** * proc.c: processes and the scheduler

    Process creation and termination ([allocproc], [userinit], [fork], [exit],
    [wait], [growproc]), the scheduler and the context switch protocol
    ([scheduler], [sched], [yield], [forkret]), and [sleep]/[wakeup].

    A context switch hands the CPU to the rest of the machine until the process
    is scheduled again; the operations that switch take that as an argument. *)

From S2P Require Import Prelude Layout Memory Spinlock Cstring Proc Signal.

Module Sched.
Import Proc Signal.

Section sched.
Context {E : Type} `{ProcEnv E}.
(** Link addresses of the kernel functions whose address is taken. *)
Context (forkret_addr trapret_addr SIGCONT_handler_addr : Z).
#[local] Abbreviation K := (M (pstate E)).

(** ** Allocation of a process *)

Definition allocpid : K Z :=
  acquire Lptable ;;
  pid ← gets nextpid ;
  modify (λ s, set_nextpid (s32 (nextpid s + 1)) s) ;;
  release Lptable ;;
  mret pid.

(** [sizeof *p->context] *)
Definition CTXSIZE : Z := 20.

(** The three cells laid out at the top of the kernel stack. *)
Definition init_kstack (i : nat) (kstack : Z) : K unit :=
  let sp := u32 (kstack + KSTACKSIZE) in
  let sp := u32 (sp - TFSIZE) in
  updp i (set_tf_ptr sp) ;;
  let sp := u32 (sp - 4) in
  updp i (set_ret_slot trapret_addr) ;;
  let sp := u32 (sp - CTXSIZE) in
  updp i (set_ctx_ptr sp) ;;
  updp i (set_ctx ctx0) ;;
  updp i (λ p, set_ctx (mk_ctx (c_edi (ctx p)) (c_esi (ctx p)) (c_ebx (ctx p)) (c_ebp (ctx p)) forkret_addr) p).

Definition allocproc : K (option nat) :=
  acquire Lptable ;;
  ps ← gets procs ;
  match list_find (λ p, state p = UNUSED) ps with
  | None => release Lptable ;; mret None
  | Some (i, _) =>
      updp i (set_state EMBRYO) ;;
      release Lptable ;;
      pid ← allocpid ;
      updp i (set_pid pid) ;;
      k ← on_env env_kalloc ;
      updp i (set_kstack k) ;;
      if k =? 0 then updp i (set_state UNUSED) ;; mret None else
      init_kstack i k ;;
      for_each (seq 0 32) (λ j, updp i (λ p, set_signal_handlers (<[j := SIG_DFL]> (signal_handlers p)) p)) ;;
      updp i (set_pending_signals 0) ;;
      mret (Some i)
  end.

(** [safestrcpy(p->name, src, sizeof(p->name))] *)
Definition copy_name (src : list Z) (p : proc) : proc :=
  let m := write_bytes (write_bytes (λ _, 0) 0 src) 16 (name p) in
  set_name (read_bytes (Cstring.safestrcpy m 16 0 16) 16 16) p.

(** The bytes of "initcode" with its NUL. *)
Definition initcode_name : list Z := [105; 110; 105; 116; 99; 111; 100; 101; 0].

Definition userinit : K unit :=
  np ← allocproc ;
  modify (set_initproc np) ;;
  i ← deref np 4 ;
  d ← on_env env_setupkvm ;
  updp i (set_pgdir d) ;;
  if d =? 0 then panic "userinit: out of memory?" else
  on_env (env_inituvm d) ;;
  updp i (set_sz PGSIZE) ;;
  let ucs := Z.lor (Z.shiftl SEG_UCODE 3) DPL_USER in
  let uds := Z.lor (Z.shiftl SEG_UDATA 3) DPL_USER in
  updp i (set_tf (mk_tf 0 0 0 0 0 0 0 0 0 0 uds uds 0 0 0 ucs FL_IF PGSIZE uds)) ;;
  updp i (copy_name initcode_name) ;;
  ip ← on_env env_namei_root ;
  updp i (set_cwd ip) ;;
  acquire Lptable ;;
  updp i (set_state RUNNABLE) ;;
  release Lptable.

(** vm.c: load the process's page table and kernel stack. *)
Definition switchuvm (np : option nat) : K unit :=
  match np with
  | None => panic "switchuvm: no process"
  | Some i =>
      p ← getp i ;
      if kstack p =? 0 then panic "switchuvm: no kstack" else
      if pgdir p =? 0 then panic "switchuvm: no pgdir" else
      emit ECli ;;
      on_env (env_lcr3 (V2P (pgdir p)))
  end.

Definition growproc (n : Z) : K Z :=
  np ← myproc ;
  i ← deref np 0 ;
  p ← getp i ;
  r ← (if 0 <? n then
         sz ← on_env (env_allocuvm (pgdir p) (sz p) (u32 (sz p + n))) ;
         mret (if sz =? 0 then None else Some sz)
       else if n <? 0 then
         sz ← on_env (env_deallocuvm (pgdir p) (sz p) (u32 (sz p + n))) ;
         mret (if sz =? 0 then None else Some sz)
       else mret (Some (sz p))) ;
  match r with
  | None => mret (-1)
  | Some sz =>
      updp i (set_sz sz) ;;
      switchuvm (Some i) ;;
      mret 0
  end.

(** ** fork *)

Definition idup (ip : option nat) : K unit :=
  match ip with Some ip => on_env (env_idup ip) | None => undefined "null inode" end.

Definition fork : K Z :=
  cp ← myproc ;
  np ← allocproc ;
  match np with
  | None => mret (-1)
  | Some j =>
      i ← deref cp off_signal_mask ;
      c ← getp i ;
      updp j (set_signal_mask (signal_mask c)) ;;
      for_each (seq 0 32) (λ k,
        c ← getp i ;
        updp j (λ p, set_signal_handlers (<[k := default 0 (signal_handlers c !! k)]> (signal_handlers p)) p)) ;;
      c ← getp i ;
      d ← on_env (env_copyuvm (pgdir c) (sz c)) ;
      updp j (set_pgdir d) ;;
      if d =? 0 then
        p ← getp j ;
        on_env (env_kfree (kstack p)) ;;
        updp j (set_kstack 0) ;;
        updp j (set_state UNUSED) ;;
        mret (-1)
      else
      c ← getp i ;
      updp j (set_sz (sz c)) ;;
      updp j (set_parent (Some i)) ;;
      updp j (set_tf (tf c)) ;;
      updp j (λ p, set_tf (set_eax 0 (tf p)) p) ;;
      for_each (seq 0 NOFILE) (λ k,
        c ← getp i ;
        match default None (ofile c !! k) with
        | Some f => on_env (env_filedup f) ;; updp j (λ p, set_ofile (<[k := Some f]> (ofile p)) p)
        | None => mret ()
        end) ;;
      c ← getp i ;
      idup (cwd c) ;;
      updp j (set_cwd (cwd c)) ;;
      updp j (copy_name (name c)) ;;
      p ← getp j ;
      acquire Lptable ;;
      updp j (set_state RUNNABLE) ;;
      release Lptable ;;
      mret (pid p)
  end.

(** ** Switching *)

(** The CPU goes to the scheduler and the process stays where it is. *)
Definition to_scheduler : K unit := block_on (Ch_spin Lptable).

(** [switch] is everything that happens from [swtch(&p->context, scheduler)]
    until the process runs again. *)
Definition sched (switch : K unit) : K unit :=
  np ← myproc ;
  emit (ECheck (Holding Lptable) "sched ptable.lock") ;;
  emit (ECheck OneLock "sched locks") ;;
  i ← deref np off_state ;
  p ← getp i ;
  if decide (state p = RUNNING) then panic "sched running" else
  emit (ECheck IntrOff "sched interruptible") ;;
  emit ESwtch ;;
  switch.

Definition yield (switch : K unit) : K unit :=
  acquire Lptable ;;
  np ← myproc ;
  i ← deref np off_state ;
  updp i (set_state RUNNABLE) ;;
  sched switch ;;
  release Lptable.

Definition forkret : K unit :=
  release Lptable ;;
  f ← gets first ;
  if f : bool then
    modify (set_first false) ;;
    as_me env_iinit ;;
    as_me env_initlog
  else mret ().

(** After the switch back: tidy up and reacquire the original lock. *)
Definition sleep_leave (i : nat) (lk : lockid) : K unit :=
  updp i (set_chan_of None) ;;
  when (negb (bool_decide (lk = Lptable))) (release Lptable ;; acquire lk).

Definition sleep (switch : K unit) (c : chan) (lk : lockid) : K unit :=
  np ← myproc ;
  match np with
  | None => panic "sleep"
  | Some i =>
      when (negb (bool_decide (lk = Lptable))) (acquire Lptable ;; release lk) ;;
      updp i (set_chan_of (Some c)) ;;
      updp i (set_state SLEEPING) ;;
      sched switch ;;
      sleep_leave i lk
  end.

Definition wake (c : option chan) (p : proc) : proc :=
  if decide (state p = SLEEPING ∧ chan_of p = c) then set_state RUNNABLE p else p.

Definition wakeup1 (c : option chan) : K unit := modify (λ s, set_procs (wake c <$> procs s) s).

Definition wakeup (c : chan) : K unit :=
  acquire Lptable ;; wakeup1 (Some c) ;; release Lptable.

(** ** exit and wait *)

Definition reparent (i : nat) (k : nat) : K unit :=
  p ← getp k ;
  if decide (parent p = Some i) then
    ip ← gets initproc ;
    updp k (set_parent ip) ;;
    if decide (state p = ZOMBIE) then wakeup1 (Ch_proc <$> ip) else mret ()
  else mret ().

Definition exit (switch : K unit) : K unit :=
  np ← myproc ;
  ip ← gets initproc ;
  if decide (np = ip) then panic "init exiting" else
  i ← deref np 0 ;
  for_each (seq 0 NOFILE) (λ fd,
    p ← getp i ;
    match default None (ofile p !! fd) with
    | Some f => as_me (env_fileclose f) ;; updp i (λ p, set_ofile (<[fd := None]> (ofile p)) p)
    | None => mret ()
    end) ;;
  as_me env_begin_op ;;
  p ← getp i ;
  match cwd p with Some ip => as_me (env_iput ip) | None => undefined "null inode" end ;;
  as_me env_end_op ;;
  updp i (set_cwd None) ;;
  acquire Lptable ;;
  p ← getp i ;
  wakeup1 (Ch_proc <$> parent p) ;;
  n ← gets (λ s, length (procs s)) ;
  for_each (seq 0 n) (reparent i) ;;
  updp i (set_state ZOMBIE) ;;
  sched switch ;;
  panic "zombie exit".

(** Free the exited child [k]; returns its pid. *)
Definition reap (k : nat) : K Z :=
  p ← getp k ;
  on_env (env_kfree (kstack p)) ;;
  updp k (set_kstack 0) ;;
  on_env (env_freevm (pgdir p)) ;;
  updp k (set_pid 0) ;;
  updp k (set_parent None) ;;
  updp k (λ p, set_name (<[0%nat := 0]> (name p)) p) ;;
  updp k (set_killed 0) ;;
  updp k (set_state UNUSED) ;;
  mret (pid p).

(** One scan of the table: the pid of an exited child, or whether there are
    children at all. *)
Definition wait_scan (i : nat) : K (Z + bool) :=
  ps ← gets procs ;
  match list_find (λ p, parent p = Some i ∧ state p = ZOMBIE) ps with
  | Some (k, _) => pid ← reap k ; mret (inl pid)
  | None => mret (inr (existsb (λ p, bool_decide (parent p = Some i)) ps))
  end.

(** [switches]: what the rest of the machine does during each sleep; the
    process is still asleep when they are used up. *)
Fixpoint wait_loop (switches : list (K unit)) (i : nat) : K Z :=
  r ← wait_scan i ;
  match r with
  | inl pid => release Lptable ;; mret pid
  | inr havekids =>
      p ← getp i ;
      if negb havekids || truth (killed p) then release Lptable ;; mret (-1) else
      match switches with
      | [] => sleep to_scheduler (Ch_proc i) Lptable ;; mret (-1)
      | sw :: switches' => sleep sw (Ch_proc i) Lptable ;; wait_loop switches' i
      end
  end.

Definition wait (switches : list (K unit)) : K Z :=
  np ← myproc ;
  acquire Lptable ;;
  i ← deref np off_killed ;
  wait_loop switches i.

(** ** The scheduler *)

(** The loop over the signals whose handler is SIGCONT_handler, for a frozen
    process [k]; stops at the first one found. *)
Fixpoint thaw_loop (k : nat) (l : list nat) : K unit :=
  match l with
  | [] => mret ()
  | n :: l' =>
      if (Z.of_nat n =? SIGKILL) || (Z.of_nat n =? SIGSTOP) then thaw_loop k l' else
      p ← getp k ;
      h ← handler p n ;
      if truth (Z.land (pending_signals p) (Z.shiftl 1 n)) && (h =? SIGCONT_handler_addr) then
        SIGCONT_handler ;;
        updp k (λ p, set_pending_signals (Z.lxor (pending_signals p) (Z.shiftl 1 SIGCONT)) p)
      else thaw_loop k l'
  end.

(** One iteration of the loop over the table; [run k] is what the chosen
    process does until it switches back. *)
Definition scheduler_visit (run : nat → K unit) (k : nat) : K unit :=
  p ← getp k ;
  if negb (bool_decide (state p = RUNNABLE)) then mret () else
  when (truth (freeze p))
    (h ← handler p SIGCONT ;
     if truth (Z.land (pending_signals p) (Z.shiftl 1 SIGCONT)) && (h =? SIG_DFL) then
       SIGCONT_handler ;;
       updp k (λ p, set_pending_signals (Z.lxor (pending_signals p) (Z.shiftl 1 SIGCONT)) p)
     else thaw_loop k (seq 0 32)) ;;
  p ← getp k ;
  if truth (freeze p) then mret () else
  modify (set_cur (Some k)) ;;
  switchuvm (Some k) ;;
  updp k (set_state RUNNING) ;;
  emit ESwtch ;;
  run k ;;
  on_env env_switchkvm ;;
  modify (set_cur None).

(** One round: the body of [for(;;)]. *)
Definition scheduler_round (run : nat → K unit) : K unit :=
  emit ESti ;;
  acquire Lptable ;;
  n ← gets (λ s, length (procs s)) ;
  for_each (seq 0 n) (scheduler_visit run) ;;
  release Lptable.

(** The first [rounds] rounds of [scheduler]. *)
Fixpoint scheduler_rounds (run : nat → K unit) (rounds : nat) : K unit :=
  match rounds with O => mret () | S r => scheduler_round run ;; scheduler_rounds run r end.

Definition scheduler (run : nat → K unit) (rounds : nat) : K unit :=
  modify (set_cur None) ;;
  scheduler_rounds run rounds.

(** ** What the environment promises

    With [C := False]: started in an environment that satisfies [J], the calls
    return and keep [J]. With [C := True] and [J] always true, nothing is
    promised but that the calls that cannot sleep do not. *)
Record env_spec (C : Prop) (J : E → Prop) : Prop := {
  j_kalloc : ∀ e, J e → hoare C env_kalloc e (λ _ e', J e') (λ _, False);
  j_kfree : ∀ a e, J e → hoare C (env_kfree a) e (λ _ e', J e') (λ _, False);
  j_setupkvm : ∀ e, J e → hoare C env_setupkvm e (λ _ e', J e') (λ _, False);
  j_inituvm : ∀ d e, J e → hoare C (env_inituvm d) e (λ _ e', J e') (λ _, False);
  j_allocuvm : ∀ d a b e, J e → hoare C (env_allocuvm d a b) e (λ _ e', J e') (λ _, False);
  j_deallocuvm : ∀ d a b e, J e → hoare C (env_deallocuvm d a b) e (λ _ e', J e') (λ _, False);
  j_copyuvm : ∀ d a e, J e → hoare C (env_copyuvm d a) e (λ _ e', J e') (λ _, False);
  j_freevm : ∀ d e, J e → hoare C (env_freevm d) e (λ _ e', J e') (λ _, False);
  j_lcr3 : ∀ a e, J e → hoare C (env_lcr3 a) e (λ _ e', J e') (λ _, False);
  j_switchkvm : ∀ e, J e → hoare C env_switchkvm e (λ _ e', J e') (λ _, False);
  j_filedup : ∀ f e, J e → hoare C (env_filedup f) e (λ _ e', J e') (λ _, False);
  j_idup : ∀ ip e, J e → hoare C (env_idup ip) e (λ _ e', J e') (λ _, False);
  j_namei_root : ∀ e, J e → hoare C env_namei_root e (λ _ e', J e') (λ _, False);
  (* these may sleep *)
  j_fileclose : ∀ f e, J e → hoare C (env_fileclose f) e (λ _ e', J e') J;
  j_iput : ∀ ip e, J e → hoare C (env_iput ip) e (λ _ e', J e') J;
  j_begin_op : ∀ e, J e → hoare C env_begin_op e (λ _ e', J e') J;
  j_end_op : ∀ e, J e → hoare C env_end_op e (λ _ e', J e') J;
  j_as : ∀ pid cwd killed e, J e → J (env_as pid cwd killed e);
}.

(** ** allocproc *)

Definition bump (s : pstate E) : pstate E := set_nextpid (s32 (nextpid s + 1)) s.

(** The handlers after the loop that sets the first [n] to the default. *)
Definition reset_handlers (n : nat) (hs : list Z) : list Z :=
  foldl (λ l j, <[j := SIG_DFL]> l) hs (seq 0 n).
Arguments reset_handlers : simpl never.

(** Slot [p] set up for a new process with pid [n] and kernel stack [k]. *)
Definition embryo (p : proc) (n k : Z) : proc :=
  let tp := u32 (u32 (k + KSTACKSIZE) - TFSIZE) in
  set_pending_signals 0
    (set_signal_handlers (reset_handlers 32 (signal_handlers p))
      (set_ctx (mk_ctx 0 0 0 0 forkret_addr) (set_ctx_ptr (u32 (u32 (tp - 4) - CTXSIZE))
        (set_ret_slot trapret_addr (set_tf_ptr tp
          (set_kstack k (set_pid n (set_state EMBRYO p)))))))).

(** The first UNUSED slot. *)
Definition first_unused (s : pstate E) (j : nat) (p : proc) : Prop :=
  list_find (λ p, state p = UNUSED) (procs s) = Some (j, p).

Inductive alloc_result (s : pstate E) : option nat → pstate E → Prop :=
  | ar_full : (∀ p, p ∈ procs s → state p ≠ UNUSED) → alloc_result s None s
  | ar_no_stack j p q e' : first_unused s j p → q = set_kstack 0 (set_pid (nextpid s) p) →
      gives env_kalloc (env s) 0 e' → alloc_result s None (at_proc (bump s) j q e')
  | ar_found j p q k e' : first_unused s j p → k ≠ 0 → q = embryo p (nextpid s) k → gives env_kalloc (env s) k e' →
      alloc_result s (Some j) (at_proc (bump s) j q e').

Lemma first_unused_lookup s j p :
  first_unused s j p → procs s !! j = Some p ∧ state p = UNUSED ∧ (j < length (procs s))%nat.
Proof.
  intros Hf. apply list_find_Some in Hf as (Hp & Hu & _). eauto using lookup_lt_Some.
Qed.

Lemma foldl_set_handlers p n :
  foldl (λ p j, set_signal_handlers (<[j := SIG_DFL]> (signal_handlers p)) p) p (seq 0 n) =
  set_signal_handlers (reset_handlers n (signal_handlers p)) p.
Proof.
  unfold reset_handlers. revert p. induction (seq 0 n) as [|j l IH]; intros p; simpl.
  - by destruct p.
  - by rewrite IH.
Qed.

Lemma reset_handlers_eq hs : reset_handlers (length hs) hs = replicate (length hs) SIG_DFL.
Proof.
  assert (∀ n, (n ≤ length hs)%nat → reset_handlers n hs = replicate n SIG_DFL ++ drop n hs) as Hn.
  { induction n as [|n IH]; intros Hle; [done|]. unfold reset_handlers in *.
    rewrite seq_S, foldl_snoc, IH by lia. simpl.
    destruct (lookup_lt_is_Some_2 hs n) as [h Hh]; [lia|].
    rewrite (drop_S _ _ _ Hh), insert_app_r_alt by (rewrite length_replicate; lia).
    rewrite length_replicate, Nat.sub_diag. simpl.
    rewrite cons_middle, (assoc_L (++)), <- replicate_cons_app. done. }
  rewrite Hn, drop_all by done. apply app_nil_r.
Qed.

Section alloc.
Context (C : Prop) (J : E → Prop) (HE : env_spec C J) (B : pstate E → Prop).

Lemma hoare_allocproc s :
  J (env s) → hoare C allocproc s (λ r s', J (env s') ∧ alloc_result s r s') B.
Proof using HE.
  intros HJ. unfold allocproc. apply hoare_bind, hoare_emit, hoare_bind, hoare_gets.
  destruct (list_find _ (procs s)) as [[j p]|] eqn:Hf; cycle 1.
  { apply hoare_bind, hoare_emit, hoare_ret. split; [done|]. apply ar_full. intros p Hp.
    apply list_find_None in Hf. by eapply Forall_forall in Hf. }
  destruct (first_unused_lookup _ _ _ Hf) as (Hp & Hu & Hj).
  rewrite (at_proc_id s j p) at 1 by done.
  apply hoare_bind, hoare_updp_at, hoare_bind, hoare_emit; [done|].
  unfold allocpid. apply hoare_bind, hoare_bind, hoare_emit, hoare_bind, hoare_gets,
    hoare_bind, hoare_modify, hoare_bind, hoare_emit, hoare_ret.
  change (set_nextpid _ _) with (at_proc (bump s) j (set_state EMBRYO p) (env s)).
  apply hoare_bind, hoare_updp_at; [done|]. apply hoare_bind, hoare_env_at.
  eapply hoare_mono; [by apply hoare_gives, (j_kalloc _ _ HE)| |done]. intros k e' [HJ' Hke].
  apply hoare_bind, hoare_updp_at; [done|]. destruct (Z.eqb_spec k 0) as [->|Hk].
  { apply hoare_bind, hoare_updp_at, hoare_ret; [done|]. split; [done|].
    eapply (ar_no_stack s j p _ e'); [done | by proc_eq | done]. }
  unfold init_kstack. repeat slot_step.
  apply hoare_for_updp_at; [done|]. rewrite foldl_set_handlers.
  repeat slot_step. split; [done|].
  eapply (ar_found s j p _ k e'); [done | done | by proc_eq | done].
Qed.

End alloc.

(** ** fork *)

(** Copy the first [n] entries of [src] over those of [dst]. *)
Definition copy_handlers (n : nat) (src dst : list Z) : list Z :=
  foldl (λ l k, <[k := default 0 (src !! k)]> l) dst (seq 0 n).
Definition copy_ofile (n : nat) (src dst : list (option nat)) : list (option nat) :=
  foldl (λ l k, match default None (src !! k) with Some f => <[k := Some f]> l | None => l end)
    dst (seq 0 n).
Arguments copy_handlers : simpl never.
Arguments copy_ofile : simpl never.

Lemma copy_handlers_eq src dst : length src = length dst → copy_handlers (length src) src dst = src.
Proof.
  intros Hlen.
  assert (∀ n, (n ≤ length src)%nat → copy_handlers n src dst = take n src ++ drop n dst) as Hn.
  { induction n as [|n IH]; intros Hle; [done|]. unfold copy_handlers in *.
    rewrite seq_S, foldl_snoc, IH by lia. simpl.
    destruct (lookup_lt_is_Some_2 src n) as [h Hh]; [lia|].
    destruct (lookup_lt_is_Some_2 dst n) as [d Hd]; [lia|].
    rewrite (drop_S _ _ _ Hd), insert_app_r_alt by (rewrite length_take; lia).
    rewrite length_take, Nat.min_l, Nat.sub_diag, Hh by lia. simpl.
    by rewrite (take_S_r _ _ _ Hh), <- (assoc_L (++)). }
  rewrite Hn, firstn_all, drop_ge by lia. apply app_nil_r.
Qed.

Lemma lookup_copy_ofile n src dst k :
  copy_ofile n src dst !! k =
    if decide (k < n)%nat then
      match default None (src !! k) with
      | Some f => if decide (k < length dst)%nat then Some (Some f) else None
      | None => dst !! k
      end
    else dst !! k.
Proof.
  assert (∀ n, length (copy_ofile n src dst) = length dst) as Hlen.
  { intros m. unfold copy_ofile. induction m as [|m IH]; [done|].
    rewrite seq_S, foldl_snoc. simpl. destruct (default None (src !! m)); [|done].
    by rewrite length_insert. }
  induction n as [|n IH]; [done|]. unfold copy_ofile in *. rewrite seq_S, foldl_snoc. simpl.
  specialize (Hlen n). destruct (decide (k = n)) as [->|Hne].
  - rewrite decide_False in IH by lia. rewrite (decide_True (P := (n < S n)%nat)) by lia.
    destruct (default None (src !! n)) as [f|]; [|done]. case_decide.
    + by rewrite list_lookup_insert_eq by (rewrite Hlen; lia).
    + apply lookup_ge_None_2. rewrite length_insert, Hlen. lia.
  - rewrite (decide_ext (k < S n)%nat (k < n)%nat) by lia. rewrite <- IH.
    destruct (default None (src !! n)); [|done]. by rewrite list_lookup_insert_ne.
Qed.

(** The child [fork] makes of slot [p] for parent [i], which is [c]. *)
Definition child (i : nat) (c p : proc) (n k d : Z) : proc :=
  let q := embryo p n k in
  set_state RUNNABLE (copy_name (name c) (set_cwd (cwd c)
    (set_ofile (copy_ofile NOFILE (ofile c) (ofile p)) (set_tf (set_eax 0 (tf c))
      (set_parent (Some i) (set_sz (sz c) (set_pgdir d
        (set_signal_handlers (copy_handlers 32 (signal_handlers c) (signal_handlers q))
          (set_signal_mask (signal_mask c) q))))))))).

(** The calls [fork] makes of the memory and file code for a child of [c]: the
    kernel stack and the page directory of the child. *)
Definition dup_files (c : proc) (l : list nat) : M E unit :=
  for_each l (λ k, match default None (ofile c !! k) with Some f => env_filedup f | None => mret () end).
Definition fork_env (c : proc) : M E (Z * Z) :=
  k ← env_kalloc ;
  d ← env_copyuvm (pgdir c) (sz c) ;
  dup_files c (seq 0 NOFILE) ;;
  match cwd c with Some ip => env_idup ip | None => mret () end ;;
  mret (k, d).

(** There is no memory for the copy: the kernel stack goes back. *)
Definition fork_env_fails (c : proc) : M E (Z * Z) :=
  k ← env_kalloc ;
  d ← env_copyuvm (pgdir c) (sz c) ;
  env_kfree k ;;
  mret (k, d).

Inductive fork_result (s : pstate E) (i : nat) (c : proc) : Z → pstate E → Prop :=
  | fr_full s' : alloc_result s None s' → fork_result s i c (-1) s'
  | fr_no_mem j p q k e' : first_unused s j p → state q = UNUSED → kstack q = 0 → k ≠ 0 →
      q = set_state UNUSED (set_kstack 0 (set_pgdir 0
            (set_signal_handlers (copy_handlers 32 (signal_handlers c) (reset_handlers 32 (signal_handlers p)))
              (set_signal_mask (signal_mask c) (embryo p (nextpid s) k))))) →
      gives (fork_env_fails c) (env s) (k, 0) e' →
      fork_result s i c (-1) (at_proc (bump s) j q e')
  | fr_child j p q k d e' : first_unused s j p → k ≠ 0 → d ≠ 0 →
      q = child i c p (nextpid s) k d → is_Some (cwd c) → gives (fork_env c) (env s) (k, d) e' →
      fork_result s i c (nextpid s) (at_proc (bump s) j q e').

Section fork.
Context (C : Prop) (J : E → Prop) (HE : env_spec C J) (B : pstate E → Prop).
Context (s : pstate E) (i j : nat) (c : proc).
Context (Hij : i ≠ j) (Hi : procs s !! i = Some c) (Hj : (j < length (procs s))%nat).

Lemma hoare_copy_handlers n p e (Q : unit → pstate E → Prop) :
  Q () (at_proc s j (set_signal_handlers (copy_handlers n (signal_handlers c) (signal_handlers p)) p) e) →
  hoare C (for_each (seq 0 n) (λ k,
    c ← getp i ;
    updp j (λ p, set_signal_handlers (<[k := default 0 (signal_handlers c !! k)]> (signal_handlers p)) p)))
    (at_proc s j p e) Q B.
Proof using Hij Hi Hj.
  unfold copy_handlers. revert p. induction (seq 0 n) as [|k l IH]; intros p HQ; simpl in *.
  - apply hoare_ret. by destruct p.
  - apply hoare_bind, hoare_bind, (hoare_getp_other _ _ _ _ _ c); [done..|].
    apply hoare_updp_at; [done|]. apply IH. exact HQ.
Qed.

Lemma hoare_copy_ofile n p e :
  J e →
  hoare C (for_each (seq 0 n) (λ k,
    c ← getp i ;
    match default None (ofile c !! k) with
    | Some f => on_env (env_filedup f) ;; updp j (λ p, set_ofile (<[k := Some f]> (ofile p)) p)
    | None => mret ()
    end)) (at_proc s j p e)
    (λ _ s', ∃ e', (J e' ∧ gives (dup_files c (seq 0 n)) e () e') ∧ s' = at_proc s j (set_ofile (copy_ofile n (ofile c) (ofile p)) p) e') B.
Proof using HE Hij Hi Hj.
  unfold copy_ofile. revert p e. induction (seq 0 n) as [|k l IH]; intros p e HJ; simpl.
  - apply hoare_ret. exists e. split; [split; [done | apply gives_ret]|]. by destruct p.
  - apply hoare_bind, hoare_bind, (hoare_getp_other _ _ _ _ _ c); [done..|].
    unfold dup_files. cbn [for_each]. destruct (default None (ofile c !! k)) as [f|].
    + apply hoare_bind, hoare_env_at.
      eapply hoare_mono; [by apply hoare_gives, (j_filedup _ _ HE)| |done]. intros [] e' [HJ' Hf].
      apply hoare_updp_at; [done|]. eapply hoare_mono; [by apply IH| |done].
      intros ? s' (e2 & [HJ2 Hg] & ->). exists e2. split; [|done]. split; [done|]. by eapply gives_bind.
    + apply hoare_ret. eapply hoare_mono; [by apply IH| |done]. intros ? s' (e2 & [HJ2 Hg] & ->). exists e2.
      split; [|done]. split; [done|]. eapply gives_bind; [apply gives_ret | done].
Qed.

End fork.

Lemma hoare_fork C (J : E → Prop) (HE : env_spec C J) (B : pstate E → Prop) s i c :
  cur s = Some i → procs s !! i = Some c → state c ≠ UNUSED → is_Some (cwd c) ∨ C → J (env s) →
  hoare C fork s (λ r s', J (env s') ∧ fork_result s i c r s') B.
Proof.
  intros Hc Hi Hu Hcwd HJ. unfold fork, myproc.
  apply hoare_bind, hoare_bind, hoare_emit, hoare_gets, hoare_bind. rewrite Hc.
  eapply hoare_mono; [by apply hoare_allocproc| |done]. intros r s1 [HJ1 Hr].
  destruct Hr as [Hfull|j p q e1 Hf Hq|j p q k e1 Hf Hk Hq Hke].
  { apply hoare_ret. split; [done|]. by apply fr_full, ar_full. }
  { apply hoare_ret. split; [done|]. by eapply fr_full, ar_no_stack. }
  destruct (first_unused_lookup _ _ _ Hf) as (Hp & Hpu & Hj). simpl in HJ1.
  assert (i ≠ j) as Hij by (intros ->; congruence).
  assert (∀ q e (Q : proc → pstate E → Prop), Q c (at_proc (bump s) j q e) →
    hoare C (getp i) (at_proc (bump s) j q e) Q B) as Hget.
  { intros. by apply (hoare_getp_other _ _ _ _ _ c). }
  simpl deref. apply hoare_bind, hoare_ret, hoare_bind, Hget. repeat slot_step.
  apply (hoare_copy_handlers C B (bump s) i j c Hij Hi Hj).
  apply hoare_bind, Hget. repeat slot_step.
  eapply hoare_mono; [by apply hoare_gives, (j_copyuvm _ _ HE)| |done]. intros d e2 [HJ2 Hcp]. repeat slot_step.
  destruct (Z.eqb_spec d 0) as [->|Hd].
  { repeat slot_step. eapply hoare_mono; [by apply hoare_gives, (j_kfree _ _ HE)| |done]. intros [] e3 [HJ3 Hkf].
    repeat slot_step. split; [done|].
    eapply (fr_no_mem s i c j p _ k); [done | done | done | done | |]; subst q; [by proc_eq|].
    repeat (eapply gives_bind; [done|]). apply gives_ret. }
  apply hoare_bind, Hget. repeat slot_step.
  eapply hoare_mono; [by apply (hoare_copy_ofile C J HE B (bump s) i j c Hij Hi Hj)| |done].
  intros ? s3 (e3 & [HJ3 Hdup] & ->). apply hoare_bind, Hget. apply hoare_bind.
  destruct (cwd c) as [ip|] eqn:Hip; [|by destruct Hcwd as [[? ?]|?]].
  unfold idup. repeat slot_step. eapply hoare_mono; [by apply hoare_gives, (j_idup _ _ HE)| |done]. intros [] e4 [HJ4 Hid].
  repeat slot_step. split; [done|]. replace (pid _) with (nextpid s) by (by subst q).
  eapply (fr_child s i c j p _ k d); [done | done | done | | by rewrite Hip|]; subst q; [by proc_eq|].
  unfold fork_env. rewrite Hip. repeat (eapply gives_bind; [done|]). apply gives_ret.
Qed.

(** ** Properties *)

(** What becomes of the slot [p] when [fork] fails: it stays UNUSED, without a
    kernel stack; only a pid, signal settings and pointers to what is freed have
    been written to it. *)
Definition failed_slot (p q : proc) : Prop :=
  state q = UNUSED ∧ kstack q = 0 ∧ sz q = sz p ∧ tf q = tf p ∧ parent q = parent p ∧ chan_of q = chan_of p ∧
  killed q = killed p ∧ ofile q = ofile p ∧ cwd q = cwd p ∧ name q = name p ∧ freeze q = freeze p.

(** C13: [fork] returns, unless the memory or file code it calls stops the machine
    ([C] allows that). When it fails (no free slot, no memory for the kernel
    stack or for the copy of the address space) it returns -1; a kernel stack it
    took is freed, every process is as before, and of the table at most a slot
    that stays UNUSED has changed. When it succeeds it returns a new pid and has
    made, in the first free slot, a RUNNABLE process whose address space is what
    [copyuvm] made of its parent's, and which has the size, trap frame (with a
    zero result register), signal handlers and mask, open files and working
    directory of its parent, each file and the directory counted once more; it
    has no pending signals, and starts in [forkret] on its own kernel stack. The
    one thing the new process takes from the slot's previous occupant is its
    [freeze] flag. All other processes are as before. *)
Theorem fork_correct C (J : E → Prop) (HE : env_spec C J) s i c :
  cur s = Some i → procs s !! i = Some c → state c ≠ UNUSED → is_Some (cwd c) → J (env s) →
  length (signal_handlers c) = 32%nat →
  (∀ p, p ∈ procs s → length (signal_handlers p) = 32%nat) →
  hoare C fork s (λ r s',
    (r = -1 ∧ (s' = s ∨
       ∃ j p q e', first_unused s j p ∧ failed_slot p q ∧ s' = at_proc (bump s) j q e' ∧
         (gives env_kalloc (env s) 0 e' ∨ ∃ k, gives (fork_env_fails c) (env s) (k, 0) e'))) ∨
    (r = nextpid s ∧ ∃ j p q e', first_unused s j p ∧ s' = at_proc (bump s) j q e' ∧
       gives (fork_env c) (env s) (kstack q, pgdir q) e' ∧ pgdir q ≠ 0 ∧ kstack q ≠ 0 ∧
       state q = RUNNABLE ∧ pid q = r ∧ parent q = Some i ∧ sz q = sz c ∧
       tf q = set_eax 0 (tf c) ∧ signal_handlers q = signal_handlers c ∧
       signal_mask q = signal_mask c ∧ pending_signals q = 0 ∧ cwd q = cwd c ∧
       (∀ k f, ofile c !! k = Some (Some f) → (k < NOFILE)%nat → (k < length (ofile p))%nat →
          ofile q !! k = Some (Some f)) ∧
       c_eip (ctx q) = forkret_addr ∧ ret_slot q = trapret_addr ∧
       freeze q = freeze p)) (λ _, False).
Proof.
  intros Hc Hi Hu Hcwd HJ Hlen Hlens. eapply hoare_mono;
    [by apply (hoare_fork C J HE (λ _, False) s i c); auto| |done].
  intros r s' [_ Hr]. destruct Hr as [s' Hr|j p q k e' Hf Hqs _ _ Hq Hg|j p q k d e' Hf Hk Hd Hq _ Hg].
  - left. split; [done|]. inversion Hr as [|j p q e' Hf Hq Hg| ]; subst; [by left|]. right.
    exists j, p, (set_kstack 0 (set_pid (nextpid s) p)), e'. destruct (first_unused_lookup _ _ _ Hf) as (_ & Hpu & _).
    split_and!; try done. by left.
  - left. split; [done|]. right. exists j, p, q, e'. split_and!; [done | by subst q; unfold failed_slot; split_and! | done | by eauto].
  - right. split; [done|]. exists j, p, q, e'. destruct (first_unused_lookup _ _ _ Hf) as (Hp & _ & _).
    assert (length (signal_handlers p) = 32%nat) as Hlp by (by eapply Hlens, list_elem_of_lookup_2).
    subst q. split_and!; try done; unfold child, embryo; simpl; cycle 1.
    { intros m f Hm Hm' Hl. rewrite lookup_copy_ofile, decide_True, Hm by done. simpl.
      by rewrite decide_True. }
    pose proof (copy_handlers_eq (signal_handlers c) (reset_handlers 32 (signal_handlers p))) as Hcp.
    rewrite <- Hlp in Hcp at 1 2. rewrite reset_handlers_eq, length_replicate, Hlen, Hlp in Hcp.
    rewrite <- Hlp at 2. rewrite reset_handlers_eq, Hlp. by apply Hcp.
Qed.

(** C36: [sleep] does not lose wakeups: it releases the caller's lock only after
    taking [ptable.lock], and holds that until the switch, when the process is
    already SLEEPING on the channel; all the checks of [sched] pass. Since [wakeup]
    takes [ptable.lock], a wakeup issued after the caller's lock was released
    finds the process asleep, and makes it RUNNABLE. *)
Theorem sleep_atomic s i p c lk :
  cur s = Some i → procs s !! i = Some p → lk ≠ Lptable →
  ∃ tr1 tr2, sleep to_scheduler c lk s = Blocked (Ch_spin Lptable)
      (at_proc s i (set_state SLEEPING (set_chan_of (Some c) p)) (env s)) (tr1 ++ ERelease lk :: tr2) ∧
    Spinlock.disciplined [lk] tr1 = Some [Lptable; lk] ∧
    ERelease Lptable ∉ tr2 ∧ Spinlock.disciplined [lk] (tr1 ++ ERelease lk :: tr2) = Some [Lptable] ∧
    wp (wakeup c) (at_proc s i (set_state SLEEPING (set_chan_of (Some c) p)) (env s)) (λ _ s' _,
      ∃ p', procs s' !! i = Some p' ∧ state p' = RUNNABLE).
Proof.
  intros Hc Hp Hlk. pose proof (lookup_lt_Some _ _ _ Hp) as Hi.
  exists [ECli; EAcquire Lptable], [ECli; ECheck (Holding Lptable) "sched ptable.lock";
    ECheck OneLock "sched locks"; ECheck IntrOff "sched interruptible"; ESwtch].
  split_and!.
  - unfold sleep, sched, myproc. mrun. rewrite Hc. simpl. rewrite bool_decide_eq_false_2 by done.
    simpl. rewrite Hc. simpl. unfold getp. simpl.
    rewrite alter_alter, (alter_as_insert _ _ _ _ Hp), list_lookup_insert_eq by done. simpl. done.
  - simpl. rewrite decide_False by set_solver. done.
  - set_solver.
  - simpl. rewrite (decide_False (P := Lptable ∈ [lk])), (decide_True (P := lk ∈ [Lptable; lk])) by set_solver.
    rewrite !filter_cons, (decide_True (P := Lptable ≠ lk)), (decide_False (P := lk ≠ lk)), filter_nil by naive_solver.
    by rewrite bool_decide_eq_true_2 by set_solver.
  - unfold wp, wakeup, wakeup1. mrun. rewrite list_fmap_insert, list_lookup_insert_eq by (by rewrite length_fmap).
    eexists. split; [done|]. unfold wake. by rewrite decide_True.
Qed.

(** The slot of an exited child after [wait] has freed it. *)
Definition reaped (p : proc) : proc :=
  set_state UNUSED (set_killed 0 (set_name (<[0%nat := 0]> (name p))
    (set_parent None (set_pid 0 (set_kstack 0 p))))).

Lemma hoare_reap C (J : E → Prop) (HE : env_spec C J) B s k p :
  procs s !! k = Some p → J (env s) →
  hoare C (reap k) s (λ r s', r = pid p ∧ ∃ e', J e' ∧ s' = at_proc s k (reaped p) e') B.
Proof.
  intros Hp HJ. pose proof (lookup_lt_Some _ _ _ Hp) as Hk.
  unfold reap. rewrite (at_proc_id s k p) at 1 by done. repeat slot_step.
  eapply hoare_mono; [by apply (j_kfree _ _ HE)| |done]. intros ? e1 HJ1. repeat slot_step.
  eapply hoare_mono; [by apply (j_freevm _ _ HE)| |done]. intros ? e2 HJ2. repeat slot_step.
  split; [done|]. exists e2. split; [done|]. f_equal.
Qed.

(** [wait] called with an exited child returns the pid of the first one in the
    table without sleeping and frees its slot, leaving the other processes as
    they were; called without children, or by a killed process none of whose
    children has exited, it returns -1 and changes nothing; otherwise it sleeps
    on the caller's own channel. *)
Theorem wait_correct C (J : E → Prop) (HE : env_spec C J) s i c :
  cur s = Some i → procs s !! i = Some c → state c = RUNNING → J (env s) →
  hoare C (wait []) s
    (λ r s', (∃ k p e', procs s !! k = Some p ∧ parent p = Some i ∧ state p = ZOMBIE ∧
                r = pid p ∧ s' = at_proc s k (reaped p) e') ∨
             (r = -1 ∧ s' = s ∧ (∀ p, p ∈ procs s → ¬ (parent p = Some i ∧ state p = ZOMBIE)) ∧
                ((∀ p, p ∈ procs s → parent p ≠ Some i) ∨ killed c ≠ 0)))
    (λ s', (∃ p, p ∈ procs s ∧ parent p = Some i) ∧ killed c = 0 ∧
           (∀ p, p ∈ procs s → ¬ (parent p = Some i ∧ state p = ZOMBIE)) ∧
           s' = at_proc s i (set_state SLEEPING (set_chan_of (Some (Ch_proc i)) c)) (env s)).
Proof.
  intros Hc Hi Hst HJ. pose proof (lookup_lt_Some _ _ _ Hi) as Hlt.
  unfold wait, myproc. repeat hoare_step. rewrite Hc. apply hoare_ret.
  simpl wait_loop. unfold wait_scan. repeat hoare_step.
  destruct (list_find _ (procs s)) as [[k p]|] eqn:Hf.
  { apply list_find_Some in Hf as (Hp & [Hpar Hz] & _). apply hoare_bind.
    eapply hoare_mono; [by apply (hoare_reap _ J HE (λ _, False))| |done]. intros r s1 (-> & e' & _ & ->).
    repeat hoare_step. left. by exists k, p, e'. }
  assert (∀ p, p ∈ procs s → ¬ (parent p = Some i ∧ state p = ZOMBIE)) as Hno.
  { intros p Hp. apply list_find_None in Hf. by eapply Forall_forall in Hf. }
  apply hoare_ret, hoare_bind. rewrite (at_proc_id s i c) at 1 by done. apply hoare_getp_at; [done|].
  rewrite <- at_proc_id by done.
  destruct (existsb _ (procs s)) eqn:Hkids; simpl orb; cycle 1.
  { repeat hoare_step. right. split_and!; try done. left. intros p Hp Hpar.
    rewrite <- not_true_iff_false in Hkids. apply Hkids, existsb_exists. exists p.
    split; [by apply list_elem_of_In | by apply bool_decide_eq_true_2]. }
  destruct (truth (killed c)) eqn:Hk.
  { repeat hoare_step. right. split_and!; try done. right. by apply truth_true. }
  apply truth_false in Hk. apply existsb_exists in Hkids as (p & Hp%list_elem_of_In & Hpar%bool_decide_eq_true).
  unfold sleep, sched, myproc. repeat hoare_step. rewrite Hc. repeat hoare_step.
  rewrite bool_decide_eq_true_2 by done. simpl when. rewrite (at_proc_id s i c) at 1 by done.
  repeat slot_step. simpl cur. rewrite Hc. apply hoare_ret. repeat slot_step.
  rewrite decide_False by done. repeat slot_step. split_and!; eauto.
Qed.

Lemma handler_Ok (p : proc) (n : nat) h (s : pstate E) :
  signal_handlers p !! n = Some h → handler p n s = Ok h s [].
Proof.
  intros Hh. unfold handler. rewrite (proj2 (Z.ltb_ge _ _)) by lia. by rewrite Nat2Z.id, Hh.
Qed.

(** C40: the scheduler cannot thaw a stopped process. When it visits a frozen
    RUNNABLE process with SIGCONT pending under the default handler, it calls
    [SIGCONT_handler], which writes through [myproc()]; on the scheduler's own
    stack that is a null pointer, and the kernel faults at the offset of [freeze]. *)
Theorem scheduler_thaw_faults s k p run :
  cur s = None → procs s !! k = Some p → state p = RUNNABLE → freeze p ≠ 0 →
  Z.testbit (pending_signals p) SIGCONT = true →
  signal_handlers p !! Z.to_nat SIGCONT = Some SIG_DFL →
  crashes (scheduler_visit run k) s (PageFault off_freeze).
Proof.
  intros Hc Hp Hst Hf Hb Hh. unfold scheduler_visit.
  apply crashes_bind. eapply wp_getp; [done|].
  rewrite bool_decide_eq_true_2 by done. simpl negb. apply truth_true in Hf. rewrite Hf.
  apply crashes_here. simpl when. apply crashes_bind. unfold wp. rewrite (handler_Ok p 19 SIG_DFL) by done.
  rewrite truth_land_bit, Hb by (unfold SIGCONT; lia). simpl andb. apply crashes_here.
  unfold SIGCONT_handler. apply crashes_bind, wp_myproc. rewrite Hc. by eexists.
Qed.

Lemma thaw_loop_none s k p l :
  procs s !! k = Some p → length (signal_handlers p) = 32%nat → (∀ n, n ∈ l → (n < 32)%nat) →
  (∀ n : nat, n ∈ l → Z.testbit (pending_signals p) n = true → Z.of_nat n ≠ SIGKILL → Z.of_nat n ≠ SIGSTOP →
     signal_handlers p !! n ≠ Some SIGCONT_handler_addr) →
  thaw_loop k l s = Ok () s [].
Proof.
  intros Hp Hlen. induction l as [|n l IH]; intros Hlt Hno; [done|]. simpl.
  assert (thaw_loop k l s = Ok () s []) as Hrest.
  { apply IH; intros m Hm; [|apply Hno]; [apply Hlt|]; by right. }
  destruct ((_ =? SIGKILL) || _) eqn:Hks; [done|]. apply orb_false_iff in Hks as [Hk Hs].
  apply Z.eqb_neq in Hk, Hs. destruct (lookup_lt_is_Some_2 (signal_handlers p) n) as [h Hh].
  { rewrite Hlen. apply Hlt. by left. }
  unfold mbind, M_bind, getp. rewrite Hp. simpl. rewrite (handler_Ok p n h) by done. simpl.
  rewrite truth_land_bit by lia. destruct (Z.testbit _ n) eqn:Hb; simpl; [|by rewrite Hrest].
  destruct (Z.eqb_spec h SIGCONT_handler_addr) as [->|]; [|by rewrite Hrest].
  destruct (Hno n); [by left | done..].
Qed.

(** the scheduler passes over a frozen process, whatever other signals are
    pending: with no SIGCONT under the default handler and no signal whose
    handler is the kernel's [SIGCONT_handler], visiting the process changes
    nothing. In particular a pending SIGKILL, which is only handled on the way
    back to user mode, does not take effect on a stopped process. *)
Theorem frozen_not_scheduled s k p run :
  procs s !! k = Some p → length (signal_handlers p) = 32%nat → freeze p ≠ 0 →
  (Z.testbit (pending_signals p) SIGCONT = true → signal_handlers p !! Z.to_nat SIGCONT ≠ Some SIG_DFL) →
  (∀ n : nat, (n < 32)%nat → Z.testbit (pending_signals p) n = true →
     Z.of_nat n ≠ SIGKILL → Z.of_nat n ≠ SIGSTOP → signal_handlers p !! n ≠ Some SIGCONT_handler_addr) →
  scheduler_visit run k s = Ok () s [].
Proof.
  intros Hp Hlen Hf Hcont Hno. pose proof (getp_Ok _ _ _ Hp) as Hget.
  destruct (lookup_lt_is_Some_2 (signal_handlers p) 19) as [h Hh]; [lia|].
  assert (thaw_loop k (seq 0 32) s = Ok () s []) as Hthaw.
  { eapply thaw_loop_none; [done | done | |]; intros n Hn%elem_of_seq; [lia|]. apply Hno. lia. }
  apply truth_true in Hf. unfold scheduler_visit. rewrite (bind_Ok _ _ _ _ _ _ Hget), prepend_nil.
  case_bool_decide as Hst; [|done]. cbv [negb]. rewrite Hf. unfold when. rewrite (bind_Ok _ _ s () s []).
  { by rewrite prepend_nil, (bind_Ok _ _ _ _ _ _ Hget), prepend_nil, Hf. }
  rewrite (bind_Ok _ _ _ _ _ _ (handler_Ok p 19 h s Hh)), prepend_nil.
  rewrite truth_land_bit by (unfold SIGCONT; lia).
  destruct (Z.testbit _ SIGCONT && (h =? SIG_DFL)) eqn:Hb; [|done].
  apply andb_true_iff in Hb as [Hb Hd%Z.eqb_eq]. destruct (Hcont Hb).
  change (Z.to_nat SIGCONT) with 19%nat. by rewrite Hh, Hd.
Qed.

End sched.

(** ** A concrete environment

    Memory and files that never fail: each call returns a fixed non-null pointer. *)

#[global] Instance flat_env : ProcEnv flat := {|
  env_kalloc := mret 0x80400000; env_kfree _ := mret (); env_setupkvm := mret 0x80401000;
  env_inituvm _ := mret (); env_allocuvm _ _ n := mret n; env_deallocuvm _ _ n := mret n;
  env_copyuvm _ _ := mret 0x80402000; env_freevm _ := mret (); env_lcr3 _ := mret ();
  env_switchkvm := mret (); env_filedup _ := mret (); env_fileclose _ := mret ();
  env_idup _ := mret (); env_iput _ := mret (); env_namei_root := mret (Some 0%nat);
  env_begin_op := mret (); env_end_op := mret (); env_iinit := mret (); env_initlog := mret ();
  env_as _ _ _ e := e;
|}.

Lemma flat_env_spec C : env_spec C (λ _ : flat, True).
Proof. by split. Qed.

(** A running parent in slot 0, an exited child in slot 1, a free slot 2 left
    frozen by its last process. *)
Definition ex_table : pstate flat :=
  mk_pstate
    [set_cwd (Some 0%nat) (set_pid 1 (set_state RUNNING proc0));
     set_parent (Some 0%nat) (set_pid 5 (set_state ZOMBIE proc0));
     set_freeze 1 proc0] 6 (Some 0%nat) (Some 0%nat) false (λ _, Some 0).

Lemma fork_correct_witness :
  hoare False (fork 11 12) ex_table (λ r s', r = 6 ∨ r = -1) (λ _, False).
Proof.
  eapply hoare_mono; [apply (fork_correct 11 12 False _ (flat_env_spec False) ex_table 0%nat
    (set_cwd (Some 0%nat) (set_pid 1 (set_state RUNNING proc0)))); try done| |done].
  - intros p Hp. repeat (apply elem_of_cons in Hp as [->|Hp]; [done|]). by apply elem_of_nil in Hp.
  - intros r s' [[-> _]|[-> _]]; [by right | by left].
Defined.

Lemma wait_correct_witness :
  hoare False (wait []) ex_table (λ r _, r = 5 ∨ r = -1) (λ _, True).
Proof.
  eapply hoare_mono; [by apply (wait_correct False _ (flat_env_spec False) ex_table 0%nat
    (set_cwd (Some 0%nat) (set_pid 1 (set_state RUNNING proc0))))| |done].
  intros r s' [(k & p & e' & Hp & _ & Hz & -> & _)|[-> _]]; [|by right]. left.
  do 3 (destruct k as [|k]; [by simplify_eq/=|]). done.
Defined.

Lemma sleep_atomic_witness :
  ∃ tr1 tr2, sleep to_scheduler Ch_ticks Lticks ex_table = Blocked (Ch_spin Lptable)
    (at_proc ex_table 0 (set_state SLEEPING (set_chan_of (Some Ch_ticks)
      (set_cwd (Some 0%nat) (set_pid 1 (set_state RUNNING proc0))))) (λ _, Some 0))
    (tr1 ++ ERelease Lticks :: tr2).
Proof.
  destruct (sleep_atomic ex_table 0%nat (set_cwd (Some 0%nat) (set_pid 1 (set_state RUNNING proc0)))
    Ch_ticks Lticks eq_refl eq_refl) as (tr1 & tr2 & Hs & _); [done|]. by exists tr1, tr2.
Defined.

(** Slot 0 stopped, with [pending] signals. *)
Definition ex_frozen (pending : Z) : pstate flat :=
  mk_pstate [set_pending_signals pending (set_freeze 1 (set_state RUNNABLE proc0))]
    2 None None false (λ _, Some 0).

Lemma scheduler_thaw_faults_witness :
  crashes (scheduler_visit 13 (λ _, mret ()) 0%nat) (ex_frozen (Z.shiftl 1 SIGCONT)) (PageFault 264).
Proof. by eapply (scheduler_thaw_faults 13 (ex_frozen (Z.shiftl 1 SIGCONT)) 0%nat). Defined.

Lemma frozen_not_scheduled_witness :
  scheduler_visit 13 (λ _, mret ()) 0%nat (ex_frozen (Z.shiftl 1 SIGKILL)) =
    Ok () (ex_frozen (Z.shiftl 1 SIGKILL)) [].
Proof.
  eapply (frozen_not_scheduled 13 (ex_frozen (Z.shiftl 1 SIGKILL)) 0%nat); try done.
  intros n Hn Hb Hk. destruct Hk. revert Hb. simpl pending_signals. rewrite testbit_one by (unfold SIGKILL; lia).
  by intros Hb%bool_decide_eq_true.
Defined.

End Sched.
