(* ===== verification/SchedInv.v ===== *)
(** * The process table invariant

    What holds of the process table between any two steps of the kernel:
    distinct pids, a live parent for every process but init, a kernel stack and
    a page table for every process that can be scheduled. [kstep] lists the
    steps: each runs an operation of proc.c for one running process up to its
    return or to the point where it gives up the CPU, so that a sequence of
    steps is an interleaving of the kernel's processes. *)

From S2P Require Import Prelude Layout Memory Proc Signal Sched.

Module SchedInv.
Import Proc Signal Sched.

(** ** The invariant *)

Inductive kind := KUnused | KEmbryo | KLive | KZombie.

#[global] Instance kind_eq_dec : EqDecision kind.
Proof. solve_decision. Defined.

Definition kind_of (p : proc) : kind :=
  match state p with
  | UNUSED => KUnused | EMBRYO => KEmbryo | ZOMBIE => KZombie
  | SLEEPING | RUNNABLE | RUNNING => KLive
  end.

Section inv.
Context {E : Type}.
Implicit Types s : pstate E.

(** Process [j] is in the table and alive. *)
Definition alive (ps : list proc) (j : nat) : Prop :=
  ∃ q, ps !! j = Some q ∧ kind_of q = KLive.

Definition slot_ok (ps : list proc) (ip : option nat) (npid : Z) (i : nat) (p : proc) : Prop :=
  0 ≤ pid p < npid ∧
  (state p = SLEEPING → is_Some (chan_of p)) ∧
  match kind_of p with
  | KUnused => parent p = None ∧ kstack p = 0
  | KEmbryo => parent p = None
  | KLive | KZombie =>
      pid p ≠ 0 ∧ kstack p ≠ 0 ∧ pgdir p ≠ 0 ∧
      tf_ptr p = u32 (u32 (kstack p + KSTACKSIZE) - TFSIZE) ∧
      (ip = Some i ∨ ∃ j, parent p = Some j ∧ alive ps j)
  end.

Definition pids_distinct (ps : list proc) : Prop :=
  ∀ i j p q, ps !! i = Some p → ps !! j = Some q → pid p = pid q → pid p ≠ 0 → i = j.

Definition ptable_ok (ps : list proc) (ip : option nat) (npid : Z) : Prop :=
  1 ≤ npid ∧ pids_distinct ps ∧
  (∃ i, ip = Some i ∧ alive ps i) ∧
  ∀ i p, ps !! i = Some p → slot_ok ps ip npid i p.

Definition ptable_inv s : Prop := ptable_ok (procs s) (initproc s) (nextpid s).

(** ** Changes that do not matter to it *)

(** [p'] plays the same part in the table as [p]. *)
Definition similar (p p' : proc) : Prop :=
  pid p' = pid p ∧ parent p' = parent p ∧ kstack p' = kstack p ∧ tf_ptr p' = tf_ptr p ∧
  (pgdir p ≠ 0 → pgdir p' ≠ 0) ∧ kind_of p' = kind_of p ∧
  (state p' = SLEEPING → (state p = SLEEPING ∧ chan_of p' = chan_of p) ∨ is_Some (chan_of p')).

#[global] Instance similar_refl : Reflexive similar.
Proof. intros p. split_and!; auto. Qed.

Lemma similar_slot ps ps' ip npid i p p' :
  (∀ j, alive ps j → alive ps' j) →
  similar p p' → slot_ok ps ip npid i p → slot_ok ps' ip npid i p'.
Proof.
  intros Hal (Hpid & Hpar & Hk & Ht & Hd & Hkind & Hch) (Hr & Hsl & Hm). unfold slot_ok.
  rewrite Hpid, Hpar, Hk, Ht, Hkind. split_and!; [lia | lia | |].
  - intros Hs. destruct (Hch Hs) as [[Hs' ->]|?]; [by apply Hsl | done].
  - destruct (kind_of p); naive_solver.
Qed.

Lemma similar_ok ps ps' ip npid :
  Forall2 similar ps ps' → ptable_ok ps ip npid → ptable_ok ps' ip npid.
Proof.
  intros Hsim (Hn & Hpids & (i0 & Hip & Hal0) & Hslots).
  assert (∀ j, alive ps j → alive ps' j) as Hal.
  { intros j (q & Hq & Hk). destruct (Forall2_lookup_l _ _ _ _ _ Hsim Hq) as (q' & Hq' & Hs).
    exists q'. split; [done|]. destruct Hs as (_ & _ & _ & _ & _ & -> & _). done. }
  split_and!; [done | | eauto |].
  - intros i j p' q' Hp' Hq' Heq Hnz.
    destruct (Forall2_lookup_r _ _ _ _ _ Hsim Hp') as (p & Hp & [Hpp _]).
    destruct (Forall2_lookup_r _ _ _ _ _ Hsim Hq') as (q & Hq & [Hqq _]).
    apply (Hpids i j p q Hp Hq); congruence.
  - intros i p' Hp'. destruct (Forall2_lookup_r _ _ _ _ _ Hsim Hp') as (p & Hp & Hs).
    eapply similar_slot; eauto.
Qed.

Lemma similar_alter ps i f :
  (∀ p, ps !! i = Some p → similar p (f p)) → Forall2 similar ps (alter f i ps).
Proof.
  intros Hf. apply Forall2_same_length_lookup. rewrite length_alter. split; [done|].
  intros j x y Hx Hy. destruct (decide (j = i)) as [->|Hne].
  - rewrite list_lookup_alter_eq, Hx in Hy. simpl in Hy. simplify_eq. by apply Hf.
  - rewrite list_lookup_alter_ne in Hy by done. simplify_eq. done.
Qed.

#[global] Instance similar_trans : Transitive similar.
Proof.
  intros p q r (? & ? & ? & ? & ? & ? & Hq) (? & ? & ? & ? & ? & ? & Hr).
  split_and!; [congruence.. | by auto | congruence |].
  intros Hs. destruct (Hr Hs) as [[Hs' Hc]|?]; [|by right].
  destruct (Hq Hs') as [[Hs'' Hc']|?]; [left | right]; rewrite Hc; [by split | done].
Qed.

Lemma similar_fmap ps f : (∀ p, similar p (f p)) → Forall2 similar ps (f <$> ps).
Proof. intros Hf. by apply Forall2_fmap_r, Forall_Forall2_diag, Forall_true. Qed.

(** [s'] has the same table as [s] as far as the invariant is concerned. *)
Definition tables_similar s s' : Prop :=
  Forall2 similar (procs s) (procs s') ∧ initproc s' = initproc s ∧
  nextpid s' = nextpid s ∧ cur s' = cur s.

#[global] Instance tables_similar_refl : Reflexive tables_similar.
Proof. intros s. by split_and!. Qed.

#[global] Instance tables_similar_trans : Transitive tables_similar.
Proof.
  intros s1 s2 s3 (H12 & ? & ? & ?) (H23 & ? & ? & ?).
  split_and!; [by etrans | congruence..].
Qed.

Lemma tables_similar_inv s s' : tables_similar s s' → ptable_inv s → ptable_inv s'.
Proof. intros (Hs & Hi & Hn & _). unfold ptable_inv. rewrite Hi, Hn. by apply similar_ok. Qed.

Lemma tables_similar_alive s s' i :
  tables_similar s s' → alive (procs s) i → alive (procs s') i.
Proof.
  intros [Hs _] (p & Hp & Hk). destruct (Forall2_lookup_l _ _ _ _ _ Hs Hp) as (p' & Hp' & Hpp).
  exists p'. split; [done|]. destruct Hpp as (_ & _ & _ & _ & _ & -> & _). done.
Qed.

(** ** Replacing one slot *)

Lemma ok_insert ps ip n n' j p q :
  ps !! j = Some p → ptable_ok ps ip n → n ≤ n' →
  (kind_of p = KLive → kind_of q = KLive) →
  pid q = 0 ∨ pid q = pid p ∨ n ≤ pid q →
  slot_ok (<[j := q]> ps) ip n' j q → ptable_ok (<[j := q]> ps) ip n'.
Proof.
  intros Hp (Hn & Hpids & (i0 & Hip & Hal0) & Hslots) Hnn Hkind Hpid Hq.
  pose proof (lookup_lt_Some _ _ _ Hp) as Hj.
  assert (∀ k, alive ps k → alive (<[j := q]> ps) k) as Hal.
  { intros k (r & Hr & Hk). destruct (decide (k = j)) as [->|Hne].
    - simplify_eq. exists q. split; [by apply list_lookup_insert_eq | auto].
    - exists r. by rewrite list_lookup_insert_ne. }
  assert (∀ k r, (<[j := q]> ps) !! k = Some r → k ≠ j → ps !! k = Some r) as Hother.
  { intros k r Hr Hne. by rewrite list_lookup_insert_ne in Hr. }
  assert (∀ k r, ps !! k = Some r → k ≠ j → pid r = pid q → pid r = 0) as Hfresh.
  { intros k r Hr Hne Heq. destruct (decide (pid r = 0)) as [|Hnz]; [done|].
    destruct (Hslots _ _ Hr) as [Hrange _].
    destruct Hpid as [|[Hpp|]]; [congruence | | lia].
    destruct Hne. apply (Hpids k j r p Hr Hp); congruence. }
  split_and!; [lia | | eauto |].
  - intros a b x y Hx Hy Hxy Hnz. destruct (decide (a = j)) as [->|Ha], (decide (b = j)) as [->|Hb].
    + done.
    + rewrite list_lookup_insert_eq in Hx by done. simplify_eq.
      by destruct Hnz; rewrite Hxy; apply (Hfresh b); [apply Hother | |].
    + rewrite list_lookup_insert_eq in Hy by done. simplify_eq.
      by destruct Hnz; apply (Hfresh a); [apply Hother | |].
    + apply (Hpids a b x y); [by apply Hother.. | done | done].
  - intros k r Hr. destruct (decide (k = j)) as [->|Hne].
    + rewrite list_lookup_insert_eq in Hr by done. by simplify_eq.
    + destruct (Hslots k r (Hother _ _ Hr Hne)) as (? & ? & Hm).
      split_and!; [lia | lia | done |]. destruct (kind_of r); naive_solver.
Qed.

(** ** Operations that leave the table similar *)

Definition tame {A} (m : M (pstate E) A) : Prop :=
  ∀ s, hoare True m s (λ _ s', tables_similar s s') (tables_similar s).

Lemma hoare_getp i s (Q : proc → pstate E → Prop) B :
  (∀ p, procs s !! i = Some p → Q p s) → hoare True (getp i) s Q B.
Proof. intros HQ. unfold hoare, getp. destruct (procs s !! i); auto. Qed.

Lemma tame_bind {A A'} (m : M (pstate E) A) (k : A → M (pstate E) A') :
  tame m → (∀ a, tame (k a)) → tame (m ≫= k).
Proof.
  intros Hm Hk s. apply hoare_bind. eapply hoare_mono; [apply Hm| |done].
  intros a s1 H1. eapply hoare_mono; [apply Hk|..].
  - intros ? s2 H2. by transitivity s1.
  - intros s2 H2. by transitivity s1.
Qed.

Lemma tame_ret {A} (a : A) : tame (mret a).
Proof. intros s. by apply hoare_ret. Qed.
Lemma tame_emit e : tame (emit e).
Proof. intros s. by apply hoare_emit. Qed.
Lemma tame_gets {A} (f : pstate E → A) : tame (gets f).
Proof. intros s. by apply hoare_gets. Qed.
Lemma tame_getp i : tame (getp i).
Proof. intros s. unfold hoare, getp. by destruct (procs s !! i). Qed.
Lemma tame_deref p off : tame (deref p off).
Proof. intros s. by destruct p. Qed.
Lemma tame_on_env {A} (m : M E A) : tame (on_env m).
Proof. intros s. unfold hoare, on_env, zoom. by destruct (m (env s)). Qed.
Lemma tame_zoom {T A} (view : pstate E → T) put (m : M T A) : (∀ t s, tables_similar s (put t s)) → tame (zoom view put m).
Proof. intros Hput s. unfold hoare, zoom. destruct (m (view s)); [apply Hput | apply Hput | done]. Qed.
Lemma tame_as_me {A} `{ProcEnv E} (m : M E A) : tame (as_me m).
Proof. by apply tame_zoom. Qed.
Lemma tame_panic {A} msg : tame (panic (A := A) msg).
Proof. by intros s. Qed.
Lemma tame_undefined {A} msg : tame (undefined (A := A) msg).
Proof. by intros s. Qed.
Lemma tame_updp i f : (∀ p, similar p (f p)) → tame (updp i f).
Proof.
  intros Hf s. apply hoare_modify. split_and!; [|done..]. apply similar_alter. auto.
Qed.
Lemma tame_when c m : tame m → tame (when c m).
Proof. intros Hm. destruct c; [done | apply tame_ret]. Qed.
Lemma tame_for_each {A} (l : list A) (body : A → M (pstate E) unit) :
  (∀ x, tame (body x)) → tame (for_each l body).
Proof.
  intros Hb. induction l as [|x l IH]; [apply tame_ret|]. by apply tame_bind.
Qed.
Lemma tame_to_scheduler : tame to_scheduler.
Proof. by intros s. Qed.

End inv.

Create HintDb tame.
#[export] Hint Resolve tame_ret tame_emit tame_gets tame_getp tame_deref tame_on_env tame_as_me tame_panic
  tame_undefined tame_when tame_for_each tame_to_scheduler : tame.

(** Show an operation tame by following its structure. *)
Ltac tame_step :=
  lazymatch goal with
  | |- tame (mbind _ _) => apply tame_bind; [|intros ?]
  | |- tame (updp _ _) => apply tame_updp; intros ?; split_and!; by auto
  | |- tame (when _ _) => apply tame_when
  | |- tame (for_each _ _) => apply tame_for_each; intros ?
  | |- tame (match ?x with _ => _ end) => destruct x
  | |- tame (acquire _) => apply tame_emit
  | |- tame (release _) => apply tame_emit
  | |- tame (cprintf _ _) => apply tame_emit
  | _ => solve [auto with tame]
  end.
Ltac tame := repeat tame_step.

(** ** The steps of the kernel *)

Section steps.
Context {E : Type} `{ProcEnv E, UserMem E}.
Context (forkret_addr trapret_addr SIGCONT_handler_addr : Z).
Implicit Types s : pstate E.

Lemma tame_myproc : tame (E := E) myproc.
Proof. unfold myproc. tame. Qed.
Hint Resolve tame_myproc : tame.

Lemma tame_SIGKILL_handler : tame (E := E) SIGKILL_handler.
Proof. unfold SIGKILL_handler. tame. Qed.
Lemma tame_SIGSTOP_handler : tame (E := E) SIGSTOP_handler.
Proof. unfold SIGSTOP_handler. tame. Qed.
Lemma tame_SIGCONT_handler : tame (E := E) SIGCONT_handler.
Proof. unfold SIGCONT_handler. tame. Qed.
Lemma tame_handler p k : tame (E := E) (handler p k).
Proof. unfold handler. tame. Qed.
Lemma tame_set_handler i k h : tame (E := E) (set_handler i k h).
Proof. unfold set_handler. tame. Qed.
Lemma tame_deliver i k h : tame (E := E) (deliver i k h).
Proof. unfold deliver. tame. Qed.
Hint Resolve tame_SIGKILL_handler tame_SIGSTOP_handler tame_SIGCONT_handler tame_handler
  tame_set_handler tame_deliver : tame.

Lemma tame_sigprocmask m : tame (E := E) (sigprocmask m).
Proof. unfold sigprocmask. tame. Qed.
Lemma tame_sigaction k a o : tame (E := E) (sigaction k a o).
Proof. unfold sigaction. tame. Qed.
Lemma tame_sigret : tame (E := E) sigret.
Proof. unfold sigret. tame. Qed.
Lemma tame_sig_handler_runner c : tame (E := E) (sig_handler_runner c).
Proof. unfold sig_handler_runner, sig_one. tame. Qed.
Lemma tame_growproc n : tame (E := E) (growproc n).
Proof. unfold growproc, switchuvm. tame. Qed.
Lemma tame_wakeup1 c : tame (E := E) (wakeup1 c).
Proof.
  intros s. apply hoare_modify. split_and!; [|done..]. apply similar_fmap.
  intros p. unfold wake. case_decide as Hw; [|done]. destruct Hw as [Hs _].
  split_and!; try done. unfold kind_of. by rewrite Hs.
Qed.
Hint Resolve tame_sigprocmask tame_sigaction tame_sigret tame_sig_handler_runner tame_growproc
  tame_wakeup1 : tame.

(** The invariant holds, process [k] is alive and [c] is the current process. *)
Definition live_inv (c : option nat) (k : nat) s : Prop :=
  ptable_inv s ∧ alive (procs s) k ∧ cur s = c.

Lemma live_inv_similar c k s s' : tables_similar s s' → live_inv c k s → live_inv c k s'.
Proof.
  intros Hs (Hinv & Hal & Hc). split_and!;
    [by eapply tables_similar_inv | by eapply tables_similar_alive|].
  destruct Hs as (_ & _ & _ & ->). done.
Qed.

Lemma hoare_tame {A} (m : M (pstate E) A) c k s (Q : A → pstate E → Prop) :
  tame m → live_inv c k s → (∀ a s', live_inv c k s' → Q a s') → hoare True m s Q ptable_inv.
Proof.
  intros Hm Hl HQ. eapply hoare_mono; [apply Hm|..].
  - intros a s' Hs. apply HQ. eapply live_inv_similar; [exact Hs | exact Hl].
  - intros s' Hs. eapply tables_similar_inv; [exact Hs | apply Hl].
Qed.

(** Change of a live process's state to another state of a live process. *)
Lemma live_inv_state c k f s :
  live_inv c k s → (∀ p, kind_of p = KLive → similar p (f p)) →
  live_inv c k (set_procs (alter f k (procs s)) s).
Proof.
  intros Hl Hf. eapply live_inv_similar; [|exact Hl]. split_and!; [|done..].
  destruct Hl as (_ & (q & Hq & Hk) & _). apply similar_alter. intros p Hp. simplify_eq. auto.
Qed.

(** [sched] gives up the CPU in the state it is called in. *)
Lemma hoare_sched (Q : unit → pstate E → Prop) s : ptable_inv s → hoare True (sched to_scheduler) s Q ptable_inv.
Proof.
  intros Hinv. unfold sched, myproc. repeat hoare_step. destruct (cur s) as [i|]; [|done].
  apply hoare_ret, hoare_bind, hoare_getp. intros p Hp. case_decide; [done|]. by repeat hoare_step.
Qed.

Lemma inv_sleep c k ch lk s Q :
  c = Some k → live_inv c k s → hoare True (sleep to_scheduler ch lk) s Q ptable_inv.
Proof.
  intros -> Hl. pose proof Hl as (_ & _ & Hc). unfold sleep, myproc. repeat hoare_step. rewrite Hc.
  apply hoare_bind. eapply hoare_tame; [tame | exact Hl|]. intros _ s1 Hl1.
  repeat hoare_step. unfold updp. repeat hoare_step.
  match goal with |- hoare _ _ ?s2 _ _ => assert (live_inv (Some k) k s2) as Hl2 end.
  { change (set_procs _ _) with
      (set_procs (alter (set_state SLEEPING) k (alter (set_chan_of (Some ch)) k (procs s1))) s1).
    rewrite alter_alter. apply (live_inv_state _ _ (set_state SLEEPING ∘ set_chan_of (Some ch))); [done|].
    intros p Hp. split_and!; simpl; eauto. }
  by apply hoare_sched, Hl2.
Qed.

Lemma inv_yield c k s Q :
  c = Some k → live_inv c k s → hoare True (yield to_scheduler) s Q ptable_inv.
Proof.
  intros -> Hl. pose proof Hl as (_ & _ & Hc). unfold yield, myproc. repeat hoare_step. rewrite Hc.
  apply hoare_ret. unfold updp. repeat hoare_step. apply hoare_sched.
  apply (live_inv_state (Some k) k (set_state RUNNABLE)); [done|].
  intros p Hp. split_and!; simpl; auto; done.
Qed.

Lemma tame_kill pid' signum : tame (E := E) (kill pid' signum).
Proof.
  intros s. destruct (kill_effect s pid' signum) as (r & s' & tr & Hk & Hcase).
  unfold hoare. rewrite Hk. destruct Hcase as [(_ & -> & _)|(_ & _ & i & p & p' & Hp & _ & _ & -> & _ & Hst & Hp')]; [done|].
  split_and!; [|done..]. simpl.
  rewrite <- (alter_as_insert (λ _, p') _ _ _ Hp). apply similar_alter. intros q Hq. simplify_eq.
  rewrite Hp'. split_and!; try done; simpl; rewrite Hst; case_decide as Hd; try done; auto.
  unfold kind_of. destruct Hd as [-> _]. done.
Qed.
Hint Resolve tame_kill : tame.

(** ** fork *)

Lemma slot_ok_unused ps ip n i p :
  0 ≤ pid p < n → state p = UNUSED → parent p = None → kstack p = 0 → slot_ok ps ip n i p.
Proof.
  intros Hr Hs Hp Hk. unfold slot_ok, kind_of. rewrite Hs. by split_and!; try lia.
Qed.

Lemma bump_nextpid s : 1 ≤ nextpid s < 2 ^ 31 - 1 → nextpid (bump s) = nextpid s + 1.
Proof. intros Hn. simpl. apply s32_small. lia. Qed.

Lemma alloc_result_none_inv s s' :
  nextpid s < 2 ^ 31 - 1 → ptable_inv s →
  alloc_result forkret_addr trapret_addr s None s' → ptable_inv s'.
Proof.
  intros Hn Hinv Hr. inversion Hr as [|j p q e' Hf Hq| ]; subst; [done|].
  destruct (first_unused_lookup _ _ _ Hf) as (Hp & Hu & Hj). pose proof Hinv as (Hn1 & _ & _ & Hs).
  destruct (Hs _ _ Hp) as (Hr1 & _ & Hk). unfold kind_of in Hk. rewrite Hu in Hk.
  unfold ptable_inv. simpl initproc. simpl procs.
  assert (nextpid (at_proc (bump s) j (set_kstack 0 (set_pid (nextpid s) p)) e') = nextpid s + 1) as ->.
  { by apply bump_nextpid. }
  eapply ok_insert; [done | exact Hinv | lia | unfold kind_of; simpl; by rewrite Hu | right; right; done |].
  apply slot_ok_unused; simpl; [lia | done | apply Hk | done].
Qed.

Lemma fork_result_inv s i c r s' :
  nextpid s < 2 ^ 31 - 1 → ptable_inv s → procs s !! i = Some c → kind_of c = KLive →
  fork_result forkret_addr trapret_addr s i c r s' → ptable_inv s'.
Proof.
  intros Hn Hinv Hi Hlive Hr. destruct Hr as [s' Hr|j p q k e' Hf Hqs Hqk Hk Hq|j p q k d e' Hf Hk Hd Hq].
  { by eapply alloc_result_none_inv. }
  all: destruct (first_unused_lookup _ _ _ Hf) as (Hp & Hu & Hj); pose proof Hinv as (Hn1 & _ & _ & Hs).
  all: destruct (Hs _ _ Hp) as (Hr1 & _ & Hkind); unfold kind_of in Hkind; rewrite Hu in Hkind.
  all: unfold ptable_inv; simpl initproc; simpl procs.
  all: assert (nextpid (at_proc (bump s) j q e') = nextpid s + 1) as -> by (by apply bump_nextpid).
  all: eapply ok_insert; [done | exact Hinv | lia | unfold kind_of; by rewrite Hu | right; right; by subst q |].
  - apply slot_ok_unused; [subst q; simpl; lia | done | by subst q; apply Hkind | done].
  - assert (i ≠ j) by (intros ->; unfold kind_of in Hlive; simplify_eq; by rewrite Hu in Hlive).
    subst q. split_and!; simpl; try done; try lia. split_and!; [lia | done | done | done |].
    right. exists i. split; [done|]. exists c. by rewrite list_lookup_insert_ne.
Qed.

(** A change of a slot whose process is not alive *)
Lemma alive_insert_other ps i j p q : alive ps i → ps !! j = Some p → kind_of p ≠ KLive → alive (<[j := q]> ps) i.
Proof.
  intros (x & Hx & Hk) Hp Hkp. exists x. split; [|done]. rewrite list_lookup_insert_ne; [done|]. intros ->. simplify_eq.
Qed.

Lemma fork_result_alive s i c r s' : alive (procs s) i → fork_result forkret_addr trapret_addr s i c r s' →
  alive (procs s') i ∧ cur s' = cur s.
Proof.
  intros Hal Hr. assert (∀ j p q, first_unused s j p → alive (<[j := q]> (procs s)) i) as Hins.
  { intros j p q Hf. destruct (first_unused_lookup _ _ _ Hf) as (Hp & Hu & _). eapply alive_insert_other; [done | done|]. unfold kind_of. by rewrite Hu. }
  destruct Hr as [s' Ha|j p q k e' Hf|j p q k d e' Hf]; [inversion Ha; subst|..]; simpl; eauto.
Qed.

Lemma inv_fork s i :
  env_spec True (λ _ : E, True) → nextpid s < 2 ^ 31 - 1 → live_inv (Some i) i s →
  hoare True (fork forkret_addr trapret_addr) s (λ _ s', live_inv (Some i) i s') ptable_inv.
Proof.
  intros HE Hn (Hinv & Hal & Hc). pose proof Hal as (c & Hi & Hlive). eapply hoare_mono.
  - apply (hoare_fork forkret_addr trapret_addr True (λ _, True) HE ptable_inv s i c); auto.
    intros Hu. unfold kind_of in Hlive. by rewrite Hu in Hlive.
  - intros r s' [_ Hr]. destruct (fork_result_alive _ _ _ _ _ Hal Hr) as [Hal' Hc']. split; [by eapply fork_result_inv|]. split; [done|]. by rewrite Hc'.
  - done.
Qed.

(** ** exit *)

(** No process has parent [i] among the first [n] slots. *)
Definition no_child (i : nat) (n : nat) s : Prop :=
  ∀ k p, (k < n)%nat → procs s !! k = Some p → parent p ≠ Some i.

Lemma no_child_similar i n s s' : tables_similar s s' → no_child i n s → no_child i n s'.
Proof.
  intros [Hs _] Hno k p' Hk Hp'. destruct (Forall2_lookup_r _ _ _ _ _ Hs Hp') as (p & Hp & Hpp).
  destruct Hpp as (_ & -> & _). by eapply Hno.
Qed.

(** What holds while [exit] of process [i] passes its children to init. *)
Definition exiting (N i n : nat) s : Prop :=
  live_inv (Some i) i s ∧ initproc s ≠ Some i ∧ no_child i n s ∧ length (procs s) = N.

Lemma exiting_reparent N i k p s :
  exiting N i k s → procs s !! k = Some p → parent p = Some i →
  exiting N i (k + 1) (set_procs (alter (set_parent (initproc s)) k (procs s)) s).
Proof.
  intros ((Hinv & Hal & Hc) & Hip & Hno & HN) Hp Hpar. pose proof (lookup_lt_Some _ _ _ Hp) as Hk.
  rewrite (alter_as_insert _ _ _ _ Hp). pose proof Hinv as (_ & _ & (i0 & Hip0 & Hal0) & Hs).
  assert (∀ m, alive (procs s) m → alive (<[k := set_parent (initproc s) p]> (procs s)) m) as Hmono.
  { intros m (q & Hq & Hkq). destruct (decide (m = k)) as [->|].
    - simplify_eq. eexists. split; [by apply list_lookup_insert_eq | done].
    - exists q. by rewrite list_lookup_insert_ne. }
  split; [split_and!; [| |done] | split; [done|split; [|by simpl; rewrite length_insert]]].
  - eapply ok_insert; [done | exact Hinv | reflexivity | done | by auto |].
    destruct (Hs _ _ Hp) as (Hr & Hsl & Hm). split_and!; simpl; [lia | lia | done|].
    change (kind_of (set_parent (initproc s) p)) with (kind_of p).
    destruct (kind_of p); [naive_solver.. | |]; destruct Hm as (? & ? & ? & ? & _);
      split_and!; try done; right; exists i0; eauto.
  - by apply Hmono.
  - intros m q Hm. simpl. destruct (decide (m = k)) as [->|].
    + rewrite list_lookup_insert_eq by done. intros [= <-]. done.
    + rewrite list_lookup_insert_ne by done. apply Hno. lia.
Qed.

Lemma hoare_reparent N i k s :
  exiting N i k s → hoare True (reparent i k) s (λ _ s', exiting N i (k + 1) s') ptable_inv.
Proof.
  intros (Hl & Hip & Hno & HN). unfold reparent. apply hoare_bind, hoare_getp. intros p Hp.
  case_decide as Hpar; cycle 1.
  { apply hoare_ret. split_and!; [done | done | | done]. intros m q Hm Hq. destruct (decide (m = k)) as [->|].
    - congruence.
    - apply (Hno m); [lia | done]. }
  repeat hoare_step. unfold updp. repeat hoare_step.
  set (s1 := set_procs _ _). assert (exiting N i (k + 1) s1) as Hex.
  { by apply exiting_reparent with p. }
  case_decide; [|by apply hoare_ret]. destruct Hex as (Hl1 & Hip1 & Hno1 & HN1).
  eapply hoare_mono; [apply tame_wakeup1|..].
  - intros ? s2 Hs2. split_and!;
      [exact (live_inv_similar _ _ _ _ Hs2 Hl1) | | exact (no_child_similar _ _ _ _ Hs2 Hno1)|].
    + destruct Hs2 as (_ & -> & _). done.
    + destruct Hs2 as [Hs2 _]. rewrite <- (Forall2_length _ _ _ Hs2). done.
  - intros s2 Hs2. eapply tables_similar_inv; [exact Hs2 | apply Hl1].
Qed.

(** A process without children and other than init becomes a zombie. *)
Lemma zombie_inv N i s :
  exiting N i N s →
  ptable_inv (set_procs (alter (set_state ZOMBIE) i (procs s)) s).
Proof.
  intros ((Hinv & (p & Hp & Hk) & _) & Hip & Hno & HN).
  pose proof Hinv as (Hn1 & Hpids & (i0 & Hip0 & Hal0) & Hs).
  assert (i0 ≠ i) by congruence. unfold ptable_inv. simpl. rewrite (alter_as_insert _ _ _ _ Hp).
  pose proof (lookup_lt_Some _ _ _ Hp) as Hi.
  assert (∀ m, m ≠ i → alive (procs s) m → alive (<[i := set_state ZOMBIE p]> (procs s)) m) as Hmono.
  { intros m Hm (q & Hq & Hkq). exists q. by rewrite list_lookup_insert_ne. }
  assert (∀ m q j, procs s !! m = Some q → parent q = Some j → alive (procs s) j →
    alive (<[i := set_state ZOMBIE p]> (procs s)) j) as Hpar.
  { intros m q j Hq Hj Hal. apply Hmono; [|done]. intros ->.
    apply (Hno m q); [apply lookup_lt_Some in Hq; lia | done | done]. }
  split_and!; [done | | exists i0; split; [done | by apply Hmono] |].
  - intros a b x y Hx Hy. rewrite list_lookup_insert_Some in Hx, Hy.
    destruct Hx as [(<- & <- & _)|[? Hx]], Hy as [(<- & <- & _)|[? Hy]]; simpl; eauto.
  - intros k q Hq. rewrite list_lookup_insert_Some in Hq. destruct Hq as [(<- & <- & _)|[? Hq]].
    + destruct (Hs _ _ Hp) as (? & _ & Hm). rewrite Hk in Hm. split_and!; simpl; [lia | lia | done |].
      destruct Hm as (? & ? & ? & ? & Hm). split_and!; [done.. |].
      destruct Hm as [?|(j & Hj & Hal)]; [congruence|]. right. eauto.
    + destruct (Hs _ _ Hq) as (? & ? & Hm). split_and!; [lia | lia | done |].
      destruct (kind_of q); [done | done | |]; destruct Hm as (? & ? & ? & ? & Hm);
        split_and!; try done; destruct Hm as [?|(j & Hj & Hal)]; eauto.
Qed.

Lemma hoare_reparent_all i s :
  live_inv (Some i) i s → initproc s ≠ Some i →
  hoare True (for_each (seq 0 (length (procs s))) (reparent i)) s
    (λ _ s', exiting (length (procs s)) i (length (procs s)) s') ptable_inv.
Proof.
  intros Hl Hip. apply (hoare_for_seq _ _ (λ k s', exiting (length (procs s)) i k s')).
  - intros k s' _ Hex. by apply hoare_reparent.
  - split_and!; [done | done | intros k p Hk; lia | done].
Qed.

(** Process [i], not init, on its way out. *)
Definition leaving (i : nat) s : Prop := live_inv (Some i) i s ∧ initproc s ≠ Some i.

Lemma hoare_leaving {A} (m : M (pstate E) A) i s (Q : A → pstate E → Prop) :
  tame m → leaving i s → (∀ a s', leaving i s' → Q a s') → hoare True m s Q ptable_inv.
Proof.
  intros Hm [Hl Hip] HQ. eapply hoare_mono; [apply Hm|..].
  - intros a s' Hs. apply HQ. split; [exact (live_inv_similar _ _ _ _ Hs Hl)|].
    destruct Hs as (_ & -> & _). done.
  - intros s' Hs. eapply tables_similar_inv; [exact Hs | apply Hl].
Qed.

Lemma inv_exit i s Q :
  live_inv (Some i) i s → hoare True (exit to_scheduler) s Q ptable_inv.
Proof.
  intros Hl. pose proof Hl as (_ & _ & Hc). unfold exit, myproc. repeat hoare_step. rewrite Hc.
  case_decide as Hip; [done|]. apply hoare_bind, hoare_ret.
  assert (leaving i s) as Hlv by (split; [done | congruence]). clear Hl Hc Hip.
  do 9 (cbv beta; apply hoare_bind; eapply hoare_leaving; [tame | done|]; clear s Hlv; intros ? s Hlv).
  repeat hoare_step. destruct Hlv as [Hl Hip]. eapply hoare_mono; [by apply hoare_reparent_all| |done].
  intros ? s1 Hex. repeat hoare_step. unfold updp. repeat hoare_step. apply hoare_sched.
  by apply (zombie_inv (length (procs s))).
Qed.

(** ** wait *)

Context (HE : env_spec True (λ _ : E, True)).

Lemma inv_reap i k p s :
  live_inv (Some i) i s → procs s !! k = Some p → state p = ZOMBIE →
  hoare True (reap k) s (λ _ s', live_inv (Some i) i s') ptable_inv.
Proof using HE.
  intros (Hinv & Hal & Hc) Hp Hz. pose proof (lookup_lt_Some _ _ _ Hp) as Hk.
  unfold reap. rewrite (at_proc_id s k p) at 1 by done. repeat slot_step.
  eapply hoare_mono; [by apply (j_kfree _ _ HE)| |done]. intros ? e1 _. repeat slot_step.
  eapply hoare_mono; [by apply (j_freevm _ _ HE)| |done]. intros ? e2 _. repeat slot_step.
  assert (kind_of p ≠ KLive) as Hkp by (unfold kind_of; by rewrite Hz).
  split; [|split; [by eapply alive_insert_other | done]]. unfold ptable_inv. simpl. pose proof Hinv as (Hn & _).
  eapply ok_insert; [done | exact Hinv | done | unfold kind_of; by rewrite Hz | by left |].
  apply slot_ok_unused; simpl; [lia | done..].
Qed.

Lemma inv_wait_loop i s :
  live_inv (Some i) i s → hoare True (wait_loop [] i) s (λ _ s', live_inv (Some i) i s') ptable_inv.
Proof using HE.
  intros Hl. simpl. unfold wait_scan. repeat hoare_step.
  destruct (list_find _ (procs s)) as [[k p]|] eqn:Hf.
  - apply list_find_Some in Hf as (Hp & [_ Hz] & _). apply hoare_bind.
    eapply hoare_mono; [by eapply inv_reap| |done]. intros pid s1 Hs1. by repeat hoare_step.
  - repeat hoare_step. eapply hoare_tame; [tame | done|]. intros p s1 Hl1.
    destruct (_ || _); [repeat hoare_step; apply Hl1|].
    apply hoare_bind. by eapply inv_sleep.
Qed.

(** ** The scheduler *)

Lemma tame_thaw_loop k l : tame (E := E) (thaw_loop SIGCONT_handler_addr k l).
Proof. induction l as [|n l IH]; simpl; tame. Qed.

Lemma inv_scheduler_visit k s :
  ptable_inv s → cur s = None →
  hoare True (scheduler_visit SIGCONT_handler_addr (λ _, to_scheduler) k) s
    (λ _ s', ptable_inv s') ptable_inv.
Proof.
  intros Hinv Hc. unfold scheduler_visit. apply hoare_bind, hoare_getp. intros p Hp. case_bool_decide as Hr; [|done]. simpl negb.
  assert (live_inv None k s) as Hl.
  { split_and!; [done | | done]. exists p. split; [done|]. unfold kind_of. by rewrite Hr. }
  clear Hc Hinv. pose proof (tame_thaw_loop k) as Hthaw.
  apply hoare_bind. eapply hoare_tame; [|exact Hl|].
  { apply tame_when. tame. }
  clear s Hl Hp. intros ? s Hl. cbv beta. apply hoare_bind. eapply hoare_tame; [tame | exact Hl|].
  clear s Hl. intros q s Hl. destruct (truth (freeze q)); [by apply hoare_ret, Hl|].
  apply hoare_bind, hoare_modify, hoare_bind.
  assert (live_inv (Some k) k (set_cur (Some k) s)) as Hl1 by (destruct Hl as (? & ? & _); by split_and!).
  eapply hoare_tame; [unfold switchuvm; tame | exact Hl1|]. clear s Hl Hl1. intros ? s Hl.
  unfold updp. repeat hoare_step. apply (live_inv_state (Some k) k (set_state RUNNING)); [done|].
  intros r Hr'. split_and!; simpl; auto; done.
Qed.

(** ** Interleavings *)

(** [m] runs from [s] to its return or to the point where it gives up the CPU. *)
Definition ends {A} (m : M (pstate E) A) s s' : Prop :=
  match m s with
  | Ok _ s1 _ => s' = s1
  | Blocked _ s1 _ => s' = s1
  | Crashed _ _ => False
  end.

(** Process [i] is running on some CPU. *)
Definition running (i : nat) s : Prop := ∃ p, procs s !! i = Some p ∧ state p = RUNNING.

(** An operation of the kernel executed by process [i]. *)
Inductive call (i : nat) : M (pstate E) Z → Prop :=
  | c_exit : call i (exit to_scheduler ;; mret 0)
  | c_wait : call i (wait [])
  | c_wait_resumed : call i (sleep_leave i Lptable ;; wait_loop [] i)
  | c_sleep ch lk : call i (sleep to_scheduler ch lk ;; mret 0)
  | c_sleep_resumed lk : call i (sleep_leave i lk ;; mret 0)
  | c_yield : call i (yield to_scheduler ;; mret 0)
  | c_wakeup ch : call i (wakeup ch ;; mret 0)
  | c_kill pid' signum : call i (kill pid' signum)
  | c_growproc n : call i (growproc n)
  | c_sigprocmask m : call i (sigprocmask m)
  | c_sigaction k act oldact : call i (sigaction k act oldact)
  | c_sigret : call i (sigret ;; mret 0)
  | c_return_to_user tfcs : call i (sig_handler_runner tfcs ;; mret 0).

(** One step of one CPU. Pids are an [int]: the steps cover the first
    2^31 - 1 of them. *)
Inductive kstep s : pstate E → Prop :=
  | ks_call i m s' : running i s → call i m → ends m (set_cur (Some i) s) s' → kstep s s'
  | ks_fork i s' : running i s → nextpid s < 2 ^ 31 - 1 →
      ends (fork forkret_addr trapret_addr) (set_cur (Some i) s) s' → kstep s s'
  | ks_schedule k s' :
      ends (scheduler_visit SIGCONT_handler_addr (λ _, to_scheduler) k) (set_cur None s) s' →
      kstep s s'
  | ks_env e : kstep s (set_env e s).

Lemma ends_hoare {A} (m : M (pstate E) A) s s' :
  hoare True m s (λ _ s', ptable_inv s') ptable_inv → ends m s s' → ptable_inv s'.
Proof. unfold hoare, ends. destruct (m s); [by intros ? ->.. | done]. Qed.

Lemma hoare_then {A} (m : M (pstate E) unit) (a : A) s (Q : pstate E → Prop) :
  hoare True m s (λ _ s', Q s') ptable_inv → hoare True (m ;; mret a) s (λ _ s', Q s') ptable_inv.
Proof. intros Hm. apply hoare_bind. by eapply hoare_mono. Qed.

Lemma hoare_sleep_leave i lk s :
  running i s → live_inv (Some i) i s →
  hoare True (sleep_leave i lk) s (λ _ s', live_inv (Some i) i s') ptable_inv.
Proof.
  intros (p & Hp & Hr) Hl. unfold sleep_leave, updp. repeat hoare_step.
  assert (live_inv (Some i) i (set_procs (alter (set_chan_of None) i (procs s)) s)) as Hl1.
  { eapply live_inv_similar; [|exact Hl]. split_and!; [|done..]. apply similar_alter.
    intros q Hq. simplify_eq. split_and!; try done. simpl. by rewrite Hr. }
  by eapply hoare_tame; [tame | exact Hl1 |].
Qed.

Lemma inv_call i m s :
  running i s → live_inv (Some i) i s → call i m →
  hoare True m s (λ _ s', live_inv (Some i) i s') ptable_inv.
Proof using HE.
  intros Hr Hl Hm. pose proof Hl as (Hinv & _ & Hc).
  assert (∀ A (m : M (pstate E) A), tame m → hoare True m s (λ _ s', live_inv (Some i) i s') ptable_inv) as Ht.
  { intros A m' Hm'. by eapply hoare_tame. }
  destruct Hm; try (apply hoare_then); try (by apply Ht; tame).
  - by eapply inv_exit.
  - unfold wait, myproc. repeat hoare_step. rewrite Hc. apply hoare_ret. by apply inv_wait_loop.
  - apply hoare_bind. eapply hoare_mono; [by apply hoare_sleep_leave| |done].
    intros ? s' Hl'. by apply inv_wait_loop.
  - by apply (inv_sleep (Some i) i).
  - by apply hoare_sleep_leave.
  - by apply (inv_yield (Some i) i).
  - apply Ht. unfold wakeup. tame.
Qed.

Lemma running_live i s : running i s → ptable_inv s → live_inv (Some i) i (set_cur (Some i) s).
Proof.
  intros (p & Hp & Hst) Hinv. split; [done|]. split; [|done]. exists p. split; [done|]. unfold kind_of. by rewrite Hst.
Qed.

Lemma ends_live {A} (m : M (pstate E) A) i s s' :
  hoare True m s (λ _ s', live_inv (Some i) i s') ptable_inv → ends m s s' → ptable_inv s'.
Proof. intros Hm. apply ends_hoare. eapply hoare_mono; [exact Hm | by intros ? ? [? _] | done]. Qed.

Lemma kstep_inv s s' : ptable_inv s → kstep s s' → ptable_inv s'.
Proof using HE.
  intros Hinv Hstep. destruct Hstep as [i m s' Hr Hm He|i s' Hr Hn He|k s' He|e].
  - eapply ends_live, He. apply (inv_call i); [done | by apply running_live | done].
  - eapply ends_live, He. apply inv_fork; [done | done | by apply running_live].
  - eapply ends_hoare, He. by apply inv_scheduler_visit.
  - exact Hinv.
Qed.

(** ** Boot *)

Definition boot (e : E) : pstate E := mk_pstate (replicate NPROC proc0) 1 None None true e.

Lemma alive_insert_here (ps : list proc) j q :
  (j < length ps)%nat → kind_of q = KLive → alive (<[j := q]> ps) j.
Proof. intros Hj Hk. exists q. by rewrite list_lookup_insert_eq. Qed.

(** init alone in an otherwise unused table. *)
Lemma ptable_ok_init n j q :
  (j < n)%nat → kind_of q = KLive → state q ≠ SLEEPING → pid q = 1 → kstack q ≠ 0 → pgdir q ≠ 0 →
  tf_ptr q = u32 (u32 (kstack q + KSTACKSIZE) - TFSIZE) →
  ptable_ok (<[j := q]> (replicate n proc0)) (Some j) 2.
Proof.
  intros Hj Hk Hst Hpid Hks Hpg Htf. split_and!; [lia | | |].
  - intros a b x y Hx Hy. rewrite list_lookup_insert_Some in Hx, Hy.
    destruct Hx as [(<- & <- & _)|[? [-> _]%lookup_replicate]],
      Hy as [(<- & <- & _)|[? [-> _]%lookup_replicate]]; simpl; congruence.
  - exists j. split; [done|]. apply alive_insert_here; [|done]. by rewrite length_replicate.
  - intros k p Hp. rewrite list_lookup_insert_Some in Hp.
    destruct Hp as [(<- & <- & _)|[? [-> _]%lookup_replicate]].
    + split_and!; [lia | lia | done |]. rewrite Hk. split_and!; try done; [lia | by left].
    + apply slot_ok_unused; simpl; (done || lia).
Qed.

Lemma hoare_userinit e :
  hoare True (userinit forkret_addr trapret_addr) (boot e) (λ _ s', ptable_inv s') (λ _, False).
Proof using HE.
  unfold userinit. apply hoare_bind.
  eapply hoare_mono; [by apply (hoare_allocproc forkret_addr trapret_addr _ _ HE (λ _, False))| |done].
  intros r s1 [_ Hr]. inversion Hr as [|j p q e' Hf Hq|j p q k e' Hf Hk Hq]; subst; repeat hoare_step; try done.
  destruct (first_unused_lookup _ _ _ Hf) as (Hp & Hu & Hj).
  apply lookup_replicate in Hp as [-> Hj64]. apply hoare_ret.
  change (set_initproc _ _) with
    (at_proc (set_initproc (Some j) (bump (boot e))) j (embryo forkret_addr trapret_addr proc0 1 k) e').
  repeat slot_step. eapply hoare_mono; [by apply (j_setupkvm _ _ HE)| |done]. intros d e2 _.
  repeat slot_step. destruct (Z.eqb_spec d 0) as [->|Hd]; [done|]. repeat slot_step.
  eapply hoare_mono; [by apply (j_inituvm _ _ HE)| |done]. intros ? e3 _. repeat slot_step.
  eapply hoare_mono; [by apply (j_namei_root _ _ HE)| |done]. intros ip e4 _. repeat slot_step.
  unfold ptable_inv. by apply (ptable_ok_init NPROC j).
Qed.

(** What the invariant says about the processes *)
Definition table_safe s : Prop :=
  pids_distinct (procs s) ∧
  ∀ i p, procs s !! i = Some p → kind_of p = KLive ∨ kind_of p = KZombie →
    kstack p ≠ 0 ∧ pgdir p ≠ 0 ∧
    (initproc s = Some i ∨ ∃ j q, parent p = Some j ∧ procs s !! j = Some q ∧ kind_of q = KLive).

Lemma inv_table_safe s : ptable_inv s → table_safe s.
Proof.
  intros (_ & Hpids & _ & Hslots). split; [done|]. intros i p Hp Hk. destruct (Hslots i p Hp) as (_ & _ & Hm).
  assert (pid p ≠ 0 ∧ kstack p ≠ 0 ∧ pgdir p ≠ 0 ∧
    tf_ptr p = u32 (u32 (kstack p + KSTACKSIZE) - TFSIZE) ∧
    (initproc s = Some i ∨ ∃ j, parent p = Some j ∧ alive (procs s) j)) as (_ & ? & ? & _ & Hpar).
  { by destruct Hk as [Hk|Hk]; rewrite Hk in Hm. }
  split_and!; [done..|]. destruct Hpar as [?|(j & ? & q & ? & ?)]; [by left | right; eauto 6].
Qed.

(** in every state the kernel can reach from boot, by any interleaving of
    scheduling, system calls and signals on any number of CPUs: no two slots of
    the process table share a non-zero pid; every process other than init has a
    parent in the table that is alive (not exited, not freed), so that its exit
    status is never lost; and every process that can be scheduled has the kernel
    stack and page table that [switchuvm] demands. *)
Theorem process_table_safe e s0 tr s :
  userinit forkret_addr trapret_addr (boot e) = Ok () s0 tr → star kstep s0 s → table_safe s.
Proof using HE.
  intros Hu Hstar. apply inv_table_safe. eapply (star_invariant kstep); [apply kstep_inv | exact Hstar |].
  pose proof (hoare_userinit e) as Hi. unfold hoare in Hi. by rewrite Hu in Hi.
Qed.

End steps.

(** ** A run: boot, schedule init, fork *)

(** Where an operation leaves the state. *)
Definition state_after {E A} (m : M (pstate E) A) (s : pstate E) : pstate E :=
  match m s with Ok _ s' _ => s' | Blocked _ s' _ => s' | Crashed _ _ => s end.

Definition ex_boot : pstate flat := state_after (userinit 11 12) (boot (λ _, Some 0)).
Definition ex_sched : pstate flat :=
  state_after (scheduler_visit 13 (λ _, to_scheduler) 0%nat) (set_cur None ex_boot).
Definition ex_forked : pstate flat := state_after (fork 11 12) (set_cur (Some 0%nat) ex_sched).

Lemma process_table_safe_witness :
  pids_distinct (procs ex_forked) ∧ (pid <$> take 3 (procs ex_forked)) = [1; 2; 0].
Proof.
  split; [|vm_compute; reflexivity].
  refine (proj1 (process_table_safe 11 12 13 (flat_env_spec True) (λ _, Some 0) ex_boot _ ex_forked _ _)).
  - vm_compute. reflexivity.
  - eapply star_step; [eapply star_step; [apply star_refl|]|].
    + apply (ks_schedule 11 12 13 ex_boot 0%nat ex_sched). vm_compute. reflexivity.
    + apply (ks_fork 11 12 13 ex_sched 0%nat ex_forked); [|vm_compute; reflexivity..].
      eexists. split; vm_compute; reflexivity.
Defined.

End SchedInv.
