(* ===== verification/Syscall.v ===== *)
(** * syscall.c and sysproc.c: system calls

    The arguments of a system call are fetched from the user stack of the
    running process, with the checks that keep the kernel inside the process;
    [syscall] dispatches on the number in [eax]. The handlers of sysproc.c are
    here, those of sysfile.c in Sysfile.v. *)

From S2P Require Import Prelude Layout Memory Proc Signal Sched.

(** The kernel's tick counter. *)
Class Clock (E : Type) := { ticks : E → Z; set_ticks : Z → E → E }.

Module Syscall.
Import Proc Signal Sched.

Section syscall.
Context {E : Type} {UM : UserMem E}.
#[local] Abbreviation K := (M (pstate E)).

(** [myproc()], dereferenced for the field at [off] *)
Definition curproc (off : Z) : K (nat * proc) :=
  np ← myproc ;
  i ← deref np off ;
  p ← getp i ;
  mret (i, p).

(** [None] for -1, else the [int] stored through [ip]. *)
Definition fetchint (addr : Z) : K (option Z) :=
  '(_, p) ← curproc 0 ;
  if (sz p <=? addr) || (sz p <? u32 (addr + 4)) then mret None
  else w ← on_env (get_word addr) ; mret (Some (s32 w)).

(** The loop of [fetchstr] over the [n] bytes from [s] to the end of memory. *)
Fixpoint fetchstr_loop (n : nat) (pp s : Z) : K (option Z) :=
  match n with
  | O => mret None
  | S n' =>
      b ← on_env (get_bytes s 1) ;
      if nth 0 b 0 =? 0 then mret (Some (s - pp)) else fetchstr_loop n' pp (s + 1)
  end.

(** The length of the string at [addr], which is what [pp] is set to. *)
Definition fetchstr (addr : Z) : K (option Z) :=
  '(_, p) ← curproc 0 ;
  if sz p <=? addr then mret None else fetchstr_loop (Z.to_nat (sz p - addr)) addr addr.

Definition argint (n : Z) : K (option Z) :=
  '(_, p) ← curproc 24 ;
  fetchint (u32 (esp (tf p) + 4 + 4 * n)).

(** The pointer *)
Definition argptr (n size : Z) : K (option Z) :=
  '(_, p) ← curproc 0 ;
  r ← argint n ;
  match r with
  | None => mret None
  | Some i =>
      if (size <? 0) || (sz p <=? u32 i) || (sz p <? u32 (u32 i + size)) then mret None
      else mret (Some (u32 i))
  end.

(** The pointer and the length *)
Definition argstr (n : Z) : K (option (Z * Z)) :=
  r ← argint n ;
  match r with
  | None => mret None
  | Some addr =>
      l ← fetchstr (u32 addr) ;
      mret ((λ len, (u32 addr, len)) <$> l)
  end.

(** [syscalls] is the table of handlers; the first entry is not used. *)
Definition syscall (syscalls : list (option (K Z))) : K unit :=
  '(i, p) ← curproc 24 ;
  let num := s32 (eax (tf p)) in
  match (if (0 <? num) && (num <? length syscalls) then default None (syscalls !! Z.to_nat num) else None) with
  | Some handler =>
      r ← handler ;
      updp i (λ p, set_tf (set_eax (u32 r) (tf p)) p)
  | None =>
      cprintf "%d %s: unknown sys call %d\n" [pid p; num] ;;
      updp i (λ p, set_tf (set_eax (u32 (-1)) (tf p)) p)
  end.

(** ** sysproc.c *)

Definition sys_kill : K Z :=
  pid ← argint 0 ;
  match pid with
  | None => mret (-1)
  | Some pid =>
      signum ← argint 1 ;
      match signum with
      | None => mret (-1)
      | Some signum => kill pid signum
      end
  end.

Definition sys_getpid : K Z := '(_, p) ← curproc 16 ; mret (pid p).

Definition sys_sigprocmask : K Z :=
  m ← argint 0 ;
  match m with
  | None => mret (-1)
  | Some m => r ← sigprocmask (u32 m) ; mret (s32 r)
  end.

(** [sizeof(struct sigaction)] is 8 *)
Definition sys_sigaction : K Z :=
  signum ← argint 0 ;
  match signum with
  | None => mret (-1)
  | Some signum =>
      act ← argptr 1 8 ;
      match act with
      | None => mret (-1)
      | Some act =>
          oldact ← argptr 2 8 ;
          match oldact with
          | None => mret (-1)
          | Some oldact => sigaction signum act oldact
          end
      end
  end.

Definition sys_sigret : K Z := sigret ;; mret 0.

Context {PE : ProcEnv E} {CE : Clock E}.
Context (forkret_addr trapret_addr : Z).

Definition sys_fork : K Z := fork forkret_addr trapret_addr.

Definition sys_exit (switch : K unit) : K Z := exit switch ;; mret 0.

Definition sys_wait (switches : list (K unit)) : K Z := wait switches.

Definition sys_sbrk : K Z :=
  n ← argint 0 ;
  match n with
  | None => mret (-1)
  | Some n =>
      '(_, p) ← curproc 0 ;
      r ← growproc n ;
      if r <? 0 then mret (-1) else mret (s32 (sz p))
  end.

(** The loop of [sys_sleep]; [switches] is what happens during each sleep. *)
Fixpoint sleep_loop (switches : list (K unit)) (ticks0 n : Z) : K Z :=
  t ← gets (λ s, ticks (env s)) ;
  if u32 (t - ticks0) <? u32 n then
    '(_, p) ← curproc off_killed ;
    if truth (killed p) then release Lticks ;; mret (-1) else
    match switches with
    | [] => sleep to_scheduler Ch_ticks Lticks ;; mret (-1)
    | sw :: switches' => sleep sw Ch_ticks Lticks ;; sleep_loop switches' ticks0 n
    end
  else release Lticks ;; mret 0.

Definition sys_sleep (switches : list (K unit)) : K Z :=
  n ← argint 0 ;
  match n with
  | None => mret (-1)
  | Some n =>
      acquire Lticks ;;
      ticks0 ← gets (λ s, ticks (env s)) ;
      sleep_loop switches ticks0 n
  end.

Definition sys_uptime : K Z :=
  acquire Lticks ;;
  xticks ← gets (λ s, ticks (env s)) ;
  release Lticks ;;
  mret (s32 xticks).

End syscall.

(** ** Arguments *)

Section args.
Context {E : Type} {UM : UserMem E}.
Implicit Types s : pstate E.

(** Process [i] runs, and all of its memory is mapped. *)
Definition running (s : pstate E) (i : nat) (p : proc) : Prop :=
  cur s = Some i ∧ procs s !! i = Some p ∧ 0 ≤ sz p ≤ KERNBASE ∧ mapped (env s) 0 (sz p).

Lemma wp_curproc s i p off (Q : nat * proc → pstate E → list event → Prop) :
  running s i p → Q (i, p) s [ECli] → wp (curproc off) s Q.
Proof.
  intros (Hc & Hp & _) HQ. unfold curproc. apply wp_bind, wp_myproc. rewrite Hc. apply wp_bind, wp_ret, wp_bind. by eapply wp_getp.
Qed.

Lemma mapped_holds (e : E) a n : 0 ≤ n → mapped e a n → ∃ l, Z.of_nat (length l) = n ∧ holds e a l.
Proof.
  intros Hn [_ Hm]. exists ((λ k, default 0 (load8 e (a + k))) <$> seqZ 0 n). split; [rewrite length_fmap, length_seqZ; lia|].
  intros k b Hk. rewrite list_lookup_fmap in Hk. apply fmap_Some in Hk as (x & Hx & ->). apply lookup_seqZ in Hx as [-> Hlt].
  rewrite Z.add_0_l. destruct (Hm (a + k) ltac:(lia)) as [v ->]. done.
Qed.

Lemma wp_read s a (n : nat) (Q : list Z → pstate E → list event → Prop) :
  0 ≤ a → a + n ≤ 2 ^ 32 → mapped (env s) a n → (∀ l, length l = n → holds (env s) a l → Q l s []) → wp (on_env (get_bytes a n)) s Q.
Proof.
  intros Ha Hn Hm HQ. destruct (mapped_holds (env s) a n ltac:(lia) Hm) as (l & Hl & Hh). assert (length l = n) as <- by lia.
  apply wp_zoom. eapply wp_mono; [by apply wp_get_bytes|]. intros r e' tr (-> & -> & ->). replace (set_env (env s) s) with s by (by destruct s). by apply HQ.
Qed.

Lemma wp_fetchint s i p addr (Q : option Z → pstate E → list event → Prop) :
  running s i p → 0 ≤ addr < 2 ^ 32 →
  (∀ r tr, (∀ v, r = Some v → addr + 4 ≤ sz p ∧ - 2 ^ 31 ≤ v < 2 ^ 31) → (addr + 4 ≤ sz p → is_Some r) → Q r s tr) →
  wp (fetchint addr) s Q.
Proof.
  intros Hrun Ha HQ. pose proof Hrun as (_ & _ & Hsz & Hm). change KERNBASE with (2 ^ 31) in Hsz. unfold fetchint. apply wp_bind, (wp_curproc s i p); [done|].
  destruct (Z.leb_spec (sz p) addr); simpl orb; cbv iota; [apply wp_ret, HQ; [done | lia]|]. rewrite u32_small by lia.
  destruct (Z.ltb_spec (sz p) (addr + 4)); [apply wp_ret, HQ; [done | lia]|]. apply wp_bind. unfold get_word.
  apply wp_zoom, wp_bind. destruct (mapped_holds (env s) addr 4 ltac:(lia)) as (l & Hl & Hh); [eapply mapped_sub; [exact Hm | lia..]|].
  assert (length l = 4%nat) as Hl4 by lia. eapply wp_mono; [rewrite <- Hl4; apply wp_get_bytes; [lia | lia | done]|]. intros r e' tr (-> & -> & ->).
  replace (set_env (env s) s) with s by (by destruct s). apply wp_ret. replace (set_env (env s) s) with s by (by destruct s). apply wp_ret, HQ; [|done]. intros v [= <-]. split; [lia|].
  unfold s32. pose proof (u32_range (le32_val l)). case_match eqn:E1; [apply Z.ltb_lt in E1 | apply Z.ltb_ge in E1]; lia.
Qed.

(** The string at [a] of length [len]. *)
Definition string_at (e : E) (a len : Z) : Prop :=
  0 ≤ len ∧ load8 e (a + len) = Some 0 ∧ ∀ x, a ≤ x < a + len → load8 e x ≠ Some 0.

Lemma wp_fetchstr_loop s i p (n : nat) : ∀ pp a (Q : option Z → pstate E → list event → Prop),
  running s i p → 0 ≤ pp ≤ a → a + n = sz p → (∀ x, pp ≤ x < a → load8 (env s) x ≠ Some 0) →
  (∀ r tr, (∀ len, r = Some len → pp + len < sz p ∧ string_at (env s) pp len) →
     (r = None → ∀ x, pp ≤ x < sz p → load8 (env s) x ≠ Some 0) → Q r s tr) →
  wp (fetchstr_loop n pp a) s Q.
Proof.
  induction n as [|n IH]; intros pp a Q Hrun Hpp Hn Hno HQ; cbn [fetchstr_loop].
  - apply wp_ret, HQ; [done|]. intros _ x Hx. apply Hno. lia.
  - pose proof Hrun as (_ & _ & Hsz & Hm). change KERNBASE with (2 ^ 31) in Hsz.
    apply wp_bind, wp_read; [lia | lia | eapply mapped_sub; [exact Hm | lia..]|]. intros l Hl Hh. destruct l as [|b [|? ?]]; try done. pose proof (Hh 0%nat b eq_refl) as Hb. rewrite Z.add_0_r in Hb. simpl nth.
    destruct (Z.eqb_spec b 0) as [->|Hb0].
    + apply wp_ret, HQ; [|done]. intros len [= <-]. split; [lia|]. replace (pp + (a - pp)) with a by lia. split; [lia|]. split; [by replace (pp + (a - pp)) with a by lia|].
      intros x Hx. apply Hno. lia.
    + eapply (IH pp (a + 1)); [done | lia | lia | |].
      * intros x Hx. destruct (decide (x = a)) as [->|]; [rewrite Hb; congruence | apply Hno; lia].
      * intros r tr H1 H2. by apply HQ.
Qed.

(** What an argument may be. *)
Definition int_arg (s : pstate E) (p : proc) (n : Z) (r : option Z) : Prop :=
  let a := u32 (esp (tf p) + 4 + 4 * n) in
  (is_Some r ↔ a + 4 ≤ sz p) ∧ ∀ v, r = Some v → - 2 ^ 31 ≤ v < 2 ^ 31.

Lemma wp_argint s i p n (Q : option Z → pstate E → list event → Prop) :
  running s i p → (∀ r tr, int_arg s p n r → Q r s tr) → wp (argint n) s Q.
Proof.
  intros Hrun HQ. unfold argint. apply wp_bind, (wp_curproc s i p); [done|]. apply (wp_fetchint s i p); [done | apply u32_range|].
  intros r tr H1 H2. apply HQ. split; [|intros v Hv; by apply H1]. split; [|done]. intros [v ->]. by destruct (H1 v eq_refl).
Qed.

Lemma wp_argptr s i p n size : running s i p → - 2 ^ 31 ≤ size < 2 ^ 31 →
  wp (argptr n size) s (λ r s' _, s' = s ∧ ∀ a, r = Some a → 0 ≤ a ∧ 0 ≤ size ∧ a < sz p ∧ a + size ≤ sz p).
Proof.
  intros Hrun Hsize. pose proof Hrun as (_ & _ & Hsz & Hm). change KERNBASE with (2 ^ 31) in Hsz.
  unfold argptr. apply wp_bind, (wp_curproc s i p); [done|]. apply wp_bind, (wp_argint s i p); [done|]. intros [v|] tr [_ Hv]; [|by apply wp_ret].
  pose proof (u32_range v). destruct (Z.ltb_spec size 0); [by apply wp_ret|]. destruct (Z.leb_spec (sz p) (u32 v)); [by apply wp_ret|].
  simpl orb. rewrite (u32_small (u32 v + size)) by lia. destruct (Z.ltb_spec (sz p) (u32 v + size)); apply wp_ret; [done|]. split; [done|]. intros a [= <-]. lia.
Qed.

(** C25: system call arguments keep the kernel inside the process. For a process
    whose memory is mapped, fetching an argument never faults and changes
    nothing, whatever the user stack pointer and the arguments are. An integer is
    fetched exactly if its stack slot is inside the process; a pointer that is
    accepted has all of its [size] bytes inside, also when the sum would wrap
    around; a string that is accepted is the bytes up to the first NUL, and that
    NUL is inside. *)
Theorem args_safe s i p n size :
  running s i p → - 2 ^ 31 ≤ size < 2 ^ 31 →
  wp (argint n) s (λ r s' _, s' = s ∧ int_arg s p n r) ∧
  wp (argptr n size) s (λ r s' _, s' = s ∧ ∀ a, r = Some a → 0 ≤ a ∧ 0 ≤ size ∧ a < sz p ∧ a + size ≤ sz p) ∧
  wp (argstr n) s (λ r s' _, s' = s ∧ ∀ a len, r = Some (a, len) → 0 ≤ a ∧ a + len < sz p ∧ string_at (env s) a len).
Proof.
  intros Hrun Hsize. pose proof Hrun as (_ & _ & Hsz & Hm). change KERNBASE with (2 ^ 31) in Hsz. split_and!.
  - by apply (wp_argint s i p).
  - by apply (wp_argptr s i p).
  - unfold argstr. apply wp_bind, (wp_argint s i p); [done|]. intros [v|] tr [_ Hv]; [|by apply wp_ret]. apply wp_bind. unfold fetchstr. apply wp_bind, (wp_curproc s i p); [done|].
    pose proof (u32_range v). destruct (Z.leb_spec (sz p) (u32 v)); [by apply wp_ret, wp_ret|].
    apply (wp_fetchstr_loop s i p); [done | lia | lia | intros; lia|]. intros r tr' H1 _. apply wp_ret. split; [done|]. intros a len Hr.
    apply fmap_Some in Hr as (len' & -> & [= -> ->]). destruct (H1 len' eq_refl). split; [lia | done].
Qed.

(** The value [sigret] restores to [eax] does not survive: [syscall] stores the
    handler's result, 0, over it. *)
Theorem sigret_eax_lost s i p t table :
  running s i p → eax (tf p) = SYS_sigret → table !! 24%nat = Some (Some sys_sigret) →
  tf_ok t → 0 ≤ user_trap_fram_backup p → user_trap_fram_backup p + TFSIZE ≤ sz p →
  saved_at (env s) (user_trap_fram_backup p) t →
  wp (syscall table) s (λ _ s' _, ∃ p', procs s' !! i = Some p' ∧ tf p' = set_eax 0 (set_esp (u32 (esp t + TFSIZE)) t)).
Proof.
  intros Hrun Hnum Htab Ht Hb0 Hb1 Hh. pose proof Hrun as (Hc & Hp & Hsz & _). change KERNBASE with (2 ^ 31) in Hsz. pose proof (lookup_lt_Some _ _ _ Hp) as Hi.
  unfold syscall. apply wp_bind, (wp_curproc s i p); [done|]. rewrite Hnum. change (s32 SYS_sigret) with 24. pose proof (lookup_lt_Some _ _ _ Htab).
  rewrite (proj2 (Z.ltb_lt 24 _)) by lia. change (Z.to_nat 24) with 24%nat. simpl andb. cbv iota. rewrite Htab. change (default None (Some (Some sys_sigret))) with (Some sys_sigret). cbv iota.
  apply wp_bind. unfold sys_sigret. apply wp_bind. eapply wp_mono; [apply (wp_sigret s i p t); [done | done | done | done | unfold TFSIZE in *; lia | done]|].
  intros _ s1 tr ->. apply wp_ret. apply wp_updp_at; [done|]. eexists. split; [by apply list_lookup_insert_eq|]. done.
Qed.

End args.

(** A process with 16 KB of memory, all zero. *)
Definition ex_user : pstate flat := set_procs [set_sz 0x4000 (ex_proc 0 0)] (ex_state 0 0).

Lemma args_safe_witness :
  wp (argint 0) ex_user (λ r s' _, s' = ex_user ∧ int_arg ex_user (set_sz 0x4000 (ex_proc 0 0)) 0 r) ∧
  wp (argptr 0 16) ex_user (λ r s' _, s' = ex_user ∧ ∀ a, r = Some a → 0 ≤ a ∧ 0 ≤ 16 ∧ a < 0x4000 ∧ a + 16 ≤ 0x4000) ∧
  wp (argstr 0) ex_user (λ r s' _, s' = ex_user ∧ ∀ a len, r = Some (a, len) → 0 ≤ a ∧ a + len < 0x4000 ∧ string_at (env ex_user) a len).
Proof.
  apply (args_safe ex_user 0 (set_sz 0x4000 (ex_proc 0 0)) 0 16); [|lia]. split; [done|]. split; [done|]. split; [by vm_compute|]. apply ex_mapped.
Defined.

End Syscall.
