(* ===== verification/Trap.v ===== *)
(** * trap.c: traps and interrupts

    [trap] as trapasm.S calls it, with the frame of the interrupted code, and the
    way back to user mode through [sig_handler_runner]. The device drivers and
    the table of system calls are arguments, as is the context switch. *)

From S2P Require Import Prelude Layout Memory Proc Signal Sched SchedInv Syscall.

Module Trap.
Import Proc Signal Sched Syscall.

(** ** traps.h *)
Definition T_SYSCALL : Z := 64.
Definition T_IRQ0 : Z := 32.
Definition IRQ_TIMER : Z := 0.
Definition IRQ_KBD : Z := 1.
Definition IRQ_COM1 : Z := 4.
Definition IRQ_IDE : Z := 14.
Definition IRQ_SPURIOUS : Z := 31.

Section trap.
Context {E : Type} {UM : UserMem E} {PE : ProcEnv E} {CE : Clock E}.
#[local] Abbreviation K := (M (pstate E)).
(** The CPU, and the faulting address it reports *)
Context (cpuid cr2 : Z).
Context (ideintr kbdintr uartintr lapiceoi : K unit).
Context (syscalls : list (option (K Z))).
(** What the rest of the machine does while the process does not run *)
Context (switch : K unit).

Definition user_mode (t : trapframe) : bool := Z.land (cs t) 3 =? DPL_USER.

(** [case T_IRQ0 + IRQ_TIMER] *)
Definition timer_tick : K unit :=
  when (cpuid =? 0)
    (acquire Lticks ;;
     modify (λ s, set_env (set_ticks (u32 (ticks (env s) + 1)) (env s)) s) ;;
     wakeup Ch_ticks ;;
     release Lticks) ;;
  lapiceoi.

(** [default] *)
Definition unexpected (t : trapframe) : K unit :=
  np ← myproc ;
  if bool_decide (np = None) || (Z.land (cs t) 3 =? 0) then
    cprintf "unexpected trap %d from cpu %d eip %x (cr2=0x%x)\n" [trapno t; cpuid; eip t; cr2] ;;
    panic "trap"
  else
    '(_, p) ← curproc 16 ;
    cprintf "pid %d %s: trap %d err %d on cpu %d eip 0x%x addr 0x%x--kill proc\n" [pid p; trapno t; err t; cpuid; eip t; cr2] ;;
    '(i, _) ← curproc off_killed ;
    updp i (set_killed 1).

(** The [switch] statement *)
Definition interrupt (t : trapframe) : K unit :=
  let n := trapno t in
  if n =? T_IRQ0 + IRQ_TIMER then timer_tick
  else if n =? T_IRQ0 + IRQ_IDE then ideintr ;; lapiceoi
  else if n =? T_IRQ0 + IRQ_IDE + 1 then mret ()
  else if n =? T_IRQ0 + IRQ_KBD then kbdintr ;; lapiceoi
  else if n =? T_IRQ0 + IRQ_COM1 then uartintr ;; lapiceoi
  else if (n =? T_IRQ0 + 7) || (n =? T_IRQ0 + IRQ_SPURIOUS) then
    cprintf "cpu%d: spurious interrupt at %x:%x\n" [cpuid; cs t; eip t] ;;
    lapiceoi
  else unexpected t.

(** [if(myproc() && myproc()->killed && (tf->cs&3) == DPL_USER) exit();] *)
Definition exit_if_killed (t : trapframe) : K unit :=
  np ← myproc ;
  match np with
  | None => mret ()
  | Some _ =>
      '(_, p) ← curproc off_killed ;
      when (truth (killed p) && user_mode t) (exit switch)
  end.

(** [if(myproc() && myproc()->state == RUNNING && tf->trapno == ...) yield();] *)
Definition yield_on_tick (t : trapframe) : K unit :=
  np ← myproc ;
  match np with
  | None => mret ()
  | Some _ =>
      '(_, p) ← curproc off_state ;
      when (bool_decide (state p = RUNNING) && (trapno t =? T_IRQ0 + IRQ_TIMER)) (yield switch)
  end.

Definition trap (t : trapframe) : K unit :=
  if trapno t =? T_SYSCALL then
    '(_, p) ← curproc off_killed ;
    when (truth (killed p)) (exit switch) ;;
    '(i, _) ← curproc 24 ;
    updp i (set_tf t) ;;
    syscall syscalls ;;
    '(_, p) ← curproc off_killed ;
    when (truth (killed p)) (exit switch)
  else
    interrupt t ;;
    exit_if_killed t ;;
    yield_on_tick t ;;
    exit_if_killed t.

(** [alltraps] and [trapret] (trapasm.S). The frame of a trap from user mode is
    at the top of the kernel stack, where [p->tf] points. *)
Definition alltraps (t : trapframe) : K unit :=
  if user_mode t then
    '(i, _) ← curproc 24 ;
    updp i (set_tf t) ;;
    trap t ;;
    '(_, p) ← curproc 24 ;
    sig_handler_runner (cs (tf p))
  else
    trap t ;;
    sig_handler_runner (cs t).

(** ** Killed processes *)

(** Only what comes last matters. *)
Lemma hoare_last {A A'} (m : K A) (k : A → K A') s (Q : A' → pstate E → Prop) :
  (∀ a s', hoare True (k a) s' Q (λ _, True)) → hoare True (m ≫= k) s Q (λ _, True).
Proof. intros Hk. apply hoare_bind. unfold hoare at 1. destruct (m s); [apply Hk | done..]. Qed.

Lemma exit_no_return s : hoare True (exit switch) s (λ _ _, False) (λ _, True).
Proof.
  unfold exit. do 2 (apply hoare_last; intros ??). case_decide; [done|]. repeat match goal with |- hoare _ (mbind _ _) _ _ _ => apply hoare_last; intros ?? end. done.
Qed.

(** The process the CPU returns to, if any, has not been killed. *)
Definition not_killed (s : pstate E) : Prop := ∀ i p, cur s = Some i → procs s !! i = Some p → killed p = 0.

Lemma hoare_curproc_any off s (Q : nat * proc → pstate E → Prop) :
  (∀ i p, cur s = Some i → procs s !! i = Some p → Q (i, p) s) → hoare True (curproc off) s Q (λ _, True).
Proof.
  intros HQ. unfold curproc, myproc. apply hoare_bind, hoare_bind, hoare_emit, hoare_gets. destruct (cur s) as [i|] eqn:Hc; [|done]. apply hoare_bind, hoare_ret, hoare_bind.
  unfold getp, hoare at 1. destruct (procs s !! i) as [p|] eqn:Hp; [|done]. by apply hoare_ret, HQ.
Qed.

(** [if(myproc()->killed) exit();] *)
Lemma killed_check i p s : cur s = Some i → procs s !! i = Some p →
  hoare True (when (truth (killed p)) (exit switch)) s (λ _ s', not_killed s') (λ _, True).
Proof.
  intros Hc Hp. destruct (truth (killed p)) eqn:Hk; simpl when.
  - eapply hoare_mono; [apply exit_no_return | done | done].
  - apply hoare_ret. intros i' p' Hc' Hp'. simplify_eq. by apply truth_false.
Qed.

Lemma exit_check t s : user_mode t = true → hoare True (exit_if_killed t) s (λ _ s', not_killed s') (λ _, True).
Proof.
  intros Ht. unfold exit_if_killed, myproc. apply hoare_bind, hoare_bind, hoare_emit, hoare_gets. destruct (cur s) as [i|] eqn:Hc.
  - apply hoare_bind, hoare_curproc_any. intros j p Hj Hp. rewrite Ht, andb_true_r. by apply (killed_check j).
  - apply hoare_ret. intros i p Hc'. congruence.
Qed.

(** A trap number without a [case] of its own. *)
Definition is_fault (n : Z) : bool :=
  negb (existsb (Z.eqb n) [T_SYSCALL; T_IRQ0 + IRQ_TIMER; T_IRQ0 + IRQ_IDE; T_IRQ0 + IRQ_IDE + 1; T_IRQ0 + IRQ_KBD; T_IRQ0 + IRQ_COM1; T_IRQ0 + 7; T_IRQ0 + IRQ_SPURIOUS]).

Lemma fault_unexpected t : is_fault (trapno t) = true → (trapno t =? T_SYSCALL) = false ∧ interrupt t = unexpected t.
Proof.
  unfold is_fault, interrupt. cbn [existsb]. intros H. apply negb_true_iff in H. rewrite !orb_false_iff in H.
  destruct H as (-> & -> & -> & -> & -> & -> & -> & -> & _). done.
Qed.

Lemma curproc_run (s : pstate E) i p off : cur s = Some i → procs s !! i = Some p → curproc off s = Ok (i, p) s [ECli].
Proof. intros Hc Hp. unfold curproc, myproc, getp, deref. mrun. rewrite Hc. mrun. by rewrite Hp. Qed.

(** Nothing runs after [exit]. *)
Lemma exit_last (k : unit → K unit) s : (exit switch ≫= k) s = exit switch s.
Proof. pose proof (exit_no_return s) as Hno. unfold hoare in Hno. unfold mbind, M_bind. by destruct (exit switch s). Qed.

(** A fault in user mode marks the process as killed. *)
Lemma unexpected_kills t s i p : user_mode t = true → cur s = Some i → procs s !! i = Some p →
  ∃ tr, unexpected t s = Ok () (set_procs (<[i := set_killed 1 p]> (procs s)) s) tr.
Proof.
  intros Ht Hc Hp. apply Z.eqb_eq in Ht. eexists. unfold unexpected. erewrite bind_Ok by reflexivity. rewrite Hc, Ht. change (_ || _) with false. cbv iota.
  erewrite bind_Ok by (by apply curproc_run). cbv beta iota. erewrite bind_Ok by reflexivity. erewrite bind_Ok by (by apply curproc_run). cbv beta iota.
  unfold updp, modify. rewrite (alter_as_insert _ _ _ _ Hp). reflexivity.
Qed.

Lemma killed_exits t s i p (k : unit → K unit) : user_mode t = true → cur s = Some i → procs s !! i = Some p → killed p = 1 →
  ∃ tr, (exit_if_killed t ≫= k) s = prepend tr (exit switch s).
Proof.
  intros Ht Hc Hp Hk. eexists. unfold exit_if_killed. rewrite bind_assoc. erewrite bind_Ok by reflexivity. rewrite Hc, bind_assoc.
  erewrite bind_Ok by (by apply curproc_run). cbv beta iota. rewrite Hk, Ht. change (when _ _) with (exit switch). rewrite exit_last, prepend_app. reflexivity.
Qed.

Lemma unexpected_panics t s : Z.land (cs t) 3 = 0 ∨ cur s = None → crashes (unexpected t) s (Panicked "trap").
Proof.
  intros H. unfold unexpected, myproc. apply crashes_bind, wp_bind, wp_emit, wp_gets.
  replace (bool_decide (cur s = None) || (Z.land (cs t) 3 =? 0)) with true; [by eexists|]. symmetry. apply orb_true_iff.
  destruct H as [->|H]; [by right | left; by apply bool_decide_eq_true_2].
Qed.

(** C15: a killed process does not get back to user mode. Whatever the system
    call, interrupt or fault, and whatever happens while the process sleeps or
    is preempted on the way, [trap] returns to user mode only if the process is
    not killed at that moment. A fault in user mode kills the process: [trap] is
    then the call of [exit] of that process, marked as killed, and does not
    return. A fault in the kernel, or with no process running, stops the machine
    instead of going on. *)
Theorem trap_killed t s :
  (user_mode t = true ∨ trapno t = T_SYSCALL → hoare True (trap t) s (λ _ s', not_killed s') (λ _, True)) ∧
  (is_fault (trapno t) = true → user_mode t = true → ∀ i p, cur s = Some i → procs s !! i = Some p →
     (∃ tr, trap t s = prepend tr (exit switch (set_procs (<[i := set_killed 1 p]> (procs s)) s))) ∧
     hoare True (trap t) s (λ _ _, False) (λ _, True)) ∧
  (is_fault (trapno t) = true → Z.land (cs t) 3 = 0 ∨ cur s = None → crashes (trap t) s (Panicked "trap")).
Proof.
  split; [|split].
  - intros Ht. unfold trap. destruct (Z.eqb_spec (trapno t) T_SYSCALL) as [|Hn].
    + apply hoare_last. intros [? ?] ?. apply hoare_last. intros _ ?. apply hoare_last. intros [? ?] ?. do 2 (apply hoare_last; intros _ ?).
      apply hoare_bind, hoare_curproc_any. intros j q Hc Hq. by apply (killed_check j).
    + destruct Ht as [Ht|]; [|done]. do 3 (apply hoare_last; intros ??). by apply exit_check.
  - intros [Hn Hu]%fault_unexpected Ht i p Hc Hp. destruct (unexpected_kills t s i p Ht Hc Hp) as [tr1 H1].
    set (s1 := set_procs _ s) in *. destruct (killed_exits t s1 i (set_killed 1 p) (λ _, yield_on_tick t ;; exit_if_killed t) Ht Hc) as [tr2 H2].
    { simpl. apply list_lookup_insert_eq. by eapply lookup_lt_Some. } { done. }
    assert (trap t s = prepend (tr1 ++ tr2) (exit switch s1)) as Etr.
    { unfold trap. rewrite Hn, Hu. erewrite bind_Ok by exact H1. by rewrite H2, prepend_app. }
    split; [by eexists|]. pose proof (exit_no_return s1) as Hno. unfold hoare in *. rewrite Etr. by destruct (exit switch s1).
  - intros [Hn Hu]%fault_unexpected Hk. unfold trap. rewrite Hn, Hu. by apply crashes_here, unexpected_panics.
Qed.

End trap.

#[local] Instance flat_clock : Clock flat := { ticks _ := 0; set_ticks _ e := e }.

(** A page fault of a running process in user mode *)
Definition ex_fault : trapframe := mk_tf 0 0 0 0 0 0 0 0 0 0 0 0 14 4 0x1000 0x1b 0 0x2ffc 0x23.

(** init, and its running child in slot 1 *)
Definition ex_child : pstate flat :=
  mk_pstate [set_pid 1 (set_state SLEEPING proc0); set_parent (Some 0%nat) (set_cwd (Some 0%nat) (set_pid 5 (set_state RUNNING proc0)))]
    6 (Some 0%nat) (Some 1%nat) false (λ _, Some 0).
Definition ex_trap : trapframe → M (pstate flat) unit := trap 0 0x5000 (mret ()) (mret ()) (mret ()) (mret ()) [] to_scheduler.

(** The child is left killed and a zombie; without a process the machine stops. *)
Lemma trap_killed_witness :
  match ex_trap ex_fault ex_child with Blocked _ s' _ => (λ p, (killed p, state p)) <$> procs s' !! 1%nat = Some (1, ZOMBIE) | _ => False end ∧
  crashes (ex_trap ex_fault) (set_cur None ex_child) (Panicked "trap").
Proof.
  split.
  - destruct (trap_killed 0 0x5000 (mret ()) (mret ()) (mret ()) (mret ()) [] to_scheduler ex_fault ex_child) as (_ & H & _).
    destruct (H eq_refl eq_refl 1%nat _ eq_refl eq_refl) as [[tr E] _]. unfold ex_trap. rewrite E. clear. vm_compute. reflexivity.
  - destruct (trap_killed 0 0x5000 (mret ()) (mret ()) (mret ()) (mret ()) [] to_scheduler ex_fault (set_cur None ex_child)) as (_ & _ & H).
    exact (H eq_refl (or_intror eq_refl)).
Defined.

End Trap.
