(* ===== verification/Pipe.v ===== *)
(** * pipe.c

    The ring buffer with its free-running 32-bit counters; [pipewrite] and
    [piperead] as the passes they make between two sleeps, [pipeclose]; the
    queue the buffer implements, the stream it carries between any number of
    interleaved readers and writers, and who can be asleep when. *)

From S2P Require Import Prelude.

Module Pipe.

Definition PIPESIZE : Z := 512.

(** [struct pipe] without its lock *)
Record pipe := mk_pipe {
  data : list Z;
  nread : Z;
  nwrite : Z;
  readopen : Z;
  writeopen : Z;
}.

(** The state [pipealloc] sets up; the data is what [kalloc] returned. *)
Definition new_pipe (junk : list Z) : pipe := mk_pipe junk 0 0 1 1.

Section pipe.
(** The pipe's address: identifies its lock and its two sleep channels. *)
Context (pa : Z).

(** [p->nwrite == p->nread + PIPESIZE] *)
Definition full (p : pipe) : bool := nwrite p =? u32 (nread p + PIPESIZE).
(** [p->nread == p->nwrite] *)
Definition empty (p : pipe) : bool := nread p =? nwrite p.

(** [p->data[p->nwrite++ % PIPESIZE] = b] *)
Definition put (b : Z) (p : pipe) : pipe :=
  mk_pipe (<[Z.to_nat (nwrite p mod PIPESIZE) := b]> (data p)) (nread p) (u32 (nwrite p + 1))
    (readopen p) (writeopen p).

(** [p->data[p->nread++ % PIPESIZE]] *)
Definition head (p : pipe) : Z := default 0 (data p !! Z.to_nat (nread p mod PIPESIZE)).
Definition get (p : pipe) : pipe :=
  mk_pipe (data p) (u32 (nread p + 1)) (nwrite p) (readopen p) (writeopen p).

(** One pass of [pipewrite]'s loop over the bytes [l] still to be written, from
    a point where the lock is held to the next sleep or the return; [killed] is
    the flag of the calling process and [n] the length of the whole write. The
    result is the return value and the bytes not written. *)
Fixpoint write_pass (killed n : Z) (l : list Z) (p : pipe) : pass (list Z) pipe (Z * list Z) :=
  match l with
  | [] => Done (n, []) p [EWakeup (Ch_nread pa); ERelease (Lpipe pa)]
  | b :: l' =>
      if full p then
        if readopen p =? 0 then Done (-1, l) p [ERelease (Lpipe pa)]
        else if truth killed then Done (-1, l) p [ECli; ERelease (Lpipe pa)]
        else Wait (Ch_nwrite pa) l p [ECli; EWakeup (Ch_nread pa)]
      else write_pass killed n l' (put b p)
  end.

(** [piperead]'s copy loop: the bytes read and the pipe after. *)
Fixpoint read_loop (n : nat) (p : pipe) : list Z * pipe :=
  match n with
  | O => ([], p)
  | S n' =>
      if empty p then ([], p)
      else let '(l, p') := read_loop n' (get p) in (head p :: l, p')
  end.

(** One pass of [piperead]; the result is the return value and the bytes
    copied to the caller. *)
Definition read_pass (killed n : Z) (_ : unit) (p : pipe) : pass unit pipe (Z * list Z) :=
  if empty p && truth (writeopen p) then
    if truth killed then Done (-1, []) p [ECli; ERelease (Lpipe pa)]
    else Wait (Ch_nread pa) () p [ECli]
  else
    let '(l, p') := read_loop (Z.to_nat n) p in
    Done (Z.of_nat (length l), l) p' [EWakeup (Ch_nwrite pa); ERelease (Lpipe pa)].

(** [pipeclose]; the result says whether the page is to be freed ([kfree]). *)
Definition pipeclose (writable : Z) : M pipe bool :=
  acquire (Lpipe pa) ;;
  (if truth writable then
     modify (λ p, mk_pipe (data p) (nread p) (nwrite p) (readopen p) 0) ;; wakeup (Ch_nread pa)
   else
     modify (λ p, mk_pipe (data p) (nread p) (nwrite p) 0 (writeopen p)) ;; wakeup (Ch_nwrite pa)) ;;
  p ← gets id ;
  release (Lpipe pa) ;;
  mret ((readopen p =? 0) && (writeopen p =? 0)).

(** ** The queue *)

Definition count (p : pipe) : Z := u32 (nwrite p - nread p).

Definition pipe_ok (p : pipe) : Prop :=
  length (data p) = Z.to_nat PIPESIZE ∧ 0 ≤ nread p < 2 ^ 32 ∧ 0 ≤ nwrite p < 2 ^ 32 ∧
  count p ≤ PIPESIZE.

Definition slot (p : pipe) (k : nat) : Z :=
  default 0 (data p !! Z.to_nat ((nread p + k) mod PIPESIZE)).

(** The bytes written and not yet read, oldest first. *)
Definition contents (p : pipe) : list Z := slot p <$> seq 0 (Z.to_nat (count p)).

Lemma u32_mod_512 x : u32 x mod PIPESIZE = x mod PIPESIZE.
Proof.
  unfold u32, PIPESIZE. apply Z.mod_mod_divide. by exists (2 ^ 23).
Qed.

Lemma count_range p : 0 ≤ count p < 2 ^ 32.
Proof. apply u32_range. Qed.

Lemma u32_eq x y : u32 x = u32 y ↔ u32 (x - y) = 0.
Proof.
  unfold u32. split; intros Hxy.
  - rewrite Zminus_mod, Hxy, Z.sub_diag. done.
  - replace x with ((x - y) + y) by lia. by rewrite <- Zplus_mod_idemp_l, Hxy.
Qed.

Lemma full_count p : pipe_ok p → full p = (count p =? PIPESIZE).
Proof.
  intros (_ & Hr & Hw & Hc). unfold full. apply eq_true_iff_eq. rewrite !Z.eqb_eq.
  rewrite <- (u32_small (nwrite p)) at 1 by done. rewrite u32_eq. unfold count, PIPESIZE in *.
  pose proof (u32_range (nwrite p - nread p)). split; intros Heq.
  - replace (nwrite p - (nread p + 512)) with (nwrite p - nread p - 512) in Heq by lia.
    rewrite <- u32_sub_l in Heq. unfold u32 in Heq at 1.
    destruct (decide (u32 (nwrite p - nread p) = 512)) as [|Hne]; [done|].
    rewrite <- (Z.mod_add _ 1) in Heq by lia. rewrite Z.mod_small in Heq; lia.
  - replace (nwrite p - (nread p + 512)) with (nwrite p - nread p - 512) by lia.
    by rewrite <- u32_sub_l, Heq.
Qed.

Lemma empty_count p : pipe_ok p → empty p = (count p =? 0).
Proof.
  intros (_ & Hr & Hw & _). unfold empty. apply eq_true_iff_eq. rewrite !Z.eqb_eq.
  unfold count. rewrite <- u32_eq, !u32_small by done. split; congruence.
Qed.

Lemma mod_512_inj x y : 0 ≤ x - y < PIPESIZE → x mod PIPESIZE = y mod PIPESIZE → x = y.
Proof.
  unfold PIPESIZE. intros Hd Heq. assert ((x - y) mod 512 = 0) as H0.
  { rewrite Zminus_mod, Heq, Z.sub_diag. done. }
  rewrite Z.mod_small in H0 by lia. lia.
Qed.

Lemma count_put b p : pipe_ok p → count p < PIPESIZE → count (put b p) = count p + 1.
Proof.
  intros (_ & Hr & Hw & _) Hc. unfold count, put in *. simpl. unfold PIPESIZE in *.
  rewrite u32_sub_l. replace (nwrite p + 1 - nread p) with (nwrite p - nread p + 1) by lia.
  rewrite <- u32_add_l. pose proof (u32_range (nwrite p - nread p)). apply u32_small. lia.
Qed.

Lemma count_get p : pipe_ok p → count p ≠ 0 → count (get p) = count p - 1.
Proof.
  intros (_ & Hr & Hw & _) Hc. unfold count, get in *. simpl.
  rewrite u32_sub_r. replace (nwrite p - (nread p + 1)) with (nwrite p - nread p - 1) by lia.
  rewrite <- u32_sub_l. pose proof (u32_range (nwrite p - nread p)). apply u32_small. lia.
Qed.

Lemma put_ok b p : pipe_ok p → full p = false → pipe_ok (put b p).
Proof.
  intros Hp Hf. rewrite full_count in Hf by done. pose proof Hp as (Hl & Hr & Hw & Hc).
  split_and!; simpl; try lia.
  - by rewrite length_insert.
  - apply u32_range.
  - apply u32_range.
  - rewrite count_put by (done || lia). lia.
Qed.

Lemma get_ok p : pipe_ok p → empty p = false → pipe_ok (get p).
Proof.
  intros Hp He. rewrite empty_count in He by done. pose proof Hp as (Hl & Hr & Hw & Hc).
  split_and!; simpl; try lia; try done; try apply u32_range.
  rewrite count_get by (done || lia). lia.
Qed.

(** The cell [put] writes is the one after the last byte of the queue. *)
Lemma nwrite_slot p : pipe_ok p → nwrite p mod PIPESIZE = (nread p + count p) mod PIPESIZE.
Proof.
  intros (_ & Hr & Hw & _). unfold count.
  rewrite <- (u32_mod_512 (nread p + _)), u32_add_r, Zplus_minus, u32_mod_512. done.
Qed.

Lemma contents_put b p : pipe_ok p → full p = false → contents (put b p) = contents p ++ [b].
Proof.
  intros Hp Hf. rewrite full_count in Hf by done. pose proof Hp as (Hl & Hr & Hw & Hc).
  pose proof (count_range p). assert (count p < PIPESIZE) by lia. unfold contents.
  rewrite count_put by done. replace (Z.to_nat (count p + 1)) with (S (Z.to_nat (count p))) by lia.
  rewrite seq_S, fmap_app. simpl. f_equal.
  - apply list_fmap_ext. intros i k [Hk ?]%lookup_seq. unfold slot, put. simpl.
    rewrite list_lookup_insert_ne; [done|]. rewrite nwrite_slot by done. intros Heq.
    apply Z2Nat.inj in Heq; [|apply Z.mod_pos_bound; unfold PIPESIZE; lia..].
    apply mod_512_inj in Heq; lia.
  - unfold slot, put. simpl. rewrite Z2Nat.id by lia. rewrite <- nwrite_slot by done.
    rewrite list_lookup_insert_eq; [done|]. rewrite Hl. unfold PIPESIZE.
    pose proof (Z.mod_pos_bound (nwrite p) 512). lia.
Qed.

Lemma contents_get p : pipe_ok p → empty p = false → contents p = head p :: contents (get p).
Proof.
  intros Hp He. rewrite empty_count in He by done. pose proof (count_range p).
  unfold contents. rewrite count_get by (done || lia).
  destruct (Z.to_nat (count p)) as [|n] eqn:Hn; [lia|].
  replace (Z.to_nat (count p - 1)) with n by lia. simpl. f_equal.
  - unfold slot, head. by rewrite Z.add_0_r.
  - rewrite <- fmap_S_seq, <- list_fmap_compose. apply list_fmap_ext. intros i k _.
    unfold slot, get. simpl. rewrite <- (Zplus_mod_idemp_l (u32 _)), u32_mod_512, Zplus_mod_idemp_l.
    by replace (nread p + Z.of_nat (S k)) with (nread p + 1 + Z.of_nat k) by lia.
Qed.

Lemma contents_empty p : pipe_ok p → empty p = true → contents p = [].
Proof.
  intros Hp He. rewrite empty_count in He by done. unfold contents.
  by replace (Z.to_nat (count p)) with O by lia.
Qed.

Lemma length_contents p : Z.of_nat (length (contents p)) = count p.
Proof. unfold contents. rewrite length_fmap, length_seq. pose proof (count_range p). lia. Qed.

(** ** One pass on the queue *)

Definition same_flags (p p' : pipe) : Prop :=
  readopen p' = readopen p ∧ writeopen p' = writeopen p.

#[global] Instance same_flags_refl : Reflexive same_flags.
Proof. by split. Qed.

Definition write_outcome (k n : Z) (l : list Z) (p : pipe) (o : pass (list Z) pipe (Z * list Z)) : Prop :=
  ∃ w rest p', l = w ++ rest ∧ pipe_ok p' ∧ contents p' = contents p ++ w ∧ same_flags p p' ∧
  match o with
  | Done (r, rest') q tr => rest' = rest ∧ q = p' ∧
      ((r = n ∧ rest = [] ∧ tr = [EWakeup (Ch_nread pa); ERelease (Lpipe pa)]) ∨
       (r = -1 ∧ full p' = true ∧ (readopen p = 0 ∨ k ≠ 0)))
  | Wait c rest' q tr => rest' = rest ∧ q = p' ∧ c = Ch_nwrite pa ∧ full p' = true ∧
      readopen p ≠ 0 ∧ tr = [ECli; EWakeup (Ch_nread pa)]
  end.

Lemma write_pass_outcome k n l : ∀ p, pipe_ok p → write_outcome k n l p (write_pass k n l p).
Proof.
  induction l as [|b l IH]; intros p Hp; simpl.
  { exists [], [], p. rewrite (app_nil_r (contents p)). split_and!; try done. left. done. }
  destruct (full p) eqn:Hf.
  - assert (∀ o, (match o with
      | Done (r, rest') q tr => rest' = b :: l ∧ q = p ∧
          ((r = n ∧ b :: l = [] ∧ tr = [EWakeup (Ch_nread pa); ERelease (Lpipe pa)]) ∨
           (r = -1 ∧ full p = true ∧ (readopen p = 0 ∨ k ≠ 0)))
      | Wait c rest' q tr => rest' = b :: l ∧ q = p ∧ c = Ch_nwrite pa ∧ full p = true ∧
          readopen p ≠ 0 ∧ tr = [ECli; EWakeup (Ch_nread pa)] end) → write_outcome k n (b :: l) p o) as Hstay.
    { intros o Ho. exists [], (b :: l), p. rewrite (app_nil_r (contents p)). split_and!; done. }
    destruct (Z.eqb_spec (readopen p) 0); [apply Hstay; split_and!; auto|].
    destruct (truth k) eqn:Hk; apply Hstay; split_and!; auto.
    right. apply truth_true in Hk. auto.
  - destruct (IH (put b p)) as (w & rest & p' & -> & Hp' & Hc & Hfl & Ho); [by apply put_ok|].
    exists (b :: w), rest, p'. rewrite Hc, contents_put, <- (assoc_L (++)) by done. split_and!; try done.
Qed.

Lemma read_loop_spec n : ∀ p, pipe_ok p →
  let '(l, p') := read_loop n p in
  pipe_ok p' ∧ contents p = l ++ contents p' ∧ same_flags p p' ∧
  length l = Nat.min n (length (contents p)).
Proof.
  induction n as [|n IH]; intros p Hp; simpl; [done|].
  destruct (empty p) eqn:He.
  { split_and!; try done. by rewrite contents_empty. }
  pose proof (contents_get p Hp He) as Hc. specialize (IH (get p) (get_ok p Hp He)).
  destruct (read_loop n (get p)) as [l p']. destruct IH as (Hp' & Hl & Hfl & Hlen).
  rewrite Hc, Hl. split_and!; try done. simpl. rewrite Hlen, Hl. done.
Qed.

(** ** Readers and writers *)

(** The pipe, everything written to and read from it, and whether some process
    sleeps on its two channels. *)
Record world := mk_world {
  wpipe : pipe;
  sent : list Z;
  got : list Z;
  rsleep : bool;
  wsleep : bool;
}.

Definition woken (c : chan) (tr : list event) : bool := bool_decide (EWakeup c ∈ tr).

(** A pass of [pipewrite] by a process with [l] still to write. *)
Definition do_write (k n : Z) (l : list Z) (w : world) : world :=
  match write_pass k n l (wpipe w) with
  | Done (_, rest) p tr =>
      mk_world p (sent w ++ take (length l - length rest) l) (got w)
        (rsleep w && negb (woken (Ch_nread pa) tr)) (wsleep w && negb (woken (Ch_nwrite pa) tr))
  | Wait _ rest p tr =>
      mk_world p (sent w ++ take (length l - length rest) l) (got w)
        (rsleep w && negb (woken (Ch_nread pa) tr)) true
  end.

(** A pass of [piperead]. *)
Definition do_read (k n : Z) (w : world) : world :=
  match read_pass k n () (wpipe w) with
  | Done (_, l) p tr =>
      mk_world p (sent w) (got w ++ l)
        (rsleep w && negb (woken (Ch_nread pa) tr)) (wsleep w && negb (woken (Ch_nwrite pa) tr))
  | Wait _ _ p tr =>
      mk_world p (sent w) (got w) true (wsleep w && negb (woken (Ch_nwrite pa) tr))
  end.

Definition do_close (writable : Z) (w : world) : world :=
  match pipeclose writable (wpipe w) with
  | Ok _ p tr =>
      mk_world p (sent w) (got w)
        (rsleep w && negb (woken (Ch_nread pa) tr)) (wsleep w && negb (woken (Ch_nwrite pa) tr))
  | _ => w
  end.

(** [killable]: whether a writer may carry the killed flag. A sleeping process
    holds its end of the pipe open. *)
Inductive pstep (killable : bool) (w : world) : world → Prop :=
  | ps_write k n l : writeopen (wpipe w) ≠ 0 → (killable = true ∨ k = 0) →
      pstep killable w (do_write k n l w)
  | ps_read k n : readopen (wpipe w) ≠ 0 → pstep killable w (do_read k n w)
  | ps_close_read : rsleep w = false → pstep killable w (do_close 0 w)
  | ps_close_write : wsleep w = false → pstep killable w (do_close 1 w).

Definition stream_inv (w : world) : Prop :=
  pipe_ok (wpipe w) ∧ sent w = got w ++ contents (wpipe w).

Lemma take_written (l w rest : list Z) : l = w ++ rest → take (length l - length rest) l = w.
Proof.
  intros ->. rewrite length_app, Nat.add_sub. apply take_app_length.
Qed.

Lemma stream_inv_step b w w' : stream_inv w → pstep b w w' → stream_inv w'.
Proof.
  intros [Hp Hs] Hst. destruct Hst as [k n l _ _|k n _|_|_].
  - unfold do_write. destruct (write_pass_outcome k n l (wpipe w) Hp)
      as (u & rest & p' & Hl & Hp' & Hc & _ & Ho).
    destruct (write_pass k n l (wpipe w)) as [[r rest'] q tr|c rest' q tr]; destruct Ho as (-> & -> & _);
      (split; simpl; [done|]; rewrite (take_written l u rest) by done; rewrite Hs, Hc; by rewrite (assoc_L (++))).
  - unfold do_read, read_pass. destruct (_ && _).
    { destruct (truth k); split; simpl; [done | by rewrite app_nil_r | done | done]. }
    pose proof (read_loop_spec (Z.to_nat n) (wpipe w) Hp) as Hr.
    destruct (read_loop _ _) as [l p']. destruct Hr as (Hp' & Hc & _). split; [done|]. simpl.
    by rewrite Hs, Hc, (assoc_L (++)).
  - split; done.
  - split; done.
Qed.

(** A reader asleep has an empty pipe with a writer; a writer asleep has a full
    pipe with a reader. *)
Definition sleep_inv (w : world) : Prop :=
  (rsleep w = true → empty (wpipe w) = true ∧ readopen (wpipe w) ≠ 0 ∧ writeopen (wpipe w) ≠ 0) ∧
  (wsleep w = true → full (wpipe w) = true ∧ readopen (wpipe w) ≠ 0 ∧ writeopen (wpipe w) ≠ 0).

Lemma not_empty_full p : pipe_ok p → full p = true → empty p = false.
Proof.
  intros Hp Hf. rewrite full_count in Hf by done. rewrite empty_count by done.
  unfold PIPESIZE in *. lia.
Qed.

(** A pass that writes nothing leaves the pipe as it was. *)
Lemma write_pass_full k n l p : full p = true → l ≠ [] →
  ∃ o, write_pass k n l p = o ∧
    match o with Done (_, _) q _ => q = p ∧ (readopen p = 0 ∨ k ≠ 0) | Wait _ _ q _ => q = p end.
Proof.
  intros Hf Hl. destruct l as [|b l]; [done|]. simpl. rewrite Hf. eexists. split; [done|].
  destruct (Z.eqb_spec (readopen p) 0); [by auto|].
  destruct (truth k) eqn:Hk; [|done]. apply truth_true in Hk. auto.
Qed.

Lemma woken_true c tr : EWakeup c ∈ tr → woken c tr = true.
Proof. intros Hin. by apply bool_decide_eq_true_2. Qed.

Lemma full_ext p p' : pipe_ok p → pipe_ok p' → contents p' = contents p → full p' = full p.
Proof. intros Hp Hp' Hc. rewrite !full_count by done. by rewrite <- !length_contents, Hc. Qed.

Lemma sleep_inv_write n l w :
  stream_inv w → sleep_inv w → writeopen (wpipe w) ≠ 0 → sleep_inv (do_write 0 n l w).
Proof.
  intros [Hp _] [Hr Hw] Hwo. unfold do_write.
  destruct (write_pass_outcome 0 n l (wpipe w) Hp) as (u & rest & p' & Hl & Hp' & Hc & [Hro' Hwo'] & Ho).
  assert (full (wpipe w) = true → full p' = true) as Hfull.
  { intros Hf. destruct (decide (l = [])) as [->|Hne].
    - destruct u; [|done]. rewrite app_nil_r in Hc. by rewrite (full_ext (wpipe w)).
    - destruct (write_pass_full 0 n l (wpipe w) Hf Hne) as (o & He & Hq). rewrite He in Ho.
      destruct o as [[? ?] ? ?|]; naive_solver. }
  destruct (write_pass 0 n l (wpipe w)) as [[r rest'] q tr|c rest' q tr].
  - destruct Ho as (-> & -> & [(_ & -> & ->)|(_ & Hf & [Hro|?])]); [| |done]; split; simpl.
    + rewrite woken_true by set_solver. by rewrite andb_false_r.
    + intros [Hs _]%andb_true_iff. rewrite Hro', Hwo'. naive_solver.
    + intros [Hs _]%andb_true_iff. by destruct (Hr Hs) as (_ & ? & _).
    + intros [Hs _]%andb_true_iff. by destruct (Hw Hs) as (_ & ? & _).
  - destruct Ho as (-> & -> & _ & Hf & Hro & ->). split; simpl.
    + rewrite woken_true by set_solver. by rewrite andb_false_r.
    + intros _. by rewrite Hro', Hwo'.
Qed.

Lemma sleep_inv_read k n w :
  stream_inv w → sleep_inv w → readopen (wpipe w) ≠ 0 → sleep_inv (do_read k n w).
Proof.
  intros [Hp _] [Hr Hw] Hro. unfold do_read, read_pass.
  destruct (empty (wpipe w) && truth (writeopen (wpipe w))) eqn:He.
  - apply andb_true_iff in He as [He Hwo%truth_true]. destruct (truth k); split; simpl.
    + intros [Hs _]%andb_true_iff. auto.
    + intros [Hs _]%andb_true_iff. auto.
    + done.
    + intros [Hs _]%andb_true_iff. auto.
  - pose proof (read_loop_spec (Z.to_nat n) (wpipe w) Hp) as Hl.
    destruct (read_loop _ _) as [l p']. destruct Hl as (Hp' & Hc & [Hro' Hwo'] & _). split; simpl.
    + intros [Hs _]%andb_true_iff. destruct (Hr Hs) as (He' & _ & Hwo).
      rewrite He' in He. apply truth_true in Hwo. by rewrite Hwo in He.
    + rewrite woken_true by set_solver. by rewrite andb_false_r.
Qed.

Lemma sleep_inv_step w w' :
  stream_inv w → sleep_inv w → pstep false w w' → sleep_inv w'.
Proof.
  intros Hst Hsl Hstep. destruct Hstep as [k n l Hwo [?| ->]|k n Hro|Hr|Hw].
  - done.
  - by apply sleep_inv_write.
  - by apply sleep_inv_read.
  - split; simpl.
    + by rewrite Hr.
    + rewrite (woken_true (Ch_nwrite pa)) by set_solver. by rewrite andb_false_r.
  - split; simpl.
    + rewrite (woken_true (Ch_nread pa)) by set_solver. by rewrite andb_false_r.
    + by rewrite Hw.
Qed.

(** ** Properties *)

(** A fresh pipe. *)
Definition fresh (junk : list Z) : world := mk_world (new_pipe junk) [] [] false false.

Lemma fresh_ok junk : length junk = 512%nat → stream_inv (fresh junk) ∧ sleep_inv (fresh junk).
Proof. intros Hj. split; split; simpl; try done. Qed.

(** C17: a pipe is a reliable byte stream: whatever way the passes of its readers
    and writers interleave, and however often the 32-bit counters wrap, the
    bytes written so far are the bytes read so far followed by at most
    [PIPESIZE] bytes still in the buffer; nothing is lost, duplicated or
    reordered. *)
Theorem pipe_fifo junk w :
  length junk = 512%nat → star (pstep true) (fresh junk) w →
  sent w = got w ++ contents (wpipe w) ∧ (length (contents (wpipe w)) ≤ 512)%nat.
Proof.
  intros Hj Hs. assert (stream_inv w) as [Hp Hw].
  { eapply (star_invariant (pstep true)); [apply stream_inv_step | exact Hs | by apply fresh_ok]. }
  split; [done|]. pose proof (length_contents (wpipe w)). destruct Hp as (_ & _ & _ & Hc).
  unfold PIPESIZE in Hc. lia.
Qed.

(** C37: as long as no writer is killed, no process waits on a pipe for nothing: a
    sleeping reader has an empty pipe that can still be written, a sleeping writer a full pipe
    that can still be read; so readers and writers are never asleep together. *)
Theorem pipe_no_lost_wakeup junk w :
  length junk = 512%nat → star (pstep false) (fresh junk) w →
  (rsleep w = true → contents (wpipe w) = [] ∧ writeopen (wpipe w) ≠ 0) ∧
  (wsleep w = true → length (contents (wpipe w)) = 512%nat ∧ readopen (wpipe w) ≠ 0) ∧
  (rsleep w && wsleep w = false).
Proof.
  intros Hj Hs. assert (stream_inv w ∧ sleep_inv w) as [[Hp _] [Hr Hw]].
  { eapply (star_invariant (pstep false) (λ w, stream_inv w ∧ sleep_inv w)); [|exact Hs | by apply fresh_ok].
    intros x y [? ?] ?. split; [by eapply stream_inv_step | by apply (sleep_inv_step x)]. }
  split_and!.
  - intros Hrs. destruct (Hr Hrs) as (He & _ & ?). split; [by apply contents_empty | done].
  - intros Hws. destruct (Hw Hws) as (Hf & ? & _). split; [|done]. rewrite full_count in Hf by done.
    pose proof (length_contents (wpipe w)). unfold PIPESIZE in *. lia.
  - destruct (rsleep w); [|done]. destruct (wsleep w); [|done].
    destruct (Hr eq_refl) as [He _], (Hw eq_refl) as [Hf _].
    by rewrite (not_empty_full _ Hp Hf) in He.
Qed.

(** a killed writer loses a wakeup. A reader sleeps on an empty pipe; a writer
    whose process has been killed fills the buffer and returns -1 without the
    wakeup: the reader stays asleep although 512 bytes are waiting. *)
Theorem killed_writer_loses_wakeup :
  ∃ w, star (pstep true) (fresh (replicate 512 0)) w ∧
    rsleep w = true ∧ length (contents (wpipe w)) = 512%nat.
Proof.
  exists (do_write 1 513 (replicate 513 7) (do_read 0 1 (fresh (replicate 512 0)))).
  split; [|split].
  - eapply star_step; [eapply star_step; [apply star_refl|]|].
    + by apply (ps_read true (fresh (replicate 512 0)) 0 1).
    + apply ps_write; [by vm_compute | by left].
  - unfold do_write, do_read. vm_compute. by rewrite andb_true_r || reflexivity.
  - vm_compute. reflexivity.
Qed.

End pipe.

(** ** Runs *)

Definition ex_pipe : world :=
  do_read 1 0 5 (do_write 1 0 3 [10; 20; 30] (do_read 1 0 5 (fresh (replicate 512 0)))).

Lemma ex_pipe_run b : star (pstep 1 b) (fresh (replicate 512 0)) ex_pipe.
Proof.
  eapply star_step; [eapply star_step; [eapply star_step; [apply star_refl|]|]|].
  - by apply (ps_read 1 b (fresh (replicate 512 0)) 0 5).
  - apply ps_write; [by vm_compute | by right].
  - apply ps_read. by vm_compute.
Qed.

Lemma pipe_fifo_witness : sent ex_pipe = got ex_pipe ++ contents (wpipe ex_pipe) ∧ got ex_pipe = [10; 20; 30].
Proof.
  split; [|by vm_compute]. by apply (pipe_fifo 1 (replicate 512 0) ex_pipe); [|apply ex_pipe_run].
Defined.

Lemma pipe_no_lost_wakeup_witness :
  rsleep (do_read 1 0 5 (fresh (replicate 512 0))) = true ∧
  contents (wpipe (do_read 1 0 5 (fresh (replicate 512 0)))) = [].
Proof.
  split; [by vm_compute|].
  destruct (pipe_no_lost_wakeup 1 (replicate 512 0) (do_read 1 0 5 (fresh (replicate 512 0)))) as [Hr _].
  - done.
  - eapply star_step; [apply star_refl | by apply ps_read].
  - apply Hr. by vm_compute.
Defined.

End Pipe.
