(* ===== verification/Sleeplock.v ===== *)
(** * sleeplock.c

    Long-term locks: [acquiresleep] as the passes it makes between two sleeps,
    [releasesleep] and [holdingsleep]; mutual exclusion and absence of lost
    wakeups for any interleaving of the processes that use a lock. *)

From S2P Require Import Prelude.

Module Sleeplock.

(** [struct sleeplock] without its spin lock and name *)
Record sleeplock := mk_slock { slocked : Z; spid : Z }.

Definition initsleeplock : sleeplock := mk_slock 0 0.

Section sleeplock.
(** The protecting spin lock [lk->lk] and the channel, the lock's own address. *)
Context (lid : lockid) (ch : chan).

(** One pass of [acquiresleep], from a point where [lk->lk] is held; [pid] is the
    caller's. *)
Definition acquiresleep_pass (pid : Z) (_ : unit) (lk : sleeplock) : pass unit sleeplock unit :=
  if truth (slocked lk) then Wait ch () lk []
  else Done () (mk_slock 1 pid) [ECli; ERelease lid].

Definition releasesleep : M sleeplock unit :=
  acquire lid ;;
  modify (λ _, mk_slock 0 0) ;;
  wakeup ch ;;
  release lid.

Definition holdingsleep (pid : Z) : M sleeplock bool :=
  acquire lid ;;
  lk ← gets id ;
  when (truth (slocked lk)) (emit ECli) ;;
  release lid ;;
  mret (truth (slocked lk) && (spid lk =? pid)).

(** ** Interleavings *)

(** The lock, the pids of the processes between [acquiresleep] and
    [releasesleep], and whether some process sleeps on the lock. *)
Record world := mk_world { wlock : sleeplock; holders : list Z; waiting : bool }.

Definition do_acquire (pid : Z) (w : world) : world :=
  match acquiresleep_pass pid () (wlock w) with
  | Done _ lk _ => mk_world lk (pid :: holders w) (waiting w)
  | Wait _ _ lk _ => mk_world lk (holders w) true
  end.

Definition do_release (pid : Z) (w : world) : world :=
  match releasesleep (wlock w) with
  | Ok _ lk tr =>
      mk_world lk (filter (λ q, q ≠ pid) (holders w))
        (waiting w && negb (bool_decide (EWakeup ch ∈ tr)))
  | _ => w
  end.

(** A process releases only a lock it holds. *)
Inductive sstep (w : world) : world → Prop :=
  | ss_acquire pid : sstep w (do_acquire pid w)
  | ss_release pid : pid ∈ holders w → sstep w (do_release pid w).

Definition slock_inv (w : world) : Prop :=
  (wlock w = initsleeplock ∧ holders w = [] ∧ waiting w = false) ∨
  (∃ pid, wlock w = mk_slock 1 pid ∧ holders w = [pid]).

Lemma slock_inv_step w w' : slock_inv w → sstep w w' → slock_inv w'.
Proof.
  intros [(Hl & Hh & Hw)|(p & Hl & Hh)] [pid|pid Hpid].
  - right. exists pid. unfold do_acquire, acquiresleep_pass. rewrite Hl. simpl. by rewrite Hh.
  - rewrite Hh in Hpid. set_solver.
  - right. exists p. unfold do_acquire, acquiresleep_pass. rewrite Hl. simpl. done.
  - left. rewrite Hh in Hpid. assert (pid = p) as -> by set_solver. unfold do_release. simpl.
    rewrite Hh. split_and!; [done | |].
    + rewrite filter_cons, decide_False, filter_nil by naive_solver. done.
    + rewrite bool_decide_eq_true_2 by set_solver. by rewrite andb_false_r.
Qed.

(** a sleep lock is held by at most one process at a time; [holdingsleep] says
    yes exactly to its holder; and a process sleeps for the lock only while it
    is held. *)
Theorem sleeplock_exclusive w :
  star sstep (mk_world initsleeplock [] false) w →
  (length (holders w) ≤ 1)%nat ∧
  (∀ pid, wp (holdingsleep pid) (wlock w) (λ r _ _, r = true ↔ pid ∈ holders w)) ∧
  (waiting w = true → holders w ≠ []).
Proof.
  intros Hs. assert (slock_inv w) as [(Hl & Hh & Hw)|(p & Hl & Hh)].
  { eapply (star_invariant sstep); [apply slock_inv_step | exact Hs | by left]. }
  - rewrite Hh, Hl, Hw. split_and!; [simpl; lia | | done]. intros pid. unfold wp. simpl. set_solver.
  - rewrite Hh, Hl. split_and!; [simpl; lia | | done]. intros pid. unfold wp. simpl.
    rewrite Z.eqb_eq. set_solver.
Qed.

End sleeplock.

Lemma sleeplock_exclusive_witness :
  let w := do_acquire Llog Ch_log 8 (do_acquire Llog Ch_log 7 (mk_world initsleeplock [] false)) in
  holders w = [7] ∧ waiting w = true ∧ (length (holders w) ≤ 1)%nat.
Proof.
  split_and!; [done | done |].
  apply (sleeplock_exclusive Llog Ch_log).
  eapply star_step; [eapply star_step; [apply star_refl|]|].
  - apply (ss_acquire _ _ _ 7).
  - apply (ss_acquire _ _ _ 8).
Defined.

End Sleeplock.
