(* ===== verification/Bio.v ===== *)
(** * bio.c and memide.c: the buffer cache

    The buffers with their sleep locks, the doubly linked LRU list through them
    ([lru_next], [lru_prev]: the [next] and [prev] fields, with the list head at
    index [NBUF]), and the disk behind them. A block written to the disk is
    an event, so that what a crash leaves on the disk can be read off a trace. *)

From S2P Require Import Prelude Layout Memory Sleeplock.

Module Bio.
Import Sleeplock.

Definition BSIZE : Z := 512.
Definition B_VALID : Z := 2.
Definition B_DIRTY : Z := 4.

(** [struct buf] without its list pointers *)
Record buf := mk_buf {
  flags : Z;
  dev : Z;
  blockno : Z;
  block : sleeplock;
  refcnt : Z;
  bdata : list Z;
}.

Definition set_flags (x : Z) (b : buf) : buf :=
  mk_buf x (dev b) (blockno b) (block b) (refcnt b) (bdata b).
Definition set_block (x : sleeplock) (b : buf) : buf :=
  mk_buf (flags b) (dev b) (blockno b) x (refcnt b) (bdata b).
Definition set_refcnt (x : Z) (b : buf) : buf :=
  mk_buf (flags b) (dev b) (blockno b) (block b) x (bdata b).
Definition set_bdata (x : list Z) (b : buf) : buf :=
  mk_buf (flags b) (dev b) (blockno b) (block b) (refcnt b) x.

Definition buf0 : buf := mk_buf 0 0 0 initsleeplock 0 (replicate 512 0).

Record bstate := mk_bstate {
  bufs : list buf;
  lru_next : list nat;
  lru_prev : list nat;
  disk : Z → list Z;        (** the blocks of disk 1 *)
  disksize : Z;
  bpid : Z;                 (** pid of the running process *)
}.

Definition set_bufs (x : list buf) (s : bstate) : bstate :=
  mk_bstate x (lru_next s) (lru_prev s) (disk s) (disksize s) (bpid s).
Definition set_links (n p : list nat) (s : bstate) : bstate :=
  mk_bstate (bufs s) n p (disk s) (disksize s) (bpid s).
Definition set_disk (x : Z → list Z) (s : bstate) : bstate :=
  mk_bstate (bufs s) (lru_next s) (lru_prev s) x (disksize s) (bpid s).

(** The list head [bcache.head]. *)
Definition HEAD : nat := NBUF.

Definition getb (i : nat) : M bstate buf := λ s,
  match bufs s !! i with
  | Some b => Ok b s []
  | None => Crashed (Undefined "buffer pointer") []
  end.
Definition updb (i : nat) (f : buf → buf) : M bstate unit :=
  modify (λ s, set_bufs (alter f i (bufs s)) s).

(** [b->next], [b->prev], and assignments to them *)
Definition get_next (i : nat) : M bstate nat := gets (λ s, default O (lru_next s !! i)).
Definition get_prev (i : nat) : M bstate nat := gets (λ s, default O (lru_prev s !! i)).
Definition set_next (i j : nat) : M bstate unit :=
  modify (λ s, set_links (<[i := j]> (lru_next s)) (lru_prev s) s).
Definition set_prev (i j : nat) : M bstate unit :=
  modify (λ s, set_links (lru_next s) (<[i := j]> (lru_prev s)) s).

(** Take [b] out of the list. *)
Definition unlink (b : nat) : M bstate unit :=
  n ← get_next b ;
  p ← get_prev b ;
  set_prev n p ;;
  set_next p n.

(** Insert [b] at the front of the list. *)
Definition push_front (b : nat) : M bstate unit :=
  n ← get_next HEAD ;
  set_next b n ;;
  set_prev b HEAD ;;
  n ← get_next HEAD ;
  set_prev n b ;;
  set_next HEAD b.

Definition binit : M bstate unit :=
  set_prev HEAD HEAD ;;
  set_next HEAD HEAD ;;
  for_each (seq 0 NBUF) (λ b,
    n ← get_next HEAD ;
    set_next b n ;;
    set_prev b HEAD ;;
    updb b (set_block initsleeplock) ;;
    n ← get_next HEAD ;
    set_prev n b ;;
    set_next HEAD b).

(** ** The locks of the buffers *)

Definition acquiresleep (i : nat) : M bstate unit :=
  acquire (Lsleep_buf i) ;;
  b ← getb i ;
  pid ← gets bpid ;
  match acquiresleep_pass (Lsleep_buf i) (Ch_lock_buf i) pid () (block b) with
  | Done _ lk tr => updb i (set_block lk) ;; for_each tr emit
  | Wait c _ _ tr => for_each tr emit ;; block_on c
  end.

(** An operation on the buffer's lock. *)
Definition on_block {A} (i : nat) (m : M sleeplock A) : M bstate A := λ s,
  match bufs s !! i with
  | Some b =>
      match m (block b) with
      | Ok a lk tr => Ok a (set_bufs (<[i := set_block lk b]> (bufs s)) s) tr
      | Blocked c lk tr => Blocked c (set_bufs (<[i := set_block lk b]> (bufs s)) s) tr
      | Crashed f tr => Crashed f tr
      end
  | None => Crashed (Undefined "buffer pointer") []
  end.

Definition holdingsleep (i : nat) : M bstate bool :=
  pid ← gets bpid ; on_block i (Sleeplock.holdingsleep (Lsleep_buf i) pid).
Definition releasesleep (i : nat) : M bstate unit :=
  on_block i (Sleeplock.releasesleep (Lsleep_buf i) (Ch_lock_buf i)).

(** ** memide.c *)

Definition ideinit (image : Z → list Z) (image_size : Z) : M bstate unit :=
  modify (λ s, mk_bstate (bufs s) (lru_next s) (lru_prev s) image (image_size / BSIZE) (bpid s)).

Definition iderw (i : nat) : M bstate unit :=
  h ← holdingsleep i ;
  if negb h then panic "iderw: buf not locked" else
  b ← getb i ;
  if Z.land (flags b) (Z.lor B_VALID B_DIRTY) =? B_VALID then panic "iderw: nothing to do" else
  if negb (dev b =? 1) then panic "iderw: request not for disk 1" else
  n ← gets disksize ;
  if n <=? blockno b then panic "iderw: block out of range" else
  (if truth (Z.land (flags b) B_DIRTY) then
     updb i (λ b, set_flags (Z.land (flags b) (Z.lnot B_DIRTY)) b) ;;
     modify (λ s, set_disk (λ x, if x =? blockno b then bdata b else disk s x) s) ;;
     emit (EDiskWrite (dev b) (blockno b) (bdata b))
   else
     d ← gets (λ s, disk s (blockno b)) ;
     updb i (set_bdata d)) ;;
  updb i (λ b, set_flags (Z.lor (flags b) B_VALID) b).

(** ** The cache *)

(** [for(b = head.next; b != &head; b = b->next)] looking for the block; [fuel]
    bounds the walk, and [NBUF + 1] steps go around the whole list. *)
Fixpoint find_cached (fuel : nat) (i : nat) (d n : Z) : M bstate (option nat) :=
  match fuel with
  | O => undefined "LRU list is not circular"
  | S f =>
      if decide (i = HEAD) then mret None else
      b ← getb i ;
      if (dev b =? d) && (blockno b =? n) then mret (Some i)
      else j ← get_next i ; find_cached f j d n
  end.

(** The same backwards, looking for a buffer to recycle. *)
Fixpoint find_free (fuel : nat) (i : nat) : M bstate (option nat) :=
  match fuel with
  | O => undefined "LRU list is not circular"
  | S f =>
      if decide (i = HEAD) then mret None else
      b ← getb i ;
      if (refcnt b =? 0) && (Z.land (flags b) B_DIRTY =? 0) then mret (Some i)
      else j ← get_prev i ; find_free f j
  end.

Definition bget (d n : Z) : M bstate nat :=
  acquire Lbcache ;;
  i ← get_next HEAD ;
  r ← find_cached (S NBUF) i d n ;
  match r with
  | Some i =>
      updb i (λ b, set_refcnt (u32 (refcnt b + 1)) b) ;;
      release Lbcache ;;
      acquiresleep i ;;
      mret i
  | None =>
      i ← get_prev HEAD ;
      r ← find_free (S NBUF) i ;
      match r with
      | Some i =>
          updb i (λ b, mk_buf 0 d n (block b) 1 (bdata b)) ;;
          release Lbcache ;;
          acquiresleep i ;;
          mret i
      | None => panic "bget: no buffers"
      end
  end.

Definition bread (d n : Z) : M bstate nat :=
  i ← bget d n ;
  b ← getb i ;
  when (Z.land (flags b) B_VALID =? 0) (iderw i) ;;
  mret i.

Definition bwrite (i : nat) : M bstate unit :=
  h ← holdingsleep i ;
  if negb h then panic "bwrite" else
  updb i (λ b, set_flags (Z.lor (flags b) B_DIRTY) b) ;;
  iderw i.

Definition brelse (i : nat) : M bstate unit :=
  h ← holdingsleep i ;
  if negb h then panic "brelse" else
  releasesleep i ;;
  acquire Lbcache ;;
  updb i (λ b, set_refcnt (u32 (refcnt b - 1)) b) ;;
  b ← getb i ;
  when (refcnt b =? 0)
    (unlink i ;; push_front i) ;;
  release Lbcache.

(** ** The LRU list *)

Definition nx (s : bstate) (i : nat) : nat := default O (lru_next s !! i).
Definition pv (s : bstate) (i : nat) : nat := default O (lru_prev s !! i).

(** Neighbours in [L] point at each other. *)
Fixpoint linked (nx pv : nat → nat) (L : list nat) : Prop :=
  match L with
  | u :: (v :: _) as L' => nx u = v ∧ pv v = u ∧ linked nx pv L'
  | _ => True
  end.

Section linked.
Implicit Types (nx pv : nat → nat) (L l : list nat).

Lemma linked_app nx pv L1 u v L2 :
  linked nx pv (L1 ++ u :: v :: L2) ↔
  linked nx pv (L1 ++ [u]) ∧ (nx u = v ∧ pv v = u) ∧ linked nx pv (v :: L2).
Proof.
  induction L1 as [|x [|y L1] IH].
  - simpl. naive_solver.
  - simpl in *. naive_solver.
  - change ((x :: y :: L1) ++ u :: v :: L2) with (x :: (y :: L1) ++ u :: v :: L2).
    change ((x :: y :: L1) ++ [u]) with (x :: (y :: L1) ++ [u]).
    simpl in *. naive_solver.
Qed.

Lemma linked_ext nx pv nx' pv' L :
  (∀ L1 u v L2, L = L1 ++ u :: v :: L2 → nx' u = nx u ∧ pv' v = pv v) →
  linked nx pv L → linked nx' pv' L.
Proof.
  induction L as [|u [|v L] IH]; intros Hext HL; [done | done |].
  destruct HL as (Hn & Hp & HL). destruct (Hext [] u v L eq_refl) as [Hn' Hp'].
  split; [congruence|]. split; [congruence|]. apply IH; [|done]. intros L1 u' v' L2 HL'.
  apply (Hext (u :: L1) u' v' L2). by rewrite HL'.
Qed.

Definition upd (f : nat → nat) (i j : nat) : nat → nat := λ x, if decide (x = i) then j else f x.

(** Taking [x] out from between [p] and [n]. *)
Lemma linked_unlink nx pv L1 p x n L2 :
  NoDup (L1 ++ [p]) → NoDup (n :: L2) → n ∉ tail (L1 ++ [p]) → p ∉ take (length L2) (n :: L2) →
  linked nx pv (L1 ++ p :: x :: n :: L2) →
  linked (upd nx p n) (upd pv n p) (L1 ++ p :: n :: L2).
Proof.
  intros Hnd1 Hnd2 Hn Hp HL. apply linked_app in HL as (HL1 & _ & HL2).
  apply (linked_app _ _ [x]) in HL2 as (_ & _ & HL2) || (simpl in HL2; destruct HL2 as (_ & _ & HL2)).
  apply linked_app. split_and!.
  - eapply linked_ext, HL1. intros A u v B HAB. unfold upd. rewrite !decide_False; [done| |].
    + intros ->. apply Hn. rewrite HAB. destruct A; simpl; set_solver.
    + intros ->. destruct (exists_last (l := v :: B)) as (B' & z & HB); [done|].
      rewrite HB in HAB. change (A ++ p :: B' ++ [z]) with (A ++ (p :: B') ++ [z]) in HAB.
      rewrite (assoc_L (++)) in HAB. apply app_inj_tail in HAB as [HL ->]. subst L1.
      rewrite NoDup_app in Hnd1. set_solver.
  - unfold upd. by rewrite decide_True.
  - unfold upd. by rewrite decide_True.
  - eapply linked_ext, HL2. intros A u v B HAB. unfold upd. rewrite !decide_False; [done| |].
    + intros ->. apply NoDup_cons in Hnd2 as [Hnotin _].
      destruct A as [|a A]; simplify_eq/=; set_solver.
    + intros ->. apply Hp. rewrite HAB. 
      assert (length L2 = S (length A + length B)) as ->.
      { apply (f_equal length) in HAB. rewrite length_app in HAB. simpl in HAB. lia. }
      rewrite take_app_ge by lia. apply elem_of_app. right.
      replace (S (length A + length B) - length A)%nat with (S (length B)) by lia. left.
Qed.

(** Putting [x] in front of [f], after the head [h]. *)
Lemma linked_push nx pv h x f L2 :
  x ≠ h → x ∉ f :: L2 → NoDup (f :: L2) → h ∉ take (length L2) (f :: L2) →
  linked nx pv (f :: L2) →
  linked (upd (upd nx x f) h x) (upd (upd pv x h) f x) (h :: x :: f :: L2).
Proof.
  intros Hxh Hx Hnd Hh HL. split; [unfold upd; by rewrite decide_True|].
  split; [unfold upd; rewrite decide_False by set_solver; by rewrite decide_True|].
  split; [unfold upd; rewrite decide_False by done; by rewrite decide_True|].
  split; [unfold upd; by rewrite decide_True|].
  eapply linked_ext, HL. intros A u v B HAB. unfold upd. rewrite !decide_False; [done|..].
  - intros ->. apply Hx. rewrite HAB. set_solver.
  - intros ->. apply NoDup_cons in Hnd as [Hnotin _]. destruct A as [|a A]; simplify_eq/=; set_solver.
  - intros ->. apply Hx. rewrite HAB. set_solver.
  - intros ->. apply Hh. rewrite HAB.
    assert (length L2 = S (length A + length B)) as ->.
    { apply (f_equal length) in HAB. rewrite length_app in HAB. simpl in HAB. lia. }
    rewrite take_app_ge by lia. apply elem_of_app. right.
    replace (S (length A + length B) - length A)%nat with (S (length B)) by lia. left.
Qed.

End linked.

(** The buffers in list order, most recently used first. *)
Definition ring (s : bstate) (l : list nat) : Prop :=
  l ≡ₚ seq 0 NBUF ∧ length (lru_next s) = S NBUF ∧ length (lru_prev s) = S NBUF ∧
  linked (nx s) (pv s) (HEAD :: l ++ [HEAD]).

Lemma ring_elem s l i : ring s l → i ∈ l ↔ (i < NBUF)%nat.
Proof. intros [Hl _]. rewrite Hl, elem_of_seq. lia. Qed.

Lemma ring_NoDup s l : ring s l → NoDup (HEAD :: l).
Proof.
  intros Hr. apply NoDup_cons. split; [rewrite ring_elem by done; unfold HEAD; lia|].
  destruct Hr as [Hl _]. rewrite Hl. apply NoDup_seq.
Qed.

Lemma nx_insert s i j x : (i < length (lru_next s))%nat →
  default O (<[i := j]> (lru_next s) !! x) = upd (nx s) i j x.
Proof.
  intros Hi. unfold upd, nx. case_decide as Hx; [subst; by rewrite list_lookup_insert_eq|].
  by rewrite list_lookup_insert_ne.
Qed.

Lemma pv_insert s i j x : (i < length (lru_prev s))%nat →
  default O (<[i := j]> (lru_prev s) !! x) = upd (pv s) i j x.
Proof.
  intros Hi. unfold upd, pv. case_decide as Hx; [subst; by rewrite list_lookup_insert_eq|].
  by rewrite list_lookup_insert_ne.
Qed.

(** [s'] is [s] with other links. *)
Definition relinked (s s' : bstate) : Prop :=
  bufs s' = bufs s ∧ disk s' = disk s ∧ disksize s' = disksize s ∧ bpid s' = bpid s ∧
  length (lru_next s') = S NBUF ∧ length (lru_prev s') = S NBUF.

Lemma snoc_inv (l : list nat) : l = [] ∨ ∃ l' x, l = l' ++ [x].
Proof. destruct l as [|x l] using rev_ind; eauto. Qed.

Lemma unlink_spec s l1 i l2 :
  ring s (l1 ++ i :: l2) →
  ∃ s', unlink i s = Ok () s' [] ∧ relinked s s' ∧ linked (nx s') (pv s') (HEAD :: l1 ++ l2 ++ [HEAD]).
Proof.
  intros Hr. pose proof (ring_NoDup _ _ Hr) as Hnd. pose proof Hr as (_ & Hln & Hlp & HL).
  assert (∃ L1 p, HEAD :: l1 = L1 ++ [p]) as (L1 & p & HL1).
  { destruct (snoc_inv l1) as [->|(l & x & ->)]; [by exists [], HEAD | by exists (HEAD :: l), x]. }
  assert (∃ n L2, l2 ++ [HEAD] = n :: L2) as (n & L2 & HL2).
  { destruct l2; simpl; eauto. }
  assert (HEAD :: (l1 ++ i :: l2) ++ [HEAD] = L1 ++ p :: i :: n :: L2) as Hsplit.
  { rewrite <- (assoc_L (++)). change (HEAD :: l1 ++ (i :: l2) ++ [HEAD])
      with ((HEAD :: l1) ++ i :: (l2 ++ [HEAD])). by rewrite HL1, HL2, <- (assoc_L (++)). }
  rewrite Hsplit in HL. assert (nx s i = n ∧ pv s i = p) as [Hn Hp].
  { apply linked_app in HL as (_ & [_ ?] & HL). destruct HL as (? & _). done. }
  assert (p ∈ HEAD :: l1) as Hpin by (rewrite HL1; set_solver).
  assert (n ∈ l2 ++ [HEAD]) as Hnin by (rewrite HL2; set_solver).
  assert (∀ x, x ∈ HEAD :: l1 ++ i :: l2 → (x < S NBUF)%nat) as Hlt.
  { intros x Hx. apply elem_of_cons in Hx as [->|Hx]; [unfold HEAD; lia|].
    apply (ring_elem s) in Hx; [lia | done]. }
  assert (p < S NBUF)%nat as Hpl by (apply Hlt; set_solver).
  assert (n < S NBUF)%nat as Hnl by (apply Hlt; set_solver).
  eexists. split; [reflexivity|]. split; [split_and!; simpl; rewrite ?length_insert; done|].
  fold (nx s i) (pv s i). rewrite Hn, Hp.
  replace (HEAD :: l1 ++ l2 ++ [HEAD]) with (L1 ++ p :: n :: L2); cycle 1.
  { rewrite app_comm_cons, HL1, HL2, <- (assoc_L (++)). done. }
  eapply linked_ext; [|apply (linked_unlink (nx s) (pv s) L1 p i n L2); [..|exact HL]].
  - intros A u v B _. split; [apply (nx_insert s p n) | apply (pv_insert s n p)]; lia.
  - rewrite <- HL1. change (HEAD :: l1 ++ i :: l2) with ((HEAD :: l1) ++ i :: l2) in Hnd.
    by apply NoDup_app in Hnd as (? & _).
  - rewrite <- HL2. apply NoDup_app. apply NoDup_cons in Hnd as [Hh Hnd'].
    apply NoDup_app in Hnd' as (_ & _ & [_ Hnd']%NoDup_cons).
    split_and!; [done | | apply NoDup_singleton]. intros x Hx ->%list_elem_of_singleton.
    apply Hh, elem_of_app. right. by right.
  - rewrite <- HL1. simpl. apply NoDup_cons in Hnd as [Hh Hnd']. intros Hin.
    apply NoDup_app in Hnd' as (_ & Hdisj & _).
    apply elem_of_app in Hnin as [Hn2|Hn2%list_elem_of_singleton].
    + by apply (Hdisj n Hin); right.
    + apply Hh. rewrite <- Hn2. apply elem_of_app. by left.
  - rewrite <- HL2. assert (length L2 = length l2) as ->.
    { apply (f_equal length) in HL2. rewrite length_app in HL2. simpl in HL2. lia. }
    rewrite take_app_length. apply NoDup_cons in Hnd as [Hh Hnd']. intros Hin.
    apply elem_of_cons in Hpin as [Hpin|Hpin].
    + apply Hh. rewrite <- Hpin. apply elem_of_app. right. by right.
    + apply NoDup_app in Hnd' as (_ & Hdisj & _). apply (Hdisj p Hpin). by right.
Qed.

#[local] Arguments linked : simpl never.

Lemma push_front_spec s i l :
  NoDup (HEAD :: i :: l) → (∀ x, x ∈ i :: l → (x < NBUF)%nat) →
  length (lru_next s) = S NBUF → length (lru_prev s) = S NBUF →
  linked (nx s) (pv s) (HEAD :: l ++ [HEAD]) →
  ∃ s', push_front i s = Ok () s' [] ∧ relinked s s' ∧ linked (nx s') (pv s') (HEAD :: i :: l ++ [HEAD]).
Proof.
  intros Hnd Hlt Hln Hlp HL. apply NoDup_cons in Hnd as [Hh Hnd]. apply NoDup_cons in Hnd as [Hi Hnd].
  assert (∃ f L2, l ++ [HEAD] = f :: L2) as (f & L2 & HL2) by (destruct l; simpl; eauto).
  rewrite HL2 in HL |- *. destruct HL as (Hf & _ & HL).
  assert (i < NBUF)%nat as Hi' by (apply Hlt; set_solver).
  assert (f ∈ l ++ [HEAD]) as Hfin by (rewrite HL2; set_solver).
  assert (f < S NBUF)%nat as Hf'.
  { apply elem_of_app in Hfin as [Hfin|Hfin%list_elem_of_singleton]; [|rewrite Hfin; unfold HEAD; lia].
    assert (f < NBUF)%nat by (apply Hlt; by right). lia. }
  assert (HEAD ≠ i) as HHi by set_solver.
  eexists. split; [reflexivity|]. simpl. fold (nx s HEAD). rewrite Hf.
  rewrite list_lookup_insert_ne by done. fold (nx s HEAD). rewrite Hf.
  split; [split_and!; simpl; rewrite ?length_insert; done|].
  eapply linked_ext; [|apply (linked_push (nx s) (pv s) HEAD i f L2)]; try done.
  - intros A u v B _.
    set (s1 := set_links (<[i := f]> (lru_next s)) (<[i := HEAD]> (lru_prev s)) s). split.
    + transitivity (upd (nx s1) HEAD i u).
      { apply (nx_insert s1 HEAD i u). simpl. rewrite length_insert. unfold HEAD. lia. }
      unfold upd. case_decide; [done|]. apply (nx_insert s i f u). lia.
    + transitivity (upd (pv s1) f i v).
      { apply (pv_insert s1 f i v). simpl. rewrite length_insert. lia. }
      unfold upd. case_decide; [done|]. apply (pv_insert s i HEAD v). lia.
  - rewrite <- HL2. set_solver.
  - rewrite <- HL2. apply NoDup_app. split_and!; [done | set_solver | apply NoDup_singleton].
  - rewrite <- HL2. assert (length L2 = length l) as ->.
    { apply (f_equal length) in HL2. rewrite length_app in HL2. simpl in HL2. lia. }
    rewrite take_app_length. set_solver.
Qed.

(** [brelse] moves a buffer to the front of the list. *)
Lemma relink_spec s l1 i l2 :
  ring s (l1 ++ i :: l2) →
  ∃ s', (unlink i ;; push_front i) s = Ok () s' [] ∧ relinked s s' ∧ ring s' (i :: l1 ++ l2).
Proof.
  intros Hr. pose proof (ring_NoDup _ _ Hr) as Hnd.
  destruct (unlink_spec s l1 i l2 Hr) as (s1 & H1 & (Hb1 & Hd1 & Hz1 & Hp1 & Hn1 & Hv1) & HL1).
  rewrite (assoc_L (++)) in HL1. assert (l1 ++ i :: l2 ≡ₚ i :: l1 ++ l2) as Hperm.
  { symmetry. apply Permutation_middle. }
  rewrite Hperm in Hnd. destruct (push_front_spec s1 i (l1 ++ l2)) as (s2 & H2 & Hre2 & HL2); try done.
  { intros x Hx. rewrite <- Hperm in Hx. by apply (ring_elem s) in Hx. }
  exists s2. split; [by rewrite (bind_Ok _ _ _ _ _ _ H1), prepend_nil|].
  destruct Hre2 as (Hb2 & Hd2 & Hz2 & Hp2 & Hn2 & Hv2). split; [split_and!; congruence|].
  split_and!; [|done..]. rewrite <- Hperm. apply Hr.
Qed.

Definition cached_as (s : bstate) (d n : Z) (j : nat) : bool :=
  match bufs s !! j with Some b => (dev b =? d) && (blockno b =? n) | None => false end.
Definition recyclable (s : bstate) (j : nat) : bool :=
  match bufs s !! j with Some b => (refcnt b =? 0) && (Z.land (flags b) B_DIRTY =? 0) | None => false end.

Lemma find_cached_walk s d n l : ∀ fuel i rest,
  i :: rest = l ++ [HEAD] → linked (nx s) (pv s) (i :: rest) →
  (∀ x, x ∈ l → (x < NBUF)%nat) → length (bufs s) = NBUF → (length l < fuel)%nat →
  find_cached fuel i d n s = Ok (List.find (cached_as s d n) l) s [].
Proof.
  induction l as [|x l IH]; intros fuel i rest Hl HL Hlt Hlen Hfuel; destruct fuel as [|fuel]; [lia| |lia|].
  { by injection Hl as -> ->. }
  injection Hl as -> Hrest. assert (x < NBUF)%nat as Hx by (apply Hlt; left). simpl.
  rewrite decide_False by (unfold HEAD; lia). unfold mbind, M_bind, getb, cached_as at 1.
  destruct (bufs s !! x) as [b|] eqn:Hb; [|apply lookup_ge_None in Hb; lia]. simpl.
  destruct (_ && _); [done|]. simpl. fold (nx s x).
  destruct rest as [|y rest]; [by destruct l|]. destruct HL as (Hn & _ & HL). rewrite Hn.
  rewrite (IH fuel y rest); [done | done | done | | done | simpl in Hfuel; lia].
  intros z Hz. apply Hlt. by right.
Qed.

Lemma linked_rev nx pv L : linked nx pv L → linked pv nx (reverse L).
Proof.
  induction L as [|u [|v L] IH]; intros HL; [done | done |]. destruct HL as (Hn & Hp & HL).
  rewrite !reverse_cons, <- (assoc_L (++)). simpl. apply linked_app.
  specialize (IH HL). rewrite reverse_cons in IH. split_and!; done.
Qed.

Lemma find_free_walk s l : ∀ fuel i rest,
  i :: rest = l ++ [HEAD] → linked (pv s) (nx s) (i :: rest) →
  (∀ x, x ∈ l → (x < NBUF)%nat) → length (bufs s) = NBUF → (length l < fuel)%nat →
  find_free fuel i s = Ok (List.find (recyclable s) l) s [].
Proof.
  induction l as [|x l IH]; intros fuel i rest Hl HL Hlt Hlen Hfuel; destruct fuel as [|fuel]; [lia| |lia|].
  { by injection Hl as -> ->. }
  injection Hl as -> Hrest. assert (x < NBUF)%nat as Hx by (apply Hlt; left). simpl.
  rewrite decide_False by (unfold HEAD; lia). unfold mbind, M_bind, getb, recyclable at 1.
  destruct (bufs s !! x) as [b|] eqn:Hb; [|apply lookup_ge_None in Hb; lia]. simpl.
  destruct (_ && _); [done|]. simpl. fold (pv s x).
  destruct rest as [|y rest]; [by destruct l|]. destruct HL as (Hn & _ & HL). rewrite Hn.
  rewrite (IH fuel y rest); [done | done | done | | done | simpl in Hfuel; lia].
  intros z Hz. apply Hlt. by right.
Qed.

(** The two searches of [bget] visit every buffer, in LRU order. *)
Lemma find_cached_ring s l d n : ring s l → length (bufs s) = NBUF →
  find_cached (S NBUF) (nx s HEAD) d n s = Ok (List.find (cached_as s d n) l) s [].
Proof.
  intros Hr Hlen. pose proof Hr as (Hp & _ & _ & HL).
  destruct (l ++ [HEAD]) as [|i rest] eqn:Hl; [by destruct l|]. destruct HL as (-> & _ & HL).
  eapply find_cached_walk; [done | done | | done |].
  - intros x. by apply (ring_elem s).
  - rewrite Hp, length_seq. lia.
Qed.

Lemma find_free_ring s l : ring s l → length (bufs s) = NBUF →
  find_free (S NBUF) (pv s HEAD) s = Ok (List.find (recyclable s) (reverse l)) s [].
Proof.
  intros Hr Hlen. pose proof Hr as (Hp & _ & _ & HL). apply linked_rev in HL.
  rewrite reverse_cons, reverse_snoc in HL. simpl in HL.
  destruct (reverse l ++ [HEAD]) as [|i rest] eqn:Hl; [by destruct (reverse l)|].
  destruct HL as (-> & _ & HL). eapply find_free_walk; [done | done | | done |].
  - intros x. rewrite elem_of_reverse. by apply (ring_elem s).
  - rewrite length_reverse, Hp, length_seq. lia.
Qed.

(** ** The cache as one process sees it

    [H] are the buffers the running process holds; all others are unlocked and
    unreferenced. *)

Definition buf_ok (s : bstate) (held : bool) (b : buf) : Prop :=
  length (bdata b) = 512%nat ∧
  ((dev b = 1 ∧ (flags b = 2 ∨ flags b = 6) ∧ 0 ≤ blockno b < disksize s) ∨ (dev b = 0 ∧ flags b = 0)) ∧
  (if held then dev b = 1 ∧ refcnt b = 1 ∧ block b = mk_slock 1 (bpid s)
   else refcnt b = 0 ∧ block b = initsleeplock ∧ (flags b = 2 → bdata b = disk s (blockno b))).

Definition no_dup_blocks (bs : list buf) : Prop :=
  ∀ i j b c, bs !! i = Some b → bs !! j = Some c → dev b = 1 → dev c = 1 → blockno b = blockno c → i = j.

Definition cache_ok (s : bstate) (H : list nat) : Prop :=
  length (bufs s) = NBUF ∧ ((∃ l, ring s l) ∧ ∀ n, length (disk s n) = 512%nat) ∧
  NoDup H ∧ no_dup_blocks (bufs s) ∧
  ∀ i b, bufs s !! i = Some b → buf_ok s (bool_decide (i ∈ H)) b.

(** The buffer of block [n]. *)
Definition cached (s : bstate) (n : Z) : option buf :=
  snd <$> list_find (λ b, dev b = 1 ∧ blockno b = n) (bufs s).

(** The current contents of block [n], and whether it is pinned in the cache. *)
Definition content (s : bstate) (n : Z) : list Z :=
  match cached s n with Some b => bdata b | None => disk s n end.
Definition dirty (s : bstate) (n : Z) : bool :=
  match cached s n with Some b => flags b =? 6 | None => false end.

(** Buffers [bget] may recycle. *)
Definition free (s : bstate) : gset nat := list_to_set (List.filter (recyclable s) (seq 0 NBUF)).

Lemma cached_Some s n b : no_dup_blocks (bufs s) →
  cached s n = Some b ↔ ∃ i, bufs s !! i = Some b ∧ dev b = 1 ∧ blockno b = n.
Proof.
  intros Hnd. unfold cached. split.
  - intros ([i c] & Hf & ->)%fmap_Some. apply list_find_Some in Hf as (Hi & [? ?] & _). by exists i.
  - intros (i & Hi & Hd & Hn). destruct (list_find _ (bufs s)) as [[j c]|] eqn:Hf.
    + apply list_find_Some in Hf as (Hj & [? ?] & _). simpl.
      assert (i = j) as -> by (apply (Hnd i j b c); congruence). congruence.
    + apply list_find_None in Hf. eapply Forall_lookup_1 in Hf; [|done]. naive_solver.
Qed.

Lemma cached_None s n :
  cached s n = None ↔ ∀ i b, bufs s !! i = Some b → dev b = 1 → blockno b ≠ n.
Proof.
  unfold cached. rewrite fmap_None, list_find_None, Forall_lookup. naive_solver.
Qed.

(** Two states agree on block [n] if they agree on its buffer. *)
Lemma cached_ext s s' n : no_dup_blocks (bufs s) → no_dup_blocks (bufs s') →
  (∀ b, dev b = 1 → blockno b = n → (∃ i, bufs s !! i = Some b) ↔ (∃ i, bufs s' !! i = Some b)) →
  cached s' n = cached s n.
Proof.
  intros Hnd Hnd' Hb. apply option_eq. intros b. rewrite !cached_Some by done. naive_solver.
Qed.

(** Replacing a buffer by one for the same block. *)
Lemma no_dup_insert bs i b b' :
  no_dup_blocks bs → bs !! i = Some b → dev b' = dev b → blockno b' = blockno b →
  no_dup_blocks (<[i := b']> bs).
Proof.
  intros Hnd Hi Hd Hn j k c d Hj Hk. rewrite list_lookup_insert_Some in Hj, Hk.
  destruct Hj as [(<- & <- & _)|[? Hj]], Hk as [(<- & <- & _)|[? Hk]]; intros.
  - done.
  - apply (Hnd i k b d); congruence.
  - apply (Hnd j i c b); congruence.
  - by apply (Hnd j k c d).
Qed.

Lemma no_dup_insert_new bs i b' :
  no_dup_blocks bs → (∀ j c, bs !! j = Some c → dev c = 1 → blockno c ≠ blockno b') →
  no_dup_blocks (<[i := b']> bs).
Proof.
  intros Hnd Hnew j k c d Hj Hk. rewrite list_lookup_insert_Some in Hj, Hk.
  destruct Hj as [(<- & <- & _)|[? Hj]], Hk as [(<- & <- & _)|[? Hk]]; intros.
  - done.
  - by destruct (Hnew k d).
  - by destruct (Hnew j c).
  - by apply (Hnd j k c d).
Qed.

(** Recycling the buffer [i] for a block that was not cached. *)
Lemma cached_insert_new s i b b' n :
  no_dup_blocks (bufs s) → bufs s !! i = Some b → dev b' = 1 → cached s (blockno b') = None →
  cached (set_bufs (<[i := b']> (bufs s)) s) n =
    if decide (n = blockno b') then Some b'
    else if decide (dev b = 1 ∧ blockno b = n) then None else cached s n.
Proof.
  intros Hnd Hi Hd' Hnew. pose proof (lookup_lt_Some _ _ _ Hi) as Hlt. rewrite cached_None in Hnew.
  assert (no_dup_blocks (<[i := b']> (bufs s))) as Hnd' by (by apply no_dup_insert_new).
  case_decide as Hn; [|case_decide as Hb].
  - apply cached_Some; [done|]. exists i. simpl. rewrite list_lookup_insert_eq by done. by subst.
  - apply cached_None. simpl. intros j c Hj Hc Hcn. rewrite list_lookup_insert_Some in Hj.
    destruct Hj as [(<- & <- & _)|[Hne Hj]]; [congruence|]. destruct Hne, Hb.
    apply (Hnd i j b c); congruence.
  - apply cached_ext; [done..|]. intros c Hc Hcn. simpl. split; intros (j & Hj).
    + exists j. rewrite list_lookup_insert_ne; [done|]. intros ->. naive_solver congruence.
    + rewrite list_lookup_insert_Some in Hj. destruct Hj as [(<- & <- & _)|[? Hj]]; [congruence | by exists j].
Qed.

Lemma cached_insert_same s i b b' n :
  no_dup_blocks (bufs s) → bufs s !! i = Some b → dev b = 1 → dev b' = 1 → blockno b' = blockno b →
  cached (set_bufs (<[i := b']> (bufs s)) s) n = if decide (n = blockno b) then Some b' else cached s n.
Proof.
  intros Hnd Hi Hd Hd' Hn. pose proof (lookup_lt_Some _ _ _ Hi) as Hlt.
  assert (no_dup_blocks (<[i := b']> (bufs s))) as Hnd' by (eapply no_dup_insert; eauto; congruence).
  case_decide as Hnb.
  - apply cached_Some; [done|]. exists i. simpl. rewrite list_lookup_insert_eq by done. split_and!; congruence.
  - apply cached_ext; [done..|]. intros c Hc Hcn. simpl. split; intros (j & Hj).
    + exists j. rewrite list_lookup_insert_ne; [done|]. intros ->. congruence.
    + rewrite list_lookup_insert_Some in Hj. destruct Hj as [(<- & <- & _)|[? Hj]]; [congruence | by exists j].
Qed.

(** ** The operations on the cache *)

Section one_buffer.
Context (s : bstate) (i : nat) (Hi : (i < length (bufs s))%nat).

(** [s] with buffer [i] replaced by [b]. *)
Definition at_buf (b : buf) : bstate := set_bufs (<[i := b]> (bufs s)) s.

Lemma at_buf_id b : bufs s !! i = Some b → s = at_buf b.
Proof using. clear Hi. intros Hb. unfold at_buf. rewrite list_insert_id by done. by destruct s. Qed.

Lemma does_getb b : does (getb i) (at_buf b) b (at_buf b) [].
Proof using Hi. exists []. unfold getb. simpl. by rewrite list_lookup_insert_eq. Qed.

Lemma does_updb b f b' : f b = b' → does (updb i f) (at_buf b) () (at_buf b') [].
Proof using Hi.
  intros <-. exists []. unfold updb, modify, at_buf. simpl. by rewrite alter_insert.
Qed.

Lemma does_holdingsleep b :
  block b = mk_slock 1 (bpid s) → does (holdingsleep i) (at_buf b) true (at_buf b) [].
Proof using Hi.
  intros Hb. exists [EAcquire (Lsleep_buf i); ECli; ERelease (Lsleep_buf i)].
  unfold holdingsleep, on_block. mrun. rewrite list_lookup_insert_eq by done.
  rewrite Hb. simpl. rewrite Z.eqb_refl. split; [|done]. f_equal. unfold at_buf, set_bufs. simpl.
  f_equal. rewrite list_insert_insert_eq. by rewrite <- Hb; destruct b.
Qed.

Lemma does_releasesleep b : does (releasesleep i) (at_buf b) () (at_buf (set_block initsleeplock b)) [].
Proof using Hi.
  exists [EAcquire (Lsleep_buf i); EWakeup (Ch_lock_buf i); ERelease (Lsleep_buf i)].
  unfold releasesleep, on_block. simpl. rewrite list_lookup_insert_eq by done. simpl.
  split; [|done]. f_equal. unfold at_buf, set_bufs. simpl. by rewrite list_insert_insert_eq.
Qed.

Lemma does_acquiresleep b :
  block b = initsleeplock →
  does (acquiresleep i) (at_buf b) () (at_buf (set_block (mk_slock 1 (bpid s)) b)) [].
Proof using Hi.
  intros Hb. exists [EAcquire (Lsleep_buf i); ECli; ERelease (Lsleep_buf i)].
  unfold acquiresleep. mrun. unfold getb. simpl.
  rewrite list_lookup_insert_eq by done. simpl. rewrite Hb. simpl. rewrite alter_insert by done. done.
Qed.

Lemma does_iderw_read b :
  block b = mk_slock 1 (bpid s) → flags b = 0 → dev b = 1 → blockno b < disksize s →
  does (iderw i) (at_buf b) () (at_buf (set_flags 2 (set_bdata (disk s (blockno b)) b))) [].
Proof using Hi.
  intros Hb Hf Hd Hn. unfold iderw.
  eapply does_bind; [by apply does_holdingsleep | | done]. simpl negb.
  eapply does_bind; [apply does_getb | | done]. rewrite Hf, Hd. simpl.
  eapply does_bind; [apply does_gets | | done]. simpl. rewrite (proj2 (Z.leb_gt _ _)) by done.
  eapply does_bind; [eapply does_bind; [apply does_gets | by apply does_updb | done] | | done].
  apply does_updb. simpl. by rewrite Hf.
Qed.

Lemma does_iderw_write b :
  block b = mk_slock 1 (bpid s) → flags b = 6 → dev b = 1 → blockno b < disksize s →
  does (iderw i) (at_buf b) () (set_disk (λ x, if x =? blockno b then bdata b else disk s x)
    (at_buf (set_flags 2 b))) [(blockno b, bdata b)].
Proof using Hi.
  intros Hb Hf Hd Hn. unfold iderw.
  eapply does_bind; [by apply does_holdingsleep | | done]. simpl negb.
  eapply does_bind; [apply does_getb | | done]. rewrite Hf, Hd. simpl.
  eapply does_bind; [apply does_gets | | done]. simpl. rewrite (proj2 (Z.leb_gt _ _)) by done.
  eapply does_bind.
  - eapply does_bind; [by apply does_updb | | reflexivity].
    eapply does_bind; [apply does_modify | by eexists | reflexivity].
  - exists []. split; [|done]. unfold updb, modify, at_buf, set_disk, set_bufs. simpl.
    rewrite alter_insert by done. simpl. by rewrite Hf.
  - done.
Qed.

Lemma does_bwrite b :
  block b = mk_slock 1 (bpid s) → flags b = 2 ∨ flags b = 6 → dev b = 1 → blockno b < disksize s →
  does (bwrite i) (at_buf b) () (set_disk (λ x, if x =? blockno b then bdata b else disk s x)
    (at_buf (set_flags 2 b))) [(blockno b, bdata b)].
Proof using Hi.
  intros Hb Hf Hd Hn. unfold bwrite.
  eapply does_bind; [by apply does_holdingsleep | | done]. simpl negb.
  eapply does_bind; [by apply does_updb | | done].
  refine (does_iderw_write (set_flags (Z.lor (flags b) B_DIRTY) b) Hb _ Hd Hn).
  simpl. by destruct Hf as [-> | ->].
Qed.
End one_buffer.

Definition hold (pid : Z) (b : buf) : buf := set_refcnt 1 (set_block (mk_slock 1 pid) b).

Lemma find_unique (f : nat → bool) l i :
  i ∈ l → f i = true → (∀ j, f j = true → j = i) → List.find f l = Some i.
Proof.
  intros Hi Hf Hu. destruct (List.find f l) as [j|] eqn:Hj.
  - apply find_some in Hj as [_ Hj]. f_equal. auto.
  - eapply find_none in Hj; [|by apply list_elem_of_In]. congruence.
Qed.

Section ops.
Context (s : bstate) (H : list nat) (Hok : cache_ok s H).

(** [bread] of a block in the cache. *)
Lemma bread_hit i b n :
  bufs s !! i = Some b → dev b = 1 → blockno b = n → i ∉ H →
  does (bread 1 n) s i (at_buf s i (hold (bpid s) b)) [].
Proof using Hok.
  intros Hb Hd Hn HiH. destruct Hok as (Hlen & ((l & Hr) & Hdisk) & _ & Hnd & Hbufs).
  pose proof (lookup_lt_Some _ _ _ Hb) as Hi. pose proof (Hbufs _ _ Hb) as Hbok.
  rewrite bool_decide_eq_false_2 in Hbok by done. destruct Hbok as (_ & Hfl & Href & Hlk & _).
  unfold bread. eapply (does_bind_l _ _ _ i (at_buf s i (hold (bpid s) b))).
  - unfold bget. eapply does_bind_l; [apply does_acquire|].
    eapply does_bind_l; [apply does_gets|]. fold (nx s HEAD).
    eapply does_bind_l; [eexists; split; [by apply find_cached_ring | reflexivity]|].
    rewrite (find_unique _ _ i).
    + rewrite (at_buf_id s i b) at 1 by done.
      eapply does_bind_l; [by apply does_updb|]. eapply does_bind_l; [apply does_release|].
      eapply does_bind_l; [by apply does_acquiresleep|]. unfold hold. rewrite Href. apply does_ret.
    + rewrite Hlen in Hi. by apply (ring_elem s).
    + unfold cached_as. by rewrite Hb, Hd, Hn, !Z.eqb_refl.
    + intros j Hj. unfold cached_as in Hj. destruct (bufs s !! j) as [c|] eqn:Hc; [|done].
      apply andb_true_iff in Hj as [?%Z.eqb_eq ?%Z.eqb_eq]. apply (Hnd j i c b); congruence.
  - eapply does_bind_l; [by apply does_getb|]. simpl.
    destruct Hfl as [(_ & [Hf|Hf] & _)|[? _]]; [..|congruence]; rewrite Hf; simpl;
      (eapply does_bind_l; apply does_ret).
Qed.

Lemma recyclable_flags b : flags b = 0 ∨ flags b = 2 ∨ flags b = 6 →
  (Z.land (flags b) B_DIRTY =? 0) = negb (flags b =? 6).
Proof. by intros [-> |[-> | ->]]. Qed.

Lemma find_Some_elem (f : nat → bool) l : (∃ i, i ∈ l ∧ f i = true) → ∃ i, List.find f l = Some i.
Proof.
  intros (i & Hi & Hf). destruct (List.find f l) as [j|] eqn:Hj; [by exists j|].
  eapply find_none in Hj; [|by apply list_elem_of_In]. congruence.
Qed.

Lemma elem_of_free i : i ∈ free s ↔ (i < NBUF)%nat ∧ recyclable s i = true.
Proof.
  unfold free. rewrite elem_of_list_to_set, list_elem_of_In, filter_In, in_seq. naive_solver lia.
Qed.

#[local] Opaque free.

(** [bread] of a block that is not in the cache. *)
Lemma bread_miss n :
  cached s n = None → free s ≠ ∅ → 0 ≤ n < disksize s →
  ∃ i b, i ∈ free s ∧ bufs s !! i = Some b ∧
    does (bread 1 n) s i (at_buf s i (mk_buf 2 1 n (mk_slock 1 (bpid s)) 1 (disk s n))) [].
Proof using Hok.
  intros Hc Hfree Hn. destruct Hok as (Hlen & ((l & Hr) & Hdisk) & _ & Hnd & Hbufs).
  destruct (find_Some_elem (recyclable s) (reverse l)) as [i Hfind].
  { apply set_choose_L in Hfree as [j Hj]. exists j. apply elem_of_free in Hj as [Hj1 Hj2].
    split; [|done]. rewrite elem_of_reverse. by apply (ring_elem s). }
  pose proof (find_some _ _ Hfind) as [Hin Hrec]. unfold recyclable in Hrec.
  destruct (bufs s !! i) as [b|] eqn:Hb; [|done]. apply andb_true_iff in Hrec as [Href Hdirty].
  apply Z.eqb_eq in Href. pose proof (lookup_lt_Some _ _ _ Hb) as Hi. pose proof (Hbufs _ _ Hb) as Hbok.
  assert (block b = initsleeplock) as Hlk.
  { destruct Hbok as (_ & _ & Hh). case_bool_decide; naive_solver lia. }
  exists i, b. split_and!; [|done|].
  { apply elem_of_free. unfold recyclable. rewrite Hb, Href. rewrite Hlen in Hi. done. }
  unfold bread. eapply (does_bind_l _ _ _ i (at_buf s i (mk_buf 0 1 n (mk_slock 1 (bpid s)) 1 (bdata b)))).
  - unfold bget. eapply does_bind_l; [apply does_acquire|].
    eapply does_bind_l; [apply does_gets|]. fold (nx s HEAD).
    eapply does_bind_l; [eexists; split; [by apply find_cached_ring | reflexivity]|].
    destruct (List.find (cached_as s 1 n) l) as [j|] eqn:Hj.
    { apply find_some in Hj as [_ Hj]. unfold cached_as in Hj.
      destruct (bufs s !! j) as [c|] eqn:Hcj; [|done].
      apply andb_true_iff in Hj as [?%Z.eqb_eq ?%Z.eqb_eq]. rewrite cached_None in Hc. by destruct (Hc j c). }
    eapply does_bind_l; [apply does_gets|]. fold (pv s HEAD).
    eapply does_bind_l; [eexists; split; [by apply find_free_ring | reflexivity]|]. rewrite Hfind.
    rewrite (at_buf_id s i b) at 1 by done.
    eapply does_bind_l; [by apply does_updb|]. eapply does_bind_l; [apply does_release|].
    eapply does_bind_l; [by apply does_acquiresleep|]. apply does_ret.
  - eapply does_bind_l; [by apply does_getb|]. simpl.
    eapply does_bind_l; [|apply does_ret].
    refine (does_iderw_read s i Hi (mk_buf 0 1 n (mk_slock 1 (bpid s)) 1 (bdata b)) _ _ _ _); simpl; try done. lia.
Qed.

(** [brelse] of a buffer held once. *)
Lemma brelse_held i b :
  bufs s !! i = Some b → i ∈ H →
  ∃ s', does (brelse i) s () s' [] ∧ bufs s' = <[i := set_refcnt 0 (set_block initsleeplock b)]> (bufs s) ∧
    disk s' = disk s ∧ disksize s' = disksize s ∧ bpid s' = bpid s ∧ ∃ l, ring s' l.
Proof using Hok.
  intros Hb HiH. destruct Hok as (Hlen & ((l & Hr) & Hdisk) & _ & Hnd & Hbufs).
  pose proof (lookup_lt_Some _ _ _ Hb) as Hi. pose proof (Hbufs _ _ Hb) as Hbok.
  rewrite bool_decide_eq_true_2 in Hbok by done. destruct Hbok as (_ & _ & _ & Href & Hlk).
  assert (i ∈ l) as Hil by (apply (ring_elem s); [done | by rewrite <- Hlen]).
  apply list_elem_of_split in Hil as (l1 & l2 & ->).
  set (b' := set_refcnt 0 (set_block initsleeplock b)).
  assert (ring (at_buf s i b') (l1 ++ i :: l2)) as Hr' by done.
  destruct (relink_spec _ _ _ _ Hr') as (s' & Hs' & (Hb' & Hd' & Hz' & Hp' & _) & Hring).
  exists s'. split; [|split_and!; [done..|by eexists]].
  unfold brelse. rewrite (at_buf_id s i b) at 1 by done.
  eapply does_bind_l; [by apply does_holdingsleep|]. simpl negb.
  eapply does_bind_l; [by apply does_releasesleep|]. eapply does_bind_l; [apply does_acquire|].
  eapply does_bind_l; [by apply does_updb|]. eapply does_bind_l; [by apply does_getb|].
  simpl. rewrite Href. simpl. eapply does_bind_l; [|apply does_release].
  exists []. split; [|done]. exact Hs'.
Qed.

End ops.

(** ** The contract of the cache *)

(** The blocks look the same in [s'] as in [s]. *)
Definition same_blocks (s s' : bstate) : Prop :=
  disk s' = disk s ∧ disksize s' = disksize s ∧ bpid s' = bpid s ∧
  (∀ n, content s' n = content s n) ∧ (∀ n, dirty s' n = dirty s n).

Lemma same_blocks_trans s1 s2 s3 : same_blocks s1 s2 → same_blocks s2 s3 → same_blocks s1 s3.
Proof.
  intros (? & ? & ? & Hc & Hd) (? & ? & ? & Hc' & Hd'). by split_and!; congruence.
Qed.

Lemma buf_ok_ext s s' h b :
  disksize s' = disksize s → bpid s' = bpid s → disk s' = disk s → buf_ok s h b → buf_ok s' h b.
Proof. intros Hz Hp Hd. unfold buf_ok. by rewrite Hz, Hp, Hd. Qed.

Lemma ring_ext s s' l : lru_next s' = lru_next s → lru_prev s' = lru_prev s → ring s l → ring s' l.
Proof. intros Hn Hp. unfold ring, nx, pv. by rewrite Hn, Hp. Qed.

Lemma elem_of_cons_other (i j : nat) H : j ≠ i → j ∈ i :: H ↔ j ∈ H.
Proof. rewrite elem_of_cons. naive_solver. Qed.

#[local] Opaque free.

Section contract.
Context (s : bstate) (H : list nat) (Hok : cache_ok s H).

(** Replacing the buffer [i] in place. *)
Lemma cache_ok_at i b b' H' :
  bufs s !! i = Some b → no_dup_blocks (<[i := b']> (bufs s)) → NoDup H' →
  (∀ j, j ≠ i → j ∈ H' ↔ j ∈ H) → buf_ok s (bool_decide (i ∈ H')) b' → cache_ok (at_buf s i b') H'.
Proof using Hok.
  intros Hb Hnd HndH HH' Hb'. destruct Hok as (Hlen & ((l & Hr) & Hdisk) & _ & _ & Hbufs).
  split_and!; [by simpl; rewrite length_insert | by exists l | done | done | done |].
  intros j c Hj. simpl in Hj. rewrite list_lookup_insert_Some in Hj.
  destruct Hj as [(<- & <- & _)|[Hne Hj]]; [done|].
  specialize (Hbufs j c Hj). rewrite (bool_decide_ext _ _ (HH' j (not_eq_sym Hne))). done.
Qed.

Lemma free_at i b b' : bufs s !! i = Some b →
  free (at_buf s i b') = if (refcnt b' =? 0) && (Z.land (flags b') B_DIRTY =? 0)
                         then {[i]} ∪ free s else free s ∖ {[i]}.
Proof using Hok.
  intros Hb. pose proof (lookup_lt_Some _ _ _ Hb) as Hi. destruct Hok as (Hlen & _).
  apply set_eq. intros j. rewrite elem_of_free. unfold recyclable at 1. simpl.
  destruct (decide (j = i)) as [->|Hne].
  - rewrite list_lookup_insert_eq by done. rewrite <- Hlen. generalize (free s). intros F.
    destruct (_ && _); set_solver.
  - rewrite list_lookup_insert_ne by done. fold (recyclable s j). rewrite <- elem_of_free.
    generalize (free s). intros F. destruct (_ && _); set_solver.
Qed.

Lemma cached_held i b : bufs s !! i = Some b → dev b = 1 → cached s (blockno b) = Some b.
Proof using Hok.
  intros Hb Hd. destruct Hok as (_ & _ & _ & Hnd & _). apply cached_Some; [done|]. eauto.
Qed.

Lemma bread_effect n :
  0 ≤ n < disksize s → (∀ i b, i ∈ H → bufs s !! i = Some b → blockno b ≠ n) →
  is_Some (cached s n) ∨ free s ≠ ∅ →
  ∃ i s' b, does (bread 1 n) s i s' [] ∧ cache_ok s' (i :: H) ∧ same_blocks s s' ∧ i ∉ H ∧
    bufs s' !! i = Some b ∧ dev b = 1 ∧ blockno b = n ∧ bdata b = content s n ∧
    flags b = (if dirty s n then 6 else 2) ∧
    (∀ j, j ∈ H → bufs s' !! j = bufs s !! j) ∧ free s' = free s ∖ {[i]} ∧
    (i ∈ free s ↔ dirty s n = false).
Proof using Hok.
  intros Hn Hheld Hav. pose proof Hok as (Hlen & [_ Hdisk] & HndH & Hnd & Hbufs).
  destruct (cached s n) as [b|] eqn:Hc.
  - apply cached_Some in Hc as (i & Hb & Hd & Hbn); [|done].
    assert (i ∉ H) as HiH by (intros HiH; by apply (Hheld i b)).
    pose proof (lookup_lt_Some _ _ _ Hb) as Hi. pose proof (Hbufs _ _ Hb) as Hbok.
    rewrite bool_decide_eq_false_2 in Hbok by done. destruct Hbok as (Hl & Hfl & Href & Hlk & Hcl).
    assert (cached s n = Some b) as Hcb by (apply cached_Some; eauto).
    exists i, (at_buf s i (hold (bpid s) b)), (hold (bpid s) b).
    split_and!; simpl; try done.
    + by eapply bread_hit.
    + eapply cache_ok_at; [done | by eapply no_dup_insert | by constructor | by intros; apply elem_of_cons_other |].
      rewrite bool_decide_eq_true_2 by left. split_and!; simpl; try done.
    + split_and!; try done; intros m; unfold content, dirty, at_buf;
        rewrite (cached_insert_same s i b) by done; case_decide; try done; subst m; by rewrite Hbn, Hcb.
    + by rewrite list_lookup_insert_eq.
    + unfold content. by rewrite Hcb.
    + unfold dirty. rewrite Hcb. destruct Hfl as [(_ & [-> | ->] & _)|[? _]]; [done | done | congruence].
    + intros j Hj. rewrite list_lookup_insert_ne; [done|]. by intros ->.
    + by rewrite (free_at i b).
    + rewrite elem_of_free. unfold recyclable, dirty. rewrite Hb, Hcb, Href. rewrite Hlen in Hi.
      destruct Hfl as [(_ & [-> | ->] & _)|[? _]]; [..|congruence]; naive_solver.
  - destruct Hav as [[? ?]|Hfree]; [done|].
    destruct (bread_miss s H Hok n Hc Hfree Hn) as (i & b & Hif & Hb & Hdo).
    pose proof (lookup_lt_Some _ _ _ Hb) as Hi. pose proof Hif as [_ Hrec]%elem_of_free.
    unfold recyclable in Hrec. rewrite Hb in Hrec. apply andb_true_iff in Hrec as [Href Hfd].
    apply Z.eqb_eq in Href. pose proof (Hbufs _ _ Hb) as Hbok.
    assert (i ∉ H) as HiH.
    { intros HiH. rewrite bool_decide_eq_true_2 in Hbok by done. destruct Hbok as (_ & _ & _ & ? & _). lia. }
    rewrite bool_decide_eq_false_2 in Hbok by done. destruct Hbok as (Hl & Hfl & _ & Hlk & Hcl).
    set (b' := mk_buf 2 1 n (mk_slock 1 (bpid s)) 1 (disk s n)) in *.
    exists i, (at_buf s i b'), b'. split_and!; simpl; try done.
    + eapply cache_ok_at; [done | | by constructor | by intros; apply elem_of_cons_other |].
      * apply no_dup_insert_new; [done|]. by apply cached_None.
      * rewrite bool_decide_eq_true_2 by left. split_and!; simpl; auto.
    + assert (dev b = 1 → flags b = 2) as Hclean.
      { intros Hdb. destruct Hfl as [(_ & [?|Hf] & _)|[? _]]; [done | | congruence]. by rewrite Hf in Hfd. }
      split_and!; try done; intros m; unfold content, dirty, at_buf;
        rewrite (cached_insert_new s i b b') by done; case_decide as Hm; try (simpl in Hm; subst m; by rewrite Hc);
        (case_decide as Hmb; [|done]); destruct Hmb as [Hdb <-];
        rewrite (proj2 (cached_Some s (blockno b) b Hnd)) by eauto; specialize (Hclean Hdb).
      * rewrite Hcl by done. done.
      * by rewrite Hclean.
    + by rewrite list_lookup_insert_eq.
    + unfold content. by rewrite Hc.
    + unfold dirty. by rewrite Hc.
    + intros j Hj. rewrite list_lookup_insert_ne; [done|]. by intros ->.
    + by rewrite (free_at i b).
    + unfold dirty. by rewrite Hc.
Qed.

Lemma held_not_free i b : bufs s !! i = Some b → i ∈ H → i ∉ free s.
Proof using Hok.
  intros Hb HiH [_ Hrec]%elem_of_free. destruct Hok as (_ & _ & _ & _ & Hbufs). specialize (Hbufs _ _ Hb).
  rewrite bool_decide_eq_true_2 in Hbufs by done. destruct Hbufs as (_ & _ & _ & Href & _).
  unfold recyclable in Hrec. by rewrite Hb, Href in Hrec.
Qed.

Lemma held_buf i b : bufs s !! i = Some b → i ∈ H →
  length (bdata b) = 512%nat ∧ dev b = 1 ∧ (flags b = 2 ∨ flags b = 6) ∧ 0 ≤ blockno b < disksize s ∧
  refcnt b = 1 ∧ block b = mk_slock 1 (bpid s).
Proof using Hok.
  intros Hb HiH. destruct Hok as (_ & _ & _ & _ & Hbufs). specialize (Hbufs _ _ Hb).
  rewrite bool_decide_eq_true_2 in Hbufs by done.
  destruct Hbufs as (? & [(? & ? & ?)|[? _]] & ? & ? & ?); [done | congruence].
Qed.

End contract.

(** What a client sees of buffer [i]: its block, its data and whether it is pinned. *)
Definition holds (s : bstate) (i : nat) (n : Z) (d : list Z) (p : bool) : Prop :=
  ∃ b, bufs s !! i = Some b ∧ dev b = 1 ∧ blockno b = n ∧ bdata b = d ∧ flags b = if p then 6 else 2.

(** The number of buffers that can be recycled. *)
Definition nfree (s : bstate) : nat := size (free s).

(** The buffers in [H] are as they were. *)
Definition keeps (H : list nat) (s s' : bstate) : Prop := ∀ j, j ∈ H → bufs s' !! j = bufs s !! j.

Lemma keeps_holds H s s' i n d p : keeps H s s' → i ∈ H → holds s i n d p → holds s' i n d p.
Proof. intros Hk Hi (b & Hb & Hr). exists b. by rewrite Hk. Qed.

Lemma keeps_trans H s1 s2 s3 : keeps H s1 s2 → keeps H s2 s3 → keeps H s1 s3.
Proof. intros H1 H2 j Hj. by rewrite H2, H1. Qed.

(** Only buffer [i] of those in [H] may have changed. *)
Definition keeps_but (H : list nat) (i : nat) (s s' : bstate) : Prop :=
  ∀ j, j ∈ H → j ≠ i → bufs s' !! j = bufs s !! j.

(** The environment of the cache that no operation but a disk write changes. *)
Definition same_disk (s s' : bstate) : Prop :=
  disk s' = disk s ∧ disksize s' = disksize s ∧ bpid s' = bpid s.

Lemma bread_spec s H n :
  cache_ok s H → 0 ≤ n < disksize s → (∀ i d p, i ∈ H → ¬ holds s i n d p) →
  dirty s n = true ∨ (0 < nfree s)%nat →
  ∃ i s', does (bread 1 n) s i s' [] ∧ cache_ok s' (i :: H) ∧ same_blocks s s' ∧ i ∉ H ∧
    holds s' i n (content s n) (dirty s n) ∧ keeps H s s' ∧
    nfree s = ((if dirty s n then 0 else 1) + nfree s')%nat.
Proof.
  intros Hok Hn Hheld Hav.
  edestruct (bread_effect s H Hok n Hn) as (i & s' & b & Hdo & Hok' & Hsame & HiH & Hb & Hd & Hbn & Hdat & Hf & Hk & Hfree & Hfd).
  { intros i b HiH Hb Hbn. destruct (held_buf s H Hok i b Hb HiH) as (_ & Hd & Hf & _).
    destruct (Hheld i (bdata b) (flags b =? 6) HiH). exists b. split_and!; [done..|]. by destruct Hf as [-> | ->]. }
  { destruct Hav as [Hd|Hnf]; [left|right].
    - unfold dirty in Hd. by destruct (cached s n).
    - intros He. unfold nfree in Hnf. rewrite He, size_empty in Hnf. lia. }
  exists i, s'. split_and!; try done; [by exists b|]. unfold nfree. rewrite Hfree. destruct (dirty s n).
  - by rewrite difference_disjoint_L by (apply disjoint_singleton_r; naive_solver).
  - rewrite size_difference, size_singleton by (apply singleton_subseteq_l; naive_solver).
    assert (size (free s) ≠ 0%nat); [|lia]. intros He%size_empty_inv. assert (i ∈ free s) by naive_solver. set_solver.
Qed.


(** An update of a held buffer's data or of its dirty flag. *)
Lemma updb_spec s H i n d p (f : buf → buf) (d' : list Z) (p' : bool) :
  cache_ok s H → i ∈ H → holds s i n d p → length d' = 512%nat →
  (∀ b, bdata b = d → (flags b = if p then 6 else 2) →
     f b = set_flags (if p' then 6 else 2) (set_bdata d' b)) →
  ∃ s', does (updb i f) s () s' [] ∧ cache_ok s' H ∧ same_disk s s' ∧
    (∀ m, content s' m = if decide (m = n) then d' else content s m) ∧
    (∀ m, dirty s' m = if decide (m = n) then p' else dirty s m) ∧
    holds s' i n d' p' ∧ keeps_but H i s s' ∧ nfree s' = nfree s.
Proof.
  intros Hok HiH (b & Hb & Hd & Hn & Hdat & Hf) Hlen Hfb.
  destruct (held_buf s H Hok i b Hb HiH) as (Hl & _ & _ & Hrange & Href & Hlk).
  pose proof (lookup_lt_Some _ _ _ Hb) as Hi. pose proof Hok as (_ & _ & HndH & Hnd & _).
  set (b' := set_flags (if p' then 6 else 2) (set_bdata d' b)).
  exists (at_buf s i b'). split_and!; try done.
  - rewrite (at_buf_id s i b) at 1 by done. apply does_updb; auto.
  - eapply cache_ok_at; [done | done | by eapply no_dup_insert; eauto | done | done |].
    rewrite bool_decide_eq_true_2 by done. split_and!; simpl; try done. left. destruct p'; auto.
  - intros m. unfold content, at_buf. rewrite (cached_insert_same s i b b') by done. rewrite Hn. by case_decide.
  - intros m. unfold dirty, at_buf. rewrite (cached_insert_same s i b b') by done. rewrite Hn.
    case_decide; [by destruct p' | done].
  - exists b'. simpl. by rewrite list_lookup_insert_eq.
  - intros j _ Hj. simpl. by rewrite list_lookup_insert_ne.
  - unfold nfree. rewrite (free_at s H Hok i b) by done. simpl. rewrite Href. simpl.
    rewrite difference_disjoint_L; [done|]. apply disjoint_singleton_r. by eapply held_not_free.
Qed.

(** [t] is [s] after changes to the held buffer [i] of block [n], which now has the data [d]
    and is pinned or not as [p] says. *)
Definition edited (s : bstate) (H : list nat) (i : nat) (n : Z) (d : list Z) (p : bool) (t : bstate) : Prop :=
  cache_ok t H ∧ i ∈ H ∧ same_disk s t ∧
  (∀ m, content t m = if decide (m = n) then d else content s m) ∧
  (∀ m, dirty t m = if decide (m = n) then p else dirty s m) ∧
  holds t i n d p ∧ keeps_but H i s t ∧ nfree t = nfree s.

Lemma holds_content s H i n d p : cache_ok s H → holds s i n d p → content s n = d ∧ dirty s n = p.
Proof.
  intros Hok (b & Hb & Hd & <- & <- & Hf). unfold content, dirty. rewrite (cached_held s H Hok i b) by done.
  split; [done|]. rewrite Hf. by destruct p.
Qed.

Lemma edited_refl s H i n d p : cache_ok s H → i ∈ H → holds s i n d p → edited s H i n d p s.
Proof.
  intros Hok Hi Hh. destruct (holds_content s H i n d p Hok Hh) as [Hc Hd].
  split_and!; try done; intros m; case_decide; congruence.
Qed.

Lemma edited_updb s H i n d p t (f : buf → buf) (d' : list Z) (p' : bool) :
  edited s H i n d p t → length d' = 512%nat →
  (∀ b, bdata b = d → (flags b = if p then 6 else 2) →
     f b = set_flags (if p' then 6 else 2) (set_bdata d' b)) →
  ∃ t', does (updb i f) t () t' [] ∧ edited s H i n d' p' t'.
Proof.
  intros (Hok & Hi & (Hd & Hz & Hp) & Hc & Hdi & Hh & Hk & Hn) Hl Hf.
  destruct (updb_spec t H i n d p f d' p' Hok Hi Hh Hl Hf) as (t' & Hrun & Hok' & (Hd' & Hz' & Hp') & Hc' & Hdi' & Hh' & Hk' & Hn').
  exists t'. split; [done|]. split_and!; try done; try congruence.
  - split_and!; congruence.
  - intros m. rewrite Hc', Hc. by case_decide.
  - intros m. rewrite Hdi', Hdi. by case_decide.
  - intros j Hj Hne. rewrite Hk', Hk by done. done.
Qed.

(** Changing the data, and pinning the block. *)
Lemma edited_data s H i n d p t (f : list Z → list Z) :
  edited s H i n d p t → length (f d) = 512%nat →
  ∃ t', does (updb i (λ b, set_bdata (f (bdata b)) b)) t () t' [] ∧ edited s H i n (f d) p t'.
Proof.
  intros He Hl. eapply edited_updb; [done | done |]. intros b <- Hf. unfold set_flags. simpl. by rewrite <- Hf.
Qed.

Lemma edited_length s H i n d p t : edited s H i n d p t → length d = 512%nat.
Proof.
  intros (Hok & Hi & _ & _ & _ & (b & Hb & _ & _ & <- & _) & _). by destruct (held_buf t H Hok i b Hb Hi).
Qed.

Lemma edited_pin s H i n d p t : edited s H i n d p t →
  ∃ t', does (updb i (λ b, set_flags (Z.lor (flags b) B_DIRTY) b)) t () t' [] ∧ edited s H i n d true t'.
Proof.
  intros He. eapply edited_updb; [done | by eapply edited_length |]. intros b <- Hf. unfold set_flags. simpl.
  rewrite Hf. by destruct p.
Qed.

(** [bwrite] writes the data of a held buffer to its block of the disk. *)
Lemma bwrite_spec s H i n d p :
  cache_ok s H → i ∈ H → holds s i n d p →
  ∃ s', does (bwrite i) s () s' [(n, d)] ∧ cache_ok s' H ∧
    disk s' = (λ x, if x =? n then d else disk s x) ∧ disksize s' = disksize s ∧ bpid s' = bpid s ∧
    (∀ m, content s' m = content s m) ∧ (∀ m, dirty s' m = if decide (m = n) then false else dirty s m) ∧
    holds s' i n d false ∧ keeps_but H i s s' ∧ nfree s' = nfree s.
Proof.
  intros Hok HiH Hh. pose proof Hh as (b & Hb & Hd & Hn & Hdat & Hf).
  destruct (held_buf s H Hok i b Hb HiH) as (Hl & _ & Hfl & Hrange & Href & Hlk).
  pose proof (lookup_lt_Some _ _ _ Hb) as Hi. pose proof Hok as (Hlb & (Hr & Hdisk) & HndH & Hnd & Hbufs).
  set (b' := set_flags 2 b). rewrite <- Hn, <- Hdat.
  assert (holds s i (blockno b) (bdata b) p) as Hh' by (exists b; by split_and!).
  destruct (updb_spec s H i (blockno b) (bdata b) p (set_flags 2) (bdata b) false Hok HiH Hh' Hl)
    as (s1 & (tr & Hrun & _) & Hok1 & (Hs1 & Hs2 & Hs3) & Hcont & Hdirty & Hh1 & Hk & Hnf).
  { intros c Hc _. rewrite <- Hc. by destruct c. }
  assert (s1 = at_buf s i b') as ->.
  { rewrite (at_buf_id s i b) in Hrun at 1 by done.
    destruct (does_updb s i Hi b (set_flags 2) b' eq_refl) as (? & Hrun' & _). congruence. }
  exists (set_disk (λ x, if x =? blockno b then bdata b else disk s x) (at_buf s i b')).
  split_and!; try done.
  - rewrite (at_buf_id s i b) at 1 by done. exact (does_bwrite s i Hi b Hlk Hfl Hd (proj2 Hrange)).
  - destruct Hok1 as (H1 & (H2 & _) & H3 & H4 & H5). split_and!; try done.
    { intros m. simpl. destruct (m =? blockno b); auto. }
    intros j c Hc. specialize (H5 j c Hc). destruct H5 as (Hlc & Hfc & Hhc). split_and!; [done..|].
    case_bool_decide as Hj; [done|]. destruct Hhc as (? & ? & Hcl). split_and!; try done. intros Hf2. simpl.
    destruct (Z.eqb_spec (blockno c) (blockno b)) as [Heq|_]; [|by apply Hcl].
    destruct Hfc as [(Hdc & _)|[_ ?]]; [|congruence]. destruct Hj.
    replace j with i; [done|]. apply (H4 i j b' c); try done. simpl. by apply list_lookup_insert_eq.
  - intros m. transitivity (content (at_buf s i b') m).
    + unfold content at 1. change (cached (set_disk _ _) m) with (cached (at_buf s i b') m). simpl disk.
      unfold content. destruct (Z.eqb_spec m (blockno b)) as [->|]; [|done].
      rewrite (cached_held _ H Hok1 i b' : _ → _ → cached _ (blockno b) = _); [done | | done].
      simpl. by apply list_lookup_insert_eq.
    + rewrite Hcont. case_decide as Hm; [|done]. subst m. unfold content. by rewrite (cached_held s H Hok i b).
Qed.

(** [brelse] lets go of a held buffer, whose data must be on the disk unless it is pinned. *)
Lemma brelse_spec s H i n d p :
  cache_ok s (i :: H) → holds s i n d p → (p = false → d = disk s n) →
  ∃ s', does (brelse i) s () s' [] ∧ cache_ok s' H ∧ same_blocks s s' ∧ keeps H s s' ∧
    nfree s' = ((if p then 0 else 1) + nfree s)%nat.
Proof.
  intros Hok (b & Hb & Hd & Hn & Hdat & Hf) Hclean.
  assert (i ∈ i :: H) as HiH by left.
  destruct (held_buf s _ Hok i b Hb HiH) as (Hl & _ & Hfl & Hrange & Href & Hlk).
  pose proof (lookup_lt_Some _ _ _ Hb) as Hi. pose proof Hok as (Hlb & (Hr & Hdisk) & HndH & Hnd & Hbufs).
  apply NoDup_cons in HndH as [HiH' HndH].
  destruct (brelse_held s _ Hok i b Hb HiH) as (s' & Hdo & Hbs & Hd' & Hz & Hp & l & Hring).
  set (b' := set_refcnt 0 (set_block initsleeplock b)) in *.
  assert (∀ m, cached s' m = if decide (m = blockno b) then Some b' else cached s m) as Hcache.
  { intros m. rewrite <- (cached_insert_same s i b b') by done. unfold cached. by rewrite Hbs. }
  assert (cached s (blockno b) = Some b) as Hcb by (by eapply cached_held).
  exists s'. split_and!; try done.
  - split_and!; try done.
    + by rewrite Hbs, length_insert.
    + by exists l.
    + by rewrite Hd'.
    + rewrite Hbs. by eapply no_dup_insert; eauto.
    + intros j c Hj. apply (buf_ok_ext s); [done..|]. rewrite Hbs, list_lookup_insert_Some in Hj.
      destruct Hj as [(<- & <- & _)|[Hne Hj]].
      * rewrite bool_decide_eq_false_2 by done. split_and!; simpl; auto. intros Hf2.
        rewrite Hdat, Hn. apply Hclean. destruct p; [congruence | done].
      * specialize (Hbufs j c Hj). by rewrite (bool_decide_ext _ _ (elem_of_cons_other i j H (not_eq_sym Hne))) in Hbufs.
  - split_and!; try done; intros m; unfold content, dirty; rewrite Hcache, ?Hd';
      (case_decide as Hm; [|done]); by rewrite Hm, Hcb.
  - intros j Hj. rewrite Hbs, list_lookup_insert_ne; [done|]. by intros ->.
  - assert (free s' = free (at_buf s i b')) as Hfree.
    { apply set_eq. intros j. rewrite !elem_of_free. unfold recyclable. by rewrite Hbs. }
    assert (i ∉ free s) as Hnf by (by eapply held_not_free).
    unfold nfree. rewrite Hfree, (free_at s _ Hok i b) by done. subst b'. simpl. rewrite Hf. destruct p; simpl.
    + rewrite difference_disjoint_L; [done|]. by apply disjoint_singleton_r.
    + rewrite size_union, size_singleton; [done|]. by apply disjoint_singleton_l.
Qed.

(** ** Boot *)

(** The cache before [binit]: the zeroed data segment of the kernel. *)
Definition boot (d : Z → list Z) (size pid : Z) : bstate :=
  mk_bstate (replicate NBUF buf0) (replicate (S NBUF) O) (replicate (S NBUF) O) d size pid.

Definition booted (d : Z → list Z) (size pid : Z) : bstate :=
  mk_bstate (replicate NBUF buf0) (NBUF :: seq 0 (NBUF - 1) ++ [NBUF - 1]%nat) (seq 1 NBUF ++ [O]) d size pid.

Lemma binit_run d size pid : does binit (boot d size pid) () (booted d size pid) [].
Proof. exists []. split; [by vm_compute | done]. Qed.

Lemma booted_ok d size pid : (∀ n, length (d n) = 512%nat) → cache_ok (booted d size pid) [].
Proof.
  intros Hd. split_and!; try done.
  - exists (reverse (seq 0 NBUF)). split_and!; [by rewrite reverse_Permutation | done | done |].
    vm_compute. by repeat split.
  - constructor.
  - intros i j b c [-> _]%lookup_replicate ? ?. done.
  - intros i b [-> _]%lookup_replicate. rewrite bool_decide_eq_false_2 by (by intros ?%elem_of_nil).
    by split_and!; try (by right).
Qed.

Lemma booted_cached d size pid n : cached (booted d size pid) n = None.
Proof. apply cached_None. by intros i b [-> _]%lookup_replicate ?. Qed.

Lemma booted_content d size pid n : content (booted d size pid) n = d n.
Proof. unfold content. by rewrite booted_cached. Qed.

Lemma booted_dirty d size pid n : dirty (booted d size pid) n = false.
Proof. unfold dirty. by rewrite booted_cached. Qed.

Lemma booted_nfree d size pid : nfree (booted d size pid) = NBUF.
Proof. by vm_compute. Qed.

(** ** The cache as a disk *)

(** The two things kernel code does with a block, on its own. *)
Inductive request :=
  | Read (n : Z)
  | Write (n : Z) (d : list Z).

Definition serve (r : request) : M bstate (list Z) :=
  match r with
  | Read n => i ← bread 1 n ; b ← getb i ; brelse i ;; mret (bdata b)
  | Write n d => i ← bread 1 n ; updb i (set_bdata d) ;; bwrite i ;; brelse i ;; mret []
  end.

(** The same on a plain array of blocks. *)
Definition serve_spec (r : request) (d : Z → list Z) : list Z * (Z → list Z) :=
  match r with
  | Read n => (d n, d)
  | Write n x => ([], λ m, if m =? n then x else d m)
  end.

Definition valid (size : Z) (r : request) : Prop :=
  match r with
  | Read n => 0 ≤ n < size
  | Write n d => 0 ≤ n < size ∧ length d = 512%nat
  end.

Fixpoint serve_all (rs : list request) : M bstate (list (list Z)) :=
  match rs with
  | [] => mret []
  | r :: rs => a ← serve r ; l ← serve_all rs ; mret (a :: l)
  end.

Fixpoint serve_all_spec (rs : list request) (d : Z → list Z) : list (list Z) * (Z → list Z) :=
  match rs with
  | [] => ([], d)
  | r :: rs => let (a, d1) := serve_spec r d in let (l, d2) := serve_all_spec rs d1 in (a :: l, d2)
  end.

(** The cache stands for the disk [d], with nothing pinned. *)
Definition stands_for (s : bstate) (d : Z → list Z) : Prop :=
  cache_ok s [] ∧ (∀ n, content s n = d n) ∧ (∀ n, disk s n = d n) ∧ (∀ n, dirty s n = false) ∧
  nfree s = NBUF.

Lemma holds_getb s i n d p : holds s i n d p → ∃ b, bdata b = d ∧ does (getb i) s b s [].
Proof. intros (b & Hb & _ & _ & Hd & _). exists b. split; [done|]. exists []. unfold getb. by rewrite Hb. Qed.

Lemma serve_refines s d r :
  stands_for s d → valid (disksize s) r →
  ∃ s' w, does (serve r) s (serve_spec r d).1 s' w ∧ stands_for s' (serve_spec r d).2 ∧ disksize s' = disksize s.
Proof.
  intros (Hok & Hc & Hd & Hdirty & Hnf) Hv.
  assert (∃ n, 0 ≤ n < disksize s ∧ match r with Read m => m = n | Write m x => m = n ∧ length x = 512%nat end)
    as (n & Hn & Hr) by (destruct r; simpl in Hv; naive_solver).
  destruct (bread_spec s [] n) as (i & s1 & H1 & Hok1 & (Hd1 & Hz1 & Hp1 & Hc1 & Hdi1) & _ & Hh1 & _ & Hn1);
    [done.. | by intros ? ? ? ?%elem_of_nil | right; rewrite Hnf; vm_compute; lia |].
  rewrite Hdirty in Hh1, Hn1. rewrite Hc in Hh1. assert (i ∈ [i]) as Hi by left.
  destruct r as [m|m x]; [subst m | destruct Hr as [-> Hx]]; simpl.
  - destruct (holds_getb _ _ _ _ _ Hh1) as (b & Hb & Hget).
    destruct (brelse_spec s1 [] i n (d n) false Hok1 Hh1) as (s2 & H2 & Hok2 & (Hd2 & Hz2 & Hp2 & Hc2 & Hdi2) & _ & Hn2).
    { intros _. by rewrite Hd1, Hd. }
    exists s2, []. split_and!; [|split_and!; [done | intros; congruence.. | simpl in *; lia]|congruence].
    eapply does_bind_l; [done|]. eapply does_bind_l; [done|]. eapply does_bind_l; [done|]. rewrite Hb. apply does_ret.
  - destruct (updb_spec s1 [i] i n (d n) false (set_bdata x) x false Hok1 Hi Hh1 Hx)
      as (s2 & H2 & Hok2 & (Hd2 & Hz2 & Hp2) & Hc2 & Hdi2 & Hh2 & _ & Hn2).
    { intros b _ Hf. simpl in Hf. unfold set_flags. simpl. by rewrite <- Hf. }
    destruct (bwrite_spec s2 [i] i n x false Hok2 Hi Hh2) as (s3 & H3 & Hok3 & Hd3 & Hz3 & Hp3 & Hc3 & Hdi3 & Hh3 & _ & Hn3).
    destruct (brelse_spec s3 [] i n x false Hok3 Hh3) as (s4 & H4 & Hok4 & (Hd4 & Hz4 & Hp4 & Hc4 & Hdi4) & _ & Hn4).
    { intros _. by rewrite Hd3, Z.eqb_refl. }
    exists s4, [(n, x)]. split; [|split; [split_and!; [done|..|simpl in *; lia]|congruence]].
    + eapply does_bind_l; [done|]. eapply does_bind_l; [done|].
      eapply does_bind_r; [done|]. eapply does_bind_l; [done|]. apply does_ret.
    + intros m. rewrite Hc4, Hc3, Hc2. case_decide as Hm; [by rewrite Hm, Z.eqb_refl|].
      rewrite (proj2 (Z.eqb_neq _ _)) by done. congruence.
    + intros m. rewrite Hd4, Hd3. case_match; [done|]. congruence.
    + intros m. rewrite Hdi4, Hdi3. case_decide; [done|]. rewrite Hdi2. case_decide; [done | congruence].
Qed.

(** C4: The buffer cache is transparent. After [binit], any sequence of block
    reads ([bread], [brelse]) and block writes ([bread], [bwrite], [brelse]) within
    the disk runs without a panic, every read returns what a plain array of
    blocks would, and the disk ends up as that array. *)
Theorem bcache_refines_disk d size pid rs :
  (∀ n, length (d n) = 512%nat) → Forall (valid size) rs →
  ∃ s w, does (binit ;; serve_all rs) (boot d size pid) (serve_all_spec rs d).1 s w ∧
    ∀ n, disk s n = (serve_all_spec rs d).2 n ∧ content s n = (serve_all_spec rs d).2 n.
Proof.
  intros Hd Hrs.
  assert (∀ rs s d, stands_for s d → Forall (valid (disksize s)) rs →
    ∃ s' w, does (serve_all rs) s (serve_all_spec rs d).1 s' w ∧ stands_for s' (serve_all_spec rs d).2) as Hall.
  { clear. induction rs as [|r rs IH]; intros s d Hs Hrs; simpl.
    - exists s, []. split; [apply does_ret | done].
    - apply Forall_cons in Hrs as [Hr Hrs]. destruct (serve_refines s d r Hs Hr) as (s1 & w1 & H1 & Hs1 & Hz).
      destruct (serve_spec r d) as [a d1]. rewrite <- Hz in Hrs. destruct (IH s1 d1 Hs1 Hrs) as (s2 & w2 & H2 & Hs2).
      destruct (serve_all_spec rs d1) as [l d2]. exists s2, (w1 ++ w2). split; [|done].
      eapply does_bind; [done | | done]. eapply does_bind_r; [done | apply does_ret]. }
  destruct (Hall rs (booted d size pid) d) as (s & w & Hrun & Hs); [|done|].
  - split_and!; [by apply booted_ok | apply booted_content | done | apply booted_dirty | apply booted_nfree].
  - exists s, w. split; [eapply does_bind_l; [apply binit_run | done]|].
    intros n. destruct Hs as (_ & Hc & Hdisk & _). auto.
Qed.

Definition ex_disk : Z → list Z := λ n, replicate 512 (Z.land n 255).
Definition ex_requests : list request := [Read 3; Write 3 (replicate 512 7); Read 3; Read 4].

Lemma bcache_refines_disk_witness :
  ∃ s w, does (binit ;; serve_all ex_requests) (boot ex_disk 1000 1) (serve_all_spec ex_requests ex_disk).1 s w ∧
    ∀ n, disk s n = (serve_all_spec ex_requests ex_disk).2 n ∧ content s n = (serve_all_spec ex_requests ex_disk).2 n.
Proof.
  apply (bcache_refines_disk ex_disk 1000 1 ex_requests).
  - intros n. apply length_replicate.
  - repeat constructor; simpl; lia.
Defined.

End Bio.
