(* ===== verification/Log.v ===== *)
(** * log.c: the write-ahead log

    The in-memory log and its header block, group commit and recovery, over the
    buffer cache of Bio.v. What a crash leaves behind is the disk after a
    prefix of the disk writes of an operation; [log_crash_safe] recovers
    from every such disk. *)

From S2P Require Import Prelude Layout Memory Sleeplock Bio.

Module Log.
Import Bio.

(** [struct superblock] of fs.h *)
Record superblock := mk_superblock {
  sb_size : Z;
  nblocks : Z;
  ninodes : Z;
  nlog : Z;
  logstart : Z;
  inodestart : Z;
  bmapstart : Z;
}.

(** [memmove(sb, bp->data, sizeof( *sb))] *)
Definition superblock_of (d : list Z) : superblock :=
  mk_superblock (word_at d 0) (word_at d 1) (word_at d 2) (word_at d 3)
    (word_at d 4) (word_at d 5) (word_at d 6).

(** [readsb] of fs.c *)
Definition readsb (dev : Z) : M bstate superblock :=
  bp ← bread dev 1 ;
  b ← getb bp ;
  brelse bp ;;
  mret (superblock_of (bdata b)).

(** [struct log] and the cache below it. The block numbers in [block] are kept
    as the unsigned numbers [bread] takes. *)
Record lstate := mk_lstate {
  lbio : bstate;
  start : Z;
  size : Z;
  outstanding : Z;
  committing : Z;
  ldev : Z;
  lh_n : Z;
  lh_block : list Z;
}.

(** The state as the process with this pid runs it *)
Definition set_pid (pid : Z) (s : lstate) : lstate :=
  let b := lbio s in
  mk_lstate (mk_bstate (bufs b) (lru_next b) (lru_prev b) (disk b) (disksize b) pid)
    (start s) (size s) (outstanding s) (committing s) (ldev s) (lh_n s) (lh_block s).

Definition set_lbio (x : bstate) (s : lstate) : lstate :=
  mk_lstate x (start s) (size s) (outstanding s) (committing s) (ldev s) (lh_n s) (lh_block s).
Definition set_geometry (a b d : Z) (s : lstate) : lstate :=
  mk_lstate (lbio s) a b (outstanding s) (committing s) d (lh_n s) (lh_block s).
Definition set_outstanding (x : Z) (s : lstate) : lstate :=
  mk_lstate (lbio s) (start s) (size s) x (committing s) (ldev s) (lh_n s) (lh_block s).
Definition set_committing (x : Z) (s : lstate) : lstate :=
  mk_lstate (lbio s) (start s) (size s) (outstanding s) x (ldev s) (lh_n s) (lh_block s).
Definition set_n (x : Z) (s : lstate) : lstate :=
  mk_lstate (lbio s) (start s) (size s) (outstanding s) (committing s) (ldev s) x (lh_block s).
Definition set_blocks (x : list Z) (s : lstate) : lstate :=
  mk_lstate (lbio s) (start s) (size s) (outstanding s) (committing s) (ldev s) (lh_n s) x.

Definition bio {A} (m : M bstate A) : M lstate A := zoom lbio set_lbio m.

(** [log.lh.block[i]] and an assignment to it *)
Definition lh_get (i : nat) : M lstate Z := λ s,
  match lh_block s !! i with
  | Some b => Ok b s []
  | None => Crashed (Undefined "log.lh.block index") []
  end.
Definition lh_set (i : nat) (b : Z) : M lstate unit := λ s,
  if decide (i < length (lh_block s))%nat then Ok () (set_blocks (<[i := b]> (lh_block s)) s) []
  else Crashed (Undefined "log.lh.block index") [].

(** [for(i = 0; i < log.lh.n; i++)] *)
Definition each_logged (body : nat → M lstate unit) : M lstate unit :=
  n ← gets lh_n ; for_each (seq 0 (Z.to_nat n)) body.

(** [memmove(dst->data, src->data, BSIZE)] *)
Definition copy_data (dst src : nat) : M bstate unit :=
  b ← getb src ; updb dst (set_bdata (bdata b)).

Definition install_one (tail : nat) : M lstate unit :=
  d ← gets ldev ;
  st ← gets start ;
  lbuf ← bio (bread d (u32 (st + Z.of_nat tail + 1))) ;
  blk ← lh_get tail ;
  dbuf ← bio (bread d blk) ;
  bio (copy_data dbuf lbuf) ;;
  bio (bwrite dbuf) ;;
  bio (brelse lbuf) ;;
  bio (brelse dbuf).

Definition install_trans : M lstate unit := each_logged install_one.

(** The header block: [n], then [block[0]], [block[1]], ... *)
Definition read_head : M lstate unit :=
  d ← gets ldev ;
  st ← gets start ;
  buf ← bio (bread d (u32 st)) ;
  lh ← bio (getb buf) ;
  modify (set_n (s32 (word_at (bdata lh) 0))) ;;
  each_logged (λ i, lh_set i (word_at (bdata lh) (S i))) ;;
  bio (brelse buf).

Definition write_head : M lstate unit :=
  d ← gets ldev ;
  st ← gets start ;
  buf ← bio (bread d (u32 st)) ;
  n ← gets lh_n ;
  bio (updb buf (λ b, set_bdata (word_put (bdata b) 0 n) b)) ;;
  each_logged (λ i,
    blk ← lh_get i ;
    bio (updb buf (λ b, set_bdata (word_put (bdata b) (S i) blk) b))) ;;
  bio (bwrite buf) ;;
  bio (brelse buf).

Definition recover_from_log : M lstate unit :=
  read_head ;;
  install_trans ;;
  modify (set_n 0) ;;
  write_head.

(** [sizeof(struct logheader)] is 4 bytes for [n] and 4 for each block. *)
Definition initlog (dev : Z) : M lstate unit :=
  if BSIZE <=? 4 + 4 * LOGSIZE then panic "initlog: too big logheader" else
  sb ← bio (readsb dev) ;
  modify (set_geometry (s32 (logstart sb)) (s32 (nlog sb)) dev) ;;
  recover_from_log.

(** One pass of [begin_op]'s loop, holding [log.lock]. *)
Definition begin_op_pass (_ : unit) (s : lstate) : pass unit lstate unit :=
  if truth (committing s) then Wait Ch_log () s []
  else if LOGSIZE <? lh_n s + (outstanding s + 1) * MAXOPBLOCKS then Wait Ch_log () s []
  else Done () (set_outstanding (outstanding s + 1) s) [ERelease Llog].

Definition begin_op_loop : M lstate unit := λ s,
  match begin_op_pass () s with
  | Done _ s' tr => Ok () s' tr
  | Wait c _ s' tr => Blocked c s' tr
  end.

Definition begin_op : M lstate unit := acquire Llog ;; begin_op_loop.

Definition write_log_one (tail : nat) : M lstate unit :=
  d ← gets ldev ;
  st ← gets start ;
  to ← bio (bread d (u32 (st + Z.of_nat tail + 1))) ;
  blk ← lh_get tail ;
  from ← bio (bread d blk) ;
  bio (copy_data to from) ;;
  bio (bwrite to) ;;
  bio (brelse from) ;;
  bio (brelse to).

Definition write_log : M lstate unit := each_logged write_log_one.

Definition commit : M lstate unit :=
  n ← gets lh_n ;
  when (0 <? n)
    (write_log ;;
     write_head ;;
     install_trans ;;
     modify (set_n 0) ;;
     write_head).

Definition end_op : M lstate unit :=
  acquire Llog ;;
  modify (λ s, set_outstanding (outstanding s - 1) s) ;;
  c ← gets committing ;
  if truth c then panic "log.committing" else
  o ← gets outstanding ;
  (if o =? 0 then modify (set_committing 1) else wakeup Ch_log) ;;
  release Llog ;;
  when (o =? 0)
    (commit ;;
     acquire Llog ;;
     modify (set_committing 0) ;;
     wakeup Ch_log ;;
     release Llog).

(** [for(i = 0; i < log.lh.n; i++) if(log.lh.block[i] == b->blockno) break;]:
    the index it stops at. *)
Fixpoint absorb (bs : list Z) (b : Z) : nat :=
  match bs with
  | [] => O
  | x :: bs' => if x =? b then O else S (absorb bs' b)
  end.

Definition log_write (b : nat) : M lstate unit :=
  s ← get_state ;
  if (LOGSIZE <=? lh_n s) || (size s - 1 <=? lh_n s) then panic "too big a transaction" else
  if outstanding s <? 1 then panic "log_write outside of trans" else
  acquire Llog ;;
  bf ← bio (getb b) ;
  let i := absorb (take (Z.to_nat (lh_n s)) (lh_block s)) (blockno bf) in
  lh_set i (blockno bf) ;;
  when (Z.of_nat i =? lh_n s) (modify (λ s, set_n (lh_n s + 1) s)) ;;
  bio (updb b (λ b, set_flags (Z.lor (flags b) B_DIRTY) b)) ;;
  release Llog.

(** A log of [LOGSIZE] blocks has a header and room for this many. *)
Definition LOGMAX : Z := LOGSIZE - 1.

(** Arithmetic with the size of the log. *)
Ltac log_lia := unfold LOGMAX, LOGSIZE, MAXOPBLOCKS in *; lia.

(** ** Copying blocks *)

Lemma does_bio {A} (m : M bstate A) s a t w :
  does m (lbio s) a t w → does (bio m) s a (set_lbio t s) w.
Proof. apply does_zoom. Qed.

Definition need (s : bstate) (n : Z) : nat := if dirty s n then 0 else 1.

Lemma cache_ok_perm s H H' : H ≡ₚ H' → cache_ok s H → cache_ok s H'.
Proof.
  intros HH (? & [? ?] & Hnd & ? & Hb). split_and!; try done; [by rewrite <- HH|].
  intros i b Hi. specialize (Hb i b Hi).
  by rewrite (bool_decide_ext (i ∈ H') (i ∈ H)) by (by rewrite HH).
Qed.

(** An unpinned block that nobody holds is the same in the cache and on the disk. *)
Lemma clean_content s n : cache_ok s [] → dirty s n = false → content s n = disk s n.
Proof.
  intros (_ & _ & _ & Hnd & Hb) Hd. unfold content, dirty in *.
  destruct (cached s n) as [b|] eqn:Hc; [|done]. apply cached_Some in Hc as (i & Hi & Hdev & <-); [|done].
  specialize (Hb i b Hi). rewrite bool_decide_eq_false_2 in Hb by (by intros ?%elem_of_nil).
  destruct Hb as (_ & [(_ & [Hf|Hf] & _)|[? _]] & _ & _ & Hcl); [by apply Hcl | by rewrite Hf in Hd | congruence].
Qed.

Lemma bread_two s a b :
  cache_ok s [] → 0 ≤ a < disksize s → 0 ≤ b < disksize s → a ≠ b → (need s a + need s b ≤ nfree s)%nat →
  ∃ i j s1 s2, does (bread 1 a) s i s1 [] ∧ does (bread 1 b) s1 j s2 [] ∧ cache_ok s2 [j; i] ∧
    same_blocks s s2 ∧ holds s2 i a (content s a) (dirty s a) ∧ holds s2 j b (content s b) (dirty s b) ∧
    nfree s = (need s a + need s b + nfree s2)%nat.
Proof.
  intros Hok Ha Hb Hab Hn.
  destruct (bread_spec s [] a) as (i & s1 & H1 & Hok1 & Hs1 & _ & Hh1 & _ & Hn1);
    [done | done | by intros ? ? ? ?%elem_of_nil | unfold need in Hn; destruct (dirty s a); [by left | right; lia] |].
  pose proof Hs1 as (_ & Hz1 & _ & Hc1 & Hd1). unfold need in *.
  destruct (bread_spec s1 [i] b) as (j & s2 & H2 & Hok2 & Hs2 & Hji & Hh2 & Hk & Hn2);
    [done | by rewrite Hz1 | | rewrite Hd1; destruct (dirty s b); [by left | right; destruct (dirty s a); lia] |].
  { intros k d p ->%list_elem_of_singleton (bb & Hbb & _ & Hbn & _). destruct Hh1 as (bb' & Hbb' & _ & Hbn' & _).
    apply Hab. congruence. }
  exists i, j, s1, s2. rewrite Hc1, Hd1 in Hh2. rewrite Hd1 in Hn2. split_and!; try done.
  - by eapply same_blocks_trans.
  - eapply keeps_holds; [done | by left | done].
  - lia.
Qed.

Lemma copy_write s i j a b da pa db pb :
  cache_ok s [i; j] → holds s i a da pa → holds s j b db pb → a ≠ b → (pa = false → da = disk s a) →
  ∃ s1 s2 s3 s4, does (copy_data j i) s () s1 [] ∧ does (bwrite j) s1 () s2 [(b, da)] ∧
    does (brelse i) s2 () s3 [] ∧ does (brelse j) s3 () s4 [] ∧
    cache_ok s4 [] ∧ (∀ m, disk s4 m = upd_block (disk s) b da m) ∧ disksize s4 = disksize s ∧ bpid s4 = bpid s ∧
    (∀ m, content s4 m = upd_block (content s) b da m) ∧
    (∀ m, dirty s4 m = if decide (m = b) then false else dirty s m) ∧
    nfree s4 = ((if pa then 0 else 1) + 1 + nfree s)%nat.
Proof.
  intros Hok Hi Hj Hab Hcl. assert (i ∈ [i; j] ∧ j ∈ [i; j]) as [Hin Hjn] by set_solver.
  assert (i ≠ j) as Hij by (destruct Hok as (_ & _ & Hnd & _); intros ->; by apply NoDup_cons in Hnd as [[] _]; left).
  assert (length da = 512%nat) as Hda.
  { destruct Hi as (bi & Hbi & _ & _ & <- & _). by destruct (held_buf s _ Hok i bi Hbi Hin). }
  destruct (holds_getb _ _ _ _ _ Hi) as (bi & Hbi & Hget).
  destruct (updb_spec s [i; j] j b db pb (set_bdata da) da pb Hok Hjn Hj Hda)
    as (s1 & H1 & Hok1 & (Hd1 & Hz1 & Hp1) & Hc1 & Hdi1 & Hh1 & Hk1 & Hn1).
  { intros bb _ Hf. unfold set_flags. simpl. by rewrite <- Hf. }
  destruct (bwrite_spec s1 [i; j] j b da pb Hok1 Hjn Hh1)
    as (s2 & H2 & Hok2 & Hd2 & Hz2 & Hp2 & Hc2 & Hdi2 & Hh2 & Hk2 & Hn2).
  assert (holds s2 i a da pa) as Hi2.
  { destruct Hi as (bb & Hbb & Hr). exists bb. by rewrite Hk2, Hk1. }
  destruct (brelse_spec s2 [j] i a da pa Hok2 Hi2) as (s3 & H3 & Hok3 & (Hd3 & Hz3 & Hp3 & Hc3 & Hdi3) & Hk3 & Hn3).
  { intros Hpa. rewrite Hd2, (proj2 (Z.eqb_neq _ _) Hab), Hd1. auto. }
  assert (holds s3 j b da false) as Hj3 by (eapply keeps_holds; [done | by left | done]).
  destruct (brelse_spec s3 [] j b da false Hok3 Hj3) as (s4 & H4 & Hok4 & (Hd4 & Hz4 & Hp4 & Hc4 & Hdi4) & _ & Hn4).
  { intros _. by rewrite Hd3, Hd2, Z.eqb_refl. }
  exists s1, s2, s3, s4. split_and!; try done; try congruence; [..|lia].
  - unfold copy_data. eapply does_bind_l; [done|]. by rewrite Hbi.
  - intros m. rewrite Hd4, Hd3, Hd2, Hd1. done.
  - intros m. rewrite Hc4, Hc3, Hc2, Hc1. unfold upd_block. case_decide as Hm; [by rewrite Hm, Z.eqb_refl|].
    by rewrite (proj2 (Z.eqb_neq _ _) Hm).
  - intros m. rewrite Hdi4, Hdi3, Hdi2, Hdi1. by case_decide.
Qed.

(** ** Sequences of block writes *)

(** [t] is [t0] after the writes [w], seen on the disk, through the cache and in
    what is pinned. *)
Definition moved (t0 : bstate) (w : list (Z * list Z)) (t : bstate) : Prop :=
  cache_ok t [] ∧ disksize t = disksize t0 ∧ bpid t = bpid t0 ∧
  (∀ m, disk t m = apply_writes (disk t0) w m) ∧
  (∀ m, content t m = apply_writes (content t0) w m) ∧
  (∀ m, dirty t m = dirty t0 m && negb (bool_decide (m ∈ w.*1))) ∧
  (nfree t0 ≤ nfree t)%nat ∧ (∀ m, dirty t0 m = true → dirty t m = false → (nfree t0 < nfree t)%nat).

Lemma moved_refl t : cache_ok t [] → moved t [] t.
Proof. intros Hok. split_and!; try done; [|congruence]. intros m. simpl. by destruct (dirty t m). Qed.

Lemma moved_trans t0 w1 t1 w2 t2 : moved t0 w1 t1 → moved t1 w2 t2 → moved t0 (w1 ++ w2) t2.
Proof.
  intros (_ & Hz1 & Hp1 & Hd1 & Hc1 & Hdi1 & Hn1 & Hf1) (Hok & Hz2 & Hp2 & Hd2 & Hc2 & Hdi2 & Hn2 & Hf2).
  split_and!; try done; try congruence; [..|lia|].
  - intros m. rewrite apply_writes_app, Hd2. by apply apply_writes_ext.
  - intros m. rewrite apply_writes_app, Hc2. by apply apply_writes_ext.
  - intros m. rewrite Hdi2, Hdi1, <- andb_assoc, <- negb_orb. do 2 f_equal. rewrite fmap_app.
    rewrite <- bool_decide_or. apply bool_decide_ext. by rewrite elem_of_app.
  - intros m H0 H2. destruct (dirty t1 m) eqn:H1; [specialize (Hf2 m H1 H2) | specialize (Hf1 m H0 H1)]; lia.
Qed.

Lemma need_moved t0 w t m k : moved t0 w t → (k + need t0 m ≤ nfree t0)%nat → (k + need t m ≤ nfree t)%nat.
Proof.
  intros (_ & _ & _ & _ & _ & _ & Hn & Hf) Hk. unfold need in *.
  destruct (dirty t m) eqn:Ht; [destruct (dirty t0 m); lia|].
  destruct (dirty t0 m) eqn:H0; [specialize (Hf m H0 Ht)|]; lia.
Qed.

(** Copying one block to another, whichever of the two is read first. *)
Lemma copy_moved t i j s2 a b :
  cache_ok t [] → a ≠ b → same_blocks t s2 → cache_ok s2 [i; j] →
  holds s2 i a (content t a) (dirty t a) → holds s2 j b (content t b) (dirty t b) →
  nfree t = (need t a + need t b + nfree s2)%nat →
  ∃ s3 s4 s5 t', does (copy_data j i) s2 () s3 [] ∧ does (bwrite j) s3 () s4 [(b, content t a)] ∧
    does (brelse i) s4 () s5 [] ∧ does (brelse j) s5 () t' [] ∧ moved t [(b, content t a)] t'.
Proof.
  intros Hok Hab (Hd & Hz & Hp & Hc & Hdi) Hok2 Hi Hj Hn.
  destruct (copy_write s2 i j a b (content t a) (dirty t a) (content t b) (dirty t b))
    as (s3 & s4 & s5 & t' & H3 & H4 & H5 & H6 & Hok' & Hd' & Hz' & Hp' & Hc' & Hdi' & Hn'); try done.
  { intros Hda. rewrite Hd. by apply clean_content. }
  exists s3, s4, s5, t'. split_and!; try done. split_and!; try done; try congruence.
  - intros m. rewrite Hd'. simpl. unfold upd_block. by rewrite Hd.
  - intros m. rewrite Hc'. simpl. unfold upd_block. by rewrite Hc.
  - intros m. rewrite Hdi', Hdi. simpl. case_decide as Hm.
    + subst. rewrite bool_decide_eq_true_2 by left. by rewrite andb_false_r.
    + rewrite bool_decide_eq_false_2 by (by intros ?%list_elem_of_singleton). by rewrite andb_true_r.
  - unfold need in Hn. destruct (dirty t a), (dirty t b); lia.
  - intros m H0 H1. rewrite Hdi' in H1. case_decide as Hm; [|rewrite Hdi in H1; congruence]. subst m.
    unfold need in Hn. rewrite H0 in Hn. destruct (dirty t a); lia.
Qed.

(** The blocks of the transaction. *)
Definition logged (s : lstate) : list Z := take (Z.to_nat (lh_n s)) (lh_block s).

Definition header_ok (s : lstate) : Prop := 0 ≤ lh_n s ≤ LOGMAX ∧ length (lh_block s) = Z.to_nat LOGSIZE.

(** The geometry of a log: it lies on the disk, after the super block. *)
Definition geometry_ok (s : lstate) : Prop :=
  ldev s = 1 ∧ 1 < start s ∧ start s + LOGMAX < disksize (lbio s) ∧ disksize (lbio s) < 2 ^ 31.

(** A block outside the log. *)
Definition home (s : lstate) (b : Z) : Prop :=
  1 < b < disksize (lbio s) ∧ (b < start s ∨ start s + LOGMAX < b).

Lemma logged_lookup s i : header_ok s → (i < Z.to_nat (lh_n s))%nat →
  ∃ b, logged s !! i = Some b ∧ lh_block s !! i = Some b.
Proof.
  intros [Hn Hl] Hi. destruct (lookup_lt_is_Some_2 (lh_block s) i) as [b Hb]; [log_lia|].
  exists b. split; [|done]. unfold logged. by rewrite lookup_take_lt.
Qed.

Lemma length_logged s : header_ok s → length (logged s) = Z.to_nat (lh_n s).
Proof. intros [Hn Hl]. unfold logged. rewrite length_take. log_lia. Qed.

Lemma does_lh_get s i b : lh_block s !! i = Some b → does (lh_get i) s b s [].
Proof. intros Hb. exists []. unfold lh_get. by rewrite Hb. Qed.

Lemma does_each_logged (I : nat → lstate → list (Z * list Z) → Prop) body s :
  (∀ k s' w, (k < Z.to_nat (lh_n s))%nat → I k s' w →
     ∃ s'' w', does (body k) s' () s'' w' ∧ I (k + 1)%nat s'' (w ++ w')) →
  I O s [] → ∃ s' w, does (each_logged body) s () s' w ∧ I (Z.to_nat (lh_n s)) s' w.
Proof.
  intros Hb HI. destruct (does_for_seq I _ body s Hb HI) as (s' & w & H & HI').
  exists s', w. split; [|done]. eapply does_bind_l; [apply does_gets | done].
Qed.

(** ** The header block *)

(** The words [ws] stored one after the other from word [i]. *)
Fixpoint put_words (d : list Z) (i : nat) (ws : list Z) : list Z :=
  match ws with
  | [] => d
  | w :: ws' => put_words (word_put d i w) (S i) ws'
  end.

Definition head_data (n : Z) (bl : list Z) (d : list Z) : list Z := put_words (word_put d 0 n) 1 bl.

Lemma put_words_snoc d i ws w : put_words d i (ws ++ [w]) = word_put (put_words d i ws) (i + length ws) w.
Proof.
  revert d i. induction ws as [|x ws IH]; intros d i; simpl; [by rewrite Nat.add_0_r|].
  rewrite IH. f_equal. lia.
Qed.

Lemma length_put_words d i ws : (4 * (i + length ws) ≤ length d)%nat → length (put_words d i ws) = length d.
Proof.
  revert d i. induction ws as [|x ws IH]; intros d i Hl; simpl in *; [done|].
  rewrite IH; rewrite length_word_put; lia.
Qed.

Lemma word_at_put_words d i ws j : (4 * (i + length ws) ≤ length d)%nat →
  word_at (put_words d i ws) j =
    if decide (i ≤ j < i + length ws)%nat then u32 (default 0 (ws !! (j - i)%nat)) else word_at d j.
Proof.
  revert d i. induction ws as [|x ws IH]; intros d i Hl; cbn [put_words length] in *.
  - by rewrite decide_False by lia.
  - rewrite IH by (rewrite length_word_put; lia). destruct (decide (j = i)) as [->|Hne].
    + rewrite decide_False, decide_True by lia. rewrite Nat.sub_diag. simpl. rewrite word_at_put_same by lia. done.
    + rewrite word_at_put_other by lia. destruct (decide (S i ≤ j < S i + length ws)%nat).
      * rewrite decide_True by lia. replace (j - i)%nat with (S (j - S i)) by lia. done.
      * by rewrite decide_False by lia.
Qed.

(** ** The phases of a commit *)

(** The [i]-th block of the log proper. *)
Definition log_block (L : Z) (i : nat) : Z := L + Z.of_nat i + 1.

Definition log_writes (c : Z → list Z) (L : Z) (bl : list Z) : list (Z * list Z) :=
  imap (λ i b, (log_block L i, c b)) bl.
Definition install_writes (c : Z → list Z) (L : Z) (bl : list Z) : list (Z * list Z) :=
  imap (λ i b, (b, c (log_block L i))) bl.

Lemma log_writes_blocks c L bl m : m ∈ (log_writes c L bl).*1 → L < m ≤ L + length bl.
Proof.
  unfold log_writes. intros ([? ?] & -> & (i & b & [= -> ->] & Hi)%elem_of_lookup_imap)%list_elem_of_fmap.
  apply lookup_lt_Some in Hi. unfold log_block. simpl. lia.
Qed.

Lemma install_writes_blocks c L bl : (install_writes c L bl).*1 = bl.
Proof.
  unfold install_writes. apply list_eq. intros i. rewrite list_lookup_fmap, list_lookup_imap. by destruct (bl !! i).
Qed.

Lemma take_S_lookup {A} (l : list A) k x : l !! k = Some x → take (k + 1) l = take k l ++ [x].
Proof. intros Hx. rewrite Nat.add_1_r. by apply take_S_r. Qed.

Lemma elem_of_take_fst (w : list (Z * list Z)) k m : m ∈ (take k w).*1 → m ∈ w.*1.
Proof. intros Hm. rewrite <- (take_drop k w), fmap_app. apply elem_of_app. by left. Qed.

Section phases.
Context (s : lstate) (Hok0 : cache_ok (lbio s) []) (Hhdr : header_ok s) (Hgeo : geometry_ok s).
Context (Hhome : Forall (home s) (logged s)).
Context (Hlog : ∀ i : nat, (i ≤ Z.to_nat LOGMAX)%nat → dirty (lbio s) (start s + Z.of_nat i) = false).
Context (Hfree : ∀ b, b ∈ logged s → (1 + need (lbio s) b ≤ nfree (lbio s))%nat).

(** One round of a copying loop that has made the writes [w]. *)
Lemma phase_round k b w t :
  logged s !! k = Some b → moved (lbio s) w t →
  let a := log_block (start s) k in
  cache_ok t [] ∧ 0 ≤ a < disksize t ∧ 0 ≤ b < disksize t ∧ a ≠ b ∧ (need t a + need t b ≤ nfree t)%nat ∧
  u32 (start s + Z.of_nat k + 1) = a ∧ u32 b = b.
Proof using Hhdr Hgeo Hhome Hlog Hfree.
  intros Hk Hm a. pose proof Hm as (Hok & Hz & _ & _ & _ & Hd & _).
  pose proof (lookup_lt_Some _ _ _ Hk) as Hlt. rewrite length_logged in Hlt by done.
  destruct Hhdr as [Hn _]. destruct Hgeo as (_ & Hs1 & Hs2 & Hs3).
  destruct (proj1 (Forall_lookup _ _) Hhome k b Hk) as [Hb1 Hb2].
  assert (need t a = 1%nat) as Ha.
  { unfold need. rewrite Hd. unfold a, log_block. replace (start s + Z.of_nat k + 1) with (start s + Z.of_nat (k + 1)) by lia.
    by rewrite Hlog by lia. }
  split_and!; try done; unfold a, log_block in *; rewrite ?Hz; try lia.
  - rewrite Ha. eapply need_moved; [done|]. apply Hfree. by eapply list_elem_of_lookup_2.
  - apply u32_small. lia.
  - apply u32_small. lia.
Qed.

Lemma install_trans_spec :
  ∃ t, does install_trans s () (set_lbio t s) (install_writes (content (lbio s)) (start s) (logged s)) ∧
    moved (lbio s) (install_writes (content (lbio s)) (start s) (logged s)) t.
Proof using All.
  set (W := install_writes _ _ _). destruct (does_each_logged
    (λ k s' w, ∃ t, s' = set_lbio t s ∧ moved (lbio s) w t ∧ w = take k W) install_one s)
    as (s' & w & Hrun & t & -> & Hm & Hw).
  - intros k s' w Hk (t & -> & Hm & Hw). destruct (logged_lookup s k Hhdr Hk) as (b & Hb & Hlb).
    destruct (phase_round k b w t Hb Hm) as (Hok & Ha & Hbr & Hab & Hn & Hu & _).
    destruct (bread_two t _ b Hok Ha Hbr Hab Hn) as (i & j & s1 & s2 & H1 & H2 & Hok2 & Hsame & Hhi & Hhj & Hnf).
    destruct (copy_moved t i j s2 _ b Hok Hab Hsame) as (s3 & s4 & s5 & t' & H3 & H4 & H5 & H6 & Hm'); try done.
    { eapply cache_ok_perm, Hok2. apply Permutation_swap. }
    assert (content t (log_block (start s) k) = content (lbio s) (log_block (start s) k)) as Hc.
    { destruct Hm as (_ & _ & _ & _ & -> & _). apply apply_writes_other. rewrite Hw.
      intros Hin%elem_of_take_fst. unfold W in Hin. rewrite install_writes_blocks in Hin.
      pose proof (proj1 (Forall_forall _ _) Hhome _ Hin) as [_ Hh]. unfold log_block in Hh.
      destruct Hhdr. lia. }
    rewrite Hc in H4, Hm'.
    exists (set_lbio t' s), [(b, content (lbio s) (log_block (start s) k))]. split.
    + destruct Hgeo as [Hdev _].
      eapply does_bind_l; [apply does_gets|]. eapply does_bind_l; [apply does_gets|]. simpl. rewrite Hdev, Hu.
      eapply does_bind_l; [by apply does_bio|]. eapply does_bind_l; [by apply does_lh_get|].
      eapply does_bind_l; [apply does_bio; simpl; exact H2|].
      eapply does_bind_l; [apply does_bio; simpl; exact H3|].
      eapply does_bind_r; [apply does_bio; simpl; exact H4|].
      eapply does_bind_l; [apply does_bio; simpl; exact H5|]. exact (does_bio (brelse j) (set_lbio s5 s) () t' [] H6).
    + exists t'. split_and!; [done | by eapply moved_trans|]. rewrite (take_S_lookup W k (b, content (lbio s) (log_block (start s) k))).
      * by rewrite Hw.
      * unfold W, install_writes. by rewrite list_lookup_imap, Hb.
  - exists (lbio s). split_and!; [by destruct s | by apply moved_refl | done].
  - exists t. rewrite take_ge in Hw by (unfold W, install_writes; rewrite length_imap, length_logged by done; lia).
    by subst w.
Qed.

Lemma write_log_spec :
  ∃ t, does write_log s () (set_lbio t s) (log_writes (content (lbio s)) (start s) (logged s)) ∧
    moved (lbio s) (log_writes (content (lbio s)) (start s) (logged s)) t.
Proof using All.
  set (W := log_writes _ _ _). destruct (does_each_logged
    (λ k s' w, ∃ t, s' = set_lbio t s ∧ moved (lbio s) w t ∧ w = take k W) write_log_one s)
    as (s' & w & Hrun & t & -> & Hm & Hw).
  - intros k s' w Hk (t & -> & Hm & Hw). destruct (logged_lookup s k Hhdr Hk) as (b & Hb & Hlb).
    destruct (phase_round k b w t Hb Hm) as (Hok & Ha & Hbr & Hab & Hn & Hu & _).
    destruct (bread_two t _ b Hok Ha Hbr Hab Hn) as (i & j & s1 & s2 & H1 & H2 & Hok2 & Hsame & Hhi & Hhj & Hnf).
    destruct (copy_moved t j i s2 b _ Hok (not_eq_sym Hab) Hsame) as (s3 & s4 & s5 & t' & H3 & H4 & H5 & H6 & Hm');
      try done; [lia|].
    assert (content t b = content (lbio s) b) as Hc.
    { destruct Hm as (_ & _ & _ & _ & -> & _). apply apply_writes_other. rewrite Hw.
      intros Hin%elem_of_take_fst%log_writes_blocks. rewrite length_logged in Hin by done.
      destruct (proj1 (Forall_lookup _ _) Hhome k b Hb) as [_ Hh]. destruct Hhdr. lia. }
    rewrite Hc in H4, Hm'.
    exists (set_lbio t' s), [(log_block (start s) k, content (lbio s) b)]. split.
    + destruct Hgeo as [Hdev _].
      eapply does_bind_l; [apply does_gets|]. eapply does_bind_l; [apply does_gets|]. simpl. rewrite Hdev, Hu.
      eapply does_bind_l; [by apply does_bio|]. eapply does_bind_l; [by apply does_lh_get|].
      eapply does_bind_l; [apply does_bio; simpl; exact H2|].
      eapply does_bind_l; [apply does_bio; simpl; exact H3|].
      eapply does_bind_r; [apply does_bio; simpl; exact H4|].
      eapply does_bind_l; [apply does_bio; simpl; exact H5|].
      exact (does_bio (brelse i) (set_lbio s5 s) () t' [] H6).
    + exists t'. split_and!; [done | by eapply moved_trans|].
      rewrite (take_S_lookup W k (log_block (start s) k, content (lbio s) b)).
      * by rewrite Hw.
      * unfold W, log_writes. by rewrite list_lookup_imap, Hb.
  - exists (lbio s). split_and!; [by destruct s | by apply moved_refl | done].
  - exists t. rewrite take_ge in Hw by (unfold W, log_writes; rewrite length_imap, length_logged by done; lia).
    by subst w.
Qed.

End phases.

Lemma write_head_spec s :
  cache_ok (lbio s) [] → header_ok s → geometry_ok s → dirty (lbio s) (start s) = false →
  (0 < nfree (lbio s))%nat →
  let W := [(start s, head_data (lh_n s) (logged s) (content (lbio s) (start s)))] in
  ∃ t, does write_head s () (set_lbio t s) W ∧ moved (lbio s) W t.
Proof.
  intros Hok Hhdr Hgeo Hdirty Hn W. pose proof Hgeo as (Hdev & Hs1 & Hs2 & Hs3). pose proof Hhdr as [Hn1 Hn2].
  set (L := start s) in *. assert (u32 L = L) as Hu by (apply u32_small; log_lia).
  destruct (bread_spec (lbio s) [] L) as (i & s1 & H1 & Hok1 & Hs & _ & Hh1 & _ & Hnf1);
    [done | log_lia | by intros ? ? ? ?%elem_of_nil | by right |].
  rewrite Hdirty in Hh1, Hnf1. set (d0 := content (lbio s) L) in *.
  assert (i ∈ [i]) as Hi by left. pose proof (edited_refl s1 [i] i L d0 false Hok1 Hi Hh1) as He1.
  pose proof (edited_length _ _ _ _ _ _ _ He1) as Hd0.
  destruct (edited_data s1 [i] i L d0 false s1 (λ d, word_put d 0 (lh_n s)) He1) as (s2 & H2 & He2).
  { by rewrite length_word_put; rewrite Hd0; [|lia]. }
  destruct (does_each_logged (λ k s' w, w = [] ∧ ∃ t, s' = set_lbio t s ∧
      edited s1 [i] i L (put_words (word_put d0 0 (lh_n s)) 1 (take k (logged s))) false t)
    (λ k, blk ← lh_get k ; bio (updb i (λ b, set_bdata (word_put (bdata b) (S k) blk) b))) (set_lbio s2 s))
    as (s3 & w & H3 & -> & t3 & -> & He3).
  - intros k s' w Hk (-> & t & -> & He). simpl in Hk. destruct (logged_lookup s k Hhdr Hk) as (b & Hb & Hlb).
    pose proof (edited_length _ _ _ _ _ _ _ He) as Hlen.
    destruct (edited_data s1 [i] i L _ false t (λ d, word_put d (S k) b) He) as (t' & Ht & He').
    { rewrite length_word_put; [done|]. log_lia. }
    exists (set_lbio t' s), []. split.
    + eapply does_bind_l; [by apply does_lh_get|]. exact (does_bio _ (set_lbio t s) () t' [] Ht).
    + split; [done|]. exists t'. split; [done|]. rewrite (take_S_lookup _ _ b Hb), put_words_snoc.
      rewrite length_take_le by (rewrite length_logged by done; simpl in Hk; lia). done.
  - split; [done|]. exists s2. split; [done|]. exact He2.
  - rewrite take_ge in He3 by (rewrite length_logged by done; done).
    fold (head_data (lh_n s) (logged s) d0) in He3. set (d1 := head_data _ _ _) in *.
    destruct He3 as (Hok3 & _ & (Hd3 & Hz3 & Hp3) & Hc3 & Hdi3 & Hh3 & _ & Hn3).
    destruct (bwrite_spec t3 [i] i L d1 false Hok3 Hi Hh3) as (s4 & H4 & Hok4 & Hd4 & Hz4 & Hp4 & Hc4 & Hdi4 & Hh4 & _ & Hn4).
    destruct (brelse_spec s4 [] i L d1 false Hok4 Hh4) as (t & H5 & Hok5 & (Hd5 & Hz5 & Hp5 & Hc5 & Hdi5) & _ & Hn5).
    { intros _. by rewrite Hd4, Z.eqb_refl. }
    destruct Hs as (Hd & Hz & Hp & Hc & Hdi).
    exists t. split.
    + eapply does_bind_l; [apply does_gets|]. eapply does_bind_l; [apply does_gets|]. rewrite Hdev. fold L. rewrite Hu.
      eapply does_bind_l; [by apply does_bio|]. eapply does_bind_l; [apply does_gets|].
      eapply does_bind_l; [apply does_bio; simpl; exact H2|]. eapply does_bind_l; [exact H3|].
      eapply does_bind_r; [apply does_bio; simpl; exact H4|].
      exact (does_bio _ (set_lbio s4 s) () t [] H5).
    + split_and!; try done; try congruence; [..|simpl in *; lia|].
      * intros m. rewrite Hd5, Hd4, Hd3, Hd. done.
      * intros m. rewrite Hc5, Hc4, Hc3, Hc. simpl. unfold upd_block.
        case_decide as Hm; [by rewrite Hm, Z.eqb_refl | by rewrite (proj2 (Z.eqb_neq _ _) Hm)].
      * intros m. rewrite Hdi5, Hdi4, Hdi3, Hdi. simpl. case_decide as Hm.
        { subst. by rewrite Hdirty. }
        rewrite bool_decide_eq_false_2 by (by intros ?%list_elem_of_singleton). by rewrite andb_true_r.
      * intros m Hm1 Hm2. rewrite Hdi5, Hdi4, Hdi3, Hdi in Hm2. case_decide; congruence.
Qed.


(** ** Commit *)

(** A transaction that may commit: the logged blocks are the pinned ones, they
    are outside the log, and a buffer is left to copy them through. *)
Definition commit_ready (s : lstate) : Prop :=
  cache_ok (lbio s) [] ∧ header_ok s ∧ geometry_ok s ∧ Forall (home s) (logged s) ∧
  (∀ m, dirty (lbio s) m = true ↔ m ∈ logged s) ∧ (0 < nfree (lbio s))%nat.

Definition head1 (c : Z → list Z) (L : Z) (bl : list Z) : list Z := head_data (length bl) bl (c L).
Definition head0 (c : Z → list Z) (L : Z) (bl : list Z) : list Z := head_data 0 [] (head1 c L bl).

(** The disk writes of a commit of the blocks [bl] with contents [c]. *)
Definition commit_writes (c : Z → list Z) (L : Z) (bl : list Z) : list (Z * list Z) :=
  log_writes c L bl ++ [(L, head1 c L bl)] ++ ((λ b, (b, c b)) <$> bl) ++ [(L, head0 c L bl)].

Lemma log_area_clean s i : commit_ready s → (i ≤ Z.to_nat LOGMAX)%nat → dirty (lbio s) (start s + Z.of_nat i) = false.
Proof.
  intros (_ & _ & _ & Hhome & Hd & _) Hi. apply not_true_is_false. rewrite Hd. intros Hin.
  destruct (proj1 (Forall_forall _ _) Hhome _ Hin) as [_ Hb]. log_lia.
Qed.

Lemma moved_clean t0 w t m : moved t0 w t → dirty t0 m = false → dirty t m = false.
Proof. intros (_ & _ & _ & _ & _ & Hd & _) H0. by rewrite Hd, H0. Qed.

Lemma log_writes_content d c L bl i b : bl !! i = Some b →
  apply_writes d (log_writes c L bl) (log_block L i) = c b.
Proof.
  intros Hb. apply apply_writes_same.
  - apply list_elem_of_fmap. exists (log_block L i, c b). split; [done|]. apply elem_of_lookup_imap. eauto.
  - intros y (j & x & [= Hij ->] & Hj)%elem_of_lookup_imap. unfold log_block in Hij.
    replace j with i in Hj by lia. congruence.
Qed.

Section commit.
Context (s : lstate) (Hr : commit_ready s) (Hpos : 0 < lh_n s).
Abbreviation c := (content (lbio s)).
Abbreviation L := (start s).
Abbreviation bl := (logged s).

Lemma logged_outside b : b ∈ bl → b < L ∨ L + LOGMAX < b.
Proof using Hr.
  intros Hb. destruct Hr as (_ & _ & _ & Hhome & _). by destruct (proj1 (Forall_forall _ _) Hhome b Hb).
Qed.

Lemma logged_length : length bl = lh_n s :> Z.
Proof using Hr. clear Hpos. destruct Hr as (_ & Hhdr & _). rewrite length_logged by done. destruct Hhdr. lia. Qed.

Lemma head_clean : dirty (lbio s) L = false.
Proof using Hr. rewrite <- (Z.add_0_r L). by apply (log_area_clean s O); [|lia]. Qed.

Lemma moved_geometry t w : moved (lbio s) w t → geometry_ok (set_lbio t s).
Proof using Hr. intros (_ & Hz & _). destruct Hr as (_ & _ & Hgeo & _). unfold geometry_ok. simpl. by rewrite Hz. Qed.

(** Up to the commit point: the blocks and then the header are in the log. *)
Lemma commit_log :
  ∃ t1 t2, does write_log s () (set_lbio t1 s) (log_writes c L bl) ∧
    does write_head (set_lbio t1 s) () (set_lbio t2 s) [(L, head1 c L bl)] ∧
    moved (lbio s) (log_writes c L bl ++ [(L, head1 c L bl)]) t2.
Proof using Hr Hpos.
  pose proof Hr as (Hok & Hhdr & Hgeo & Hhome & Hdirty & Hnf).
  destruct (write_log_spec s Hok Hhdr Hgeo Hhome (λ i, log_area_clean s i Hr)) as (t1 & H1 & Hm1).
  { intros b Hb%Hdirty. unfold need. rewrite Hb. lia. }
  pose proof Hm1 as (Hok1 & Hz1 & _ & _ & Hc1 & _ & Hn1 & _).
  pose proof (moved_geometry t1 _ Hm1) as Hgeo1.
  destruct (write_head_spec (set_lbio t1 s)) as (t2 & H2 & Hm2); simpl; try done;
    [eapply moved_clean; [done | apply head_clean] | lia |].
  change (lbio (set_lbio t1 s)) with t1 in *. change (start (set_lbio t1 s)) with L in *.
  change (logged (set_lbio t1 s)) with bl in *. simpl lh_n in *.
  assert (content t1 L = c L) as HcL.
  { rewrite Hc1. apply apply_writes_other. intros ?%log_writes_blocks. lia. }
  rewrite HcL, <- logged_length in H2, Hm2. exists t1, t2. split_and!; [done | exact H2 | by eapply moved_trans].
Qed.

(** From the commit point on: the blocks go home and the header is cleared. *)
Lemma commit_install t2 :
  moved (lbio s) (log_writes c L bl ++ [(L, head1 c L bl)]) t2 →
  ∃ t3 t4, does install_trans (set_lbio t2 s) () (set_lbio t3 s) ((λ b, (b, c b)) <$> bl) ∧
    does write_head (set_n 0 (set_lbio t3 s)) () (set_n 0 (set_lbio t4 s)) [(L, head0 c L bl)] ∧
    moved t2 (((λ b, (b, c b)) <$> bl) ++ [(L, head0 c L bl)]) t4.
Proof using Hr Hpos.
  intros Hm. pose proof Hr as (Hok & Hhdr & Hgeo & Hhome & Hdirty & Hnf).
  pose proof Hm as (Hok2 & Hz2 & _ & _ & Hc2 & _ & Hn2 & _). pose proof logged_length as Hlen.
  destruct (install_trans_spec (set_lbio t2 s)) as (t3 & H3 & Hm3); try done.
  { by eapply moved_geometry. }
  { eapply Forall_impl; [exact Hhome|]. unfold home. simpl. by rewrite Hz2. }
  { intros i Hi. eapply moved_clean; [done|]. by apply (log_area_clean s). }
  { intros b Hb%Hdirty. apply (need_moved (lbio s) (log_writes c L bl ++ [(L, head1 c L bl)])); [done|].
    unfold need. rewrite Hb. lia. }
  change (logged (set_lbio t2 s)) with bl in *. change (lbio (set_lbio t2 s)) with t2 in *.
  change (start (set_lbio t2 s)) with L in *.
  assert (install_writes (content t2) L bl = (λ b, (b, c b)) <$> bl) as Hinst.
  { unfold install_writes. rewrite <- imap_const. apply imap_ext. intros i b Hb. simpl. f_equal.
    rewrite Hc2, apply_writes_app.
    rewrite apply_writes_other; [by apply log_writes_content|]. intros Hx%list_elem_of_singleton. unfold log_block in Hx. simpl in Hx. lia. }
  rewrite Hinst in H3, Hm3. pose proof Hm3 as (Hok3 & Hz3 & _ & _ & Hc3 & _ & Hn3 & _).
  assert (content t3 L = head1 c L bl) as Hc3L.
  { rewrite Hc3, apply_writes_other, Hc2, apply_writes_app.
    - simpl. unfold upd_block. by rewrite Z.eqb_refl.
    - rewrite <- list_fmap_compose, (list_fmap_ext _ id), list_fmap_id by done. intros ?%logged_outside. log_lia. }
  destruct (write_head_spec (set_n 0 (set_lbio t3 s))) as (t4 & H4 & Hm4); try done.
  { destruct Hhdr as [_ Hl]. split; simpl; [log_lia | done]. }
  { eapply moved_geometry, moved_trans; done. }
  { do 2 (eapply moved_clean; [done|]). apply head_clean. }
  { simpl. lia. }
  simpl in H4, Hm4. change (logged (set_n 0 (set_lbio t3 s))) with (@nil Z) in *. rewrite Hc3L in H4, Hm4.
  exists t3, t4. split_and!; [exact H3 | exact H4 | by eapply moved_trans].
Qed.

Lemma commit_spec :
  ∃ t, does commit s () (set_n 0 (set_lbio t s)) (commit_writes c L bl) ∧
    moved (lbio s) (commit_writes c L bl) t.
Proof using Hr Hpos.
  destruct commit_log as (t1 & t2 & H1 & H2 & Hm2). destruct (commit_install t2 Hm2) as (t3 & t4 & H3 & H4 & Hm4).
  exists t4. pose proof (moved_trans _ _ _ _ _ Hm2 Hm4) as Hm. rewrite <- !(assoc_L (++)) in Hm.
  split; [|exact Hm]. unfold commit. eapply does_bind_l; [apply does_gets|].
  rewrite (proj2 (Z.ltb_lt _ _) Hpos). unfold commit_writes.
  eapply does_bind; [exact H1 | | reflexivity]. eapply does_bind; [exact H2 | | reflexivity].
  eapply does_bind; [exact H3 | | reflexivity]. eapply does_bind_l; [apply does_modify|]. exact H4.
Qed.
End commit.

(** ** Recovery *)

(** What the header block on disk [d] says. *)
Definition head_n (d : Z → list Z) (L : Z) : Z := s32 (word_at (d L) 0).
Definition head_blocks (d : Z → list Z) (L : Z) : list Z :=
  (λ i, word_at (d L) (S i)) <$> seq 0 (Z.to_nat (head_n d L)).

(** The disk writes of a recovery from disk [d]. *)
Definition recover_writes (d : Z → list Z) (L : Z) : list (Z * list Z) :=
  install_writes d L (head_blocks d L) ++ [(L, head_data 0 [] (d L))].

(** The kernel after power-on, and what it runs before it uses the file system. *)
Definition fresh (d : Z → list Z) (size pid : Z) : lstate :=
  mk_lstate (boot d size pid) 0 0 0 0 0 0 (replicate (Z.to_nat LOGSIZE) 0).
Definition power_on : M lstate unit := bio binit ;; initlog ROOTDEV.

(** A disk [power_on] can recover from. *)
Definition recoverable (d : Z → list Z) (size L : Z) : Prop :=
  (∀ n, length (d n) = 512%nat) ∧ logstart (superblock_of (d 1)) = L ∧
  1 < L ∧ L + LOGMAX < size ∧ size < 2 ^ 31 ∧ 0 ≤ head_n d L ≤ LOGMAX ∧
  Forall (λ b, 1 < b < size ∧ (b < L ∨ L + LOGMAX < b)) (head_blocks d L).

(** Reading a block leaves everything as it was. *)
Lemma read_moved t n :
  cache_ok t [] → 0 ≤ n < disksize t → (need t n ≤ nfree t)%nat →
  ∃ i b s1 t', does (bread 1 n) t i s1 [] ∧ does (getb i) s1 b s1 [] ∧ bdata b = content t n ∧
    does (brelse i) s1 () t' [] ∧ moved t [] t'.
Proof.
  intros Hok Hn Hnf.
  destruct (bread_spec t [] n) as (i & s1 & H1 & Hok1 & (Hd & Hz & Hp & Hc & Hdi) & _ & Hh & _ & Hnf1);
    [done | done | by intros ? ? ? ?%elem_of_nil | unfold need in Hnf; destruct (dirty t n); [by left | by right] |].
  destruct (holds_getb _ _ _ _ _ Hh) as (b & Hb & Hget).
  destruct (brelse_spec s1 [] i n (content t n) (dirty t n) Hok1 Hh) as (t' & H2 & Hok2 & (Hd2 & Hz2 & Hp2 & Hc2 & Hdi2) & _ & Hnf2).
  { intros Hcl. rewrite Hd. by apply clean_content. }
  exists i, b, s1, t'. split_and!; try done. split_and!; try done; try congruence; [..|lia].
  - intros m. simpl. congruence.
  - intros m. simpl. congruence.
  - intros m. simpl. by rewrite Hdi2, Hdi, andb_true_r.
Qed.

Lemma read_head_spec s d :
  cache_ok (lbio s) [] → geometry_ok s → length (lh_block s) = Z.to_nat LOGSIZE →
  (need (lbio s) (start s) ≤ nfree (lbio s))%nat → content (lbio s) (start s) = d (start s) →
  0 ≤ head_n d (start s) ≤ LOGMAX →
  ∃ t bl, does read_head s () (set_lbio t (set_blocks bl (set_n (head_n d (start s)) s))) [] ∧
    moved (lbio s) [] t ∧ length bl = Z.to_nat LOGSIZE ∧
    take (Z.to_nat (head_n d (start s))) bl = head_blocks d (start s).
Proof.
  intros Hok (Hdev & Hs1 & Hs2 & Hs3) Hlen Hneed Hd Hn.
  destruct (read_moved (lbio s) (start s)) as (i & b & s1 & t & H1 & Hget & Hb & H2 & Hm); [done | log_lia | done |].
  rewrite Hd in Hb. unfold head_blocks, head_n in *. rewrite <- Hb in *. set (n := s32 (word_at (bdata b) 0)) in *.
  destruct (does_each_logged (λ k s' w, w = [] ∧ ∃ bl, s' = set_blocks bl (set_n n (set_lbio s1 s)) ∧
      length bl = Z.to_nat LOGSIZE ∧ take k bl = (λ i, word_at (bdata b) (S i)) <$> seq 0 k)
    (λ i, lh_set i (word_at (bdata b) (S i))) (set_n n (set_lbio s1 s))) as (s2 & w & H3 & -> & bl & -> & Hbl & Htake).
  - intros k s' w Hk (-> & bl & -> & Hbl & Htake). simpl in Hk.
    exists (set_blocks (<[k := word_at (bdata b) (S k)]> bl) (set_n n (set_lbio s1 s))), []. split.
    + exists []. unfold lh_set. simpl. rewrite decide_True by log_lia. done.
    + split; [done|]. eexists. split_and!; [done | by rewrite length_insert |].
      rewrite (take_S_lookup _ k (word_at (bdata b) (S k))) by (rewrite list_lookup_insert_eq; [done | log_lia]).
      rewrite take_insert_ge, Htake by lia. by rewrite Nat.add_1_r, seq_S, fmap_app.
  - split; [done|]. exists (lh_block s). split_and!; try done.
  - exists t, bl. split_and!; try done.
    eapply does_bind_l; [apply does_gets|]. eapply does_bind_l; [apply does_gets|]. rewrite Hdev, u32_small by log_lia.
    eapply does_bind_l; [by apply does_bio|]. eapply does_bind_l; [apply does_bio; simpl; exact Hget|].
    eapply does_bind_l; [apply does_modify|]. eapply does_bind_l; [exact H3|].
    exact (does_bio (brelse i) (set_blocks bl (set_n n (set_lbio s1 s))) () t [] H2).
Qed.

Lemma need_le1 t n : (need t n ≤ 1)%nat.
Proof. unfold need. destruct (dirty t n); lia. Qed.

(** Recovery installs what the header says is committed and clears the header. *)
Lemma power_on_spec d size pid L :
  recoverable d size L →
  ∃ s, does power_on (fresh d size pid) () s (recover_writes d L) ∧
    moved (booted d size pid) (recover_writes d L) (lbio s) ∧
    lh_n s = 0 ∧ start s = L ∧ ldev s = 1 ∧ outstanding s = 0 ∧ committing s = 0 ∧
    Log.size s = s32 (nlog (superblock_of (d 1))) ∧ length (lh_block s) = Z.to_nat LOGSIZE.
Proof.
  intros (Hlen & HL & Hs1 & Hs2 & Hs3 & Hn & Hhome).
  set (t0 := booted d size pid). set (s0 := set_lbio t0 (fresh d size pid)).
  assert (cache_ok t0 [] ∧ nfree t0 = NBUF) as [Hok0 Hnf0] by (split; [by apply booted_ok | by apply booted_nfree]).
  assert (∀ n, content t0 n = d n) as Hc0 by (intros; apply booted_content).
  assert (∀ n, dirty t0 n = false) as Hdi0 by (intros; apply booted_dirty).
  assert (2 ≤ NBUF)%nat as HNBUF by (vm_compute; lia).
  destruct (read_moved t0 1) as (i & b & u & t1 & H1 & Hget & Hb & H1' & Hm1); [done | simpl; log_lia | pose proof (need_le1 t0 1); lia |].
  rewrite Hc0 in Hb.
  assert (s32 (logstart (superblock_of (d 1))) = L) as HL' by (rewrite HL; apply s32_small; log_lia).
  set (s1 := set_geometry L (s32 (nlog (superblock_of (d 1)))) 1 (set_lbio t1 s0)).
  pose proof Hm1 as (Hok1 & Hz1 & _ & Hd1 & Hc1 & Hdi1 & Hnf1 & _).
  assert (geometry_ok s1) as Hgeo1 by (unfold geometry_ok; simpl; rewrite Hz1; split_and!; simpl; try done; log_lia).
  assert (∀ n, content t1 n = d n) as Hc1' by (intros n; rewrite Hc1; apply Hc0).
  destruct (read_head_spec s1 d) as (t2 & bl & H2 & Hm2 & Hbl & Htake); try done.
  { simpl. pose proof (need_le1 t1 L). lia. }
  change (lbio s1) with t1 in *. change (start s1) with L in *.
  pose proof (moved_trans _ _ _ _ _ Hm1 Hm2) as Hm12. simpl in Hm12.
  pose proof Hm12 as (Hok2 & Hz2 & _ & _ & Hc2 & Hdi2 & Hnf2 & _).
  set (s2 := set_lbio t2 (set_blocks bl (set_n (head_n d L) s1))) in *.
  assert (header_ok s2) as Hhdr2 by done.
  assert (logged s2 = head_blocks d L) as Hlog2 by exact Htake.
  assert (geometry_ok s2) as Hgeo2 by (unfold geometry_ok; simpl; rewrite Hz2; split_and!; simpl; try done; log_lia).
  destruct (install_trans_spec s2) as (t3 & H3 & Hm3); try done.
  { rewrite Hlog2. eapply Forall_impl; [exact Hhome|]. unfold home. simpl. by rewrite Hz2. }
  { intros c _. change (lbio s2) with t2. pose proof (need_le1 t2 c). lia. }
  rewrite Hlog2 in H3, Hm3. change (lbio s2) with t2 in *. change (start s2) with L in *.
  assert (install_writes (content t2) L (head_blocks d L) = install_writes d L (head_blocks d L)) as Hinst.
  { apply imap_ext. intros j c _. simpl. rewrite Hc2. simpl. by rewrite Hc0. }
  rewrite Hinst in H3, Hm3. pose proof (moved_trans _ _ _ _ _ Hm12 Hm3) as Hm13. simpl in Hm13.
  pose proof Hm13 as (Hok3 & Hz3 & _ & _ & Hc3 & Hdi3 & Hnf3 & _).
  assert (geometry_ok (set_n 0 (set_lbio t3 s2))) as Hgeo3
    by (unfold geometry_ok; simpl; rewrite Hz3; split_and!; simpl; try done; log_lia).
  destruct (write_head_spec (set_n 0 (set_lbio t3 s2))) as (t4 & H4 & Hm4);
    [done | done | done | simpl; by rewrite Hdi3, Hdi0 | simpl; lia |].
  simpl in H4, Hm4. change (logged (set_n 0 (set_lbio t3 s2))) with (@nil Z) in *.
  assert (content t3 L = d L) as Hc3L.
  { rewrite Hc3, apply_writes_other; [apply Hc0|]. rewrite install_writes_blocks. intros Hin.
    destruct (proj1 (Forall_forall _ _) Hhome _ Hin) as [_ ?]. log_lia. }
  rewrite Hc3L in H4, Hm4. exists (set_lbio t4 (set_n 0 (set_lbio t3 s2))). split_and!; [|exact (moved_trans _ _ _ _ _ Hm13 Hm4)|done..].
  unfold power_on. eapply does_bind_l; [apply does_bio, binit_run|]. fold t0.
  unfold initlog. change (BSIZE <=? 4 + 4 * LOGSIZE) with false. cbv iota.
  eapply does_bind_l; [apply does_bio; simpl; unfold readsb|].
  { eapply does_bind_l; [exact H1|]. eapply does_bind_l; [exact Hget|]. eapply does_bind_l; [exact H1' | apply does_ret]. }
  rewrite Hb. eapply does_bind_l; [apply does_modify|]. rewrite HL'.
  unfold recover_from_log, recover_writes. eapply does_bind_l; [exact H2|].
  eapply does_bind; [exact H3 | | reflexivity]. eapply does_bind_l; [apply does_modify | exact H4].
Qed.

(** ** Crashes *)

Lemma prefix_app_cases {A} (w w1 w2 : list A) :
  w `prefix_of` w1 ++ w2 → w `prefix_of` w1 ∨ ∃ w', w = w1 ++ w' ∧ w' `prefix_of` w2.
Proof.
  revert w. induction w1 as [|x w1 IH]; intros w Hw; [right; by exists w|].
  destruct w as [|y w]; [left; apply prefix_nil|]. apply prefix_cons_inv_1 in Hw as Hyx. subst y.
  apply prefix_cons_inv_2 in Hw. destruct (IH w Hw) as [H|(w' & -> & H)].
  - left. by apply prefix_cons.
  - right. by exists w'.
Qed.

Lemma prefix_writes (w' w : list (Z * list Z)) m x : w' `prefix_of` w → (m, x) ∈ w' → (m, x) ∈ w.
Proof. intros [k ->] H. apply elem_of_app. by left. Qed.

Lemma prefix_fst (w' w : list (Z * list Z)) m : w' `prefix_of` w → m ∈ w'.*1 → m ∈ w.*1.
Proof. intros [k ->] H. rewrite fmap_app. apply elem_of_app. by left. Qed.

(** A block outside the log area that starts at [L]. *)
Definition outside (L n : Z) : Prop := n < L ∨ L + LOGMAX < n.

Lemma length_apply_writes d w n : (∀ m, length (d m) = 512%nat) → (∀ m x, (m, x) ∈ w → length x = 512%nat) →
  length (apply_writes d w n) = 512%nat.
Proof.
  revert d. induction w as [|[m x] w IH]; intros d Hd Hw; simpl; [done|]. apply IH.
  - intros k. unfold upd_block. case_match; [|done]. eapply Hw. left.
  - intros k y Hy. eapply Hw. by right.
Qed.

Lemma head_data_n n bl x : (4 * (1 + length bl) ≤ length x)%nat → 0 ≤ n < 2 ^ 31 →
  s32 (word_at (head_data n bl x) 0) = n.
Proof.
  intros Hl Hn. unfold head_data. rewrite word_at_put_words by (rewrite length_word_put; lia).
  rewrite decide_False by lia. rewrite word_at_put_same, u32_small by lia. by apply s32_small.
Qed.

Lemma head_data_blocks bl x : (4 * (1 + length bl) ≤ length x)%nat → Forall (λ b, 0 ≤ b < 2 ^ 32) bl →
  (λ i, word_at (head_data (length bl) bl x) (S i)) <$> seq 0 (length bl) = bl.
Proof.
  intros Hl Hbl. apply list_eq. intros i. rewrite list_lookup_fmap. destruct (decide (i < length bl)%nat) as [Hi|Hi].
  - rewrite lookup_seq_lt by done. simpl. destruct (lookup_lt_is_Some_2 bl i Hi) as [b Hb]. rewrite Hb. f_equal.
    unfold head_data. rewrite word_at_put_words by (rewrite length_word_put; lia). rewrite decide_True by lia.
    replace (S i - 1)%nat with i by lia. rewrite Hb. simpl. apply u32_small.
    by apply (proj1 (Forall_lookup _ _) Hbl i b).
  - rewrite lookup_seq_ge by lia. simpl. symmetry. apply lookup_ge_None. lia.
Qed.

Lemma length_head_data n bl x : (4 * (1 + length bl) ≤ length x)%nat → length (head_data n bl x) = length x.
Proof. intros Hl. unfold head_data. rewrite length_put_words; rewrite length_word_put; lia. Qed.

Lemma outside_not_log L n : outside L n → n ≠ L.
Proof. unfold outside. log_lia. Qed.

(** The last write of a commit or a recovery. *)
Lemma cleared L d x : length x = 512%nat →
  head_n (upd_block d L (head_data 0 [] x)) L = 0 ∧ ∀ n, outside L n → upd_block d L (head_data 0 [] x) n = d n.
Proof.
  intros Hx. split.
  - unfold head_n, upd_block. rewrite Z.eqb_refl. apply head_data_n; [rewrite Hx; simpl; lia | lia].
  - intros n Ho%outside_not_log. unfold upd_block. by rewrite (proj2 (Z.eqb_neq _ _) Ho).
Qed.

Section crash.
(** The disk [d0] before a transaction, the contents [c] after it, and the blocks [bl] it changes. *)
Context (L size : Z) (d0 c : Z → list Z) (bl : list Z).
Context (HL : 1 < L) (Hsize : L + LOGMAX < size < 2 ^ 31) (Hsb : logstart (superblock_of (d0 1)) = L).
Context (Hd0 : ∀ n, length (d0 n) = 512%nat) (Hc : ∀ n, length (c n) = 512%nat).
Context (Hbl : Forall (λ b, 1 < b < size ∧ outside L b) bl) (Hn : Z.of_nat (length bl) ≤ LOGMAX).
Context (Hsame : ∀ n, n ∉ bl → c n = d0 n) (Hclear : head_n d0 L = 0).

(** The transaction has not happened, has happened, or is in the log to be installed. *)
Definition is_old (d : Z → list Z) : Prop := head_n d L = 0 ∧ ∀ n, outside L n → d n = d0 n.
Definition is_new (d : Z → list Z) : Prop := head_n d L = 0 ∧ ∀ n, outside L n → d n = c n.
Definition is_logged (d : Z → list Z) : Prop :=
  head_n d L = length bl ∧ head_blocks d L = bl ∧
  (∀ i b, bl !! i = Some b → d (log_block L i) = c b) ∧ (∀ n, outside L n → n ∉ bl → d n = c n).

Definition disk_ok (d : Z → list Z) : Prop := (∀ n, length (d n) = 512%nat) ∧ d 1 = d0 1.

Lemma bl_outside b : b ∈ bl → 1 < b < size ∧ outside L b.
Proof using Hbl. intros Hb. by apply (proj1 (Forall_forall _ _) Hbl). Qed.

Lemma head_blocks_nil d : head_n d L = 0 → head_blocks d L = [].
Proof using. unfold head_blocks. by intros ->. Qed.

Lemma crash_recoverable d : disk_ok d → is_old d ∨ is_new d ∨ is_logged d → recoverable d size L.
Proof using HL Hsize Hsb Hbl Hn.
  intros [Hlen H1] Hd. assert (head_n d L = 0 ∨ head_n d L = length bl ∧ head_blocks d L = bl) as Hh.
  { destruct Hd as [[? _]|[[? _]|(? & ? & _)]]; auto. }
  split_and!; try lia; [done | by rewrite H1 | destruct Hh as [-> |[-> _]]; log_lia..|].
  destruct Hh as [H0|[_ ->]]; [by rewrite head_blocks_nil|done].
Qed.

Lemma disk_ok_writes d w : disk_ok d → (∀ m x, (m, x) ∈ w → length x = 512%nat ∧ m ≠ 1) → disk_ok (apply_writes d w).
Proof using.
  intros [Hlen H1] Hw. split.
  - intros n. apply length_apply_writes; [done|]. intros m x Hm. by destruct (Hw m x Hm).
  - rewrite apply_writes_other; [done|]. intros ([m x] & Heq & Hm)%list_elem_of_fmap. by destruct (Hw m x Hm).
Qed.

(** Only blocks of the log change. *)
Lemma writes_in_log d w n : (∀ m, m ∈ w.*1 → L < m ≤ L + LOGMAX) → outside L n ∨ n = L → apply_writes d w n = d n.
Proof using Hn. intros Hw Hn'. apply apply_writes_other. intros Hm%Hw. destruct Hn' as [[?|?]|?]; lia. Qed.

Lemma head1_n : s32 (word_at (head1 c L bl) 0) = length bl.
Proof using Hc Hn. apply head_data_n; rewrite ?Hc; log_lia. Qed.

Lemma length_head1 : length (head1 c L bl) = 512%nat.
Proof using Hc Hn. unfold head1. rewrite length_head_data; rewrite Hc; log_lia. Qed.

(** Once the header is written, whatever part of the blocks is installed. *)
Lemma logged_state d : d L = head1 c L bl →
  (∀ i b, bl !! i = Some b → d (log_block L i) = c b) → (∀ n, outside L n → n ∉ bl → d n = c n) → is_logged d.
Proof using Hc Hn Hbl Hsize.
  intros HdL Hlog Hout. assert (head_n d L = length bl) as Hhn by (unfold head_n; rewrite HdL; apply head1_n).
  split_and!; [done | | done | done].
  unfold head_blocks. rewrite Hhn, HdL, Nat2Z.id. apply head_data_blocks; [rewrite Hc; log_lia|].
  eapply Forall_impl; [exact Hbl|]. intros b [Hb _]. lia.
Qed.

Lemma logged_keep d w : (∀ m x, (m, x) ∈ w → m ∈ bl) → is_logged d → is_logged (apply_writes d w).
Proof using Hn Hbl.
  intros Hw (Hhn & Hhb & Hlog & Hout).
  assert (∀ m, m ∉ bl → apply_writes d w m = d m) as Hoth.
  { intros m Hm. apply apply_writes_other. intros ([k x] & -> & Hk)%list_elem_of_fmap. by apply Hw in Hk. }
  assert (∀ m, ¬ outside L m → apply_writes d w m = d m) as Hin by (intros m Hm; apply Hoth; by intros [_ ?]%bl_outside).
  unfold is_logged, head_blocks, head_n. rewrite Hin by (unfold outside; log_lia). split_and!; [done | done | |].
  - intros i b Hb. rewrite Hin; [by apply Hlog|]. apply lookup_lt_Some in Hb. unfold outside, log_block. lia.
  - intros n Ho Hnb. rewrite Hoth by done. by apply Hout.
Qed.

(** Installing all of them makes the disk new. *)
Lemma installed n :
  ∀ d w, (∀ m x, (m, x) ∈ w → m ∈ bl ∧ x = c m) → (∀ b, b ∈ bl → b ∈ w.*1) →
  (∀ n, outside L n → n ∉ bl → d n = c n) → outside L n → apply_writes d w n = c n.
Proof using.
  intros d w Hw Hall Hout Ho. destruct (decide (n ∈ bl)) as [Hb|Hb].
  - apply apply_writes_same; [by apply Hall|]. intros y Hy. by apply Hw in Hy as [_ ->].
  - rewrite apply_writes_other; [by apply Hout|]. intros ([k x] & -> & Hk)%list_elem_of_fmap. by apply Hw in Hk as [? _].
Qed.

Lemma log_writes_area m : m ∈ (log_writes c L bl).*1 → L < m ≤ L + LOGMAX.
Proof using Hn. intros ?%log_writes_blocks. lia. Qed.

Lemma commit_writes_ok m x : (m, x) ∈ commit_writes c L bl → length x = 512%nat ∧ m ≠ 1.
Proof using Hc Hn Hbl HL.
  unfold commit_writes. rewrite !elem_of_app, !list_elem_of_singleton. pose proof length_head1 as H1.
  intros [Hm|[[= -> ->]|[Hm|[= -> ->]]]].
  - split; [|apply (list_elem_of_fmap_2 fst), log_writes_area in Hm; simpl in Hm; lia].
    apply elem_of_lookup_imap in Hm as (i & b & [= -> ->] & _). apply Hc.
  - split; [done | lia].
  - apply list_elem_of_fmap in Hm as (b & [= -> ->] & Hb%bl_outside). split; [apply Hc | lia].
  - split; [|lia]. unfold head0. rewrite length_head_data; rewrite H1; simpl; lia.
Qed.

(** A crash during a commit leaves the disk old, logged or new; a completed commit leaves it new. *)
Lemma commit_crash w :
  w `prefix_of` commit_writes c L bl →
  let d := apply_writes d0 w in
  disk_ok d ∧ (is_old d ∨ is_new d ∨ is_logged d) ∧ (w = commit_writes c L bl → is_new d).
Proof using All.
  intros Hw d. set (d1 := upd_block (apply_writes d0 (log_writes c L bl)) L (head1 c L bl)).
  assert (∀ i b, bl !! i = Some b → d1 (log_block L i) = c b) as Hd1log.
  { intros i b Hb. unfold d1, upd_block. rewrite (proj2 (Z.eqb_neq _ _)) by (unfold log_block; lia).
    by apply log_writes_content. }
  assert (∀ n, outside L n → n ∉ bl → d1 n = c n) as Hd1out.
  { intros n Ho Hnb. unfold d1, upd_block. rewrite (proj2 (Z.eqb_neq _ _)) by (by apply outside_not_log).
    rewrite writes_in_log; [by rewrite Hsame | apply log_writes_area | by left]. }
  assert (is_logged d1) as Hd1 by (apply logged_state; [unfold d1, upd_block; by rewrite Z.eqb_refl | done | done]).
  assert (∀ m x, (m, x) ∈ (λ b, (b, c b)) <$> bl → m ∈ bl ∧ x = c m) as Hinst.
  { by intros m x (b & [= -> ->] & Hb)%list_elem_of_fmap. }
  assert (is_new (upd_block (apply_writes d1 ((λ b, (b, c b)) <$> bl)) L (head0 c L bl))) as Hnew.
  { destruct (cleared L (apply_writes d1 ((λ b, (b, c b)) <$> bl)) (head1 c L bl) length_head1) as [Hh Ho].
    split; [done|]. intros n Hout. unfold head0. rewrite Ho by done. apply installed; try done.
    intros b Hb. apply list_elem_of_fmap. exists (b, c b). split; [done|]. apply list_elem_of_fmap. by exists b. }
  assert (∀ w', w' `prefix_of` log_writes c L bl → is_old (apply_writes d0 w')) as Hold.
  { intros w' Hw'. split; [unfold head_n | intros n Ho]; (rewrite writes_in_log; [done | | by auto]);
      intros m Hm; eapply log_writes_area, prefix_fst; eauto. }
  split; [|split].
  - apply disk_ok_writes; [by split|]. intros m x Hm. apply commit_writes_ok. by eapply prefix_writes.
  - unfold commit_writes in Hw. apply prefix_app_cases in Hw as [Hw|(w1 & -> & Hw)]; [left; by apply Hold|].
    destruct w1 as [|x w1]; [left; unfold d; rewrite app_nil_r; by apply Hold|].
    apply prefix_cons_inv_1 in Hw as Hx. subst x. apply prefix_cons_inv_2 in Hw.
    unfold d. rewrite apply_writes_app. simpl. fold d1.
    apply prefix_app_cases in Hw as [Hw|(w3 & -> & Hw)].
    { right. right. apply logged_keep; [|done]. intros m x Hm. by eapply prefix_writes in Hm as [? _]%Hinst. }
    destruct w3 as [|x w3].
    { right. right. apply logged_keep; [|done]. intros m x Hm. rewrite app_nil_r in Hm. by apply Hinst in Hm as [? _]. }
    apply prefix_cons_inv_1 in Hw as Hx. subst x. apply prefix_cons_inv_2, prefix_nil_inv in Hw. subst w3.
    right. left. by rewrite apply_writes_app.
  - intros ->. unfold d, commit_writes. rewrite apply_writes_app. simpl. fold d1. by rewrite apply_writes_app.
Qed.

(** So does a crash during a recovery; a completed recovery leaves it old or new. *)
Lemma recover_crash d w :
  disk_ok d → is_old d ∨ is_new d ∨ is_logged d → w `prefix_of` recover_writes d L →
  let d' := apply_writes d w in
  disk_ok d' ∧ (is_old d → is_old d') ∧ (is_new d → is_new d') ∧
  (is_logged d → is_new d' ∨ is_logged d') ∧ (is_logged d → w = recover_writes d L → is_new d').
Proof using All.
  intros Hok Hd Hw d'. pose proof Hok as [Hlen _]. destruct (cleared L d (d L) (Hlen L)) as [Hh Ho].
  assert (head_n d L = 0 → head_n d' L = 0 ∧ ∀ n, outside L n → d' n = d n) as Hidle.
  { intros H0. unfold recover_writes in Hw. rewrite head_blocks_nil in Hw by done. unfold d'. destruct w as [|x w]; [done|].
    apply prefix_cons_inv_1 in Hw as Hx. subst x. by apply prefix_cons_inv_2, prefix_nil_inv in Hw as ->. }
  assert (is_logged d → recover_writes d L = ((λ b, (b, c b)) <$> bl) ++ [(L, head_data 0 [] (d L))]) as Hrw.
  { intros (_ & Hhb & Hlog & _). unfold recover_writes. rewrite Hhb. f_equal. unfold install_writes.
    rewrite <- imap_const. apply imap_ext. intros i b Hb. simpl. by rewrite (Hlog i b Hb). }
  assert (∀ m x, (m, x) ∈ (λ b, (b, c b)) <$> bl → m ∈ bl ∧ x = c m) as Hinst.
  { by intros m x (b & [= -> ->] & Hb)%list_elem_of_fmap. }
  assert (is_logged d → is_new (upd_block (apply_writes d ((λ b, (b, c b)) <$> bl)) L (head_data 0 [] (d L)))) as Hnew.
  { intros (_ & _ & _ & Hout). destruct (cleared L (apply_writes d ((λ b, (b, c b)) <$> bl)) (d L) (Hlen L)) as [Hh' Ho'].
    split; [done|]. intros n Hn'. rewrite Ho' by done. apply installed; try done.
    intros b Hb. apply list_elem_of_fmap. exists (b, c b). split; [done|]. apply list_elem_of_fmap. by exists b. }
  split_and!.
  - apply disk_ok_writes; [done|]. intros m x Hm. eapply prefix_writes in Hm; [|done].
    assert (head_n d L = 0 ∨ is_logged d) as [H0|Hl] by (destruct Hd as [[? _]|[[? _]|?]]; auto).
    + unfold recover_writes in Hm. rewrite head_blocks_nil in Hm by done.
      apply list_elem_of_singleton in Hm as [= -> ->]. split; [|lia]. rewrite length_head_data; rewrite Hlen; simpl; lia.
    + rewrite Hrw in Hm by done. apply elem_of_app in Hm as [[Hb ->]%Hinst|[= -> ->]%list_elem_of_singleton].
      * split; [apply Hc|]. apply bl_outside in Hb. lia.
      * split; [|lia]. rewrite length_head_data; rewrite Hlen; simpl; lia.
  - intros [H0 Hold]. destruct (Hidle H0) as [? Hs]. split; [done|]. intros n Hn'. by rewrite Hs, Hold.
  - intros [H0 Hold]. destruct (Hidle H0) as [? Hs]. split; [done|]. intros n Hn'. by rewrite Hs, Hold.
  - intros Hl. rewrite Hrw in Hw by done. apply prefix_app_cases in Hw as [Hw|(w1 & -> & Hw)].
    + right. apply logged_keep; [|done]. intros m x Hm. by eapply prefix_writes in Hm as [? _]%Hinst.
    + destruct w1 as [|x w1].
      * right. apply logged_keep; [|done]. intros m x Hm. rewrite app_nil_r in Hm. by apply Hinst in Hm as [? _].
      * apply prefix_cons_inv_1 in Hw as Hx. subst x. apply prefix_cons_inv_2, prefix_nil_inv in Hw. subst w1.
        left. unfold d'. rewrite apply_writes_app. by apply Hnew.
  - intros Hl ->. unfold d'. rewrite Hrw, apply_writes_app by done. by apply Hnew.
Qed.
End crash.

(** ** The log during a transaction *)

(** The log while the buffers [H] are held: the logged blocks are exactly the pinned ones. *)
Definition log_ok (s : lstate) (H : list nat) : Prop :=
  cache_ok (lbio s) H ∧ header_ok s ∧ geometry_ok s ∧ Forall (home s) (logged s) ∧ NoDup (logged s) ∧
  ∀ m, dirty (lbio s) m = true ↔ m ∈ logged s.

(** The cache may change as long as the same blocks are pinned. *)
Lemma log_ok_lbio s H t H' :
  log_ok s H → cache_ok t H' → disksize t = disksize (lbio s) → (∀ m, dirty t m = dirty (lbio s) m) →
  log_ok (set_lbio t s) H'.
Proof.
  intros (_ & Hhdr & Hgeo & Hall & Hnd & Hdirty) Hok Hz Hdi. split_and!; try done.
  - unfold geometry_ok in *. simpl. by rewrite Hz.
  - eapply Forall_impl; [exact Hall|]. unfold home. simpl. by rewrite Hz.
  - intros m. simpl. by rewrite Hdi.
Qed.

(** A buffer that is neither held nor pinned can be recycled, so at least this many can. *)
Lemma nfree_bound s H : log_ok s H → (NBUF ≤ nfree (lbio s) + length H + length (logged s))%nat.
Proof.
  intros (Hok & _ & _ & _ & _ & Hdirty). pose proof Hok as (Hlen & _ & HndH & Hnd & Hbufs).
  set (idx m := fst <$> list_find (λ b, dev b = 1 ∧ blockno b = m) (bufs (lbio s))).
  assert (length (omap idx (logged s)) ≤ length (logged s))%nat as HD.
  { generalize (logged s). induction l as [|x l IH]; csimpl; [lia|]. destruct (idx x); csimpl; lia. }
  assert (seq 0 NBUF ⊆+ elements (free (lbio s)) ++ H ++ omap idx (logged s)) as Hsub.
  { apply NoDup_submseteq; [apply NoDup_seq|]. intros i Hi%elem_of_seq. rewrite !elem_of_app, elem_of_elements.
    destruct (decide (i ∈ H)) as [|HiH]; [by auto|]. destruct (lookup_lt_is_Some_2 (bufs (lbio s)) i) as [b Hb]; [lia|].
    pose proof (Hbufs i b Hb) as Hbo. rewrite bool_decide_eq_false_2 in Hbo by done.
    destruct Hbo as (_ & Hf & Href & _). destruct (decide (flags b = 6)) as [H6|H6].
    - right. right. assert (dev b = 1) as Hd by (destruct Hf as [[? _]|[_ ?]]; [done | congruence]).
      apply list_elem_of_omap. exists (blockno b). split.
      + apply Hdirty. unfold dirty. rewrite (cached_held _ H Hok i b) by done. by rewrite H6.
      + unfold idx. destruct (list_find_elem_of (λ b', dev b' = 1 ∧ blockno b' = blockno b) (bufs (lbio s)) b)
          as [[j c] Hj]; [by eapply list_elem_of_lookup_2 | done |].
        rewrite Hj. simpl. f_equal. apply list_find_Some in Hj as (Hj & [Hc1 Hc2] & _). symmetry. by apply (Hnd i j b c).
    - left. apply elem_of_free. split; [lia|]. unfold recyclable. rewrite Hb, Href.
      destruct Hf as [(_ & [-> | ?] & _)|[_ ->]]; done. }
  apply submseteq_length in Hsub. rewrite length_seq, !length_app in Hsub.
  assert (nfree (lbio s) = length (elements (free (lbio s)))) as -> by done. lia.
Qed.

Lemma log_ok_commit s : log_ok s [] → lh_n s < LOGMAX → commit_ready s.
Proof.
  intros Hok Hn. pose proof (nfree_bound s [] Hok) as Hb. destruct Hok as (? & Hhdr & ? & ? & _ & ?).
  split_and!; try done; rewrite length_logged in Hb by done; destruct Hhdr; try done.
  assert (NBUF = 30%nat) as HN by done. rewrite HN in Hb. simpl in Hb. log_lia.
Qed.

Lemma absorb_spec bs b :
  if decide (b ∈ bs) then bs !! absorb bs b = Some b else absorb bs b = length bs.
Proof.
  induction bs as [|x bs IH]; simpl; [done|]. destruct (Z.eqb_spec x b) as [->|Hne].
  - by rewrite decide_True by left.
  - destruct (decide (b ∈ bs)) as [Hb|Hb].
    + by rewrite decide_True by (by right).
    + rewrite decide_False; [by rewrite IH|]. by intros [?|?]%elem_of_cons.
Qed.

(** [log_write]'s effect on the header. *)
Definition record (n : Z) (s : lstate) : lstate :=
  if decide (n ∈ logged s) then s
  else set_n (lh_n s + 1) (set_blocks (<[Z.to_nat (lh_n s) := n]> (lh_block s)) s).

Lemma logged_record n s : header_ok s → lh_n s < LOGMAX →
  header_ok (record n s) ∧ logged (record n s) = if decide (n ∈ logged s) then logged s else logged s ++ [n].
Proof.
  intros [Hn Hl] Hlt. unfold record. case_decide as Hin; [done|]. split.
  - split; simpl; [lia | by rewrite length_insert].
  - unfold logged. simpl. replace (Z.to_nat (lh_n s + 1)) with (Z.to_nat (lh_n s) + 1)%nat by lia.
    rewrite (take_S_lookup _ _ n) by (rewrite list_lookup_insert_eq; [done | log_lia]).
    by rewrite take_insert_ge by lia.
Qed.

Lemma record_frame n s : lbio (record n s) = lbio s ∧ start (record n s) = start s ∧ size (record n s) = size s ∧
  outstanding (record n s) = outstanding s ∧ committing (record n s) = committing s ∧ ldev (record n s) = ldev s.
Proof. unfold record. by case_decide. Qed.

Lemma record_lbio n t s : record n (set_lbio t s) = set_lbio t (record n s).
Proof. unfold record. change (logged (set_lbio t s)) with (logged s). by case_decide. Qed.

Lemma log_write_spec s H i n d p t0 :
  log_ok (set_lbio t0 s) H → edited t0 H i n d p (lbio s) → home s n →
  lh_n s < LOGMAX → lh_n s < size s - 1 → 1 ≤ outstanding s →
  ∃ t, does (log_write i) s () (set_lbio t (record n s)) [] ∧ edited t0 H i n d true t ∧
    log_ok (set_lbio t (record n s)) H.
Proof.
  intros Hok He Hhome Hn1 Hn2 Ho. pose proof Hok as (Hcok & Hhdr & Hgeo & Hall & Hnd & Hdirty).
  destruct (edited_pin _ _ _ _ _ _ _ He) as (t & Ht & He').
  pose proof He as (_ & Hi & _ & _ & _ & (b & Hb & _ & Hbn & _) & _).
  destruct (logged_record n s Hhdr Hn1) as [Hhdr' Hlog']. destruct (record_frame n s) as (Hf1 & Hf2 & Hf3 & Hf4 & Hf5 & Hf6).
  exists t. split_and!; [|done|].
  - unfold log_write. eapply does_bind_l; [by exists []|].
    rewrite (proj2 (Z.leb_gt LOGSIZE (lh_n s))) by log_lia. rewrite (proj2 (Z.leb_gt _ _) Hn2). simpl orb. cbv iota.
    rewrite (proj2 (Z.ltb_ge _ _) Ho). eapply does_bind_l; [apply does_acquire|].
    eapply does_bind_l; [apply does_bio; exists []; unfold getb; by rewrite Hb|]. cbv zeta. rewrite Hbn.
    fold (logged s). pose proof (absorb_spec (logged s) n) as Habs.
    eapply (does_bind_l _ _ _ () (set_blocks (if decide (n ∈ logged s) then lh_block s
      else <[Z.to_nat (lh_n s) := n]> (lh_block s)) s)).
    { exists []. unfold lh_set. destruct Hhdr as [Hhn Hhl]. simpl in Hhn, Hhl. case_decide as Hin.
      - pose proof Habs as Hlt%lookup_lt_Some. unfold logged in Habs, Hlt. rewrite length_take in Hlt.
        rewrite lookup_take_lt in Habs by lia. simpl. rewrite decide_True by (unfold logged; lia).
        unfold logged. rewrite list_insert_id by done. done.
      - rewrite Habs. rewrite length_logged by done. simpl. rewrite decide_True by log_lia. done. }
    eapply (does_bind_l _ _ _ () (record n s)).
    { unfold record. destruct Hhdr as [Hhn Hhl]. simpl in Hhn, Hhl. case_decide as Hin.
      - pose proof Habs as Hlt%lookup_lt_Some. rewrite length_logged in Hlt by done.
        rewrite (proj2 (Z.eqb_neq _ _)) by lia. exists []. by destruct s.
      - rewrite Habs, length_logged by done. rewrite (proj2 (Z.eqb_eq _ _)) by lia. by eexists. }
    eapply does_bind_l; [|apply does_release]. apply does_bio. by rewrite Hf1.
  - destruct He' as (Hok' & _ & (_ & Hz & _) & _ & Hdi & _). destruct He as (_ & _ & (_ & Hz0 & _) & _).
    assert (logged (set_lbio t (record n s)) = if decide (n ∈ logged s) then logged s else logged s ++ [n]) as Hl by exact Hlog'.
    unfold log_ok. rewrite Hl. split_and!; [done | done | | | |].
    + unfold geometry_ok. simpl. by rewrite Hf2, Hf6, Hz.
    + assert (∀ b, home (set_lbio t0 s) b → home (set_lbio t (record n s)) b) as Hmono
        by (intros c; unfold home; simpl; by rewrite Hf2, Hz).
      assert (home (set_lbio t0 s) n) as Hn0 by (unfold home in *; simpl; by rewrite <- Hz0).
      assert (Forall (home (set_lbio t (record n s))) (logged s)) as Hall' by (eapply Forall_impl; [exact Hall | done]).
      case_decide; [done|]. apply Forall_app. split; [done|]. constructor; [by apply Hmono | done].
    + case_decide as Hin; [done|]. apply NoDup_app. split_and!; [done | | apply NoDup_singleton].
      by intros x Hx ->%list_elem_of_singleton.
    + intros m. rewrite Hdi. destruct (decide (m = n)) as [->|Hm].
      * split; [intros _ | done]. case_decide; [done|]. apply elem_of_app. right. by left.
      * rewrite Hdirty. change (logged (set_lbio t0 s)) with (logged s). case_decide; [done|].
        rewrite elem_of_app, list_elem_of_singleton. naive_solver.
Qed.

(** ** Transactions *)

(** The use of the log the comment above [log_write] describes: read a block,
    change its data, log it, release it. *)
Definition update_block (u : Z * (list Z → list Z)) : M lstate unit :=
  bp ← bio (bread ROOTDEV u.1) ;
  bio (updb bp (λ b, set_bdata (u.2 (bdata b)) b)) ;;
  log_write bp ;;
  bio (brelse bp).

(** A file system operation as the log sees it. *)
Definition transaction (us : list (Z * (list Z → list Z))) : M lstate unit :=
  begin_op ;;
  for_each us update_block ;;
  end_op.

(** The same updates on a plain array of blocks. *)
Definition update_spec (c : Z → list Z) (us : list (Z * (list Z → list Z))) : Z → list Z :=
  foldl (λ c u, upd_block c u.1 (u.2 (c u.1))) c us.

Lemma update_block_spec s n f :
  log_ok s [] → home s n → (∀ x, length x = 512%nat → length (f x) = 512%nat) →
  lh_n s < LOGMAX → lh_n s < size s - 1 → 1 ≤ outstanding s →
  ∃ t, does (update_block (n, f)) s () (set_lbio t (record n s)) [] ∧ log_ok (set_lbio t (record n s)) [] ∧
    same_disk (lbio s) t ∧ ∀ m, content t m = upd_block (content (lbio s)) n (f (content (lbio s) n)) m.
Proof.
  intros Hok Hhome Hf Hn1 Hn2 Ho. pose proof (nfree_bound s [] Hok) as Hnf.
  pose proof Hok as (Hcok & Hhdr & Hgeo & Hall & Hnd & Hdirty). pose proof Hgeo as (Hdev & _).
  rewrite length_logged in Hnf by done. assert (NBUF = 30%nat) as HN by done. rewrite HN in Hnf. simpl in Hnf.
  destruct (bread_spec (lbio s) [] n) as (i & s1 & H1 & Hok1 & Hs1 & _ & Hh1 & _ & _);
    [done | destruct Hhome; lia | by intros ? ? ? ?%elem_of_nil | right; destruct Hhdr; log_lia |].
  assert (i ∈ [i]) as Hi by left. pose proof (edited_refl s1 [i] i n _ _ Hok1 Hi Hh1) as He1.
  pose proof (edited_length _ _ _ _ _ _ _ He1) as Hlen.
  destruct (edited_data s1 [i] i n _ _ s1 f He1 (Hf _ Hlen)) as (s2 & H2 & He2).
  destruct Hs1 as (Hd1 & Hz1 & Hp1 & Hc1 & Hdi1).
  destruct (log_write_spec (set_lbio s2 s) [i] i n (f (content (lbio s) n)) (dirty (lbio s) n) s1) as (t3 & H3 & He3 & Hok3); try done.
  { by apply (log_ok_lbio s []). }
  { destruct He2 as (_ & _ & (_ & Hz & _) & _). unfold home in *. simpl. by rewrite Hz, Hz1. }
  rewrite record_lbio in H3, Hok3. change (set_lbio t3 (set_lbio s2 (record n s))) with (set_lbio t3 (record n s)) in *.
  pose proof He3 as (Hok3' & _ & (Hd3 & Hz3 & Hp3) & Hc3 & Hdi3 & Hh3 & _).
  destruct (brelse_spec t3 [] i n _ true Hok3' Hh3) as (t & H4 & Hok4 & (Hd4 & Hz4 & Hp4 & Hc4 & Hdi4) & _); [done|].
  exists t. split_and!.
  - unfold update_block. eapply does_bind_l; [apply does_bio; exact H1|]. eapply does_bind_l; [apply does_bio; exact H2|].
    eapply does_bind_l; [exact H3|]. exact (does_bio (brelse i) (set_lbio t3 (record n s)) () t [] H4).
  - apply (log_ok_lbio (set_lbio t3 (record n s)) [i]); try done.
  - split_and!; congruence.
  - intros m. rewrite Hc4, Hc3. unfold upd_block. case_decide as Hm; [by rewrite Hm, Z.eqb_refl|].
    by rewrite (proj2 (Z.eqb_neq _ _) Hm), Hc1.
Qed.

Lemma update_spec_ext us c c' : (∀ m, c m = c' m) → ∀ m, update_spec c us m = update_spec c' us m.
Proof.
  revert c c'. induction us as [|u us IH]; intros c c' H; simpl; [done|]. apply IH. intros m.
  unfold upd_block. by rewrite !H.
Qed.

(** What an update can be: it changes a block outside the log, and keeps its size. *)
Definition update_ok (s : lstate) (u : Z * (list Z → list Z)) : Prop :=
  home s u.1 ∧ ∀ x, length x = 512%nat → length (u.2 x) = 512%nat.

Definition same_log (s s' : lstate) : Prop :=
  start s' = start s ∧ size s' = size s ∧ outstanding s' = outstanding s ∧ committing s' = committing s ∧
  same_disk (lbio s) (lbio s').

Lemma updates_spec us : ∀ s,
  log_ok s [] → Forall (update_ok s) us → lh_n s + length us ≤ LOGMAX → lh_n s + length us < size s →
  1 ≤ outstanding s →
  ∃ s', does (for_each us update_block) s () s' [] ∧ log_ok s' [] ∧ same_log s s' ∧
    lh_n s' ≤ lh_n s + length us ∧ ∀ m, content (lbio s') m = update_spec (content (lbio s)) us m.
Proof.
  induction us as [|[n f] us IH]; intros s Hok Hus Hn1 Hn2 Ho; simpl.
  { exists s. split_and!; [apply does_ret | done | by split_and! | simpl; lia | done]. }
  apply Forall_cons in Hus as [[Hhome Hf] Hus]. cbn [length] in *. rewrite Nat2Z.inj_succ in *.
  destruct (update_block_spec s n f) as (t & H1 & Hok1 & (Hd & Hz & Hp) & Hc); try done; try lia.
  destruct (record_frame n s) as (Hf1 & Hf2 & Hf3 & Hf4 & Hf5 & Hf6).
  assert (lh_n (record n s) ≤ lh_n s + 1) as Hn by (unfold record; case_decide; simpl; lia).
  destruct (IH (set_lbio t (record n s))) as (s' & H2 & Hok2 & (? & ? & ? & ? & ? & ? & ?) & Hn' & Hc'); try done; simpl in *; try lia.
  { eapply Forall_impl; [exact Hus|]. intros u [Hu1 Hu2]. split; [|done]. unfold home in *. simpl. by rewrite Hz, Hf2. }
  exists s'. split_and!; [by eapply does_bind_l | done | | lia |].
  - split_and!; try congruence. split_and!; congruence.
  - intros m. rewrite Hc'. by apply update_spec_ext.
Qed.

(** The log between transactions: nothing logged, and the header on the disk clear. *)
Definition idle (s : lstate) : Prop :=
  log_ok s [] ∧ lh_n s = 0 ∧ outstanding s = 0 ∧ committing s = 0 ∧
  logstart (superblock_of (disk (lbio s) 1)) = start s ∧ head_n (disk (lbio s)) (start s) = 0.

Lemma logged_nil s : lh_n s = 0 → logged s = [].
Proof. unfold logged. by intros ->. Qed.

Lemma idle_content s m : idle s → content (lbio s) m = disk (lbio s) m.
Proof.
  intros ((Hok & _ & _ & _ & _ & Hd) & Hn & _). apply clean_content; [done|]. apply not_true_is_false.
  rewrite Hd, logged_nil by done. by intros ?%elem_of_nil.
Qed.

(** [commit], whether or not there is anything to write. *)
Lemma commit_any s : log_ok s [] → lh_n s < LOGMAX →
  let w := if decide (lh_n s = 0) then [] else commit_writes (content (lbio s)) (start s) (logged s) in
  ∃ t, does commit s () (set_n 0 (set_lbio t s)) w ∧ moved (lbio s) w t ∧ log_ok (set_n 0 (set_lbio t s)) [].
Proof.
  intros Hok Hn w. pose proof Hok as (Hcok & Hhdr & Hgeo & Hall & Hnd & Hdirty).
  assert (∃ t, does commit s () (set_n 0 (set_lbio t s)) w ∧ moved (lbio s) w t) as (t & Hrun & Hm).
  { unfold w. case_decide as H0.
    - exists (lbio s). split; [|by apply moved_refl]. eapply does_bind_l; [apply does_gets|]. rewrite H0. simpl.
      exists []. split; [|done]. rewrite <- H0. by destruct s.
    - apply commit_spec; [by apply log_ok_commit | destruct Hhdr; lia]. }
  exists t. split_and!; try done. pose proof Hm as (Hokt & Hz & _ & _ & _ & Hdi & _). split_and!; try done.
  - destruct Hhdr. split; simpl; [log_lia | done].
  - unfold geometry_ok in *. simpl. by rewrite Hz.
  - rewrite logged_nil by done. apply NoDup_nil_2.
  - intros m. rewrite logged_nil by done. simpl. rewrite Hdi. split; [|by intros ?%elem_of_nil].
    intros [Hm1%Hdirty Hm2]%andb_true_iff. apply negb_true_iff, bool_decide_eq_false in Hm2. destruct Hm2.
    unfold w. rewrite decide_False by (intros H0; rewrite logged_nil in Hm1 by done; by apply elem_of_nil in Hm1).
    apply list_elem_of_fmap. exists (m, content (lbio s) m). split; [done|]. unfold commit_writes. rewrite !elem_of_app.
    right. right. left. apply list_elem_of_fmap. by exists m.
Qed.

Lemma begin_op_run s : idle s → does begin_op s () (set_outstanding 1 s) [].
Proof.
  intros (_ & Hn & Ho & Hc & _). exists [EAcquire Llog; ERelease Llog].
  unfold begin_op, begin_op_loop, begin_op_pass. mrun. by rewrite Hc, Hn, Ho.
Qed.

Lemma end_op_run s t w : outstanding s = 1 → committing s = 0 →
  does commit (set_committing 1 (set_outstanding 0 s)) () t w →
  does end_op s () (set_committing 0 t) w.
Proof.
  intros Ho Hc Hcommit. unfold end_op. eapply does_bind_l; [apply does_acquire|].
  eapply does_bind_l; [apply does_modify|]. rewrite Ho. eapply does_bind_l; [apply does_gets|]. simpl. rewrite Hc.
  change (truth 0) with false. cbv iota. eapply does_bind_l; [apply does_gets|]. simpl.
  eapply does_bind_l; [apply does_modify|]. eapply does_bind_l; [apply does_release|].
  eapply does_bind_r; [exact Hcommit|]. eapply does_bind_l; [apply does_acquire|].
  eapply does_bind_l; [apply does_modify|]. eapply does_bind_l; [apply does_wakeup | apply does_release].
Qed.

(** A reboot that crashes in turn: [d'] is on the disk after some of the writes of a recovery from [d]. *)
Definition crash_in_recovery (size pid : Z) (d d' : Z → list Z) : Prop :=
  ∃ s w w', does power_on (fresh d size pid) () s w ∧ w' `prefix_of` w ∧ d' = apply_writes d w'.

Section after_crash.
Context (L size pid : Z) (d0 c : Z → list Z) (bl : list Z).
Context (HL : 1 < L) (Hsize : L + LOGMAX < size < 2 ^ 31) (Hsb : logstart (superblock_of (d0 1)) = L).
Context (Hd0 : ∀ n, length (d0 n) = 512%nat) (Hc : ∀ n, length (c n) = 512%nat).
Context (Hbl : Forall (λ b, 1 < b < size ∧ outside L b) bl) (Hn : Z.of_nat (length bl) ≤ LOGMAX).
Context (Hsame : ∀ n, n ∉ bl → c n = d0 n) (Hclear : head_n d0 L = 0).

Abbreviation ok := (disk_ok d0).
Abbreviation old := (is_old L d0).
Abbreviation new := (is_new L c).
Abbreviation pending := (is_logged L c bl).

Lemma power_on_writes d s w :
  ok d → old d ∨ new d ∨ pending d → does power_on (fresh d size pid) () s w →
  w = recover_writes d L ∧ idle s ∧ start s = L ∧ ∀ n, disk (lbio s) n = apply_writes d w n.
Proof using All.
  intros Hok Hd Hrun. pose proof (crash_recoverable L size d0 c bl HL Hsize Hsb Hbl Hn d Hok Hd) as Hrec.
  destruct (power_on_spec d size pid L Hrec) as (s' & Hrun' & Hm & Hn' & Hst & Hdev & Ho & Hcm & Hsz & Hlb).
  destruct (does_fun _ _ _ _ _ _ _ _ Hrun Hrun') as (_ & -> & ->). split; [done|].
  pose proof Hm as (Hokm & Hz & _ & Hdm & _ & Hdi & _).
  destruct (recover_crash L size d0 c bl HL Hsize Hsb Hd0 Hc Hbl Hn Hsame Hclear d _ Hok Hd (reflexivity _))
    as ([_ Hd1] & Ho1 & Hn1 & _ & Hl1).
  split_and!; [|done | by apply Hdm].
  split_and!; try done.
  - unfold log_ok. rewrite logged_nil by done. split_and!; [done | | | done | apply NoDup_nil_2 |].
    + split; [rewrite Hn'; log_lia | done].
    + unfold geometry_ok. rewrite Hst, Hz. split_and!; simpl; try done; log_lia.
    + intros m. rewrite Hdi, booted_dirty. split; [done | by intros ?%elem_of_nil].
  - rewrite Hst, Hdm. simpl. rewrite Hd1. done.
  - rewrite Hst. unfold head_n. rewrite Hdm. simpl disk. fold (head_n (apply_writes d (recover_writes d L)) L).
    destruct Hd as [H|[H|H]]; [by apply Ho1 | by apply Hn1 | by apply Hl1].
Qed.

Lemma crash_invariant d d' :
  ok d → old d ∨ new d ∨ pending d → star (crash_in_recovery size pid) d d' →
  ok d' ∧ (old d' ∨ new d' ∨ pending d') ∧ (new d → new d').
Proof using All.
  intros Hok Hd Hstar. eapply (star_invariant _ (λ x, ok x ∧ (old x ∨ new x ∨ pending x) ∧ (new d → new x))); [|done|done].
  intros x y (Hokx & Hx & Hnew) (s & w & w' & Hrun & Hpre & ->).
  destruct (power_on_writes x s w Hokx Hx Hrun) as (-> & _).
  destruct (recover_crash L size d0 c bl HL Hsize Hsb Hd0 Hc Hbl Hn Hsame Hclear x w' Hokx Hx Hpre)
    as (Hok' & Ho1 & Hn1 & Hl1 & _). split_and!; [done | | by auto].
  destruct Hx as [H|[H|H]]; [by auto | by auto | destruct (Hl1 H); auto].
Qed.

Lemma crash_outcome d :
  ok d → old d ∨ new d ∨ pending d →
  ∃ s w, does power_on (fresh d size pid) () s w ∧ idle s ∧ start s = L ∧
    ((∀ n, outside L n → disk (lbio s) n = d0 n) ∨ (∀ n, outside L n → disk (lbio s) n = c n)) ∧
    (new d → ∀ n, outside L n → disk (lbio s) n = c n).
Proof using All.
  intros Hok Hd. destruct (power_on_spec d size pid L) as (s & Hrun & _); [by eapply crash_recoverable|].
  destruct (power_on_writes d s _ Hok Hd Hrun) as (_ & Hidle & Hst & Hdisk).
  destruct (recover_crash L size d0 c bl HL Hsize Hsb Hd0 Hc Hbl Hn Hsame Hclear d _ Hok Hd (reflexivity _))
    as (_ & Ho1 & Hn1 & _ & Hl1).
  exists s, (recover_writes d L). split_and!; try done.
  - destruct Hd as [H|[H|H]]; [left | right | right]; intros n Hout; rewrite Hdisk.
    + by apply Ho1.
    + by apply Hn1.
    + by apply Hl1.
  - intros H n Hout. rewrite Hdisk. by apply Hn1.
Qed.
End after_crash.

Lemma content_length s H n : cache_ok s H → length (content s n) = 512%nat.
Proof.
  intros (_ & [_ Hd] & _ & Hnd & Hb). unfold content. destruct (cached s n) as [b|] eqn:Hc; [|done].
  apply cached_Some in Hc as (i & Hi & _); [|done]. by destruct (Hb i b Hi).
Qed.

(** A transaction without crashes: it writes like a commit of the blocks [bl] it changed. *)
Lemma transaction_run s us :
  idle s → Forall (update_ok s) us → length us ≤ MAXOPBLOCKS → length us < size s →
  ∃ s' c bl, let w := if decide (bl = []) then [] else commit_writes c (start s) bl in
    does (transaction us) s () s' w ∧ log_ok s' [] ∧ lh_n s' = 0 ∧ outstanding s' = 0 ∧ committing s' = 0 ∧
    start s' = start s ∧ (∀ n, disk (lbio s') n = apply_writes (disk (lbio s)) w n) ∧
    (∀ n, c n = update_spec (disk (lbio s)) us n) ∧ (∀ n, length (c n) = 512%nat) ∧
    Forall (λ b, 1 < b < disksize (lbio s) ∧ outside (start s) b) bl ∧ Z.of_nat (length bl) ≤ LOGMAX ∧
    (∀ n, n ∉ bl → c n = disk (lbio s) n).
Proof.
  intros Hidle Hus Hlen Hsz. pose proof Hidle as (Hok & Hn & Ho & Hcm & Hsb & Hclear).
  destruct (updates_spec us (set_outstanding 1 s)) as (s1 & H1 & Hok1 & (Hs1 & Hs2 & Hs3 & Hs4 & Hs5 & Hs6 & Hs7) & Hn1 & Hc1);
    simpl in *; try done; try log_lia.
  set (s2 := set_committing 1 (set_outstanding 0 s1)).
  destruct (commit_any s2) as (t & H2 & Hm & Hok2); [done | simpl; log_lia |].
  pose proof Hok1 as (Hcok & Hhdr & _ & Hhome & _ & Hdirty). pose proof Hm as (_ & _ & _ & Hd & _).
  exists (set_committing 0 (set_n 0 (set_lbio t s2))), (content (lbio s1)), (logged s1).
  assert ((if decide (lh_n s2 = 0) then [] else commit_writes (content (lbio s2)) (start s2) (logged s2)) =
    (if decide (logged s1 = []) then [] else commit_writes (content (lbio s1)) (start s) (logged s1))) as Hw.
  { simpl. rewrite Hs1. destruct (decide (lh_n s1 = 0)) as [H0|H0], (decide (logged s1 = [])) as [He|He]; try done.
    - by rewrite logged_nil in He.
    - apply (f_equal length) in He. rewrite length_logged in He by done. simpl in He. destruct Hhdr. lia. }
  rewrite Hw in *. split_and!; try done.
  - unfold transaction. eapply does_bind_l; [by apply begin_op_run|]. eapply does_bind_l; [exact H1|].
    apply end_op_run; [done | congruence | exact H2].
  - intros n. simpl. rewrite Hd. simpl. by rewrite Hs5.
  - intros n. rewrite Hc1. apply update_spec_ext. intros m. by apply idle_content.
  - intros n. by eapply content_length.
  - eapply Forall_impl; [exact Hhome|]. unfold home, outside. intros b. by rewrite Hs1, Hs6.
  - rewrite length_logged by done. destruct Hhdr. lia.
  - intros n Hnb. rewrite clean_content; [by rewrite Hs5 | done |]. apply not_true_is_false. by rewrite Hdirty.
Qed.

(** C1: Transactions are atomic across crashes. An operation that starts on an idle
    log and updates up to [MAXOPBLOCKS] blocks through [begin_op], [log_write]
    and [end_op] runs to completion and leaves every block outside the log as
    the updates say. If the machine loses power after any prefix of its
    disk writes, and again during any number of recoveries, then the next
    [initlog] completes and leaves either all of the old contents or all of the new ones;
    once [end_op] has returned, the new ones. *)
Theorem transaction_crash_safe s us pid :
  idle s → Forall (update_ok s) us → length us ≤ MAXOPBLOCKS → length us < size s →
  let old := disk (lbio s) in
  let new := update_spec old us in
  ∃ s' w, does (transaction us) s () s' w ∧ idle s' ∧
    (∀ n, outside (start s) n → disk (lbio s') n = new n) ∧
    ∀ w' d, w' `prefix_of` w → star (crash_in_recovery (disksize (lbio s)) pid) (apply_writes old w') d →
      ∃ s'' w'', does power_on (fresh d (disksize (lbio s)) pid) () s'' w'' ∧ idle s'' ∧
        ((∀ n, outside (start s) n → disk (lbio s'') n = old n) ∨
         (∀ n, outside (start s) n → disk (lbio s'') n = new n)) ∧
        (w' = w → ∀ n, outside (start s) n → disk (lbio s'') n = new n).
Proof.
  intros Hidle Hus Hlen Hsz old new. pose proof Hidle as (Hok & Hn & Ho & Hcm & Hsb & Hclear).
  destruct (transaction_run s us Hidle Hus Hlen Hsz)
    as (s' & c & bl & Hrun & Hok' & Hn' & Ho' & Hcm' & Hst' & Hd' & Hc & Hlc & Hbl & Hnb & Hsame).
  set (w := if decide (bl = []) then [] else commit_writes c (start s) bl) in *.
  pose proof Hok as ((_ & [_ Hd0] & _) & _ & (_ & HL & Hsz1 & Hsz2) & _).
  assert (∀ w', w' `prefix_of` w → let d := apply_writes old w' in disk_ok old d ∧
    (is_old (start s) old d ∨ is_new (start s) c d ∨ is_logged (start s) c bl d) ∧ (w' = w → is_new (start s) c d)) as Hcrash.
  { intros w' Hw'. unfold w in Hw' |- *. case_decide as Hb; [|by eapply commit_crash; eauto with lia].
    apply prefix_nil_inv in Hw' as ->. split_and!; [done | by left|]. intros _. split; [done|].
    intros n _. simpl. symmetry. apply Hsame. rewrite Hb. apply not_elem_of_nil. }
  exists s', w. split_and!; try done.
  - destruct (Hcrash w) as ([_ H1] & _ & Hnew); [done|]. destruct (Hnew eq_refl) as [Hh _].
    split_and!; try done; rewrite Hst'; [rewrite <- Hsb, Hd'; do 2 f_equal; exact H1|]. unfold head_n. rewrite Hd'. exact Hh.
  - intros n Hout. rewrite Hd'. unfold new. rewrite <- Hc. destruct (Hcrash w) as (_ & _ & Hnew); [done|].
    by apply (Hnew eq_refl).
  - intros w' d Hw' Hstar. destruct (Hcrash w' Hw') as (Hok1 & Hst1 & Hnew1).
    destruct (crash_invariant (start s) (disksize (lbio s)) pid old c bl HL (conj Hsz1 Hsz2) Hsb Hd0 Hlc Hbl Hnb Hsame Hclear
      _ d Hok1 Hst1 Hstar) as (Hok2 & Hst2 & Hnew2).
    destruct (crash_outcome (start s) (disksize (lbio s)) pid old c bl HL (conj Hsz1 Hsz2) Hsb Hd0 Hlc Hbl Hnb Hsame Hclear
      d Hok2 Hst2) as (s'' & w'' & Hrun'' & Hidle'' & _ & Hout & Hnew'').
    exists s'', w''. split_and!; try done.
    + destruct Hout as [Hout|Hout]; [by left | right]. intros n Hn0. rewrite Hout by done. apply Hc.
    + intros Hww n Hn0. rewrite Hnew''; auto.
Qed.

(** A small file system: super block, log at block 2, and zeros. *)
Definition ex_disk : Z → list Z := λ n,
  if n =? 1 then put_words (replicate 512 0) 0 [1000; 941; 200; 30; 2; 32; 58] else replicate 512 0.
Definition ex_log : lstate := mk_lstate (booted ex_disk 1000 1) 2 30 0 0 1 0 (replicate 30 0).
Definition ex_updates : list (Z * (list Z → list Z)) :=
  [(100, splice 0 [1]); (200, splice 4 [2]); (100, splice 8 [3])].

Lemma ex_log_idle : idle ex_log.
Proof.
  split_and!; [|done..]. split_and!; [|by split|by vm_compute|done|constructor|].
  - apply booted_ok. intros n. unfold ex_disk. case_match; [by vm_compute | apply length_replicate].
  - intros m. change (logged ex_log) with (@nil Z). change (lbio ex_log) with (booted ex_disk 1000 1).
    rewrite booted_dirty. split; [done | by intros ?%elem_of_nil].
Qed.

Lemma transaction_crash_safe_witness :
  ∃ s' w, does (transaction ex_updates) ex_log () s' w ∧ idle s' ∧
    (∀ n, outside (start ex_log) n → disk (lbio s') n = update_spec (disk (lbio ex_log)) ex_updates n) ∧
    ∀ w' d, w' `prefix_of` w →
      star (crash_in_recovery (disksize (lbio ex_log)) 1) (apply_writes (disk (lbio ex_log)) w') d →
      ∃ s'' w'', does power_on (fresh d (disksize (lbio ex_log)) 1) () s'' w'' ∧ idle s'' ∧
        ((∀ n, outside (start ex_log) n → disk (lbio s'') n = disk (lbio ex_log) n) ∨
         (∀ n, outside (start ex_log) n → disk (lbio s'') n = update_spec (disk (lbio ex_log)) ex_updates n)) ∧
        (w' = w → ∀ n, outside (start ex_log) n →
           disk (lbio s'') n = update_spec (disk (lbio ex_log)) ex_updates n).
Proof.
  apply (transaction_crash_safe ex_log ex_updates 1); [apply ex_log_idle | | done | done].
  unfold ex_updates. repeat (apply Forall_cons_2; [split; [unfold home, ex_log; simpl; log_lia|
    intros x Hx; cbn [snd]; rewrite length_splice; simpl; lia]|]). apply Forall_nil_2.
Defined.

(** ** Log space

    Several operations run at once, each entitled to log [MAXOPBLOCKS] blocks;
    [begin_op] admits an operation only when the log has room for it. *)

(** The log and what each operation in progress may still log. *)
Inductive space_step : lstate * list Z → lstate * list Z → Prop :=
  | space_begin s s' tr ops : begin_op s = Ok () s' tr → space_step (s, ops) (s', MAXOPBLOCKS :: ops)
  | space_write s s' tr i ops1 k ops2 :
      0 < k → log_write i s = Ok () s' tr → space_step (s, ops1 ++ k :: ops2) (s', ops1 ++ (k - 1) :: ops2)
  | space_end s s' tr ops1 k ops2 : end_op s = Ok () s' tr → space_step (s, ops1 ++ k :: ops2) (s', ops1 ++ ops2)
  | space_other s t ops : space_step (s, ops) (set_lbio t s, ops).

(** [m] changes neither the number of logged blocks nor the bookkeeping of operations. *)
Definition framed {A} (m : M lstate A) : Prop := ∀ s a s' tr, m s = Ok a s' tr →
  size s' = size s ∧ outstanding s' = outstanding s ∧ lh_n s' = lh_n s ∧ length (lh_block s') = length (lh_block s).

Create HintDb framed.

Lemma framed_ret {A} (a : A) : framed (mret a).
Proof. by intros s ? ? ? [= <- <- <-]. Qed.
Lemma framed_gets {A} (f : lstate → A) : framed (gets f).
Proof. by intros s ? ? ? [= <- <- <-]. Qed.
Lemma framed_bind {A B} (m : M lstate A) (k : A → M lstate B) : framed m → (∀ a, framed (k a)) → framed (m ≫= k).
Proof.
  intros Hm Hk s b s' tr (a & s1 & t1 & t2 & H1 & H2 & _)%bind_inv.
  destruct (Hm _ _ _ _ H1) as (? & ? & ? & ?), (Hk _ _ _ _ _ H2) as (? & ? & ? & ?). split_and!; congruence.
Qed.
Lemma framed_bio {A} (m : M bstate A) : framed (bio m).
Proof. intros s a s' tr. unfold bio, zoom. destruct (m (lbio s)); [|done..]. by intros [= <- <- <-]. Qed.
Lemma framed_lh_get i : framed (lh_get i).
Proof. intros s a s' tr. unfold lh_get. destruct (_ !! _); [|done]. by intros [= <- <- <-]. Qed.
Lemma framed_for_each {A} (l : list A) body : (∀ x, framed (body x)) → framed (for_each l body).
Proof. intros Hb. induction l; simpl; [apply framed_ret | by apply framed_bind]. Qed.
Lemma framed_each_logged body : (∀ i, framed (body i)) → framed (each_logged body).
Proof. intros Hb. apply framed_bind; [apply framed_gets | intros n; by apply framed_for_each]. Qed.

#[export] Hint Resolve framed_ret framed_gets framed_bind framed_bio framed_lh_get framed_each_logged : framed.

Lemma framed_install_trans : framed install_trans.
Proof. unfold install_trans, install_one. eauto 30 with framed. Qed.
Lemma framed_write_log : framed write_log.
Proof. unfold write_log, write_log_one. eauto 30 with framed. Qed.
Lemma framed_write_head : framed write_head.
Proof. unfold write_head. eauto 30 with framed. Qed.

Lemma commit_frame s s' tr : commit s = Ok () s' tr →
  size s' = size s ∧ outstanding s' = outstanding s ∧ (0 ≤ lh_n s → 0 ≤ lh_n s' ≤ lh_n s) ∧
  length (lh_block s') = length (lh_block s).
Proof.
  unfold commit. intros (n & s0 & t1 & t2 & [= <- <- <-] & H & _)%bind_inv.
  destruct (0 <? lh_n s); simpl in H; [|injection H as <- <-; split_and!; [done | done | lia | done]].
  apply bind_inv in H as ([] & s1 & ? & ? & H1%framed_write_log & H & _).
  apply bind_inv in H as ([] & s2 & ? & ? & H2%framed_write_head & H & _).
  apply bind_inv in H as ([] & s3 & ? & ? & H3%framed_install_trans & H & _).
  apply bind_inv in H as ([] & s4 & ? & ? & [= <- <-] & H4%framed_write_head & _).
  simpl in H4. destruct H1 as (? & ? & ? & ?), H2 as (? & ? & ? & ?), H3 as (? & ? & ? & ?), H4 as (? & ? & ? & ?).
  split_and!; [congruence | congruence | lia | congruence].
Qed.

Lemma end_op_frame s s' tr : end_op s = Ok () s' tr →
  size s' = size s ∧ outstanding s' = outstanding s - 1 ∧ (0 ≤ lh_n s → 0 ≤ lh_n s' ≤ lh_n s) ∧
  length (lh_block s') = length (lh_block s).
Proof.
  unfold end_op. intros H. apply bind_inv in H as ([] & s1 & ? & ? & [= <- <-] & H & _).
  apply bind_inv in H as ([] & s2 & ? & ? & [= <- <-] & H & _).
  apply bind_inv in H as (c & s3 & ? & ? & [= <- <- <-] & H & _). destruct (truth _); [done|].
  apply bind_inv in H as (o & s4 & ? & ? & [= <- <- <-] & H & _). simpl outstanding in H.
  apply bind_inv in H as ([] & s5 & ? & ? & H5 & H & _).
  assert (size s5 = size s ∧ outstanding s5 = outstanding s - 1 ∧ lh_n s5 = lh_n s ∧
    length (lh_block s5) = length (lh_block s)) as (Hz & Ho & Hn & Hl).
  { destruct (outstanding s - 1 =? 0); by injection H5 as <- <-. }
  apply bind_inv in H as ([] & s6 & ? & ? & [= <- <-] & H & _).
  destruct (outstanding s - 1 =? 0); simpl in H; [|injection H as <- <-; split_and!; [done | done | lia | done]].
  apply bind_inv in H as ([] & s7 & ? & ? & (Hz7 & Ho7 & Hn7 & Hl7)%commit_frame & H & _).
  injection H as <- <-. simpl. split_and!; [congruence | congruence | lia | congruence].
Qed.

(** The log has room for what the operations in progress may still log. *)
Definition room (x : lstate * list Z) : Prop :=
  let '(s, ops) := x in
  LOGSIZE < size s ∧ outstanding s = length ops ∧ Forall (λ k, 0 ≤ k ≤ MAXOPBLOCKS) ops ∧
  0 ≤ lh_n s ∧ lh_n s + foldr Z.add 0 ops ≤ LOGSIZE ∧ length (lh_block s) = Z.to_nat LOGSIZE.

Lemma sum_bound ops : Forall (λ k, 0 ≤ k ≤ MAXOPBLOCKS) ops → 0 ≤ foldr Z.add 0 ops ≤ length ops * MAXOPBLOCKS.
Proof. unfold MAXOPBLOCKS. induction 1; simpl length; simpl foldr; lia. Qed.

Lemma sum_middle ops1 k ops2 : foldr Z.add 0 (ops1 ++ k :: ops2) = k + foldr Z.add 0 (ops1 ++ ops2).
Proof. induction ops1; simpl; lia. Qed.

Lemma log_write_Ok s i s' tr : log_write i s = Ok () s' tr →
  size s' = size s ∧ outstanding s' = outstanding s ∧ lh_n s ≤ lh_n s' ≤ lh_n s + 1 ∧
  length (lh_block s') = length (lh_block s).
Proof.
  unfold log_write. intros H. apply bind_inv in H as (s0 & s1 & ? & ? & [= <- <- <-] & H & _).
  destruct (_ || _); [done|]. destruct (outstanding s <? 1); [done|].
  apply bind_inv in H as ([] & s2 & ? & ? & [= <- <-] & H & _).
  apply bind_inv in H as (bf & s3 & ? & ? & (Hz & Ho & Hn & Hl)%framed_bio & H & _). cbv zeta in H.
  apply bind_inv in H as ([] & s4 & ? & ? & H4 & H & _).
  assert (size s4 = size s3 ∧ outstanding s4 = outstanding s3 ∧ lh_n s4 = lh_n s3 ∧
    length (lh_block s4) = length (lh_block s3)) as (Hz4 & Ho4 & Hn4 & Hl4).
  { revert H4. unfold lh_set. case_decide; [|done]. intros [= <- <-]. simpl. by rewrite length_insert. }
  apply bind_inv in H as ([] & s5 & ? & ? & H5 & H & _).
  assert (size s5 = size s4 ∧ outstanding s5 = outstanding s4 ∧ lh_n s4 ≤ lh_n s5 ≤ lh_n s4 + 1 ∧
    length (lh_block s5) = length (lh_block s4)) as (Hz5 & Ho5 & Hn5 & Hl5).
  { destruct (_ =? _); simpl in H5; injection H5 as <- <-; simpl; split_and!; lia. }
  apply bind_inv in H as ([] & s6 & ? & ? & (Hz6 & Ho6 & Hn6 & Hl6)%framed_bio & [= <- <-] & _).
  split_and!; lia.
Qed.

Lemma room_step x y : room x → space_step x y → room y.
Proof.
  intros Hr Hs. destruct Hs as [s s' tr ops Hb|s s' tr i ops1 k ops2 Hk Hw|s s' tr ops1 k ops2 He|s t ops];
    [| | |done]; destruct Hr as (Hsz & Ho & Hops & Hn & Hsum & Hl); unfold room.
  - revert Hb. unfold begin_op. mrun. unfold begin_op_loop, begin_op_pass. destruct (truth _); [done|].
    destruct (Z.ltb_spec LOGSIZE (lh_n s + (outstanding s + 1) * MAXOPBLOCKS)) as [|Hroom]; [done|].
    intros [= <- <-]. pose proof (sum_bound ops Hops). simpl. split_and!; [done | lia | | done | | done].
    + constructor; [unfold MAXOPBLOCKS; lia | done].
    + log_lia.
  - destruct (log_write_Ok s i s' tr Hw) as (Hz' & Ho' & Hn' & Hl').
    rewrite length_app in *. simpl in *. rewrite sum_middle in *. apply Forall_app in Hops as [H1 [H2 H3]%Forall_cons].
    split_and!; [lia | lia | | lia | lia | lia]. apply Forall_app. split; [done|]. constructor; [lia | done].
  - destruct (end_op_frame s s' tr He) as (Hz' & Ho' & Hn' & Hl').
    rewrite length_app in *. simpl in *. rewrite sum_middle in Hsum. apply Forall_app in Hops as [H1 [H2 H3]%Forall_cons].
    split_and!; [lia | lia | by apply Forall_app | lia | lia | lia].
Qed.

Lemma absorb_le bs b : (absorb bs b ≤ length bs)%nat.
Proof. induction bs; simpl; [lia|]. case_match; lia. Qed.

(** C38: The admission test of [begin_op] reserves enough log space. On a log of more
    than [LOGSIZE] blocks, in any interleaving of operations that each log
    at most [MAXOPBLOCKS] blocks, an operation that may still log a block can: its
    [log_write] returns, and does not panic for want of space. *)
Theorem log_space_suffices s s' i ops1 k ops2 :
  LOGSIZE < size s → outstanding s = 0 → lh_n s = 0 → length (lh_block s) = Z.to_nat LOGSIZE →
  star space_step (s, []) (s', ops1 ++ k :: ops2) → 0 < k → (i < length (bufs (lbio s')))%nat →
  ∃ s'' tr, log_write i s' = Ok () s'' tr.
Proof.
  intros Hsz Ho Hn Hl Hstar Hk Hi.
  assert (room (s', ops1 ++ k :: ops2)) as (Hsz' & Ho' & Hops & Hn' & Hsum & Hl').
  { eapply star_invariant; [apply room_step | exact Hstar |]. split_and!; try done; simpl; rewrite Hn; log_lia. }
  rewrite sum_middle in Hsum. apply Forall_app in Hops as [Hops1 [_ Hops2]%Forall_cons].
  pose proof (sum_bound (ops1 ++ ops2) ltac:(by apply Forall_app)) as Hs. rewrite length_app in Ho'. simpl in Ho'.
  unfold log_write. mrun. rewrite (proj2 (Z.leb_gt LOGSIZE (lh_n s'))) by lia.
  rewrite (proj2 (Z.leb_gt (size s' - 1) (lh_n s'))) by lia. simpl orb. cbv iota.
  rewrite (proj2 (Z.ltb_ge (outstanding s') 1)) by lia. simpl. unfold bio, zoom, getb.
  destruct (lookup_lt_is_Some_2 _ _ Hi) as [b Hb]. rewrite Hb. simpl.
  pose proof (absorb_le (take (Z.to_nat (lh_n s')) (lh_block s')) (blockno b)) as Ha. rewrite length_take in Ha.
  unfold lh_set. simpl. rewrite decide_True by log_lia. simpl. destruct (_ =? _); simpl; eauto.
Qed.

Definition ex_roomy : lstate := set_geometry 2 31 1 ex_log.

Lemma log_space_suffices_witness :
  star space_step (ex_roomy, []) (set_outstanding 1 ex_roomy, [MAXOPBLOCKS]) ∧
  ∃ s'' tr, log_write 0 (set_outstanding 1 ex_roomy) = Ok () s'' tr.
Proof.
  assert (star space_step (ex_roomy, []) (set_outstanding 1 ex_roomy, [MAXOPBLOCKS])) as Hstar.
  { eapply star_step; [apply star_refl|]. eapply space_begin. reflexivity. }
  split; [exact Hstar|].
  apply (log_space_suffices ex_roomy (set_outstanding 1 ex_roomy) 0 [] MAXOPBLOCKS []); try reflexivity.
  - exact Hstar.
  - apply Nat.ltb_lt. reflexivity.
Defined.

(** The log mkfs makes is one block short. With [nlog = LOGSIZE], one of whose
    blocks is the header, [begin_op] admits three operations, and when each of them
    logs [MAXOPBLOCKS] blocks of its own the last [log_write] panics. *)
Theorem log_one_block_short :
  size ex_log = LOGSIZE ∧
  crashes (begin_op ;; begin_op ;; begin_op ;;
           for_each ((λ n, (Z.of_nat n, splice 0 [1])) <$> seq 100 (3 * Z.to_nat MAXOPBLOCKS)) update_block) ex_log
    (Panicked "too big a transaction").
Proof. split; [done|]. eexists. vm_compute. reflexivity. Qed.

End Log.
