(* ===== verification/Block.v ===== *)
(** * The block layer as the file system sees it

    fs.c reads and changes disk blocks only through [bread], the [data] of the
    buffer, [log_write] and [brelse]. [BlockLayer] names these operations,
    [BlockSpec] is what fs.c relies on, and the last section shows that the
    buffer cache and the log keep that promise inside a transaction. *)

From S2P Require Import Prelude Memory Layout Sleeplock Bio Log.

Class BlockLayer (B : Type) := {
  l_bread : Z → Z → M B nat;
  l_data : nat → M B (list Z);
  l_edit : nat → (list Z → list Z) → M B unit;
  l_log_write : nat → M B unit;
  l_brelse : nat → M B unit;
}.

(** A buffer the process holds: the buffer, its block, and whether its data has
    been changed and not yet logged. *)
Abbreviation held := (nat * Z * bool)%type.
Definition blocks_of (H : list held) : list Z := (λ h, h.1.2) <$> H.
Definition bufs_of (H : list held) : list nat := (λ h, h.1.1) <$> H.

(** What there is to say about a state: [l_ok b H] when the process holds the
    buffers [H], the last one it read first; [l_home] are the blocks that may be
    logged, [l_cap] how many of them the log takes. *)
Class BlockView (B : Type) := {
  l_ok : B → list held → Prop;
  l_content : B → Z → list Z;
  l_logged : B → gset Z;
  l_disksize : B → Z;
  l_home : B → Z → Prop;
  l_cap : B → nat;
}.

(** [b'] has the contents [c] and the logged blocks [w], and is otherwise like [b]. *)
Definition l_step {B} `{BlockView B} (b b' : B) (c : Z → list Z) (w : gset Z) : Prop :=
  (∀ n, l_content b' n = c n) ∧ l_logged b' = w ∧
  l_disksize b' = l_disksize b ∧ (∀ n, l_home b' n ↔ l_home b n) ∧ l_cap b' = l_cap b.

(** The contract. *)
Class BlockSpec (B : Type) `{BlockLayer B, BlockView B} := {
  l_length b H n : l_ok b H → length (l_content b n) = 512%nat;
  l_bread_ok b H n :
    l_ok b H → 0 ≤ n < l_disksize b → n ∉ blocks_of H → (length H ≤ 2)%nat →
    ∃ i b', does (l_bread 1 n) b i b' [] ∧ l_ok b' ((i, n, false) :: H) ∧ l_step b b' (l_content b) (l_logged b);
  l_data_ok b i n c H :
    l_ok b ((i, n, c) :: H) → does (l_data i) b (l_content b n) b [];
  l_edit_ok b i n c H f :
    l_ok b ((i, n, c) :: H) → length (f (l_content b n)) = 512%nat →
    ∃ b', does (l_edit i f) b () b' [] ∧ l_ok b' ((i, n, true) :: H) ∧
      l_step b b' (upd_block (l_content b) n (f (l_content b n))) (l_logged b);
  l_log_write_ok b i n c H :
    l_ok b ((i, n, c) :: H) → l_home b n → (size ({[n]} ∪ l_logged b) ≤ l_cap b)%nat →
    ∃ b', does (l_log_write i) b () b' [] ∧ l_ok b' ((i, n, false) :: H) ∧
      l_step b b' (l_content b) ({[n]} ∪ l_logged b);
  l_brelse_ok b i n H :
    l_ok b ((i, n, false) :: H) →
    ∃ b', does (l_brelse i) b () b' [] ∧ l_ok b' H ∧ l_step b b' (l_content b) (l_logged b);
}.

Section block.
Context {B : Type} {BL : BlockLayer B} {BV : BlockView B} {BS : BlockSpec B}.

Lemma l_step_refl b : l_step b b (l_content b) (l_logged b).
Proof. by split_and!. Qed.

Lemma l_step_trans b b1 b2 c1 w1 c2 w2 c w :
  l_step b b1 c1 w1 → l_step b1 b2 c2 w2 → (∀ n, c2 n = c n) → w2 = w → l_step b b2 c w.
Proof.
  intros (_ & _ & Hd1 & Hh1 & Hc1) (Hc & Hw & Hd2 & Hh2 & Hc2) Hcc Hww. split_and!; try congruence.
  intros n. by rewrite Hh2.
Qed.
End block.

(** ** The buffer cache and the log *)

Module LogBlocks.
Import Sleeplock Bio Log.

#[export] Instance log_layer : BlockLayer lstate := {
  l_bread d n := bio (bread d n);
  l_data i := bio (b ← getb i ; mret (bdata b));
  l_edit i f := bio (updb i (λ b, set_bdata (f (bdata b)) b));
  l_log_write i := log_write i;
  l_brelse i := bio (brelse i);
}.

(** A held buffer has the contents of its block; unless it is pinned or has just
    been changed, the disk has them too. *)
Definition held_ok (s : lstate) (h : held) : Prop :=
  holds (lbio s) h.1.1 h.1.2 (content (lbio s) h.1.2) (dirty (lbio s) h.1.2) ∧
  (h.2 = false → dirty (lbio s) h.1.2 = false → content (lbio s) h.1.2 = disk (lbio s) h.1.2).

(** [log_write] refuses even a block it already has when the log is full, and
    three buffers are left for what is read besides the logged blocks, which
    stay in the cache. Outside a transaction nothing may be logged. *)
Definition limit (s : lstate) : nat := Z.to_nat (Z.min (size s - 2) (NBUF - 3)).
Definition cap (s : lstate) : nat := if 1 <=? outstanding s then limit s else 0.

#[export] Instance log_view : BlockView lstate := {
  l_ok s H := log_ok s (bufs_of H) ∧ Forall (held_ok s) H ∧ NoDup (blocks_of H) ∧ (length (logged s) ≤ limit s)%nat;
  l_content s := content (lbio s);
  l_logged s := list_to_set (logged s);
  l_disksize s := disksize (lbio s);
  l_home s := home s;
  l_cap s := cap s;
}.

Lemma cache_length s H n : cache_ok s H → length (content s n) = 512%nat.
Proof.
  intros (_ & (_ & Hd) & _ & Hnd & Hb). unfold content. destruct (cached s n) as [b|] eqn:Hc; [|done].
  apply cached_Some in Hc as (i & Hi & _); [|done]. by destruct (Hb i b Hi).
Qed.

(** The cache has changed, and the buffers held besides it have not. *)
Lemma l_ok_lbio s t H H' :
  l_ok s H → log_ok (set_lbio t s) (bufs_of H') → Forall (held_ok (set_lbio t s)) H' → NoDup (blocks_of H') →
  l_ok (set_lbio t s) H'.
Proof. intros (_ & _ & _ & Hl) H1 H2 H3. by split_and!. Qed.

Lemma held_ok_same s t H : Forall (held_ok s) H → same_blocks (lbio s) t →
  keeps (bufs_of H) (lbio s) t → Forall (held_ok (set_lbio t s)) H.
Proof.
  intros Hf (Hd & _ & _ & Hc & Hdi) Hk. apply Forall_forall. intros h Hh. destruct (proj1 (Forall_forall _ _) Hf h Hh) as [H1 H2].
  unfold held_ok. simpl. rewrite Hc, Hdi, Hd. split; [|done]. eapply keeps_holds; [exact Hk | | done]. apply list_elem_of_fmap. by exists h.
Qed.

Lemma l_step_same s t : same_blocks (lbio s) t → l_step s (set_lbio t s) (l_content s) (l_logged s).
Proof. intros (Hd & Hz & _ & Hc & _). split_and!; try done. intros n. simpl. unfold home. simpl. by rewrite Hz. Qed.

Lemma bread_law s H n :
  l_ok s H → 0 ≤ n < l_disksize s → n ∉ blocks_of H → (length H ≤ 2)%nat →
  ∃ i s', does (l_bread 1 n) s i s' [] ∧ l_ok s' ((i, n, false) :: H) ∧ l_step s s' (l_content s) (l_logged s).
Proof.
  intros Hok Hn Hni HH. pose proof Hok as (Hlog & Hheld & Hnd & Hl). pose proof (nfree_bound s _ Hlog) as Hnf.
  unfold bufs_of in Hnf. rewrite length_fmap in Hnf. pose proof Hlog as (Hcok & _).
  destruct (bread_spec (lbio s) (bufs_of H) n) as (i & t & Hrun & Hcok' & Hsame & HiH & Hh & Hk & _); [done | done | | |].
  - intros j d p (h & -> & Hh)%list_elem_of_fmap (b & Hb & _ & Hbn & _). apply Hni.
    destruct (proj1 (Forall_forall _ _) Hheld h Hh) as [(b' & Hb' & _ & Hbn' & _) _].
    apply list_elem_of_fmap. exists h. split; [congruence | done].
  - right. assert (NBUF = 30%nat) as HN by done. rewrite HN in Hnf. unfold limit in Hl. rewrite HN in Hl. lia.
  - exists i, (set_lbio t s). split; [by apply does_bio|]. split; [|by apply l_step_same].
    pose proof Hsame as (Hd & Hz & _ & Hc & Hdi). apply (l_ok_lbio s t H); [done | | | by apply NoDup_cons].
    + by apply (log_ok_lbio s (bufs_of H)).
    + apply Forall_cons. split; [|by apply held_ok_same]. split; simpl; [by rewrite Hc, Hdi|].
      intros _ Hcl. rewrite Hc, Hd. rewrite Hdi in Hcl. unfold content, dirty in *.
      destruct (cached (lbio s) n) as [b|] eqn:Hcc; [|done]. pose proof Hcok as (_ & _ & _ & Hndb & Hb).
      apply cached_Some in Hcc as (j & Hj & Hjd & Hjn); [|done]. specialize (Hb j b Hj).
      rewrite bool_decide_eq_false_2 in Hb; [destruct Hb as (_ & [(_ & [Hf|Hf] & _)|[? _]] & _ & _ & Hcl'); [rewrite <- Hjn; by apply Hcl' | by rewrite Hf in Hcl | congruence]|].
      intros (h & -> & Hh')%list_elem_of_fmap. apply Hni. destruct (proj1 (Forall_forall _ _) Hheld h Hh') as [(b' & Hb' & _ & Hbn' & _) _].
      apply list_elem_of_fmap. exists h. split; [congruence | done].
Qed.

Lemma data_law s i n c H : l_ok s ((i, n, c) :: H) → does (l_data i) s (l_content s n) s [].
Proof.
  intros (_ & [[Hh _] _]%Forall_cons & _). simpl in Hh. destruct (holds_getb _ _ _ _ _ Hh) as (b & Hb & Hget).
  assert (set_lbio (lbio s) s = s) as Hs by (by destruct s). rewrite <- Hs at 3. apply does_bio. eapply does_bind_l; [exact Hget|].
  simpl. rewrite <- Hb. apply does_ret.
Qed.

Lemma brelse_law s i n H :
  l_ok s ((i, n, false) :: H) →
  ∃ s', does (l_brelse i) s () s' [] ∧ l_ok s' H ∧ l_step s s' (l_content s) (l_logged s).
Proof.
  intros Hok. pose proof Hok as (Hlog & [[Hh Hcl] Hheld]%Forall_cons & [Hni Hnd]%NoDup_cons & _). simpl in Hh, Hcl.
  pose proof Hlog as (Hcok & _). change (bufs_of ((i, n, false) :: H)) with (i :: bufs_of H) in Hcok.
  destruct (brelse_spec (lbio s) _ i n _ _ Hcok Hh) as (t & Hrun & Hcok' & Hsame & Hk & _); [by auto|].
  pose proof Hsame as (_ & Hz & _ & _ & Hdi). exists (set_lbio t s). split; [by apply does_bio|]. split; [|by apply l_step_same].
  apply (l_ok_lbio s t ((i, n, false) :: H)); [done | | by apply held_ok_same | done]. by eapply log_ok_lbio.
Qed.

(** The buffers below the one that changes stay as they are. *)
Lemma held_ok_edited s t i n d p H :
  Forall (held_ok s) H → n ∉ blocks_of H → i ∉ bufs_of H → edited (lbio s) (i :: bufs_of H) i n d p t →
  Forall (held_ok (set_lbio t s)) H.
Proof.
  intros Hf Hn Hi (_ & _ & (Hd & _) & Hc & Hdi & _ & Hk & _). apply Forall_forall. intros h Hh.
  destruct (proj1 (Forall_forall _ _) Hf h Hh) as [(b & Hb & Hr) H2].
  assert (h.1.2 ≠ n) as Hne by (intros <-; apply Hn; apply list_elem_of_fmap; by exists h).
  assert (h.1.1 ∈ bufs_of H) as Hin by (apply list_elem_of_fmap; by exists h).
  unfold held_ok. simpl. rewrite Hc, Hdi, Hd, !decide_False by done. split; [|done]. exists b. split; [|done].
  rewrite Hk; [done | by right | by intros <-].
Qed.

Lemma edit_law s i n c H f :
  l_ok s ((i, n, c) :: H) → length (f (l_content s n)) = 512%nat →
  ∃ s', does (l_edit i f) s () s' [] ∧ l_ok s' ((i, n, true) :: H) ∧
    l_step s s' (upd_block (l_content s) n (f (l_content s n))) (l_logged s).
Proof.
  intros Hok Hlen. pose proof Hok as (Hlog & [[Hh _] Hheld]%Forall_cons & Hnd & _). simpl in Hh.
  pose proof (proj1 (NoDup_cons _ _) Hnd) as [Hni _]. pose proof Hlog as (Hcok & _).
  change (bufs_of ((i, n, c) :: H)) with (i :: bufs_of H) in *. assert (i ∈ i :: bufs_of H) as Hi by left.
  assert (i ∉ bufs_of H) as HiH by (destruct Hcok as (_ & _ & HndH & _); by apply NoDup_cons in HndH as [? _]).
  destruct (edited_data (lbio s) _ i n _ _ (lbio s) f (edited_refl _ _ _ _ _ _ Hcok Hi Hh) Hlen) as (t & Hrun & He).
  pose proof He as (Hcok' & _ & (Hd & Hz & Hp) & Hc & Hdi & Hh' & _). exists (set_lbio t s). split; [by apply does_bio|].
  assert (∀ m, dirty t m = dirty (lbio s) m) as Hdi' by (intros m; rewrite Hdi; case_decide; by subst). split.
  - apply (l_ok_lbio s t ((i, n, c) :: H)); [done | by eapply log_ok_lbio | | done]. apply Forall_cons.
    split; [split; simpl; [|done]; rewrite Hc, Hdi', decide_True by done; done | by eapply held_ok_edited].
  - split_and!; try done; intros m; simpl; [|unfold home; simpl; by rewrite Hz].
    rewrite Hc. unfold upd_block. destruct (Z.eqb_spec m n); [by rewrite decide_True | by rewrite decide_False].
Qed.

Lemma log_write_law s i n c H :
  l_ok s ((i, n, c) :: H) → l_home s n → (base.size ({[n]} ∪ l_logged s) ≤ l_cap s)%nat →
  ∃ s', does (l_log_write i) s () s' [] ∧ l_ok s' ((i, n, false) :: H) ∧
    l_step s s' (l_content s) ({[n]} ∪ l_logged s).
Proof.
  intros Hok Hhome Hcap. pose proof Hok as (Hlog & [[Hh _] Hheld]%Forall_cons & Hnd & Hl). simpl in Hh, Hhome, Hcap.
  pose proof (proj1 (NoDup_cons _ _) Hnd) as [Hni _]. pose proof Hlog as (Hcok & Hhdr & Hgeo & _ & Hndl & _).
  change (bufs_of ((i, n, c) :: H)) with (i :: bufs_of H) in *. assert (i ∈ i :: bufs_of H) as Hi by left.
  assert (i ∉ bufs_of H) as HiH by (destruct Hcok as (_ & _ & HndH & _); by apply NoDup_cons in HndH as [? _]).
  pose proof (edited_refl _ _ _ _ _ _ Hcok Hi Hh) as He. assert (set_lbio (lbio s) s = s) as Hs by (by destruct s).
  pose proof (length_logged s Hhdr) as Hll. assert (NBUF = 30%nat) as HN by done. unfold cap in Hcap.
  assert (base.size ({[n]} ∪ list_to_set (logged s) : gset Z) ≠ 0%nat) as Hpos by (intros ?%size_empty_inv; set_solver).
  destruct (Z.leb_spec 1 (outstanding s)) as [Ho|]; [|lia]. unfold limit in Hl, Hcap. rewrite HN in Hl, Hcap.
  assert (lh_n s < LOGMAX ∧ lh_n s < size s - 1) as [Hn1 Hn2] by (destruct Hhdr; log_lia).
  destruct (log_write_spec s _ i n _ _ (lbio s) ltac:(by rewrite Hs) He Hhome Hn1 Hn2 Ho) as (t & Hrun & He' & Hlog').
  destruct (logged_record n s Hhdr Hn1) as [_ Hlr].
  destruct (record_frame n s) as (Hf1 & Hf2 & Hf3 & Hf4 & Hf5 & Hf6).
  pose proof He' as (Hcok' & _ & (Hd & Hz & Hp) & Hc & Hdi & Hh' & _). exists (set_lbio t (record n s)). split; [done|].
  assert (∀ m, content t m = content (lbio s) m) as Hc' by (intros m; rewrite Hc; destruct (decide (m = n)) as [->|]; done).
  assert (list_to_set (logged (record n s)) = ({[n]} ∪ list_to_set (logged s) : gset Z)) as Hset.
  { rewrite Hlr. case_decide as Hin; [set_solver|]. rewrite list_to_set_app_L. set_solver. }
  split; [split; [done|]; split; [|split; [done|]] | split_and!; try done].
  - apply Forall_cons. split; [split; simpl; [by rewrite Hc', Hdi, decide_True | by rewrite Hdi, decide_True by done]|].
    pose proof (held_ok_edited s t i n _ true H Hheld Hni HiH He') as Hf. eapply Forall_impl; [exact Hf|]. done.
  - change (logged (set_lbio t (record n s))) with (logged (record n s)). unfold limit. simpl. rewrite Hf3, HN, Hlr. case_decide as Hin; [lia|].
    rewrite length_app. simpl. rewrite size_union in Hcap by set_solver. rewrite size_singleton, size_list_to_set in Hcap by done. lia.
  - intros m. simpl. unfold home. simpl. by rewrite Hz, Hf2.
  - simpl. unfold cap, limit. simpl. by rewrite Hf3, Hf4.
Qed.

#[export] Instance log_blocks_spec : BlockSpec lstate := {
  l_length s H n Hok := cache_length (lbio s) (bufs_of H) n (proj1 (proj1 Hok));
  l_bread_ok := bread_law;
  l_data_ok := data_law;
  l_edit_ok := edit_law;
  l_log_write_ok := log_write_law;
  l_brelse_ok := brelse_law;
}.

End LogBlocks.
