(* ===== verification/Fs.v ===== *)
(** * fs.c: the file system

    Block allocation, inodes, file contents, directories and path names, over
    the block layer of Block.v. An inode pointer is its index in the inode
    cache; a path or a name is the list of its bytes. *)

From S2P Require Import Prelude Memory Layout Cstring Sleeplock Log Block.

Module Fs.
Import Sleeplock.

Abbreviation superblock := Log.superblock.

Definition ROOTINO : Z := 1.
Definition BSIZE : Z := 512.
Definition NDIRECT : Z := 12.
Definition NINDIRECT : Z := BSIZE / 4.
Definition MAXFILE : Z := NDIRECT + NINDIRECT.

(** [struct dinode]: 64 bytes *)
Record dinode := mk_dinode {
  d_type : Z;
  d_major : Z;
  d_minor : Z;
  d_nlink : Z;
  d_size : Z;
  d_addrs : list Z;
}.

Definition dinode_bytes (d : dinode) : list Z :=
  le16 (d_type d) ++ le16 (d_major d) ++ le16 (d_minor d) ++ le16 (d_nlink d) ++ le32 (d_size d) ++
  concat (le32 <$> d_addrs d).

Definition dinode_of (l : list Z) : dinode :=
  mk_dinode (s16 (half_at l 0)) (s16 (half_at l 1)) (s16 (half_at l 2)) (s16 (half_at l 3)) (word_at l 2)
    ((λ j, word_at l (3 + j)) <$> seq 0 13).

Definition IPB : Z := BSIZE / 64.
Definition IBLOCK (i : Z) (sb : superblock) : Z := u32 (i / IPB + Log.inodestart sb).
Definition BPB : Z := BSIZE * 8.
Definition BBLOCK (b : Z) (sb : superblock) : Z := u32 (b / BPB + Log.bmapstart sb).
Definition DIRSIZ : Z := 14.

(** [struct dirent]: 16 bytes *)
Record dirent := mk_dirent { de_inum : Z; de_name : list Z }.
Definition dirent_bytes (d : dirent) : list Z := le16 (de_inum d) ++ de_name d.
Definition dirent_of (l : list Z) : dirent := mk_dirent (half_at l 0) (take 14 (drop 2 l)).

Definition T_DIR : Z := 1.
Definition T_FILE : Z := 2.
Definition T_DEV : Z := 3.

(** [struct stat] *)
Record stat := mk_stat { st_type : Z; st_dev : Z; st_ino : Z; st_nlink : Z; st_size : Z }.

(** [struct inode] *)
Record inode := mk_inode {
  idev : Z;
  inum : Z;
  iref : Z;
  ilck : sleeplock;
  ivalid : Z;
  idata : dinode;      (** copy of the disk inode *)
}.

Definition set_id (d n r v : Z) (i : inode) : inode := mk_inode d n r (ilck i) v (idata i).
Definition set_iref (r : Z) (i : inode) : inode := mk_inode (idev i) (inum i) r (ilck i) (ivalid i) (idata i).
Definition set_ilck (l : sleeplock) (i : inode) : inode := mk_inode (idev i) (inum i) (iref i) l (ivalid i) (idata i).
Definition set_ivalid (v : Z) (i : inode) : inode := mk_inode (idev i) (inum i) (iref i) (ilck i) v (idata i).
Definition set_idata (d : dinode) (i : inode) : inode := mk_inode (idev i) (inum i) (iref i) (ilck i) (ivalid i) d.
Definition set_type (t : Z) (d : dinode) : dinode :=
  mk_dinode t (d_major d) (d_minor d) (d_nlink d) (d_size d) (d_addrs d).
Definition set_size (z : Z) (d : dinode) : dinode :=
  mk_dinode (d_type d) (d_major d) (d_minor d) (d_nlink d) z (d_addrs d).
Definition set_addrs (a : list Z) (d : dinode) : dinode :=
  mk_dinode (d_type d) (d_major d) (d_minor d) (d_nlink d) (d_size d) a.

Definition itype (i : inode) : Z := d_type (idata i).
Definition isize (i : inode) : Z := d_size (idata i).
Definition iaddrs (i : inode) : list Z := d_addrs (idata i).

Section fs.
Context {B : Type} {BL : BlockLayer B}.

(** The state fs.c works on: the disk below it, [sb], [icache], and of the
    running process its pid and working directory. *)
Record fstate := mk_fstate {
  fblk : B;
  sb : superblock;
  icache : list inode;
  fpid : Z;
  cwd : nat;
}.

Definition set_fblk (x : B) (s : fstate) : fstate := mk_fstate x (sb s) (icache s) (fpid s) (cwd s).
Definition set_sb (x : superblock) (s : fstate) : fstate := mk_fstate (fblk s) x (icache s) (fpid s) (cwd s).
Definition set_icache (x : list inode) (s : fstate) : fstate := mk_fstate (fblk s) (sb s) x (fpid s) (cwd s).

Abbreviation F := (M fstate).

Definition blk {A} (m : M B A) : F A := zoom fblk set_fblk m.
Definition bread (dev n : Z) : F nat := blk (l_bread dev n).
Definition data (bp : nat) : F (list Z) := blk (l_data bp).
Definition edit (bp : nat) (f : list Z → list Z) : F unit := blk (l_edit bp f).
Definition log_write (bp : nat) : F unit := blk (l_log_write bp).
Definition brelse (bp : nat) : F unit := blk (l_brelse bp).

Definition geti (ip : nat) : F inode := λ s,
  match icache s !! ip with
  | Some i => Ok i s []
  | None => Crashed (Undefined "inode pointer") []
  end.
Definition updi (ip : nat) (f : inode → inode) : F unit :=
  modify (λ s, set_icache (alter f ip (icache s)) s).

(** ** Blocks *)

Definition readsb (dev : Z) : F superblock :=
  bp ← bread dev 1 ;
  d ← data bp ;
  brelse bp ;;
  mret (Log.superblock_of d).

Definition bzero (dev bno : Z) : F unit :=
  bp ← bread dev bno ;
  edit bp (λ _, replicate 512 0) ;;
  log_write bp ;;
  brelse bp.

(** [bp->data[bi/8] & (1 << (bi % 8))] *)
Definition bit_at (d : list Z) (bi : Z) : Z :=
  Z.land (nth (Z.to_nat (bi / 8)) d 0) (Z.shiftl 1 (bi mod 8)).
Definition byte_upd (d : list Z) (k : nat) (f : Z → Z) : list Z := alter (λ x, u8 (f x)) k d.

(** The inner loop of [balloc]: the first free bit of the bitmap block that
    covers block [b] and on. *)
Fixpoint balloc_scan (n : nat) (d : list Z) (b bi size : Z) : option Z :=
  match n with
  | O => None
  | S n' =>
      if size <=? b + bi then None
      else if bit_at d bi =? 0 then Some bi
      else balloc_scan n' d b (bi + 1) size
  end.

Fixpoint balloc_loop (n : nat) (dev b : Z) : F Z :=
  s ← get_state ;
  if Log.sb_size (sb s) <=? b then panic "balloc: out of blocks" else
  match n with
  | O => undefined "balloc does not terminate"
  | S n' =>
      bp ← bread dev (BBLOCK b (sb s)) ;
      d ← data bp ;
      match balloc_scan (Z.to_nat BPB) d b 0 (Log.sb_size (sb s)) with
      | Some bi =>
          edit bp (λ d, byte_upd d (Z.to_nat (bi / 8)) (λ x, Z.lor x (Z.shiftl 1 (bi mod 8)))) ;;
          log_write bp ;;
          brelse bp ;;
          bzero dev (b + bi) ;;
          mret (b + bi)
      | None => brelse bp ;; balloc_loop n' dev (b + BPB)
      end
  end.

Definition balloc (dev : Z) : F Z :=
  s ← get_state ;
  balloc_loop (Z.to_nat (Log.sb_size (sb s) / BPB + 1)) dev 0.

Definition bfree (dev b : Z) : F unit :=
  s ← get_state ;
  bp ← bread dev (BBLOCK b (sb s)) ;
  d ← data bp ;
  let bi := b mod BPB in
  if bit_at d bi =? 0 then panic "freeing free block" else
  edit bp (λ d, byte_upd d (Z.to_nat (bi / 8)) (λ x, Z.land x (Z.lnot (Z.shiftl 1 (bi mod 8))))) ;;
  log_write bp ;;
  brelse bp.

(** ** Inodes *)

Definition iinit (dev : Z) : F unit :=
  for_each (seq 0 (Z.to_nat NINODE)) (λ i, updi i (set_ilck initsleeplock)) ;;
  b ← readsb dev ;
  modify (set_sb b) ;;
  cprintf "sb: size %d nblocks %d ninodes %d nlog %d logstart %d inodestart %d bmap start %d\n"
    [Log.sb_size b; Log.nblocks b; Log.ninodes b; Log.nlog b; Log.logstart b; Log.inodestart b; Log.bmapstart b].

(** The loop of [iget]: the entry of the inode, or the first empty one. *)
Fixpoint iget_scan (l : list inode) (k : nat) (dev n : Z) (empty : option nat) : (nat + option nat) :=
  match l with
  | [] => inr empty
  | i :: l' =>
      if (0 <? iref i) && (idev i =? dev) && (inum i =? n) then inl k
      else iget_scan l' (S k) dev n
             (match empty with None => if iref i =? 0 then Some k else None | _ => empty end)
  end.

Definition iget (dev n : Z) : F nat :=
  acquire Licache ;;
  s ← get_state ;
  match iget_scan (icache s) 0 dev n None with
  | inl ip =>
      updi ip (λ i, set_iref (iref i + 1) i) ;;
      release Licache ;;
      mret ip
  | inr None => panic "iget: no inodes"
  | inr (Some ip) =>
      updi ip (set_id dev n 1 0) ;;
      release Licache ;;
      mret ip
  end.

(** The inode with number [n] in the data of its block, and its update. *)
Definition dip_get (n : Z) (d : list Z) : dinode := dinode_of (drop (64 * Z.to_nat (n mod IPB)) d).
Definition dip_set (n : Z) (i : dinode) (d : list Z) : list Z :=
  splice (64 * Z.to_nat (n mod IPB)) (dinode_bytes i) d.

Fixpoint ialloc_loop (k : nat) (dev type n : Z) : F nat :=
  s ← get_state ;
  if Log.ninodes (sb s) <=? n then panic "ialloc: no inodes" else
  match k with
  | O => undefined "ialloc does not terminate"
  | S k' =>
      bp ← bread dev (IBLOCK n (sb s)) ;
      d ← data bp ;
      if d_type (dip_get n d) =? 0 then
        edit bp (dip_set n (mk_dinode type 0 0 0 0 (replicate 13 0))) ;;
        log_write bp ;;
        brelse bp ;;
        iget dev n
      else brelse bp ;; ialloc_loop k' dev type (n + 1)
  end.

Definition ialloc (dev type : Z) : F nat :=
  s ← get_state ;
  ialloc_loop (Z.to_nat (Log.ninodes (sb s))) dev type 1.

Definition iupdate (ip : nat) : F unit :=
  i ← geti ip ;
  s ← get_state ;
  bp ← bread (idev i) (IBLOCK (inum i) (sb s)) ;
  edit bp (dip_set (inum i) (idata i)) ;;
  log_write bp ;;
  brelse bp.

Definition idup (ip : nat) : F nat :=
  acquire Licache ;;
  updi ip (λ i, set_iref (iref i + 1) i) ;;
  release Licache ;;
  mret ip.

(** [acquiresleep(&ip->lock)]: goes to sleep while another process has the lock. *)
Definition acquiresleep (ip : nat) : F unit :=
  acquire (Lsleep_inode ip) ;;
  i ← geti ip ;
  pid ← gets fpid ;
  match acquiresleep_pass (Lsleep_inode ip) (Ch_lock_inode ip) pid () (ilck i) with
  | Done _ lk tr => updi ip (set_ilck lk) ;; for_each tr emit
  | Wait c _ _ tr => for_each tr emit ;; block_on c
  end.

Definition releasesleep (ip : nat) : F unit :=
  acquire (Lsleep_inode ip) ;;
  updi ip (set_ilck (mk_slock 0 0)) ;;
  wakeup (Ch_lock_inode ip) ;;
  release (Lsleep_inode ip).

Definition holdingsleep (ip : nat) : F bool :=
  i ← geti ip ;
  pid ← gets fpid ;
  acquire (Lsleep_inode ip) ;;
  when (truth (slocked (ilck i))) (emit ECli) ;;
  release (Lsleep_inode ip) ;;
  mret (truth (slocked (ilck i)) && (spid (ilck i) =? pid)).

Definition ilock (ip : nat) : F unit :=
  i ← geti ip ;
  if iref i <? 1 then panic "ilock" else
  acquiresleep ip ;;
  i ← geti ip ;
  when (ivalid i =? 0)
    (s ← get_state ;
     bp ← bread (idev i) (IBLOCK (inum i) (sb s)) ;
     d ← data bp ;
     updi ip (set_idata (dip_get (inum i) d)) ;;
     brelse bp ;;
     updi ip (set_ivalid 1) ;;
     i ← geti ip ;
     if itype i =? 0 then panic "ilock: no type" else mret ()).

Definition iunlock (ip : nat) : F unit :=
  h ← holdingsleep ip ;
  i ← geti ip ;
  if negb h || (iref i <? 1) then panic "iunlock" else releasesleep ip.

(** ** Inode content *)

(** [ip->addrs[k]] and an assignment to it *)
Definition get_addr (ip : nat) (k : Z) : F Z := i ← geti ip ; mret (nth (Z.to_nat k) (iaddrs i) 0).
Definition set_addr (ip : nat) (k a : Z) : F unit :=
  updi ip (λ i, set_idata (set_addrs (<[Z.to_nat k := a]> (iaddrs i)) (idata i)) i).

(** [if((addr = ip->addrs[k]) == 0) ip->addrs[k] = addr = balloc(ip->dev);] *)
Definition bmap_addr (ip : nat) (k : Z) : F Z :=
  addr ← get_addr ip k ;
  if addr =? 0 then
    i ← geti ip ;
    addr ← balloc (idev i) ;
    set_addr ip k addr ;;
    mret addr
  else mret addr.

Definition bmap (ip : nat) (bn : Z) : F Z :=
  if bn <? NDIRECT then bmap_addr ip bn else
  let bn := bn - NDIRECT in
  if bn <? NINDIRECT then
    addr ← bmap_addr ip NDIRECT ;
    i ← geti ip ;
    bp ← bread (idev i) addr ;
    a ← data bp ;
    addr ← (if word_at a (Z.to_nat bn) =? 0 then
              addr ← balloc (idev i) ;
              edit bp (λ d, word_put d (Z.to_nat bn) addr) ;;
              log_write bp ;;
              mret addr
            else mret (word_at a (Z.to_nat bn))) ;
    brelse bp ;;
    mret addr
  else panic "bmap: out of range".

Definition itrunc (ip : nat) : F unit :=
  for_each (seqZ 0 NDIRECT) (λ k,
    a ← get_addr ip k ;
    when (truth a)
      (i ← geti ip ;
       bfree (idev i) a ;;
       set_addr ip k 0)) ;;
  a ← get_addr ip NDIRECT ;
  when (truth a)
    (i ← geti ip ;
     bp ← bread (idev i) a ;
     d ← data bp ;
     for_each (seq 0 (Z.to_nat NINDIRECT)) (λ j,
       when (truth (word_at d j)) (bfree (idev i) (word_at d j))) ;;
     brelse bp ;;
     bfree (idev i) a ;;
     set_addr ip NDIRECT 0) ;;
  updi ip (λ i, set_idata (set_size 0 (idata i)) i) ;;
  iupdate ip.

Definition iput (ip : nat) : F unit :=
  acquiresleep ip ;;
  i ← geti ip ;
  when (truth (ivalid i) && (d_nlink (idata i) =? 0))
    (acquire Licache ;;
     r ← geti ip ;
     release Licache ;;
     when (iref r =? 1)
       (itrunc ip ;;
        updi ip (λ i, set_idata (set_type 0 (idata i)) i) ;;
        iupdate ip ;;
        updi ip (set_ivalid 0))) ;;
  releasesleep ip ;;
  acquire Licache ;;
  updi ip (λ i, set_iref (iref i - 1) i) ;;
  release Licache.

Definition iunlockput (ip : nat) : F unit := iunlock ip ;; iput ip.

Definition stati (ip : nat) : F stat :=
  i ← geti ip ;
  mret (mk_stat (itype i) (idev i) (inum i) (d_nlink (idata i)) (isize i)).

(** [devsw]: the device functions by major number. A read gives the result and
    the bytes stored at its destination. *)
Context (devsw_read : Z → option (nat → Z → F (Z * list Z))).
Context (devsw_write : Z → option (nat → list Z → F Z)).

Definition dev_fun {A} (devsw : Z → option A) (major : Z) : option A :=
  if (major <? 0) || (NDEV <=? major) then None else devsw major.

(** The loop of [readi]; [acc] are the bytes copied to [dst] so far. *)
Fixpoint readi_loop (fuel : nat) (ip : nat) (tot off n : Z) (acc : list Z) : F (list Z) :=
  if n <=? tot then mret acc else
  match fuel with
  | O => undefined "readi does not terminate"
  | S f =>
      a ← bmap ip (off / BSIZE) ;
      i ← geti ip ;
      bp ← bread (idev i) a ;
      let m := Z.min (n - tot) (BSIZE - off mod BSIZE) in
      d ← data bp ;
      brelse bp ;;
      readi_loop f ip (tot + m) (u32 (off + m)) n (acc ++ take (Z.to_nat m) (drop (Z.to_nat (off mod BSIZE)) d))
  end.

(** [readi(ip, dst, off, n)]: the result and the bytes stored at [dst] *)
Definition readi (ip : nat) (off n : Z) : F (Z * list Z) :=
  i ← geti ip ;
  if itype i =? T_DEV then
    match dev_fun devsw_read (d_major (idata i)) with
    | None => mret (-1, [])
    | Some f => f ip n
    end
  else if (isize i <? off) || (u32 (off + n) <? off) then mret (-1, [])
  else
    let n := if isize i <? u32 (off + n) then u32 (isize i - off) else n in
    bytes ← readi_loop (Z.to_nat n) ip 0 off n [] ;
    mret (n, bytes).

(** The loop of [writei]: the offset it ends at. *)
Fixpoint writei_loop (fuel : nat) (ip : nat) (src : list Z) (tot off n : Z) : F Z :=
  if n <=? tot then mret off else
  match fuel with
  | O => undefined "writei does not terminate"
  | S f =>
      a ← bmap ip (off / BSIZE) ;
      i ← geti ip ;
      bp ← bread (idev i) a ;
      let m := Z.min (n - tot) (BSIZE - off mod BSIZE) in
      edit bp (splice (Z.to_nat (off mod BSIZE)) (take (Z.to_nat m) (drop (Z.to_nat tot) src))) ;;
      log_write bp ;;
      brelse bp ;;
      writei_loop f ip src (tot + m) (u32 (off + m)) n
  end.

(** [writei(ip, src, off, n)] of the [n] bytes [src] *)
Definition writei (ip : nat) (src : list Z) (off : Z) : F Z :=
  let n := Z.of_nat (length src) in
  i ← geti ip ;
  if itype i =? T_DEV then
    match dev_fun devsw_write (d_major (idata i)) with
    | None => mret (-1)
    | Some f => f ip src
    end
  else if (isize i <? off) || (u32 (off + n) <? off) then mret (-1)
  else if MAXFILE * BSIZE <? u32 (off + n) then mret (-1)
  else
    off ← writei_loop (Z.to_nat n) ip src 0 off n ;
    i ← geti ip ;
    when ((0 <? n) && (isize i <? off))
      (updi ip (λ i, set_idata (set_size off (idata i)) i) ;;
       iupdate ip) ;;
    mret n.

(** ** Directories *)

(** [strncmp(s, t, DIRSIZ)] on two buffers *)
Definition namecmp (s t : list Z) : Z :=
  Cstring.strncmp (write_bytes (write_bytes (λ _, 0) 0 s) 0x100 t) 0 0x100 (Z.to_nat DIRSIZ).

(** The [DIRSIZ] bytes [strncpy(de.name, name, DIRSIZ)] leaves *)
Definition namecpy (name : list Z) : list Z :=
  read_bytes (Cstring.strncpy (write_bytes (λ _, 0) 0x100 name) 0 0x100 (Z.to_nat DIRSIZ)) 0 DIRSIZ.

(** [readi(dp, (char* )&de, off, sizeof(de))] *)
Definition read_dirent (dp : nat) (off : Z) (msg : string) : F dirent :=
  r ← readi dp off 16 ;
  if negb (r.1 =? 16) then panic msg else mret (dirent_of r.2).

Fixpoint dirlookup_loop (fuel : nat) (dp : nat) (name : list Z) (off : Z) : F (option (nat * Z)) :=
  i ← geti dp ;
  if isize i <=? off then mret None else
  match fuel with
  | O => undefined "dirlookup does not terminate"
  | S f =>
      de ← read_dirent dp off "dirlookup read" ;
      if de_inum de =? 0 then dirlookup_loop f dp name (u32 (off + 16))
      else if namecmp name (de_name de) =? 0 then
        ip ← iget (idev i) (de_inum de) ;
        mret (Some (ip, off))
      else dirlookup_loop f dp name (u32 (off + 16))
  end.

(** The inode found and, through [poff], the offset of its entry *)
Definition dirlookup (dp : nat) (name : list Z) : F (option (nat * Z)) :=
  i ← geti dp ;
  if negb (itype i =? T_DIR) then panic "dirlookup not DIR" else
  dirlookup_loop (Z.to_nat (isize i / 16 + 1)) dp name 0.

(** The loop of [dirlink] that looks for an empty entry: its offset. *)
Fixpoint dirlink_scan (fuel : nat) (dp : nat) (off : Z) : F Z :=
  i ← geti dp ;
  if isize i <=? off then mret off else
  match fuel with
  | O => undefined "dirlink does not terminate"
  | S f =>
      de ← read_dirent dp off "dirlink read" ;
      if de_inum de =? 0 then mret off else dirlink_scan f dp (off + 16)
  end.

Definition dirlink (dp : nat) (name : list Z) (n : Z) : F Z :=
  r ← dirlookup dp name ;
  match r with
  | Some (ip, _) => iput ip ;; mret (-1)
  | None =>
      i ← geti dp ;
      off ← dirlink_scan (Z.to_nat (isize i / 16 + 1)) dp 0 ;
      r ← writei dp (dirent_bytes (mk_dirent (u16 n) (namecpy name))) off ;
      if negb (r =? 16) then panic "dirlink" else mret 0
  end.

(** ** Paths *)

Definition slash : Z := 47.

Fixpoint skip_slashes (path : list Z) : list Z :=
  match path with
  | c :: path' => if c =? slash then skip_slashes path' else path
  | [] => []
  end.

(** The element at the front of the path, and the rest. *)
Fixpoint path_elem (path : list Z) : list Z * list Z :=
  match path with
  | c :: path' => if c =? slash then ([], path) else let '(e, r) := path_elem path' in (c :: e, r)
  | [] => ([], [])
  end.

(** [skipelem(path, name)]: the rest of the path and the buffer [name] *)
Definition skipelem (path name : list Z) : option (list Z * list Z) :=
  match skip_slashes path with
  | [] => None
  | path' =>
      let '(s, rest) := path_elem path' in
      let len := Z.of_nat (length s) in
      let name' := if DIRSIZ <=? len then splice 0 (take (Z.to_nat DIRSIZ) s) name
                   else splice 0 (s ++ [0]) name in
      Some (skip_slashes rest, name')
  end.

(** The loop of [namex]: the inode and the buffer [name]. *)
Fixpoint namex_loop (fuel : nat) (ip : nat) (path name : list Z) (nameiparent : bool) : F (option nat * list Z) :=
  match skipelem path name with
  | None =>
      if nameiparent then iput ip ;; mret (None, name) else mret (Some ip, name)
  | Some (path, name) =>
      match fuel with
      | O => undefined "namex does not terminate"
      | S f =>
          ilock ip ;;
          i ← geti ip ;
          if negb (itype i =? T_DIR) then iunlockput ip ;; mret (None, name)
          else if nameiparent && (match path with [] => true | _ => false end) then
            iunlock ip ;;
            mret (Some ip, name)
          else
            next ← dirlookup ip name ;
            match next with
            | None => iunlockput ip ;; mret (None, name)
            | Some (next, _) => iunlockput ip ;; namex_loop f next path name nameiparent
            end
      end
  end.

Definition namex (path : list Z) (nameiparent : bool) (name : list Z) : F (option nat * list Z) :=
  ip ← (match path with
        | c :: _ => if c =? slash then iget ROOTDEV ROOTINO else emit ECli ;; s ← get_state ; idup (cwd s)
        | [] => emit ECli ;; s ← get_state ; idup (cwd s)
        end) ;
  namex_loop (length path) ip path name nameiparent.

(** [name] is an uninitialised buffer. *)
Definition namei (path name : list Z) : F (option nat) :=
  r ← namex path false name ;
  mret r.1.

Definition nameiparent (path name : list Z) : F (option nat * list Z) := namex path true name.

End fs.

End Fs.
