(* ===== verification/FsBlock.v ===== *)
(** * fs.c: block allocation

    The two ways fs.c uses a buffer, the free bitmap as a predicate on block
    numbers, and what [balloc] and [bfree] do to it. *)

From S2P Require Import Prelude Memory Layout Log Block Fs.

Module FsBlock.
Import Fs.

(** ** The free bitmap *)

(** Block [n] is marked in use. *)
Definition inuse (c : Z → list Z) (sb : superblock) (n : Z) : bool :=
  truth (bit_at (c (BBLOCK n sb)) (n mod BPB)).

(** The bitmap after [balloc], and after [bfree], has changed the bit of [n]. *)
Definition mark (n : Z) (v : bool) (d : list Z) : list Z :=
  let bi := n mod BPB in
  byte_upd d (Z.to_nat (bi / 8))
    (λ x, if v then Z.lor x (Z.shiftl 1 (bi mod 8)) else Z.land x (Z.lnot (Z.shiftl 1 (bi mod 8)))).

Lemma truth_bit_at d bi : truth (bit_at d bi) = Z.testbit (nth (Z.to_nat (bi / 8)) d 0) (bi mod 8).
Proof. apply truth_land_bit. apply Z.mod_pos_bound. lia. Qed.

Lemma testbit_u8 x k : 0 ≤ k < 8 → Z.testbit (u8 x) k = Z.testbit x k.
Proof. intros Hk. apply Z.mod_pow2_bits_low. lia. Qed.

Lemma nth_alter (f : Z → Z) k j d : (k < length d)%nat → nth j (alter f k d) 0 = if decide (j = k) then f (nth k d 0) else nth j d 0.
Proof.
  intros Hk. rewrite !nth_lookup. case_decide as Hj.
  - subst j. rewrite list_lookup_alter_eq. destruct (lookup_lt_is_Some_2 d k Hk) as [x ->]. done.
  - by rewrite list_lookup_alter_ne.
Qed.

Lemma length_mark n v d : length (mark n v d) = length d.
Proof. apply length_alter. Qed.

(** Only the bit of [n] changes. *)
Lemma bit_at_mark d n bi v : length d = 512%nat → 0 ≤ bi < BPB →
  truth (bit_at (mark n v d) bi) = if decide (bi = n mod BPB) then v else truth (bit_at d bi).
Proof.
  intros Hd Hbi. unfold mark, byte_upd. pose proof (Z.mod_pos_bound n BPB ltac:(done)) as Hn. set (k := n mod BPB) in *.
  rewrite !truth_bit_at. pose proof (Z.mod_pos_bound bi 8 ltac:(done)) as Hb8. pose proof (Z.mod_pos_bound k 8 ltac:(done)) as Hk8.
  change BPB with 4096 in *. rewrite nth_alter by (rewrite Hd; Z.div_mod_to_equations; lia).
  assert (Z.to_nat (bi / 8) = Z.to_nat (k / 8) ↔ bi / 8 = k / 8) as Hdiv by (Z.div_mod_to_equations; lia).
  destruct (decide (Z.to_nat (bi / 8) = Z.to_nat (k / 8))) as [He%Hdiv|Hne].
  - rewrite testbit_u8 by done. rewrite He. destruct v.
    + rewrite testbit_lor_bit by lia. case_decide as Hbk; [subst; by rewrite bool_decide_eq_true_2, orb_true_r|].
      rewrite bool_decide_eq_false_2; [apply orb_false_r|]. intros Hm. apply Hbk. Z.div_mod_to_equations. lia.
    + rewrite Z.land_spec, Z.lnot_spec, testbit_one by lia. case_decide as Hbk; [subst; by rewrite bool_decide_eq_true_2, andb_false_r|].
      rewrite bool_decide_eq_false_2; [apply andb_true_r|]. intros Hm. apply Hbk. Z.div_mod_to_equations. lia.
  - rewrite decide_False; [done|]. intros ->. by apply Hne.
Qed.

(** What [balloc]'s scan of a bitmap block finds. *)
Lemma balloc_scan_spec d b size (n : nat) : ∀ bi,
  match balloc_scan n d b bi size with
  | Some k => bi ≤ k < bi + n ∧ b + k < size ∧ truth (bit_at d k) = false ∧ ∀ j, bi ≤ j < k → truth (bit_at d j) = true
  | None => ∀ j, bi ≤ j < bi + n → b + j < size → truth (bit_at d j) = true
  end.
Proof.
  induction n as [|n IH]; intros bi; cbn [balloc_scan]; [intros; lia|].
  destruct (Z.leb_spec size (b + bi)) as [Hle|Hlt]; [intros; lia|].
  destruct (Z.eqb_spec (bit_at d bi) 0) as [H0|H0]; [split_and!; [lia | lia | lia | by apply truth_false | intros; lia]|].
  specialize (IH (bi + 1)). destruct (balloc_scan n d b (bi + 1) size) as [k|].
  - destruct IH as (? & ? & ? & Hj). split_and!; [lia | lia | done | done|]. intros j Hj'.
    destruct (decide (j = bi)) as [->|]; [by apply truth_true | apply Hj; lia].
  - intros j Hj Hsz. destruct (decide (j = bi)) as [->|]; [by apply truth_true | apply IH; lia].
Qed.

#[local] Opaque balloc_scan.

(** The blocks of the bitmap, and the first block behind it. *)
Definition bmaps (sb : superblock) : gset Z := list_to_set (seqZ (Log.bmapstart sb) (Log.sb_size sb / BPB + 1)).
Definition datastart (sb : superblock) : Z := Log.bmapstart sb + Log.sb_size sb / BPB + 1.

(** The blocks that hold no file data are marked. *)
Definition meta_used (c : Z → list Z) (sb : superblock) : Prop := ∀ n, 0 ≤ n < datastart sb → inuse c sb n = true.

Lemma inuse_ext c c' sb n : (∀ m, c' m = c m) → inuse c' sb n = inuse c sb n.
Proof. intros Hc. unfold inuse. by rewrite Hc. Qed.

(** A super block with its parts in order: inodes, bitmap, data. *)
Definition sb_ok (sb : superblock) : Prop :=
  0 < Log.sb_size sb ∧ Log.sb_size sb < 2 ^ 31 ∧ 1 < Log.inodestart sb ∧ 0 ≤ Log.ninodes sb ∧
  Log.inodestart sb + Log.ninodes sb / IPB < Log.bmapstart sb ∧ datastart sb ≤ Log.sb_size sb.

Lemma BBLOCK_eq sb n : sb_ok sb → 0 ≤ n < Log.sb_size sb →
  BBLOCK n sb = Log.bmapstart sb + n / BPB ∧ (Log.inodestart sb < BBLOCK n sb ∧ Log.bmapstart sb ≤ BBLOCK n sb < datastart sb) ∧
  BBLOCK n sb ∈ bmaps sb.
Proof.
  intros (G1 & G2 & G3 & G4 & G5 & G6) Hn. unfold datastart, bmaps in *. change BPB with 4096 in *. change IPB with 8 in *.
  assert (Log.inodestart sb < Log.bmapstart sb) by (Z.div_mod_to_equations; lia).
  assert (0 ≤ n / 4096 ≤ Log.sb_size sb / 4096) by (Z.div_mod_to_equations; lia).
  assert (BBLOCK n sb = Log.bmapstart sb + n / 4096) as Hb.
  { unfold BBLOCK. change BPB with 4096. rewrite u32_small by lia. lia. }
  rewrite Hb. split_and!; [done | lia | lia | lia |]. rewrite elem_of_list_to_set, elem_of_seqZ. lia.
Qed.

(** The contents after [n] has been allocated. *)
Definition alloc_content (c : Z → list Z) (sb : superblock) (n : Z) : Z → list Z :=
  upd_block (upd_block c (BBLOCK n sb) (mark n true (c (BBLOCK n sb)))) n (replicate 512 0).

(** Changing the bit of [n] changes nothing else. *)
Definition mark_content (c : Z → list Z) (sb : superblock) (n : Z) (v : bool) : Z → list Z :=
  upd_block c (BBLOCK n sb) (mark n v (c (BBLOCK n sb))).

Lemma inuse_mark c sb n m v :
  sb_ok sb → length (c (BBLOCK n sb)) = 512%nat → 0 ≤ n < Log.sb_size sb → 0 ≤ m < Log.sb_size sb →
  inuse (mark_content c sb n v) sb m = if decide (m = n) then v else inuse c sb m.
Proof.
  intros Hg Hlen Hn Hm. destruct (BBLOCK_eq sb m Hg Hm) as (Hbm & Hbr & _). destruct (BBLOCK_eq sb n Hg Hn) as (Hbn & Hbr' & _).
  unfold inuse, mark_content, upd_block.
  pose proof (Z.mod_pos_bound m BPB ltac:(done)). pose proof (Z.mod_pos_bound n BPB ltac:(done)).
  pose proof (Z.div_mod m BPB ltac:(done)). pose proof (Z.div_mod n BPB ltac:(done)).
  destruct (Z.eqb_spec (BBLOCK m sb) (BBLOCK n sb)) as [He|Hne].
  - rewrite bit_at_mark by done. destruct (decide (m mod BPB = n mod BPB)) as [Hmn|Hmn]; [rewrite decide_True; [done|]; lia|].
    rewrite decide_False by (by intros ->). by rewrite He.
  - rewrite decide_False; [done|]. by intros ->.
Qed.

Lemma inuse_alloc c sb n m :
  sb_ok sb → length (c (BBLOCK n sb)) = 512%nat → datastart sb ≤ n < Log.sb_size sb → 0 ≤ m < Log.sb_size sb →
  inuse (alloc_content c sb n) sb m = if decide (m = n) then true else inuse c sb m.
Proof.
  intros Hg Hlen Hn Hm. pose proof Hg as (_ & _ & G3 & _). destruct (BBLOCK_eq sb m Hg Hm) as (_ & Hbr & _).
  destruct (BBLOCK_eq sb (datastart sb - 1) Hg ltac:(lia)) as (_ & ? & _).
  rewrite <- (inuse_mark c sb n m true) by (done || lia). unfold inuse, alloc_content. unfold upd_block at 1.
  by rewrite (proj2 (Z.eqb_neq _ _)) by lia.
Qed.

Lemma alloc_content_other c sb n m : m ≠ n → m ≠ BBLOCK n sb → alloc_content c sb n m = c m.
Proof. intros H1 H2. unfold alloc_content, upd_block. by rewrite !(proj2 (Z.eqb_neq _ _)) by done. Qed.

Lemma alloc_content_same c sb n : alloc_content c sb n n = replicate 512 0.
Proof. unfold alloc_content, upd_block. by rewrite Z.eqb_refl. Qed.

Section fsblock.
Context {B : Type} {BL : BlockLayer B} {BV : BlockView B} {BS : BlockSpec B}.

Lemma set_fblk_idemp x y (s : fstate (B:=B)) : set_fblk x (set_fblk y s) = set_fblk x s.
Proof. done. Qed.

Lemma does_blk {A} (m : M B A) (s : fstate) a x w : does m (fblk s) a x w → does (blk m) s a (set_fblk x s) w.
Proof. apply does_zoom. Qed.

(** [bread], look at the data, [brelse] *)
Lemma read_idiom (s : fstate) H n :
  l_ok (fblk s) H → 0 ≤ n < l_disksize (fblk s) → n ∉ blocks_of H → (length H ≤ 2)%nat →
  ∃ i x y, does (bread 1 n) s i (set_fblk x s) [] ∧
    does (data i) (set_fblk x s) (l_content (fblk s) n) (set_fblk x s) [] ∧
    does (brelse i) (set_fblk x s) () (set_fblk y s) [] ∧ l_ok y H ∧
    l_step (fblk s) y (l_content (fblk s)) (l_logged (fblk s)).
Proof.
  intros Hok Hn Hni HH. destruct (l_bread_ok _ _ _ Hok Hn Hni HH) as (i & x & H1 & Hx & Hsx).
  destruct (l_brelse_ok _ _ _ _ Hx) as (y & H2 & Hy & Hsy). pose proof (l_data_ok _ _ _ _ _ Hx) as H3.
  exists i, x, y. split; [by apply does_blk|]. split; [rewrite <- (proj1 Hsx n); by apply (does_blk _ (set_fblk x s))|].
  split; [by apply (does_blk _ (set_fblk x s))|]. split; [done|].
  eapply l_step_trans; [exact Hsx | exact Hsy | apply Hsx | apply Hsx].
Qed.

(** [bread], change the data, [log_write], [brelse] *)
Lemma update_idiom (s : fstate) H n f :
  l_ok (fblk s) H → 0 ≤ n < l_disksize (fblk s) → n ∉ blocks_of H → (length H ≤ 2)%nat → l_home (fblk s) n →
  (size ({[n]} ∪ l_logged (fblk s)) ≤ l_cap (fblk s))%nat → length (f (l_content (fblk s) n)) = 512%nat →
  ∃ i x1 x2 x3 y, does (bread 1 n) s i (set_fblk x1 s) [] ∧
    does (data i) (set_fblk x1 s) (l_content (fblk s) n) (set_fblk x1 s) [] ∧
    does (edit i f) (set_fblk x1 s) () (set_fblk x2 s) [] ∧
    does (log_write i) (set_fblk x2 s) () (set_fblk x3 s) [] ∧
    does (brelse i) (set_fblk x3 s) () (set_fblk y s) [] ∧ l_ok y H ∧
    l_step (fblk s) y (upd_block (l_content (fblk s)) n (f (l_content (fblk s) n))) ({[n]} ∪ l_logged (fblk s)).
Proof.
  intros Hok Hn Hni HH Hhome Hcap Hlen. destruct (l_bread_ok _ _ _ Hok Hn Hni HH) as (i & x1 & R1 & Hx1 & S1).
  pose proof (l_data_ok _ _ _ _ _ Hx1) as R2. pose proof S1 as (C1 & W1 & D1 & G1 & P1).
  destruct (l_edit_ok x1 i n false H f Hx1) as (x2 & R3 & Hx2 & S2); [by rewrite C1|]. pose proof S2 as (C2 & W2 & D2 & G2 & P2).
  destruct (l_log_write_ok x2 i n true H Hx2) as (x3 & R4 & Hx3 & S3); [by apply G2, G1 | by rewrite W2, W1, P2, P1 |].
  destruct (l_brelse_ok _ _ _ _ Hx3) as (y & R5 & Hy & S4).
  exists i, x1, x2, x3, y. split; [by apply does_blk|]. split; [rewrite <- (C1 n); by apply (does_blk _ (set_fblk x1 s))|].
  split; [by apply (does_blk _ (set_fblk x1 s))|]. split; [by apply (does_blk _ (set_fblk x2 s))|].
  split; [by apply (does_blk _ (set_fblk x3 s))|]. split; [done|].
  destruct (S3) as (C3 & W3 & _). eapply l_step_trans; [|exact S4 | |by rewrite W3, W2, W1].
  - eapply l_step_trans; [|exact S3 | done | done]. eapply l_step_trans; [exact S1 | exact S2 | done | done].
  - intros m. rewrite C3, C2. unfold upd_block. by rewrite !C1.
Qed.

(** The disk has room for what the super block describes, outside the log. *)
Definition geom (b : B) (sb : superblock) : Prop :=
  sb_ok sb ∧ Log.sb_size sb ≤ l_disksize b ∧ ∀ n, Log.inodestart sb ≤ n < Log.sb_size sb → l_home b n.

Lemma geom_step b b' c w sb : l_step b b' c w → geom b sb → geom b' sb.
Proof.
  intros (_ & _ & Hd & Hh & _) (G1 & G2 & G7). split; [done|]. split; [lia|]. intros n Hn. by apply Hh, G7.
Qed.

(** What may be allocated beside the held buffers [H]: they belong to blocks in use. *)
Definition alloc_ready (s : fstate) (H : list held) : Prop :=
  l_ok (fblk s) H ∧ geom (fblk s) (sb s) ∧ meta_used (l_content (fblk s)) (sb s) ∧ (length H ≤ 1)%nat ∧
  (∀ m, m ∈ blocks_of H → datastart (sb s) ≤ m ∧ inuse (l_content (fblk s)) (sb s) m = true) ∧
  (S (size (bmaps (sb s) ∪ l_logged (fblk s))) ≤ l_cap (fblk s))%nat.

Lemma size_insert_le (n : Z) (X Y : gset Z) : X ⊆ Y → (size ({[n]} ∪ X) ≤ S (size Y))%nat.
Proof.
  intros HX. transitivity (size ({[n]} ∪ Y)); [apply subseteq_size; set_solver|].
  destruct (decide (n ∈ Y)); [replace ({[n]} ∪ Y) with Y by set_solver; lia|]. rewrite size_union by set_solver. rewrite size_singleton. lia.
Qed.

Lemma bzero_spec (s : fstate) H n :
  l_ok (fblk s) H → 0 ≤ n < l_disksize (fblk s) → n ∉ blocks_of H → (length H ≤ 2)%nat → l_home (fblk s) n →
  (size ({[n]} ∪ l_logged (fblk s)) ≤ l_cap (fblk s))%nat →
  quiet (bzero 1 n) s (λ _ s', ∃ y, s' = set_fblk y s ∧ l_ok y H ∧
    l_step (fblk s) y (upd_block (l_content (fblk s)) n (replicate 512 0)) ({[n]} ∪ l_logged (fblk s))).
Proof.
  intros Hok Hn Hni HH Hhome Hcap.
  destruct (update_idiom s H n (λ _, replicate 512 0)) as (i & x1 & x2 & x3 & y & R1 & _ & R3 & R4 & R5 & Hy & S); try done.
  unfold bzero. idiom. eapply quiet_does; [done|]. by exists y.
Qed.

(** The result of [balloc]. *)
Definition allocated (s : fstate) (H : list held) (n : Z) (s' : fstate) : Prop :=
  ∃ y, s' = set_fblk y s ∧ l_ok y H ∧
    datastart (sb s) ≤ n < Log.sb_size (sb s) ∧ inuse (l_content (fblk s)) (sb s) n = false ∧
    l_step (fblk s) y (alloc_content (l_content (fblk s)) (sb s) n) ({[n]} ∪ ({[BBLOCK n (sb s)]} ∪ l_logged (fblk s))).

Lemma balloc_found (s : fstate) H bb bi :
  alloc_ready s H → 0 ≤ bb → bb mod BPB = 0 → 0 ≤ bi < BPB → bb + bi < Log.sb_size (sb s) →
  truth (bit_at (l_content (fblk s) (BBLOCK bb (sb s))) bi) = false →
  datastart (sb s) ≤ bb + bi ∧ inuse (l_content (fblk s)) (sb s) (bb + bi) = false ∧ BBLOCK (bb + bi) (sb s) = BBLOCK bb (sb s) ∧
  (bb + bi) mod BPB = bi.
Proof.
  intros (_ & Hg & Hmeta & _) Hbb Hm Hbi Hsz Hbit. change BPB with 4096 in *.
  assert ((bb + bi) mod 4096 = bi ∧ (bb + bi) / 4096 = bb / 4096) as [Hmod Hdiv] by (Z.div_mod_to_equations; lia).
  destruct (BBLOCK_eq _ bb (proj1 Hg) ltac:(lia)) as (H1 & _). destruct (BBLOCK_eq _ (bb + bi) (proj1 Hg) ltac:(lia)) as (H2 & _).
  change BPB with 4096 in *. assert (BBLOCK (bb + bi) (sb s) = BBLOCK bb (sb s)) as Hb by (rewrite H1, H2, Hdiv; done).
  assert (inuse (l_content (fblk s)) (sb s) (bb + bi) = false) as Hf by (unfold inuse; change BPB with 4096; by rewrite Hb, Hmod).
  split_and!; try done. destruct (decide (datastart (sb s) ≤ bb + bi)); [done|]. rewrite Hmeta in Hf by lia. done.
Qed.

Lemma balloc_loop_spec H (fuel : nat) : ∀ (k : nat) (s : fstate),
  alloc_ready s H → (∀ j, 0 ≤ j < k * BPB → j < Log.sb_size (sb s) → inuse (l_content (fblk s)) (sb s) j = true) →
  (∃ j, 0 ≤ j < Log.sb_size (sb s) ∧ inuse (l_content (fblk s)) (sb s) j = false) →
  Log.sb_size (sb s) ≤ (k + fuel) * BPB →
  quiet (balloc_loop fuel 1 (k * BPB)) s (allocated s H).
Proof.
  induction fuel as [|fuel IH]; intros k s Hready Hbelow (j0 & Hj0 & Hfree) Hfuel; cbn [balloc_loop];
    do 2 quiet_step; (destruct (Z.leb_spec (Log.sb_size (sb s)) (k * BPB)) as [Hle|Hgt]; [rewrite Hbelow in Hfree by lia; done|]); [lia|].
  pose proof Hready as (Hok & Hg & Hmeta & HH & Hheld & Hcap). pose proof Hg as (Hsb & G0 & G7). pose proof Hsb as (G1 & G2 & G3 & G4 & G5 & G6).
  set (bb := k * BPB) in *. assert (0 ≤ bb ∧ bb mod BPB = 0) as [Hbb Hbbm] by (unfold bb; split; [change BPB with 4096; lia | by apply Z.mod_mul]).
  destruct (BBLOCK_eq (sb s) bb Hsb ltac:(lia)) as (Hbm & Hbr & Hbin).
  assert (BBLOCK bb (sb s) ∉ blocks_of H) as Hbni by (intros [? _]%Hheld; lia).
  pose proof (balloc_scan_spec (l_content (fblk s) (BBLOCK bb (sb s))) bb (Log.sb_size (sb s)) (Z.to_nat BPB) 0) as Hscan.
  destruct (balloc_scan _ _ _ _ _) as [bi|] eqn:Hsc.
  - destruct Hscan as (Hbi & Hsz & Hbit & _). rewrite Z2Nat.id, Z.add_0_l in Hbi by done.
    destruct (balloc_found s H bb bi Hready Hbb Hbbm Hbi Hsz Hbit) as (Hds & Hfr & Hbeq & Hmod).
    set (f := λ d, byte_upd d (Z.to_nat (bi / 8)) (λ x, Z.lor x (Z.shiftl 1 (bi mod 8)))).
    destruct (update_idiom s H (BBLOCK bb (sb s)) f) as (i & x1 & x2 & x3 & y & R1 & R2 & R3 & R4 & R5 & Hy & S1);
      [done | lia | done | lia | apply G7; lia | transitivity (size (bmaps (sb s) ∪ l_logged (fblk s))); [apply subseteq_size; set_solver | lia] |
       unfold f, byte_upd; rewrite length_alter; by eapply l_length |].
    eapply quiet_bind_does; [exact R1|]. eapply quiet_bind_does; [exact R2|]. rewrite Hsc. idiom.
    quiet_step. pose proof S1 as (C1 & W1 & D1 & G1' & P1). eapply quiet_mono; [apply (bzero_spec (set_fblk y s) H (bb + bi)); simpl; [done | lia | | lia | | ]|].
    + intros Hin%Hheld. destruct Hin as [_ Hin]. congruence.
    + apply G1', G7. unfold datastart in *. change IPB with 8 in *. Z.div_mod_to_equations. lia.
    + rewrite W1, P1. etransitivity; [|exact Hcap]. apply size_insert_le. set_solver.
    + intros _ s2 (z & -> & Hz & S2). simpl in S2. quiet_step. exists z. split; [done|]. split; [done|]. split; [lia|]. split; [done|].
      eapply l_step_trans; [exact S1 | exact S2 | | by rewrite W1, Hbeq].
      intros m. apply upd_block_ext. intros m'. rewrite C1, Hbeq. unfold mark. by rewrite Hmod.
  - destruct (read_idiom s H (BBLOCK bb (sb s))) as (i & x & y & R1 & R2 & R3 & Hy & S1); [done | lia | done | lia |].
    eapply quiet_bind_does; [exact R1|]. eapply quiet_bind_does; [exact R2|]. rewrite Hsc. idiom.
    pose proof S1 as (C1 & W1 & D1 & G1' & P1). replace (bb + BPB) with (S k * BPB) by (unfold bb; lia).
    eapply quiet_mono; [apply (IH (S k) (set_fblk y s))|].
    + split; [done|]. split; [by eapply geom_step|]. split; [intros m Hm; simpl; rewrite (inuse_ext (l_content (fblk s))) by done; by apply Hmeta|].
      split; [done|]. simpl. split; [intros m Hm; rewrite (inuse_ext (l_content (fblk s))) by done; by apply Hheld | by rewrite W1, P1].
    + intros j Hj Hjs. simpl. rewrite (inuse_ext (l_content (fblk s))) by done. destruct (decide (j < bb)); [apply Hbelow; [lia | done]|].
      simpl in Hjs. destruct (BBLOCK_eq _ j Hsb ltac:(lia)) as (Hjb & _). unfold inuse.
      replace (BBLOCK j (sb s)) with (BBLOCK bb (sb s)) by (rewrite Hjb, Hbm; unfold bb in *; change BPB with 4096 in *; Z.div_mod_to_equations; lia).
      pose proof (Z.mod_pos_bound j BPB ltac:(done)). apply Hscan; [lia|].
      replace (bb + j mod BPB) with j; [done|]. unfold bb in *. change BPB with 4096 in *. Z.div_mod_to_equations. lia.
    + exists j0. simpl. by rewrite (inuse_ext (l_content (fblk s))) by done.
    + simpl. lia.
    + intros n s' (z & -> & Hz & Hn & Hfr & S2). simpl in *. exists z. split; [done|]. split; [done|]. split; [done|].
      rewrite (inuse_ext (l_content (fblk s))) in Hfr by done. split; [done|].
      eapply l_step_trans; [exact S1 | exact S2 | | by rewrite W1]. intros m. unfold alloc_content, upd_block. by rewrite !C1.
Qed.

Lemma balloc_spec (s : fstate) H :
  alloc_ready s H → (∃ j, 0 ≤ j < Log.sb_size (sb s) ∧ inuse (l_content (fblk s)) (sb s) j = false) →
  quiet (balloc 1) s (allocated s H).
Proof.
  intros Hready Hfree. unfold balloc. do 2 quiet_step. change (balloc_loop ?k 1 0) with (balloc_loop k 1 (0%nat * BPB)).
  apply balloc_loop_spec; [done | intros; lia | done |]. pose proof Hready as (_ & ((G1 & _) & _) & _).
  change BPB with 4096. Z.div_mod_to_equations. lia.
Qed.

(** Freeing a block in use clears its bit. *)
Lemma bfree_spec (s : fstate) H n :
  l_ok (fblk s) H → geom (fblk s) (sb s) → BBLOCK n (sb s) ∉ blocks_of H → (length H ≤ 2)%nat →
  (size (bmaps (sb s) ∪ l_logged (fblk s)) ≤ l_cap (fblk s))%nat → 0 ≤ n < Log.sb_size (sb s) →
  inuse (l_content (fblk s)) (sb s) n = true →
  quiet (bfree 1 n) s (λ _ s', ∃ y, s' = set_fblk y s ∧ l_ok y H ∧
    l_step (fblk s) y (mark_content (l_content (fblk s)) (sb s) n false) ({[BBLOCK n (sb s)]} ∪ l_logged (fblk s))).
Proof.
  intros Hok Hg Hni HH Hcap Hn Huse. pose proof Hg as (Hsb & G0 & G7). pose proof Hsb as (G1 & _ & G3 & _ & _ & G6). destruct (BBLOCK_eq _ n Hsb Hn) as (_ & Hbr & Hbin).
  destruct (update_idiom s H (BBLOCK n (sb s)) (mark n false)) as (i & x1 & x2 & x3 & y & R1 & R2 & R3 & R4 & R5 & Hy & S1);
    [done | lia | done | done | apply G7; lia | etransitivity; [|exact Hcap]; apply subseteq_size; set_solver | rewrite length_mark; by eapply l_length |].
  unfold bfree. do 2 quiet_step. eapply quiet_bind_does; [exact R1|]. eapply quiet_bind_does; [exact R2|]. cbv zeta.
  unfold inuse in Huse. apply truth_true in Huse. rewrite (proj2 (Z.eqb_neq _ _) Huse). idiom. eapply quiet_does; [exact R5|]. by exists y.
Qed.

End fsblock.
End FsBlock.
