(* ===== verification/FsFile.v ===== *)
(** * fs.c: inode content

    The blocks of a file as [bmap] finds them, and the theorems about [bmap],
    [readi], [writei] and [itrunc]: a file is an array of bytes, and no
    operation on one file changes another. *)

From S2P Require Import Prelude Memory Layout Log Block Fs FsBlock.

Module FsFile.
Import Fs FsBlock.

(** ** Files as arrays of bytes *)

Definition ind (addrs : list Z) : Z := nth 12 addrs 0.

(** The disk block of block [bn] of the file with block addresses [addrs], 0 if there is none. *)
Definition blkaddr (c : Z → list Z) (addrs : list Z) (bn : Z) : Z :=
  if bn <? NDIRECT then nth (Z.to_nat bn) addrs 0
  else if ind addrs =? 0 then 0 else word_at (c (ind addrs)) (Z.to_nat (bn - NDIRECT)).

(** Byte [off] of the file. *)
Definition fbyte (c : Z → list Z) (addrs : list Z) (off : Z) : Z :=
  let a := blkaddr c addrs (off / BSIZE) in
  if a =? 0 then 0 else nth (Z.to_nat (off mod BSIZE)) (c a) 0.

(** [x] is a block of the file, data or indirect. *)
Definition fblock (c : Z → list Z) (addrs : list Z) (x : Z) : Prop :=
  x ≠ 0 ∧ (x = ind addrs ∨ ∃ bn, 0 ≤ bn < MAXFILE ∧ blkaddr c addrs bn = x).

Definition data_block (c : Z → list Z) (sb : superblock) (x : Z) : Prop :=
  datastart sb ≤ x < Log.sb_size sb ∧ inuse c sb x = true.

(** The blocks of the file are data blocks in use, each of them used once. *)
Definition file_ok (c : Z → list Z) (sb : superblock) (addrs : list Z) : Prop :=
  length addrs = 13%nat ∧ (∀ x, fblock c addrs x → data_block c sb x) ∧
  (∀ bn bn', 0 ≤ bn < MAXFILE → 0 ≤ bn' < MAXFILE → blkaddr c addrs bn = blkaddr c addrs bn' → blkaddr c addrs bn ≠ 0 → bn = bn') ∧
  (∀ bn, 0 ≤ bn < MAXFILE → blkaddr c addrs bn ≠ 0 → blkaddr c addrs bn ≠ ind addrs).

(** What an operation on the file may do: the blocks it had stay, those it gets
    were free, no other block is taken or given back, the contents become [g], and
    every other block in use is unchanged. *)
Record pstep (sb : superblock) (c : Z → list Z) (addrs : list Z) (c' : Z → list Z) (addrs' : list Z) (g : Z → Z) : Prop := {
  ps_file : file_ok c' sb addrs';
  ps_meta : meta_used c' sb;
  ps_len : ∀ n, length (c' n) = 512%nat;
  ps_ind : ind addrs ≠ 0 → ind addrs' = ind addrs;
  ps_keep bn : 0 ≤ bn < MAXFILE → blkaddr c addrs bn ≠ 0 → blkaddr c' addrs' bn = blkaddr c addrs bn;
  ps_bytes off : 0 ≤ off < MAXFILE * BSIZE → fbyte c' addrs' off = g off;
  ps_inuse m : 0 ≤ m < Log.sb_size sb → inuse c sb m = true → inuse c' sb m = true;
  ps_frame m : 0 ≤ m < Log.sb_size sb → inuse c sb m = true → m ∉ bmaps sb → ¬ fblock c addrs m → c' m = c m;
  ps_new x : fblock c' addrs' x → fblock c addrs x ∨ inuse c sb x = false;
  ps_taken m : 0 ≤ m < Log.sb_size sb → inuse c' sb m = true → inuse c sb m = true ∨ fblock c' addrs' m;
}.

(** Everything above depends only on the contents of the blocks. *)
Lemma blkaddr_ext c c' addrs bn : (∀ n, c' n = c n) → blkaddr c' addrs bn = blkaddr c addrs bn.
Proof. intros Hc. unfold blkaddr. by rewrite Hc. Qed.

Lemma fblock_ext c c' addrs x : (∀ n, c' n = c n) → fblock c' addrs x ↔ fblock c addrs x.
Proof. intros Hc. unfold fblock. by setoid_rewrite (blkaddr_ext c c'). Qed.

Lemma fbyte_ext c c' addrs off : (∀ n, c' n = c n) → fbyte c' addrs off = fbyte c addrs off.
Proof. intros Hc. unfold fbyte. by rewrite (blkaddr_ext c c'), Hc. Qed.

Lemma file_ok_ext c c' sb addrs : (∀ n, c' n = c n) → file_ok c sb addrs → file_ok c' sb addrs.
Proof.
  intros Hc (H1 & H2 & H3 & H4). split; [done|]. split; [|split].
  - intros x Hx%(fblock_ext c). 2: done. destruct (H2 x Hx). split; [done|]. by rewrite (inuse_ext c).
  - intros bn bn' Hb Hb'. rewrite !(blkaddr_ext c c') by done. by apply H3.
  - intros bn Hb. rewrite !(blkaddr_ext c c') by done. by apply H4.
Qed.

Lemma pstep_ext sb c addrs c1 c2 addrs' g1 g2 :
  (∀ n, c2 n = c1 n) → (∀ off, 0 ≤ off < MAXFILE * BSIZE → g2 off = g1 off) → pstep sb c addrs c1 addrs' g1 → pstep sb c addrs c2 addrs' g2.
Proof.
  intros Hc Hg []. split; try done.
  - by eapply file_ok_ext.
  - intros m Hm. rewrite (inuse_ext c1) by done. by apply ps_meta0.
  - intros n. by rewrite Hc.
  - intros bn Hb H0. rewrite (blkaddr_ext c1) by done. by apply ps_keep0.
  - intros off Ho. rewrite (fbyte_ext c1), Hg by done. by apply ps_bytes0.
  - intros m Hm Hu. rewrite (inuse_ext c1) by done. by apply ps_inuse0.
  - intros m Hm Hu Hb Hn. rewrite Hc. by apply ps_frame0.
  - intros x Hx%(fblock_ext c1). 2: done. by apply ps_new0.
  - intros m Hm. rewrite (inuse_ext c1), (fblock_ext c1) by done. by apply ps_taken0.
Qed.

(** Inodes that differ in their block addresses. *)
Lemma set_addrs_trans i i1 i2 :
  i1 = set_idata (set_addrs (iaddrs i1) (idata i)) i → i2 = set_idata (set_addrs (iaddrs i2) (idata i1)) i1 →
  i2 = set_idata (set_addrs (iaddrs i2) (idata i)) i.
Proof. generalize (iaddrs i1), (iaddrs i2). by intros a1 a2 -> ->. Qed.

Section pure.
Context (sb : superblock) (Hsb : sb_ok sb).

Lemma data_not_bitmap x : datastart sb ≤ x < Log.sb_size sb → 1 < x ∧ x ∉ bmaps sb.
Proof using Hsb.
  destruct Hsb as (H1 & _ & H2 & H3 & H4 & _). unfold bmaps, datastart. change BPB with 4096. change IPB with 8 in *. intros Hx. split.
  - Z.div_mod_to_equations. lia.
  - rewrite elem_of_list_to_set, elem_of_seqZ. lia.
Qed.

Lemma inodes_before_data : 1 < Log.inodestart sb ∧ Log.inodestart sb < datastart sb.
Proof using Hsb.
  destruct Hsb as (H1 & _ & H2 & H3 & H4 & _). unfold datastart. change BPB with 4096. change IPB with 8 in *.
  Z.div_mod_to_equations. lia.
Qed.

Lemma inuse_upd c a x m : datastart sb ≤ a < Log.sb_size sb → 0 ≤ m < Log.sb_size sb →
  inuse (upd_block c a x) sb m = inuse c sb m.
Proof using Hsb.
  intros Ha Hm. destruct (BBLOCK_eq sb m Hsb Hm) as (_ & Hr & _). unfold inuse, upd_block.
  by rewrite (proj2 (Z.eqb_neq _ _)) by lia.
Qed.

(** The blocks of the file stay its blocks. *)
Lemma pstep_fblock c addrs c' addrs' g x : pstep sb c addrs c' addrs' g → fblock c addrs x → fblock c' addrs' x.
Proof using.
  intros H (Hx & [->|(bn & Hbn & <-)]); (split; [done|]); [left; symmetry; by apply (ps_ind _ _ _ _ _ _ H)|].
  right. exists bn. split; [done | by apply (ps_keep _ _ _ _ _ _ H)].
Qed.

Lemma pstep_trans c addrs c1 addrs1 g1 c2 addrs2 g2 :
  pstep sb c addrs c1 addrs1 g1 → pstep sb c1 addrs1 c2 addrs2 g2 → pstep sb c addrs c2 addrs2 g2.
Proof using Hsb.
  intros H1 H2. pose proof (λ x, pstep_fblock _ _ _ _ _ x H2) as Hkeep. destruct H1, H2. split; try done.
  - intros Hi. rewrite ps_ind1; [by apply ps_ind0|]. by rewrite ps_ind0.
  - intros bn Hbn Hb. rewrite ps_keep1; [by apply ps_keep0 | done|]. by rewrite ps_keep0.
  - intros m Hm Hu. by apply ps_inuse1, ps_inuse0.
  - intros m Hm Hu Hb Hn. rewrite ps_frame1; [by apply ps_frame0 | done | by apply ps_inuse0 | done|].
    intros [?|?]%ps_new0; [done | congruence].
  - intros x Hx. destruct (ps_new1 x Hx) as [Hx1|Hx1]; [by apply ps_new0|].
    right. destruct (inuse c sb x) eqn:Hu; [|done]. destruct ps_file1 as (_ & Hd & _). destruct (Hd x Hx) as [Hr _].
    destruct (data_not_bitmap x Hr). rewrite ps_inuse0 in Hx1; [done | lia | done].
  - intros m Hm Hu. destruct (ps_taken1 m Hm Hu) as [Hu1|]; [|by right]. destruct (ps_taken0 m Hm Hu1) as [|Hf]; [by left | right; by apply Hkeep].
Qed.

Lemma pstep_refl c addrs : file_ok c sb addrs → meta_used c sb → (∀ n, length (c n) = 512%nat) →
  pstep sb c addrs c addrs (fbyte c addrs).
Proof using. intros Hf Hm Hl. split; auto. Qed.

Lemma fblock_addr c addrs bn : 0 ≤ bn < MAXFILE → blkaddr c addrs bn ≠ 0 → fblock c addrs (blkaddr c addrs bn).
Proof using. intros Hbn Hb. split; [done|]. right. by exists bn. Qed.

Lemma off_block off : 0 ≤ off < MAXFILE * BSIZE → 0 ≤ off / BSIZE < MAXFILE ∧ 0 ≤ off mod BSIZE < 512.
Proof using. change MAXFILE with 140. change BSIZE with 512. intros. Z.div_mod_to_equations. lia. Qed.

(** The file gets the free block [n], as its block [new] or as its indirect block. *)
Lemma pstep_grow c addrs c' addrs' n (new : option Z) :
  file_ok c sb addrs → meta_used c sb → datastart sb ≤ n < Log.sb_size sb → inuse c sb n = false →
  length addrs' = 13%nat → (∀ m, length (c' m) = 512%nat) →
  (∀ m, 0 ≤ m < Log.sb_size sb → inuse c' sb m = if decide (m = n) then true else inuse c sb m) →
  (∀ m, 0 ≤ m < Log.sb_size sb → inuse c sb m = true → m ∉ bmaps sb → m ≠ ind addrs ∨ ind addrs = 0 → c' m = c m) →
  c' n = replicate 512 0 →
  (∀ bn, 0 ≤ bn < MAXFILE → blkaddr c' addrs' bn = if decide (new = Some bn) then n else blkaddr c addrs bn) →
  (∀ bn, new = Some bn → 0 ≤ bn < MAXFILE ∧ blkaddr c addrs bn = 0 ∧ ind addrs' = ind addrs) →
  (new = None → ind addrs = 0 ∧ ind addrs' = n) →
  pstep sb c addrs c' addrs' (fbyte c addrs).
Proof using Hsb.
  intros Hf Hmeta Hn Hfree Hlen Hl Huse Hsame Hzero Hblk Hnew Hind. pose proof Hf as (_ & Hd & Hinj & Hni).
  destruct (data_not_bitmap n Hn) as [Hn1 Hnb].
  assert (∀ x, fblock c addrs x → x ≠ n) as Hxn by (intros x [_ Hx]%Hd ->; congruence).
  assert (∀ x, fblock c' addrs' x → fblock c addrs x ∨ x = n) as Hfb.
  { intros x (Hx0 & [->|(bn & Hbn & Hx)]).
    - destruct new as [bn|]; [|right; by apply Hind]. destruct (Hnew bn eq_refl) as (_ & _ & Hi). left. rewrite Hi in *. split; [done | by left].
    - rewrite Hblk in Hx by done. case_decide; [by right|]. left. split; [done|]. right. by exists bn. }
  assert (∀ m, 0 ≤ m < Log.sb_size sb → inuse c sb m = true → inuse c' sb m = true) as Hmono.
  { intros m Hm Hu. rewrite Huse by done. by case_decide. }
  split; try done.
  - split; [done|]. split; [|split].
    + intros x [Hx| ->]%Hfb; [destruct (Hd x Hx) as [Hr Hu] | split; [done|]; rewrite Huse by lia; by rewrite decide_True].
      split; [done|]. destruct (data_not_bitmap x Hr). apply Hmono; [lia | done].
    + intros bn bn' Hbn Hbn'. rewrite !Hblk by done. do 2 case_decide; [congruence | | |].
      * intros Heq _. destruct (Hxn (blkaddr c addrs bn')); [apply fblock_addr; [done | lia] | done].
      * intros Heq _. destruct (Hxn (blkaddr c addrs bn)); [apply fblock_addr; [done | lia] | done].
      * by apply Hinj.
    + intros bn Hbn. rewrite Hblk by done. intros Hb0 Hbi. case_decide as Hdn.
      * destruct (Hnew bn Hdn) as (_ & _ & Hi). rewrite Hi in Hbi. apply (Hxn (ind addrs)); [|done]. split; [lia | by left].
      * destruct new as [b0|]; [|destruct (Hind eq_refl) as [_ Hi]; rewrite Hi in Hbi; by apply (Hxn (blkaddr c addrs bn)); [apply fblock_addr|]].
        destruct (Hnew b0 eq_refl) as (_ & _ & Hi). rewrite Hi in Hbi. by apply (Hni bn).
  - intros m Hm. assert (0 ≤ m < Log.sb_size sb) as Hm' by (destruct Hsb as (_ & _ & _ & _ & _ & ?); lia). by apply Hmono, Hmeta.
  - intros Hi. destruct new as [bn|]; [by apply (Hnew bn)|]. by destruct (Hind eq_refl).
  - intros bn Hbn Hb. rewrite Hblk by done. case_decide as Hdn; [|done]. by destruct (Hnew bn Hdn) as (_ & ? & _).
  - intros off Hoff. destruct (off_block off Hoff) as [Hbn Hm]. unfold fbyte. rewrite Hblk by done. case_decide as Hdn.
    + destruct (Hnew _ Hdn) as (_ & -> & _). rewrite Hzero, (proj2 (Z.eqb_neq n 0)) by lia. rewrite nth_lookup, lookup_replicate_2 by lia. done.
    + destruct (Z.eqb_spec (blkaddr c addrs (off / BSIZE)) 0) as [|Hb]; [done|]. rewrite Hsame; [done | ..].
      * destruct (Hd _ (fblock_addr c addrs _ Hbn Hb)) as [Hr _]. destruct (data_not_bitmap _ Hr). lia.
      * by destruct (Hd _ (fblock_addr c addrs _ Hbn Hb)).
      * destruct (Hd _ (fblock_addr c addrs _ Hbn Hb)) as [Hr _]. by destruct (data_not_bitmap _ Hr).
      * left. by apply Hni.
  - intros m Hm Hu Hb Hnf. apply Hsame; try done. destruct (decide (ind addrs = 0)) as [|Hi]; [by right | left].
    intros ->. apply Hnf. split; [done | by left].
  - intros x [Hx| ->]%Hfb; [by left | by right].
  - intros m Hm. rewrite Huse by done. case_decide as Hd'; [intros _; right; subst m | by left]. split; [lia|].
    destruct new as [bn|]; [right | left; by destruct (Hind eq_refl)]. destruct (Hnew bn eq_refl) as (Hbn & _). exists bn. split; [done|]. by rewrite Hblk, decide_True.
Qed.

(** The blocks of the file, and the indirect block, are not affected when another block is allocated. *)
Lemma alloc_same c addrs n m :
  file_ok c sb addrs → datastart sb ≤ n < Log.sb_size sb → inuse c sb n = false →
  0 ≤ m < Log.sb_size sb → inuse c sb m = true → m ∉ bmaps sb → alloc_content c sb n m = c m.
Proof using Hsb.
  intros Hf Hn Hfree Hm Hu Hb. apply alloc_content_other; [congruence|]. intros ->. apply Hb.
  destruct (data_not_bitmap n Hn). apply (BBLOCK_eq sb n Hsb). lia.
Qed.

Lemma alloc_length c n m : (∀ n, length (c n) = 512%nat) → length (alloc_content c sb n m) = 512%nat.
Proof using. intros Hl. unfold alloc_content, upd_block. case_match; [apply length_replicate|]. case_match; [by rewrite length_mark | done]. Qed.

Lemma ind_insert addrs k n : length addrs = 13%nat → 0 ≤ k ≤ 12 → ind (<[Z.to_nat k := n]> addrs) = if decide (k = 12) then n else ind addrs.
Proof using.
  intros Hl Hk. unfold ind. rewrite !nth_lookup. case_decide as Hd.
  - subst. by rewrite list_lookup_insert_eq by lia.
  - rewrite list_lookup_insert_ne by lia. done.
Qed.

Lemma word_at_zeros j : word_at (replicate 512 0) j = 0.
Proof using.
  unfold word_at. rewrite drop_replicate. destruct (512 - 4 * j)%nat as [|[|[|[|?]]]]; done.
Qed.

Lemma pstep_slot c addrs k n :
  file_ok c sb addrs → meta_used c sb → (∀ n, length (c n) = 512%nat) → datastart sb ≤ n < Log.sb_size sb → inuse c sb n = false →
  0 ≤ k ≤ 12 → nth (Z.to_nat k) addrs 0 = 0 →
  pstep sb c addrs (alloc_content c sb n) (<[Z.to_nat k := n]> addrs) (fbyte c addrs).
Proof using Hsb.
  intros Hf Hmeta Hl Hn Hfree Hk Hz. pose proof Hf as (Hlen & Hd & _). destruct (data_not_bitmap n Hn) as [Hn1 _].
  apply (pstep_grow c addrs _ _ n (if decide (k = 12) then None else Some k)); try done.
  - by rewrite length_insert.
  - intros m. by apply alloc_length.
  - intros m Hm. by apply inuse_alloc.
  - intros m Hm Hu Hb _. by eapply alloc_same.
  - apply alloc_content_same.
  - intros bn Hbn. unfold blkaddr at 1. rewrite ind_insert by done. destruct (Z.ltb_spec bn NDIRECT) as [Hlt|Hge]; unfold NDIRECT in *.
    + unfold blkaddr. rewrite (proj2 (Z.ltb_lt _ _)) by (unfold NDIRECT; lia). rewrite !nth_lookup.
      destruct (decide (k = 12)) as [->|]; [rewrite decide_False by done; by rewrite list_lookup_insert_ne by lia|].
      destruct (decide (Some k = Some bn)) as [[= ->]|]; [by rewrite list_lookup_insert_eq by lia|].
      rewrite list_lookup_insert_ne; [done|]. intros ?. assert (k = bn) by lia. congruence.
    + unfold blkaddr. rewrite (proj2 (Z.ltb_ge _ _)) by (unfold NDIRECT; lia). destruct (decide (k = 12)) as [->|Hk12].
      * rewrite decide_False by done. rewrite (proj2 (Z.eqb_neq n 0)) by lia. rewrite alloc_content_same, word_at_zeros.
        change (nth (Z.to_nat 12) addrs 0) with (ind addrs) in Hz. by rewrite Hz.
      * rewrite decide_False by (intros [= ->]; lia). destruct (Z.eqb_spec (ind addrs) 0) as [|Hi]; [done|].
        assert (fblock c addrs (ind addrs)) as Hfi by (split; [done | by left]). destruct (Hd _ Hfi) as [Hr Hu].
        destruct (data_not_bitmap _ Hr). rewrite (alloc_same c addrs); done || lia.
  - intros bn Hbn. destruct (decide (k = 12)); [done|]. injection Hbn as ->. rewrite ind_insert, decide_False by done.
    split; [change MAXFILE with 140; lia|]. split; [|done]. unfold blkaddr. by rewrite (proj2 (Z.ltb_lt _ _)) by (unfold NDIRECT; lia).
  - intros Hnone. destruct (decide (k = 12)) as [->|]; [|done]. rewrite ind_insert, decide_True by done. done.
Qed.

(** A new entry of the indirect block. *)
Lemma pstep_indirect c addrs bn n :
  file_ok c sb addrs → meta_used c sb → (∀ n, length (c n) = 512%nat) → datastart sb ≤ n < Log.sb_size sb → inuse c sb n = false →
  ind addrs ≠ 0 → NDIRECT ≤ bn < MAXFILE → blkaddr c addrs bn = 0 →
  let c1 := alloc_content c sb n in
  let d := word_put (c1 (ind addrs)) (Z.to_nat (bn - NDIRECT)) n in
  pstep sb c addrs (upd_block c1 (ind addrs) d) addrs (fbyte c addrs) ∧ blkaddr (upd_block c1 (ind addrs) d) addrs bn = n.
Proof using Hsb.
  intros Hf Hmeta Hl Hn Hfree Hi Hbn Hb0 c1 d. pose proof Hf as (Hlen & Hd & _). destruct (data_not_bitmap n Hn) as [Hn1 _].
  assert (fblock c addrs (ind addrs)) as Hfi by (split; [done | by left]). destruct (Hd _ Hfi) as [Hr Hu].
  destruct (data_not_bitmap _ Hr) as [Hi1 Hib]. assert (∀ m, length (c1 m) = 512%nat) as Hl1 by (intros; by apply alloc_length).
  unfold MAXFILE, NINDIRECT, NDIRECT, BSIZE in Hbn. change (12 + 512 / 4) with 140 in Hbn.
  assert (c1 (ind addrs) = c (ind addrs)) as Hc1 by (apply (alloc_same c addrs); done || lia).
  assert (∀ b, 0 ≤ b < MAXFILE → blkaddr (upd_block c1 (ind addrs) d) addrs b = if decide (Some bn = Some b) then n else blkaddr c addrs b) as Hblk.
  { intros b Hb. change MAXFILE with 140 in Hb. unfold blkaddr. destruct (Z.ltb_spec b NDIRECT) as [Hlt|Hge]; unfold NDIRECT in *.
    - rewrite decide_False by (intros [= ->]; lia). done.
    - rewrite (proj2 (Z.eqb_neq _ _) Hi). unfold upd_block. rewrite Z.eqb_refl. unfold d. destruct (decide (Some bn = Some b)) as [[= ->]|Hne].
      + rewrite word_at_put_same by (rewrite Hl1; lia). apply u32_small. destruct Hsb as (_ & ? & _). lia.
      + rewrite word_at_put_other; [by rewrite Hc1 | rewrite Hl1; lia |]. intros ?. apply Hne. f_equal. lia. }
  split; [|rewrite Hblk by (change MAXFILE with 140; lia); by rewrite decide_True].
  apply (pstep_grow c addrs _ _ n (Some bn)); try done.
  - intros m. unfold upd_block. case_match; [|done]. unfold d, NDIRECT. rewrite length_word_put; rewrite Hl1; lia.
  - intros m Hm. rewrite inuse_upd by done. by apply inuse_alloc.
  - intros m Hm Hum Hb [Hne|?]; [|done]. unfold upd_block. rewrite (proj2 (Z.eqb_neq _ _) Hne). by eapply alloc_same.
  - unfold upd_block. rewrite (proj2 (Z.eqb_neq n _)) by congruence. apply alloc_content_same.
  - intros b [= ->]. split; [change MAXFILE with 140; lia | done].
Qed.

(** A block of the file gets the contents [x]. *)
Lemma pstep_write c addrs bn x :
  file_ok c sb addrs → meta_used c sb → (∀ n, length (c n) = 512%nat) → 0 ≤ bn < MAXFILE → blkaddr c addrs bn ≠ 0 → length x = 512%nat →
  pstep sb c addrs (upd_block c (blkaddr c addrs bn) x) addrs
    (λ off, if off / BSIZE =? bn then nth (Z.to_nat (off mod BSIZE)) x 0 else fbyte c addrs off).
Proof using Hsb.
  intros Hf Hmeta Hl Hbn Hb Hx. pose proof Hf as (Hlen & Hd & Hinj & Hni). set (a := blkaddr c addrs bn) in *.
  destruct (Hd _ (fblock_addr c addrs bn Hbn Hb)) as [Hr Hu]. fold a in Hr, Hu. destruct (data_not_bitmap _ Hr) as [Ha1 Hab].
  assert (∀ b, blkaddr (upd_block c a x) addrs b = blkaddr c addrs b) as Hblk.
  { intros b. unfold blkaddr, upd_block. case_match; [done|]. case_match; [done|]. rewrite (proj2 (Z.eqb_neq _ _)); [done|]. intros He. by apply (Hni bn). }
  assert (∀ y, fblock (upd_block c a x) addrs y ↔ fblock c addrs y) as Hfb.
  { intros y. unfold fblock. split; intros (Hy & [?|(b & Hb' & He)]); (split; [done|]); [by left | right; exists b; by rewrite Hblk in He | by left | right; exists b; by rewrite Hblk]. }
  assert (∀ m, 0 ≤ m < Log.sb_size sb → inuse (upd_block c a x) sb m = inuse c sb m) as Huse by (intros; by apply inuse_upd).
  split.
  - split; [done|]. split; [|split].
    + intros y Hy%Hfb. destruct (Hd y Hy) as [Hyr Hyu]. split; [done|]. destruct (data_not_bitmap _ Hyr). by rewrite Huse by lia.
    + intros b b' H1 H2. rewrite !Hblk. by apply Hinj.
    + intros b H1. rewrite Hblk. by apply Hni.
  - intros m Hm. rewrite Huse by (destruct Hsb as (_ & _ & _ & _ & _ & ?); lia). by apply Hmeta.
  - intros m. unfold upd_block. by case_match.
  - done.
  - intros b _ _. apply Hblk.
  - intros off Hoff. destruct (off_block off Hoff) as [Hob Hom]. unfold fbyte. rewrite Hblk. destruct (Z.eqb_spec (off / BSIZE) bn) as [->|Hne].
    + fold a. rewrite (proj2 (Z.eqb_neq a 0) Hb). unfold upd_block. by rewrite Z.eqb_refl.
    + destruct (Z.eqb_spec (blkaddr c addrs (off / BSIZE)) 0) as [|Hb']; [done|]. unfold upd_block.
      rewrite (proj2 (Z.eqb_neq _ a)); [done|]. intros He. by apply Hne, Hinj.
  - intros m Hm. by rewrite Huse.
  - intros m Hm Hum Hmb Hnf. unfold upd_block. rewrite (proj2 (Z.eqb_neq m a)); [done|]. intros ->. by apply Hnf, fblock_addr.
  - intros y Hy%Hfb. by left.
  - intros m Hm. rewrite Huse by done. by left.
Qed.

End pure.

(** ** Inodes on the disk *)

(** A [struct dinode] whose fields fit. *)
Definition short (x : Z) : Prop := - 2 ^ 15 ≤ x < 2 ^ 15.
Definition dinode_ok (d : dinode) : Prop :=
  short (d_type d) ∧ short (d_major d) ∧ short (d_minor d) ∧ short (d_nlink d) ∧ 0 ≤ d_size d < 2 ^ 32 ∧
  length (d_addrs d) = 13%nat ∧ Forall (λ a, 0 ≤ a < 2 ^ 32) (d_addrs d).

Lemma length_dinode_bytes d : length (d_addrs d) = 13%nat → length (dinode_bytes d) = 64%nat.
Proof. intros Hl. unfold dinode_bytes. rewrite !length_app, length_le32s, Hl, length_le32. done. Qed.

Lemma word_at_le32s h l j rest : (4 * h = length rest)%nat → Forall (λ a, 0 ≤ a < 2 ^ 32) l → (j < length l)%nat → ∀ tl,
  word_at (rest ++ concat (le32 <$> l) ++ tl) (h + j) = nth j l 0.
Proof.
  intros Hh Hl Hj tl. unfold word_at. replace (4 * (h + j))%nat with (length rest + 4 * j)%nat by lia. rewrite drop_app_add.
  clear Hh rest. revert j Hj. induction Hl as [|a l Ha Hl IH]; intros j Hj; [simpl in Hj; lia|].
  rewrite fmap_cons. cbn [concat]. rewrite <- app_assoc. destruct j as [|j].
  - rewrite drop_0, le32_val_le32. by apply u32_small.
  - replace (4 * S j)%nat with (length (le32 a) + 4 * j)%nat by (rewrite length_le32; lia). rewrite drop_app_add. apply IH. simpl in Hj. lia.
Qed.

Lemma s16_le16 x : short x → s16 (byte_of x 0 + 2 ^ 8 * byte_of x 1) = x.
Proof.
  unfold short. intros Hx. unfold byte_of. rewrite !Z.shiftr_div_pow2 by lia. unfold u8, s16, u16.
  change (2 ^ (8 * 0)) with 1. change (2 ^ (8 * 1)) with 256. change (2 ^ 8) with 256. change (2 ^ 16) with 65536. change (2 ^ 15) with 32768 in *.
  rewrite Z.div_1_r. destruct (Z.ltb_spec ((x mod 256 + 256 * ((x / 256) mod 256)) mod 65536) 32768); Z.div_mod_to_equations; lia.
Qed.

Lemma dinode_roundtrip d tl : dinode_ok d → dinode_of (dinode_bytes d ++ tl) = d.
Proof.
  intros (H1 & H2 & H3 & H4 & H5 & H6 & H7). destruct d as [ty ma mi nl sz ad]. simpl in *. unfold dinode_of. f_equal.
  1-4: by apply s16_le16.
  - unfold dinode_bytes, word_at. simpl. change (le32_val (le32 sz ++ (concat (le32 <$> ad) ++ tl)) = sz). rewrite le32_val_le32. by apply u32_small.
  - set (hd := le16 ty ++ le16 ma ++ le16 mi ++ le16 nl ++ le32 sz).
    assert (∀ l, l = hd ++ concat (le32 <$> ad) ++ tl → (λ j, word_at l (3 + j)) <$> seq 0 13 = ad) as Hgen; [|by apply Hgen].
    intros l ->. apply list_eq. intros j. rewrite list_lookup_fmap. destruct (decide (j < 13)%nat) as [Hj|Hj].
    + rewrite lookup_seq_lt by lia. cbn [fmap option_fmap option_map]. destruct (lookup_lt_is_Some_2 ad j) as [a Ha]; [lia|]. rewrite Ha. f_equal.
      rewrite Nat.add_0_l, (word_at_le32s 3 ad j hd) by (done || lia). by rewrite nth_lookup, Ha.
    + rewrite lookup_seq_ge by lia. rewrite lookup_ge_None_2; [done|]. lia.
Qed.

Lemma word_at_app x tl i : (4 * i + 4 ≤ length x)%nat → word_at (x ++ tl) i = word_at x i.
Proof.
  intros Hl. unfold word_at. rewrite drop_app_le by lia. pose proof (length_drop x (4 * i)) as Hd.
  destruct (drop (4 * i) x) as [|a [|b [|c [|e r]]]]; simpl in Hd; (done || lia).
Qed.

Lemma half_at_app x tl i : (2 * i + 2 ≤ length x)%nat → half_at (x ++ tl) i = half_at x i.
Proof.
  intros Hl. unfold half_at. rewrite drop_app_le by lia. pose proof (length_drop x (2 * i)) as Hd.
  destruct (drop (2 * i) x) as [|a [|b r]]; simpl in Hd; (done || lia).
Qed.

Lemma dinode_of_take l : (64 ≤ length l)%nat → dinode_of l = dinode_of (take 64 l).
Proof.
  intros Hl. rewrite <- (take_drop 64 l) at 1. pose proof (length_take l 64) as Ht. unfold dinode_of.
  rewrite !half_at_app, !word_at_app by lia. f_equal. apply list_fmap_ext. intros ? j Hj. apply lookup_seq in Hj as [-> Hj]. apply word_at_app. lia.
Qed.

(** Writing an inode to its block and reading it back; the other inodes of the block stay. *)
Lemma dip_roundtrip n d x : dinode_ok d → length x = 512%nat → dip_get n (dip_set n d x) = d.
Proof.
  intros Hd Hx. unfold dip_get, dip_set. pose proof (Z.mod_pos_bound n IPB ltac:(done)) as Hm. change IPB with 8 in *.
  pose proof Hd as (_ & _ & _ & _ & _ & Hl & _). pose proof (length_dinode_bytes d Hl) as Hdl.
  unfold splice. rewrite drop_app_length' by (rewrite length_take; lia). by apply dinode_roundtrip.
Qed.

Lemma dip_other n m d x : length (d_addrs d) = 13%nat → length x = 512%nat → n mod IPB ≠ m mod IPB → dip_get m (dip_set n d x) = dip_get m x.
Proof.
  intros Hd Hx Hne. unfold dip_get, dip_set. change IPB with 8 in *. pose proof (Z.mod_pos_bound n 8 ltac:(lia)). pose proof (Z.mod_pos_bound m 8 ltac:(lia)).
  pose proof (length_dinode_bytes d Hd) as Hdb. rewrite (dinode_of_take (drop _ (splice _ _ _))), (dinode_of_take (drop _ x)).
  - by rewrite splice_other by lia.
  - rewrite length_drop. lia.
  - rewrite length_drop, length_splice by lia. lia.
Qed.

Lemma length_dip_set n d x : length (d_addrs d) = 13%nat → length x = 512%nat → length (dip_set n d x) = 512%nat.
Proof.
  intros Hd Hx. unfold dip_set. pose proof (Z.mod_pos_bound n IPB ltac:(done)) as Hm. change IPB with 8 in *.
  rewrite length_splice; [done|]. rewrite length_dinode_bytes by done. lia.
Qed.

(** ** Free blocks *)

Definition freeset (c : Z → list Z) (sb : superblock) : gset Z :=
  filter (λ n, inuse c sb n = false) (list_to_set (seqZ 0 (Log.sb_size sb))).

Lemma elem_of_freeset c sb n : n ∈ freeset c sb ↔ 0 ≤ n < Log.sb_size sb ∧ inuse c sb n = false.
Proof. unfold freeset. rewrite elem_of_filter, elem_of_list_to_set, elem_of_seqZ. rewrite Z.add_0_l. tauto. Qed.

Lemma freeset_ext c c' sb : (∀ m, 0 ≤ m < Log.sb_size sb → inuse c' sb m = inuse c sb m) → freeset c' sb = freeset c sb.
Proof.
  intros Hu. apply set_eq. intros m. rewrite !elem_of_freeset. split; (intros [? ?]; split; [done|]); [rewrite <- Hu | rewrite Hu]; done.
Qed.

Lemma freeset_alloc c c' sb n : (∀ m, 0 ≤ m < Log.sb_size sb → inuse c' sb m = if decide (m = n) then true else inuse c sb m) →
  freeset c' sb = freeset c sb ∖ {[n]}.
Proof.
  intros Hu. apply set_eq. intros m. rewrite elem_of_difference, !elem_of_freeset, elem_of_singleton. split.
  - intros [Hm Hf]. rewrite Hu in Hf by done. case_decide; done.
  - intros [[Hm Hf] Hne]. split; [done|]. rewrite Hu by done. by rewrite decide_False.
Qed.

Lemma size_freeset_alloc c c' sb n : n ∈ freeset c sb → freeset c' sb = freeset c sb ∖ {[n]} →
  size (freeset c sb) = S (size (freeset c' sb)).
Proof.
  intros Hn ->. rewrite size_difference by set_solver. rewrite size_singleton.
  assert (size (freeset c sb) ≠ 0%nat) by (intros ?%size_empty_inv; set_solver). lia.
Qed.

Lemma freeset_pick c sb : (0 < size (freeset c sb))%nat → ∃ j, 0 ≤ j < Log.sb_size sb ∧ inuse c sb j = false.
Proof. intros Hs. destruct (size_pos_elem_of (freeset c sb)) as [j Hj]; [lia|]. exists j. by apply elem_of_freeset. Qed.

Lemma size_union_le (X Y : gset Z) : (size (X ∪ Y) ≤ size X + size Y)%nat.
Proof. rewrite size_union_alt. pose proof (subseteq_size (Y ∖ X) Y ltac:(set_solver)). lia. Qed.

Section file.
Context {B : Type} {BL : BlockLayer B} {BV : BlockView B} {BS : BlockSpec B}.
Abbreviation fstate := (fstate (B:=B)).

Definition con (s : fstate) : Z → list Z := l_content (fblk s).

(** The file system is in order, the process holds no buffer, and the inode
    cache entry [i] at [ip] describes a file. *)
Definition finv (s : fstate) (ip : nat) (i : inode) : Prop :=
  icache s !! ip = Some i ∧ idev i = 1 ∧ l_ok (fblk s) [] ∧ geom (fblk s) (sb s) ∧ meta_used (con s) (sb s) ∧
  file_ok (con s) (sb s) (iaddrs i).

(** A step that changes the blocks and the addresses of the file at [ip] only. *)
Definition fstep (s : fstate) (ip : nat) (i : inode) (s' : fstate) (i' : inode) (g : Z → Z) : Prop :=
  sb s' = sb s ∧ fpid s' = fpid s ∧ cwd s' = cwd s ∧ icache s' = <[ip := i']> (icache s) ∧
  i' = set_idata (set_addrs (iaddrs i') (idata i)) i ∧
  pstep (sb s) (con s) (iaddrs i) (con s') (iaddrs i') g ∧
  l_step (fblk s) (fblk s') (con s') (l_logged (fblk s')).

Lemma fstep_trans s ip i s1 i1 g1 s2 i2 g2 :
  sb_ok (sb s) → fstep s ip i s1 i1 g1 → fstep s1 ip i1 s2 i2 g2 → fstep s ip i s2 i2 g2.
Proof using.
  intros Hsb (B1 & P1 & W1 & C1 & I1 & S1 & L1) (B2 & P2 & W2 & C2 & I2 & S2 & L2). rewrite B1 in S2.
  split; [congruence|]. split; [congruence|]. split; [congruence|]. split; [by rewrite C2, C1, list_insert_insert_eq|].
  split; [by eapply set_addrs_trans|]. split; [by eapply pstep_trans|]. by eapply l_step_trans.
Qed.

Lemma finv_step s ip i s' i' g :
  finv s ip i → fstep s ip i s' i' g → l_ok (fblk s') [] → finv s' ip i'.
Proof using.
  intros (Hi & Hd & _ & Hg & _) (Hb & _ & _ & Hc & Hi' & Hps & Hl) Hok. unfold finv. rewrite Hb. split_and!.
  - rewrite Hc. apply list_lookup_insert_eq. by eapply lookup_lt_Some.
  - by rewrite Hi'.
  - done.
  - by eapply geom_step.
  - by eapply ps_meta.
  - by eapply ps_file.
Qed.

Lemma set_fblk_same (s : fstate) : set_fblk (fblk s) s = s.
Proof using. by destruct s. Qed.

Lemma geti_run (s : fstate) ip i : icache s !! ip = Some i → does (geti ip) s i s [].
Proof using. intros Hi. exists []. unfold geti. by rewrite Hi. Qed.

(** The address slot [k], filled if it was empty. *)
Lemma bmap_addr_spec s ip i k :
  finv s ip i → 0 ≤ k ≤ 12 →
  (nth (Z.to_nat k) (iaddrs i) 0 = 0 → (0 < size (freeset (con s) (sb s)))%nat ∧
     (S (size (bmaps (sb s) ∪ l_logged (fblk s))) ≤ l_cap (fblk s))%nat) →
  quiet (bmap_addr ip k) s (λ a s', ∃ i', finv s' ip i' ∧ fstep s ip i s' i' (fbyte (con s) (iaddrs i)) ∧
    a = nth (Z.to_nat k) (iaddrs i') 0 ∧ a ≠ 0 ∧
    (if decide (nth (Z.to_nat k) (iaddrs i) 0 = 0)
     then iaddrs i' = <[Z.to_nat k := a]> (iaddrs i) ∧ a ∈ freeset (con s) (sb s) ∧
       freeset (con s') (sb s) = freeset (con s) (sb s) ∖ {[a]} ∧ l_logged (fblk s') ⊆ {[a]} ∪ (bmaps (sb s) ∪ l_logged (fblk s))
     else s' = s ∧ i' = i)).
Proof using BS.
  intros Hinv Hk Hroom. pose proof Hinv as (Hi & Hd & Hok & Hg & Hmeta & Hf). pose proof Hg as (Hsb & _).
  assert (∀ n, length (con s n) = 512%nat) as Hl by (intros n; by eapply l_length).
  unfold bmap_addr, get_addr. apply quiet_bind. eapply quiet_bind_does; [by apply geti_run|]. quiet_step. cbv beta.
  destruct (Z.eqb_spec (nth (Z.to_nat k) (iaddrs i) 0) 0) as [H0|H0].
  - destruct (Hroom H0) as [Hfree Hcap]. eapply quiet_bind_does; [by apply geti_run|]. rewrite Hd. quiet_step.
    eapply quiet_mono; [apply (balloc_spec s []); [|by apply freeset_pick]|].
    { split; [done|]. split; [done|]. split; [done|]. split; [simpl; lia|]. split; [by intros m ?%elem_of_nil | done]. }
    intros n s1 (y & -> & Hy & Hn & Hun & Hst). unfold set_addr, updi. quiet_step. quiet_step. quiet_step.
    pose proof Hst as (Hc & Hw & Hrest). set (i' := set_idata (set_addrs (<[Z.to_nat k := n]> (iaddrs i)) (idata i)) i).
    pose proof (data_not_bitmap (sb s) Hsb n Hn) as [Hn1 Hnb]. pose proof Hf as (Hlen & _).
    assert (∀ m, 0 ≤ m < Log.sb_size (sb s) → inuse (l_content y) (sb s) m = if decide (m = n) then true else inuse (con s) (sb s) m) as Huse.
    { intros m Hm. rewrite (inuse_ext _ _ _ _ Hc). apply inuse_alloc; done. }
    assert (fstep s ip i (set_icache (alter (λ i, set_idata (set_addrs (<[Z.to_nat k := n]> (iaddrs i)) (idata i)) i) ip (icache (set_fblk y s))) (set_fblk y s)) i' (fbyte (con s) (iaddrs i))) as Hfs.
    { split; [done|]. split; [done|]. split; [done|]. split; [simpl; by rewrite (alter_as_insert _ _ _ i)|]. split; [done|].
      split; [|by split]. apply (pstep_ext _ _ _ (alloc_content (con s) (sb s) n) _ _ (fbyte (con s) (iaddrs i))); [done | done | by apply pstep_slot]. }
    assert (nth (Z.to_nat k) (iaddrs i') 0 = n) as Hnth by (change (iaddrs i') with (<[Z.to_nat k := n]> (iaddrs i)); rewrite nth_lookup, list_lookup_insert_eq by lia; done).
    exists i'. split; [by eapply finv_step|]. split; [done|]. split; [done|]. split; [lia|]. rewrite decide_True by done. split; [done|]. split; [apply elem_of_freeset; split; [lia | done]|].
    split; [by apply freeset_alloc|]. cbn [fblk set_icache set_fblk]. rewrite Hw. destruct (BBLOCK_eq (sb s) n Hsb ltac:(lia)) as (_ & _ & Hb). set_solver.
  - quiet_step. exists i. split; [done|]. split; [|by rewrite decide_False].
    split; [done|]. split; [done|]. split; [done|]. split; [by rewrite list_insert_id|]. split; [by destruct i as [? ? ? ? ? []]|].
    split; [by apply pstep_refl | by split].
Qed.

(** What the file system may still log and allocate for the file: an indirect
    block that is still to come is counted beforehand. *)
Definition indset (addrs : list Z) : gset Z := if ind addrs =? 0 then ∅ else {[ind addrs]}.
Definition load (s : fstate) (i : inode) : nat :=
  size (bmaps (sb s) ∪ indset (iaddrs i) ∪ l_logged (fblk s)) + (if ind (iaddrs i) =? 0 then 1 else 0).
Definition pot (s : fstate) (i : inode) : nat :=
  size (freeset (con s) (sb s)) + (if ind (iaddrs i) =? 0 then 0 else 1).

(** The block [a] of the file and what was logged on the way to it. *)
Definition mapped (s : fstate) (ip : nat) (i : inode) (bn a : Z) (s' : fstate) : Prop :=
  ∃ i', finv s' ip i' ∧ fstep s ip i s' i' (fbyte (con s) (iaddrs i)) ∧
    a = blkaddr (con s') (iaddrs i') bn ∧ a ≠ 0 ∧
    l_logged (fblk s') ⊆ {[a]} ∪ (bmaps (sb s) ∪ indset (iaddrs i') ∪ l_logged (fblk s)) ∧
    (load s' i' ≤ S (load s i))%nat ∧ (pot s i ≤ S (pot s' i'))%nat ∧ (blkaddr (con s) (iaddrs i) bn ≠ 0 → i' = i).

(** A state that differs in the buffers only. *)
Lemma fstep_same s ip i y :
  finv s ip i → l_step (fblk s) y (con s) (l_logged (fblk s)) →
  fstep s ip i (set_fblk y s) i (fbyte (con s) (iaddrs i)).
Proof using BS.
  intros (Hi & Hd & Hok & Hg & Hmeta & Hf) Hst. pose proof Hst as (Hc & Hw & Hr).
  split; [done|]. split; [done|]. split; [done|]. split; [by rewrite list_insert_id|]. split; [by destruct i as [? ? ? ? ? []]|]. split; [|by split].
  apply (pstep_ext _ _ _ (con s) _ _ (fbyte (con s) (iaddrs i))); [done | done|]. apply pstep_refl; [done | done|]. intros n. by eapply l_length.
Qed.

Lemma load_le s ip i s' i' g X :
  fstep s ip i s' i' g → ind (iaddrs i') = ind (iaddrs i) → l_logged (fblk s') ⊆ X ∪ (bmaps (sb s) ∪ indset (iaddrs i) ∪ l_logged (fblk s)) →
  (load s' i' ≤ size X + load s i)%nat.
Proof using BS.
  intros (Hb & _) Hi Hl. unfold load, indset in *. rewrite Hb, Hi in *. rewrite Nat.add_assoc. apply Nat.add_le_mono_r.
  etransitivity; [|apply size_union_le]. apply subseteq_size. set_solver.
Qed.

Lemma load_bmaps s i : (size (bmaps (sb s) ∪ l_logged (fblk s)) ≤ load s i)%nat.
Proof using BS. unfold load. etransitivity; [|apply Nat.le_add_r]. apply subseteq_size. set_solver. Qed.

(** An entry of the indirect block, filled if it was empty. *)
Lemma bmap_entry_spec s ip i bn :
  finv s ip i → ind (iaddrs i) ≠ 0 → NDIRECT ≤ bn < MAXFILE → (S (load s i) ≤ l_cap (fblk s))%nat → (2 ≤ pot s i)%nat →
  quiet (j ← geti ip ;
    bp ← bread (idev j) (ind (iaddrs i)) ;
    a ← data bp ;
    addr ← (if word_at a (Z.to_nat (bn - NDIRECT)) =? 0 then
              addr ← balloc (idev j) ;
              edit bp (λ d, word_put d (Z.to_nat (bn - NDIRECT)) addr) ;;
              log_write bp ;;
              mret addr
            else mret (word_at a (Z.to_nat (bn - NDIRECT)))) ;
    brelse bp ;;
    mret addr) s (mapped s ip i bn).
Proof using BS.
  intros Hinv Hi0 Hbn Hcap Hpot. pose proof Hinv as (Hi & Hd & Hok & Hg & Hmeta & Hf). pose proof Hg as (Hsb & G0 & G7).
  pose proof Hf as (Hlen & Hdat & _). assert (fblock (con s) (iaddrs i) (ind (iaddrs i))) as Hfi by (split; [done | by left]).
  destruct (Hdat _ Hfi) as [Hir Hiu]. destruct (data_not_bitmap (sb s) Hsb _ Hir) as [Hi1 Hib].
  assert (∀ n, length (con s n) = 512%nat) as Hl by (intros n; by eapply l_length).
  assert (blkaddr (con s) (iaddrs i) bn = word_at (con s (ind (iaddrs i))) (Z.to_nat (bn - NDIRECT))) as Hblk.
  { unfold blkaddr. rewrite (proj2 (Z.ltb_ge _ _)), (proj2 (Z.eqb_neq _ _) Hi0) by lia. done. }
  eapply quiet_bind_does; [by apply geti_run|]. rewrite Hd. destruct (Z.eqb_spec (word_at (con s (ind (iaddrs i))) (Z.to_nat (bn - NDIRECT))) 0) as [H0|H0].
  - destruct (l_bread_ok (fblk s) [] (ind (iaddrs i)) Hok) as (b & x1 & R1 & Hx1 & S1); [lia | apply not_elem_of_nil | simpl; lia |].
    pose proof (l_data_ok _ _ _ _ _ Hx1) as R2. pose proof S1 as (C1 & W1 & D1 & G1 & P1).
    eapply quiet_bind_does; [by apply does_blk|]. eapply quiet_bind_does; [by apply (does_blk _ (set_fblk x1 s))|].
    cbv beta. rewrite C1. fold (con s). rewrite H0. simpl Z.eqb. cbv iota. do 2 apply quiet_bind.
    eapply quiet_mono; [apply (balloc_spec (set_fblk x1 s) [(b, ind (iaddrs i), false)])|].
    { split; [done|]. split; [by eapply geom_step|]. split; [intros m Hm; simpl; rewrite (inuse_ext (con s)) by done; by apply Hmeta|].
      split; [simpl; lia|]. split.
      - intros m ->%list_elem_of_singleton. simpl. split; [lia|]. by rewrite (inuse_ext (con s)).
      - simpl. rewrite W1, P1. pose proof (load_bmaps s i). lia. }
    { unfold pot in Hpot. rewrite (proj2 (Z.eqb_neq _ _) Hi0) in Hpot. destruct (freeset_pick (con s) (sb s)) as (j & Hj & Hju); [lia|].
      exists j. split; [done|]. simpl. by rewrite (inuse_ext (con s)). }
    intros n s2 (y & -> & Hy & Hn & Hun & S2). simpl in Hun, Hn. rewrite (inuse_ext (con s)) in Hun by done.
    pose proof S2 as (C2 & W2 & D2 & G2 & P2). simpl in C2, W2, D2, G2, P2. set (f := λ d, word_put d (Z.to_nat (bn - NDIRECT)) n).
    assert (∀ m, l_content y m = alloc_content (con s) (sb s) n m) as Cy.
    { intros m. rewrite C2. unfold alloc_content. rewrite !C1. apply upd_block_ext. intros k. unfold upd_block. by rewrite C1. }
    assert (∀ m, length (l_content y m) = 512%nat) as Hly by (intros m; by eapply l_length).
    assert (0 ≤ bn - NDIRECT < 128) as Hbn' by (change MAXFILE with 140 in Hbn; unfold NDIRECT in *; lia).
    destruct (l_edit_ok y b (ind (iaddrs i)) false [] f Hy) as (x2 & R3 & Hx2 & S3); [unfold f; rewrite length_word_put; rewrite Hly; lia|].
    pose proof S3 as (C3 & W3 & D3 & G3 & P3). pose proof (inodes_before_data (sb s) Hsb).
    pose proof (BBLOCK_eq (sb s) n Hsb ltac:(lia)) as (_ & _ & Hnb).
    destruct (l_log_write_ok x2 b (ind (iaddrs i)) true [] Hx2) as (x3 & R4 & Hx3 & S4).
    { apply G3, G2, G1, G7. lia. }
    { rewrite W3, W2, W1, P3, P2, P1. etransitivity; [|exact Hcap]. unfold load, indset. rewrite (proj2 (Z.eqb_neq _ _) Hi0), Nat.add_0_r.
      etransitivity; [|apply (size_insert_le n); reflexivity]. apply subseteq_size. set_solver. }
    destruct (l_brelse_ok _ _ _ _ Hx3) as (z & R5 & Hz & S5). pose proof S4 as (C4 & W4 & _). pose proof S5 as (C5 & W5 & _).
    eapply quiet_bind_does; [by apply (does_blk _ (set_fblk y s))|]. eapply quiet_bind_does; [by apply (does_blk _ (set_fblk x2 s))|].
    quiet_step. eapply quiet_bind_does; [by apply (does_blk _ (set_fblk x3 s))|]. quiet_step.
    change (set_fblk z (set_fblk x3 s)) with (set_fblk z s).
    destruct (pstep_indirect (sb s) Hsb (con s) (iaddrs i) bn n) as [Hps Hpb]; [done | done | done | done | done | done | done | by rewrite Hblk |].
    set (c2 := upd_block _ _ _) in Hps, Hpb. assert (∀ m, con (set_fblk z s) m = c2 m) as Cz.
    { intros m. unfold con. simpl. rewrite C5, C4, C3. unfold c2, f. rewrite Cy. apply upd_block_ext. apply Cy. }
    assert (fstep s ip i (set_fblk z s) i (fbyte (con s) (iaddrs i))) as Hfs.
    { split; [done|]. split; [done|]. split; [done|]. split; [by rewrite list_insert_id|]. split; [by destruct i as [? ? ? ? ? []]|].
      split; [by apply (pstep_ext _ _ _ c2 _ _ (fbyte (con s) (iaddrs i)))|].
      eapply l_step_trans; [|exact S5 | by intros m; rewrite <- C5 | by rewrite <- W5]. eapply l_step_trans; [|exact S4 | done | done]. eapply l_step_trans; [|exact S3 | done | done].
      eapply l_step_trans; [exact S1 | exact S2 | done | done]. }
    assert (l_logged z ⊆ {[n]} ∪ (bmaps (sb s) ∪ indset (iaddrs i) ∪ l_logged (fblk s))) as Hlz.
    { rewrite W5, W4, W3, W2, W1. unfold indset. rewrite (proj2 (Z.eqb_neq _ _) Hi0). set_solver. }
    exists i. split; [by eapply finv_step|]. split; [done|]. split; [rewrite <- Hpb; symmetry; by apply blkaddr_ext|]. split; [lia|]. split; [done|].
    split; [pose proof (load_le s ip i (set_fblk z s) i _ {[n]} Hfs eq_refl Hlz) as Hle; rewrite size_singleton in Hle; done|].
    split; [|done]. unfold pot. rewrite (size_freeset_alloc (con s) (con (set_fblk z s)) (sb s) n); [simpl; lia | apply elem_of_freeset; split; [lia | done] |].
    apply freeset_alloc. intros m Hm. rewrite (inuse_ext _ _ _ _ Cz). unfold c2. rewrite inuse_upd by done. by apply inuse_alloc.
  - destruct (read_idiom s [] (ind (iaddrs i))) as (b & x & y & R1 & R2 & R3 & Hy & S1); [done | lia | apply not_elem_of_nil | simpl; lia |].
    eapply quiet_bind_does; [exact R1|]. eapply quiet_bind_does; [exact R2|]. cbv beta. fold (con s).
    rewrite (proj2 (Z.eqb_neq _ _) H0). eapply quiet_bind_does; [apply does_ret|]. eapply quiet_bind_does; [exact R3|]. quiet_step.
    pose proof (fstep_same s ip i y Hinv S1) as Hfs. pose proof S1 as (C1 & W1 & _).
    exists i. split; [by eapply finv_step|]. split; [done|]. split; [rewrite <- Hblk; symmetry; by apply blkaddr_ext|]. split; [done|].
    split; [simpl; rewrite W1; set_solver|]. split.
    { pose proof (load_le s ip i (set_fblk y s) i _ ∅ Hfs eq_refl) as Hle. rewrite size_empty in Hle. etransitivity; [apply Hle|lia]. simpl. rewrite W1. set_solver. }
    split; [|done]. unfold pot. rewrite (freeset_ext (con s) (con (set_fblk y s))); [simpl; lia|]. intros m _. by apply inuse_ext.
Qed.

(** [bmap] finds block [bn] of the file or makes it, empty, out of a free block;
    the contents of the file stay as they are. *)
Lemma bmap_spec s ip i bn :
  finv s ip i → 0 ≤ bn < MAXFILE → (S (load s i) ≤ l_cap (fblk s))%nat → (2 ≤ pot s i)%nat →
  quiet (bmap ip bn) s (mapped s ip i bn).
Proof using BS.
  intros Hinv Hbn Hcap Hpot. pose proof Hinv as (Hi & _ & Hok & (Hsb & _) & _ & (Hlen & _)). pose proof (load_bmaps s i) as Hlb.
  assert (1 ≤ size (freeset (con s) (sb s)))%nat as Hfr by (unfold pot in Hpot; case_match; lia).
  unfold bmap. destruct (Z.ltb_spec bn NDIRECT) as [Hlt|Hge].
  - unfold NDIRECT in Hlt. eapply quiet_mono; [apply (bmap_addr_spec s ip i bn Hinv); [lia | intros; lia]|].
    intros a s' (i' & Hinv' & Hfs & Ha & Ha0 & Hcase). exists i'. split; [done|]. split; [done|].
    split; [unfold blkaddr; by rewrite (proj2 (Z.ltb_lt _ _)) by (unfold NDIRECT; lia)|]. split; [done|].
    destruct (decide (nth (Z.to_nat bn) (iaddrs i) 0 = 0)) as [H0|H0].
    + destruct Hcase as (Haddr & Haf & Hfree & Hlog).
      assert (ind (iaddrs i') = ind (iaddrs i)) as Hind by (rewrite Haddr, ind_insert, decide_False by (done || lia); done).
      assert (l_logged (fblk s') ⊆ {[a]} ∪ (bmaps (sb s) ∪ indset (iaddrs i) ∪ l_logged (fblk s))) as Hlog' by (etransitivity; [exact Hlog|]; clear; set_solver).
      unfold indset in *. rewrite Hind. split; [done|]. split; [pose proof (load_le s ip i s' i' _ {[a]} Hfs Hind Hlog') as Hle; by rewrite size_singleton in Hle|].
      split; [unfold pot; rewrite Hind; destruct Hfs as (-> & _); rewrite (size_freeset_alloc _ _ _ _ Haf Hfree); lia|].
      intros []. unfold blkaddr. by rewrite (proj2 (Z.ltb_lt _ _)) by (unfold NDIRECT; lia).
    + destruct Hcase as [-> ->]. split; [clear; set_solver|]. split; [lia|]. split; [lia | done].
  - rewrite (proj2 (Z.ltb_lt (bn - NDIRECT) NINDIRECT)) by (change MAXFILE with 140 in Hbn; change NINDIRECT with 128; unfold NDIRECT; lia).
    apply quiet_bind. eapply quiet_mono; [apply (bmap_addr_spec s ip i NDIRECT Hinv); [unfold NDIRECT; lia | intros; lia]|].
    intros a s1 (i1 & Hinv1 & Hfs1 & Ha & Ha0 & Hcase). change (nth (Z.to_nat NDIRECT) ?l 0) with (ind l) in *. cbv beta. rewrite Ha in *.
    assert (load s1 i1 ≤ load s i ∧ pot s1 i1 = pot s i)%nat as [Hle Hpe].
    { unfold load, pot. destruct (decide (ind (iaddrs i) = 0)) as [H0|H0]; [|by destruct Hcase as [-> ->]].
      destruct Hcase as (_ & Haf & Hfree & Hlog). destruct Hfs1 as (Hsb1 & _). rewrite Hsb1. unfold indset. rewrite H0, (proj2 (Z.eqb_neq _ _) Ha0). simpl.
      split; [|rewrite (size_freeset_alloc _ _ _ _ Haf Hfree); lia]. rewrite Nat.add_0_r, Nat.add_1_r.
      etransitivity; [|apply (size_insert_le (ind (iaddrs i1))); reflexivity]. apply subseteq_size. revert Hlog. clear. set_solver. }
    pose proof Hfs1 as (Hb1 & _ & _ & _ & _ & _ & (_ & _ & _ & _ & Hc1)).
    eapply quiet_mono; [apply (bmap_entry_spec s1 ip i1 bn Hinv1 Ha0); [lia | lia | lia]|].
    intros a2 s2 (i2 & Hinv2 & Hfs2 & Ha2 & Ha20 & Hlog2 & Hl2 & Hp2 & Hi2). exists i2.
    pose proof Hfs2 as (? & ? & ? & ? & ? & Hps2 & ?). pose proof Hfs1 as (_ & _ & _ & _ & _ & Hps1 & _). split; [done|]. split.
    { eapply fstep_trans; [done | exact Hfs1|]. repeat (split; [done|]). split; [|done].
      eapply pstep_ext; [done | | exact Hps2]. intros off Hoff. symmetry. by apply (ps_bytes _ _ _ _ _ _ Hps1). }
    split; [done|]. split; [done|]. split; [|split; [lia|]; split; [lia|]; intros Hbn0; unfold blkaddr in Hbn0; rewrite (proj2 (Z.ltb_ge _ _) Hge) in Hbn0;
      destruct (Z.eqb_spec (ind (iaddrs i)) 0) as [|Hin]; [done|]; rewrite decide_False in Hcase by done; destruct Hcase as [-> ->]; apply Hi2;
      unfold blkaddr; by rewrite (proj2 (Z.ltb_ge _ _) Hge), (proj2 (Z.eqb_neq _ _) Hin)].
    rewrite Hb1 in Hlog2. unfold indset in *. rewrite (ps_ind _ _ _ _ _ _ Hps2 Ha0) in Hlog2 |- *.
    rewrite (proj2 (Z.eqb_neq _ _) Ha0) in Hlog2 |- *. etransitivity; [exact Hlog2|].
    destruct (decide (ind (iaddrs i) = 0)); [destruct Hcase as (_ & _ & _ & Hlog); revert Hlog; clear; set_solver | destruct Hcase as [-> _]; done].
Qed.

End file.

End FsFile.
