(* ===== verification/FsRw.v ===== *)
(** * fs.c: reading and writing files

    [readi] and [writei] against the byte array of the file: [writei] changes
    exactly the bytes it is given, grows the file when it must, and [readi]
    returns what the array holds. *)

From S2P Require Import Prelude Memory Layout Sleeplock Bio Log Block Fs FsBlock FsFile.

Module FsRw.
Import LogBlocks Fs FsBlock FsFile.

(** ** Blocks of bytes *)

(** A piece of a block is a piece of the file. *)
Lemma block_bytes c addrs off m :
  blkaddr c addrs (off / BSIZE) ≠ 0 → length (c (blkaddr c addrs (off / BSIZE))) = 512%nat →
  0 ≤ m → off mod BSIZE + m ≤ BSIZE →
  take (Z.to_nat m) (drop (Z.to_nat (off mod BSIZE)) (c (blkaddr c addrs (off / BSIZE)))) = read_bytes (fbyte c addrs) off m.
Proof.
  intros Hb Hl Hm Hle. pose proof (Z.mod_pos_bound off BSIZE ltac:(done)) as Hmod. apply list_eq. intros i. rewrite read_bytes_lookup.
  case_decide as Hi; [|by rewrite lookup_take_ge by lia]. rewrite lookup_take_lt, lookup_drop by lia. unfold fbyte.
  assert ((off + i) / BSIZE = off / BSIZE ∧ (off + i) mod BSIZE = off mod BSIZE + i) as [-> ->].
  { change BSIZE with 512 in *. Z.div_mod_to_equations. lia. }
  rewrite (proj2 (Z.eqb_neq _ _) Hb). rewrite nth_lookup. replace (Z.to_nat (off mod BSIZE + i)) with (Z.to_nat (off mod BSIZE) + i)%nat by lia.
  destruct (lookup_lt_is_Some_2 (c (blkaddr c addrs (off / BSIZE))) (Z.to_nat (off mod BSIZE) + i)) as [x ->]; [change BSIZE with 512 in *; lia | done].
Qed.

(** Writing a piece of a block writes a piece of the file. *)
Lemma block_write c addrs off x y :
  blkaddr c addrs (off / BSIZE) ≠ 0 → length (c (blkaddr c addrs (off / BSIZE))) = 512%nat → 0 ≤ off →
  off mod BSIZE + length x ≤ BSIZE → 0 ≤ y →
  (if y / BSIZE =? off / BSIZE
   then nth (Z.to_nat (y mod BSIZE)) (splice (Z.to_nat (off mod BSIZE)) x (c (blkaddr c addrs (off / BSIZE)))) 0
   else fbyte c addrs y) = write_bytes (fbyte c addrs) off x y.
Proof.
  intros Hb Hl Hoff Hle Hy. pose proof (Z.mod_pos_bound off BSIZE ltac:(done)) as Hm. pose proof (Z.mod_pos_bound y BSIZE ltac:(done)) as Hym.
  pose proof (Z.div_mod off BSIZE ltac:(done)) as Hdo. pose proof (Z.div_mod y BSIZE ltac:(done)) as Hdy. change BSIZE with 512 in *.
  unfold write_bytes. destruct (Z.eqb_spec (y / 512) (off / 512)) as [He|Hne]; [|range_cases; [exfalso; apply Hne; lia | done]].
  rewrite nth_lookup, lookup_splice by lia. rewrite He in Hdy. range_cases.
  - rewrite decide_True by lia. replace (Z.to_nat (y mod 512) - Z.to_nat (off mod 512))%nat with (Z.to_nat (y - off)) by lia.
    destruct (lookup_lt_is_Some_2 x (Z.to_nat (y - off))) as [b ->]; [lia | done].
  - rewrite decide_False by lia. unfold fbyte. change BSIZE with 512. rewrite He, (proj2 (Z.eqb_neq _ _) Hb). by rewrite nth_lookup.
Qed.

(** The number of blocks the [k] bytes from [off] lie in. *)
Definition nblk (off k : Z) : Z := if k =? 0 then 0 else (off + k - 1) / BSIZE - off / BSIZE + 1.

Lemma nblk_step off k : 0 ≤ off → 0 < k →
  let m := Z.min k (BSIZE - off mod BSIZE) in
  0 < m ≤ k ∧ off mod BSIZE + m ≤ BSIZE ∧ nblk off k = 1 + nblk (off + m) (k - m) ∧ 0 ≤ nblk (off + m) (k - m) ∧
  (0 < k - m → (off + m) / BSIZE = off / BSIZE + 1 ∧ (off + m) mod BSIZE = 0).
Proof.
  intros Hoff Hk m. pose proof (Z.mod_pos_bound off BSIZE ltac:(done)) as Hm. unfold nblk. rewrite (proj2 (Z.eqb_neq k 0)) by lia.
  change BSIZE with 512 in *. destruct (Z.eqb_spec (k - m) 0) as [He|He]; unfold m in *; split_and!; Z.div_mod_to_equations; lia.
Qed.

(** ** Inode blocks *)

Definition inum_ok (sb : superblock) (n : Z) : Prop := 0 < n < Log.ninodes sb.

Lemma IBLOCK_eq sb n : sb_ok sb → inum_ok sb n →
  IBLOCK n sb = n / IPB + Log.inodestart sb ∧ Log.inodestart sb ≤ IBLOCK n sb < Log.bmapstart sb.
Proof.
  intros (H1 & H2 & H3 & H4 & H5 & H6) [Hn1 Hn2]. unfold datastart in *. change BPB with 4096 in *. change IPB with 8 in *.
  assert (0 ≤ n / 8 ≤ Log.ninodes sb / 8) by (Z.div_mod_to_equations; lia).
  assert (IBLOCK n sb = n / 8 + Log.inodestart sb) as ->; [|lia]. unfold IBLOCK. change IPB with 8. apply u32_small.
  Z.div_mod_to_equations. lia.
Qed.

(** Writing an inode block touches neither the bitmap nor any file. *)
Lemma inode_block_upd sb c ib x addrs :
  sb_ok sb → ib < Log.bmapstart sb → file_ok c sb addrs →
  file_ok (upd_block c ib x) sb addrs ∧ (∀ bn, 0 ≤ bn → blkaddr (upd_block c ib x) addrs bn = blkaddr c addrs bn) ∧
  (∀ off, 0 ≤ off < MAXFILE * BSIZE → fbyte (upd_block c ib x) addrs off = fbyte c addrs off) ∧
  (∀ m, 0 ≤ m < Log.sb_size sb → inuse (upd_block c ib x) sb m = inuse c sb m).
Proof.
  intros Hsb Hib Hf. pose proof Hf as (Hlen & Hd & Hinj & Hni). pose proof Hsb as (_ & _ & _ & _ & Hib' & Hds).
  assert (Log.bmapstart sb < datastart sb) as Hbd by (destruct Hsb as (? & _); unfold datastart; change BPB with 4096; Z.div_mod_to_equations; lia).
  assert (∀ m, Log.bmapstart sb ≤ m → upd_block c ib x m = c m) as Hout.
  { intros m Hm. unfold upd_block. rewrite (proj2 (Z.eqb_neq m ib)) by lia. done. }
  assert (∀ bn, blkaddr (upd_block c ib x) addrs bn = blkaddr c addrs bn) as Hblk.
  { intros bn. unfold blkaddr. case_match; [done|]. destruct (Z.eqb_spec (ind addrs) 0) as [|H0]; [done|].
    rewrite Hout; [done|]. destruct (Hd (ind addrs)) as [? _]; [split; [done | by left]|]. lia. }
  assert (∀ m, 0 ≤ m < Log.sb_size sb → inuse (upd_block c ib x) sb m = inuse c sb m) as Huse.
  { intros m Hm. unfold inuse. destruct (BBLOCK_eq sb m Hsb Hm) as (_ & ? & _). rewrite Hout; [done | lia]. }
  assert (∀ y, fblock (upd_block c ib x) addrs y ↔ fblock c addrs y) as Hfb by (intros y; unfold fblock; by setoid_rewrite Hblk).
  split_and!; [split; [done|]; split; [|split] | by intros bn _ | | done].
  - intros y Hy%Hfb. destruct (Hd y Hy) as [Hr Hu]. split; [done|]. rewrite Huse; [done|]. destruct (data_not_bitmap sb Hsb y Hr). lia.
  - intros bn bn' Hb Hb'. rewrite !Hblk. by apply Hinj.
  - intros bn Hb. rewrite Hblk. by apply Hni.
  - intros off Hoff. unfold fbyte. rewrite Hblk. destruct (Z.eqb_spec (blkaddr c addrs (off / BSIZE)) 0) as [|H0]; [done|].
    destruct (off_block off Hoff) as [Hbn _]. destruct (Hd _ (fblock_addr c addrs _ Hbn H0)) as [? _]. rewrite Hout; [done | lia].
Qed.

Section rw.
Context {B : Type} {BL : BlockLayer B} {BV : BlockView B} {BS : BlockSpec B}.
Abbreviation fstate := (fstate (B:=B)).

(** The buffers have changed, the blocks have not. *)
Definition unchanged (s s' : fstate) : Prop :=
  ∃ y, s' = set_fblk y s ∧ l_ok y [] ∧ l_step (fblk s) y (con s) (l_logged (fblk s)).

Lemma unchanged_refl s : l_ok (fblk s) [] → unchanged s s.
Proof using. intros Hok. exists (fblk s). split; [by destruct s|]. split; [done | apply l_step_refl]. Qed.

Lemma unchanged_trans s s1 s2 : unchanged s s1 → unchanged s1 s2 → unchanged s s2.
Proof using.
  intros (x & -> & Hx & Sx) (y & -> & Hy & Sy). exists y. split; [done|]. split; [done|].
  destruct Sx as (C & W & R). eapply l_step_trans; [split; [exact C|]; split; [exact W | exact R] | exact Sy | exact C | exact W].
Qed.

Lemma unchanged_finv s ip i s' : finv s ip i → unchanged s s' → finv s' ip i.
Proof using BS. intros Hinv (y & -> & Hy & Hst). eapply finv_step; [done | by apply fstep_same | done]. Qed.

Lemma unchanged_con s s' n : unchanged s s' → con s' n = con s n.
Proof using. intros (y & -> & _ & Hst). apply Hst. Qed.

(** [bmap] of a block the file has. *)
Lemma bmap_mapped s ip i bn :
  finv s ip i → 0 ≤ bn < MAXFILE → blkaddr (con s) (iaddrs i) bn ≠ 0 →
  quiet (bmap ip bn) s (λ a s', a = blkaddr (con s) (iaddrs i) bn ∧ unchanged s s').
Proof using BS.
  intros Hinv Hbn Hb. pose proof Hinv as (Hi & Hd & Hok & (Hsb & G0 & _) & _ & (Hlen & Hdat & _)).
  unfold bmap. unfold blkaddr in *. destruct (Z.ltb_spec bn NDIRECT) as [Hlt|Hge].
  - unfold bmap_addr, get_addr. apply quiet_bind. eapply quiet_bind_does; [by apply geti_run|]. quiet_step.
    rewrite (proj2 (Z.eqb_neq _ _) Hb). quiet_step. split; [done | by apply unchanged_refl].
  - rewrite (proj2 (Z.ltb_lt (bn - NDIRECT) NINDIRECT)) by (change MAXFILE with 140 in Hbn; change NINDIRECT with 128; unfold NDIRECT; lia).
    destruct (Z.eqb_spec (ind (iaddrs i)) 0) as [|Hi0]; [done|]. destruct (Hdat (ind (iaddrs i))) as [Hr _]; [split; [done | by left]|].
    destruct (data_not_bitmap (sb s) Hsb _ Hr). unfold bmap_addr, get_addr. apply quiet_bind, quiet_bind.
    eapply quiet_bind_does; [by apply geti_run|]. quiet_step. change (nth (Z.to_nat NDIRECT) (iaddrs i) 0) with (ind (iaddrs i)).
    rewrite (proj2 (Z.eqb_neq _ _) Hi0). quiet_step. eapply quiet_bind_does; [by apply geti_run|]. rewrite Hd.
    destruct (read_idiom s [] (ind (iaddrs i))) as (b & x & y & R1 & R2 & R3 & Hy & S1); [done | lia | apply not_elem_of_nil | simpl; lia |].
    eapply quiet_bind_does; [exact R1|]. eapply quiet_bind_does; [exact R2|]. cbv beta. fold (con s).
    rewrite (proj2 (Z.eqb_neq _ _) Hb). eapply quiet_bind_does; [apply does_ret|]. eapply quiet_bind_does; [exact R3|]. quiet_step.
    split; [done|]. by exists y.
Qed.

(** Every block below the size is there. *)
Definition no_holes (c : Z → list Z) (i : inode) : Prop :=
  0 ≤ isize i ≤ MAXFILE * BSIZE ∧ ∀ bn, 0 ≤ bn → bn * BSIZE < isize i → blkaddr c (iaddrs i) bn ≠ 0.

Lemma no_holes_ext c c' i : (∀ n, c' n = c n) → no_holes c i → no_holes c' i.
Proof using. intros Hc [? Hb]. split; [done|]. intros bn ? ?. rewrite (blkaddr_ext c) by done. by apply Hb. Qed.

(** What [readi] and [writei] do for each block: [bmap], then [bread]. *)
Lemma read_block s ip i off :
  finv s ip i → no_holes (con s) i → 0 ≤ off < isize i →
  ∃ s1 bp x s2, does (bmap ip (off / BSIZE)) s (blkaddr (con s) (iaddrs i) (off / BSIZE)) s1 [] ∧ does (geti ip) s1 i s1 [] ∧
    does (bread (idev i) (blkaddr (con s) (iaddrs i) (off / BSIZE))) s1 bp (set_fblk x s1) [] ∧
    does (data bp) (set_fblk x s1) (con s (blkaddr (con s) (iaddrs i) (off / BSIZE))) (set_fblk x s1) [] ∧
    does (brelse bp) (set_fblk x s1) () s2 [] ∧ unchanged s s2.
Proof using BS.
  intros Hinv [Hsz Hnh] Hoff. destruct (off_block off) as [Hbn Hmod]; [lia|].
  assert (blkaddr (con s) (iaddrs i) (off / BSIZE) ≠ 0) as Hb.
  { apply Hnh; [lia|]. pose proof (Z.div_mod off BSIZE ltac:(done)). lia. }
  destruct (bmap_mapped s ip i (off / BSIZE) Hinv Hbn Hb) as (a & s1 & R1 & -> & Hun). pose proof (unchanged_finv s ip i s1 Hinv Hun) as Hinv1.
  pose proof Hinv1 as (Hi1 & Hd1 & Hok1 & (Hsb1 & G0 & _) & _ & (_ & Hdat & _)). rewrite Hd1.
  destruct (Hdat (blkaddr (con s) (iaddrs i) (off / BSIZE))) as [Hr _].
  { split; [done|]. right. exists (off / BSIZE). split; [done|]. apply blkaddr_ext. intros n. by apply unchanged_con. }
  destruct (data_not_bitmap _ Hsb1 _ Hr).
  destruct (read_idiom s1 [] (blkaddr (con s) (iaddrs i) (off / BSIZE))) as (bp & x & y & R2 & R3 & R4 & Hy & S1); [done | lia | apply not_elem_of_nil | simpl; lia |].
  exists s1, bp, x, (set_fblk y s1). split; [done|]. split; [by apply geti_run|]. split; [done|].
  split; [by rewrite <- (unchanged_con s s1) by done|]. split; [done|]. eapply unchanged_trans; [done|]. by exists y.
Qed.

Lemma readi_loop_spec ip i n (fuel : nat) : ∀ s tot off acc,
  finv s ip i → no_holes (con s) i → 0 ≤ tot ≤ n → n - tot ≤ fuel → 0 ≤ off → off + (n - tot) ≤ isize i →
  quiet (readi_loop fuel ip tot off n acc) s (λ r s',
    r = acc ++ read_bytes (fbyte (con s) (iaddrs i)) off (n - tot) ∧ unchanged s s').
Proof using BS.
  induction fuel as [|fuel IH]; intros s tot off acc Hinv Hnh Htot Hfuel Hoff Hsz; cbn [readi_loop].
  all: destruct (Z.leb_spec n tot) as [Hle|Hlt]; [quiet_step; replace (n - tot) with 0 by lia; rewrite app_nil_r; split; [done | apply unchanged_refl; by destruct Hinv as (_ & _ & ? & _)]|].
  { lia. }
  destruct (read_block s ip i off Hinv Hnh ltac:(lia)) as (s1 & bp & x & s2 & R1 & R2 & R3 & R4 & R5 & Hun).
  eapply quiet_bind_does; [exact R1|]. eapply quiet_bind_does; [exact R2|]. eapply quiet_bind_does; [exact R3|]. cbv zeta.
  eapply quiet_bind_does; [exact R4|]. eapply quiet_bind_does; [exact R5|].
  pose proof Hinv as (_ & _ & Hok & _). pose proof Hnh as [Hmax Hnh'].
  destruct (nblk_step off (n - tot) Hoff ltac:(lia)) as (Hm & Hmod & _). set (m := Z.min (n - tot) (BSIZE - off mod BSIZE)) in *.
  assert (u32 (off + m) = off + m) as -> by (apply u32_small; change (MAXFILE * BSIZE) with 71680 in *; lia).
  pose proof (unchanged_finv s ip i s2 Hinv Hun) as Hinv2. assert (∀ k, con s2 k = con s k) as Hc by (intros; by apply unchanged_con).
  eapply quiet_mono; [apply (IH s2 (tot + m) (off + m)); [done | by eapply no_holes_ext | lia..]|].
  intros r s3 [-> Hun3]. split; [|by eapply unchanged_trans]. rewrite block_bytes; [|..|lia | done].
  - rewrite <- app_assoc. f_equal. replace (n - tot) with (m + (n - (tot + m))) by lia. rewrite read_bytes_app by lia. f_equal.
    apply list_eq. intros k. rewrite !read_bytes_lookup. case_decide; [|done]. f_equal. by apply fbyte_ext.
  - apply Hnh'; [apply Z.div_pos; [lia | done] |]. pose proof (Z.div_mod off BSIZE ltac:(done)). pose proof (Z.mod_pos_bound off BSIZE ltac:(done)). lia.
  - by eapply l_length.
Qed.

(** One block more may be logged, whether or not it comes with an indirect block. *)
Lemma size_mapped s i i' (a : Z) :
  (ind (iaddrs i) ≠ 0 → ind (iaddrs i') = ind (iaddrs i)) →
  (size ({[a]} ∪ (bmaps (sb s) ∪ indset (iaddrs i') ∪ l_logged (fblk s))) + (if (ind (iaddrs i') =? 0)%Z then 1 else 0) ≤ S (load s i))%nat.
Proof using BS.
  intros Hind. pose proof (size_insert_le a (bmaps (sb s) ∪ indset (iaddrs i') ∪ l_logged (fblk s)) _ ltac:(reflexivity)) as H1.
  unfold load, indset in *. destruct (Z.eqb_spec (ind (iaddrs i)) 0) as [H0|H0].
  - destruct (ind (iaddrs i') =? 0); [lia|].
    assert (size (bmaps (sb s) ∪ {[ind (iaddrs i')]} ∪ l_logged (fblk s)) ≤ S (size (bmaps (sb s) ∪ ∅ ∪ l_logged (fblk s))))%nat; [|lia].
    etransitivity; [|apply (size_insert_le (ind (iaddrs i'))); reflexivity]. apply subseteq_size. clear. set_solver.
  - rewrite (Hind H0) in *. rewrite (proj2 (Z.eqb_neq _ _) H0) in *. lia.
Qed.

(** What [writei] does for each block. *)
Lemma write_block s ip i off x :
  finv s ip i → 0 ≤ off < MAXFILE * BSIZE → off mod BSIZE + length x ≤ BSIZE →
  (S (load s i) ≤ l_cap (fblk s))%nat → (2 ≤ pot s i)%nat →
  ∃ a s1 i1 bp x1 x2 x3 s2, does (bmap ip (off / BSIZE)) s a s1 [] ∧ does (geti ip) s1 i1 s1 [] ∧
    does (bread (idev i1) a) s1 bp (set_fblk x1 s1) [] ∧
    does (edit bp (splice (Z.to_nat (off mod BSIZE)) x)) (set_fblk x1 s1) () (set_fblk x2 s1) [] ∧
    does (log_write bp) (set_fblk x2 s1) () (set_fblk x3 s1) [] ∧ does (brelse bp) (set_fblk x3 s1) () s2 [] ∧
    finv s2 ip i1 ∧ fstep s ip i s2 i1 (write_bytes (fbyte (con s) (iaddrs i)) off x) ∧
    blkaddr (con s2) (iaddrs i1) (off / BSIZE) ≠ 0 ∧ (load s2 i1 ≤ S (load s i))%nat ∧ (pot s i ≤ S (pot s2 i1))%nat ∧
    (blkaddr (con s) (iaddrs i) (off / BSIZE) ≠ 0 → i1 = i).
Proof using BS.
  intros Hinv Hoff Hx Hcap Hpot. destruct (off_block off Hoff) as [Hbn Hmod].
  destruct (bmap_spec s ip i (off / BSIZE) Hinv Hbn Hcap Hpot) as (a & s1 & R1 & i1 & Hinv1 & Hfs1 & Ha & Ha0 & Hlog1 & Hl1 & Hp1 & Hi1i).
  pose proof Hinv1 as (Hi1 & Hd1 & Hok1 & Hg1 & Hmeta1 & Hf1). pose proof Hg1 as (Hsb1 & G0 & G7). pose proof Hf1 as (_ & Hdat & _).
  pose proof Hfs1 as (Hb1 & _ & _ & _ & _ & Hps1 & Hls1). assert (∀ n, length (con s1 n) = 512%nat) as Hlen1 by (intros n; by eapply l_length).
  destruct (Hdat a) as [Hr _]; [split; [done|]; right; by exists (off / BSIZE)|]. pose proof (inodes_before_data _ Hsb1).
  assert (length (splice (Z.to_nat (off mod BSIZE)) x (con s1 a)) = 512%nat) as Hlx by (rewrite length_splice; rewrite Hlen1; change BSIZE with 512 in *; lia).
  destruct (update_idiom s1 [] a (splice (Z.to_nat (off mod BSIZE)) x)) as (bp & x1 & x2 & x3 & y & R2 & _ & R3 & R4 & R5 & Hy & S1);
    [done | lia | apply not_elem_of_nil | simpl; lia | apply G7; lia | | done |].
  { destruct Hls1 as (_ & _ & _ & _ & ->). pose proof (size_mapped s i i1 a (ps_ind _ _ _ _ _ _ Hps1)). etransitivity; [|exact Hcap].
    etransitivity; [apply subseteq_size|etransitivity; [apply Nat.le_add_r | eassumption]]. revert Hlog1. clear. set_solver. }
  exists a, s1, i1, bp, x1, x2, x3, (set_fblk y s1). rewrite Hd1. split; [done|]. split; [by apply geti_run|]. split; [done|]. split; [done|]. split; [done|]. split; [done|].
  pose proof S1 as (C1 & W1 & _). pose proof (pstep_write (sb s1) Hsb1 (con s1) (iaddrs i1) (off / BSIZE) _ Hf1 Hmeta1 Hlen1 Hbn ltac:(by rewrite <- Ha) Hlx) as Hpw.
  rewrite <- Ha in Hpw. assert (fstep s1 ip i1 (set_fblk y s1) i1 (write_bytes (fbyte (con s) (iaddrs i)) off x)) as Hfs2.
  { split; [done|]. split; [done|]. split; [done|]. split; [by rewrite list_insert_id|]. split; [by destruct i1 as [? ? ? ? ? []]|].
    split; [|eapply l_step_trans; [apply l_step_refl | exact S1 | by intros n; rewrite <- C1 | by rewrite <- W1]].
    eapply pstep_ext; [exact C1 | | exact Hpw]. intros y0 Hy0. rewrite Ha, block_write; [|by rewrite <- Ha | apply Hlen1 | lia | done | lia].
    unfold write_bytes. rewrite (ps_bytes _ _ _ _ _ _ Hps1 y0 Hy0). done. }
  split; [by eapply finv_step|]. split; [eapply fstep_trans; [by rewrite <- Hb1 | exact Hfs1 | exact Hfs2]|].
  pose proof Hfs2 as (_ & _ & _ & _ & _ & Hps2 & _). split; [rewrite (ps_keep _ _ _ _ _ _ Hps2) by (done || by rewrite <- Ha); by rewrite <- Ha|]. split.
  - pose proof (size_mapped s i i1 a (ps_ind _ _ _ _ _ _ Hps1)) as Hsz. etransitivity; [|exact Hsz]. unfold load. apply Nat.add_le_mono_r, subseteq_size.
    simpl. rewrite W1, Hb1. revert Hlog1. clear. set_solver.
  - split; [|done]. etransitivity; [exact Hp1|]. unfold pot. rewrite (freeset_ext (con s1) (con (set_fblk y s1))); [done|].
    intros m Hm. rewrite (inuse_ext _ _ _ _ C1). by apply inuse_upd.
Qed.

Lemma fstep_ext s ip i s' i' g1 g2 :
  (∀ off, 0 ≤ off < MAXFILE * BSIZE → g2 off = g1 off) → fstep s ip i s' i' g1 → fstep s ip i s' i' g2.
Proof using. intros Hg (? & ? & ? & ? & ? & Hps & ?). repeat (split; [done|]). split; [|done]. by eapply pstep_ext. Qed.

(** The blocks the [k] bytes from [off] lie in. *)
Definition covers (c : Z → list Z) (addrs : list Z) (off k : Z) : Prop :=
  ∀ bn, 0 < k → off / BSIZE ≤ bn → bn * BSIZE < off + k → blkaddr c addrs bn ≠ 0.

Lemma writei_loop_spec ip src n (fuel : nat) : n = Z.of_nat (length src) → ∀ s i tot off,
  finv s ip i → 0 ≤ tot ≤ n → n - tot ≤ fuel → 0 ≤ off → off + (n - tot) ≤ MAXFILE * BSIZE →
  load s i + nblk off (n - tot) ≤ l_cap (fblk s) → nblk off (n - tot) + 1 ≤ pot s i →
  quiet (writei_loop fuel ip src tot off n) s (λ r s', r = off + (n - tot) ∧ ∃ i', finv s' ip i' ∧
    fstep s ip i s' i' (write_bytes (fbyte (con s) (iaddrs i)) off (drop (Z.to_nat tot) src)) ∧
    covers (con s') (iaddrs i') off (n - tot) ∧ load s' i' ≤ load s i + nblk off (n - tot) ∧
    (covers (con s) (iaddrs i) off (n - tot) → i' = i)).
Proof using BS.
  intros Hn. induction fuel as [|fuel IH]; intros s i tot off Hinv Htot Hfuel Hoff Hmax Hcap Hpot; cbn [writei_loop].
  all: destruct (Z.leb_spec n tot) as [Hle|Hlt].
  1, 3: quiet_step; replace (n - tot) with 0 by lia; split; [lia|]; exists i; split; [done|]; split; [|split; [intros bn ?; lia | split; [unfold nblk; simpl; lia | done]]];
    rewrite drop_ge by lia; pose proof (fstep_same s ip i (fblk s) Hinv (l_step_refl _)) as Hfs; rewrite set_fblk_same in Hfs;
    eapply fstep_ext; [|exact Hfs]; intros y _; unfold write_bytes; range_cases; [simpl in *; lia | done].
  { lia. }
  destruct (nblk_step off (n - tot) Hoff ltac:(lia)) as (Hm & Hmod & Hnb & Hnb0 & Hnext). set (m := Z.min (n - tot) (BSIZE - off mod BSIZE)) in *.
  set (x := take (Z.to_nat m) (drop (Z.to_nat tot) src)). assert (Z.of_nat (length x) = m) as Hx by (unfold x; rewrite length_take, length_drop; lia).
  destruct (write_block s ip i off x Hinv) as (a & s1 & i1 & bp & x1 & x2 & x3 & s2 & R1 & R2 & R3 & R4 & R5 & R6 & Hinv2 & Hfs2 & Hb2 & Hl2 & Hp2 & Hii);
    [lia | lia | lia | lia |].
  eapply quiet_bind_does; [exact R1|]. eapply quiet_bind_does; [exact R2|]. eapply quiet_bind_does; [exact R3|]. cbv zeta. fold m. fold x.
  eapply quiet_bind_does; [exact R4|]. eapply quiet_bind_does; [exact R5|]. eapply quiet_bind_does; [exact R6|].
  assert (u32 (off + m) = off + m) as -> by (apply u32_small; change (MAXFILE * BSIZE) with 71680 in *; lia).
  pose proof Hfs2 as (Hsb2 & _ & _ & _ & _ & Hps2 & (_ & _ & _ & _ & Hcap2)). pose proof Hinv as (_ & _ & _ & (Hsb & _) & _).
  eapply quiet_mono; [apply (IH s2 i1 (tot + m) (off + m)); [done | lia | lia | lia | lia | rewrite Hcap2; replace (n - (tot + m)) with (n - tot - m) by lia; lia
    | replace (n - (tot + m)) with (n - tot - m) by lia; lia]|].
  intros r s3 [-> (i3 & Hinv3 & Hfs3 & Hcov & Hl3 & Hi3)]. replace (n - (tot + m)) with (n - tot - m) in * by lia. split; [lia|]. exists i3. split; [done|].
  split; [|split; [|split; [lia|]]].
  - eapply fstep_trans; [done | exact Hfs2|]. eapply fstep_ext; [|exact Hfs3]. intros y Hy.
    replace (drop (Z.to_nat tot) src) with (x ++ drop (Z.to_nat (tot + m)) src).
    + rewrite <- write_bytes_app, Hx. unfold write_bytes at 1 3. by rewrite (ps_bytes _ _ _ _ _ _ Hps2 y Hy).
    + unfold x. rewrite <- (take_drop (Z.to_nat m) (drop (Z.to_nat tot) src)) at 2. f_equal. rewrite drop_drop. f_equal. lia.
  - intros bn Hk Hbn Hlt'. pose proof (Z.div_mod off BSIZE ltac:(done)). pose proof (Z.mod_pos_bound off BSIZE ltac:(done)).
    destruct (decide (bn = off / BSIZE)) as [->|Hne].
    + destruct (off_block off ltac:(lia)) as [Hob _]. destruct Hfs3 as (_ & _ & _ & _ & _ & Hps3 & _). by rewrite (ps_keep _ _ _ _ _ _ Hps3).
    + assert (0 < n - tot - m) as Hpos by (unfold m; change BSIZE with 512 in *; nia). destruct (Hnext Hpos) as [Hdiv _].
      apply (Hcov bn Hpos); [lia|]. lia.
  - intros Hcv. pose proof (Z.div_mod off BSIZE ltac:(done)). pose proof (Z.mod_pos_bound off BSIZE ltac:(done)).
    assert (i1 = i) as -> by (apply Hii, Hcv; lia). apply Hi3. intros bn Hpos Hbn Hlt'. destruct (Hnext Hpos) as [Hdiv _].
    destruct (off_block off ltac:(lia)). assert (bn * BSIZE < MAXFILE * BSIZE) as Hbb by lia.
    rewrite (ps_keep _ _ _ _ _ _ Hps2); [apply Hcv; lia | change BSIZE with 512 in Hbb; change MAXFILE with 140 in *; lia | apply Hcv; lia].
Qed.

Lemma iupdate_spec s ip i :
  icache s !! ip = Some i → idev i = 1 → l_ok (fblk s) [] → geom (fblk s) (sb s) → inum_ok (sb s) (inum i) → length (iaddrs i) = 13%nat →
  (size ({[IBLOCK (inum i) (sb s)]} ∪ l_logged (fblk s)) ≤ l_cap (fblk s))%nat →
  quiet (iupdate ip) s (λ _ s', ∃ y, s' = set_fblk y s ∧ l_ok y [] ∧
    l_step (fblk s) y (upd_block (con s) (IBLOCK (inum i) (sb s)) (dip_set (inum i) (idata i) (con s (IBLOCK (inum i) (sb s)))))
      ({[IBLOCK (inum i) (sb s)]} ∪ l_logged (fblk s))).
Proof using BS.
  intros Hi Hd Hok Hg Hn Hlen Hcap. pose proof Hg as (Hsb & G0 & G7). destruct (IBLOCK_eq (sb s) _ Hsb Hn) as [_ Hib].
  assert (Log.bmapstart (sb s) < Log.sb_size (sb s) ∧ 1 < Log.inodestart (sb s)) as [? ?].
  { destruct Hsb as (? & _ & ? & _ & _ & Hds). unfold datastart in Hds. change BPB with 4096 in *. Z.div_mod_to_equations. lia. }
  destruct (update_idiom s [] (IBLOCK (inum i) (sb s)) (dip_set (inum i) (idata i))) as (bp & x1 & x2 & x3 & y & R1 & _ & R3 & R4 & R5 & Hy & S1);
    [done | lia | apply not_elem_of_nil | simpl; lia | apply G7; lia | done | apply length_dip_set; [done | by eapply l_length] |].
  unfold iupdate. eapply quiet_bind_does; [by apply geti_run|]. do 2 quiet_step. rewrite Hd. idiom. eapply quiet_does; [exact R5|]. by exists y.
Qed.

(** The copy of the inode on the disk is the one in memory. *)
Definition synced (s : fstate) (i : inode) : Prop := dip_get (inum i) (con s (IBLOCK (inum i) (sb s))) = idata i.

(** The blocks [writei] leaves alone: those in use by anything but the file, apart
    from the block that holds its inode. *)
Definition elsewhere (s : fstate) (i : inode) (m : Z) : Prop :=
  0 ≤ m < Log.sb_size (sb s) ∧ inuse (con s) (sb s) m = true ∧ m ∉ bmaps (sb s) ∧ ¬ fblock (con s) (iaddrs i) m ∧ m ≠ IBLOCK (inum i) (sb s).

(** Slot [n] of the inode block [m] holds another inode than that of the file. *)
Definition other_inode (s : fstate) (i : inode) (m n : Z) : Prop :=
  Log.inodestart (sb s) ≤ m < Log.bmapstart (sb s) ∧ (m ≠ IBLOCK (inum i) (sb s) ∨ n mod IPB ≠ inum i mod IPB).

(** The [src] has been written at [off]: the bytes of the file, its inode in memory
    and on the disk, the blocks in use (those in use before and those of the
    file), and everything else as it was. *)
Record wrote (s : fstate) (ip : nat) (i : inode) (off : Z) (src : list Z) (s' : fstate) (i' : inode) : Prop := {
  wr_inv : finv s' ip i';
  wr_holes : no_holes (con s') i';
  wr_sb : sb s' = sb s;
  wr_icache : icache s' = <[ip := i']> (icache s);
  wr_inode : i' = set_idata (set_size (Z.max (isize i) (off + length src)) (set_addrs (iaddrs i') (idata i))) i;
  wr_bytes y : 0 ≤ y < MAXFILE * BSIZE → fbyte (con s') (iaddrs i') y = write_bytes (fbyte (con s) (iaddrs i)) off src y;
  wr_synced : dinode_ok (idata i) → synced s i → synced s' i';
  wr_frame m : elsewhere s i m → con s' m = con s m;
  wr_inodes m n : other_inode s i m n → dip_get n (con s' m) = dip_get n (con s m);
  wr_inuse m : 0 ≤ m < Log.sb_size (sb s) → inuse (con s') (sb s) m = true ↔ inuse (con s) (sb s) m = true ∨ fblock (con s') (iaddrs i') m;
}.

Lemma fblock_same c c' addrs x : (∀ bn, 0 ≤ bn → blkaddr c' addrs bn = blkaddr c addrs bn) → fblock c' addrs x ↔ fblock c addrs x.
Proof using.
  intros Hb. unfold fblock. split; intros (Hx & [?|(bn & Hbn & He)]); (split; [done|]); [by left| | by left|]; right; exists bn; (split; [done|]); [rewrite <- Hb by lia | rewrite Hb by lia]; done.
Qed.

Lemma file_addrs_ok c sb addrs : sb_ok sb → file_ok c sb addrs → Forall (λ a, 0 ≤ a < 2 ^ 32) addrs.
Proof using.
  intros Hsb (Hlen & Hd & _). apply Forall_forall. intros a [k Hk]%list_elem_of_lookup. pose proof (lookup_lt_Some _ _ _ Hk) as Hlt.
  destruct (decide (a = 0)) as [->|Hne]; [lia|].
  assert (fblock c addrs a) as Hf.
  { split; [done|]. destruct (decide (k = 12%nat)) as [->|Hk12]; [left; unfold ind; symmetry; by apply nth_lookup_Some|]. right. exists (Z.of_nat k).
    split; [change MAXFILE with 140; lia|]. unfold blkaddr. rewrite (proj2 (Z.ltb_lt _ _)) by (unfold NDIRECT; lia). rewrite Nat2Z.id. by apply nth_lookup_Some. }
  destruct (Hd a Hf) as [Hr _]. destruct (data_not_bitmap sb Hsb a Hr). destruct Hsb as (_ & ? & _). lia.
Qed.

Lemma dinode_ok_resize c sb sz a d :
  dinode_ok d → 0 ≤ sz < 2 ^ 32 → sb_ok sb → file_ok c sb a → dinode_ok (set_size sz (set_addrs a d)).
Proof using.
  intros (? & ? & ? & ? & _) Hsz Hsb Hf. repeat (split; [done|]). split; [apply Hf | by eapply file_addrs_ok].
Qed.

(** A change of the inode, made in memory and then on the disk. *)
Lemma store_inode s ip i f :
  finv s ip i → iaddrs (f i) = iaddrs i → idev (f i) = idev i → inum (f i) = inum i → inum_ok (sb s) (inum i) →
  (S (size (l_logged (fblk s))) ≤ l_cap (fblk s))%nat →
  quiet (updi ip f ;; iupdate ip) s (λ _ s', finv s' ip (f i) ∧ icache s' = <[ip := f i]> (icache s) ∧ sb s' = sb s ∧
    (∀ m, m ≠ IBLOCK (inum i) (sb s) → con s' m = con s m) ∧
    (∀ n, n mod IPB ≠ inum i mod IPB → dip_get n (con s' (IBLOCK (inum i) (sb s))) = dip_get n (con s (IBLOCK (inum i) (sb s)))) ∧ (dinode_ok (idata (f i)) → synced s' (f i)) ∧
    (∀ bn, 0 ≤ bn → blkaddr (con s') (iaddrs i) bn = blkaddr (con s) (iaddrs i) bn) ∧
    (∀ off, 0 ≤ off < MAXFILE * BSIZE → fbyte (con s') (iaddrs i) off = fbyte (con s) (iaddrs i) off) ∧
    (∀ m, 0 ≤ m < Log.sb_size (sb s) → inuse (con s') (sb s) m = inuse (con s) (sb s) m)).
Proof using BS.
  intros (Hi & Hd & Hok & Hg & Hm & Hf) Ha Hdev Hnum Hn Hcap. pose proof Hg as (Hsb & _). destruct (IBLOCK_eq _ _ Hsb Hn) as [_ Hib].
  unfold updi. do 2 quiet_step. rewrite (alter_as_insert _ _ _ i) by done. set (s1 := set_icache _ s).
  assert (icache s1 !! ip = Some (f i)) as Hi1 by (apply list_lookup_insert_eq; by eapply lookup_lt_Some).
  eapply quiet_mono; [apply (iupdate_spec s1 ip (f i)); [done | by rewrite Hdev | done | done | by rewrite Hnum | rewrite Ha; apply Hf |]|].
  { etransitivity; [apply size_insert_le; reflexivity | done]. }
  intros _ s' (y & -> & Hy & Hst). pose proof Hst as (C & _). change (con s1) with (con s) in *. change (sb s1) with (sb s) in *. rewrite Hnum in *.
  destruct (inode_block_upd (sb s) (con s) _ (dip_set (inum i) (idata (f i)) (con s (IBLOCK (inum i) (sb s)))) (iaddrs i) Hsb (proj2 Hib) Hf) as (Hf' & Hbl & Hfb & Hu).
  split; [split; [done|]; split; [by rewrite Hdev|]; split; [done|]; split; [by eapply geom_step|]; split|].
  - intros m Hm'. change (sb (set_fblk y s1)) with (sb s) in *. rewrite (inuse_ext _ _ _ _ C), Hu; [by apply Hm|]. destruct Hsb as (_ & _ & _ & _ & _ & ?). lia.
  - rewrite Ha. eapply file_ok_ext; [exact C | done].
  - split; [done|]. split; [done|]. split; [|split; [|split; [|split; [|split]]]].
    + intros m Hm'. etransitivity; [apply C|]. unfold upd_block. by rewrite (proj2 (Z.eqb_neq _ _) Hm').
    + intros n Hn'. etransitivity; [apply (f_equal (dip_get _)), C|]. unfold upd_block. rewrite Z.eqb_refl.
      apply dip_other; [change (d_addrs (idata (f i))) with (iaddrs (f i)); rewrite Ha; apply Hf | by eapply l_length | done].
    + intros Hdi. unfold synced. rewrite Hnum. etransitivity; [apply (f_equal (dip_get _)), C|]. unfold upd_block. change (sb (set_fblk y s1)) with (sb s).
      rewrite Z.eqb_refl. apply dip_roundtrip; [done | by eapply l_length].
    + intros bn Hbn. etransitivity; [by apply blkaddr_ext, C | by apply Hbl].
    + intros off Hoff. etransitivity; [by apply fbyte_ext, C | by apply Hfb].
    + intros m Hm'. etransitivity; [by apply inuse_ext, C | by apply Hu].
Qed.

Lemma meta_elsewhere s ip i m : finv s ip i → 0 ≤ m < Log.bmapstart (sb s) →
  0 ≤ m < Log.sb_size (sb s) ∧ inuse (con s) (sb s) m = true ∧ m ∉ bmaps (sb s) ∧ ¬ fblock (con s) (iaddrs i) m.
Proof using.
  intros (_ & _ & _ & (Hsb & _) & Hm & (_ & Hf & _)) Hib.
  assert (0 ≤ m < datastart (sb s) ∧ datastart (sb s) ≤ Log.sb_size (sb s)) as [Hr Hds].
  { destruct Hsb as (? & _ & ? & _ & _ & ?). unfold datastart in *. change BPB with 4096 in *. Z.div_mod_to_equations. lia. }
  split; [lia|]. split; [by apply Hm|]. split.
  - unfold bmaps. rewrite elem_of_list_to_set, elem_of_seqZ. lia.
  - intros [? _]%Hf. lia.
Qed.

Context (devsw_read : Z → option (nat → Z → M fstate (Z * list Z))).
Context (devsw_write : Z → option (nat → list Z → M fstate Z)).

(** [readi] returns the bytes of the file from [off], at most up to its end. *)
Lemma readi_spec s ip i off n :
  finv s ip i → no_holes (con s) i → itype i ≠ T_DEV → 0 ≤ off ≤ isize i → 0 ≤ n → off + n < 2 ^ 32 →
  quiet (readi devsw_read ip off n) s (λ r s',
    let k := Z.min n (isize i - off) in
    r = (k, read_bytes (fbyte (con s) (iaddrs i)) off k) ∧ unchanged s s').
Proof using BS.
  intros Hinv Hnh Hty Hoff Hn H32. pose proof Hinv as (Hi & _). pose proof Hnh as [Hmax _]. change (MAXFILE * BSIZE) with 71680 in Hmax.
  unfold readi. eapply quiet_bind_does; [by apply geti_run|]. rewrite (proj2 (Z.eqb_neq _ _) Hty).
  rewrite (u32_small (off + n)) by lia. rewrite (proj2 (Z.ltb_ge _ _)), (proj2 (Z.ltb_ge _ off)) by lia. simpl orb. cbv iota.
  assert ((if isize i <? off + n then u32 (isize i - off) else n) = Z.min n (isize i - off)) as Hk.
  { destruct (Z.ltb_spec (isize i) (off + n)); [rewrite u32_small by lia|]; lia. }
  rewrite Hk. apply quiet_bind. eapply quiet_mono; [apply (readi_loop_spec ip i); [done | done | lia..]|].
  intros bytes s' [-> Hun]. quiet_step. rewrite Z.sub_0_r. done.
Qed.

(** [writei] writes all of [src], or refuses. *)
Lemma writei_spec s ip i off src :
  finv s ip i → no_holes (con s) i → inum_ok (sb s) (inum i) → itype i ≠ T_DEV →
  0 ≤ off ≤ isize i → off + length src ≤ MAXFILE * BSIZE →
  load s i + nblk off (length src) + 1 ≤ l_cap (fblk s) → nblk off (length src) + 1 ≤ pot s i →
  quiet (writei devsw_write ip src off) s (λ r s', r = length src ∧ ∃ i', wrote s ip i off src s' i').
Proof using BS.
  intros Hinv Hnh Hnum Hty Hoff Hmax Hcap Hpot. pose proof Hinv as (Hi & _ & _ & (Hsb & _) & _). pose proof Hnh as [Hsz Hnh'].
  change (MAXFILE * BSIZE) with 71680 in *. set (n := Z.of_nat (length src)) in *. unfold writei. fold n.
  eapply quiet_bind_does; [by apply geti_run|]. rewrite (proj2 (Z.eqb_neq _ _) Hty). rewrite (u32_small (off + n)) by lia.
  rewrite (proj2 (Z.ltb_ge _ off)), (proj2 (Z.ltb_ge _ off)) by lia. simpl orb. change (MAXFILE * BSIZE) with 71680.
  rewrite (proj2 (Z.ltb_ge 71680 _)) by lia. quiet_step.
  eapply quiet_mono; [apply (writei_loop_spec ip src n _ eq_refl s i 0 off); [done | lia | lia | lia | change (MAXFILE * BSIZE) with 71680; lia | rewrite Z.sub_0_r; lia | rewrite Z.sub_0_r; lia]|].
  rewrite Z.sub_0_r. change (Z.to_nat 0) with 0%nat. rewrite drop_0.
  intros r s1 (-> & i1 & Hinv1 & Hfs & Hcov & Hl1 & Hsame). pose proof Hinv1 as (Hi1 & _). pose proof Hfs as (Hb1 & _ & _ & Hc1 & Hi1' & Hps & Hls).
  eapply quiet_bind_does; [by apply geti_run|]. assert (isize i1 = isize i ∧ inum i1 = inum i) as [Hsz1 Hnum1] by (by rewrite Hi1'). rewrite Hsz1.
  destruct (IBLOCK_eq _ _ Hsb Hnum) as [_ Hib]. pose proof (inodes_before_data _ Hsb) as [Hi1s _].
  assert (∀ m, Log.inodestart (sb s) ≤ m < Log.bmapstart (sb s) → con s1 m = con s m) as Hmeta.
  { intros m Hm. destruct (meta_elsewhere s ip i m Hinv) as (? & ? & ? & ?); [lia|]. by apply (ps_frame _ _ _ _ _ _ Hps). }
  assert (∀ m, 0 ≤ m < Log.sb_size (sb s) → inuse (con s1) (sb s) m = true ↔ inuse (con s) (sb s) m = true ∨ fblock (con s1) (iaddrs i1) m) as Huse.
  { intros m Hm. split; [by apply (ps_taken _ _ _ _ _ _ Hps)|]. intros [Hu|Hf]; [by apply (ps_inuse _ _ _ _ _ _ Hps)|].
    by destruct (ps_file _ _ _ _ _ _ Hps) as (_ & [_ ?]%(λ H, H m Hf) & _). }
  destruct (Z.ltb_spec (isize i) (off + n)) as [Hgrow|Hfit].
  - rewrite (proj2 (Z.ltb_lt 0 n)) by lia. simpl andb. unfold when. quiet_step.
    eapply quiet_mono; [apply (store_inode s1 ip i1 (λ i, set_idata (set_size (off + n) (idata i)) i)); [done | done | done | done | by rewrite Hb1, Hnum1 |]|].
    { destruct Hls as (_ & _ & _ & _ & ->). unfold load in *. 
      assert (size (l_logged (fblk s1)) ≤ size (bmaps (sb s1) ∪ indset (iaddrs i1) ∪ l_logged (fblk s1)))%nat by (apply subseteq_size; clear; set_solver). lia. }
    intros _ s2 (Hinv2 & Hc2 & Hb2 & Hout & Hino & Hsy & Hbl & Hfb & Hu). quiet_step. split; [done|]. rewrite Hnum1, Hb1 in *.
    set (i2 := set_idata (set_size (off + n) (idata i1)) i1) in *. exists i2. split.
    + done.
    + split; [change (isize i2) with (off + n); change (MAXFILE * BSIZE) with 71680; lia|]. change (isize i2) with (off + n). change (iaddrs i2) with (iaddrs i1). intros bn Hbn Hlt. rewrite Hbl by done.
      destruct (Z.le_gt_cases (off / BSIZE) bn); [apply Hcov; lia|]. pose proof (Z.div_mod off BSIZE ltac:(done)). pose proof (Z.mod_pos_bound off BSIZE ltac:(done)).
      assert (bn * BSIZE < isize i) as Hlt' by (change BSIZE with 512 in *; lia). rewrite (ps_keep _ _ _ _ _ _ Hps); [by apply Hnh' | | by apply Hnh'].
      change BSIZE with 512 in *. change MAXFILE with 140. lia.
    + congruence.
    + by rewrite Hc2, Hc1, list_insert_insert_eq.
    + unfold i2. fold n. rewrite Hi1'. rewrite Z.max_r by lia. by destruct i as [? ? ? ? ? []].
    + intros y Hy. change (iaddrs i2) with (iaddrs i1). rewrite Hfb by done. by apply (ps_bytes _ _ _ _ _ _ Hps).
    + intros Hdi _. apply Hsy. assert (idata i2 = set_size (off + n) (set_addrs (iaddrs i1) (idata i))) as -> by (unfold i2; by rewrite Hi1' at 1).
      pose proof Hinv1 as (_ & _ & _ & _ & _ & Hf1). rewrite Hb1 in Hf1. apply (dinode_ok_resize (con s1) (sb s)); [done | lia | done | done].
    + intros m (Hm1 & Hm2 & Hm3 & Hm4 & Hm5). rewrite Hout by done. by apply (ps_frame _ _ _ _ _ _ Hps).
    + intros m n0 [Hm Hor]. rewrite <- (Hmeta m Hm). destruct (decide (m = IBLOCK (inum i) (sb s))) as [->|Hne]; [|by rewrite Hout].
      apply Hino. by destruct Hor.
    + intros m Hm. rewrite Hu, Huse by done. change (iaddrs i2) with (iaddrs i1).
      by rewrite (fblock_same (con s1) (con s2)).
  - rewrite andb_false_r. simpl when. do 3 quiet_step. split; [done|]. exists i1.
    assert (i1 = i) as ->.
    { apply Hsame. intros bn Hn Hbn Hlt. apply Hnh'; [|lia]. pose proof (Z.div_pos off BSIZE ltac:(lia) ltac:(done)). lia. }
    split; [done | | done | done | | by apply (ps_bytes _ _ _ _ _ _ Hps) | | | by intros m n0 [Hm _]; rewrite (Hmeta m Hm) | exact Huse].
    + split; [done|]. intros bn Hbn Hlt. rewrite (ps_keep _ _ _ _ _ _ Hps); [by apply Hnh' | | by apply Hnh'].
      change (MAXFILE * BSIZE) with 71680 in *. change BSIZE with 512 in *. change MAXFILE with 140. lia.
    + fold n. rewrite Z.max_l by lia. by destruct i as [? ? ? ? ? []].
    + intros _ Hs. unfold synced. by rewrite Hb1, Hmeta.
    + intros m (Hm1 & Hm2 & Hm3 & Hm4 & Hm5). by apply (ps_frame _ _ _ _ _ _ Hps).
Qed.

(** C7: what [writei] writes into a file or directory, [readi] reads back: with
    a transaction open that has room for the blocks and enough free blocks left,
    writing [src] at an offset up to the end of the file returns the number of
    bytes, and reading at the same offset returns [src]. The write grows the file
    to the larger of its size and the end of the write, changes no other byte of
    it, brings the inode on the disk up to date, changes no block another file
    uses and no other inode on the disk, marks exactly the blocks the file gained
    as used, and writes nothing to the disk itself before the commit. *)
Theorem writei_readi_roundtrip s ip i off src :
  finv s ip i → no_holes (con s) i → inum_ok (sb s) (inum i) → itype i ≠ T_DEV →
  0 ≤ off ≤ isize i → off + length src ≤ MAXFILE * BSIZE →
  load s i + nblk off (length src) + 1 ≤ l_cap (fblk s) → nblk off (length src) + 1 ≤ pot s i →
  quiet (n ← writei devsw_write ip src off ; r ← readi devsw_read ip off n ; mret (n, r)) s (λ r s',
    r = (Z.of_nat (length src), (Z.of_nat (length src), src)) ∧
    ∃ s1 i', wrote s ip i off src s1 i' ∧ unchanged s1 s').
Proof using BS.
  intros Hinv Hnh Hnum Hty Hoff Hmax Hcap Hpot. quiet_step. eapply quiet_mono; [by apply (writei_spec s ip i)|].
  intros r s1 (-> & i' & Hwr). destruct Hwr as [Hinv' Hnh' Hsb' Hc' Hi' Hby' Hsy' Hfr' Hin' Hu'] eqn:E.
  assert (isize i' = Z.max (isize i) (off + length src) ∧ itype i' = itype i) as [Hsz' Hty'] by (by rewrite Hi').
  quiet_step. change (MAXFILE * BSIZE) with 71680 in *. eapply quiet_mono; [apply (readi_spec s1 ip i'); [done | done | by rewrite Hty' | lia.. ]|].
  intros r s2 [-> Hun]. quiet_step. rewrite Hsz', Z.min_l by lia. split; [|by exists s1, i'].
  do 2 f_equal. apply list_eq. intros k. rewrite read_bytes_lookup.
  case_decide; [|symmetry; apply lookup_ge_None; lia]. rewrite Hby' by (change (MAXFILE * BSIZE) with 71680; lia). unfold write_bytes. range_cases; [|lia..].
  replace (Z.to_nat (off + k - off)) with k by lia. destruct (lookup_lt_is_Some_2 src k ltac:(lia)) as [v ->]. done.
Qed.

End rw.

(** A small file system on the real log: the super block of [Log.ex_disk], its
    bitmap, and an empty file with inode 5 in cache entry 0. *)
Definition ex_fdisk : Z → list Z := λ n,
  if n =? 1 then Log.put_words (replicate 512 0) 0 [1000; 941; 200; 30; 2; 32; 58]
  else if n =? 58 then replicate 7 255 ++ [7] ++ replicate 504 0 else replicate 512 0.
Definition ex_flog : Log.lstate := Log.mk_lstate (Bio.booted ex_fdisk 1000 1) 2 30 1 0 1 0 (replicate 30 0).
Definition ex_dinode : dinode := mk_dinode 2 0 0 1 0 (replicate 13 0).
Definition ex_inode : inode := mk_inode 1 5 1 (Sleeplock.mk_slock 1 1) 1 ex_dinode.
Definition ex_fs : fstate (B:=Log.lstate) := mk_fstate ex_flog (Log.superblock_of (ex_fdisk 1)) [ex_inode] 1 0.

Lemma ex_fs_content n : con ex_fs n = ex_fdisk n.
Proof. apply Bio.booted_content. Qed.

Lemma ex_fs_ok : l_ok ex_flog [].
Proof.
  split; [|split; [constructor|]; split; [constructor | simpl; lia]]. split; [|split; [by split|]; split; [by vm_compute|]; split; [constructor|]; split; [constructor|]].
  - apply Bio.booted_ok. intros n. unfold ex_fdisk. repeat case_match; [by vm_compute.. | apply length_replicate].
  - intros m. change (Log.logged ex_flog) with (@nil Z). change (Log.lbio ex_flog) with (Bio.booted ex_fdisk 1000 1).
    rewrite Bio.booted_dirty. split; [done | by intros ?%elem_of_nil].
Qed.

Lemma ex_fs_inv : finv ex_fs 0 ex_inode.
Proof.
  split; [done|]. split; [done|]. split; [apply ex_fs_ok|]. split; [split; [by vm_compute|]; split; [done|]|split].
  - intros n Hn. change (Log.inodestart _) with 32 in Hn. change (Log.sb_size _) with 1000 in Hn. split; [simpl; lia|]. right. simpl. change Log.LOGMAX with 29. lia.
  - intros n Hn. change (datastart _) with 59 in Hn. rewrite (inuse_ext ex_fdisk) by apply ex_fs_content.
    assert (forallb (inuse ex_fdisk (sb ex_fs)) (seqZ 0 59) = true) as Hall by (vm_compute; reflexivity).
    rewrite forallb_forall in Hall. apply Hall. apply list_elem_of_In, elem_of_seqZ. lia.
  - apply (file_ok_ext ex_fdisk); [apply ex_fs_content|].
    assert (∀ bn, blkaddr ex_fdisk (iaddrs ex_inode) bn = 0) as H0.
    { intros bn. unfold blkaddr. case_match; [|done]. change (iaddrs ex_inode) with (replicate 13 0). rewrite nth_lookup. destruct (replicate 13 0 !! Z.to_nat bn) eqn:E; [|done]. by apply lookup_replicate in E as [-> _]. }
    split; [done|]. split; [|split; intros ? **; by rewrite H0 in *].
    intros x [Hx [->|(bn & _ & <-)]]; [done | by rewrite H0 in Hx].
Qed.

Lemma ex_fs_room : pot ex_fs ex_inode = 941%nat.
Proof.
  unfold pot. rewrite (freeset_ext ex_fdisk) by (intros; apply inuse_ext, ex_fs_content). vm_compute. reflexivity.
Qed.

Lemma writei_readi_roundtrip_witness :
  quiet (n ← writei (λ _, None) 0 (replicate 600 7) 0 ; r ← readi (λ _, None) 0 0 n ; mret (n, r)) ex_fs (λ r s',
    r = (600, (600, replicate 600 7)) ∧ ∃ s1 i', wrote ex_fs 0 ex_inode 0 (replicate 600 7) s1 i' ∧ unchanged s1 s').
Proof.
  apply (writei_readi_roundtrip (λ _, None) (λ _, None) ex_fs 0 ex_inode 0 (replicate 600 7)); [apply ex_fs_inv | | done | done | done | done | by vm_compute | ].
  - split; [done|]. intros bn H1 H2. change (isize ex_inode) with 0 in H2. change BSIZE with 512 in H2. lia.
  - rewrite ex_fs_room. by vm_compute.
Defined.

End FsRw.
