(* ===== verification/FsDir.v ===== *)
(** * fs.c: the inode cache, directories and paths

    [iget] keeps at most one cache entry per inode; a directory is the list of
    its entries, which [dirlookup] searches and [dirlink] extends; [skipelem]
    takes a path apart. *)

From S2P Require Import Prelude Memory Cstring Layout Sleeplock Bio Log Block Fs FsBlock FsFile FsRw.

Module FsDir.
Import Cstring LogBlocks Fs FsBlock FsFile FsRw.

(** ** The inode cache *)

Definition is_inode (dev n : Z) (i : inode) : Prop := 0 < iref i ∧ idev i = dev ∧ inum i = n.

Lemma is_inode_bool dev n i :
  (0 <? iref i) && (idev i =? dev) && (inum i =? n) = true ↔ is_inode dev n i.
Proof. unfold is_inode. rewrite !andb_true_iff, Z.ltb_lt, !Z.eqb_eq. tauto. Qed.

(** What the scan finds: the entry of the inode, or, if there is none, an empty one. *)
Lemma iget_scan_spec dev n l : ∀ k e,
  match iget_scan l k dev n e with
  | inl j => ∃ i, (k ≤ j)%nat ∧ l !! (j - k)%nat = Some i ∧ is_inode dev n i
  | inr r => Forall (λ i, ¬ is_inode dev n i) l ∧
      match e with
      | Some _ => r = e
      | None => match r with
                | Some j => ∃ i, (k ≤ j)%nat ∧ l !! (j - k)%nat = Some i ∧ iref i = 0
                | None => Forall (λ i, iref i ≠ 0) l
                end
      end
  end.
Proof.
  induction l as [|i l IH]; intros k e; cbn [iget_scan]; [by destruct e|].
  destruct ((0 <? iref i) && (idev i =? dev) && (inum i =? n)) eqn:Hb.
  { apply is_inode_bool in Hb. exists i. by rewrite Nat.sub_diag. }
  assert (¬ is_inode dev n i) as Hno by (rewrite <- is_inode_bool; by rewrite Hb).
  assert (∀ j x, (S k ≤ j)%nat → l !! (j - S k)%nat = Some x → (k ≤ j)%nat ∧ (i :: l) !! (j - k)%nat = Some x) as Hsh.
  { intros j x Hj Hx. split; [lia|]. by replace (j - k)%nat with (S (j - S k)) by lia. }
  specialize (IH (S k) (match e with None => if iref i =? 0 then Some k else None | _ => e end)).
  destruct (iget_scan l (S k) dev n _) as [j|r].
  - destruct IH as (x & Hj & Hx & Hi). exists x. by destruct (Hsh j x Hj Hx).
  - destruct IH as [Hall Hr]. split; [by constructor|]. destruct e as [e|]; [done|].
    destruct (Z.eqb_spec (iref i) 0) as [H0|H0].
    + subst r. exists i. by rewrite Nat.sub_diag.
    + destruct r as [j|]; [|by constructor]. destruct Hr as (x & Hj & Hx & Hi). exists x. by destruct (Hsh j x Hj Hx).
Qed.

(** At most one entry in use per inode. *)
Definition icache_unique (l : list inode) : Prop :=
  ∀ j k x y, l !! j = Some x → l !! k = Some y → 0 < iref x → 0 < iref y → idev x = idev y → inum x = inum y → j = k.

Section icache.
Context {B : Type}.
Abbreviation fstate := (fstate (B:=B)).

(** [iget] returns [ip], which had the entry [e] and now has [e']. *)
Definition got (s : fstate) (dev n : Z) (ip : nat) (s' : fstate) : Prop :=
  ∃ e e', icache s !! ip = Some e ∧ s' = set_icache (<[ip := e']> (icache s)) s ∧
    ((is_inode dev n e ∧ e' = set_iref (iref e + 1) e) ∨
     (Forall (λ i, ¬ is_inode dev n i) (icache s) ∧ iref e = 0 ∧ e' = set_id dev n 1 0 e)).

(** There is an entry for the inode. *)
Definition has_entry (s : fstate) (dev n : Z) : Prop :=
  ∃ (j : nat) e, icache s !! j = Some e ∧ (is_inode dev n e ∨ iref e = 0).

Lemma iget_spec (s : fstate) dev n : has_entry s dev n → quiet (iget dev n) s (got s dev n).
Proof.
  intros (j0 & e0 & He0 & Hor). unfold iget. do 4 quiet_step. pose proof (iget_scan_spec dev n (icache s) 0 None) as Hscan.
  destruct (iget_scan (icache s) 0 dev n None) as [j|[j|]]; unfold updi.
  - destruct Hscan as (e & _ & He & Hi). rewrite Nat.sub_0_r in He. do 2 quiet_step. rewrite (alter_as_insert _ _ _ e) by done.
    do 3 quiet_step. exists e, (set_iref (iref e + 1) e). auto.
  - destruct Hscan as (Hall & e & _ & He & Hi). rewrite Nat.sub_0_r in He. do 2 quiet_step. rewrite (alter_as_insert _ _ _ e) by done.
    do 3 quiet_step. exists e, (set_id dev n 1 0 e). auto 6.
  - destruct Hscan as [Hall Hne]. rewrite Forall_forall in Hall, Hne. exfalso. apply list_elem_of_lookup_2 in He0. destruct Hor; naive_solver.
Qed.

Lemma got_is s dev n ip s' : got s dev n ip s' → ∃ e', icache s' !! ip = Some e' ∧ is_inode dev n e'.
Proof.
  intros (e & e' & He & -> & Hor). exists e'. split; [apply list_lookup_insert_eq; by eapply lookup_lt_Some|].
  destruct Hor as [[(? & ? & ?) ->]|(_ & _ & ->)]; unfold is_inode; simpl; lia.
Qed.

(** The data of an entry with references stay. *)
Lemma got_data s dev n ip s' k i : got s dev n ip s' → icache s !! k = Some i → 0 < iref i → ∃ i', icache s' !! k = Some i' ∧ idata i' = idata i.
Proof.
  intros (e & e' & He & -> & Hor) Hk Hr. simpl. destruct (decide (k = ip)) as [->|Hne]; [|exists i; by rewrite list_lookup_insert_ne].
  exists e'. rewrite list_lookup_insert_eq by (by eapply lookup_lt_Some). simplify_eq. split; [done|]. destruct Hor as [[_ ->]|(_ & H0 & _)]; [done | lia].
Qed.

Lemma got_unique s dev n ip s' : icache_unique (icache s) → got s dev n ip s' → icache_unique (icache s').
Proof.
  intros Hu (e & e' & He & -> & Hor) j k x y. simpl. pose proof (lookup_lt_Some _ _ _ He) as Hlt.
  assert (∀ j z, (<[ip := e']> (icache s) : list inode) !! j = Some z → 0 < iref z →
    (j = ip ∧ z = e') ∨ (j ≠ ip ∧ icache s !! j = Some z)) as Hcase.
  { intros j' z Hz _. destruct (decide (j' = ip)) as [->|Hne]; [rewrite list_lookup_insert_eq in Hz by done; left; by simplify_eq|].
    rewrite list_lookup_insert_ne in Hz by done. by right. }
  assert (∀ j z, icache s !! j = Some z → 0 < iref z → idev z = idev e' → inum z = inum e' → j = ip) as Hsame.
  { intros j' z Hz Hr Hd Hn. destruct Hor as [[(H1 & H2 & H3) ->]|(Hall & _ & ->)]; [by eapply (Hu j' ip z e)|].
    exfalso. rewrite Forall_forall in Hall. apply (Hall z); [by eapply list_elem_of_lookup_2 | done]. }
  intros Hx Hy Hrx Hry Hd Hn. destruct (Hcase j x Hx Hrx) as [[-> ->]|[Hj Hxj]], (Hcase k y Hy Hry) as [[-> ->]|[Hk Hyk]]; [done | | |].
  - symmetry. by apply (Hsame k y).
  - by apply (Hsame j x).
  - by eapply (Hu j k x y).
Qed.

(** the inode cache never holds two entries for one inode, so that all
    processes that use an inode lock the same entry: if that is so before [iget]
    and there is an entry for the inode or an unused one, [iget] returns an entry
    for the inode with one reference more (one reference, and invalid, if it was
    not in the cache), changes no other entry, and it is so afterwards. *)
Theorem iget_unique (s : fstate) dev n :
  icache_unique (icache s) → has_entry s dev n →
  quiet (iget dev n) s (λ ip s', icache_unique (icache s') ∧
    ∃ e e', icache s !! ip = Some e ∧ icache s' = <[ip := e']> (icache s) ∧ is_inode dev n e' ∧ iref e' = iref e + 1 ∧
      (is_inode dev n e → ivalid e' = ivalid e ∧ idata e' = idata e) ∧ (iref e = 0 → ivalid e' = 0)).
Proof.
  intros Hu He. eapply quiet_mono; [by apply iget_spec|]. intros ip s' Hgot. split; [by eapply got_unique|].
  destruct Hgot as (e & e' & Hip & -> & Hor). exists e, e'. split; [done|]. split; [done|].
  destruct Hor as [[(? & ? & ?) ->]|(_ & H0 & ->)]; unfold is_inode; simpl; split_and!; (done || lia || (intros; lia)).
Qed.

End icache.

(** ** Directories *)

(** The entries of the directory with inode [i]. *)
Definition dent (c : Z → list Z) (addrs : list Z) (k : nat) : dirent := dirent_of (read_bytes (fbyte c addrs) (16 * k) 16).
Definition ents (c : Z → list Z) (i : inode) : list dirent := dent c (iaddrs i) <$> seq 0 (Z.to_nat (isize i / 16)).

Definition matches (name : list Z) (de : dirent) : Prop := de_inum de ≠ 0 ∧ namecmp name (de_name de) = 0.
#[export] Instance matches_dec name de : Decision (matches name de).
Proof. unfold matches. apply _. Defined.

(** The first entry with the name, and its offset. *)
Fixpoint dir_find (name : list Z) (l : list dirent) (off : Z) : option (dirent * Z) :=
  match l with
  | [] => None
  | de :: l' => if decide (matches name de) then Some (de, off) else dir_find name l' (off + 16)
  end.

Lemma dent_ext c c' addrs k : (∀ n, c' n = c n) → dent c' addrs k = dent c addrs k.
Proof.
  intros Hc. unfold dent. f_equal. apply list_eq. intros j. rewrite !read_bytes_lookup. case_decide; [|done]. f_equal. by apply fbyte_ext.
Qed.

Lemma ents_ext c c' i : (∀ n, c' n = c n) → ents c' i = ents c i.
Proof. intros Hc. unfold ents. apply list_fmap_ext. intros _ k _. by apply dent_ext. Qed.

Lemma ents_drop c i k : (k < Z.to_nat (isize i / 16))%nat → drop k (ents c i) = dent c (iaddrs i) k :: drop (S k) (ents c i).
Proof. intros Hk. apply drop_S. unfold ents. rewrite list_lookup_fmap, lookup_seq_lt by done. done. Qed.

Lemma length_ents c i : length (ents c i) = Z.to_nat (isize i / 16).
Proof. unfold ents. by rewrite length_fmap, length_seq. Qed.

(** *** Names *)

Lemma cname_shift m m' (n : nat) : ∀ p p',
  (∀ j : nat, (j < n)%nat → m' (p' + j) = m (p + j)) → cname m' p' n = cname m p n.
Proof.
  induction n as [|n IH]; intros p p' Hj; simpl; [done|]. pose proof (Hj 0%nat ltac:(lia)) as H0. rewrite !Z.add_0_r in H0.
  rewrite H0. case_match; [|done]. f_equal. apply IH. intros j Hlt. specialize (Hj (S j) ltac:(lia)).
  replace (p' + 1 + j) with (p' + S j) by lia. by replace (p + 1 + j) with (p + S j) by lia.
Qed.

(** A string padded with NULs is the string. *)
Lemma cname_padded m m' (n : nat) : ∀ p p',
  (∀ j : nat, (j < n)%nat → m' (p' + j) = default 0 (cname m p n !! j)) → cname m' p' n = cname m p n.
Proof.
  induction n as [|n IH]; intros p p' Hj; simpl in *; [done|]. pose proof (Hj 0%nat ltac:(lia)) as H0. rewrite Z.add_0_r in H0.
  destruct (truth (m p)) eqn:Hp; simpl in H0; rewrite H0; [|done]. rewrite Hp. f_equal. apply IH. intros j Hlt.
  specialize (Hj (S j) ltac:(lia)). simpl in Hj. rewrite <- Hj. f_equal. lia.
Qed.

Lemma strncmp_same m (n : nat) : ∀ p q, cname m p n = cname m q n → strncmp m p q n = 0.
Proof.
  induction n as [|n IH]; intros p q; simpl; [done|]. destruct (truth (m p)) eqn:Hp, (truth (m q)) eqn:Hq; try done; simpl.
  - intros [= H1 H2]. rewrite H1, Z.eqb_refl. by apply IH.
  - apply truth_false in Hp, Hq. by rewrite Hp, Hq.
Qed.

(** The name [dirlink] stores is the name [dirlookup] is asked for. *)
Lemma namecmp_namecpy name : namecmp name (namecpy name) = 0.
Proof.
  unfold namecmp, namecpy. set (m0 := write_bytes (λ _, 0) 0x100 name). set (t := read_bytes _ 0 DIRSIZ). change (Z.to_nat DIRSIZ) with 14%nat in *.
  assert (length t = 14%nat) as Hlt by (unfold t; by rewrite length_read_bytes).
  apply strncmp_same. transitivity (cname m0 0x100 14).
  - apply cname_shift. intros j Hj. unfold write_bytes at 1. range_cases; [lia|]. unfold m0, write_bytes. replace (Z.to_nat (0 + j - 0)) with j by lia.
    replace (Z.to_nat (0x100 + j - 0x100)) with j by lia. range_cases; (done || lia).
  - symmetry. apply cname_padded. intros j Hj. unfold write_bytes at 1. range_cases; [|lia]. replace (Z.to_nat (0x100 + j - 0x100)) with j by lia.
    unfold t. rewrite read_bytes_lookup. rewrite decide_True by (change DIRSIZ with 14; lia). change (strncpy m0 0 0x100 14 (0 + j) = default 0 (cname m0 0x100 14 !! j)).
    rewrite strncpy_lookup by (right; lia).
    range_cases; [|lia]. by replace (Z.to_nat (0 + j - 0)) with j by lia.
Qed.

Lemma dirent_roundtrip n name : length name = 14%nat → 0 ≤ n < 2 ^ 16 → dirent_of (dirent_bytes (mk_dirent n name)) = mk_dirent n name.
Proof.
  intros Hl Hn. unfold dirent_of, dirent_bytes. simpl. f_equal; [|by apply take_ge; lia].
  unfold half_at. simpl. unfold byte_of. rewrite !Z.shiftr_div_pow2 by lia. unfold u8.
  change (2 ^ (8 * 0)) with 1. change (2 ^ (8 * 1)) with 256. change (2 ^ 8) with 256. change (2 ^ 16) with 65536 in *. Z.div_mod_to_equations. lia.
Qed.

(** *** A new entry *)

(** The first unused entry, or the end. *)
Fixpoint free_at (l : list dirent) : nat :=
  match l with
  | [] => 0
  | de :: l' => if de_inum de =? 0 then 0 else S (free_at l')
  end.
Definition link (l : list dirent) (de : dirent) : list dirent := take (free_at l) l ++ de :: drop (S (free_at l)) l.

Lemma free_at_le l : (free_at l ≤ length l)%nat.
Proof. induction l as [|de l IH]; simpl; [lia|]. case_match; lia. Qed.

Lemma dir_find_link name l de : ∀ off, dir_find name l off = None → matches name de →
  dir_find name (link l de) off = Some (de, off + 16 * free_at l).
Proof.
  unfold link. induction l as [|d l IH]; intros off Hn Hm; simpl in *.
  - rewrite decide_True by done. by rewrite Z.add_0_r.
  - destruct (decide (matches name d)) as [|Hd]; [done|]. destruct (Z.eqb_spec (de_inum d) 0); simpl.
    + rewrite decide_True by done. by rewrite Z.add_0_r.
    + rewrite decide_False by done. rewrite IH by done. do 2 f_equal. lia.
Qed.

Lemma dir_find_link_other name l de : ∀ off, ¬ matches name de → dir_find name (link l de) off = dir_find name l off.
Proof.
  unfold link. induction l as [|d l IH]; intros off Hm; simpl.
  - by rewrite decide_False.
  - destruct (Z.eqb_spec (de_inum d) 0) as [H0|H0]; simpl.
    + rewrite !decide_False by (done || by intros [? _]). done.
    + case_decide; [done|]. by apply IH.
Qed.

Lemma link_lookup l de (j : nat) :
  link l de !! j = if decide (j = free_at l) then Some de else l !! j.
Proof.
  unfold link. pose proof (free_at_le l) as Hle. assert (length (take (free_at l) l) = free_at l) as Hlt by (rewrite length_take; lia).
  case_decide as Hj; [subst; by rewrite list_lookup_middle|].
  destruct (decide (j < free_at l)%nat).
  - rewrite lookup_app_l by lia. by rewrite lookup_take_lt.
  - rewrite lookup_app_r by lia. rewrite Hlt. replace (j - free_at l)%nat with (S (j - S (free_at l))) by lia. simpl. rewrite lookup_drop. f_equal. lia.
Qed.

(** Writing an entry's bytes changes that entry only. *)
Lemma dent_write c addrs c' addrs' (k j : nat) bytes :
  length bytes = 16%nat → 16 * j + 16 ≤ MAXFILE * BSIZE →
  (∀ y, 0 ≤ y < MAXFILE * BSIZE → fbyte c' addrs' y = write_bytes (fbyte c addrs) (16 * k) bytes y) →
  dent c' addrs' j = if decide (j = k) then dirent_of bytes else dent c addrs j.
Proof.
  intros Hl Hj Hw. unfold dent.
  assert (read_bytes (fbyte c' addrs') (16 * j) 16 = if decide (j = k) then bytes else read_bytes (fbyte c addrs) (16 * j) 16) as ->; [|by case_decide].
  apply list_eq. intros x. rewrite read_bytes_lookup. case_decide as Hx.
  - rewrite Hw by lia. unfold write_bytes. case_decide as Hjk.
    + subst j. range_cases; [|lia]. replace (Z.to_nat (16 * k + x - 16 * k)) with x by lia. destruct (lookup_lt_is_Some_2 bytes x ltac:(lia)) as [v ->]. done.
    + rewrite read_bytes_lookup, decide_True by done. range_cases; [lia | done].
  - symmetry. apply lookup_ge_None. case_decide; [lia | rewrite length_read_bytes; lia].
Qed.

Section dir.
Context {B : Type} {BL : BlockLayer B} {BV : BlockView B} {BS : BlockSpec B}.
Abbreviation fstate := (fstate (B:=B)).
Context (devsw_read : Z → option (nat → Z → M fstate (Z * list Z))).

(** The inode [i] at [dp] is a directory. *)
Definition dirinv (s : fstate) (dp : nat) (i : inode) : Prop :=
  finv s dp i ∧ no_holes (con s) i ∧ itype i = T_DIR ∧ isize i mod 16 = 0.

Lemma dirinv_unchanged s dp i s' : dirinv s dp i → unchanged s s' → dirinv s' dp i.
Proof using BS.
  intros (Hinv & Hnh & Hty & Hm) Hun. split; [by eapply unchanged_finv|]. split; [|done].
  eapply no_holes_ext; [|done]. intros n. by apply unchanged_con.
Qed.

Lemma read_dirent_spec s dp i k msg :
  dirinv s dp i → (k < Z.to_nat (isize i / 16))%nat →
  quiet (read_dirent devsw_read dp (16 * k) msg) s (λ de s', de = dent (con s) (iaddrs i) k ∧ unchanged s s').
Proof using BS.
  intros (Hinv & Hnh & Hty & Hm) Hk. pose proof Hnh as [Hsz _]. change (MAXFILE * BSIZE) with 71680 in Hsz. unfold read_dirent. quiet_step.
  assert (16 * k + 16 ≤ isize i) by (Z.div_mod_to_equations; lia).
  eapply quiet_mono; [apply (readi_spec devsw_read s dp i); [done | done | by rewrite Hty | lia..]|]. intros r s' [-> Hun].
  rewrite Z.min_l by lia. simpl. quiet_step. done.
Qed.

(** [dirlookup] finds the first entry with the name, and gets its inode. *)
Definition looked (s : fstate) (res : option (dirent * Z)) (r : option (nat * Z)) (s' : fstate) : Prop :=
  match res with
  | None => r = None ∧ unchanged s s'
  | Some (de, off) => ∃ s1 ip, unchanged s s1 ∧ got s1 1 (de_inum de) ip s' ∧ r = Some (ip, off)
  end.

Lemma has_entry_unchanged s s' dev n : unchanged s s' → has_entry s dev n → has_entry s' dev n.
Proof using. by intros (y & -> & _). Qed.

Lemma looked_unchanged s s1 res r s' : unchanged s s1 → looked s1 res r s' → looked s res r s'.
Proof using.
  intros Hun. destruct res as [[de off]|]; simpl.
  - intros (s2 & ip & Hun2 & Hg & ->). exists s2, ip. split; [by eapply unchanged_trans | done].
  - intros [-> Hun2]. split; [done | by eapply unchanged_trans].
Qed.

Lemma dirlookup_loop_spec dp i name (fuel : nat) : ∀ s (k : nat),
  dirinv s dp i → (k ≤ Z.to_nat (isize i / 16))%nat → (Z.to_nat (isize i / 16) < k + fuel)%nat →
  (∀ de off, dir_find name (drop k (ents (con s) i)) (16 * k) = Some (de, off) → has_entry s 1 (de_inum de)) →
  quiet (dirlookup_loop devsw_read fuel dp name (16 * k)) s (looked s (dir_find name (drop k (ents (con s) i)) (16 * k))).
Proof using BS.
  induction fuel as [|fuel IH]; intros s k Hd Hk Hfuel Hent; [lia|]. pose proof Hd as ((Hi & Hdev & Hok & _) & [Hsz _] & _ & Hm).
  change (MAXFILE * BSIZE) with 71680 in Hsz. cbn [dirlookup_loop]. eapply quiet_bind_does; [by apply geti_run|].
  destruct (Z.leb_spec (isize i) (16 * k)) as [Hle|Hlt].
  { rewrite drop_ge by (rewrite length_ents; Z.div_mod_to_equations; lia). quiet_step. split; [done | by apply unchanged_refl]. }
  assert (k < Z.to_nat (isize i / 16))%nat as Hk' by (Z.div_mod_to_equations; lia). rewrite ents_drop in * by done. cbn [dir_find] in *.
  quiet_step. eapply quiet_mono; [by apply (read_dirent_spec s dp i)|]. intros de s1 [-> Hun]. pose proof (dirinv_unchanged _ _ _ _ Hd Hun) as Hd1.
  rewrite (u32_small (16 * k + 16)) by lia. replace (16 * k + 16) with (16 * S k) in * by lia.
  assert (∀ n, con s1 n = con s n) as Hc by (intros; by apply unchanged_con).
  assert (¬ matches name (dent (con s) (iaddrs i) k) → quiet (dirlookup_loop devsw_read fuel dp name (16 * S k)) s1
    (looked s (if decide (matches name (dent (con s) (iaddrs i) k)) then Some (dent (con s) (iaddrs i) k, 16 * k) else dir_find name (drop (S k) (ents (con s) i)) (16 * S k)))) as Hnext.
  { intros Hno. rewrite decide_False in * by done. eapply quiet_mono; [apply (IH s1 (S k)); [done | lia | lia |]|].
    - intros de off. rewrite (ents_ext (con s)) by done. intros Hf%Hent. by eapply has_entry_unchanged.
    - rewrite (ents_ext (con s)) by done. intros r s2. by apply looked_unchanged. }
  unfold matches in Hnext at 1. destruct (Z.eqb_spec (de_inum (dent (con s) (iaddrs i) k)) 0) as [H0|H0]; [apply Hnext; tauto|].
  destruct (Z.eqb_spec (namecmp name (de_name (dent (con s) (iaddrs i) k))) 0) as [H1|H1]; [|apply Hnext; tauto].
  rewrite decide_True in * by done. quiet_step. rewrite Hdev. eapply quiet_mono; [apply iget_spec; eapply has_entry_unchanged; [done | by eapply Hent]|].
  intros ip s2 Hg. quiet_step. by exists s1, ip.
Qed.

Lemma dirlookup_spec s dp i name :
  dirinv s dp i → (∀ de off, dir_find name (ents (con s) i) 0 = Some (de, off) → has_entry s 1 (de_inum de)) →
  quiet (dirlookup devsw_read dp name) s (looked s (dir_find name (ents (con s) i) 0)).
Proof using BS.
  intros Hd Hent. pose proof Hd as ((Hi & _) & [Hsz _] & Hty & _). unfold dirlookup. eapply quiet_bind_does; [by apply geti_run|]. rewrite Hty. simpl negb. cbv iota.
  change 0 with (16 * 0%nat). rewrite <- (drop_0 (ents (con s) i)). apply dirlookup_loop_spec; [done | lia | | done].
  assert (0 ≤ isize i / 16) by (apply Z.div_pos; lia). lia.
Qed.

Context (devsw_write : Z → option (nat → list Z → M fstate Z)).

Lemma dirlink_scan_spec dp i (fuel : nat) : ∀ s (k : nat),
  dirinv s dp i → (k ≤ Z.to_nat (isize i / 16))%nat → (Z.to_nat (isize i / 16) < k + fuel)%nat →
  quiet (dirlink_scan devsw_read fuel dp (16 * k)) s (λ off s', off = 16 * (k + free_at (drop k (ents (con s) i)))%nat ∧ unchanged s s').
Proof using BS.
  induction fuel as [|fuel IH]; intros s k Hd Hk Hfuel; [lia|]. pose proof Hd as ((Hi & _ & Hok & _) & _ & _ & Hm).
  cbn [dirlink_scan]. eapply quiet_bind_does; [by apply geti_run|]. destruct (Z.leb_spec (isize i) (16 * k)) as [Hle|Hlt].
  { rewrite drop_ge by (rewrite length_ents; revert Hle Hk Hm; clear; intros; Z.div_mod_to_equations; lia). quiet_step. simpl free_at. split; [lia | by apply unchanged_refl]. }
  assert (k < Z.to_nat (isize i / 16))%nat as Hk' by (revert Hlt Hk Hm; clear; intros; Z.div_mod_to_equations; lia). rewrite ents_drop by done. cbn [free_at].
  quiet_step. eapply quiet_mono; [by apply (read_dirent_spec s dp i)|]. intros de s1 [-> Hun].
  destruct (Z.eqb_spec (de_inum (dent (con s) (iaddrs i) k)) 0) as [H0|H0].
  - quiet_step. split; [lia | done].
  - replace (16 * k + 16) with (16 * S k) by lia. eapply quiet_mono; [apply (IH s1 (S k)); [by eapply dirinv_unchanged | lia | lia]|].
    intros off s2 [-> Hun2]. split; [|by eapply unchanged_trans]. rewrite (ents_ext (con s)) by (intros; by apply unchanged_con). lia.
Qed.

(** The entries after the write of [dirlink]. *)
Lemma wrote_ents s dp i de s' i' :
  dirinv s dp i → length (dirent_bytes de) = 16%nat → dirent_of (dirent_bytes de) = de →
  16 * (free_at (ents (con s) i) + 1)%nat ≤ MAXFILE * BSIZE →
  wrote s dp i (16 * free_at (ents (con s) i)) (dirent_bytes de) s' i' →
  dirinv s' dp i' ∧ ents (con s') i' = link (ents (con s) i) de.
Proof using.
  intros (_ & [Hsz _] & Hty & Hm) Hl Hde Hmax [Hinv Hnh _ _ Hi' Hby _ _ _]. pose proof (free_at_le (ents (con s) i)) as Hfr. rewrite length_ents in Hfr.
  set (k := free_at (ents (con s) i)) in *. rewrite Hl in Hi'.
  assert (isize i' = Z.max (isize i) (16 * k + 16) ∧ itype i' = itype i) as [Hsz' Hty'] by (by rewrite Hi').
  assert (isize i' mod 16 = 0 ∧ Z.to_nat (isize i' / 16) = Nat.max (Z.to_nat (isize i / 16)) (S k) ∧ isize i' ≤ MAXFILE * BSIZE) as (Hm' & Hn' & Hb').
  { rewrite Hsz'. change (MAXFILE * BSIZE) with 71680 in *. revert Hm Hsz Hmax Hfr. clear. intros.
    destruct (Z.max_spec (isize i) (16 * k + 16)) as [[? ->]|[? ->]]; Z.div_mod_to_equations; lia. }
  split; [by split_and!; [..|rewrite Hty'|]|].
  apply list_eq. intros j. rewrite link_lookup. fold k. unfold ents. rewrite !list_lookup_fmap, Hn'.
  destruct (decide (j < Nat.max (Z.to_nat (isize i / 16)) (S k))%nat) as [Hj|Hj].
  - rewrite lookup_seq_lt by done. simpl. rewrite (dent_write (con s) (iaddrs i) _ _ k j _ Hl); [|revert Hj Hn' Hm' Hb' ; clear; intros; Z.div_mod_to_equations; lia | done].
    case_decide; [by rewrite Hde|]. by rewrite lookup_seq_lt by lia.
  - rewrite decide_False by lia. by rewrite !lookup_seq_ge by lia.
Qed.

Lemma length_namecpy name : length (namecpy name) = 14%nat.
Proof using. unfold namecpy. by rewrite length_read_bytes. Qed.

Lemma unchanged_room s i s' : unchanged s s' →
  load s' i = load s i ∧ pot s' i = pot s i ∧ l_cap (fblk s') = l_cap (fblk s) ∧ sb s' = sb s.
Proof using.
  intros Hun. pose proof (λ m, unchanged_con s s' m Hun) as Hc. destruct Hun as (y & -> & _ & (_ & W & _ & _ & P)). unfold load, pot. simpl. rewrite W, P.
  split; [done|]. split; [|done]. rewrite (freeset_ext (con s)); [done|]. intros m _. apply inuse_ext, Hc.
Qed.

(** [dirlink] of a name that is not in the directory. *)
Lemma dirlink_spec s dp i name n :
  dirinv s dp i → inum_ok (sb s) (inum i) → dir_find name (ents (con s) i) 0 = None →
  16 * (free_at (ents (con s) i) + 1)%nat ≤ MAXFILE * BSIZE → (load s i + 2 ≤ l_cap (fblk s))%nat → (2 ≤ pot s i)%nat →
  let de := mk_dirent (u16 n) (namecpy name) in
  quiet (dirlink devsw_read devsw_write dp name n) s (λ r s', r = 0 ∧ ∃ s1 i', unchanged s s1 ∧
    wrote s1 dp i (16 * free_at (ents (con s) i)) (dirent_bytes de) s' i' ∧
    dirinv s' dp i' ∧ ents (con s') i' = link (ents (con s) i) de).
Proof using BS.
  intros Hd Hnum Hnone Hmax Hcap Hpot de. unfold dirlink. quiet_step.
  eapply quiet_mono; [apply dirlookup_spec; [done | by rewrite Hnone]|]. rewrite Hnone. intros r s1 [-> Hun].
  pose proof (dirinv_unchanged _ _ _ _ Hd Hun) as Hd1. pose proof Hd1 as ((Hi1 & _) & [Hsz _] & _). pose proof (ents_ext (con s) (con s1) i (λ m, unchanged_con s s1 m Hun)) as He1.
  eapply quiet_bind_does; [by apply geti_run|]. quiet_step.
  eapply quiet_mono; [apply (dirlink_scan_spec dp i _ s1 0 Hd1); pose proof (Z.div_pos (isize i) 16); lia|].
  intros off s2 [-> Hun2%(unchanged_trans _ _ _ Hun)]. rewrite drop_0, He1, Nat.add_0_l. clear s1 Hun Hd1 Hi1 Hsz He1.
  pose proof (dirinv_unchanged _ _ _ _ Hd Hun2) as Hd2. pose proof Hd2 as (Hinv2 & Hnh2 & Hty & Hm). destruct (unchanged_room s i s2 Hun2) as (Hl2 & Hp2 & Hc2 & Hsb2).
  pose proof (ents_ext (con s) (con s2) i (λ m, unchanged_con s s2 m Hun2)) as He2. set (k := free_at (ents (con s) i)) in *.
  assert (length (dirent_bytes de) = 16%nat) as Hlb by (unfold dirent_bytes; rewrite length_app; change (de_name de) with (namecpy name); by rewrite length_namecpy).
  assert (nblk (16 * k) 16%nat = 1) as Hnb by (unfold nblk; change BSIZE with 512; simpl; clear; Z.div_mod_to_equations; lia).
  assert (0 ≤ 16 * k ≤ isize i) as Hk.
  { pose proof (free_at_le (ents (con s) i)) as Hle. rewrite length_ents in Hle. fold k in Hle. destruct Hnh2 as [Hsz _]. revert Hle Hm Hsz. clear. intros.
    Z.div_mod_to_equations. lia. }
  fold de. quiet_step. eapply quiet_mono; [apply (writei_spec devsw_write s2 dp i); [done | done | by rewrite Hsb2 | by rewrite Hty | done | rewrite Hlb; lia..]|].
  intros r s3 (-> & i' & Hwr). rewrite Hlb. simpl negb. cbv iota. quiet_step. split; [done|]. exists s2, i'. split; [done|]. split; [done|].
  unfold k in *. rewrite <- He2 in *. apply wrote_ents; [done | done | | lia | done].
  apply dirent_roundtrip; [apply length_namecpy | apply Z.mod_pos_bound; lia].
Qed.

Lemma quiet_updi s ip f i (Q : unit → fstate → Prop) :
  icache s !! ip = Some i → Q () (set_icache (<[ip := f i]> (icache s)) s) → quiet (updi ip f) s Q.
Proof using. intros Hi HQ. unfold updi. quiet_step. by rewrite (alter_as_insert _ _ _ i). Qed.

(** [iput] of an entry nobody has locked, which is not the last reference to an
    inode without links, gives the reference back. *)
Lemma iput_spec s ip e :
  icache s !! ip = Some e → ilck e = Sleeplock.initsleeplock → ivalid e = 0 ∨ iref e ≠ 1 →
  quiet (iput ip) s (λ _ s', s' = set_icache (<[ip := set_iref (iref e - 1) e]> (icache s)) s).
Proof using.
  intros Hi Hl Hk. pose proof (lookup_lt_Some _ _ _ Hi) as Hlt.
  unfold iput, acquiresleep. apply quiet_bind. do 2 quiet_step. eapply quiet_bind_does; [by apply geti_run|]. do 2 quiet_step. rewrite Hl.
  unfold Sleeplock.acquiresleep_pass. simpl. apply quiet_bind. eapply quiet_updi; [done|]. cbn [for_each]. do 5 quiet_step.
  set (s1 := set_icache _ s). set (e1 := set_ilck _ e) in *. assert (icache s1 !! ip = Some e1) as Hi1 by (by apply list_lookup_insert_eq).
  eapply quiet_bind_does; [by apply geti_run|]. apply quiet_bind.
  assert (∀ m (Q : unit → fstate → Prop), Q () s1 →
    quiet (when (truth (ivalid e1) && (d_nlink (idata e1) =? 0)) (acquire Licache ;; r ← geti ip ; release Licache ;; when (iref r =? 1) m)) s1 Q) as Hskip.
  { intros m Q HQ. destruct (truth (ivalid e1) && (d_nlink (idata e1) =? 0)) eqn:Hc; [|by apply quiet_ret]. simpl when. do 2 quiet_step.
    eapply quiet_bind_does; [by apply geti_run|]. do 2 quiet_step. destruct Hk as [Hk|Hk].
    - change (ivalid e1) with (ivalid e) in Hc. by rewrite Hk in Hc.
    - change (iref e1) with (iref e). rewrite (proj2 (Z.eqb_neq _ _) Hk). by apply quiet_ret. }
  apply Hskip. unfold releasesleep. apply quiet_bind. do 2 quiet_step. apply quiet_bind. eapply quiet_updi; [done|]. do 3 quiet_step. do 2 quiet_step.
  apply quiet_bind. eapply quiet_updi; [apply list_lookup_insert_eq; simpl; by rewrite length_insert|]. quiet_step. unfold s1. simpl. rewrite !list_insert_insert_eq.
  destruct e. simpl in *. by subst.
Qed.

(** The entries [iget] may return for the inode [n] are not locked. *)
Definition free_entry (s : fstate) (n : Z) : Prop :=
  ∀ k e, icache s !! k = Some e → is_inode 1 n e ∨ iref e = 0 → ilck e = Sleeplock.initsleeplock.

(** [dirlink] of a name that is in the directory. *)
Lemma dirlink_refuses s dp i name n de off :
  dirinv s dp i → dir_find name (ents (con s) i) 0 = Some (de, off) → has_entry s 1 (de_inum de) → free_entry s (de_inum de) →
  quiet (dirlink devsw_read devsw_write dp name n) s (λ r s', r = -1 ∧ (∀ m, con s' m = con s m) ∧
    ∀ k e, icache s !! k = Some e → 0 < iref e → icache s' !! k = Some e).
Proof using BS.
  intros Hd Hf Hent Hfree. unfold dirlink. quiet_step. eapply quiet_mono; [apply dirlookup_spec; [done|]; rewrite Hf; by intros ? ? [= <- <-]|].
  rewrite Hf. intros r s1 (s2 & ip & Hun & (e & e' & He & -> & Hor) & ->). pose proof (λ m, unchanged_con s s2 m Hun) as Hc. destruct Hun as (y & -> & _).
  change (icache (set_fblk y s)) with (icache s) in *. pose proof (lookup_lt_Some _ _ _ He) as Hlt. quiet_step.
  assert (ilck e' = Sleeplock.initsleeplock ∧ (ivalid e' = 0 ∨ iref e' ≠ 1) ∧ (0 < iref e → set_iref (iref e' - 1) e' = e)) as (Hl & Hv & Hback).
  { destruct Hor as [[Hin ->]|(_ & H0 & ->)]; simpl; (split; [eapply Hfree; eauto|]); [|split; [by left | lia]]. split; [right; destruct Hin; lia|]. intros _. rewrite Z.add_simpl_r. by destruct e. }
  eapply quiet_mono; [apply (iput_spec _ ip e'); [by apply list_lookup_insert_eq | done | done]|]. intros _ s3 ->. quiet_step. split; [done|]. split; [exact Hc|].
  intros k x Hx Hr. simpl. rewrite list_insert_insert_eq. destruct (decide (k = ip)) as [->|Hne]; [|by rewrite list_lookup_insert_ne].
  rewrite list_lookup_insert_eq by done. simplify_eq. by rewrite Hback.
Qed.

(** C21: a name linked into a directory is found there. If no entry has the
    name, [dirlink] returns 0, [dirlookup] of the name then returns a cache entry
    for exactly the inode number that was linked, at the offset of the first entry
    that was unused (or at the end, which makes the directory longer); in the
    directory as it is then every other name is found as before, and no block
    outside the directory and no other inode changes. If the name is there,
    [dirlink] returns -1 and changes no block and no cache entry in use, as long as
    nobody has locked the inode of that name. *)
Theorem dirlink_dirlookup s dp i name n :
  dirinv s dp i → inum_ok (sb s) (inum i) → 0 < iref i → 0 < n < 2 ^ 16 →
  16 * (free_at (ents (con s) i) + 1)%nat ≤ MAXFILE * BSIZE → (load s i + 2 ≤ l_cap (fblk s))%nat → (2 ≤ pot s i)%nat →
  (∃ j e, icache s !! j = Some e ∧ j ≠ dp ∧ iref e = 0) →
  match dir_find name (ents (con s) i) 0 with
  | None =>
      quiet (r ← dirlink devsw_read devsw_write dp name n ; q ← dirlookup devsw_read dp name ; mret (r, q)) s (λ r s',
        ∃ ip e i', r = (0, Some (ip, 16 * free_at (ents (con s) i))) ∧ icache s' !! ip = Some e ∧ is_inode 1 n e ∧ icache s' !! dp = Some i' ∧
          (∀ name', namecmp name' (namecpy name) ≠ 0 → dir_find name' (ents (con s') i') 0 = dir_find name' (ents (con s) i) 0) ∧
          (∀ m, elsewhere s i m → con s' m = con s m) ∧ (∀ m k, other_inode s i m k → dip_get k (con s' m) = dip_get k (con s m)))
  | Some (de, _) =>
      free_entry s (de_inum de) →
      quiet (dirlink devsw_read devsw_write dp name n) s (λ r s', r = -1 ∧ (∀ m, con s' m = con s m) ∧
        ∀ k e, icache s !! k = Some e → 0 < iref e → icache s' !! k = Some e)
  end.
Proof using BS.
  intros Hd Hnum Href Hn Hmax Hcap Hpot (j & e & Hj & Hjd & Hr). destruct (dir_find name (ents (con s) i) 0) as [[de0 off0]|] eqn:Hnone.
  { intros Hfree. eapply dirlink_refuses; [done | done | | done]. exists j, e. by auto. }
  assert (u16 n = n) as Hun16 by (apply Z.mod_small; lia).
  quiet_step. eapply quiet_mono; [by apply dirlink_spec|]. rewrite Hun16. set (de := mk_dirent n (namecpy name)). intros r s1 (-> & s0 & i' & Hun & Hwr & Hd1 & He1).
  assert (dir_find name (ents (con s1) i') 0 = Some (de, 16 * free_at (ents (con s) i))) as Hfind.
  { rewrite He1, dir_find_link; [by rewrite Z.add_0_l | done|]. split; [simpl; lia | apply namecmp_namecpy]. }
  quiet_step. eapply quiet_mono; [apply dirlookup_spec; [done|]|].
  { intros de' off. rewrite Hfind. intros [= <- <-]. exists j, e. split; [|by right]. rewrite (wr_icache _ _ _ _ _ _ _ Hwr), list_lookup_insert_ne by done.
    by destruct Hun as (? & -> & _). }
  rewrite Hfind. intros q s2 (s3 & ip & Hun3 & Hg & ->). quiet_step. destruct (got_is _ _ _ _ _ Hg) as (e' & He' & Hie).
  assert (∀ m, con s2 m = con s1 m) as Hc2 by (intros m; destruct Hg as (? & ? & _ & -> & _); by apply (unchanged_con s1 s3 m)).
  assert (∃ i2, icache s2 !! dp = Some i2 ∧ idata i2 = idata i') as (i2 & Hi2 & Hdat).
  { eapply got_data; [exact Hg | | by rewrite (wr_inode _ _ _ _ _ _ _ Hwr)]. destruct Hun3 as (? & -> & _). by destruct Hd1 as ((? & _) & _). }
  pose proof (λ m, unchanged_con s s0 m Hun) as Hc0. assert (sb s0 = sb s) as Hsb0 by (by destruct Hun as (? & -> & _)).
  exists ip, e', i2. split; [done|]. split; [done|]. split; [done|]. split; [done|]. split; [|split].
  - intros name' Hno. replace (ents (con s2) i2) with (ents (con s2) i') by (unfold ents, isize, iaddrs; by rewrite Hdat).
    rewrite (ents_ext (con s1)), He1 by done. apply dir_find_link_other. by intros [_ ?].
  - intros m Hm. rewrite Hc2, <- Hc0. apply (wr_frame _ _ _ _ _ _ _ Hwr). unfold elsewhere in *. by rewrite (inuse_ext (con s)), (fblock_ext (con s)), Hsb0 by done.
  - intros m k Hm. rewrite Hc2, <- Hc0. apply (wr_inodes _ _ _ _ _ _ _ Hwr). unfold other_inode in *. by rewrite Hsb0.
Qed.

(** A name of the directory itself, such as the dot entry: [dirlink] is called with
    the directory locked, and the [iput] of the entry it has found waits for that
    lock, which its own process holds. *)
Theorem dirlink_self_deadlocks s dp i name n de off :
  dirinv s dp i → icache_unique (icache s) → 0 < iref i → Sleeplock.slocked (ilck i) ≠ 0 →
  dir_find name (ents (con s) i) 0 = Some (de, off) → de_inum de = inum i →
  ∃ s' tr, dirlink devsw_read devsw_write dp name n s = Blocked (Ch_lock_inode dp) s' tr.
Proof using BS.
  intros Hd Hu Hr Hl Hf Hn. pose proof Hd as ((Hi & Hdev & _) & _). assert (is_inode 1 (inum i) i) as Hin by done.
  destruct (dirlookup_spec s dp i name Hd) as (r & s1 & [t1 [H1 _]] & Hlk).
  { rewrite Hf. intros ? ? [= <- <-]. exists dp, i. rewrite Hn. by auto. }
  rewrite Hf in Hlk. destruct Hlk as (s2 & ip & Hun & (e & e' & He & -> & Hor) & ->). destruct Hun as (y & -> & _). change (icache (set_fblk y s)) with (icache s) in *. rewrite Hn in Hor.
  assert (ip = dp ∧ e = i ∧ ilck e' = ilck e) as (-> & -> & Hlk).
  { destruct Hor as [[(? & ? & ?) ->]|(Hall & _)]; [|rewrite Forall_forall in Hall; destruct (Hall i); [by eapply list_elem_of_lookup_2 | done]].
    assert (ip = dp) as -> by (eapply (Hu ip dp e i); eauto; congruence). by simplify_eq. }
  unfold dirlink. rewrite (bind_Ok _ _ _ _ _ _ H1). unfold iput, acquiresleep, acquire, emit, mbind, M_bind, geti, gets. simpl.
  rewrite list_lookup_insert_eq by (by eapply lookup_lt_Some). unfold Sleeplock.acquiresleep_pass. rewrite Hlk, (proj2 (truth_true _) Hl). simpl. by eexists _, _.
Qed.

End dir.

(** ** Paths *)

(** The path cut at the slashes, and its non-empty parts. *)
Fixpoint cut (path : list Z) : list (list Z) :=
  match path with
  | [] => [[]]
  | c :: p => if c =? slash then [] :: cut p else match cut p with h :: t => (c :: h) :: t | [] => [[c]] end
  end.
Definition elems (path : list Z) : list (list Z) := filter (λ e, e ≠ []) (cut path).

Lemma elems_slash p : elems (slash :: p) = elems p.
Proof. done. Qed.

Lemma elems_skip p : elems (skip_slashes p) = elems p.
Proof. induction p as [|c p IH]; [done|]. simpl. destruct (Z.eqb_spec c slash) as [->|]; [by rewrite IH|done]. Qed.

Lemma skip_slashes_le p : (length (skip_slashes p) ≤ length p)%nat ∧ Forall (λ c, c ≠ slash) (take 1 (skip_slashes p)) ∧ suffix (skip_slashes p) p.
Proof.
  induction p as [|c p (IH1 & IH2 & IH3)]; simpl; [by split_and!; [|constructor|]|]. destruct (Z.eqb_spec c slash); simpl.
  - split_and!; [lia | done | by apply suffix_cons_r].
  - split_and!; [lia | by repeat constructor | done].
Qed.

Lemma path_elem_cut p : match path_elem p with (e, r) => p = e ++ r ∧ ∃ t, cut p = e :: t ∧ elems r = filter (λ e, e ≠ []) t end.
Proof.
  induction p as [|c p IH]; simpl; [split; [done|]; by exists []|]. destruct (Z.eqb_spec c slash) as [->|Hc].
  - split; [done|]. exists (cut p). split; [done|]. apply elems_slash.
  - destruct (path_elem p) as [e r]. destruct IH as [-> (t & -> & Ht)]. split; [done|]. by exists t.
Qed.

(** The string in a name buffer. *)
Definition name_string (name : list Z) : list Z := cname (write_bytes (λ _, 0) 0 name) 0 (Z.to_nat DIRSIZ).

Lemma cname_list l (n : nat) : ∀ m p,
  Forall (λ c, c ≠ 0) l → (length l ≤ n)%nat → (∀ j c, l !! j = Some c → m (p + Z.of_nat j) = c) →
  (length l = n ∨ m (p + length l) = 0) → cname m p n = l.
Proof.
  revert n. induction l as [|c l IH]; intros n m p Hnz Hlen Hm Hend; simpl in *.
  - destruct n; [done|]. simpl. rewrite Z.add_0_r in Hend. destruct Hend as [?|Hend]; [done|]. by rewrite (proj2 (truth_false _) Hend).
  - destruct n as [|n]; [lia|]. apply Forall_cons in Hnz as [Hc Hnz]. simpl. assert (m p = c) as -> by (rewrite <- (Z.add_0_r p); by apply (Hm 0%nat)).
    rewrite (proj2 (truth_true _) Hc). f_equal. apply IH; [done | lia | |].
    + intros j x Hj. replace (p + 1 + j) with (p + S j) by lia. by apply (Hm (S j)).
    + destruct Hend as [?|Hend]; [left; lia | right]. rewrite <- Hend. f_equal. lia.
Qed.

Lemma name_string_prefix e name :
  Forall (λ c, c ≠ 0) e → length name = 14%nat → (length e ≤ 14)%nat →
  (length e = 14%nat → take 14 name = e) → ((length e < 14)%nat → take (S (length e)) name = e ++ [0]) → name_string name = e.
Proof.
  intros Hnz Hn He Hfull Hshort. unfold name_string. apply cname_list; [done | done | |].
  - intros j c Hj. pose proof (lookup_lt_Some _ _ _ Hj). unfold write_bytes. range_cases; [|lia]. replace (Z.to_nat (0 + j - 0)) with j by lia.
    assert (name !! j = Some c) as ->; [|done]. destruct (decide (length e = 14)%nat) as [H14|H14].
    + rewrite <- (Hfull H14) in Hj. by rewrite lookup_take_lt in Hj by lia.
    + rewrite <- (lookup_take_lt name (S (length e))), Hshort by lia. by rewrite lookup_app_l.
  - destruct (decide (length e = 14)%nat) as [H14|H14]; [by left | right]. unfold write_bytes. range_cases; [|lia]. replace (Z.to_nat _) with (length e) by lia.
    rewrite <- (lookup_take_lt name (S (length e))), Hshort by lia. by rewrite list_lookup_middle.
Qed.

(** [skipelem] takes the first element off a path: for a path with elements
    (the non-empty parts between slashes) it leaves the first of them, cut at
    [DIRSIZ] bytes, in [name] and returns the path of the others, without leading
    slashes and shorter, so that the loop of [namex] ends; and it returns 0 exactly for a path without elements. *)
Theorem skipelem_correct path name :
  Forall (λ c, c ≠ 0) path → length name = Z.to_nat DIRSIZ →
  match skipelem path name with
  | None => elems path = []
  | Some (rest, name') => ∃ e, elems path = e :: elems rest ∧ name_string name' = take (Z.to_nat DIRSIZ) e ∧
      length name' = Z.to_nat DIRSIZ ∧ Forall (λ c, c ≠ slash) (take 1 rest) ∧ (length rest < length path)%nat ∧ suffix rest path
  end.
Proof.
  intros Hnz Hlen. change (Z.to_nat DIRSIZ) with 14%nat in *. unfold skipelem. pose proof (elems_skip path) as Hsk. destruct (skip_slashes_le path) as (Hle & Hhd & Hsuf).
  destruct (skip_slashes path) as [|c p] eqn:Hp; [done|]. pose proof (path_elem_cut (c :: p)) as Hpe. simpl take in Hhd. apply Forall_cons in Hhd as [Hc _].
  assert ((path_elem (c :: p)).1 ≠ []) as Hne by (simpl; rewrite (proj2 (Z.eqb_neq _ _) Hc); by destruct (path_elem p)).
  destruct (path_elem (c :: p)) as [e r]. destruct Hpe as [Hcp (t & Ht & Hr)]. destruct (skip_slashes_le r) as (Hle' & Hhd' & Hsuf').
  assert (Forall (λ c, c ≠ 0) e) as Hnze.
  { destruct Hsuf as [q Hq]. rewrite Hq, Hcp, !Forall_app in Hnz. tauto. }
  exists e. split; [rewrite <- Hsk, elems_skip; unfold elems at 1; rewrite Ht, filter_cons_True by done; by rewrite Hr|].
  assert (length r < length (c :: p))%nat as Hlt by (rewrite Hcp, length_app; destruct e; [done | simpl; lia]).
  split; [|split; [|split; [done|]; split; [lia|]]].
  - destruct (Z.leb_spec DIRSIZ (length e)) as [H14|H14]; change DIRSIZ with 14 in H14.
    + assert (length (take 14 e) = 14%nat) as Hl14 by (rewrite length_take; lia).
      apply name_string_prefix; [by apply Forall_take | rewrite length_splice; [done | change (Z.to_nat DIRSIZ) with 14%nat; lia] | lia | | lia].
      intros _. unfold splice. by rewrite take_0, app_nil_l, take_app_length'.
    + rewrite take_ge by lia. apply name_string_prefix; [done | rewrite length_splice; [done|] | lia | lia |]; [rewrite length_app; simpl; lia|].
      intros _. unfold splice. simpl. by rewrite take_app_length' by (rewrite length_app; simpl; lia).
  - destruct (Z.leb_spec DIRSIZ (length e)) as [H14|H14]; change DIRSIZ with 14 in H14.
    all: rewrite length_splice; [done|]; rewrite ?length_take, ?length_app; change (Z.to_nat DIRSIZ) with 14%nat; simpl length; lia.
  - destruct Hsuf as [q1 ->], Hsuf' as [q2 Hq2]. exists (q1 ++ e ++ q2). rewrite Hcp, Hq2 at 1. by rewrite <- !app_assoc.
Qed.

Lemma skipelem_correct_witness :
  match skipelem [47; 97; 98; 47; 47; 99] (replicate 14 1) with
  | None => elems [47; 97; 98; 47; 47; 99] = []
  | Some (rest, name') => ∃ e, elems [47; 97; 98; 47; 47; 99] = e :: elems rest ∧ name_string name' = take (Z.to_nat DIRSIZ) e ∧
      length name' = Z.to_nat DIRSIZ ∧ Forall (λ c, c ≠ slash) (take 1 rest) ∧ (length rest < length [47; 97; 98; 47; 47; 99])%nat ∧
      suffix rest [47; 97; 98; 47; 47; 99]
  end.
Proof. apply (skipelem_correct [47; 97; 98; 47; 47; 99] (replicate 14 1)); [by repeat constructor | done]. Defined.


Lemma iget_unique_witness :
  quiet (iget 1 5) ex_fs (λ ip s', icache_unique (icache s') ∧
    ∃ e e', icache ex_fs !! ip = Some e ∧ icache s' = <[ip := e']> (icache ex_fs) ∧ is_inode 1 5 e' ∧ iref e' = iref e + 1 ∧
      (is_inode 1 5 e → ivalid e' = ivalid e ∧ idata e' = idata e) ∧ (iref e = 0 → ivalid e' = 0)).
Proof.
  apply (iget_unique ex_fs 1 5).
  - intros [|j] [|k] x y Hx Hy; by simplify_eq/=.
  - exists 0%nat, ex_inode. split; [done|]. left. by split_and!.
Defined.

(** The empty directory in [ex_fs]. *)
Definition ex_dir : inode := set_idata (set_type T_DIR ex_dinode) ex_inode.
Definition ex_dirfs : fstate (B:=Log.lstate) := set_icache [ex_dir; set_iref 0 ex_inode] ex_fs.

Lemma dirlink_dirlookup_witness :
  quiet (r ← dirlink (λ _, None) (λ _, None) 0 [97; 98; 0] 7 ; q ← dirlookup (λ _, None) 0 [97; 98; 0] ; mret (r, q)) ex_dirfs (λ r s',
    ∃ ip e, r = (0, Some (ip, 0)) ∧ icache s' !! ip = Some e ∧ is_inode 1 7 e).
Proof.
  assert (dir_find [97; 98; 0] (ents (con ex_dirfs) ex_dir) 0 = None) as Hnone by reflexivity.
  assert (dirinv ex_dirfs 0 ex_dir) as Hd.
  { split; [split; [done|]; apply ex_fs_inv|]. split; [|done]. split; [done|]. intros bn H1 H2. change (isize ex_dir) with 0 in H2. change BSIZE with 512 in H2. lia. }
  assert (2 ≤ pot ex_dirfs ex_dir)%nat as Hpot by (change (pot ex_dirfs ex_dir) with (pot ex_fs ex_inode); rewrite ex_fs_room; lia).
  pose proof (dirlink_dirlookup (λ _, None) (λ _, None) ex_dirfs 0 ex_dir [97; 98; 0] 7 Hd ltac:(by vm_compute) ltac:(done) ltac:(done) ltac:(by vm_compute) ltac:(vm_compute; lia) Hpot) as H.
  rewrite Hnone in H. eapply quiet_mono; [apply H; exists 1%nat, (set_iref 0 ex_inode); done|].
  intros r s' (ip & e & i' & -> & He & Hin & _). exists ip, e. done.
Defined.

End FsDir.
