(* ===== verification/Ulib.v ===== *)
(** * ulib.c and printf.c: the user library

    Strings that are only read are lists of bytes without the NUL at their end;
    routines that write memory run on byte memory as in Cstring.v. Output is the
    list of the bytes written one by one with [putc]. *)

From S2P Require Import Prelude Memory Cstring.

Module Ulib.

(** ** ulib.c *)

(** [while(( *s++ = *t++) != 0);], [None] when no NUL is met within [fuel]. *)
Fixpoint strcpy (fuel : nat) (m : mem) (s t : Z) : option mem :=
  match fuel with
  | O => None
  | S f => let m' := mset m s (m t) in if truth (m t) then strcpy f m' (s + 1) (t + 1) else Some m'
  end.

Fixpoint strcmp (p q : list Z) : Z :=
  match p, q with
  | a :: p', b :: q' => if a =? b then strcmp p' q' else u8 a - u8 b
  | a :: _, [] => u8 a
  | [], b :: _ => - u8 b
  | [], [] => 0
  end.

Definition memset (m : mem) (dst c n : Z) : mem := Cstring.stosb m dst c n.

(** The index of the first [c] before a NUL *)
Fixpoint strchr (s : list Z) (c : Z) : option nat :=
  match s with
  | [] => None
  | x :: s' => if x =? 0 then None else if x =? c then Some O else S <$> strchr s' c
  end.

(** The loop of [gets]: the bytes stored, from the bytes [read] returns one by
    one, and the input left. *)
Fixpoint gets_loop (input : list Z) (i max : Z) : list Z * list Z :=
  if i + 1 <? max then
    match input with
    | [] => ([], [])
    | c :: input' =>
        if (c =? 10) || (c =? 13) then ([c], input')
        else let '(l, rest) := gets_loop input' (i + 1) max in (c :: l, rest)
    end
  else ([], input).

(** What [gets] leaves in the buffer, with the NUL. *)
Definition gets (input : list Z) (max : Z) : list Z * list Z :=
  let '(l, rest) := gets_loop input 0 max in (l ++ [0], rest).

Fixpoint atoi_loop (n : Z) (s : list Z) : Z :=
  match s with
  | [] => n
  | c :: s' => if (48 <=? c) && (c <=? 57) then atoi_loop (s32 (n * 10 + c - 48)) s' else n
  end.
Definition atoi (s : list Z) : Z := atoi_loop 0 s.

(** The user's [memmove] copies forward whatever the overlap. *)
Definition memmove (m : mem) (dst src : Z) (n : nat) : mem := Cstring.copy_forward m dst src n.

(** ** printf.c *)

Definition digits : list Z := bytes "0123456789ABCDEF".

(** The [do] loop of [printint]: the digits, the lowest first. *)
Fixpoint digit_loop (fuel : nat) (tbl : list Z) (x base : Z) : list Z :=
  match fuel with
  | O => []
  | S f => nth (Z.to_nat (x mod base)) tbl 0 :: (if x / base =? 0 then [] else digit_loop f tbl (x / base) base)
  end.

Definition printint (xx base : Z) (sgn : bool) : list Z :=
  let neg := sgn && (xx <? 0) in
  let x := if neg then u32 (- xx) else u32 xx in
  rev (digit_loop 32 digits x base ++ if neg then bytes "-" else []).

(** An argument of [printf], a string one as the bytes it points to. *)
Inductive arg := Int (x : Z) | Str (s : option (list Z)).

(** The loop of [printf], [state] whether the last byte was a per cent sign;
    [None] when the arguments are not what the format asks for. *)
Fixpoint printf_loop (state : bool) (fmt : list Z) (ap : list arg) : option (list Z) :=
  match fmt with
  | [] => Some []
  | c :: fmt' =>
      if negb state then
        if c =? 37 then printf_loop true fmt' ap else (c ::.) <$> printf_loop false fmt' ap
      else if c =? 100 then
        match ap with Int x :: ap' => (printint (s32 x) 10 true ++.) <$> printf_loop false fmt' ap' | _ => None end
      else if (c =? 120) || (c =? 112) then
        match ap with Int x :: ap' => (printint (s32 x) 16 false ++.) <$> printf_loop false fmt' ap' | _ => None end
      else if c =? 115 then
        match ap with Str s :: ap' => (default (bytes "(null)") s ++.) <$> printf_loop false fmt' ap' | _ => None end
      else if c =? 99 then
        match ap with Int x :: ap' => (u8 x ::.) <$> printf_loop false fmt' ap' | _ => None end
      else if c =? 37 then (c ::.) <$> printf_loop false fmt' ap
      else (λ out, 37 :: c :: out) <$> printf_loop false fmt' ap
  end.
Definition printf (fmt : list Z) (ap : list arg) : option (list Z) := printf_loop false fmt ap.

(** ** Numbers *)

(** The number a digit string stands for, the lowest digit first. *)
Definition digit_val (tbl : list Z) (c : Z) : Z := match list_find (λ d, d = c) tbl with Some (k, _) => k | None => 0 end.
Fixpoint num_val (tbl : list Z) (base : Z) (l : list Z) : Z :=
  match l with
  | [] => 0
  | c :: l' => digit_val tbl c + base * num_val tbl base l'
  end.

Lemma digit_val_nth x : 0 ≤ x < 16 → digit_val digits (nth (Z.to_nat x) digits 0) = x.
Proof.
  intros Hx. assert (Forall (λ x, digit_val digits (nth (Z.to_nat x) digits 0) = x) (seqZ 0 16)) as Hall by (vm_compute; by repeat constructor).
  rewrite Forall_forall in Hall. apply Hall, elem_of_seqZ. lia.
Qed.

Lemma digit_range k : 0 ≤ k < 16 → 48 ≤ nth (Z.to_nat k) digits 0 ∧ (k < 10 → nth (Z.to_nat k) digits 0 = 48 + k).
Proof.
  intros Hk. assert (Forall (λ k, 48 ≤ nth (Z.to_nat k) digits 0 ∧ (k < 10 → nth (Z.to_nat k) digits 0 = 48 + k)) (seqZ 0 16)) as Hall.
  { apply Forall_forall. intros x Hx%elem_of_seqZ. assert (x ∈ seqZ 0 16) as Hin by (by apply elem_of_seqZ). vm_compute in Hin.
    set_unfold in Hin. destruct_or! Hin; subst; vm_compute; split; congruence || (intros; done). }
  rewrite Forall_forall in Hall. apply Hall, elem_of_seqZ. lia.
Qed.

#[local] Opaque digits.

(** The loop ends because the number gets smaller, and yields its digits. *)
Lemma digit_loop_val base (fuel : nat) : 2 ≤ base ≤ 16 → ∀ x, 0 ≤ x < 2 ^ fuel → (0 < fuel)%nat →
  let l := digit_loop fuel digits x base in
  num_val digits base l = x ∧ l ≠ [] ∧ Forall (λ c, ∃ k, 0 ≤ k < base ∧ c = nth (Z.to_nat k) digits 0) l ∧
  (x < base ∨ last l ≠ Some 48).
Proof.
  intros Hb. induction fuel as [|fuel IH]; intros x Hx Hf; [lia|]. cbn [digit_loop num_val].
  pose proof (Z.mod_pos_bound x base ltac:(lia)) as Hm. pose proof (Z.div_mod x base ltac:(lia)) as Hdm.
  destruct (Z.eqb_spec (x / base) 0) as [H0|H0]; cbn zeta.
  - rewrite digit_val_nth by lia. simpl. split_and!; [lia | done | | left; lia].
    constructor; [|done]. exists (x mod base). split; [lia | done].
  - assert (0 ≤ x / base) by (apply Z.div_pos; lia). rewrite Nat2Z.inj_succ, Z.pow_succ_r in Hx by lia.
    assert (x / base < 2 ^ fuel) by (apply Z.div_lt_upper_bound; nia).
    destruct fuel as [|fuel]; [simpl in *; lia|]. destruct (IH (x / base)) as (IH1 & IH2 & IH3 & IH4); [lia | lia |].
    rewrite IH1, digit_val_nth by lia. split_and!; [lia | done | |].
    + constructor; [|done]. exists (x mod base). split; [lia | done].
    + right. destruct (digit_loop (S fuel) digits (x / base) base) as [|c l] eqn:El; [done|]. cbn [last] in *.
      destruct IH4 as [Hlt|Hl]; [|done].
      assert (l = []) as -> by (revert El; cbn [digit_loop]; rewrite (Z.div_small (x / base) base) by lia; simpl; by intros [= _ <-]).
      injection El as <-. intros [= Hc]. apply H0. rewrite <- (digit_val_nth (x / base)) by lia.
      rewrite <- (Z.mod_small (x / base) base) by lia. by rewrite Hc.
Qed.

Lemma digit_loop_length base k (fuel : nat) : 2 ≤ base → ∀ x, 0 ≤ x < base ^ Z.of_nat (S k) → (length (digit_loop fuel digits x base) ≤ S k)%nat.
Proof.
  intros Hb. revert fuel. induction k as [|k IH]; intros [|fuel] x Hx; simpl; try lia.
  - rewrite Z.pow_1_r in Hx. rewrite Z.div_small by lia. simpl. lia.
  - destruct (x / base =? 0); simpl; [lia|]. apply le_n_S, IH. split; [apply Z.div_pos; lia|].
    apply Z.div_lt_upper_bound; [lia|]. rewrite (Nat2Z.inj_succ (S k)), Z.pow_succ_r in Hx by lia. lia.
Qed.

Lemma num_val_app base l l' : num_val digits base (l ++ l') = num_val digits base l + base ^ length l * num_val digits base l'.
Proof.
  induction l as [|c l IH]; cbn [num_val app length]; [rewrite Z.pow_0_r; lia|]. rewrite IH, Nat2Z.inj_succ, Z.pow_succ_r by lia. lia.
Qed.

Lemma num_val_nonneg base l : 0 ≤ base → 0 ≤ num_val digits base l.
Proof. intros. induction l as [|c l IH]; cbn [num_val]; [done|]. unfold digit_val. repeat case_match; nia. Qed.

(** [atoi] reads decimal digits, as long as the number is an [int]. *)
Lemma atoi_digits l : ∀ n, Forall (λ c, ∃ k, 0 ≤ k < 10 ∧ c = nth (Z.to_nat k) digits 0) l →
  0 ≤ n → n * 10 ^ length l + num_val digits 10 (rev l) < 2 ^ 31 →
  atoi_loop n l = n * 10 ^ length l + num_val digits 10 (rev l).
Proof.
  induction l as [|c l IH]; intros n Hl Hn Hlt; cbn [atoi_loop rev length]; [simpl; lia|].
  apply Forall_cons in Hl as [(k & Hk & ->) Hl]. cbn [rev length] in Hlt. rewrite num_val_app, length_rev in *. cbn [num_val] in *.
  rewrite digit_val_nth in * by lia. destruct (digit_range k ltac:(lia)) as [_ Hc]. rewrite Hc by lia.
  rewrite (proj2 (Z.leb_le _ _)), (proj2 (Z.leb_le _ _)) by lia. simpl andb. cbv iota.
  rewrite Nat2Z.inj_succ, Z.pow_succ_r in * by lia. pose proof (num_val_nonneg 10 (rev l) ltac:(lia)). pose proof (Z.pow_pos_nonneg 10 (length l) ltac:(lia) ltac:(lia)).
  rewrite s32_small by nia. rewrite IH; [lia | done | lia | lia].
Qed.

(** The number a string of digits with an optional sign stands for. *)
Definition number (base : Z) (s : list Z) : Z :=
  match s with
  | c :: s' => if c =? 45 then - num_val digits base (rev s') else num_val digits base (rev s)
  | [] => 0
  end.

(** [printint] prints a number so that it can be read back: for every [int]
    and base from 10 to 16 the characters stand for the number, or, unsigned, for
    its bits (the least [int] included), they fit the 16 byte buffer, and [atoi]
    returns a decimal number that is not negative. *)
Theorem printint_correct xx base sgn :
  10 ≤ base ≤ 16 → - 2 ^ 31 ≤ xx < 2 ^ 31 →
  let out := printint xx base sgn in
  number base out = (if sgn then xx else u32 xx) ∧ (length out ≤ 16)%nat ∧ (base = 10 → 0 ≤ xx → atoi out = xx).
Proof.
  intros Hb Hxx. unfold printint. set (neg := sgn && (xx <? 0)). set (x := if neg then u32 (- xx) else u32 xx).
  assert (0 ≤ x < 2 ^ 32) as Hx by (unfold x; case_match; apply u32_range).
  destruct (digit_loop_val base 32 ltac:(lia) x Hx ltac:(lia)) as (Hval & Hne & Hall & _).
  assert (length (digit_loop 32 digits x base) ≤ 10)%nat as Hlen.
  { apply digit_loop_length; [lia|]. split; [lia|]. eapply Z.lt_le_trans; [apply Hx|]. transitivity (10 ^ 10); [done|]. apply Z.pow_le_mono_l. lia. }
  set (l := digit_loop 32 digits x base) in *. clearbody l. rewrite rev_app_distr.
  assert (∃ c l', rev l = c :: l' ∧ 48 ≤ c) as (c & l' & Hrev & Hc).
  { destruct (rev l) as [|c l'] eqn:E; [apply (f_equal (@rev Z)) in E; rewrite rev_involutive in E; done|]. exists c, l'. split; [done|].
    assert (c ∈ l) as Hin by (apply list_elem_of_In, in_rev; rewrite E; left; done). rewrite Forall_forall in Hall. destruct (Hall c Hin) as (k & Hk & ->). by apply digit_range; lia. }
  split_and!.
  - destruct neg eqn:En; simpl rev.
    + change (rev (bytes "-")) with [45]. simpl. rewrite rev_involutive, Hval. unfold neg in En. apply andb_true_iff in En as [-> Hlt%Z.ltb_lt]. unfold x. rewrite u32_small by lia. lia.
    + simpl app. unfold number. rewrite Hrev. rewrite (proj2 (Z.eqb_neq c 45)) by lia. rewrite <- Hrev, rev_involutive, Hval. unfold x.
      destruct sgn; [|done]. unfold neg in En. simpl in En. apply Z.ltb_ge in En. by apply u32_small; lia.
  - rewrite length_app, !length_rev. destruct neg; simpl; lia.
  - intros -> H0. assert (neg = false) as Hneg by (unfold neg; rewrite (proj2 (Z.ltb_ge xx 0)) by lia; by rewrite andb_false_r).
    unfold x in *. rewrite Hneg in *. simpl app. rewrite u32_small in * by lia. unfold atoi. rewrite atoi_digits.
    + rewrite rev_involutive, Hval. lia.
    + apply Forall_forall. intros d Hd. rewrite Forall_forall in Hall. apply Hall. by apply list_elem_of_In, in_rev, list_elem_of_In.
    + lia.
    + rewrite rev_involutive, Hval. lia.
Qed.

Lemma printint_correct_witness :
  let out := printint (- 2 ^ 31) 10 true in
  number 10 out = - 2 ^ 31 ∧ (length out ≤ 16)%nat ∧ (10 = 10 → 0 ≤ - 2 ^ 31 → atoi out = - 2 ^ 31).
Proof. apply (printint_correct (- 2 ^ 31) 10 true); lia. Defined.

(** The user's [memmove] is not the kernel's: with the destination above the
    source and overlapping it, bytes already overwritten are copied. *)
Theorem user_memmove_overlap :
  ∃ m, Cstring.memmove m 1 0 2 2 = m 1 ∧ memmove m 1 0 2 2 ≠ m 1.
Proof. exists (λ x, x). by vm_compute. Qed.

End Ulib.
