(* ===== verification/Console.v ===== *)
(** * console.c and uart.c: the console

    Output goes to the serial line and to the CGA screen, whose cursor position
    is kept by the display controller; input is a ring buffer that is edited in
    place until a line is complete. The screen is a window on an endless page
    ([page]), the input a line editor in front of a queue ([akey], [aread]). *)

From S2P Require Import Prelude Layout Ulib.

Module Console.

Definition INPUT_BUF : Z := 128.
Definition BACKSPACE : Z := 0x100.
(** [C('x')] *)
Definition ctrl (c : Z) : Z := c - 64.

Record cstate := mk_cstate {
  locking : bool;      (** [cons.locking] *)
  panicked : bool;
  uart : bool;
  crt : list Z;        (** the 25 rows of the screen *)
  cursor : Z;          (** registers 14 and 15 of the display controller *)
  buf : list Z;        (** [input] *)
  r : Z;
  w : Z;
  e : Z;
}.

Definition set_crt (x : list Z) (s : cstate) : cstate := mk_cstate (locking s) (panicked s) (uart s) x (cursor s) (buf s) (r s) (w s) (e s).
Definition set_cursor (x : Z) (s : cstate) : cstate := mk_cstate (locking s) (panicked s) (uart s) (crt s) x (buf s) (r s) (w s) (e s).
Definition set_buf (x : list Z) (s : cstate) : cstate := mk_cstate (locking s) (panicked s) (uart s) (crt s) (cursor s) x (r s) (w s) (e s).
Definition set_r (x : Z) (s : cstate) : cstate := mk_cstate (locking s) (panicked s) (uart s) (crt s) (cursor s) (buf s) x (w s) (e s).
Definition set_w (x : Z) (s : cstate) : cstate := mk_cstate (locking s) (panicked s) (uart s) (crt s) (cursor s) (buf s) (r s) x (e s).
Definition set_e (x : Z) (s : cstate) : cstate := mk_cstate (locking s) (panicked s) (uart s) (crt s) (cursor s) (buf s) (r s) (w s) x.

#[local] Abbreviation K := (M cstate).

(** ** Output *)

Definition uartputc (c : Z) : K unit := b ← gets uart ; when b (emit (EPutc (u8 c))).

(** [crt[pos] = v] *)
Definition set_cell (pos v : Z) : K unit :=
  s ← get_state ;
  if (0 <=? pos) && (pos <? length (crt s)) then modify (set_crt (<[Z.to_nat pos := v]> (crt s)))
  else undefined "crt index".

(** [memmove(crt, crt+80, sizeof(crt[0])*23*80)] *)
Definition scroll_up : K unit :=
  modify (λ s, set_crt (take (23 * 80) (drop 80 (crt s)) ++ drop (23 * 80) (crt s)) s).
(** [memset(crt+pos, 0, sizeof(crt[0])*(24*80 - pos))] *)
Definition clear_from (pos : Z) : K unit :=
  modify (λ s, set_crt (take (Z.to_nat pos) (crt s) ++ replicate (24 * 80 - Z.to_nat pos) 0 ++ drop (24 * 80) (crt s)) s).

Definition cgaputc (c : Z) : K unit :=
  pos ← gets cursor ;
  pos ← (if c =? 10 then mret (pos + (80 - pos mod 80))
         else if c =? BACKSPACE then mret (if 0 <? pos then pos - 1 else pos)
         else set_cell pos (Z.lor (Z.land c 0xff) 0x0700) ;; mret (pos + 1)) ;
  if (pos <? 0) || (25 * 80 <? pos) then panic "pos under/overflow" else
  pos ← (if 24 <=? pos / 80 then
           scroll_up ;;
           clear_from (pos - 80) ;;
           mret (pos - 80)
         else mret pos) ;
  modify (set_cursor (u8 (Z.shiftr pos 8) * 2 ^ 8 + u8 pos)) ;;
  set_cell pos (Z.lor 32 0x0700).

Definition consputc (c : Z) : K unit :=
  p ← gets panicked ;
  if p : bool then halt else
  (if c =? BACKSPACE then uartputc 8 ;; uartputc 32 ;; uartputc 8 else uartputc c) ;;
  cgaputc c.

Definition digits : list Z := bytes "0123456789abcdef".
Definition printint (xx base : Z) (sign : bool) : list Z :=
  let neg := sign && (xx <? 0) in
  let x := if neg then u32 (- xx) else u32 xx in
  rev (Ulib.digit_loop 32 digits x base ++ if neg then bytes "-" else []).

(** The loop of [cprintf]; [None] when the arguments are not what the format
    asks for. *)
Fixpoint cprintf_loop (fmt : list Z) (argp : list Ulib.arg) : option (list Z) :=
  match fmt with
  | [] => Some []
  | c :: fmt =>
      if negb (c =? 37) then (c ::.) <$> cprintf_loop fmt argp else
      match fmt with
      | [] => Some []
      | c :: fmt =>
          if c =? 100 then
            match argp with Ulib.Int x :: argp => (printint (s32 x) 10 true ++.) <$> cprintf_loop fmt argp | _ => None end
          else if (c =? 120) || (c =? 112) then
            match argp with Ulib.Int x :: argp => (printint (s32 x) 16 false ++.) <$> cprintf_loop fmt argp | _ => None end
          else if c =? 115 then
            match argp with Ulib.Str s :: argp => (default (bytes "(null)") s ++.) <$> cprintf_loop fmt argp | _ => None end
          else if c =? 37 then (37 ::.) <$> cprintf_loop fmt argp
          else (λ out, 37 :: c :: out) <$> cprintf_loop fmt argp
      end
  end.

Definition cprintf (fmt : list Z) (argp : list Ulib.arg) : K unit :=
  l ← gets locking ;
  when l (acquire Lcons) ;;
  match cprintf_loop fmt argp with
  | Some out => for_each out consputc
  | None => undefined "missing argument"
  end ;;
  when l (release Lcons).

(** [iunlock] and [ilock] are those of the device's inode. *)
Definition consolewrite (iunlock ilock : K unit) (src : list Z) : K Z :=
  iunlock ;;
  acquire Lcons ;;
  for_each src (λ c, consputc (Z.land c 0xff)) ;;
  release Lcons ;;
  ilock ;;
  mret (Z.of_nat (length src)).

(** ** Input *)

(** [input.buf[i % INPUT_BUF]] *)
Definition ring_at (b : list Z) (i : Z) : Z := default 0 (b !! Z.to_nat (i mod INPUT_BUF)).
Definition buf_at (i : Z) (s : cstate) : Z := ring_at (buf s) i.

(** The loop of Control-U; the buffer bounds its length. *)
Fixpoint kill_line (fuel : nat) : K unit :=
  s ← get_state ;
  if negb (e s =? w s) && negb (buf_at (u32 (e s - 1)) s =? 10) then
    match fuel with
    | O => undefined "line longer than the buffer"
    | S f => modify (set_e (u32 (e s - 1))) ;; consputc BACKSPACE ;; kill_line f
    end
  else mret ().

(** One round of [consoleintr]: whether the process listing was asked for *)
Definition key (c : Z) : K bool :=
  if c =? ctrl 80 then mret true
  else if c =? ctrl 85 then kill_line (Z.to_nat INPUT_BUF) ;; mret false
  else if (c =? ctrl 72) || (c =? 127) then
    s ← get_state ;
    when (negb (e s =? w s)) (modify (set_e (u32 (e s - 1))) ;; consputc BACKSPACE) ;;
    mret false
  else
    s ← get_state ;
    when (negb (c =? 0) && (u32 (e s - r s) <? INPUT_BUF))
      (let c := if c =? 13 then 10 else c in
       modify (λ s, set_e (u32 (e s + 1)) (set_buf (<[Z.to_nat (e s mod INPUT_BUF) := u8 c]> (buf s)) s)) ;;
       consputc c ;;
       s ← get_state ;
       when ((c =? 10) || (c =? ctrl 68) || (e s =? u32 (r s + INPUT_BUF)))
         (modify (set_w (e s)) ;; wakeup Ch_input)) ;;
    mret false.

Fixpoint keys (cs : list Z) (doprocdump : bool) : K bool :=
  match cs with
  | [] => mret doprocdump
  | c :: cs => d ← key c ; keys cs (d || doprocdump)
  end.

(** [cs] is what [getc] returns before it returns a negative number. *)
Definition consoleintr (procdump : K unit) (cs : list Z) : K unit :=
  acquire Lcons ;;
  d ← keys cs false ;
  release Lcons ;;
  when d procdump.

(** One pass of [consoleread] with the lock held: [n] bytes are still to be read, [dst] are those
    read so far, [target] is the request; [killed] is the flag of the process. *)
Fixpoint read_pass (killed : Z) (n : nat) (dst : list Z) (s : cstate) : pass (nat * list Z) cstate (Z * list Z) :=
  let return_ dst s := Done (Z.of_nat (length dst), dst) s [ERelease Lcons] in
  match n with
  | O => return_ dst s
  | S n' =>
      if r s =? w s then
        if truth killed then Done (-1, dst) s [ECli; ERelease Lcons] else Wait Ch_input (n, dst) s [ECli]
      else
        let c := buf_at (r s) s in
        let s := set_r (u32 (r s + 1)) s in
        if c =? ctrl 68 then
          match dst with
          | [] => return_ dst s
          | _ => return_ dst (set_r (u32 (r s - 1)) s)
          end
        else if c =? 10 then return_ (dst ++ [c]) s
        else read_pass killed n' (dst ++ [c]) s
  end.

Definition consoleinit (s : cstate) : cstate :=
  mk_cstate true (panicked s) (uart s) (crt s) (cursor s) (buf s) (r s) (w s) (e s).

(** ** cprintf and printf *)

(** Formats whose conversions both know and print alike: [printf] has [%c] too,
    and prints the digits of [%x] and [%p] in upper case. *)
Fixpoint shared (fmt : list Z) : bool :=
  match fmt with
  | [] => true
  | c :: fmt =>
      if c =? 37 then match fmt with [] => true | c :: fmt => negb ((c =? 120) || (c =? 112) || (c =? 99)) && shared fmt end
      else shared fmt
  end.

Lemma decimal_digits fuel x : Ulib.digit_loop fuel Ulib.digits x 10 = Ulib.digit_loop fuel digits x 10.
Proof.
  revert x. induction fuel as [|f IH]; intros x; simpl; [done|]. f_equal; [|by rewrite IH].
  assert (Forall (λ k, nth (Z.to_nat k) Ulib.digits 0 = nth (Z.to_nat k) digits 0) (seqZ 0 10)) as Hall by (vm_compute; by repeat constructor).
  rewrite Forall_forall in Hall. apply Hall, elem_of_seqZ. pose proof (Z.mod_pos_bound x 10). lia.
Qed.

Lemma decimal_printint xx sgn : Ulib.printint xx 10 sgn = printint xx 10 sgn.
Proof. unfold Ulib.printint, printint. by rewrite decimal_digits. Qed.

(** C33: the kernel's [cprintf] and the user library's [printf] print the same.
    For every format without [%c], [%x] and [%p], and any arguments, the bytes
    [cprintf] prints, with its look ahead of one character, are those [printf]
    prints with its state variable, a missing argument, an unknown conversion
    and a per cent sign at the end of the format included. *)
Theorem cprintf_is_printf fmt : ∀ argp, shared fmt = true → cprintf_loop fmt argp = Ulib.printf fmt argp.
Proof.
  unfold Ulib.printf. induction fmt as [fmt IH] using (induction_ltof1 _ (@length Z)). unfold ltof in IH. intros argp Hs. destruct fmt as [|c fmt]; [done|].
  cbn [cprintf_loop Ulib.printf_loop shared negb] in *. destruct (c =? 37); cbn [negb]; [|rewrite (IH fmt) by (simpl; lia || done); done].
  destruct fmt as [|d fmt]; [done|]. cbn [Ulib.printf_loop negb]. apply andb_true_iff in Hs as [Hd Hs]. rewrite !negb_orb, !andb_true_iff, !negb_true_iff in Hd. destruct Hd as [[Hx Hp] Hc].
  rewrite Hx, Hp, Hc. cbn [orb]. assert (∀ ap, cprintf_loop fmt ap = Ulib.printf_loop false fmt ap) as E by (intros; apply IH; [simpl; lia | done]).
  destruct (d =? 100); [destruct argp as [|[x|] argp]; [done| |done]; by rewrite E, decimal_printint|].
  destruct (d =? 115); [destruct argp as [|[x|] argp]; [done|done|]; by rewrite E|]. rewrite E. destruct (Z.eqb_spec d 37) as [->|]; done.
Qed.

(** ** The screen as a window *)

(** An endless page of 80 columns: its cells, the position of the cursor, and the
    row at the top of the screen *)
Record page := mk_page { cells : Z → Z; at_ : Z; top : Z }.

Definition put_cell (p v : Z) (t : Z → Z) : Z → Z := λ i, if i =? p then v else t i.
Definition glyph (c : Z) : Z := Z.lor (Z.land c 0xff) 0x0700.
Definition blank : Z := Z.lor 32 0x0700.

(** A character, a newline or a backspace on the page; the window follows the
    cursor down, and a backspace stops at its upper left corner. *)
Definition aput (p : page) (c : Z) : page :=
  let '(t, a) :=
    if c =? 10 then (cells p, at_ p + (80 - at_ p mod 80))
    else if c =? BACKSPACE then (cells p, if 80 * top p <? at_ p then at_ p - 1 else at_ p)
    else (put_cell (at_ p) (glyph c) (cells p), at_ p + 1) in
  mk_page (put_cell a blank t) a (if top p + 24 <=? a / 80 then top p + 1 else top p).

(** The first 24 rows of the screen show the page from row [top] on, and nothing
    has been written to the page below the window. *)
Definition window (s : cstate) (p : page) : Prop :=
  length (crt s) = (25 * 80)%nat ∧ cursor s = at_ p - 80 * top p ∧ 0 ≤ cursor s < 24 * 80 ∧
  (∀ i, 0 ≤ i < 24 * 80 → crt s !! Z.to_nat i = Some (cells p (80 * top p + i))) ∧
  (∀ j, 80 * (top p + 24) ≤ j → cells p j = 0).

(** What [consputc] leaves alone *)
Definition same_input (s s' : cstate) : Prop :=
  locking s' = locking s ∧ panicked s' = panicked s ∧ uart s' = uart s ∧ buf s' = buf s ∧ r s' = r s ∧ w s' = w s ∧ e s' = e s.

Lemma wp_set_cell s pos v (Q : unit → cstate → list event → Prop) :
  length (crt s) = (25 * 80)%nat → 0 ≤ pos < 25 * 80 → Q () (set_crt (<[Z.to_nat pos := v]> (crt s)) s) [] → wp (set_cell pos v) s Q.
Proof.
  intros Hl Hp HQ. unfold set_cell. apply wp_bind, wp_get_state. rewrite Hl, (proj2 (Z.leb_le 0 pos)), (proj2 (Z.ltb_lt pos _)) by lia. by apply wp_modify.
Qed.

Lemma cell_lookup (l : list Z) pos v i : length l = (25 * 80)%nat → 0 ≤ pos < 25 * 80 → 0 ≤ i →
  <[Z.to_nat pos := v]> l !! Z.to_nat i = if i =? pos then Some v else l !! Z.to_nat i.
Proof.
  intros Hl Hp Hi. destruct (Z.eqb_spec i pos) as [->|Hne]; [apply list_lookup_insert_eq; lia | apply list_lookup_insert_ne; lia].
Qed.

Lemma cursor_bytes pos : 0 ≤ pos < 2 ^ 16 → u8 (Z.shiftr pos 8) * 2 ^ 8 + u8 pos = pos.
Proof. intros H. rewrite Z.shiftr_div_pow2 by lia. unfold u8. change (2 ^ 8) with 256 in *. change (2 ^ 16) with 65536 in H. Z.div_mod_to_equations. lia. Qed.

(** The screen after [scroll_up] and [clear_from] *)
Lemma scrolled_lookup (l : list Z) (i : nat) : length l = (25 * 80)%nat → (i < 24 * 80)%nat →
  let l1 := take (23 * 80) (drop 80 l) ++ drop (23 * 80) l in
  (take (23 * 80) l1 ++ replicate (24 * 80 - 23 * 80) 0 ++ drop (24 * 80) l1) !! i = if (i <? 23 * 80)%nat then l !! (80 + i)%nat else Some 0.
Proof.
  intros Hl Hi l1. assert (length (take (23 * 80) (drop 80 l)) = (23 * 80)%nat) as Ht by (rewrite length_take, length_drop, Hl; done).
  assert (length l1 = (25 * 80)%nat) as Hl1 by (unfold l1; rewrite length_app, Ht, length_drop, Hl; done). destruct (Nat.ltb_spec i (23 * 80)) as [Hlt|Hge].
  - rewrite lookup_app_l, lookup_take_lt by (rewrite ?length_take; lia). unfold l1. rewrite lookup_app_l, lookup_take_lt, lookup_drop by lia. done.
  - rewrite lookup_app_r, lookup_app_l by (rewrite ?length_take, ?length_replicate, Hl1; lia). apply lookup_replicate_2. rewrite length_take, Hl1. lia.
Qed.

(** From the test of the position on *)
Lemma cga_finish s t o pos (Q : unit → cstate → list event → Prop) :
  length (crt s) = (25 * 80)%nat → 0 ≤ pos ≤ 24 * 80 → (∀ i, 0 ≤ i < 24 * 80 → crt s !! Z.to_nat i = Some (t (80 * o + i))) → (∀ j, 80 * (o + 24) ≤ j → t j = 0) →
  (∀ s', window s' (mk_page (put_cell (80 * o + pos) blank t) (80 * o + pos) (if o + 24 <=? (80 * o + pos) / 80 then o + 1 else o)) → same_input s s' → Q () s' []) →
  wp (if (pos <? 0) || (25 * 80 <? pos) then panic "pos under/overflow" else
      pos ← (if 24 <=? pos / 80 then scroll_up ;; clear_from (pos - 80) ;; mret (pos - 80) else mret pos) ;
      modify (set_cursor (u8 (Z.shiftr pos 8) * 2 ^ 8 + u8 pos)) ;;
      set_cell pos (Z.lor 32 0x0700)) s Q.
Proof.
  intros Hl Hpos Hc Hz HQ. rewrite (proj2 (Z.ltb_ge pos 0)), (proj2 (Z.ltb_ge (25 * 80) pos)) by lia. simpl.
  replace ((80 * o + pos) / 80) with (o + pos / 80) in HQ by (rewrite (Z.mul_comm 80), Z.div_add_l; lia). destruct (Z.leb_spec 24 (pos / 80)) as [Hs|Hs].
  - assert (pos = 24 * 80) as -> by (Z.div_mod_to_equations; lia). rewrite (proj2 (Z.leb_le _ _)) in HQ by lia.
    apply wp_bind, wp_bind, wp_modify, wp_bind, wp_modify, wp_ret, wp_bind, wp_modify. simpl crt. change (Z.to_nat (24 * 80 - 80)) with (23 * 80)%nat.
    set (l := take (23 * 80) _ ++ _). assert (length l = (25 * 80)%nat) as Hl' by (unfold l; rewrite !length_app, !length_take, !length_replicate, !length_drop, !length_app, !length_take, !length_drop, Hl; done).
    apply wp_set_cell; [done | lia|]. apply HQ; [|done]. change (24 * 80 - 80) with 1840. rewrite cursor_bytes by lia. split_and!; simpl; [by rewrite length_insert | lia | lia | lia | |].
    + intros i Hi. rewrite (cell_lookup l 1840) by (done || lia). unfold put_cell. replace (80 * (o + 1) + i =? 80 * o + 24 * 80) with (i =? 1840) by (destruct (Z.eqb_spec i 1840), (Z.eqb_spec (80 * (o + 1) + i) (80 * o + 24 * 80)); lia).
      destruct (Z.eqb_spec i 1840); [done|]. pose proof (scrolled_lookup (crt s) (Z.to_nat i) Hl ltac:(lia)) as Hlk. cbv zeta in Hlk. change (_ !! _ = _) with (l !! Z.to_nat i = if (Z.to_nat i <? 23 * 80)%nat then crt s !! (80 + Z.to_nat i)%nat else Some 0) in Hlk. rewrite Hlk. destruct (Nat.ltb_spec (Z.to_nat i) (23 * 80)).
      * replace (80 + Z.to_nat i)%nat with (Z.to_nat (80 + i)) by lia. rewrite Hc by lia. do 2 f_equal. lia.
      * rewrite Hz by lia. done.
    + intros j Hj. unfold put_cell. rewrite (proj2 (Z.eqb_neq _ _)) by lia. apply Hz. lia.
  - rewrite (proj2 (Z.leb_gt _ _)) in HQ by lia. assert (pos < 24 * 80) by (Z.div_mod_to_equations; lia). apply wp_bind, wp_ret, wp_bind, wp_modify, wp_set_cell; [done | lia|]. apply HQ; [|done].
    rewrite cursor_bytes by lia. split_and!; simpl; [by rewrite length_insert | lia | lia | lia | |].
    + intros i Hi. rewrite cell_lookup by (done || lia). unfold put_cell. replace (80 * o + i =? 80 * o + pos) with (i =? pos) by (destruct (Z.eqb_spec i pos), (Z.eqb_spec (80 * o + i) (80 * o + pos)); lia).
      destruct (i =? pos); [done | by apply Hc].
    + intros j Hj. unfold put_cell. rewrite (proj2 (Z.eqb_neq _ _)) by lia. by apply Hz.
Qed.

Lemma cgaputc_spec s p c (Q : unit → cstate → list event → Prop) :
  window s p → (∀ s', window s' (aput p c) → same_input s s' → Q () s' []) → wp (cgaputc c) s Q.
Proof.
  intros (Hl & Hcur & Hr & Hc & Hz) HQ. destruct p as [t a o]. simpl in *. unfold aput in HQ. simpl in HQ. unfold cgaputc. apply wp_bind, wp_gets, wp_bind. rewrite Hcur in Hr |- *.
  destruct (Z.eqb_spec c 10) as [->|Hn]; [|destruct (Z.eqb_spec c BACKSPACE) as [->|Hb]].
  - apply wp_ret. apply (cga_finish s t o); [done | Z.div_mod_to_equations; lia | done | done|]. intros s'.
    assert ((a - 80 * o) mod 80 = a mod 80) as -> by (Z.div_mod_to_equations; lia). replace (80 * o + (a - 80 * o + (80 - a mod 80))) with (a + (80 - a mod 80)) by lia. apply HQ.
  - apply wp_ret. apply (cga_finish s t o); [done | destruct (Z.ltb_spec 0 (a - 80 * o)); lia | done | done|]. intros s'. revert HQ. destruct (Z.ltb_spec (80 * o) a), (Z.ltb_spec 0 (a - 80 * o)); try lia; intros HQ.
    + replace (80 * o + (a - 80 * o - 1)) with (a - 1) by lia. apply HQ.
    + replace (80 * o + (a - 80 * o)) with a by lia. apply HQ.
  - apply wp_bind, wp_set_cell; [done | lia|]. apply wp_ret. apply (cga_finish _ (put_cell a (glyph c) t) o); simpl; [by rewrite length_insert | lia | | |].
    + intros i Hi. rewrite cell_lookup by (done || lia). unfold put_cell. replace (80 * o + i =? a) with (i =? a - 80 * o) by (destruct (Z.eqb_spec i (a - 80 * o)), (Z.eqb_spec (80 * o + i) a); lia).
      destruct (i =? _); [done | by apply Hc].
    + intros j Hj. unfold put_cell. rewrite (proj2 (Z.eqb_neq _ _)) by lia. by apply Hz.
    + intros s' Hw Hs. replace (80 * o + (a - 80 * o + 1)) with (a + 1) in Hw by lia. by apply HQ.
Qed.

(** What goes out on the serial line *)
Definition serial (uart : bool) (c : Z) : list event :=
  if negb uart then [] else if c =? BACKSPACE then [EPutc 8; EPutc 32; EPutc 8] else [EPutc (u8 c)].

Lemma wp_uartputc s c (Q : unit → cstate → list event → Prop) : Q () s (if uart s then [EPutc (u8 c)] else []) → wp (uartputc c) s Q.
Proof. intros HQ. unfold uartputc. apply wp_bind, wp_gets. destruct (uart s); [by apply wp_emit | by apply wp_ret]. Qed.

Lemma consputc_spec s p c (Q : unit → cstate → list event → Prop) :
  panicked s = false → window s p → (∀ s', window s' (aput p c) → same_input s s' → Q () s' (serial (uart s) c)) → wp (consputc c) s Q.
Proof.
  intros Hp Hw HQ. unfold consputc, serial in *. apply wp_bind, wp_gets. rewrite Hp. apply wp_bind.
  destruct (c =? BACKSPACE); [do 2 apply wp_bind, wp_uartputc|]; apply wp_uartputc, (cgaputc_spec s p); try done; by destruct (uart s).
Qed.

(** the screen shows what was printed. Whatever is sent to the console
    (characters, newlines and backspaces in any order), [consputc] never leaves
    the screen, so that its panic cannot happen; the first 24 rows of the screen
    are the rows of an endless page around the cursor, on which each character
    was written at the cursor; and scrolling by one row at a time, at the end of
    the last row, loses only the top row. The serial line gets the same bytes. *)
Theorem console_window cs : ∀ s p, panicked s = false → window s p →
  wp (for_each cs consputc) s (λ _ s' tr, window s' (foldl aput p cs) ∧ same_input s s' ∧ tr = concat (serial (uart s) <$> cs)).
Proof.
  induction cs as [|c cs IH]; intros s p Hp Hw; cbn [for_each]; [by apply wp_ret|].
  apply wp_bind, (consputc_spec s p); [done..|]. intros s1 Hw1 Hs1. pose proof Hs1 as (? & ? & Hu & ? & ? & ? & ?). eapply wp_mono; [apply (IH s1 (aput p c)); congruence || done|].
  intros _ s2 tr (Hw2 & (? & ? & ? & ? & ? & ? & ?) & ->). split; [done|]. split; [split_and!; congruence | by rewrite Hu].
Qed.

(** ** The line editor *)

(** [n] bytes of the ring buffer from index [from] on *)
Definition ring (b : list Z) (from : Z) (n : nat) : list Z := (λ k : nat, ring_at b (from + k)) <$> seq 0 n.

(** The bytes typed and not yet read: those before [input.w] are complete, the
    rest can be edited. *)
Definition typed (s : cstate) : list Z := ring (buf s) (r s) (Z.to_nat (u32 (e s - r s))).
Definition ready_len (s : cstate) : nat := Z.to_nat (u32 (w s - r s)).
Definition view (s : cstate) : list Z * list Z := (take (ready_len s) (typed s), drop (ready_len s) (typed s)).

Definition shape_ok (s : cstate) : Prop :=
  length (buf s) = Z.to_nat INPUT_BUF ∧ 0 ≤ r s < 2 ^ 32 ∧ 0 ≤ w s < 2 ^ 32 ∧ 0 ≤ e s < 2 ^ 32 ∧
  u32 (w s - r s) ≤ u32 (e s - r s) ≤ INPUT_BUF.
Definition input_ok (s : cstate) : Prop := shape_ok s ∧ 10 ∉ (view s).2.

(** A key, on the complete bytes and the line being edited *)
Definition akey (q : list Z * list Z) (c : Z) : list Z * list Z :=
  let '(done, line) := q in
  if c =? ctrl 80 then q
  else if c =? ctrl 85 then (done, [])
  else if (c =? ctrl 72) || (c =? 127) then (done, removelast line)
  else if negb (c =? 0) && (length done + length line <? INPUT_BUF) then
    let c := if c =? 13 then 10 else c in
    if (c =? 10) || (c =? ctrl 68) || (length done + length line + 1 =? INPUT_BUF) then (done ++ line ++ [c], [])
    else (done, line ++ [c])
  else q.

(** A read of [n] bytes from the complete ones: what it returns and what is left,
    or [None] when it waits for more with what it has read so far. *)
Fixpoint aread (n : nat) (dst q : list Z) : option (list Z * list Z) :=
  match n, q with
  | O, _ => Some (dst, q)
  | S _, [] => None
  | S n, c :: q' =>
      if c =? ctrl 68 then Some (dst, match dst with [] => q' | _ => q end)
      else if c =? 10 then Some (dst ++ [c], q')
      else aread n (dst ++ [c]) q'
  end.

Lemma length_ring b from n : length (ring b from n) = n.
Proof. unfold ring. by rewrite length_fmap, length_seq. Qed.

Lemma ring_at_u32 b i : ring_at b (u32 i) = ring_at b i.
Proof. unfold ring_at, u32, INPUT_BUF. rewrite Z.mod_mod_divide; [done|]. by exists (2 ^ 25). Qed.

Lemma ring_snoc b from n : ring b from (S n) = ring b from n ++ [ring_at b (from + n)].
Proof. unfold ring. by rewrite seq_S, fmap_app. Qed.

Lemma ring_cons b from n : ring b from (S n) = ring_at b from :: ring b (from + 1) n.
Proof. unfold ring. simpl. rewrite Z.add_0_r. f_equal. rewrite <- fmap_S_seq, <- list_fmap_compose. apply list_fmap_ext. intros i k _. simpl. f_equal. lia. Qed.

Lemma ring_u32 b from n : ring b (u32 from) n = ring b from n.
Proof.
  unfold ring. apply list_fmap_ext. intros i k _. rewrite <- (ring_at_u32 b (u32 from + k)), <- (ring_at_u32 b (from + k)). f_equal.
  unfold u32. by rewrite Zplus_mod_idemp_l.
Qed.

Lemma ring_insert b from n i v : (n < 128)%nat → i mod INPUT_BUF = (from + n) mod INPUT_BUF →
  ring (<[Z.to_nat (i mod INPUT_BUF) := v]> b) from n = ring b from n.
Proof.
  intros Hn Hi. unfold ring. apply list_fmap_ext. intros j k Hk%lookup_seq. unfold ring_at. rewrite list_lookup_insert_ne; [done|].
  rewrite Hi. unfold INPUT_BUF. Z.div_mod_to_equations. lia.
Qed.

(** The free-running indices *)
Ltac u32_lia := unfold u32 in *; change (2 ^ 32) with 4294967296 in *; Z.div_mod_to_equations; lia.

Lemma diff_succ x y : u32 (x - y) < 2 ^ 32 - 1 → u32 (u32 (x + 1) - y) = u32 (x - y) + 1.
Proof. intros H. u32_lia. Qed.
Lemma diff_pred x y : 0 < u32 (x - y) → u32 (u32 (x - 1) - y) = u32 (x - y) - 1.
Proof. intros H. u32_lia. Qed.
Lemma diff_succ_r x y : 0 < u32 (x - y) → u32 (x - u32 (y + 1)) = u32 (x - y) - 1.
Proof. intros H. u32_lia. Qed.
Lemma diff_eq x y z : 0 ≤ x < 2 ^ 32 → 0 ≤ y < 2 ^ 32 → u32 (x - z) = u32 (y - z) → x = y.
Proof. intros Hx Hy H. u32_lia. Qed.

Lemma same_view s s' : same_input s s' → view s' = view s ∧ (shape_ok s → shape_ok s').
Proof.
  intros (_ & _ & _ & Hb & Hr & Hw & He). unfold shape_ok, view, ready_len, typed. by rewrite Hb, Hr, Hw, He.
Qed.

(** Taking back the last byte of the line *)
Lemma view_back s : shape_ok s → e s ≠ w s →
  let s' := set_e (u32 (e s - 1)) s in
  shape_ok s' ∧ (view s').1 = (view s).1 ∧ (view s).2 = (view s').2 ++ [buf_at (u32 (e s - 1)) s].
Proof.
  intros (Hl & Hr & Hw & He & Hwe & Hen) Hne s'. assert (u32 (w s - r s) ≠ u32 (e s - r s)) as Hd by (intros H; by apply Hne, (diff_eq _ _ (r s))).
  pose proof (u32_range (w s - r s)). pose proof (diff_pred (e s) (r s) ltac:(lia)) as Hp. split; [unfold s', shape_ok; simpl; rewrite Hp; pose proof (u32_range (e s - 1)); lia|].
  unfold view, typed, ready_len, s', buf_at. simpl. rewrite Hp. replace (Z.to_nat (u32 (e s - r s))) with (S (Z.to_nat (u32 (e s - r s) - 1))) by lia. rewrite ring_snoc.
  set (n := Z.to_nat _) in *. rewrite take_app_le, drop_app_le by (rewrite length_ring; lia). split; [done|]. do 2 f_equal.
  rewrite <- (ring_at_u32 _ (r s + _)). f_equal. unfold n. rewrite Z2Nat.id by lia. clear -He Hr. u32_lia.
Qed.

(** Adding a byte *)
Lemma view_push s c : shape_ok s → u32 (e s - r s) < INPUT_BUF →
  let s' := set_e (u32 (e s + 1)) (set_buf (<[Z.to_nat (e s mod INPUT_BUF) := c]> (buf s)) s) in
  shape_ok s' ∧ view s' = ((view s).1, (view s).2 ++ [c]) ∧ u32 (e s' - r s') = u32 (e s - r s) + 1.
Proof.
  intros (Hl & Hr & Hw & He & Hwe & Hen) Hlt s'. unfold INPUT_BUF in *. pose proof (u32_range (w s - r s)). pose proof (diff_succ (e s) (r s) ltac:(lia)) as Hp.
  split; [unfold s', shape_ok; simpl; rewrite Hp, length_insert; pose proof (u32_range (e s + 1)); unfold INPUT_BUF; lia|]. split; [|done].
  assert (e s mod INPUT_BUF = (r s + Z.to_nat (u32 (e s - r s))) mod INPUT_BUF) as Hi.
  { rewrite Z2Nat.id by lia. unfold INPUT_BUF. clear -He Hr. u32_lia. }
  unfold view, typed, ready_len, s'. simpl. rewrite Hp. replace (Z.to_nat (u32 (e s - r s) + 1)) with (S (Z.to_nat (u32 (e s - r s)))) by lia. rewrite ring_snoc, ring_insert by (done || lia).
  rewrite take_app_le, drop_app_le by (rewrite length_ring; lia). do 3 f_equal. unfold ring_at. rewrite <- Hi. fold INPUT_BUF in *. rewrite list_lookup_insert_eq; [done|]. rewrite Hl. pose proof (Z.mod_pos_bound (e s) 128). unfold INPUT_BUF. lia.
Qed.

(** Completing the line *)
Lemma view_commit s : shape_ok s → let s' := set_w (e s) s in input_ok s' ∧ view s' = ((view s).1 ++ (view s).2, []).
Proof.
  intros (Hl & Hr & Hw & He & Hwe & Hen) s'. assert (view s' = ((view s).1 ++ (view s).2, [])) as Hv.
  { unfold view, typed, ready_len, s'. simpl. rewrite take_drop, take_ge, drop_ge by (rewrite length_ring; lia). done. }
  split; [|done]. split; [unfold s', shape_ok; simpl; lia|]. rewrite Hv. simpl. apply not_elem_of_nil.
Qed.

Lemma view_lengths s : shape_ok s → Z.of_nat (length (view s).1) + Z.of_nat (length (view s).2) = u32 (e s - r s).
Proof.
  intros (_ & _ & _ & _ & Hwe & _). unfold view, typed. simpl. rewrite length_take, length_drop, length_ring. unfold ready_len. pose proof (u32_range (w s - r s)). lia.
Qed.

(** The console in use: not frozen, its screen a window, its input well formed *)
Definition live (s : cstate) : Prop := panicked s = false ∧ (∃ p, window s p) ∧ input_ok s.

Lemma backspace_spec s (Q : unit → cstate → list event → Prop) :
  live s → e s ≠ w s → (∀ s' tr, live s' → view s' = ((view s).1, removelast (view s).2) → Q () s' tr) →
  wp (consputc BACKSPACE) (set_e (u32 (e s - 1)) s) Q.
Proof.
  intros (Hp & (p & Hw) & Hs & Hn) Hne HQ. destruct (view_back s Hs Hne) as (Hs1 & Hv1 & Hv2). apply (consputc_spec _ p); [done..|]. intros s2 Hw2 H2.
  destruct (same_view _ _ H2) as [Hv Hs2]. destruct H2 as (_ & Hp2 & _). apply HQ.
  - split; [by rewrite Hp2|]. split; [eauto|]. split; [by apply Hs2|]. rewrite Hv. intros Hin. apply Hn. rewrite Hv2. apply elem_of_app. by left.
  - rewrite Hv, Hv2, removelast_last, <- Hv1. by destruct (view _).
Qed.

Lemma line_nil s : shape_ok s → e s = w s → (view s).2 = [].
Proof. intros Hs He. unfold view, typed, ready_len. simpl. rewrite He. apply drop_ge. by rewrite length_ring. Qed.

Lemma kill_line_spec fuel : ∀ s (Q : unit → cstate → list event → Prop),
  live s → (length (view s).2 ≤ fuel)%nat → (∀ s' tr, live s' → view s' = ((view s).1, []) → Q () s' tr) → wp (kill_line fuel) s Q.
Proof.
  induction fuel as [|f IH]; intros s Q Hl Hf HQ; pose proof Hl as (_ & _ & Hs & Hn); cbn [kill_line]; apply wp_bind, wp_get_state.
  all: destruct (Z.eqb_spec (e s) (w s)) as [He|He]; simpl;
    [apply wp_ret, HQ; [done|]; rewrite <- (line_nil s Hs He); by destruct (view s)|].
  all: destruct (view_back s Hs He) as (_ & _ & Hv).
  - rewrite Hv, length_app in Hf. simpl in Hf. lia.
  - rewrite (proj2 (Z.eqb_neq _ 10)); [|intros E; apply Hn; rewrite Hv, E; apply elem_of_app; right; by apply list_elem_of_singleton]. simpl.
    apply wp_bind, wp_modify, wp_bind, backspace_spec; [done..|]. intros s1 tr1 Hl1 Hv1. apply IH; [done | rewrite Hv1, Hv, removelast_last; rewrite Hv, length_app in Hf; simpl in *; lia|].
    intros s2 tr2 Hl2 Hv2. apply HQ; [done|]. by rewrite Hv2, Hv1.
Qed.

Lemma push_spec s c (Q : unit → cstate → list event → Prop) :
  live s → 0 ≤ c < 256 → u32 (e s - r s) < INPUT_BUF →
  (∀ s' tr, live s' → view s' = (if (c =? 10) || (c =? ctrl 68) || (u32 (e s - r s) + 1 =? INPUT_BUF) then ((view s).1 ++ (view s).2 ++ [c], []) else ((view s).1, (view s).2 ++ [c])) → Q () s' tr) →
  wp (modify (λ s, set_e (u32 (e s + 1)) (set_buf (<[Z.to_nat (e s mod INPUT_BUF) := u8 c]> (buf s)) s)) ;;
      consputc c ;;
      s ← get_state ;
      when ((c =? 10) || (c =? ctrl 68) || (e s =? u32 (r s + INPUT_BUF))) (modify (set_w (e s)) ;; wakeup Ch_input)) s Q.
Proof.
  intros (Hp & (p & Hw) & Hs & Hn) Hc Hlt HQ. replace (u8 c) with c by (unfold u8; symmetry; by apply Z.mod_small). destruct (view_push s c Hs Hlt) as (Hs1 & Hv1 & He1).
  set (s1 := set_e _ _) in *. apply wp_bind, wp_modify. fold s1. apply wp_bind, (consputc_spec s1 p); [done..|]. intros s2 Hw2 H2. destruct (same_view _ _ H2) as [Hv Hs2]. destruct H2 as (_ & Hp2 & _ & _ & Hr2 & _ & He2).
  specialize (Hs2 Hs1). apply wp_bind, wp_get_state. replace (e s2 =? u32 (r s2 + INPUT_BUF)) with (u32 (e s - r s) + 1 =? INPUT_BUF).
  2: { rewrite He2, Hr2, <- He1. destruct Hs1 as (_ & Hr1 & _ & He1' & _). clear -Hr1 He1'. unfold INPUT_BUF; destruct (Z.eqb_spec (u32 (e s1 - r s1)) 128), (Z.eqb_spec (e s1) (u32 (r s1 + 128))); try done; exfalso; u32_lia. }
  destruct (_ || _) eqn:Ht; simpl when.
  - apply wp_bind, wp_modify. apply wp_emit. destruct (view_commit s2 Hs2) as [Hok Hvc]. apply HQ; [split; [by simpl; rewrite Hp2|]; split; [by exists (aput p c)|done]|]. rewrite Hvc, Hv, Hv1. by simpl.
  - apply wp_ret. apply HQ; [|by rewrite Hv]. split; [by rewrite Hp2|]. split; [eauto|]. split; [done|]. rewrite Hv, Hv1. simpl. rewrite not_elem_of_app, list_elem_of_singleton. split; [done|]. intros <-. done.
Qed.

Lemma key_spec s c (Q : bool → cstate → list event → Prop) :
  live s → 0 ≤ c < 256 → (∀ s' tr, live s' → view s' = akey (view s) c → Q (c =? ctrl 80) s' tr) → wp (key c) s Q.
Proof.
  intros Hl Hc HQ. pose proof Hl as (_ & _ & Hs & _). pose proof (view_lengths s Hs) as Hlen. unfold akey in HQ. destruct (view s) as [l1 l2] eqn:Hv. simpl in Hlen. unfold key.
  destruct (c =? ctrl 80); [by apply wp_ret, HQ|]. destruct (c =? ctrl 85).
  - apply wp_bind, kill_line_spec; [done | rewrite Hv; simpl; destruct Hs as (_ & _ & _ & _ & _ & ?); unfold INPUT_BUF in *; lia|]. intros s' tr Hl' Hv'. apply wp_ret, HQ; [done|]. by rewrite Hv', Hv.
  - destruct (_ || _).
    + apply wp_bind, wp_get_state, wp_bind. destruct (Z.eqb_spec (e s) (w s)) as [He|He]; simpl.
      * apply wp_ret, wp_ret, HQ; [done|]. pose proof (line_nil s Hs He) as Hnil. rewrite Hv in *. simpl in Hnil. by subst.
      * apply wp_bind, wp_modify, backspace_spec; [done..|]. intros s' tr Hl' Hv'. apply wp_ret, HQ; [done|]. by rewrite Hv', Hv.
    + rewrite Hlen in HQ. apply wp_bind, wp_get_state, wp_bind. destruct (_ && _) eqn:Ht; simpl when; [|by apply wp_ret, wp_ret, HQ].
      apply andb_true_iff in Ht as [_ Hlt%Z.ltb_lt]. apply push_spec; [done | by destruct (c =? 13) | done|]. intros s' tr Hl' Hv'. apply wp_ret, HQ; [done|]. by rewrite Hv', Hv.
Qed.

Lemma keys_spec cs : ∀ d s, live s → Forall (λ c, 0 ≤ c < 256) cs →
  wp (keys cs d) s (λ d' s' _, live s' ∧ view s' = foldl akey (view s) cs ∧ d' = d || existsb (Z.eqb (ctrl 80)) cs).
Proof.
  induction cs as [|c cs IH]; intros d s Hl Hcs; cbn [keys]; [apply wp_ret; rewrite orb_false_r; done|]. apply Forall_cons in Hcs as [Hc Hcs].
  apply wp_bind, key_spec; [done..|]. intros s1 tr1 Hl1 Hv1. eapply wp_mono; [by apply IH|]. intros d' s2 tr2 (Hl2 & Hv2 & ->). split; [done|]. split; [by rewrite Hv2, Hv1|].
  cbn [existsb]. rewrite (Z.eqb_sym c). by destruct (ctrl 80 =? c), d.
Qed.

(** The first complete byte *)
Lemma view_pop s : shape_ok s → r s ≠ w s →
  let s' := set_r (u32 (r s + 1)) s in
  shape_ok s' ∧ view s = (buf_at (r s) s :: (view s').1, (view s').2) ∧ u32 (r s' - 1) = r s.
Proof.
  intros (Hl & Hr & Hw & He & Hwe & Hen) Hne s'. assert (0 < u32 (w s - r s)) as Hd by (clear -Hr Hw Hne; u32_lia).
  pose proof (diff_succ_r (w s) (r s) Hd) as Hpw. pose proof (diff_succ_r (e s) (r s) ltac:(lia)) as Hpe.
  split; [unfold s', shape_ok; simpl; rewrite Hpw, Hpe; pose proof (u32_range (r s + 1)); lia|]. split; [|unfold s'; simpl; clear -Hr; u32_lia].
  unfold view, typed, ready_len, s', buf_at. simpl. rewrite Hpw, Hpe, ring_u32.
  replace (Z.to_nat (u32 (w s - r s))) with (S (Z.to_nat (u32 (w s - r s) - 1))) by lia. replace (Z.to_nat (u32 (e s - r s))) with (S (Z.to_nat (u32 (e s - r s) - 1))) by lia.
  rewrite ring_cons. done.
Qed.

Lemma ready_nil s : r s = w s → (view s).1 = [].
Proof. intros E. unfold view, ready_len. simpl. by rewrite E, Z.sub_diag. Qed.
Lemma ready_cons s : shape_ok s → r s ≠ w s → (view s).1 ≠ [].
Proof. intros Hs Hne. by rewrite (proj1 (proj2 (view_pop s Hs Hne))). Qed.

(** A pass of [consoleread] is [aread] on the complete bytes; it leaves the line
    being edited alone, and waits only when it has taken them all. *)
Lemma read_pass_spec n : ∀ dst s, input_ok s →
  match aread n dst (view s).1 with
  | Some (out, q) => ∃ s', read_pass 0 n dst s = Done (Z.of_nat (length out), out) s' [ERelease Lcons] ∧ input_ok s' ∧ view s' = (q, (view s).2)
  | None => ∃ m s' dst', read_pass 0 n dst s = Wait Ch_input (S m, dst') s' [ECli] ∧ input_ok s' ∧ view s' = ([], (view s).2) ∧ dst' = dst ++ (view s).1 ∧ (S m + length (view s).1 = n)%nat
  end.
Proof.
  induction n as [|n IH]; intros dst s Hok; cbn [read_pass].
  - cbn [aread]. exists s. split; [done|]. split; [done|]. by destruct (view s).
  - pose proof Hok as [Hs Hn]. destruct (Z.eqb_spec (r s) (w s)) as [E|E].
    + pose proof (ready_nil s E) as Hnil. rewrite Hnil. cbn [aread]. exists n, s, dst. rewrite app_nil_r, <- Hnil. split; [done|]. split; [done|]. split; [by destruct (view s)|]. rewrite Hnil. split; [done | simpl; lia].
    + destruct (view_pop s Hs E) as (Hs1 & Hv & Hr). set (s1 := set_r (u32 (r s + 1)) s) in *. rewrite Hv. cbn [fst snd aread].
      assert (input_ok s1) as Hok1 by (split; [done|]; by rewrite Hv in Hn). destruct (buf_at (r s) s =? ctrl 68); [|destruct (buf_at (r s) s =? 10)].
      * destruct dst as [|d dst]; [exists s1; split; [done|]; split; [done|]; by destruct (view s1)|]. assert (set_r (u32 (r s1 - 1)) s1 = s) as -> by (rewrite Hr; by destruct s). by exists s.
      * exists s1. split; [done|]. split; [done|]. by destruct (view s1).
      * specialize (IH (dst ++ [buf_at (r s) s]) s1 Hok1). destruct (aread _ _ _) as [[out q]|]; [done|]. destruct IH as (m & s' & dst' & Hrp & Hok' & Hv' & -> & Hm).
        exists m, s'. eexists. rewrite <- app_assoc in Hrp. split; [exact Hrp|]. split; [done|]. split; [done|]. split; [done|]. cbn [length]. lia.
Qed.

(** C24: the console is a line editor in front of a queue. Whatever keys arrive
    (in one interrupt, at most 128 bytes being kept), [consoleintr] does what the
    editor does on plain lists: a key is added to the line, backspace takes the
    last one back and Control-U the whole line, never more than that; a newline,
    Control-D or a full buffer hands the line over to readers. A read that
    follows gets exactly the bytes handed over, up to a newline or a Control-D (of
    which it takes a leading one as end of file and leaves any other), and waits
    only when it has taken all of them. *)
Theorem console_line_editor s cs n : live s → Forall (λ c, 0 ≤ c < 256) cs →
  let q := foldl akey (view s) cs in
  wp (consoleintr (mret ()) cs) s (λ _ s1 _, live s1 ∧ view s1 = q ∧
    match aread n [] q.1 with
    | Some (out, rest) => ∃ s2, read_pass 0 n [] s1 = Done (Z.of_nat (length out), out) s2 [ERelease Lcons] ∧ input_ok s2 ∧ view s2 = (rest, q.2)
    | None => ∃ m s2, read_pass 0 n [] s1 = Wait Ch_input (S m, q.1) s2 [ECli] ∧ input_ok s2 ∧ view s2 = ([], q.2) ∧ (S m + length q.1 = n)%nat
    end).
Proof.
  intros Hl Hcs q. unfold consoleintr. apply wp_bind, wp_emit, wp_bind. eapply wp_mono; [by apply keys_spec|]. intros d s1 tr (Hl1 & Hv1 & _). fold q in Hv1. apply wp_bind, wp_emit.
  destruct Hl1 as (Hp & Hw & Hok). pose proof (read_pass_spec n [] s1 Hok) as Hrd. rewrite Hv1 in Hrd. destruct d; apply wp_ret; (split; [done|]; split; [done|]); destruct (aread _ _ _) as [[out rest]|]; naive_solver.
Qed.

Lemma cprintf_is_printf_witness : shared (bytes "%d%%%s%") = true ∧ cprintf_loop (bytes "%d%%%s%") [Ulib.Int (- 7); Ulib.Str None] = Ulib.printf (bytes "%d%%%s%") [Ulib.Int (- 7); Ulib.Str None] ∧
  Ulib.printf (bytes "%d%%%s%") [Ulib.Int (- 7); Ulib.Str None] = Some (bytes "-7%(null)").
Proof. split; [done|]. split; [by apply (cprintf_is_printf (bytes "%d%%%s%"))|]. by vm_compute. Defined.

(** ** The console after a clear screen *)

Definition fresh : cstate := mk_cstate true false true (replicate 2000 0) 0 (replicate 128 0) 0 0 0.

Lemma fresh_window : window fresh (mk_page (λ _, 0) 0 0).
Proof. split; [done|]. split; [done|]. split; [simpl; lia|]. split; [|done]. intros i Hi. apply lookup_replicate_2. lia. Qed.

Lemma fresh_live : live fresh.
Proof. split; [done|]. split; [exists (mk_page (λ _, 0) 0 0); apply fresh_window|]. split; [vm_compute; naive_solver|]. by apply (bool_decide_unpack _); vm_compute. Qed.

Lemma console_window_witness :
  wp (for_each (bytes "ok") consputc) fresh (λ _ s' tr, window s' (foldl aput (mk_page (λ _, 0) 0 0) (bytes "ok")) ∧ same_input fresh s' ∧ tr = concat (serial (uart fresh) <$> bytes "ok")).
Proof. apply (console_window (bytes "ok") fresh (mk_page (λ _, 0) 0 0)); [done | apply fresh_window]. Defined.

(** "lz", backspace, "s", return; then a read of 10 bytes gets "ls" and a newline. *)
Lemma console_line_editor_witness :
  aread 10 [] (foldl akey (view fresh) [108; 122; 8; 115; 13]).1 = Some ([108; 115; 10], []) ∧
  wp (consoleintr (mret ()) [108; 122; 8; 115; 13]) fresh (λ _ s1 _, live s1).
Proof.
  split; [by vm_compute|]. eapply wp_mono; [apply (console_line_editor fresh [108; 122; 8; 115; 13] 10); [apply fresh_live | repeat constructor; lia]|].
  intros ??? (Hl & _). exact Hl.
Defined.

End Console.
