(* ===== verification/Kbd.v ===== *)
(** * kbd.c: the keyboard

    [kbdgetc] turns the scan codes of the keyboard controller into characters
    and keeps track of the modifier keys. The tables are those of kbd.h. *)

From S2P Require Import Prelude Console.

Module Kbd.

(** ** kbd.h *)

Definition KBS_DIB : Z := 1.
Definition NO : Z := 0.
Definition SHIFT : Z := Z.shiftl 1 0.
Definition CTL : Z := Z.shiftl 1 1.
Definition ALT : Z := Z.shiftl 1 2.
Definition CAPSLOCK : Z := Z.shiftl 1 3.
Definition NUMLOCK : Z := Z.shiftl 1 4.
Definition SCROLLLOCK : Z := Z.shiftl 1 5.
Definition E0ESC : Z := Z.shiftl 1 6.

Definition KEY_HOME : Z := 0xE0.
Definition KEY_END : Z := 0xE1.
Definition KEY_UP : Z := 0xE2.
Definition KEY_DN : Z := 0xE3.
Definition KEY_LF : Z := 0xE4.
Definition KEY_RT : Z := 0xE5.
Definition KEY_PGUP : Z := 0xE6.
Definition KEY_PGDN : Z := 0xE7.
Definition KEY_INS : Z := 0xE8.
Definition KEY_DEL : Z := 0xE9.

(** An array of 256 [uchar]s with the initialisers [l] from 0 on, and those at the
    given places. *)
Definition table (l : list Z) (at_ : list (nat * Z)) : list Z :=
  u8 <$> foldl (λ t e, <[e.1 := e.2]> t) (take 256 (l ++ replicate 256 NO)) at_.

Definition shiftcode : list Z :=
  table [] [(0x1D, CTL); (0x2A, SHIFT); (0x36, SHIFT); (0x38, ALT); (0x9D, CTL); (0xB8, ALT)]%nat.
Definition togglecode : list Z := table [] [(0x3A, CAPSLOCK); (0x45, NUMLOCK); (0x46, SCROLLLOCK)]%nat.

(** The keys behind an E0 escape, the same in all maps *)
Definition special : list (nat * Z) :=
  [(0xC8, KEY_UP); (0xD0, KEY_DN); (0xC9, KEY_PGUP); (0xD1, KEY_PGDN); (0xCB, KEY_LF); (0xCD, KEY_RT);
   (0x97, KEY_HOME); (0xCF, KEY_END); (0xD2, KEY_INS); (0xD3, KEY_DEL)]%nat.

Definition ch (c : string) : Z := nth 0 (bytes c) 0.
Definition BS : Z := 8.
Definition TAB : Z := 9.
Definition NL : Z := 10.
Definition CR : Z := 13.
Definition ESC : Z := 0x1B.
Definition DQUOTE : Z := 34.

(** The keypad, the same in [normalmap] and [shiftmap] *)
Definition keypad : list Z := bytes "789-456+1230." ++ [NO; NO; NO; NO].

Definition normalmap : list Z :=
  table
    ([NO; ESC] ++ bytes "1234567890-=" ++ [BS; TAB] ++
     bytes "qwertyuiop[]" ++ [NL; NO] ++ bytes "asdfghjkl;'`" ++ [NO] ++ bytes "\zxcvbnm,./" ++ [NO] ++ bytes "*" ++
     [NO] ++ bytes " " ++ replicate 13 NO ++ keypad)
    ([(0x9C, NL); (0xB5, ch "/")]%nat ++ special).

Definition shiftmap : list Z :=
  table
    ([NO; ESC] ++ bytes "!@#$%^&*()_+" ++ [BS; TAB] ++
     bytes "QWERTYUIOP{}" ++ [NL; NO] ++ bytes "ASDFGHJKL:" ++ [DQUOTE] ++ bytes "~" ++ [NO] ++ bytes "|ZXCVBNM<>?" ++ [NO] ++ bytes "*" ++
     [NO] ++ bytes " " ++ replicate 13 NO ++ keypad)
    ([(0x9C, NL); (0xB5, ch "/")]%nat ++ special).

(** [C(x)] *)
Definition C (c : Z) : Z := c - ch "@".

Definition ctlmap : list Z :=
  table
    (replicate 16 NO ++ (C <$> bytes "QWERTYUIOP") ++ [NO; NO; CR; NO] ++ (C <$> bytes "ASDFGHJKL") ++ [NO; NO; NO; NO] ++
     (C <$> bytes "\ZXCVBNM") ++ [NO; NO; C (ch "/"); NO; NO])
    ([(0x9C, CR); (0xB5, C (ch "/"))]%nat ++ special).

(** ** kbd.c *)

Definition at_ (t : list Z) (k : Z) : Z := nth (Z.to_nat k) t 0.

(** [charcode[shift & (CTL | SHIFT)]] *)
Definition charcode (m : Z) : list Z := nth (Z.to_nat m) [normalmap; shiftmap; ctlmap; ctlmap] [].

(** The part after a key press has been recognised *)
Definition press (shift data : Z) : Z * Z :=
  let shift := Z.lor shift (at_ shiftcode data) in
  let shift := Z.lxor shift (at_ togglecode data) in
  let c := at_ (charcode (Z.land shift (Z.lor CTL SHIFT))) data in
  let c :=
    if truth (Z.land shift CAPSLOCK) then
      if (ch "a" <=? c) && (c <=? ch "z") then u32 (c + (ch "A" - ch "a"))
      else if (ch "A" <=? c) && (c <=? ch "Z") then u32 (c + (ch "a" - ch "A"))
      else c
    else c in
  (c, shift).

(** [kbdgetc] with the byte the controller holds, if there is one: the result, and [shift] *)
Definition kbdgetc (held : option Z) (shift : Z) : Z * Z :=
  match held with
  | None => (-1, shift)
  | Some data =>
      if data =? 0xE0 then (0, Z.lor shift E0ESC)
      else if truth (Z.land data 0x80) then
        let data := if truth (Z.land shift E0ESC) then data else Z.land data 0x7F in
        (0, Z.land shift (Z.lnot (Z.lor (at_ shiftcode data) E0ESC)))
      else if truth (Z.land shift E0ESC) then
        press (Z.land shift (Z.lnot E0ESC)) (Z.lor data 0x80)
      else press shift data
  end.

(** What [kbdgetc] returns, byte after byte, until there is none *)
Fixpoint getcs (codes : list Z) (shift : Z) : list Z * Z :=
  match codes with
  | [] => ([], shift)
  | data :: codes =>
      let '(c, shift) := kbdgetc (Some data) shift in
      let '(cs, shift) := getcs codes shift in (c :: cs, shift)
  end.

(** [kbdintr] with the bytes [codes] in the controller. *)
Definition kbdintr (procdump : M Console.cstate unit) (codes : list Z) (shift : Z) : M Console.cstate Z :=
  let '(cs, shift) := getcs codes shift in
  Console.consoleintr procdump cs ;; mret shift.

(** ** What has been typed *)

Inductive key_event := Down (k : Z) | Up (k : Z).

(** The event a byte stands for, behind an escape or not; the escape itself is none. *)
Definition decode (esc : bool) (data : Z) : list key_event :=
  if data =? 0xE0 then []
  else if truth (Z.land data 0x80) then [Up (if esc then data else Z.land data 0x7F)]
  else [Down (if esc then Z.lor data 0x80 else data)].

(** The bytes end in an escape. *)
Definition escaped (codes : list Z) : bool := match last codes with Some d => d =? 0xE0 | None => false end.

Fixpoint events_from (esc : bool) (codes : list Z) : list key_event :=
  match codes with
  | [] => []
  | data :: codes => decode esc data ++ events_from (data =? 0xE0) codes
  end.
Definition events (codes : list Z) : list key_event := events_from false codes.

Definition hold (m : Z) (b : bool) (e : key_event) : bool :=
  match e with
  | Down k => b || Z.testbit (at_ shiftcode k) m
  | Up k => b && negb (Z.testbit (at_ shiftcode k) m)
  end.
Definition flip (m : Z) (b : bool) (e : key_event) : bool :=
  match e with Down k => xorb b (Z.testbit (at_ togglecode k) m) | Up _ => b end.

(** The last event of the keys of modifier [m] is a press. *)
Definition held (m : Z) (evs : list key_event) : bool :=
  foldl (hold m) false evs.

(** The keys of lock [m] have been pressed an odd number of times. *)
Definition locked (m : Z) (evs : list key_event) : bool :=
  foldl (flip m) false evs.

Definition typed (codes : list Z) : Z := (getcs codes 0).2.

(** ** Bits *)

Lemma at_bits t (P : Z → bool) k : forallb P t = true → P 0 = true → P (at_ t k) = true.
Proof.
  intros Ht H0. unfold at_. rewrite nth_lookup. destruct (t !! Z.to_nat k) as [x|] eqn:Hx; [|done]. simpl.
  rewrite forallb_forall in Ht. apply Ht, list_elem_of_In. by eapply list_elem_of_lookup_2.
Qed.

Lemma shiftcode_small k : 0 ≤ at_ shiftcode k < 8.
Proof.
  pose proof (at_bits shiftcode (λ x, (0 <=? x) && (x <? 8)) k eq_refl eq_refl) as [H1%Z.leb_le H2%Z.ltb_lt]%andb_true_iff. done.
Qed.

Lemma togglecode_bits k : 0 ≤ at_ togglecode k < 64 ∧ at_ togglecode k mod 8 = 0.
Proof.
  pose proof (at_bits togglecode (λ x, (0 <=? x) && (x <? 64) && (x mod 8 =? 0)) k eq_refl eq_refl)
    as [[H1%Z.leb_le H2%Z.ltb_lt]%andb_true_iff H3%Z.eqb_eq]%andb_true_iff. done.
Qed.

Lemma testbit_high x n m : 0 ≤ x < 2 ^ n → 0 ≤ n ≤ m → Z.testbit x m = false.
Proof. intros Hx Hm. rewrite Z.testbit_false by lia. rewrite Z.div_small; [done|]. split; [lia|]. eapply Z.lt_le_trans; [apply Hx|]. apply Z.pow_le_mono_r; lia. Qed.

Lemma shiftcode_bit k m : 3 ≤ m → Z.testbit (at_ shiftcode k) m = false.
Proof. intros Hm. apply (testbit_high _ 3); [apply shiftcode_small | lia]. Qed.

Lemma togglecode_low k m : 0 ≤ m < 3 → Z.testbit (at_ togglecode k) m = false.
Proof.
  intros Hm. destruct (togglecode_bits k) as [_ H]. change 8 with (2 ^ 3) in H. rewrite <- (Z.mod_pow2_bits_low _ 3 m) by lia. by rewrite H, Z.bits_0.
Qed.

Lemma togglecode_high k m : 6 ≤ m → Z.testbit (at_ togglecode k) m = false.
Proof. intros Hm. apply (testbit_high _ 6); [apply togglecode_bits | lia]. Qed.

Lemma bits_small x n : 0 ≤ n → (∀ m, n ≤ m → Z.testbit x m = false) → 0 ≤ x < 2 ^ n.
Proof.
  intros Hn Hb. assert (0 ≤ x) by (apply Z.bits_iff_nonneg_ex; exists n; intros; apply Hb; lia). split; [done|].
  destruct (decide (x < 2 ^ n)) as [|Hge]; [done|]. exfalso. assert (0 < x) by lia. assert (n ≤ Z.log2 x) by (apply Z.log2_le_pow2; lia).
  pose proof (Z.bit_log2 x ltac:(done)) as Ht. by rewrite Hb in Ht.
Qed.

(** The bits of [shift] after one byte. *)
Definition bits_after (shift data : Z) (m : Z) : bool :=
  let evs := decode (Z.testbit shift 6) data in
  if m <? 3 then foldl (hold m) (Z.testbit shift m) evs
  else if m <? 6 then foldl (flip m) (Z.testbit shift m) evs
  else (m =? 6) && (data =? 0xE0).

Lemma press_bits shift k m : 0 ≤ m → Z.testbit (press shift k).2 m =
  if m <? 3 then hold m (Z.testbit shift m) (Down k) else if m <? 6 then flip m (Z.testbit shift m) (Down k) else Z.testbit shift m.
Proof.
  intros Hm. unfold press. cbn [snd]. rewrite Z.lxor_spec, Z.lor_spec. destruct (Z.ltb_spec m 3); [|destruct (Z.ltb_spec m 6)].
  - by rewrite togglecode_low, xorb_false_r by lia.
  - by rewrite shiftcode_bit, orb_false_r by lia.
  - by rewrite shiftcode_bit, togglecode_high, orb_false_r, xorb_false_r by lia.
Qed.

Lemma kbdgetc_bits shift data m : 0 ≤ shift < 128 → 0 ≤ m → Z.testbit (kbdgetc (Some data) shift).2 m = bits_after shift data m.
Proof.
  intros Hs Hm. assert (7 ≤ m → Z.testbit shift m = false) as Hhi by (intros; apply (testbit_high _ 7); [done | lia]).
  unfold kbdgetc, bits_after, decode. change E0ESC with (Z.shiftl 1 6). rewrite truth_land_bit by lia. destruct (Z.eqb_spec data 0xE0) as [|Hne]; [|destruct (truth (Z.land data 0x80))].
  - cbn [snd foldl]. rewrite testbit_lor_bit by lia. destruct (Z.ltb_spec m 3); [|destruct (Z.ltb_spec m 6)].
    1-2: rewrite bool_decide_eq_false_2 by lia; by rewrite orb_false_r.
    destruct (Z.eqb_spec m 6); [by rewrite bool_decide_eq_true_2, orb_true_r | by rewrite bool_decide_eq_false_2, orb_false_r, Hhi by lia].
  - cbn [snd foldl hold flip]. rewrite Z.land_spec, Z.lnot_spec, Z.lor_spec, testbit_one by lia. destruct (Z.ltb_spec m 3); [|destruct (Z.ltb_spec m 6)].
    + by rewrite (bool_decide_eq_false_2 (m = 6)), orb_false_r by lia.
    + rewrite shiftcode_bit, bool_decide_eq_false_2 by lia. apply andb_true_r.
    + rewrite andb_false_r. destruct (decide (m = 6)) as [->|]; [|by rewrite Hhi by lia]. by rewrite bool_decide_eq_true_2, orb_true_r, andb_false_r.
  - destruct (Z.testbit shift 6) eqn:H6; rewrite press_bits by done.
    + assert (m < 6 → Z.testbit (Z.land shift (Z.lnot (Z.shiftl 1 6))) m = Z.testbit shift m) as Hlow.
      { intros. rewrite Z.land_spec, Z.lnot_spec, testbit_one, bool_decide_eq_false_2 by lia. apply andb_true_r. }
      destruct (Z.ltb_spec m 3); [|destruct (Z.ltb_spec m 6)]; [by rewrite Hlow by lia | by rewrite Hlow by lia |].
      rewrite andb_false_r, Z.land_spec, Z.lnot_spec, testbit_one by lia. destruct (decide (m = 6)) as [->|]; [by rewrite bool_decide_eq_true_2, andb_false_r | by rewrite Hhi by lia].
    + destruct (Z.ltb_spec m 3); [done|]. destruct (Z.ltb_spec m 6); [done|]. rewrite andb_false_r. destruct (decide (m = 6)) as [->|]; [done | by apply Hhi; lia].
Qed.

Lemma kbdgetc_range shift data : 0 ≤ shift < 128 → 0 ≤ (kbdgetc (Some data) shift).2 < 128.
Proof.
  intros Hs. apply (bits_small _ 7); [lia|]. intros m Hm. rewrite kbdgetc_bits by lia. unfold bits_after.
  rewrite !(proj2 (Z.ltb_ge _ _)) by lia. by rewrite (proj2 (Z.eqb_neq m 6)) by lia.
Qed.

(** *** Over a sequence of bytes *)

Lemma getcs_snoc codes data : ∀ shift, (getcs (codes ++ [data]) shift).2 = (kbdgetc (Some data) (getcs codes shift).2).2.
Proof.
  induction codes as [|d codes IH]; intros shift; cbn [getcs app]; [by destruct (kbdgetc _ _)|].
  destruct (kbdgetc (Some d) shift) as [c sh]. specialize (IH sh). destruct (getcs (codes ++ [data]) sh), (getcs codes sh). done.
Qed.

Lemma escaped_snoc codes data : escaped (codes ++ [data]) = (data =? 0xE0).
Proof. unfold escaped. by rewrite last_snoc. Qed.

Lemma events_snoc codes data : events (codes ++ [data]) = events codes ++ decode (escaped codes) data.
Proof.
  unfold events. assert (∀ esc, events_from esc (codes ++ [data]) = events_from esc codes ++ decode (match last codes with Some d => d =? 0xE0 | None => esc end) data) as H; [|apply H].
  induction codes as [|d codes IH]; intros esc; cbn [events_from app]; [by rewrite app_nil_r|]. rewrite IH, <- app_assoc. do 3 f_equal. rewrite last_cons. by destruct (last codes).
Qed.

(** [shift] is what has been typed. *)
Lemma typed_bits codes : 0 ≤ typed codes < 128 ∧ Z.testbit (typed codes) 6 = escaped codes ∧
  (∀ m, 0 ≤ m < 3 → Z.testbit (typed codes) m = held m (events codes)) ∧ (∀ m, 3 ≤ m < 6 → Z.testbit (typed codes) m = locked m (events codes)).
Proof.
  induction codes as [|data codes (Hr & He & Hh & Hl)] using rev_ind.
  { split; [done|]. split; [done|]. split; intros; apply Z.bits_0. }
  unfold typed in *. rewrite getcs_snoc, escaped_snoc, events_snoc, <- He. split; [by apply kbdgetc_range|].
  split; [rewrite kbdgetc_bits by lia; done|]. split; intros m Hm; rewrite kbdgetc_bits by lia; unfold bits_after, held, locked; rewrite foldl_app.
  - by rewrite (proj2 (Z.ltb_lt _ _)), Hh by lia.
  - by rewrite (proj2 (Z.ltb_ge _ _)), (proj2 (Z.ltb_lt _ _)), Hl by lia.
Qed.

(** ** Letters *)

(** The letter on key [k], in lower case. *)
Definition letter (k : Z) : option Z :=
  let c := at_ normalmap k in if (ch "a" <=? c) && (c <=? ch "z") then Some c else None.

(** All the states of the modifiers and all the keys. *)
Definition letter_ok (shift k : Z) : bool :=
  match letter k with
  | Some c => (press shift k).1 =?
      (if Z.testbit shift 1 then c - 96 else if xorb (Z.testbit shift 0) (Z.testbit shift 3) then c - 32 else c)
  | None => true
  end.

Lemma letters_ok : forallb (λ shift, forallb (letter_ok shift) (seqZ 0 128)) (seqZ 0 64) = true.
Proof. by vm_compute. Qed.

Lemma press_letter shift k c : 0 ≤ shift < 64 → 0 ≤ k < 128 → letter k = Some c →
  (press shift k).1 = if Z.testbit shift 1 then c - 96 else if xorb (Z.testbit shift 0) (Z.testbit shift 3) then c - 32 else c.
Proof.
  intros Hs Hk Hc. pose proof letters_ok as H. rewrite forallb_forall in H. specialize (H shift ltac:(apply list_elem_of_In, elem_of_seqZ; lia)).
  rewrite forallb_forall in H. specialize (H k ltac:(apply list_elem_of_In, elem_of_seqZ; lia)). unfold letter_ok in H. rewrite Hc in H. by apply Z.eqb_eq.
Qed.

(** The keyboard driver. After any sequence of scan codes, pressing the key of
    a letter yields the control character if a Control key is held (the last
    event of such a key was a press), and otherwise the letter, in upper case
    exactly when either Shift is held or Caps Lock has been pressed an odd number
    of times, but not both. *)
Theorem kbd_letters codes k c :
  0 ≤ k < 128 → escaped codes = false → letter k = Some c →
  (kbdgetc (Some k) (typed codes)).1 =
    if held 1 (events codes) then c - 96 else if xorb (held 0 (events codes)) (locked 3 (events codes)) then c - 32 else c.
Proof.
  intros Hk Hesc Hc. destruct (typed_bits codes) as (Hr & H6 & Hh & Hl). rewrite Hesc in H6. rewrite <- !Hh, <- Hl by lia.
  unfold kbdgetc. change E0ESC with (Z.shiftl 1 6). rewrite truth_land_bit, H6, (proj2 (Z.eqb_neq k 0xE0)) by lia.
  change 0x80 with (Z.shiftl 1 7). rewrite truth_land_bit, (testbit_high k 7 7) by lia. apply press_letter; [|done | done].
  split; [lia|]. apply (bits_small _ 6); [lia|]. intros m Hm. destruct (decide (m = 6)) as [->|]; [done|]. apply (testbit_high _ 7); lia.
Qed.

(** Shift down, Caps Lock, both again, right Control (E0 1D) held, then the key of [s]. *)
Lemma kbd_letters_witness :
  (kbdgetc (Some 0x1F) (typed [0x2A; 0x3A; 0xBA; 0xAA; 0xE0; 0x1D])).1 = 19 ∧ letter 0x1F = Some (ch "s").
Proof.
  split; [|by vm_compute]. rewrite (kbd_letters [0x2A; 0x3A; 0xBA; 0xAA; 0xE0; 0x1D] 0x1F (ch "s")); [by vm_compute | lia | by vm_compute | by vm_compute].
Defined.

End Kbd.
