(* ===== verification/Mp.v ===== *)
(** * mp.c: the processors of the machine

    The search for the MP floating pointer structure and the walk over the MP
    configuration table, in byte memory. *)

From S2P Require Import Prelude Layout Memory.

Module Mp.

(** ** mp.h: sizes and field offsets *)

Definition sizeof_mp : Z := 16.
Definition sizeof_mpconf : Z := 44.
Definition sizeof_mpproc : Z := 20.
Definition sizeof_mpioapic : Z := 8.

Definition half (m : mem) (a : Z) : Z := m a + 2 ^ 8 * m (a + 1).
Definition mp_physaddr (m : mem) (p : Z) : Z := load32 m (p + 4).
Definition mp_imcrp (m : mem) (p : Z) : Z := m (p + 12).
Definition conf_length (m : mem) (p : Z) : Z := half m (p + 4).
Definition conf_version (m : mem) (p : Z) : Z := m (p + 6).
Definition conf_lapicaddr (m : mem) (p : Z) : Z := load32 m (p + 36).

Definition MPPROC : Z := 0.
Definition MPBUS : Z := 1.
Definition MPIOAPIC : Z := 2.
Definition MPIOINTR : Z := 3.
Definition MPLINTR : Z := 4.

(** ** mp.c *)

(** Memory, the globals, and the IMCR register behind ports 0x22 and 0x23. *)
Record mpstate := mk_mpstate {
  mm : mem;
  apicids : list Z;        (** [cpus[i].apicid] for [i < ncpu] *)
  ioapicid : Z;
  lapic : Z;
  imcr : Z;
}.
Definition ncpu (s : mpstate) : nat := length (apicids s).

Definition set_apicids (x : list Z) (s : mpstate) : mpstate := mk_mpstate (mm s) x (ioapicid s) (lapic s) (imcr s).
Definition set_ioapicid (x : Z) (s : mpstate) : mpstate := mk_mpstate (mm s) (apicids s) x (lapic s) (imcr s).
Definition set_lapic (x : Z) (s : mpstate) : mpstate := mk_mpstate (mm s) (apicids s) (ioapicid s) x (imcr s).
Definition set_imcr (x : Z) (s : mpstate) : mpstate := mk_mpstate (mm s) (apicids s) (ioapicid s) (lapic s) x.

Definition sum (m : mem) (addr len : Z) : Z := u8 (s32 (foldl Z.add 0 (read_bytes m addr len))).

(** [memcmp(p, s, 4) == 0] *)
Definition has_signature (m : mem) (p : Z) (s : string) : bool := bool_decide (read_bytes m p 4 = bytes s).

Fixpoint search_loop (m : mem) (p : Z) (n : nat) : option Z :=
  match n with
  | O => None
  | S n => if has_signature m p "_MP_" && (sum m p sizeof_mp =? 0) then Some p else search_loop m (p + sizeof_mp) n
  end.

Definition mpsearch1 (m : mem) (a len : Z) : option Z := search_loop m (P2V a) (Z.to_nat (len / sizeof_mp)).

Definition mpsearch (m : mem) : option Z :=
  let bda := P2V 0x400 in
  let last := mpsearch1 m 0xF0000 0x10000 in
  let p := Z.shiftl (Z.lor (Z.shiftl (m (bda + 0x0F)) 8) (m (bda + 0x0E))) 4 in
  if truth p then
    match mpsearch1 m p 1024 with Some mp => Some mp | None => last end
  else
    let p := Z.lor (Z.shiftl (m (bda + 0x14)) 8) (m (bda + 0x13)) * 1024 in
    match mpsearch1 m (u32 (p - 1024)) 1024 with Some mp => Some mp | None => last end.

(** The table and [*pmp] *)
Definition mpconfig (m : mem) : option (Z * Z) :=
  match mpsearch m with
  | None => None
  | Some mp =>
      if mp_physaddr m mp =? 0 then None else
      let conf := P2V (mp_physaddr m mp) in
      if negb (has_signature m conf "PCMP") then None else
      if negb (conf_version m conf =? 1) && negb (conf_version m conf =? 4) then None else
      if negb (sum m conf (conf_length m conf) =? 0) then None else
      Some (conf, mp)
  end.

(** The loop of [mpinit], for [fuel] rounds: the final [ismp], or [None] when the
    loop is still running. The [break] in the default case leaves the [switch],
    and the loop goes on with the same [p]. *)
Fixpoint walk (fuel : nat) (p e : Z) (ismp : bool) : M mpstate (option bool) :=
  if e <=? p then mret (Some ismp) else
  match fuel with
  | O => mret None
  | S fuel =>
      m ← gets mm ;
      let type := m p in
      if type =? MPPROC then
        modify (λ s, if bool_decide (ncpu s < NCPU)%nat then set_apicids (apicids s ++ [m (p + 1)]) s else s) ;;
        walk fuel (p + sizeof_mpproc) e ismp
      else if type =? MPIOAPIC then
        modify (set_ioapicid (m (p + 1))) ;;
        walk fuel (p + sizeof_mpioapic) e ismp
      else if (type =? MPBUS) || (type =? MPIOINTR) || (type =? MPLINTR) then
        walk fuel (p + 8) e ismp
      else walk fuel p e false
  end.

(** [mpinit] with at most [fuel] rounds of its loop; [None]: it is still in the loop. *)
Definition mpinit_rounds (fuel : nat) : M mpstate (option unit) :=
  m ← gets mm ;
  match mpconfig m with
  | None => panic "Expect to run on an SMP"
  | Some (conf, mp) =>
      modify (set_lapic (conf_lapicaddr m conf)) ;;
      r ← walk fuel (conf + sizeof_mpconf) (conf + conf_length m conf) true ;
      match r with
      | None => mret None
      | Some ismp =>
          when (negb ismp) (panic "Didn't find a suitable machine") ;;
          when (truth (mp_imcrp m mp)) (modify (λ s, set_imcr (Z.lor (imcr s) 1) s)) ;;
          mret (Some ())
      end
  end.

(** One round per byte of the table: a loop that runs longer never ends ([mpinit_spins]). *)
Definition table_length (m : mem) : nat :=
  match mpconfig m with Some (conf, _) => Z.to_nat (conf_length m conf) | None => 0 end.
Definition mpinit : M mpstate unit :=
  n ← gets (λ s, table_length (mm s)) ;
  r ← mpinit_rounds n ;
  match r with Some _ => mret () | None => halt end.

(** ** The entries of a table *)

Inductive entry :=
  | Processor (apicid : Z) (rest : list Z)
  | IoApic (apicno : Z) (rest : list Z)
  | Other (type : Z) (rest : list Z).

Definition entry_ok (e : entry) : Prop :=
  match e with
  | Processor _ rest => length rest = 18%nat
  | IoApic _ rest => length rest = 6%nat
  | Other type rest => type ∈ [MPBUS; MPIOINTR; MPLINTR] ∧ length rest = 7%nat
  end.

Definition entry_bytes (e : entry) : list Z :=
  match e with
  | Processor id rest => MPPROC :: id :: rest
  | IoApic n rest => MPIOAPIC :: n :: rest
  | Other type rest => type :: rest
  end.

Definition processors (l : list entry) : list Z := omap (λ e, match e with Processor id _ => Some id | _ => None end) l.
Definition io_apics (l : list entry) : list Z := omap (λ e, match e with IoApic n _ => Some n | _ => None end) l.

(** What [walk] makes of the entries. *)
Definition found (l : list entry) (s : mpstate) : mpstate :=
  set_ioapicid (default (ioapicid s) (last (io_apics l))) (set_apicids (take NCPU (apicids s ++ processors l)) s).

Lemma read_bytes_cons m p x l : read_bytes m p (length (x :: l)) = x :: l → m p = x ∧ read_bytes m (p + 1) (length l) = l.
Proof.
  intros H. split.
  - pose proof (f_equal (λ l, l !! 0%nat) H) as H0. cbv beta in H0. rewrite read_bytes_lookup, decide_True in H0 by (simpl; lia). injection H0. by rewrite Z.add_0_r.
  - apply list_eq. intros i. pose proof (f_equal (λ l, l !! S i) H) as Hi. cbv beta in Hi. rewrite read_bytes_lookup in *. simpl in Hi. rewrite <- Hi.
    case_decide; case_decide; simpl in *; try lia; [|done]. do 2 f_equal. lia.
Qed.

(** The bytes [l] are at [p]. *)
Definition at_bytes (m : mem) (p : Z) (l : list Z) : Prop := read_bytes m p (length l) = l.

Lemma at_bytes_app m p l l' : at_bytes m p (l ++ l') → at_bytes m p l ∧ at_bytes m (p + length l) l'.
Proof.
  unfold at_bytes. rewrite length_app, Nat2Z.inj_add, read_bytes_app by lia. intros H. apply app_inj_1 in H; [done|]. by rewrite length_read_bytes, Nat2Z.id.
Qed.

Definition visit (e : entry) (s : mpstate) : mpstate :=
  match e with
  | Processor id _ => if bool_decide (ncpu s < NCPU)%nat then set_apicids (apicids s ++ [id]) s else s
  | IoApic n _ => set_ioapicid n s
  | Other _ _ => s
  end.

Lemma mm_visit e s : mm (visit e s) = mm s.
Proof. destruct e; simpl; [by case_bool_decide | done | done]. Qed.

Lemma ncpu_visit e s : (ncpu s ≤ NCPU)%nat → (ncpu (visit e s) ≤ NCPU)%nat.
Proof. destruct e; simpl; [|done | done]. case_bool_decide; [|done]. unfold ncpu in *. simpl. rewrite length_app. simpl. lia. Qed.

Lemma found_cons e l s : (ncpu s ≤ NCPU)%nat → found (e :: l) s = found l (visit e s).
Proof.
  intros Hn. unfold found. destruct s as [m ids io la im]. unfold ncpu in Hn. destruct e as [id rest|n rest|type rest]; simpl in *.
  - case_bool_decide as Hlt; unfold ncpu in Hlt; simpl in *; unfold set_ioapicid, set_apicids; simpl; [by rewrite <- app_assoc|].
    f_equal. rewrite !take_app_ge by lia. by replace (NCPU - length ids)%nat with 0%nat by lia.
  - unfold io_apics. simpl. rewrite last_cons. by destruct (last _).
  - done.
Qed.

(** One round of the loop. *)
Lemma walk_step fuel p e0 ismp s e : entry_ok e → at_bytes (mm s) p (entry_bytes e) → p + length (entry_bytes e) ≤ e0 →
  walk (S fuel) p e0 ismp s = walk fuel (p + length (entry_bytes e)) e0 ismp (visit e s).
Proof.
  intros Hok Hat Hle. assert (p < e0) as Hlt by (destruct e; simpl in Hle; lia). cbn [walk]. rewrite (proj2 (Z.leb_gt _ _) Hlt).
  destruct e as [id rest|n rest|type rest]; simpl in Hok; unfold at_bytes in Hat; apply read_bytes_cons in Hat as [H0 Hat]; mrun.
  - apply read_bytes_cons in Hat as [H1 _]. rewrite H0, H1. simpl. rewrite Hok. case_bool_decide; by destruct (walk _ _ _ _ _).
  - apply read_bytes_cons in Hat as [H1 _]. rewrite H0, H1. simpl. rewrite Hok. by destruct (walk _ _ _ _ _).
  - rewrite H0. destruct Hok as [Ht Hl]. simpl. rewrite Hl. change (Z.of_nat 8) with 8. apply list_elem_of_In in Ht as [<-|[<-|[<-|[]]]]; simpl; by destruct (walk _ _ _ _ _).
Qed.

Lemma walk_entries l : ∀ fuel p tail s, Forall entry_ok l → at_bytes (mm s) p (concat (entry_bytes <$> l) ++ tail) → (ncpu s ≤ NCPU)%nat →
  (length (concat (entry_bytes <$> l)) ≤ fuel)%nat →
  ∃ fuel', (fuel ≤ fuel' + length (concat (entry_bytes <$> l)))%nat ∧
    walk fuel p (p + length (concat (entry_bytes <$> l) ++ tail)) true s =
    walk fuel' (p + length (concat (entry_bytes <$> l))) (p + length (concat (entry_bytes <$> l) ++ tail)) true (found l s).
Proof.
  induction l as [|e l IH]; intros fuel p tail s Hok Hat Hn Hf.
  - exists fuel. split; [lia|]. change (concat _) with (@nil Z). simpl. rewrite Z.add_0_r. f_equal. destruct s as [m ids io la im]. unfold found, set_ioapicid, set_apicids, ncpu in *. simpl in *.
    rewrite app_nil_r, take_ge by done. done.
  - apply Forall_cons in Hok as [He Hok]. rewrite fmap_cons in *. cbn [concat] in *. rewrite <- app_assoc in *. apply at_bytes_app in Hat as [H1 H2].
    assert (1 ≤ length (entry_bytes e))%nat as Hpos by (destruct e; simpl; lia). rewrite length_app in Hf. destruct fuel as [|fuel]; [lia|].
    rewrite (walk_step _ _ _ _ s e He H1) by (rewrite !length_app; lia). rewrite <- (mm_visit e) in H2.
    destruct (IH fuel _ tail (visit e s) Hok H2) as (fuel' & Hf' & Hw); [by apply ncpu_visit | lia|].
    exists fuel'. split; [rewrite length_app; lia|]. rewrite found_cons by done. rewrite (length_app (entry_bytes e)), (length_app (entry_bytes e)), !Nat2Z.inj_add, !Z.add_assoc. exact Hw.
Qed.

(** The table [mpconfig] has found consists of the entries [l] and then [tail]. *)
Definition table (m : mem) (conf : Z) (l : list entry) (tail : list Z) : Prop :=
  Forall entry_ok l ∧ at_bytes m (conf + sizeof_mpconf) (concat (entry_bytes <$> l) ++ tail) ∧
  conf_length m conf = sizeof_mpconf + length (concat (entry_bytes <$> l) ++ tail).

Lemma walk_table m conf l tail s : table m conf l tail → mm s = m → apicids s = [] →
  ∃ fuel, (Z.to_nat sizeof_mpconf + length tail ≤ fuel)%nat ∧
    walk (Z.to_nat (conf_length m conf)) (conf + sizeof_mpconf) (conf + conf_length m conf) true s =
    walk fuel (conf + conf_length m conf - length tail) (conf + conf_length m conf) true (found l s).
Proof.
  intros (Hok & Hat & Hlen) <- Hids. set (L := concat (entry_bytes <$> l)) in *. change sizeof_mpconf with 44 in *.
  destruct (walk_entries l (Z.to_nat (conf_length (mm s) conf)) (conf + 44) tail s Hok Hat) as (fuel & Hf & Hw).
  { unfold ncpu. rewrite Hids. simpl. lia. } { fold L. rewrite Hlen, length_app. lia. }
  fold L in Hf, Hw. rewrite length_app in *. exists fuel. split; [rewrite Hlen in Hf; simpl; lia|]. rewrite Hlen in *. rewrite Z.add_assoc, Hw. f_equal. lia.
Qed.

Lemma found_from_none l s : apicids s = [] → apicids (found l s) = take NCPU (processors l).
Proof. intros H. unfold found. simpl. by rewrite H. Qed.

(** On a machine with a well formed MP table, [mpinit] terminates and finds
    exactly what the table lists: the first [NCPU] processors in their order, the
    last I/O APIC and the address of the local APIC; it changes no memory. *)
Theorem mpinit_correct m conf mp l s :
  mm s = m → apicids s = [] → mpconfig m = Some (conf, mp) → table m conf l [] →
  wp mpinit s (λ _ s' tr, mm s' = m ∧ apicids s' = take NCPU (processors l) ∧ ioapicid s' = default (ioapicid s) (last (io_apics l)) ∧
    lapic s' = conf_lapicaddr m conf ∧ imcr s' = (if truth (mp_imcrp m mp) then Z.lor (imcr s) 1 else imcr s) ∧ tr = []).
Proof.
  intros Hm Hids Hc Ht. destruct (walk_table m conf l [] (set_lapic (conf_lapicaddr m conf) s) Ht Hm Hids) as (fuel & Hf & Hw).
  simpl in Hf, Hw. rewrite Z.sub_0_r in Hw. destruct fuel as [|fuel]; [lia|]. cbn [walk] in Hw. rewrite Z.leb_refl in Hw.
  unfold mpinit, table_length. do 2 wp_step. rewrite Hm, Hc. apply wp_bind. unfold mpinit_rounds. do 2 wp_step. rewrite Hm, Hc. do 2 wp_step.
  apply (wp_bind_ok _ _ _ _ _ _ Hw). unfold when. simpl. destruct (truth (mp_imcrp m mp)); do 4 wp_step; do 2 (try wp_step); unfold found; simpl; by rewrite Hids.
Qed.

(** ** Entries of an unknown type *)

Definition known : list Z := [MPPROC; MPBUS; MPIOAPIC; MPIOINTR; MPLINTR].

(** After [fuel] rounds from here the loop is still running. *)
Definition running (fuel : nat) (p e : Z) (ismp : bool) (s : mpstate) : Prop := wp (walk fuel p e ismp) s (λ r _ _, r = None).

Lemma walk_unknown fuel p e ismp s : p < e → mm s p ∉ known → running fuel p e ismp s.
Proof.
  intros Hlt Hty. unfold running. revert ismp. induction fuel as [|fuel IH]; intros ismp; cbn [walk]; rewrite (proj2 (Z.leb_gt _ _) Hlt); [done|]. do 2 wp_step.
  unfold known in Hty. rewrite !not_elem_of_cons in Hty. destruct Hty as (? & ? & ? & ? & ? & _). rewrite !(proj2 (Z.eqb_neq _ _)) by done.
  eapply wp_mono; [apply IH|]. done.
Qed.

Lemma walk_entries_unknown l : ∀ fuel p type rest s, Forall entry_ok l → at_bytes (mm s) p (concat (entry_bytes <$> l) ++ type :: rest) → type ∉ known →
  running fuel p (p + length (concat (entry_bytes <$> l) ++ type :: rest)) true s.
Proof.
  induction l as [|e l IH]; intros fuel p type rest s Hok Hat Hty.
  { change (concat _) with (@nil Z) in *. simpl app in *. apply read_bytes_cons in Hat as [H0 _]. apply walk_unknown; [simpl; lia | by rewrite H0]. }
  apply Forall_cons in Hok as [He Hok]. rewrite fmap_cons in *. cbn [concat] in *. rewrite <- app_assoc in *. apply at_bytes_app in Hat as [H1 H2]. destruct fuel as [|fuel].
  { unfold running. cbn [walk]. rewrite (proj2 (Z.leb_gt _ _)); [done|]. rewrite !length_app. simpl. lia. }
  unfold running, wp. rewrite (walk_step _ _ _ _ s e He H1) by (rewrite !length_app; lia). rewrite <- (mm_visit e) in H2.
  rewrite (length_app (entry_bytes e)), Nat2Z.inj_add, Z.add_assoc. by apply IH.
Qed.

(** The loop ends with [ismp] set or not at all. *)
Lemma walk_ismp fuel : ∀ p e s, wp (walk fuel p e true) s (λ r _ _, r ≠ Some false).
Proof.
  induction fuel as [|fuel IH]; intros p e s; (destruct (Z.leb_spec e p) as [Hle|Hlt]; [cbn [walk]; by rewrite (proj2 (Z.leb_le _ _) Hle)|]).
  { cbn [walk]. by rewrite (proj2 (Z.leb_gt _ _) Hlt). }
  destruct (decide (mm s p ∈ known)) as [Hk|Hk]; [|eapply wp_mono; [by apply walk_unknown|]; by intros ? ? ? ->].
  cbn [walk]. rewrite (proj2 (Z.leb_gt _ _) Hlt). do 2 wp_step.
  apply list_elem_of_In in Hk as [<-|[<-|[<-|[<-|[<-|[]]]]]]; simpl; repeat wp_step; (eapply wp_mono; [apply IH|]); done.
Qed.

(** When one round per byte is not enough, no number of rounds is. *)
Lemma walk_spins (fuel : nat) : ∀ p e ismp s, e - p ≤ fuel → running fuel p e ismp s → ∀ k, running k p e ismp s.
Proof.
  induction fuel as [|fuel IH]; intros p e ismp s Hf Hr k; unfold running in Hr; cbn [walk] in Hr; (destruct (Z.leb_spec e p) as [|Hlt]; [done|]); [lia|].
  destruct (decide (mm s p ∈ known)) as [Hk|Hk]; [|by apply walk_unknown].
  destruct k as [|k]; unfold running in *; cbn [walk]; rewrite (proj2 (Z.leb_gt _ _) Hlt); [done|].
  revert Hr. unfold wp, mbind, M_bind, gets, modify. unfold sizeof_mpproc, sizeof_mpioapic.
  apply list_elem_of_In in Hk as [<-|[<-|[<-|[<-|[<-|[]]]]]]; simpl; rewrite !prepend_nil; intros Hr; refine (IH _ _ _ _ _ Hr k); lia.
Qed.

(** The [halt] of [mpinit]: the loop runs for ever. *)
Lemma mpinit_spins s : crashes mpinit s Halted → ∀ fuel, wp (mpinit_rounds fuel) s (λ r _ _, r = None).
Proof.
  intros [tr H] fuel. revert H. unfold mpinit, table_length, mpinit_rounds, wp, mbind, M_bind, gets, modify. destruct (mpconfig (mm s)) as [[conf mp]|]; [|done]. cbv beta iota.
  set (s1 := set_lapic _ s). set (n := Z.to_nat _). intros H.
  assert (running n (conf + sizeof_mpconf) (conf + conf_length (mm s) conf) true s1) as Hr.
  { pose proof (walk_ismp n (conf + sizeof_mpconf) (conf + conf_length (mm s) conf) s1) as Hw. revert Hw H. unfold running, wp.
    destruct (walk _ _ _ _ _) as [[[|]|] s2 t2| |]; try done. intros _. simpl. by destruct (truth _). }
  apply (walk_spins n) with (k := fuel) in Hr; [|unfold n, sizeof_mpconf; lia]. clear H. revert Hr. unfold running, wp. by destruct (walk _ _ _ _ _) as [[[|]|] ? ?| |].
Qed.

(** C39: An entry of an unknown type makes [mpinit] spin for ever: after any number of
    rounds it is still in its loop. The code means to leave the loop and stop
    with a message, but its [break] only leaves the [switch] statement, and on no
    machine is the message reached. *)
Theorem mpinit_unknown_hangs m conf mp l type rest s :
  mm s = m → mpconfig m = Some (conf, mp) → table m conf l (type :: rest) → type ∉ known →
  (∀ fuel, wp (mpinit_rounds fuel) s (λ r _ _, r = None)) ∧
  (∀ fuel s0, ¬ crashes (mpinit_rounds fuel) s0 (Panicked "Didn't find a suitable machine")).
Proof.
  intros Hm Hc (Hok & Hat & Hlen) Hty. split.
  - intros fuel. unfold mpinit_rounds. do 2 wp_step. rewrite Hm, Hc. do 3 wp_step. rewrite Hlen, Z.add_assoc.
    eapply wp_mono; [by apply (walk_entries_unknown l); simpl; rewrite ?Hm|]. by intros ? ? ? ->.
  - intros fuel s0 [tr H]. revert H. unfold mpinit_rounds, mbind, M_bind, gets, modify. destruct (mpconfig (mm s0)) as [[conf0 mp0]|]; [|done].
    pose proof (walk_ismp fuel (conf0 + sizeof_mpconf) (conf0 + conf_length (mm s0) conf0) (set_lapic (conf_lapicaddr (mm s0) conf0) s0)) as Hw. revert Hw. unfold wp.
    destruct (walk _ _ _ _ _) as [[[|]|] s1 t1| |]; try done. intros _. simpl. by destruct (truth _).
Qed.

(** ** A machine with two processors *)

(** The byte that makes the sum of [l] with it zero. *)
Definition checksum (l : list Z) : Z := u8 (- foldl Z.add 0 l).

Definition ex_entries : list entry := [Processor 0 (replicate 18 1); Other MPBUS (replicate 7 2); Processor 4 (replicate 18 3); IoApic 9 (replicate 6 4)].
Definition ex_conf (tail : list Z) : list Z :=
  let body := concat (entry_bytes <$> ex_entries) ++ tail in
  let c x := bytes "PCMP" ++ le16 (44 + length body) ++ [4; x] ++ replicate 28 0 ++ le32 0xFEE00000 ++ replicate 4 0 ++ body in
  c (checksum (c 0)).
Definition ex_mp : list Z := let c x := bytes "_MP_" ++ le32 0x9000 ++ [1; 4; x; 0; 0; 0; 0; 0] in c (checksum (c 0)).
Definition ex_mem (tail : list Z) : mem := write_bytes (write_bytes (λ _, 0) (P2V 0xF0000) ex_mp) (P2V 0x9000) (ex_conf tail).
Definition ex_state (tail : list Z) : mpstate := mk_mpstate (ex_mem tail) [] 0 0 0.

Lemma ex_table tail : tail ∈ [[]; [7; 0]] → mpconfig (ex_mem tail) = Some (P2V 0x9000, P2V 0xF0000) ∧ table (ex_mem tail) (P2V 0x9000) ex_entries tail.
Proof.
  intros H%list_elem_of_In. assert (Forall entry_ok ex_entries) as Hok.
  { repeat apply Forall_cons_2; try apply Forall_nil_2; simpl; try done. split; [set_solver | done]. }
  destruct H as [<-|[<-|[]]]; (split; [by vm_compute|]); (split; [done|]); (split; by vm_compute).
Qed.

Lemma mpinit_correct_witness : wp mpinit (ex_state []) (λ _ s' _, apicids s' = [0; 4] ∧ ioapicid s' = 9 ∧ lapic s' = 0xFEE00000).
Proof.
  destruct (ex_table []) as [Hc Ht]; [set_solver|].
  eapply wp_mono; [exact (mpinit_correct _ _ _ _ (ex_state []) eq_refl eq_refl Hc Ht)|]. intros _ s' tr (_ & -> & -> & -> & _). split_and!; [reflexivity | reflexivity | by vm_compute].
Defined.

Lemma mpinit_unknown_hangs_witness :
  (∀ fuel, wp (mpinit_rounds fuel) (ex_state [7; 0]) (λ r _ _, r = None)) ∧
  (∀ fuel s0, ¬ crashes (mpinit_rounds fuel) s0 (Panicked "Didn't find a suitable machine")).
Proof.
  destruct (ex_table [7; 0]) as [Hc Ht]; [set_solver|].
  apply (mpinit_unknown_hangs _ _ _ _ 7 [0] (ex_state [7; 0]) eq_refl Hc Ht). by apply (bool_decide_unpack _).
Defined.

End Mp.
