(* ===== verification/Apic.v ===== *)
(** * ioapic.c, picirq.c and lapic.c: interrupt controllers and the clock chip

    The controllers as their registers: the I/O APIC behind its index and data
    registers, the local APIC as an array, the masks of the 8259A, and the CMOS
    chip behind its index port. Sending an interprocessor interrupt is a write
    to [ICRLO]; the interrupts sent are kept in order. *)

From S2P Require Import Prelude Layout Memory.

Module Apic.

Definition T_IRQ0 : Z := 32.
Definition IRQ_TIMER : Z := 0.
Definition IRQ_ERROR : Z := 19.
Definition IRQ_SPURIOUS : Z := 31.

Record apic := mk_apic {
  io_index : Z;                (** [ioapic->reg] *)
  io_regs : Z → Z;
  pic_mask : Z → Z;            (** by port *)
  lapic : Z;                   (** the pointer; 0 when there is none *)
  lregs : Z → Z;
  ipis : list (Z * Z);         (** ([ICRHI], [ICRLO]) of the interrupts sent *)
  cmos_index : Z;
  cmos : nat → Z → Z;          (** the registers of the chip at each of its reads *)
  cmos_reads : nat;
  shutdown : Z;                (** register 0xF *)
  wrv : Z * Z;                 (** the warm reset vector *)
}.

Definition set_io (i : Z) (r : Z → Z) (s : apic) : apic :=
  mk_apic i r (pic_mask s) (lapic s) (lregs s) (ipis s) (cmos_index s) (cmos s) (cmos_reads s) (shutdown s) (wrv s).
Definition set_pic (f : Z → Z) (s : apic) : apic :=
  mk_apic (io_index s) (io_regs s) f (lapic s) (lregs s) (ipis s) (cmos_index s) (cmos s) (cmos_reads s) (shutdown s) (wrv s).
Definition set_lregs (r : Z → Z) (l : list (Z * Z)) (s : apic) : apic :=
  mk_apic (io_index s) (io_regs s) (pic_mask s) (lapic s) r l (cmos_index s) (cmos s) (cmos_reads s) (shutdown s) (wrv s).
Definition set_cmos (i : Z) (n : nat) (sd : Z) (s : apic) : apic :=
  mk_apic (io_index s) (io_regs s) (pic_mask s) (lapic s) (lregs s) (ipis s) i (cmos s) n sd (wrv s).
Definition set_wrv (x : Z * Z) (s : apic) : apic :=
  mk_apic (io_index s) (io_regs s) (pic_mask s) (lapic s) (lregs s) (ipis s) (cmos_index s) (cmos s) (cmos_reads s) (shutdown s) x.

Abbreviation K := (M apic).

(** ** ioapic.c *)

Definition REG_ID : Z := 0x00.
Definition REG_VER : Z := 0x01.
Definition REG_TABLE : Z := 0x10.
Definition INT_DISABLED : Z := 0x00010000.

Definition ioapicread (reg : Z) : K Z :=
  modify (λ s, set_io reg (io_regs s) s) ;;
  gets (λ s, io_regs s (io_index s)).

Definition ioapicwrite (reg data : Z) : K unit :=
  modify (λ s, set_io reg (io_regs s) s) ;;
  modify (λ s, set_io (io_index s) (mset (io_regs s) (io_index s) (u32 data)) s).

Definition ioapicinit (ioapicid : Z) : K unit :=
  v ← ioapicread REG_VER ;
  let maxintr := Z.land (Z.shiftr v 16) 0xFF in
  v ← ioapicread REG_ID ;
  let id := Z.shiftr v 24 in
  when (negb (id =? ioapicid)) (cprintf "ioapicinit: id isn't equal to ioapicid; not a MP\n" []) ;;
  for_each (seqZ 0 (maxintr + 1)) (λ i,
    ioapicwrite (REG_TABLE + 2 * i) (Z.lor INT_DISABLED (T_IRQ0 + i)) ;;
    ioapicwrite (REG_TABLE + 2 * i + 1) 0).

Definition ioapicenable (irq cpunum : Z) : K unit :=
  ioapicwrite (REG_TABLE + 2 * irq) (T_IRQ0 + irq) ;;
  ioapicwrite (REG_TABLE + 2 * irq + 1) (Z.shiftl cpunum 24).

(** ** picirq.c *)

Definition IO_PIC1 : Z := 0x20.
Definition IO_PIC2 : Z := 0xA0.

Definition outb_pic (port v : Z) : K unit := modify (λ s, set_pic (mset (pic_mask s) port v) s).
Definition picinit : K unit := outb_pic (IO_PIC1 + 1) 0xFF ;; outb_pic (IO_PIC2 + 1) 0xFF.

(** ** lapic.c *)

Definition ID : Z := 0x0020 / 4.
Definition VER : Z := 0x0030 / 4.
Definition TPR : Z := 0x0080 / 4.
Definition EOI : Z := 0x00B0 / 4.
Definition SVR : Z := 0x00F0 / 4.
Definition ENABLE : Z := 0x00000100.
Definition ESR : Z := 0x0280 / 4.
Definition ICRLO : Z := 0x0300 / 4.
Definition INIT : Z := 0x00000500.
Definition STARTUP : Z := 0x00000600.
Definition DELIVS : Z := 0x00001000.
Definition ASSERT : Z := 0x00004000.
Definition LEVEL : Z := 0x00008000.
Definition BCAST : Z := 0x00080000.
Definition ICRHI : Z := 0x0310 / 4.
Definition TIMER : Z := 0x0320 / 4.
Definition X1 : Z := 0x0000000B.
Definition PERIODIC : Z := 0x00020000.
Definition PCINT : Z := 0x0340 / 4.
Definition LINT0 : Z := 0x0350 / 4.
Definition LINT1 : Z := 0x0360 / 4.
Definition ERROR : Z := 0x0370 / 4.
Definition MASKED : Z := 0x00010000.
Definition TICR : Z := 0x0380 / 4.
Definition TDCR : Z := 0x03E0 / 4.

Definition lapicw (index value : Z) : K unit :=
  modify (λ s, set_lregs (mset (lregs s) index (u32 value)) (if index =? ICRLO then ipis s ++ [(lregs s ICRHI, u32 value)] else ipis s) s).

Definition lapicinit : K unit :=
  l ← gets lapic ;
  if l =? 0 then mret () else
  lapicw SVR (Z.lor ENABLE (T_IRQ0 + IRQ_SPURIOUS)) ;;
  lapicw TDCR X1 ;;
  lapicw TIMER (Z.lor PERIODIC (T_IRQ0 + IRQ_TIMER)) ;;
  lapicw TICR 10000000 ;;
  lapicw LINT0 MASKED ;;
  lapicw LINT1 MASKED ;;
  ver ← gets (λ s, lregs s VER) ;
  when (4 <=? Z.land (Z.shiftr ver 16) 0xFF) (lapicw PCINT MASKED) ;;
  lapicw ERROR (T_IRQ0 + IRQ_ERROR) ;;
  lapicw ESR 0 ;;
  lapicw ESR 0 ;;
  lapicw EOI 0 ;;
  lapicw ICRHI 0 ;;
  lapicw ICRLO (Z.lor (Z.lor BCAST INIT) LEVEL) ;;
  v ← gets (λ s, lregs s ICRLO) ;
  if truth (Z.land v DELIVS) then halt else
  lapicw TPR 0.

Definition lapicid : K Z :=
  s ← get_state ;
  mret (if lapic s =? 0 then 0 else Z.shiftr (lregs s ID) 24).

Definition lapiceoi : K unit :=
  l ← gets lapic ;
  when (negb (l =? 0)) (lapicw EOI 0).

(** [outb(CMOS_PORT, reg)], [outb(CMOS_PORT+1, v)] and [inb(CMOS_RETURN)] *)
Definition select (reg : Z) : K unit := modify (λ s, set_cmos reg (cmos_reads s) (shutdown s) s).
Definition outb_cmos (v : Z) : K unit :=
  modify (λ s, if cmos_index s =? 0xF then set_cmos (cmos_index s) (cmos_reads s) v s else s).
Definition inb_cmos : K Z := λ s,
  Ok (cmos s (cmos_reads s) (cmos_index s)) (set_cmos (cmos_index s) (S (cmos_reads s)) (shutdown s) s) [].

Definition lapicstartap (apicid addr : Z) : K unit :=
  select 0xF ;;
  outb_cmos 0x0A ;;
  modify (set_wrv (0, u16 (Z.shiftr addr 4))) ;;
  lapicw ICRHI (Z.shiftl apicid 24) ;;
  lapicw ICRLO (Z.lor (Z.lor INIT LEVEL) ASSERT) ;;
  lapicw ICRLO (Z.lor INIT LEVEL) ;;
  for_each (seqZ 0 2) (λ _,
    lapicw ICRHI (Z.shiftl apicid 24) ;;
    lapicw ICRLO (Z.lor STARTUP (Z.shiftr addr 12))).

Definition CMOS_STATA : Z := 0x0a.
Definition CMOS_STATB : Z := 0x0b.
Definition CMOS_UIP : Z := Z.shiftl 1 7.
Definition SECS : Z := 0x00.
Definition MINS : Z := 0x02.
Definition HOURS : Z := 0x04.
Definition DAY : Z := 0x07.
Definition MONTH : Z := 0x08.
Definition YEAR : Z := 0x09.

Definition cmos_read (reg : Z) : K Z := select reg ;; inb_cmos.

(** [struct rtcdate] *)
Record rtcdate := mk_rtcdate { second : Z; minute : Z; hour : Z; day : Z; month : Z; year : Z }.
#[global] Instance rtcdate_eq_dec : EqDecision rtcdate.
Proof. solve_decision. Defined.

Definition fill_rtcdate : K rtcdate :=
  s ← cmos_read SECS ;
  m ← cmos_read MINS ;
  h ← cmos_read HOURS ;
  d ← cmos_read DAY ;
  mo ← cmos_read MONTH ;
  y ← cmos_read YEAR ;
  mret (mk_rtcdate s m h d mo y).

(** The loop of [cmostime] *)
Fixpoint read_clock (fuel : nat) : K rtcdate :=
  match fuel with
  | O => undefined "cmostime does not terminate"
  | S fuel =>
      t1 ← fill_rtcdate ;
      a ← cmos_read CMOS_STATA ;
      if truth (Z.land a CMOS_UIP) then read_clock fuel else
      t2 ← fill_rtcdate ;
      if bool_decide (t1 = t2) then mret t1 else read_clock fuel
  end.

Definition conv (x : Z) : Z := u32 (Z.shiftr x 4 * 10 + Z.land x 0xf).
Definition conv_date (t : rtcdate) : rtcdate :=
  mk_rtcdate (conv (second t)) (conv (minute t)) (conv (hour t)) (conv (day t)) (conv (month t)) (conv (year t)).

Definition cmostime (fuel : nat) : K rtcdate :=
  sb ← cmos_read CMOS_STATB ;
  t1 ← read_clock fuel ;
  let t1 := if Z.land sb (Z.shiftl 1 2) =? 0 then conv_date t1 else t1 in
  mret (mk_rtcdate (second t1) (minute t1) (hour t1) (day t1) (month t1) (u32 (year t1 + 2000))).

(** ** Routing interrupts *)

(** Entry [irq] of the redirection table. *)
Definition route (s : apic) (irq : Z) : Z * Z := (io_regs s (REG_TABLE + 2 * irq), io_regs s (REG_TABLE + 2 * irq + 1)).

Lemma ioapicwrite_run reg data s : ∃ s', ioapicwrite reg data s = Ok () s' [] ∧ io_regs s' = mset (io_regs s) reg (u32 data) ∧ lapic s' = lapic s.
Proof. eexists. split; [reflexivity | done]. Qed.

(** Writing both halves of an entry changes this entry. *)
Lemma route_write irq lo hi s : 0 ≤ irq → 0 ≤ lo < 2 ^ 32 → 0 ≤ hi < 2 ^ 32 →
  wp (ioapicwrite (REG_TABLE + 2 * irq) lo ;; ioapicwrite (REG_TABLE + 2 * irq + 1) hi) s
    (λ _ s' tr, route s' irq = (lo, hi) ∧ (∀ i, 0 ≤ i → i ≠ irq → route s' i = route s i) ∧ tr = []).
Proof.
  intros Hi Hlo Hhi. unfold ioapicwrite. repeat wp_step. simpl. unfold route. simpl. unfold REG_TABLE. split; [|split; [|done]].
  - rewrite mset_same, mset_other, mset_same, !u32_small by lia. done.
  - intros i H0 Hne. by rewrite !mset_other by lia.
Qed.

Lemma routes_write (f : Z → Z * Z) (n : nat) : ∀ a s, 0 ≤ a → (∀ i, a ≤ i < a + n → 0 ≤ (f i).1 < 2 ^ 32 ∧ 0 ≤ (f i).2 < 2 ^ 32) →
  wp (for_each (seqZ a (Z.of_nat n)) (λ i, ioapicwrite (REG_TABLE + 2 * i) (f i).1 ;; ioapicwrite (REG_TABLE + 2 * i + 1) (f i).2)) s
    (λ _ s' tr, (∀ i, a ≤ i < a + n → route s' i = f i) ∧ (∀ i, 0 ≤ i → i < a ∨ a + n ≤ i → route s' i = route s i) ∧ tr = []).
Proof.
  induction n as [|n IH]; intros a s Ha Hf; [split; [intros; lia | done]|]. rewrite seqZ_cons by lia. cbn [for_each]. apply wp_bind.
  eapply wp_mono; [apply route_write; [done | apply Hf; lia | apply Hf; lia]|]. intros _ s1 tr (R1 & O1 & ->).
  replace (Z.pred (Z.of_nat (S n))) with (Z.of_nat n) by lia. eapply wp_mono; [apply IH; [lia | intros; apply Hf; lia]|]. intros _ s2 tr (R2 & O2 & ->).
  split; [|split; [|done]].
  - intros i Hr. destruct (decide (i = a)) as [->|]; [|apply R2; lia]. rewrite O2, R1 by lia. by destruct (f a).
  - intros i H0 Hr. rewrite O2, O1 by lia. done.
Qed.

(** Interrupt routing. [ioapicinit] masks every entry of the redirection table,
    and [ioapicenable] then unmasks the entry of the given IRQ with its vector and
    the given CPU, and leaves all the others masked. *)
Theorem ioapic_routes id irq cpunum s :
  let maxintr := Z.land (Z.shiftr (io_regs s REG_VER) 16) 0xFF in
  0 ≤ irq ≤ maxintr → 0 ≤ cpunum < 2 ^ 8 →
  wp (ioapicinit id ;; ioapicenable irq cpunum) s (λ _ s' _,
    route s' irq = (T_IRQ0 + irq, Z.shiftl cpunum 24) ∧
    ∀ i, 0 ≤ i ≤ maxintr → i ≠ irq → route s' i = (Z.lor INT_DISABLED (T_IRQ0 + i), 0)).
Proof.
  intros maxintr Hirq Hcpu. assert (0 ≤ maxintr < 256) as Hm.
  { unfold maxintr. change 0xFF with (Z.ones 8). rewrite Z.land_ones by lia. apply Z.mod_pos_bound. lia. }
  assert (forallb (λ i, (0 <=? Z.lor INT_DISABLED (T_IRQ0 + i)) && (Z.lor INT_DISABLED (T_IRQ0 + i) <? 2 ^ 32)) (seqZ 0 256) = true) as Hlor by (by vm_compute).
  rewrite forallb_forall in Hlor.
  apply wp_bind. unfold ioapicinit, ioapicread. do 8 wp_step. apply wp_bind. set (s1 := set_io REG_ID _ _). change (io_regs _ (io_index _)) with (io_regs s REG_VER) at 2. fold maxintr.
  assert (∀ Q : unit → apic → list event → Prop, (∀ tr, Q () s1 tr) → wp (when (negb (Z.shiftr (io_regs s1 (io_index s1)) 24 =? id)) (cprintf "ioapicinit: id isn't equal to ioapicid; not a MP\n" [])) s1 Q) as Hwhen.
  { intros Q HQ. unfold when. case_match; apply HQ. }
  apply Hwhen. intros tr. replace (maxintr + 1) with (Z.of_nat (Z.to_nat (maxintr + 1))) by lia.
  eapply wp_mono; [apply (routes_write (λ i, (Z.lor INT_DISABLED (T_IRQ0 + i), 0)))|].
  - lia.
  - intros i Hi. simpl. specialize (Hlor i ltac:(apply list_elem_of_In, elem_of_seqZ; lia)). apply andb_true_iff in Hlor as [?%Z.leb_le ?%Z.ltb_lt]. lia.
  - intros _ s2 tr2 (R & _ & _). unfold ioapicenable. eapply wp_mono; [apply route_write; [lia | unfold T_IRQ0; lia |]|].
    { rewrite Z.shiftl_mul_pow2 by lia. lia. }
    intros _ s3 tr3 (R1 & O1 & _). split; [done|]. intros i Hi Hne. rewrite O1 by lia. apply R. lia.
Qed.

Lemma ioapic_routes_witness :
  let s := mk_apic 0 (mset (λ _, 0) REG_VER 0x00170011) (λ _, 0) 0 (λ _, 0) [] 0 (λ _ _, 0) 0 0 (0, 0) in
  wp (ioapicinit 0 ;; ioapicenable 14 1) s (λ _ s' _, route s' 14 = (46, 0x1000000)).
Proof.
  intros s. eapply wp_mono; [apply (ioapic_routes 0 14 1 s); [by vm_compute | done]|]. by intros _ s' tr [-> _].
Defined.

(** ** The clock *)

Definition bcd (n : Z) : Z := 16 * (n / 10) + n mod 10.

Lemma conv_bcd n : 0 ≤ n < 100 → conv (bcd n) = n.
Proof.
  intros Hn. assert (forallb (λ n, conv (bcd n) =? n) (seqZ 0 100) = true) as H by (by vm_compute).
  rewrite forallb_forall in H. apply Z.eqb_eq, H, list_elem_of_In, elem_of_seqZ. lia.
Qed.

(** The date in the registers [f]. *)
Definition date_of (f : Z → Z) : rtcdate := mk_rtcdate (f SECS) (f MINS) (f HOURS) (f DAY) (f MONTH) (f YEAR).

(** From read [n0] on the chip shows [f] and no update is in progress; before, an
    update is in progress. *)
Definition settles (c : nat → Z → Z) (n0 : nat) (f : Z → Z) : Prop :=
  truth (Z.land (f CMOS_STATA) CMOS_UIP) = false ∧ (∀ n, (n0 ≤ n)%nat → c n = f) ∧
  (∀ n, (n < n0)%nat → truth (Z.land (c n CMOS_STATA) CMOS_UIP) = true).

Definition advance (i : Z) (n : nat) (s : apic) : apic := set_cmos i (n + cmos_reads s) (shutdown s) s.

Lemma fill_run s : let c := cmos s in let n := cmos_reads s in
  fill_rtcdate s = Ok (mk_rtcdate (c n SECS) (c (S n) MINS) (c (2 + n)%nat HOURS) (c (3 + n)%nat DAY) (c (4 + n)%nat MONTH) (c (5 + n)%nat YEAR)) (advance YEAR 6 s) [].
Proof. done. Qed.

Lemma read_run r s : cmos_read r s = Ok (cmos s (cmos_reads s) r) (advance r 1 s) [].
Proof. done. Qed.

Lemma read_clock_run f n0 fuel : ∀ s, settles (cmos s) n0 f → (n0 - cmos_reads s + 1 < fuel)%nat →
  wp (read_clock fuel) s (λ t _ tr, t = date_of f ∧ tr = []).
Proof.
  induction fuel as [|fuel IH]; intros s Hset Hlt; [lia|]. pose proof Hset as (Hu & Hf & Hb). cbn [read_clock].
  apply (wp_bind_ok _ _ _ _ _ _ (fill_run s)). apply (wp_bind_ok _ _ _ _ _ _ (read_run _ _)).
  change (cmos (advance YEAR 6 s) (cmos_reads (advance YEAR 6 s))) with (cmos s (6 + cmos_reads s)%nat). destruct (decide (n0 ≤ 6 + cmos_reads s)%nat) as [Hge|Hlo].
  - rewrite Hf, Hu by done. apply (wp_bind_ok _ _ _ _ _ _ (fill_run _)).
    change (cmos (advance CMOS_STATA 1 (advance YEAR 6 s))) with (cmos s). change (cmos_reads (advance CMOS_STATA 1 (advance YEAR 6 s))) with (7 + cmos_reads s)%nat.
    set (n := (7 + cmos_reads s)%nat). rewrite (Hf n), (Hf (S n)), (Hf (2 + n)%nat), (Hf (3 + n)%nat), (Hf (4 + n)%nat), (Hf (5 + n)%nat) by lia.
    case_bool_decide as He; [by rewrite He|].
    apply IH; [done|]. change (cmos_reads _) with (13 + cmos_reads s)%nat. destruct (decide (n0 ≤ cmos_reads s)%nat); [|lia].
    destruct He. rewrite !Hf by lia. done.
  - rewrite Hb by lia. apply IH; [done|]. change (cmos_reads _) with (7 + cmos_reads s)%nat. lia.
Qed.

(** [cmostime] never returns a torn date and does not wait for ever. While the
    clock chip updates its registers (and says so in its status register) they
    may show anything; once they show the date [d], in BCD, the loop ends with
    exactly this date, however the reads fall. *)
Theorem cmostime_correct f n0 fuel s d :
  settles (cmos s) n0 f → (n0 + 1 < fuel)%nat → (∀ n, Z.land (cmos s n CMOS_STATB) 4 = 0) →
  date_of f = mk_rtcdate (bcd (second d)) (bcd (minute d)) (bcd (hour d)) (bcd (day d)) (bcd (month d)) (bcd (year d)) →
  Forall (λ x, 0 ≤ x < 100) [second d; minute d; hour d; day d; month d; year d] →
  wp (cmostime fuel) s (λ t _ tr, t = mk_rtcdate (second d) (minute d) (hour d) (day d) (month d) (2000 + year d) ∧ tr = []).
Proof.
  intros Hset Hfuel Hb Hd Hr. unfold cmostime. apply (wp_bind_ok _ _ _ _ _ _ (read_run _ _)). apply wp_bind.
  eapply wp_mono; [apply (read_clock_run f n0); [done | simpl; lia]|]. intros t s' tr [-> ->]. rewrite Hb, Hd. wp_step. simpl.
  rewrite !Forall_cons in Hr. destruct Hr as (? & ? & ? & ? & ? & ? & _). rewrite !conv_bcd, u32_small by lia. split; [f_equal; lia | done].
Qed.

(** The chip finishes an update at its tenth read. *)
Definition ex_clock : Z → Z := λ r,
  if r =? SECS then 0x59 else if r =? MINS then 0x30 else if r =? HOURS then 0x23 else if r =? DAY then 0x31 else if r =? MONTH then 0x12 else if r =? YEAR then 0x26 else 0.
Definition ex_apic : apic :=
  mk_apic 0 (λ _, 0) (λ _, 0) 0xFEE00000 (λ _, 0) [] 0 (λ n r, if (n <? 10)%nat then (if r =? CMOS_STATB then 0 else 0x80 + n) else ex_clock r) 0 0 (0, 0).

Lemma ex_settles : settles (cmos ex_apic) 10 ex_clock.
Proof.
  split; [done|]. split.
  - intros n Hn. simpl. by rewrite (proj2 (Nat.ltb_ge _ _) Hn).
  - intros n Hn. do 10 (destruct n as [|n]; [done|]). lia.
Qed.

Lemma cmostime_correct_witness : wp (cmostime 12) ex_apic (λ t _ _, t = mk_rtcdate 59 30 23 31 12 2026).
Proof.
  eapply wp_mono; [apply (cmostime_correct ex_clock 10 12 ex_apic (mk_rtcdate 59 30 23 31 12 26) ex_settles)|].
  - lia.
  - intros n. simpl. by destruct (n <? 10)%nat.
  - by vm_compute.
  - repeat (apply Forall_cons; split; [simpl; lia|]). apply Forall_nil_2.
  - by intros t s' tr [-> _].
Defined.

End Apic.
