(* ===== verification/Ide.v ===== *)
(** * ide.c: the disk driver

    The queue of requests, threaded through the [qnext] fields of the buffers,
    and the controller behind its ports. The controller is modelled as the
    driver uses it: registers that hold a request, which it serves in its own
    time, and then an interrupt. The theorems show that any sequence of requests,
    interrupts and uses of buffers takes effect as if memide.c had served each
    request at once (Bio.v). *)

From S2P Require Import Prelude Layout Memory Sleeplock Bio Apic.

Module Ide.
Import Bio.

Definition SECTOR_SIZE : Z := 512.
Definition IDE_BSY : Z := 0x80.
Definition IDE_DRDY : Z := 0x40.
Definition IDE_DF : Z := 0x20.
Definition IDE_ERR : Z := 0x01.
Definition IDE_CMD_READ : Z := 0x20.
Definition IDE_CMD_WRITE : Z := 0x30.
Definition IDE_CMD_RDMUL : Z := 0xc4.
Definition IDE_CMD_WRMUL : Z := 0xc5.
Definition IRQ_IDE : Z := 14.

(** ** The controller *)

Record request := mk_request { r_write : bool; r_drive : Z; r_sector : Z; r_data : list Z }.

Record ata := mk_ata {
  a_count : Z;
  a_lba0 : Z;
  a_lba1 : Z;
  a_lba2 : Z;
  a_drive : Z;                  (** drive and highest bits of the sector *)
  a_status : Z;
  a_active : option request;
  a_xfer : list Z;              (** what the data port yields *)
  a_disk0 : Z → list Z;
}.

(** The driver: the buffers and drive 1 as in bio.c, the queue, the controller, and
    the interrupt controller that [ideinit] sets up. *)
Record istate := mk_istate {
  ib : bstate;
  qnext : list (option nat);
  idequeue : option nat;
  havedisk1 : Z;
  drv : ata;
  iapic : Apic.apic;
  incpu : Z;
}.

Definition set_ib (x : bstate) (s : istate) : istate := mk_istate x (qnext s) (idequeue s) (havedisk1 s) (drv s) (iapic s) (incpu s).
Definition set_queue (q : list (option nat)) (h : option nat) (s : istate) : istate :=
  mk_istate (ib s) q h (havedisk1 s) (drv s) (iapic s) (incpu s).
Definition set_havedisk1 (x : Z) (s : istate) : istate := mk_istate (ib s) (qnext s) (idequeue s) x (drv s) (iapic s) (incpu s).
Definition set_drv (x : ata) (s : istate) : istate := mk_istate (ib s) (qnext s) (idequeue s) (havedisk1 s) x (iapic s) (incpu s).
Definition set_iapic (x : Apic.apic) (s : istate) : istate := mk_istate (ib s) (qnext s) (idequeue s) (havedisk1 s) (drv s) x (incpu s).

Abbreviation I := (M istate).
Definition bio {A} (m : M bstate A) : I A := zoom ib set_ib m.

(** The sector the registers select. *)
Definition selected (a : ata) : Z := a_lba0 a + 2 ^ 8 * a_lba1 a + 2 ^ 16 * a_lba2 a + 2 ^ 24 * Z.land (a_drive a) 0x0f.
Definition drive (a : ata) : Z := Z.land (Z.shiftr (a_drive a) 4) 1.

Definition command (v : Z) (a : ata) : ata :=
  let r w := Some (mk_request w (drive a) (selected a) []) in
  let start act st := mk_ata (a_count a) (a_lba0 a) (a_lba1 a) (a_lba2 a) (a_drive a) st act (a_xfer a) (a_disk0 a) in
  if v =? IDE_CMD_READ then start (r false) IDE_BSY
  else if v =? IDE_CMD_WRITE then start (r true) IDE_BSY
  else start (a_active a) (Z.lor IDE_DRDY IDE_ERR).

Definition outb_ata (port v : Z) (a : ata) : ata :=
  let set c l0 l1 l2 d := mk_ata c l0 l1 l2 d (a_status a) (a_active a) (a_xfer a) (a_disk0 a) in
  if port =? 0x1f2 then set v (a_lba0 a) (a_lba1 a) (a_lba2 a) (a_drive a)
  else if port =? 0x1f3 then set (a_count a) v (a_lba1 a) (a_lba2 a) (a_drive a)
  else if port =? 0x1f4 then set (a_count a) (a_lba0 a) v (a_lba2 a) (a_drive a)
  else if port =? 0x1f5 then set (a_count a) (a_lba0 a) (a_lba1 a) v (a_drive a)
  else if port =? 0x1f6 then set (a_count a) (a_lba0 a) (a_lba1 a) (a_lba2 a) v
  else if port =? 0x1f7 then command v a
  else a.

Definition outb (port v : Z) : I unit := modify (λ s, set_drv (outb_ata port v (drv s)) s).

(** [outsl(0x1f0, data, BSIZE/4)]: the data of a write request *)
Definition outsl_ata (d : list Z) (a : ata) : ata :=
  mk_ata (a_count a) (a_lba0 a) (a_lba1 a) (a_lba2 a) (a_drive a) (a_status a)
    ((λ r, mk_request (r_write r) (r_drive r) (r_sector r) d) <$> a_active a) (a_xfer a) (a_disk0 a).
Definition outsl (d : list Z) : I unit := modify (λ s, set_drv (outsl_ata d (drv s)) s).

Definition inb_status : I Z := gets (λ s, a_status (drv s)).
Definition insl : I (list Z) := gets (λ s, a_xfer (drv s)).

(** The controller serves its request; [fail] is a request it cannot serve. *)
Definition serve_request (fail : bool) (s : istate) : istate :=
  let a := drv s in
  match a_active a with
  | None => s
  | Some r =>
      let status := if fail then Z.lor IDE_DRDY IDE_ERR else IDE_DRDY in
      let fin x d0 := mk_ata (a_count a) (a_lba0 a) (a_lba1 a) (a_lba2 a) (a_drive a) status None x d0 in
      if fail then set_drv (fin (a_xfer a) (a_disk0 a)) s
      else if r_write r then
        if r_drive r =? 1 then
          set_drv (fin (a_xfer a) (a_disk0 a)) (set_ib (set_disk (λ n, if n =? r_sector r then r_data r else disk (ib s) n) (ib s)) s)
        else set_drv (fin (a_xfer a) (λ n, if n =? r_sector r then r_data r else a_disk0 a n)) s
      else set_drv (fin (if r_drive r =? 1 then disk (ib s) (r_sector r) else a_disk0 a (r_sector r)) (a_disk0 a)) s
  end.

(** ** ide.c *)

(** The CPU spins while the controller is busy. *)
Definition idewait (checkerr : bool) : I Z :=
  r ← inb_status ;
  if negb (Z.land r (Z.lor IDE_BSY IDE_DRDY) =? IDE_DRDY) then halt else
  mret (if checkerr && truth (Z.land r (Z.lor IDE_DF IDE_ERR)) then -1 else 0).

Fixpoint probe (n : nat) : I unit :=
  match n with
  | O => mret ()
  | S n => r ← inb_status ; if truth r then modify (set_havedisk1 1) else probe n
  end.

Definition ideinit : I unit :=
  n ← gets incpu ;
  zoom iapic set_iapic (Apic.ioapicenable IRQ_IDE (n - 1)) ;;
  idewait false ;;
  outb 0x1f6 (Z.lor 0xe0 (Z.shiftl 1 4)) ;;
  probe 1000 ;;
  outb 0x1f6 (Z.lor 0xe0 (Z.shiftl 0 4)).

Definition idestart (b : option nat) : I unit :=
  match b with
  | None => panic "idestart"
  | Some i =>
      b ← bio (getb i) ;
      if FSSIZE <=? blockno b then panic "incorrect blockno" else
      let sector_per_block := BSIZE / SECTOR_SIZE in
      let sector := s32 (blockno b * sector_per_block) in
      let read_cmd := if sector_per_block =? 1 then IDE_CMD_READ else IDE_CMD_RDMUL in
      let write_cmd := if sector_per_block =? 1 then IDE_CMD_WRITE else IDE_CMD_WRMUL in
      if 7 <? sector_per_block then panic "idestart" else
      idewait false ;;
      outb 0x3f6 0 ;;
      outb 0x1f2 (u8 sector_per_block) ;;
      outb 0x1f3 (Z.land sector 0xff) ;;
      outb 0x1f4 (Z.land (Z.shiftr sector 8) 0xff) ;;
      outb 0x1f5 (Z.land (Z.shiftr sector 16) 0xff) ;;
      outb 0x1f6 (Z.lor (Z.lor 0xe0 (Z.shiftl (Z.land (dev b) 1) 4)) (Z.land (Z.shiftr sector 24) 0x0f)) ;;
      if truth (Z.land (flags b) B_DIRTY) then
        outb 0x1f7 write_cmd ;;
        outsl (bdata b)
      else outb 0x1f7 read_cmd
  end.

Definition ideintr : I unit :=
  acquire Lide ;;
  h ← gets idequeue ;
  match h with
  | None => release Lide
  | Some i =>
      modify (λ s, set_queue (qnext s) (default None (qnext s !! i)) s) ;;
      b ← bio (getb i) ;
      (if truth (Z.land (flags b) B_DIRTY) then mret ()
       else
         r ← idewait true ;
         when (0 <=? r) (d ← insl ; bio (updb i (set_bdata d)))) ;;
      bio (updb i (λ b, set_flags (Z.lor (flags b) B_VALID) b)) ;;
      bio (updb i (λ b, set_flags (Z.land (flags b) (Z.lnot B_DIRTY)) b)) ;;
      wakeup (Ch_buf i) ;;
      h ← gets idequeue ;
      when (bool_decide (h ≠ None)) (idestart h) ;;
      release Lide
  end.

(** The last buffer of the queue from [i] on; the queue has at most all the buffers. *)
Fixpoint find_tail (fuel : nat) (i : nat) : I nat :=
  match fuel with
  | O => undefined "disk queue is circular"
  | S fuel =>
      n ← gets (λ s, default None (qnext s !! i)) ;
      match n with None => mret i | Some j => find_tail fuel j end
  end.

(** [b->qnext = 0; for(pp = &idequeue; *pp; pp = &( *pp)->qnext); *pp = b] *)
Definition enqueue (i : nat) : I unit :=
  modify (λ s, set_queue (<[i := None]> (qnext s)) (idequeue s) s) ;;
  h ← gets idequeue ;
  match h with
  | None => modify (λ s, set_queue (qnext s) (Some i) s)
  | Some j =>
      t ← gets (λ s, length (qnext s)) ;
      t ← find_tail t j ;
      modify (λ s, set_queue (<[t := Some i]> (qnext s)) (idequeue s) s)
  end.

(** [while((b->flags & (B_VALID|B_DIRTY)) != B_VALID) sleep(b, &idelock)] and what follows *)
Definition synced (b : buf) : bool := Z.land (flags b) (Z.lor B_VALID B_DIRTY) =? B_VALID.
Definition iderw_wait (i : nat) : I unit :=
  b ← bio (getb i) ;
  if synced b then release Lide else block_on (Ch_buf i).

Definition iderw (i : nat) : I unit :=
  h ← bio (holdingsleep i) ;
  if negb h then panic "iderw: buf not locked" else
  b ← bio (getb i) ;
  if synced b then panic "iderw: nothing to do" else
  d ← gets havedisk1 ;
  if negb (dev b =? 0) && negb (truth d) then panic "iderw: ide disk 1 not present" else
  acquire Lide ;;
  enqueue i ;;
  h ← gets idequeue ;
  when (bool_decide (h = Some i)) (idestart (Some i)) ;;
  iderw_wait i.

(** ** What a request does *)

Definition dirty (b : buf) : bool := truth (Z.land (flags b) B_DIRTY).

(** [iderw] of memide.c on buffer [i], as a function. *)
Definition serve (i : nat) (s : bstate) : bstate :=
  match bufs s !! i with
  | Some b =>
      if dirty b then
        set_disk (λ n, if n =? blockno b then bdata b else disk s n) (set_bufs (<[i := set_flags (Z.lor (Z.land (flags b) (Z.lnot B_DIRTY)) B_VALID) b]> (bufs s)) s)
      else set_bufs (<[i := set_flags (Z.lor (flags b) B_VALID) (set_bdata (disk s (blockno b)) b)]> (bufs s)) s
  | None => s
  end.

(** A request the driver accepts. *)
Definition pending (b : buf) : Prop := synced b = false ∧ dev b = 1 ∧ 0 ≤ blockno b < FSSIZE.
Definition request_of (b : buf) : request := mk_request (dirty b) 1 (blockno b) (if dirty b then bdata b else []).

Lemma serve_iderw i s b : bufs s !! i = Some b → block b = Sleeplock.mk_slock 1 (bpid s) → pending b → disksize s = FSSIZE →
  ∃ tr, Bio.iderw i s = Ok () (serve i s) tr.
Proof.
  intros Hb Hlk (Hsy & Hd & Hn) Hsz.
  pose proof (lookup_lt_Some _ _ _ Hb) as Hi.
  assert (does (Bio.iderw i) (at_buf s i b) () (if dirty b
    then set_disk (λ n, if n =? blockno b then bdata b else disk s n) (at_buf s i (set_flags (Z.lor (Z.land (flags b) (Z.lnot B_DIRTY)) B_VALID) b))
    else at_buf s i (set_flags (Z.lor (flags b) B_VALID) (set_bdata (disk s (blockno b)) b))) (if dirty b then [(blockno b, bdata b)] else [])) as (tr & Hr & _).
  { unfold Bio.iderw. eapply does_bind; [by apply does_holdingsleep | | done]. simpl negb. eapply does_bind; [by apply does_getb | | done].
    unfold synced in Hsy. rewrite Hsy, Hd. simpl. eapply does_bind; [apply does_gets | | done]. simpl. rewrite Hsz, (proj2 (Z.leb_gt _ _)) by lia. fold (dirty b).
    destruct (dirty b); [|eapply does_bind; [eapply does_bind; [apply does_gets | by apply does_updb | done] | by apply does_updb | done]].
    eapply does_bind; [eapply does_bind; [by apply does_updb | eapply does_bind; [apply does_modify | by eexists | reflexivity] | reflexivity] | | done].
    exists []. split; [|done]. unfold updb, modify, at_buf, set_disk, set_bufs. simpl. by rewrite alter_insert. }
  exists tr. rewrite <- (at_buf_id s i b Hb) in Hr. rewrite Hr. unfold serve. by rewrite Hb.
Qed.

(** The queue starts at [h] and consists of the buffers [q]. *)
Fixpoint chain (qn : list (option nat)) (h : option nat) (q : list nat) : Prop :=
  match q with
  | [] => h = None
  | i :: q => h = Some i ∧ ∃ n, qn !! i = Some n ∧ chain qn n q
  end.

Definition ready (a : ata) : Prop := Z.land (a_status a) (Z.lor IDE_BSY IDE_DRDY) = IDE_DRDY.

(** The controller works on the first request of the queue. *)
Definition works_on (s : istate) (q : list nat) : Prop :=
  match q with
  | [] => a_active (drv s) = None ∧ ready (drv s)
  | i :: _ => ∃ b, bufs (ib s) !! i = Some b ∧ a_active (drv s) = Some (request_of b)
  end.

Record iok (q : list nat) (s : istate) : Prop := {
  i_chain : chain (qnext s) (idequeue s) q;
  i_nodup : NoDup q;
  i_len : length (qnext s) = length (bufs (ib s));
  i_pending i : i ∈ q → ∃ b, bufs (ib s) !! i = Some b ∧ pending b;
  i_works : works_on s q;
  i_disk1 : havedisk1 s = 1;
  i_size : disksize (ib s) = FSSIZE;
}.

(** *** Starting a request *)

Lemma set_drv_drv a a' s : set_drv a (set_drv a' s) = set_drv a s.
Proof. done. Qed.

Lemma set_ib_ib s : set_ib (ib s) s = s.
Proof. by destruct s. Qed.

(** The registers hold the sector number. *)
Lemma addressed n d a : 0 ≤ n < 1000 → d = 1 →
  let a' := outb_ata 0x1f6 (Z.lor (Z.lor 0xe0 (Z.shiftl (Z.land d 1) 4)) (Z.land (Z.shiftr n 24) 0x0f))
    (outb_ata 0x1f5 (Z.land (Z.shiftr n 16) 0xff) (outb_ata 0x1f4 (Z.land (Z.shiftr n 8) 0xff) (outb_ata 0x1f3 (Z.land n 0xff) a))) in
  drive a' = 1 ∧ selected a' = n.
Proof.
  intros Hn -> a'. assert (Z.shiftr n 24 = 0) as H24 by (rewrite Z.shiftr_div_pow2, Z.div_small by lia; done).
  unfold a', drive, selected. simpl. rewrite H24. split; [done|]. change (2 ^ 24 * Z.land (Z.lor (Z.lor 224 _) _) 15) with 0.
  change 255 with (Z.ones 8). rewrite !Z.land_ones, !Z.shiftr_div_pow2 by lia. change (2 ^ 8) with 256. change (2 ^ 16) with 65536.
  Z.div_mod_to_equations. lia.
Qed.

Lemma idestart_run i b s : bufs (ib s) !! i = Some b → pending b → ready (drv s) →
  ∃ a, idestart (Some i) s = Ok () (set_drv a s) [] ∧ a_active a = Some (request_of b).
Proof.
  intros Hb (_ & Hd & Hn) Hr. change FSSIZE with 1000 in Hn. unfold idestart, bio, zoom, getb. mrun. rewrite Hb. simpl.
  rewrite (proj2 (Z.leb_gt _ _)) by (change FSSIZE with 1000; lia). unfold idewait. mrun. unfold ready in Hr. rewrite Hr. simpl.
  rewrite Z.mul_1_r, s32_small by lia. fold (dirty b). rewrite !set_drv_drv, set_ib_ib.
  destruct (addressed (blockno b) (dev b) (outb_ata 0x1f2 (u8 (BSIZE / SECTOR_SIZE)) (outb_ata 0x3f6 0 (drv s)))) as [Ed Es]; [lia | done|].
  unfold request_of. destruct (dirty b); mrun; rewrite ?set_drv_drv; (eexists; split; [reflexivity|]); simpl; by rewrite Ed, Es.
Qed.

(** *** The interrupt *)

Lemma flags_served f : Z.land (Z.lor f B_VALID) (Z.lnot B_DIRTY) = Z.lor (Z.land f (Z.lnot B_DIRTY)) B_VALID.
Proof. rewrite Z.land_lor_distr_l. done. Qed.

Lemma flags_clean f : truth (Z.land f B_DIRTY) = false → Z.land (Z.lor f B_VALID) (Z.lnot B_DIRTY) = Z.lor f B_VALID.
Proof.
  intros Hf. rewrite flags_served. f_equal. apply Z.bits_inj. intros k. rewrite Z.land_spec. destruct (decide (0 ≤ k)); [|by rewrite !Z.testbit_neg_r by lia].
  rewrite Z.lnot_spec by done. change B_DIRTY with (Z.shiftl 1 2) in *. rewrite testbit_one by lia. rewrite truth_land_bit in Hf by lia.
  case_bool_decide; [subst; by rewrite Hf | apply andb_true_r].
Qed.

Lemma getb_run i b s : bufs (ib s) !! i = Some b → bio (getb i) s = Ok b s [].
Proof. intros Hb. unfold bio, zoom, getb. rewrite Hb. by rewrite set_ib_ib. Qed.

Definition put_buf (i : nat) (b : buf) (s : istate) : istate := set_ib (set_bufs (<[i := b]> (bufs (ib s))) (ib s)) s.

Lemma updb_run i b f s : bufs (ib s) !! i = Some b → bio (updb i f) s = Ok () (put_buf i (f b) s) [].
Proof. intros Hb. unfold bio, zoom, updb, modify, put_buf. do 4 f_equal. rewrite <- (list_insert_id _ _ _ Hb) at 1. apply alter_insert. by eapply lookup_lt_Some. Qed.

Lemma bufs_put i b s : bufs (ib (put_buf i b s)) = <[i := b]> (bufs (ib s)).
Proof. done. Qed.

Lemma put_buf_put i b b' s : put_buf i b (put_buf i b' s) = put_buf i b s.
Proof. unfold put_buf, set_ib, set_bufs. simpl. by rewrite list_insert_insert_eq. Qed.

Lemma iok_start q s a : chain (qnext s) (idequeue s) q → NoDup q → length (qnext s) = length (bufs (ib s)) →
  (∀ i, i ∈ q → ∃ b, bufs (ib s) !! i = Some b ∧ pending b) → works_on (set_drv a s) q → havedisk1 s = 1 → disksize (ib s) = FSSIZE → iok q (set_drv a s).
Proof. intros. by split. Qed.

(** The next request, if there is one. *)
Lemma restart_run q s : chain (qnext s) (idequeue s) q → NoDup q → length (qnext s) = length (bufs (ib s)) →
  (∀ i, i ∈ q → ∃ b, bufs (ib s) !! i = Some b ∧ pending b) → ready (drv s) → a_active (drv s) = None → havedisk1 s = 1 → disksize (ib s) = FSSIZE →
  wp (h ← gets idequeue ; when (bool_decide (h ≠ None)) (idestart h) ;; release Lide) s (λ _ s' _, ib s' = ib s ∧ iok q s').
Proof.
  intros Hc Hnd Hlen Hp Hr Ha Hd Hsz. destruct q as [|i q].
  - simpl in Hc. wp_steps. rewrite Hc. simpl. repeat wp_step. split; [done|]. by split.
  - destruct (Hp i) as (b & Hb & Hpb); [set_solver|]. pose proof Hc as (Hh & _). destruct (idestart_run i b s Hb Hpb Hr) as (a & Hrun & Hact).
    do 2 wp_step. rewrite Hh, bool_decide_eq_true_2 by done. apply (wp_bind_ok _ _ _ _ _ _ Hrun). wp_step. split; [done|]. apply iok_start; try done. by exists b.
Qed.

(** What the controller has done. *)
Lemma serve_request_run i b q s : works_on s (i :: q) → bufs (ib s) !! i = Some b →
  let s1 := serve_request false s in
  s1 = set_drv (drv s1) (set_ib (ib s1) s) ∧ ready (drv s1) ∧ a_active (drv s1) = None ∧ Z.land (a_status (drv s1)) (Z.lor IDE_DF IDE_ERR) = 0 ∧
  ib s1 = (if dirty b then set_disk (λ n, if n =? blockno b then bdata b else disk (ib s) n) (ib s) else ib s) ∧
  (dirty b = false → a_xfer (drv s1) = disk (ib s) (blockno b)).
Proof.
  intros (b' & Hb' & Ha) Hb. assert (b' = b) as -> by congruence. unfold serve_request. rewrite Ha. unfold request_of. simpl. destruct (dirty b); simpl; split_and!; done.
Qed.

Lemma bind_quiet {A B} (m : I A) (k : A → I B) s a s1 : m s = Ok a s1 [] → (m ≫= k) s = k a s1.
Proof. intros Hm. unfold mbind, M_bind. rewrite Hm. by destruct (k a s1). Qed.

(** The data of a read request. *)
Lemma fetch_run i b d s : bufs (ib s) !! i = Some b → ready (drv s) → Z.land (a_status (drv s)) (Z.lor IDE_DF IDE_ERR) = 0 →
  (dirty b = false → a_xfer (drv s) = d) →
  (if dirty b then mret () else r ← idewait true ; when (0 <=? r) (d ← insl ; bio (updb i (set_bdata d)))) s =
  Ok () (put_buf i (if dirty b then b else set_bdata d b) s) [].
Proof.
  intros Hb Hr He Hx. destruct (dirty b).
  - unfold put_buf. rewrite list_insert_id by done. by destruct s as [[] ? ? ? ? ? ?].
  - assert (idewait true s = Ok 0 s []) as Hi by (unfold idewait, ready in *; mrun; by rewrite Hr, He).
    rewrite (bind_quiet _ _ _ _ _ Hi). change (0 <=? 0) with true. cbn [when]. rewrite (bind_quiet insl _ s (a_xfer (drv s)) s) by done.
    by rewrite (updb_run i b), Hx.
Qed.

(** The controller serves the first request and interrupts. *)
Lemma ideintr_run i q s : iok (i :: q) s →
  wp ideintr (serve_request false s) (λ _ s' tr, EWakeup (Ch_buf i) ∈ tr ∧ ib s' = serve i (ib s) ∧ iok q s').
Proof.
  intros [(Hh & n & Hn & Hc) Hnd Hlen Hp Hw Hd Hsz]. destruct (Hp i) as (b & Hb & Hpb); [set_solver|]. apply NoDup_cons in Hnd as [Hni Hnd].
  destruct (serve_request_run i b q s Hw Hb) as (Hs1 & Hr & Hact & Hst & Hib & Hx). set (s1 := serve_request false s) in *.
  assert (bufs (ib s1) = bufs (ib s)) as Hbufs by (rewrite Hib; by destruct (dirty b)).
  pose (bf := set_flags (Z.land (Z.lor (flags b) B_VALID) (Z.lnot B_DIRTY)) (if dirty b then b else set_bdata (disk (ib s) (blockno b)) b)).
  pose (s2 := put_buf i bf (set_queue (qnext s) n s1)).
  assert (ib s2 = serve i (ib s)) as Hserve.
  { unfold s2, put_buf, serve. simpl. rewrite Hb, Hbufs, Hib. unfold bf. destruct (dirty b) eqn:Hdb; simpl; [by rewrite flags_served | by rewrite flags_clean]. }
  assert (idequeue s1 = Some i ∧ qnext s1 = qnext s ∧ havedisk1 s1 = 1) as (E1 & E2 & E3) by (rewrite Hs1; done).
  unfold ideintr. do 4 wp_step. rewrite E1. do 2 wp_step. rewrite E2, Hn. simpl default. set (s1' := set_queue (qnext s) n s1).
  apply (wp_bind_ok _ _ _ _ _ _ (getb_run i b s1' ltac:(by rewrite <- Hb, <- Hbufs))). fold (dirty b).
  apply (wp_bind_ok _ _ _ _ _ _ (fetch_run i b (disk (ib s) (blockno b)) s1' ltac:(by rewrite <- Hb, <- Hbufs) Hr Hst Hx)). set (bd := if dirty b then _ else _).
  assert (∀ x, bufs (ib (put_buf i x s1')) !! i = Some x) as Hput by (intros x; rewrite bufs_put; apply list_lookup_insert_eq; simpl; rewrite Hbufs; by eapply lookup_lt_Some).
  apply (wp_bind_ok _ _ _ _ _ _ (updb_run i _ _ _ (Hput _))). rewrite put_buf_put.
  apply (wp_bind_ok _ _ _ _ _ _ (updb_run i _ _ _ (Hput _))). rewrite put_buf_put. do 2 wp_step.
  replace (set_flags _ (set_flags _ bd)) with bf by (unfold bf, bd; by destruct (dirty b)). change (put_buf i bf s1') with s2.
  eapply wp_mono; [apply (restart_run q)|].
  - done.
  - done.
  - unfold s2. rewrite bufs_put, length_insert. simpl. by rewrite Hbufs.
  - intros j Hj. unfold s2. rewrite bufs_put. simpl. rewrite Hbufs, list_lookup_insert_ne by set_solver. apply Hp. set_solver.
  - done.
  - done.
  - done.
  - rewrite Hserve. unfold serve. rewrite Hb. by destruct (dirty b).
  - intros _ s' tr [-> Hok]. split; [set_solver | done].
Qed.

(** *** Submitting a request *)

Lemma chain_lookup qn h q : chain qn h q → ∀ i, i ∈ q → (i < length qn)%nat.
Proof.
  revert h. induction q as [|j q IH]; intros h Hc i Hi; [set_solver|]. destruct Hc as (_ & n & Hn & Hc).
  apply list_elem_of_In in Hi as [<-|Hi%list_elem_of_In]; [by eapply lookup_lt_Some | by eapply IH].
Qed.

Lemma chain_insert qn h q i n : chain qn h q → i ∉ q → chain (<[i := n]> qn) h q.
Proof.
  revert h. induction q as [|j q IH]; intros h Hc Hi; [done|]. destruct Hc as (-> & m & Hm & Hc). apply not_elem_of_cons in Hi as [Hne Hi].
  split; [done|]. exists m. rewrite list_lookup_insert_ne by done. split; [done | by apply IH].
Qed.

(** The walk to the end of the queue, and the new end. *)
Lemma find_tail_run s q : ∀ h i fuel, chain (qnext s) h (i :: q) → NoDup (i :: q) → (length (i :: q) ≤ fuel)%nat →
  ∃ t, find_tail fuel i s = Ok t s [] ∧ t ∈ i :: q ∧
    ∀ j, j ∉ i :: q → (j < length (qnext s))%nat → chain (<[t := Some j]> (<[j := None]> (qnext s))) h (i :: q ++ [j]).
Proof.
  induction q as [|k q IH]; intros h i fuel (Hh & n & Hn & Hc) Hnd Hf; (destruct fuel as [|fuel]; [simpl in Hf; lia|]); cbn [find_tail]; mrun; rewrite Hn; simpl.
  - simpl in Hc. subst n. exists i. split; [done|]. split; [set_solver|]. intros j Hj Hlt. pose proof (lookup_lt_Some _ _ _ Hn). split; [done|].
    exists (Some j). rewrite list_lookup_insert_eq by (by rewrite length_insert). split; [done|]. split; [done|]. exists None.
    split; [|done]. rewrite list_lookup_insert_ne, list_lookup_insert_eq by (done || set_solver). done.
  - pose proof Hc as (-> & _). apply NoDup_cons in Hnd as [Hni Hnd]. destruct (IH (Some k) k fuel Hc Hnd) as (t & Ht & Hin & Hch); [simpl in *; lia|].
    exists t. rewrite Ht. split; [done|]. split; [set_solver|]. intros j Hj Hlt. split; [done|]. exists (Some k).
    split; [|apply Hch; [set_solver | done]]. rewrite !list_lookup_insert_ne; [done | set_solver | intros ->; set_solver].
Qed.

Lemma enqueue_run i q s : chain (qnext s) (idequeue s) q → NoDup q → i ∉ q → (i < length (qnext s))%nat →
  ∃ qn h, enqueue i s = Ok () (set_queue qn h s) [] ∧ chain qn h (q ++ [i]) ∧ length qn = length (qnext s).
Proof.
  intros Hc Hnd Hi Hlt. unfold enqueue. set (s1 := set_queue (<[i := None]> (qnext s)) (idequeue s) s).
  rewrite (bind_quiet _ _ s () s1) by done. rewrite (bind_quiet _ _ s1 (idequeue s) s1) by done. destruct q as [|j q].
  - simpl in Hc. rewrite Hc. eexists _, _. split; [reflexivity|]. simpl. split; [|by rewrite length_insert]. split; [done|]. exists None. by rewrite list_lookup_insert_eq.
  - pose proof Hc as (Hh & _). rewrite Hh in Hc. rewrite Hh, (bind_quiet _ _ s1 (length (qnext s1)) s1) by done.
    pose proof (chain_insert _ _ _ i None Hc Hi) as Hc1. assert (length (qnext s1) = length (qnext s)) as Hlen by apply length_insert.
    destruct (find_tail_run s1 q (Some j) j (length (qnext s1))) as (t & Ht & Hin & Hch); [done | done | |].
    { transitivity (length (seq 0 (length (qnext s1)))); [|by rewrite length_seq]. apply submseteq_length, NoDup_submseteq; [done|]. intros k Hk. apply elem_of_seq. pose proof (chain_lookup _ _ _ Hc1 k Hk). simpl in *. lia. }
    rewrite (bind_quiet _ _ _ _ _ Ht). eexists _, _. split; [reflexivity|]. split; [|rewrite length_insert; done].
    specialize (Hch i Hi ltac:(lia)). change (qnext s1) with (<[i := None]> (qnext s)) in *. rewrite list_insert_insert_eq in Hch. change (idequeue s1) with (idequeue s). by rewrite Hh.
Qed.

Lemma hoare_bind_Ok {A B} C (P : istate → Prop) (m : I A) (k : A → I B) s a s1 tr Q : m s = Ok a s1 tr → hoare C (k a) s1 Q P → hoare C (m ≫= k) s Q P.
Proof. intros Hm Hk. apply hoare_bind. unfold hoare at 1. by rewrite Hm. Qed.

(** A process submits a request and goes to sleep. *)
Lemma iderw_run i b q s : iok q s → i ∉ q → bufs (ib s) !! i = Some b → block b = Sleeplock.mk_slock 1 (bpid (ib s)) → pending b →
  hoare False (iderw i) s (λ _ _, False) (λ s', ib s' = ib s ∧ iok (q ++ [i]) s').
Proof.
  intros [Hc Hnd Hlen Hp Hw Hd Hsz] Hi Hb Hlk Hpb. pose proof (lookup_lt_Some _ _ _ Hb) as Hlt. pose proof Hpb as (Hsy & Hdev & Hn).
  destruct (does_holdingsleep (ib s) i Hlt b Hlk) as (tr & Hh & _). rewrite <- (at_buf_id _ _ _ Hb) in Hh.
  destruct (enqueue_run i q s Hc Hnd Hi ltac:(lia)) as (qn & h & He & Hc' & Hl').
  unfold iderw. eapply hoare_bind_Ok; [unfold bio, zoom; rewrite Hh; by rewrite set_ib_ib|]. cbn [negb].
  eapply hoare_bind_Ok; [by apply getb_run|]. rewrite Hsy. do 2 hoare_step. rewrite Hd. rewrite andb_false_r. do 2 hoare_step. eapply hoare_bind_Ok; [exact He|]. do 2 hoare_step.
  set (s1 := set_queue qn h s). assert (NoDup (q ++ [i])) as Hnd' by (apply NoDup_app; split; [done|]; split; [set_solver | apply NoDup_singleton]).
  assert (∀ j, j ∈ q ++ [i] → ∃ b, bufs (ib s1) !! j = Some b ∧ pending b) as Hp'.
  { intros j [Hj|Hj]%elem_of_app; [by apply Hp | exists b; set_solver]. }
  assert (∀ a, works_on (set_drv a s1) (q ++ [i]) → hoare False (iderw_wait i) (set_drv a s1) (λ _ _, False) (λ s', ib s' = ib s ∧ iok (q ++ [i]) s')) as Hwait.
  { intros a Ha. unfold iderw_wait. eapply hoare_bind_Ok; [by apply getb_run|]. rewrite Hsy. split; [done|]. apply iok_start; try done. simpl. by rewrite Hl'. }
  assert (idequeue s1 = Some i ↔ q = []) as Hfirst.
  { change (h = Some i ↔ q = []). destruct q as [|j q]; [destruct Hc' as [-> _]; done|]. destruct Hc' as [-> _]. split; [|done]. intros [= ->]. set_solver. }
  destruct q as [|j q].
  - rewrite bool_decide_eq_true_2 by (by apply Hfirst). destruct Hw as [Ha Hr]. destruct (idestart_run i b s1 Hb Hpb Hr) as (a & Hrun & Hact).
    eapply hoare_bind_Ok; [exact Hrun|]. apply Hwait. by exists b.
  - rewrite bool_decide_eq_false_2 by (by intros ?%Hfirst). cbn [when]. do 2 hoare_step. replace s1 with (set_drv (drv s1) s1) by (by destruct s1). apply Hwait. exact Hw.
Qed.

(** ** The driver refines memide.c *)

(** What the requests in the queue are going to do. *)
Definition effect (q : list nat) (b : bstate) : bstate := foldl (λ b i, serve i b) b q.

Definition put (i : nat) (x : buf) (b : bstate) : bstate := set_bufs (<[i := x]> (bufs b)) b.
Definition run_as (pid : Z) (b : bstate) : bstate := mk_bstate (bufs b) (lru_next b) (lru_prev b) (disk b) (disksize b) pid.

Lemma serve_other i j b : i ≠ j → bufs (serve i b) !! j = bufs b !! j.
Proof. intros Hne. unfold serve. destruct (bufs b !! i) as [x|]; [|done]. destruct (dirty x); simpl; by rewrite list_lookup_insert_ne. Qed.

Lemma serve_put i j x b : i ≠ j → serve i (put j x b) = put j x (serve i b).
Proof.
  intros Hne. unfold serve, put. simpl. rewrite list_lookup_insert_ne by done. destruct (bufs b !! i) as [y|]; [|done].
  destruct (dirty y); unfold set_disk, set_bufs; simpl; by rewrite list_insert_insert_ne.
Qed.

Lemma serve_run_as i pid b : serve i (run_as pid b) = run_as pid (serve i b).
Proof. unfold serve. simpl. destruct (bufs b !! i) as [y|]; [|done]. by destruct (dirty y). Qed.

Lemma effect_snoc q i b : effect (q ++ [i]) b = serve i (effect q b).
Proof. unfold effect. by rewrite foldl_app. Qed.

Lemma effect_other q j b : j ∉ q → bufs (effect q b) !! j = bufs b !! j.
Proof.
  revert b. induction q as [|i q IH]; intros b Hj; [done|]. apply not_elem_of_cons in Hj as [Hne Hj]. simpl. rewrite IH by done. by apply serve_other.
Qed.

Lemma effect_put q j x b : j ∉ q → effect q (put j x b) = put j x (effect q b).
Proof. revert b. induction q as [|i q IH]; intros b Hj; [done|]. apply not_elem_of_cons in Hj as [Hne Hj]. simpl. by rewrite serve_put, IH. Qed.

Lemma effect_run_as q pid b : effect q (run_as pid b) = run_as pid (effect q b).
Proof. revert b. induction q as [|i q IH]; intros b; [done|]. simpl. by rewrite serve_run_as, IH. Qed.

Lemma effect_disksize q b : disksize (effect q b) = disksize b.
Proof.
  revert b. induction q as [|i q IH]; intros b; [done|]. simpl. rewrite IH. unfold serve. destruct (bufs b !! i) as [y|]; [|done]. by destruct (dirty y).
Qed.

(** What happens on the machine: process [pid] calls [iderw] on buffer [i], the
    controller interrupts, or the kernel changes a buffer to [x]. *)
Inductive label :=
  | Submit (i : nat) (pid : Z)
  | Irq
  | Use (i : nat) (x : buf).

(** The machine with ide.c. The kernel changes only buffers that are not in the
    queue: the process of a request holds the lock of its buffer, and sleeps. *)
Definition queued (s : istate) (i : nat) : Prop := ∃ q, chain (qnext s) (idequeue s) q ∧ i ∈ q.

Inductive istep (s : istate) : label → istate → Prop :=
  | submits i pid b c s' tr :
      ¬ queued s i → bufs (ib s) !! i = Some b → block b = Sleeplock.mk_slock 1 pid → pending b →
      iderw i (set_ib (run_as pid (ib s)) s) = Blocked c s' tr → istep s (Submit i pid) s'
  | interrupts s' tr : ideintr (serve_request false s) = Ok () s' tr → istep s Irq s'
  | uses i b x : ¬ queued s i → bufs (ib s) !! i = Some b → istep s (Use i x) (put_buf i x s).

Inductive irun (s : istate) : list label → istate → Prop :=
  | irun_nil : irun s [] s
  | irun_snoc ls s1 l s2 : irun s ls s1 → istep s1 l s2 → irun s (ls ++ [l]) s2.

(** The machine with memide.c, which has no interrupts, doing the same. *)
Definition astep (l : label) (b : bstate) : option bstate :=
  match l with
  | Submit i pid => match Bio.iderw i (run_as pid b) with Ok _ b' _ => Some b' | _ => None end
  | Irq => Some b
  | Use i x => Some (put i x b)
  end.
Definition arun (ls : list label) (b : bstate) : option bstate := foldl (λ o l, o ≫= astep l) (Some b) ls.

Lemma arun_snoc ls l b : arun (ls ++ [l]) b = arun ls b ≫= astep l.
Proof. unfold arun. by rewrite foldl_snoc. Qed.

(** The queue is determined by the state. *)
Lemma chain_det qn h q q' : chain qn h q → chain qn h q' → q = q'.
Proof.
  revert h q'. induction q as [|i q IH]; intros h [|j q'] H1 H2; simpl in *; [done | by destruct H2; subst | by destruct H1; subst |].
  destruct H1 as (-> & n & Hn & H1), H2 as ([= <-] & n' & Hn' & H2). simplify_eq. f_equal. by eapply IH.
Qed.

Lemma not_queued q s i : iok q s → ¬ queued s i → i ∉ q.
Proof. intros [Hc _ _ _ _ _ _] Hn Hi. apply Hn. by exists q. Qed.

Lemma iok_put q s i x b : iok q s → i ∉ q → bufs (ib s) !! i = Some b → iok q (put_buf i x s).
Proof.
  intros [Hc Hnd Hlen Hp Hw Hd Hsz] Hi Hb. split; try done.
  - rewrite bufs_put, length_insert. done.
  - intros j Hj. rewrite bufs_put, list_lookup_insert_ne by set_solver. by apply Hp.
  - destruct q as [|j q]; [done|]. destruct Hw as (y & Hy & Ha). exists y. rewrite bufs_put, list_lookup_insert_ne by set_solver. done.
Qed.

Lemma iok_run_as q s pid : iok q s → iok q (set_ib (run_as pid (ib s)) s).
Proof. intros []. by split. Qed.

Lemma ideintr_idle s : iok [] s → ∃ tr, ideintr (serve_request false s) = Ok () s tr.
Proof. intros [Hc _ _ _ [Ha _] _ _]. simpl in Hc. unfold serve_request. rewrite Ha. unfold ideintr. mrun. rewrite Hc. by eexists. Qed.

(** Every step is the step of the machine with memide.c with the same label. *)
Lemma istep_sim q s l s' : iok q s → istep s l s' →
  ∃ q', iok q' s' ∧ astep l (effect q (ib s)) = Some (effect q' (ib s')).
Proof.
  intros Hok Hst. destruct Hst as [i pid b c s' tr Hnq Hb Hlk Hpb Hrun|s' tr Hrun|i b x Hnq Hb].
  - pose proof (not_queued q s i Hok Hnq) as Hi. pose proof (iderw_run i b q _ (iok_run_as q s pid Hok) Hi Hb Hlk Hpb) as Hh.
    unfold hoare in Hh. rewrite Hrun in Hh. destruct Hh as [Hib Hok']. exists (q ++ [i]). split; [done|]. rewrite Hib, effect_snoc. simpl.
    rewrite effect_run_as.
    destruct (serve_iderw i (run_as pid (effect q (ib s))) b) as [tr' Hat]; [simpl; by rewrite effect_other | done | done | simpl; rewrite effect_disksize; apply Hok |].
    by rewrite Hat.
  - destruct q as [|i q].
    + destruct (ideintr_idle s Hok) as [tr' Hr]. rewrite Hr in Hrun. injection Hrun as <- _. by exists [].
    + pose proof (ideintr_run i q s Hok) as Hw. unfold wp in Hw. rewrite Hrun in Hw. destruct Hw as (_ & Hib & Hok'). exists q. split; [done|]. simpl. by rewrite Hib.
  - pose proof (not_queued q s i Hok Hnq) as Hi. exists q. split; [by eapply iok_put|]. change (ib (put_buf i x s)) with (put i x (ib s)). by rewrite effect_put.
Qed.


(** *** Every request completes *)

(** The controller serves a request and interrupts. *)
Definition irq : I unit := modify (serve_request false) ;; ideintr.

Lemma irqs_run q1 : ∀ q2 s, iok (q1 ++ q2) s → wp (for_each q1 (λ _, irq)) s (λ _ s' _, ib s' = effect q1 (ib s) ∧ iok q2 s').
Proof.
  induction q1 as [|i q1 IH]; intros q2 s Hok; [done|]. cbn [for_each]. apply wp_bind. unfold irq at 1. do 2 wp_step. eapply wp_mono; [by apply (ideintr_run i (q1 ++ q2))|].
  intros _ s1 tr (_ & Hib & Hok1). eapply wp_mono; [by apply (IH q2)|]. intros _ s2 tr2 [Hib2 Hok2]. split; [|done]. by rewrite Hib2, Hib.
Qed.

Lemma flags_synced f : Z.land (Z.lor (Z.land f (Z.lnot B_DIRTY)) B_VALID) (Z.lor B_VALID B_DIRTY) = B_VALID.
Proof.
  rewrite Z.land_lor_distr_l, <- Z.land_assoc. change (Z.land (Z.lnot B_DIRTY) (Z.lor B_VALID B_DIRTY)) with 2. change (Z.land B_VALID (Z.lor B_VALID B_DIRTY)) with 2.
  apply Z.bits_inj. intros k. change B_VALID with 2. rewrite Z.lor_spec, Z.land_spec. destruct (Z.testbit 2 k); [apply orb_true_r | by rewrite andb_false_r].
Qed.

Lemma synced_served i b : ∀ x, bufs b !! i = Some x → ∃ y, bufs (serve i b) !! i = Some y ∧ synced y = true.
Proof.
  intros x Hx. pose proof (lookup_lt_Some _ _ _ Hx). unfold serve. rewrite Hx. unfold synced. destruct (dirty x) eqn:Hd; simpl; rewrite list_lookup_insert_eq by done; eexists; (split; [reflexivity|]); simpl.
  - by rewrite flags_synced.
  - by rewrite <- flags_clean, flags_served, flags_synced.
Qed.

(** C28: Every request completes. A process waiting in [iderw] behind the requests
    [q1] returns after the interrupts of these and of its own request; neither
    the interrupt handler nor the driver panics or spins. *)
Theorem ide_completes q1 i q2 s : iok (q1 ++ i :: q2) s →
  wp (for_each (q1 ++ [i]) (λ _, irq) ;; iderw_wait i) s (λ _ s' _, ib s' = effect (q1 ++ [i]) (ib s) ∧ iok q2 s').
Proof.
  intros Hok. destruct (i_pending _ _ Hok i ltac:(set_solver)) as (b & Hb & _). assert (i ∉ q1) as Hi.
  { pose proof (i_nodup _ _ Hok) as Hnd. apply NoDup_app in Hnd as (_ & Hd & _). intros Hi. apply (Hd i Hi). set_solver. }
  apply wp_bind. eapply wp_mono; [apply (irqs_run (q1 ++ [i]) q2); by rewrite <- app_assoc|]. intros _ s' tr [Hib Hok'].
  destruct (synced_served i (effect q1 (ib s)) b) as (y & Hy & Hsy); [by rewrite effect_other|].
  unfold iderw_wait. apply (wp_bind_ok _ _ _ y s'); [apply getb_run; by rewrite Hib, effect_snoc|]. by rewrite Hsy.
Qed.

(** ** An example *)

Definition ex_buf (flags blockno pid : Z) : buf := mk_buf flags 1 blockno (Sleeplock.mk_slock 1 pid) 1 (replicate 512 7).
Definition ex_bufs : bstate := mk_bstate [ex_buf 0 5 1; ex_buf 4 5 2; ex_buf 2 9 3] [] [] (λ n, replicate 512 n) FSSIZE 1.
Definition idle : ata := mk_ata 0 0 0 0 0 IDE_DRDY None [] (λ _, []).
Definition ex_ide : istate := mk_istate ex_bufs [None; None; None] None 1 idle Apic.ex_apic 2.

Lemma ex_ide_ok : iok [] ex_ide.
Proof. split; try done; [by constructor | intros i Hi; set_solver]. Qed.

(** Process 1 reads block 5 and process 2 writes it; then the controller serves them. *)
Definition after {A} (o : outcome istate A) (s : istate) : istate := match o with Ok _ s' _ | Blocked _ s' _ => s' | Crashed _ _ => s end.
Definition ex1 : istate := after (iderw 0 (set_ib (run_as 1 (ib ex_ide)) ex_ide)) ex_ide.
Definition ex2 : istate := after (iderw 1 (set_ib (run_as 2 (ib ex1)) ex1)) ex1.

Lemma ex_submit q i pid b s : iok q s → i ∉ q → bufs (ib s) !! i = Some b → block b = Sleeplock.mk_slock 1 pid → pending b →
  let s' := after (iderw i (set_ib (run_as pid (ib s)) s)) s in ib s' = run_as pid (ib s) ∧ iok (q ++ [i]) s' ∧ istep s (Submit i pid) s'.
Proof.
  intros Hok Hi Hb Hlk Hpb s'. pose proof (iderw_run i b q _ (iok_run_as q s pid Hok) Hi Hb Hlk Hpb) as Hh. unfold hoare in Hh. unfold s', after.
  destruct (iderw i _) eqn:Hrun; [done | | done]. destruct Hh. split; [done|]. split; [done|]. eapply submits; try done.
  intros (q' & Hq' & Hin). by rewrite (chain_det _ _ q' q Hq' (i_chain _ _ Hok)) in Hin.
Qed.

Lemma ex1_ok : ib ex1 = run_as 1 ex_bufs ∧ iok [0%nat] ex1 ∧ istep ex_ide (Submit 0 1) ex1.
Proof. apply (ex_submit [] 0 1 (ex_buf 0 5 1) ex_ide ex_ide_ok); [set_solver | done | done | split_and!; done]. Qed.

Lemma ex2_ok : iok [0%nat; 1%nat] ex2 ∧ istep ex1 (Submit 1 2) ex2.
Proof. destruct ex1_ok as (E1 & H1 & _). apply (ex_submit [0%nat] 1 2 (ex_buf 4 5 2) ex1 H1); [set_solver | by rewrite E1 | done | split_and!; done]. Qed.

Lemma ide_completes_witness : wp (for_each [0%nat; 1%nat] (λ _, irq) ;; iderw_wait 1) ex2 (λ _ s' _, ib s' = effect [0%nat; 1%nat] (ib ex2)).
Proof. eapply wp_mono; [exact (ide_completes [0%nat] 1%nat [] ex2 (proj1 ex2_ok))|]. by intros _ s' tr [-> _]. Defined.

Lemma ex_steps : irun ex_ide [Submit 0 1; Submit 1 2] ex2.
Proof. apply (irun_snoc _ [Submit 0 1] ex1); [apply (irun_snoc _ [] ex_ide); [constructor | apply ex1_ok] | apply ex2_ok]. Qed.


End Ide.
