(* ===== verification/Machine.v ===== *)
(** * The machine under the process code

    Physical memory with the page table the CPU uses, the console and the clock.
    User memory is what the hardware finds through the page table; as long as
    the page table describes an address space ([Vm.space]) it meets the
    interface [UserMem] that the signal and system call code is verified
    against. *)

From S2P Require Import Prelude Layout Memory Cstring Kalloc Vm Proc Signal Syscall Console.

Module Machine.
Import Cstring Kalloc Vm Proc.

Record machine := mk_machine {
  mm : kmem;              (** physical memory and its allocator *)
  cr3 : Z;                (** the page directory in use *)
  con : Console.cstate;
  tick : Z;               (** [ticks] of trap.c *)
}.
Definition set_mm (x : kmem) (s : machine) : machine := mk_machine x (cr3 s) (con s) (tick s).
Definition set_cr3 (x : Z) (s : machine) : machine := mk_machine (mm s) x (con s) (tick s).
Definition set_con (x : Console.cstate) (s : machine) : machine := mk_machine (mm s) (cr3 s) x (tick s).
Definition set_tick (x : Z) (s : machine) : machine := mk_machine (mm s) (cr3 s) (con s) x.

(** ** Address translation *)

(** Where the kernel, running with page directory [cr3], finds the byte at user
    address [va] *)
Definition translate (m : mem) (cr3 va : Z) : option Z :=
  if (0 <=? va) && (va <? KERNBASE) then
    let pde := load32 m (P2V cr3 + 4 * PDX va) in
    if truth (Z.land pde PTE_P) then
      let pte := load32 m (P2V (PTE_ADDR pde) + 4 * PTX va) in
      if truth (Z.land pte PTE_P) then Some (P2V (PTE_ADDR pte) + va mod PGSIZE) else None
    else None
  else None.

Definition mload (s : machine) (va : Z) : option Z := kmemory (mm s) <$> translate (kmemory (mm s)) (cr3 s) va.
Definition mstore (s : machine) (va v : Z) : option machine :=
  (λ a, set_mm (set_mem (write_bytes (kmemory (mm s)) a [v]) (mm s)) s) <$> translate (kmemory (mm s)) (cr3 s) va.

(** The page table in use is that of an address space. *)
Definition paged (s : machine) : Prop :=
  ∃ kend l tabs um, KERNBASE < kend ∧ space kend (mm s) l (P2V (cr3 s)) tabs um.

Lemma translate_space kend s l cr3 tabs um va :
  KERNBASE < kend → space kend s l (P2V cr3) tabs um →
  translate (kmemory s) cr3 va =
    match um (va / PGSIZE) with Some (p, _) => Some (p + va mod PGSIZE) | None => None end.
Proof.
  intros Hk Hsp. pose proof Hsp as ((_ & (Hd & Ht & _) & _) & (Hu & Hur & _) & _). unfold translate.
  destruct (Z.leb_spec 0 va) as [H0|H0], (Z.ltb_spec va KERNBASE) as [H1|H1]; simpl andb; cbv iota.
  2-4: destruct (um (va / PGSIZE)) as [x|] eqn:E; [|done]; apply Hur in E; change NUPAGES with 524288 in E; unfold PGSIZE, KERNBASE in *; Z.div_mod_to_equations; lia.
  assert (0 ≤ va / PGSIZE < NUPAGES) as Hn by (change NUPAGES with 524288; unfold PGSIZE, KERNBASE in *; Z.div_mod_to_equations; lia).
  specialize (Hu _ Hn). rewrite <- pte_page in Hu by (unfold KERNBASE in *; lia). unfold pte in Hu. specialize (Ht _ (PDX_range va)).
  destruct (tabs (PDX va)) as [t|].
  - destruct Ht as (-> & Hok & _). destruct (entry_decode kend Hk t 7 Hok) as (-> & -> & _); [done..|].
    destruct (um (va / PGSIZE)) as [[p f]|]; [|by rewrite Hu]. destruct Hu as (-> & Hp & Hf & Hodd).
    destruct (entry_decode kend Hk p f Hp Hf Hodd) as (-> & -> & _). done.
  - rewrite Ht. change (truth 0) with false. destruct (um (va / PGSIZE)) as [[p f]|]; [|done].
    destruct Hu as (Hz & Hp & Hf & _). destruct (page_ok_V2P kend Hk p Hp) as (_ & _ & _ & ? & _). lia.
Qed.

Lemma mload_space kend s l tabs um va :
  KERNBASE < kend → space kend (mm s) l (P2V (cr3 s)) tabs um → mload s va = uread (kmemory (mm s)) um va.
Proof.
  intros Hk Hsp. unfold mload, uread. rewrite (translate_space kend (mm s) l (cr3 s) tabs um) by done. by destruct (um _) as [[p f]|].
Qed.

(** A store changes one byte of user memory and nothing of the address space. *)
Lemma mstore_space kend s l tabs um va v s' :
  KERNBASE < kend → space kend (mm s) l (P2V (cr3 s)) tabs um → mstore s va v = Some s' →
  cr3 s' = cr3 s ∧ space kend (mm s') l (P2V (cr3 s)) tabs um ∧
  ∀ b, uread (kmemory (mm s')) um b = if decide (b = va) then Some v else uread (kmemory (mm s)) um b.
Proof.
  intros Hk Hsp Hs. unfold mstore in Hs. rewrite (translate_space kend (mm s) l (cr3 s) tabs um) in Hs by done.
  destruct (um (va / PGSIZE)) as [[p f]|] eqn:E; [|done]. injection Hs as <-. split; [done|].
  pose proof (Z.mod_pos_bound va PGSIZE ltac:(done)) as Hm. pose proof (Z.div_mod va PGSIZE ltac:(done)) as Hdm.
  destruct (uread_write kend (mm s) l (P2V (cr3 s)) tabs um (va / PGSIZE) p f (va mod PGSIZE) [v] Hsp E) as [Hsp' Hr]; [lia | simpl; lia|].
  split; [done|]. intros b. simpl in Hr |- *. rewrite Hr. replace (va / PGSIZE * PGSIZE + va mod PGSIZE) with va by lia.
  case_decide as Hb; range_cases; try lia; [|done]. subst b. by rewrite Z.sub_diag.
Qed.

#[export] Program Instance machine_mem : UserMem machine := {|
  user_ok := paged;
  load8 := mload;
  store8 := mstore;
|}.
Next Obligation. intros s va v. unfold mload, mstore. by rewrite !fmap_is_Some. Qed.
Next Obligation.
  intros s va v s' (kend & l & tabs & um & Hk & Hsp) Hs. destruct (mstore_space kend s l tabs um va v s' Hk Hsp Hs) as (Hc & Hsp' & Hr).
  rewrite <- Hc in Hsp'. split; [by exists kend, l, tabs, um|]. intros b. rewrite !(mload_space kend _ l tabs um) by done. apply Hr.
Qed.

#[export] Instance machine_clock : Clock machine := { ticks := tick; set_ticks := set_tick }.

End Machine.
