(* ===== verification/Boot.v ===== *)
(** * Loading the kernel

    bootmain.c: the boot block reads the kernel's ELF image from the disk by
    polling the controller. The theorem shows that the segments of the image are in
    memory when the kernel starts. *)

From S2P Require Import Prelude Layout Memory Cstring.

Module Boot.

Definition SECTSIZE : Z := 512.
Definition ELF_MAGIC : Z := 0x464C457F.

(** ** The machine: memory and the registers of the disk controller *)

Record machine := mk_machine {
  ram : mem;
  count : Z;
  lba0 : Z;
  lba1 : Z;
  lba2 : Z;
  drive : Z;
  busy : nat;            (** for how many more reads of the status *)
  xfer : list Z;         (** what the data port yields *)
}.

Definition set_ram (m : mem) (s : machine) : machine :=
  mk_machine m (count s) (lba0 s) (lba1 s) (lba2 s) (drive s) (busy s) (xfer s).
Definition set_busy (n : nat) (s : machine) : machine :=
  mk_machine (ram s) (count s) (lba0 s) (lba1 s) (lba2 s) (drive s) n (xfer s).

Abbreviation B := (M machine).

Section boot.
(** The sectors of the disk, how long the controller takes for each, and a bound
    on the polls of one wait *)
Context (disk : Z → list Z) (latency : Z → nat) (fuel : nat).

Definition sector (s : machine) : Z := lba0 s + 2 ^ 8 * lba1 s + 2 ^ 16 * lba2 s + 2 ^ 24 * Z.land (drive s) 0x0f.

Definition out (port v : Z) (s : machine) : machine :=
  let set c l0 l1 l2 d := mk_machine (ram s) c l0 l1 l2 d (busy s) (xfer s) in
  if port =? 0x1F2 then set v (lba0 s) (lba1 s) (lba2 s) (drive s)
  else if port =? 0x1F3 then set (count s) v (lba1 s) (lba2 s) (drive s)
  else if port =? 0x1F4 then set (count s) (lba0 s) v (lba2 s) (drive s)
  else if port =? 0x1F5 then set (count s) (lba0 s) (lba1 s) v (drive s)
  else if port =? 0x1F6 then set (count s) (lba0 s) (lba1 s) (lba2 s) v
  else if (port =? 0x1F7) && (v =? 0x20) then
    mk_machine (ram s) (count s) (lba0 s) (lba1 s) (lba2 s) (drive s) (latency (sector s)) (disk (sector s))
  else s.
Definition outb (port v : Z) : B unit := modify (out port (u8 v)).

(** [inb(0x1F7)] *)
Definition inb_status : B Z :=
  n ← gets busy ;
  modify (set_busy (pred n)) ;;
  mret (match n with O => 0x40 | _ => 0x80 end).

(** [insl(0x1F0, dst, SECTSIZE/4)] *)
Definition insl (dst : Z) : B unit := modify (λ s, set_ram (write_bytes (ram s) dst (xfer s)) s).

(** ** bootmain.c *)

Fixpoint waitdisk (n : nat) : B unit :=
  match n with
  | O => halt
  | S n => r ← inb_status ; if negb (Z.land r 0xC0 =? 0x40) then waitdisk n else mret ()
  end.

Definition readsect (dst offset : Z) : B unit :=
  waitdisk fuel ;;
  outb 0x1F2 1 ;;
  outb 0x1F3 offset ;;
  outb 0x1F4 (Z.shiftr offset 8) ;;
  outb 0x1F5 (Z.shiftr offset 16) ;;
  outb 0x1F6 (Z.lor (Z.shiftr offset 24) 0xE0) ;;
  outb 0x1F7 0x20 ;;
  waitdisk fuel ;;
  insl dst.

(** The loop of [readseg], [n] a bound on its passes *)
Fixpoint readseg_loop (n : nat) (pa epa offset : Z) : B unit :=
  if pa <? epa then
    match n with
    | O => halt
    | S n => readsect pa offset ;; readseg_loop n (u32 (pa + SECTSIZE)) epa (u32 (offset + 1))
    end
  else mret ().

Definition readseg (pa count offset : Z) : B unit :=
  let epa := u32 (pa + count) in
  let pa := u32 (pa - offset mod SECTSIZE) in
  let offset := u32 (offset / SECTSIZE + 1) in
  readseg_loop (Z.to_nat ((epa - pa + SECTSIZE - 1) / SECTSIZE)) pa epa offset.

(** The loop over the program headers from [ph] to [eph], [n] of them *)
Fixpoint load_segments (n : nat) (ph eph : Z) : B unit :=
  if ph <? eph then
    match n with
    | O => halt
    | S n =>
        m ← gets ram ;
        let pa := load32 m (ph + 12) in
        readseg pa (load32 m (ph + 16)) (load32 m (ph + 4)) ;;
        m ← gets ram ;
        let filesz := load32 m (ph + 16) in
        let memsz := load32 m (ph + 20) in
        when (filesz <? memsz) (modify (λ s, set_ram (Cstring.stosb (ram s) (u32 (pa + filesz)) 0 (memsz - filesz)) s)) ;;
        load_segments n (u32 (ph + 32)) eph
    end
  else mret ().

(** The scratch space for the ELF header *)
Definition ELF : Z := 0x10000.

(** The entry point jumped to, or [None] when [bootmain] returns *)
Definition bootmain : B (option Z) :=
  readseg ELF 4096 0 ;;
  m ← gets ram ;
  if negb (load32 m ELF =? ELF_MAGIC) then mret None else
  let phnum := m (ELF + 44) + 2 ^ 8 * m (ELF + 45) in
  let ph := u32 (ELF + load32 m (ELF + 28)) in
  load_segments (Z.to_nat phnum) ph (u32 (ph + 32 * phnum)) ;;
  m ← gets ram ;
  mret (Some (load32 m (ELF + 24))).

(** ** The image *)

(** The kernel starts at sector 1. *)
Definition image (k : Z) : Z := default 0 (disk (k / SECTSIZE + 1) !! Z.to_nat (k mod SECTSIZE)).

Definition disk_ok : Prop := (∀ n, length (disk n) = 512%nat) ∧ (∀ n, (latency n < fuel)%nat).

(** [m] holds the image from [off] on at [a], for [n] bytes. *)
Definition holds (m : mem) (a n off : Z) : Prop := ∀ k, 0 ≤ k < n → m (a + k) = image (off + k).

Lemma waitdisk_run s : (busy s < fuel)%nat → wp (waitdisk fuel) s (λ _ s' tr, tr = [] ∧ s' = set_busy 0 s).
Proof.
  generalize fuel as n. intros n. revert s. induction n as [|n IH]; intros s Hs; [lia|]. cbn [waitdisk].
  apply wp_bind. unfold inb_status. wp_steps. destruct (busy s) as [|b] eqn:Hb.
  - cbn. split; [done|]. by destruct s; cbn in *; subst.
  - cbn [Nat.pred app]. change (negb (Z.land 128 192 =? 64)) with true. cbv iota.
    eapply wp_mono; [apply IH; cbn; lia|]. intros _ s' tr [-> ->]. by split.
Qed.

Lemma sector_registers offset : 0 ≤ offset < 2 ^ 28 →
  u8 offset + 2 ^ 8 * u8 (Z.shiftr offset 8) + 2 ^ 16 * u8 (Z.shiftr offset 16) +
    2 ^ 24 * Z.land (u8 (Z.lor (Z.shiftr offset 24) 0xE0)) 0x0f = offset.
Proof.
  intros Ho. unfold u8. rewrite !Z.shiftr_div_pow2 by lia. rewrite Z.lor_comm, (lor_low 0xE0 (offset / 2 ^ 24) 5);
    [| lia | done | change (2 ^ 24) with 16777216; change (2 ^ 28) with 268435456 in Ho; change (2 ^ 5) with 32; Z.div_mod_to_equations; lia].
  change 0x0f with (Z.ones 4). rewrite Z.land_ones by lia.
  change (2 ^ 8) with 256. change (2 ^ 16) with 65536. change (2 ^ 24) with 16777216. change (2 ^ 4) with 16.
  change (2 ^ 28) with 268435456 in Ho. Z.div_mod_to_equations. lia.
Qed.

Lemma readsect_run dst offset s : disk_ok → (busy s < fuel)%nat → 0 ≤ offset < 2 ^ 28 →
  wp (readsect dst offset) s (λ _ s' tr, tr = [] ∧ busy s' = O ∧ ram s' = write_bytes (ram s) dst (disk offset)).
Proof.
  intros [_ Hlat] Hs Ho. unfold readsect. apply wp_bind. eapply wp_mono; [by apply waitdisk_run|]. intros _ s1 _ [-> ->].
  unfold outb. change (u8 0x20) with 0x20. destruct s as [m c l0 l1 l2 d n x].
  do 6 (apply wp_bind; apply wp_modify; cbv beta zeta iota delta [out set_busy ram count lba0 lba1 lba2 drive busy xfer sector Z.eqb Pos.eqb andb]).
  rewrite (sector_registers offset Ho). apply wp_bind.
  eapply wp_mono; [apply waitdisk_run; apply Hlat|]. intros _ s2 _ [-> ->]. by apply wp_modify.
Qed.

Lemma sector_image n k : 0 ≤ n → 0 ≤ k < 512 → disk_ok → disk (n + 1) !! Z.to_nat k = Some (image (512 * n + k)).
Proof.
  intros Hn Hk [Hlen _]. unfold image, SECTSIZE.
  rewrite (Z.mul_comm 512), Z.div_add_l, (Z.div_small k), Z.add_0_r by lia.
  rewrite (Z.add_comm (n * 512)), Z.mod_add, (Z.mod_small k) by lia.
  destruct (lookup_lt_is_Some_2 (disk (n + 1)) (Z.to_nat k)) as [x Hx]; [rewrite Hlen; lia|]. by rewrite Hx.
Qed.

Lemma readseg_loop_run (n : nat) : disk_ok → ∀ pa epa j s, (busy s < fuel)%nat → 0 ≤ pa → 0 ≤ j →
  epa ≤ pa + 512 * n → (n = O ∨ pa + 512 * (n - 1) < epa) → pa + 512 * n < 2 ^ 32 → j + n < 2 ^ 28 - 1 →
  wp (readseg_loop n pa epa (j + 1)) s (λ _ s' tr, tr = [] ∧ (busy s' < fuel)%nat ∧
    same_outside pa (512 * n) (ram s) (ram s') ∧ holds (ram s') pa (512 * n) (512 * j)).
Proof.
  intros Hd. induction n as [|n IH]; intros pa epa j s Hs Hpa Hj Hhi Hlo Hb Hjb; cbn [readseg_loop].
  - rewrite (proj2 (Z.ltb_ge pa epa)) by lia. apply wp_ret. split_and!; [done.. | intros k ?; lia].
  - rewrite (proj2 (Z.ltb_lt pa epa)) by lia. apply wp_bind.
    eapply wp_mono; [apply readsect_run; [done.. | lia]|]. intros _ s1 _ (-> & Hs1 & Hm1). unfold SECTSIZE.
    rewrite (u32_small (pa + 512)), (u32_small (j + 1 + 1)) by lia.
    pose proof Hd as [Hlen Hlat]. eapply wp_mono; [apply (IH (pa + 512) epa (j + 1)); try lia|].
    intros _ s2 tr (-> & Hs2 & Hout & Hin). split_and!; [done | done | |].
    + intros x Hx. rewrite Hout, Hm1 by lia. apply write_bytes_outside. rewrite Hlen. lia.
    + intros k Hk. destruct (decide (k < 512)).
      * rewrite Hout, Hm1 by lia. replace (pa + k) with (pa + Z.of_nat (Z.to_nat k)) by lia.
        apply write_bytes_lookup. rewrite sector_image by (done || lia). done.
      * replace (pa + k) with (pa + 512 + (k - 512)) by lia. rewrite Hin by lia. f_equal. lia.
Qed.

(** [readseg]: the bytes asked for are in memory; what is written besides lies
    in the sectors they are part of. *)
Lemma readseg_run pa cnt off s : disk_ok → (busy s < fuel)%nat → 0 ≤ off < 2 ^ 32 → 0 ≤ cnt → off mod 512 ≤ pa → pa + cnt + 512 < 2 ^ 32 →
  wp (readseg pa cnt off) s (λ _ s' tr, tr = [] ∧ (busy s' < fuel)%nat ∧
    same_outside (pa - off mod 512) (off mod 512 + cnt + 511) (ram s) (ram s') ∧ holds (ram s') pa cnt off).
Proof.
  intros Hd Hs Hoff Hcnt Hpa Hb. unfold readseg, SECTSIZE. cbv zeta.
  assert (0 ≤ off mod 512 < 512) as Hmod by (apply Z.mod_pos_bound; lia).
  rewrite (u32_small (pa + cnt)), (u32_small (pa - _)) by lia.
  assert (0 ≤ off / 512 < 2 ^ 23) as Hdiv by (change (2 ^ 32) with (2 ^ 23 * 512) in Hoff; Z.div_mod_to_equations; lia).
  rewrite (u32_small (_ + 1)) by lia.
  set (lo := pa - off mod 512). set (n := Z.to_nat _).
  assert (0 ≤ (pa + cnt - lo + 512 - 1) / 512) by (apply Z.div_pos; lia).
  assert (pa + cnt ≤ lo + 512 * n ≤ pa + cnt + 511) as Hn by (subst n lo; rewrite Z2Nat.id by done; Z.div_mod_to_equations; lia).
  eapply wp_mono; [apply (readseg_loop_run n Hd lo (pa + cnt) (off / 512)); lia|].
  intros _ s' tr (-> & Hs' & Hout & Hin). split_and!; [done | done | |].
  - intros x Hx. apply Hout. lia.
  - intros k Hk. replace (pa + k) with (lo + (off mod 512 + k)) by lia. rewrite Hin by lia. f_equal.
    rewrite (Z.div_mod off 512) at 3 by lia. lia.
Qed.

(** The headers of the image *)
Definition word (k : Z) : Z := load32 image k.
Definition phoff : Z := word 28.
Definition phnum : Z := image 44 + 2 ^ 8 * image 45.
Definition p_off (i : Z) : Z := word (phoff + 32 * i + 4).
Definition p_paddr (i : Z) : Z := word (phoff + 32 * i + 12).
Definition p_filesz (i : Z) : Z := word (phoff + 32 * i + 16).
Definition p_memsz (i : Z) : Z := word (phoff + 32 * i + 20).

(** Where the first sector of a segment goes *)
Definition first_byte (i : Z) : Z := p_paddr i - p_off i mod 512.

(** An image that [bootmain] can load: the headers are in the first page; the
    segments are sorted, stay away from the scratch space, and none starts, with
    the whole of its first sector, inside the one before. *)
Record image_ok : Prop := {
  img_bytes : bytes_ok image;
  img_magic : word 0 = ELF_MAGIC;
  img_headers : phoff + 32 * phnum ≤ 4096;
  img_segment : ∀ i, 0 ≤ i < phnum → 0 ≤ first_byte i ∧ p_filesz i ≤ p_memsz i ∧ p_paddr i + p_memsz i + 512 < 2 ^ 32 ∧
    (p_paddr i + p_memsz i + 512 ≤ ELF ∨ ELF + 4096 ≤ first_byte i);
  img_sorted : ∀ i j, 0 ≤ i < j → j < phnum → p_paddr i + p_memsz i ≤ first_byte j;
}.

(** A segment is in memory: its bytes in the image, then zeros. *)
Definition loaded (m : mem) (i : Z) : Prop :=
  holds m (p_paddr i) (p_filesz i) (p_off i) ∧ ∀ x, p_paddr i + p_filesz i ≤ x < p_paddr i + p_memsz i → m x = 0.

Lemma holds_word m a n off k : holds m a n off → 0 ≤ k → k + 4 ≤ n → load32 m (a + k) = word (off + k).
Proof. intros Hm Hk Hn. unfold word, load32. by rewrite <- !Z.add_assoc, !Hm by lia. Qed.

Lemma header_word m k : holds m ELF 4096 0 → 0 ≤ k ≤ 4092 → load32 m (ELF + k) = word k.
Proof. intros Hm Hk. by rewrite (holds_word _ _ _ _ _ Hm) by lia. Qed.

Lemma phnum_range : image_ok → 0 ≤ phnum < 2 ^ 16 ∧ 0 ≤ phoff ∧ ∀ k, 0 ≤ word k < 2 ^ 32.
Proof.
  intros H. assert (∀ k, 0 ≤ word k < 2 ^ 32) as Hw by (intros k; apply load32_range, H).
  pose proof (img_bytes H 44). pose proof (img_bytes H 45). split_and!; [unfold phnum; lia.. | apply Hw | done].
Qed.

(** A pass of the loop *)
Lemma load_segment_run i m0 s (k : B unit) Q : disk_ok → image_ok → (busy s < fuel)%nat → 0 ≤ i < phnum → ram s = m0 → holds m0 ELF 4096 0 →
  (∀ s', (busy s' < fuel)%nat → holds (ram s') ELF 4096 0 → loaded (ram s') i →
    (∀ x, x < first_byte i → ram s' x = m0 x) → wp k s' Q) →
  wp (let ph := ELF + (phoff + 32 * i) in
      m ← gets ram ;
      let pa := load32 m (ph + 12) in
      readseg pa (load32 m (ph + 16)) (load32 m (ph + 4)) ;;
      m ← gets ram ;
      let filesz := load32 m (ph + 16) in
      let memsz := load32 m (ph + 20) in
      when (filesz <? memsz) (modify (λ s, set_ram (Cstring.stosb (ram s) (u32 (pa + filesz)) 0 (memsz - filesz)) s)) ;;
      k) s Q.
Proof.
  intros Hd Hi Hs Hr Hm0 Hh Hk. cbv zeta. subst m0. pose proof (img_headers Hi) as Hhd. destruct (phnum_range Hi) as (_ & Hpo & Hw).
  destruct (img_segment Hi i Hr) as (Hlo & Hle & Hb & Hdis).
  assert (∀ m d, holds m ELF 4096 0 → 0 ≤ d ≤ 28 → load32 m (ELF + (phoff + 32 * i) + d) = word (phoff + 32 * i + d)) as Hf.
  { intros m d Hm Hd'. rewrite <- Z.add_assoc. apply header_word; [done | lia]. }
  apply wp_bind, wp_gets. rewrite !Hf by (done || lia). fold (p_paddr i) (p_filesz i) (p_off i). cbn [app].
  pose proof (Hw (phoff + 32 * i + 4)) as Hoff. pose proof (Hw (phoff + 32 * i + 16)) as Hfs. fold (p_off i) (p_filesz i) in Hoff, Hfs.
  assert (0 ≤ p_off i mod 512) by (apply Z.mod_pos_bound; lia).
  unfold first_byte in Hlo, Hdis. apply wp_bind. eapply wp_mono; [apply readseg_run; [done | done | done | lia | lia | lia]|].
  intros _ s1 tr (-> & Hs1 & Hout & Hin). cbn [app].
  assert (holds (ram s1) ELF 4096 0) as Hh1.
  { intros x Hx. rewrite Hout by lia. by apply Hh. }
  apply wp_bind, wp_gets. rewrite !Hf by (done || lia). fold (p_filesz i) (p_memsz i). cbn [app].
  pose proof (Hw (phoff + 32 * i + 12)) as Hpa. fold (p_paddr i) in Hpa. rewrite (u32_small (p_paddr i + p_filesz i)) by lia.
  unfold when. destruct (Z.ltb_spec (p_filesz i) (p_memsz i)) as [Hlt|Hge]; apply wp_bind.
  - apply wp_modify. apply Hk; cbn [busy ram set_ram]; unfold Cstring.stosb.
    + done.
    + intros x Hx. range_cases; [lia | by apply Hh1].
    + split; [intros x Hx | intros x Hx]; range_cases; [lia | by apply Hin | done | lia].
    + intros x Hx. unfold first_byte in Hx. range_cases; [lia|]. apply Hout. lia.
  - apply wp_ret. apply Hk; [done | done | | intros x Hx; apply Hout; unfold first_byte in Hx; lia].
    split; [exact Hin | intros x Hx; lia].
Qed.

Lemma load_segments_run (n : nat) : disk_ok → image_ok → ∀ i s, (busy s < fuel)%nat → 0 ≤ i → i + n = phnum → holds (ram s) ELF 4096 0 →
  (∀ j, 0 ≤ j < i → loaded (ram s) j) →
  wp (load_segments n (ELF + (phoff + 32 * i)) (ELF + (phoff + 32 * phnum))) s (λ _ s' _,
    holds (ram s') ELF 4096 0 ∧ ∀ j, 0 ≤ j < phnum → loaded (ram s') j).
Proof.
  intros Hd Hi. pose proof (img_headers Hi) as Hhd. destruct (phnum_range Hi) as (Hn & Hpo & _). unfold ELF in *.
  induction n as [|n IH]; intros i s Hs Hi0 Hin Hh Hall; cbn [load_segments].
  - rewrite (proj2 (Z.ltb_ge _ _)) by lia. apply wp_ret. split; [done|]. intros j Hj. apply Hall. lia.
  - rewrite (proj2 (Z.ltb_lt _ _)) by lia. eapply (load_segment_run i); [done.. | lia | done | done|].
    intros s' Hs' Hh' Hl Hsame. rewrite (u32_small (_ + 32)) by lia.
    replace (0x10000 + (phoff + 32 * i) + 32) with (0x10000 + (phoff + 32 * (i + 1))) by lia.
    apply IH; [done | lia | lia | done|]. intros j Hj. destruct (decide (j = i)) as [->|]; [done|].
    destruct (Hall j ltac:(lia)) as [Hb Hz]. pose proof (img_sorted Hi j i ltac:(lia) ltac:(lia)) as Hsort.
    destruct (img_segment Hi j ltac:(lia)) as (_ & Hle & _).
    split; [intros k Hk; rewrite Hsame by lia; by apply Hb | intros x Hx; rewrite Hsame by lia; by apply Hz].
Qed.

(** bootmain, on any disk that answers within the bound and whose image has
    its segments in order, ends at the entry point of the image with every segment in
    memory: its bytes from the file, then zeros up to its size, although sectors are
    read whole, over what lies before and behind a segment. *)
Theorem bootmain_loads s : disk_ok → image_ok → (busy s < fuel)%nat →
  wp bootmain s (λ r s' _, r = Some (word 24) ∧ ∀ i, 0 ≤ i < phnum → loaded (ram s') i).
Proof.
  intros Hd Hi Hs. pose proof (img_headers Hi) as Hhd. destruct (phnum_range Hi) as (Hn & Hpo & _). unfold bootmain. apply wp_bind.
  eapply wp_mono; [apply readseg_run; [done | done | done | done | done | done]|]. intros _ s1 _ (-> & Hs1 & _ & Hh). cbn [app].
  apply wp_bind, wp_gets. cbn [app]. replace (load32 (ram s1) ELF) with (word 0) by (symmetry; by apply (header_word _ 0)).
  rewrite (img_magic Hi), Z.eqb_refl, header_word by (done || lia). cbn [negb]. fold phoff.
  rewrite !Hh by lia. change (image (0 + 44) + 2 ^ 8 * image (0 + 45)) with phnum. cbv zeta.
  rewrite (u32_small (ELF + phoff)), (u32_small (ELF + phoff + _)) by (unfold ELF; lia).
  apply wp_bind. eapply wp_mono.
  - pose proof (load_segments_run (Z.to_nat phnum) Hd Hi 0 s1) as H. rewrite Z.mul_0_r, Z.add_0_r, Z.add_assoc in H.
    apply H; [done | done | lia | done | lia].
  - intros _ s2 tr [Hh2 Hall]. apply wp_bind, wp_gets. apply wp_ret. by rewrite header_word.
Qed.

End boot.
End Boot.
