(* ===== verification/Entry.v ===== *)
(** * From power on to main

    bootasm.S, which takes the boot processor to 32-bit mode and calls [bootmain]
    (Boot.v), entry.S with the page directory [entrypgdir] of main.c, and
    entryother.S, which does for the other processors what both do for the first. The
    processor is that of Asm.v with its control registers, the hidden parts of its
    segment registers, paging and the A20 gate. The theorems show that the first
    processor reaches [main] with the kernel mapped where it is linked, and that
    the others reach [mpenter]. *)

From S2P Require Import Prelude Layout Memory Seg Proc Asm Boot.

Module Entry.
Import Asm.

Definition CR0_PE : Z := 0x00000001.
Definition CR0_WP : Z := 0x00010000.
Definition CR0_PG : Z := 0x80000000.
Definition CR4_PSE : Z := 0x00000010.
Definition PTE_PS : Z := 0x080.

(** ** The processor at power on *)

Record core := mk_core {
  base : Asm.cpu;                            (** registers and physical memory *)
  cr0 : Z;
  cr3 : Z;
  cr4 : Z;
  gdtr : Z * Z;                              (** limit and base *)
  hidden : sreg → option Seg.segment;        (** what the segment registers refer to *)
  disk : Boot.machine;                       (** the disk controller *)
  kbc : nat;                                 (** for how long the keyboard controller is busy *)
  kcmd : Z;                                  (** the command it expects data for *)
  a20 : bool;
}.

Definition set_base x c := mk_core x (cr0 c) (cr3 c) (cr4 c) (gdtr c) (hidden c) (disk c) (kbc c) (kcmd c) (a20 c).
Definition set_cr0 x c := mk_core (base c) x (cr3 c) (cr4 c) (gdtr c) (hidden c) (disk c) (kbc c) (kcmd c) (a20 c).
Definition set_cr3 x c := mk_core (base c) (cr0 c) x (cr4 c) (gdtr c) (hidden c) (disk c) (kbc c) (kcmd c) (a20 c).
Definition set_cr4 x c := mk_core (base c) (cr0 c) (cr3 c) x (gdtr c) (hidden c) (disk c) (kbc c) (kcmd c) (a20 c).
Definition set_gdtr x c := mk_core (base c) (cr0 c) (cr3 c) (cr4 c) x (hidden c) (disk c) (kbc c) (kcmd c) (a20 c).
Definition set_hidden r x c :=
  mk_core (base c) (cr0 c) (cr3 c) (cr4 c) (gdtr c) (λ r', if sreg_eqb r r' then x else hidden c r') (disk c) (kbc c) (kcmd c) (a20 c).
Definition set_disk x c := mk_core (base c) (cr0 c) (cr3 c) (cr4 c) (gdtr c) (hidden c) x (kbc c) (kcmd c) (a20 c).
Definition set_kbc n cmd b c := mk_core (base c) (cr0 c) (cr3 c) (cr4 c) (gdtr c) (hidden c) (disk c) n cmd b.

Abbreviation X := (M core).

Definition phys (c : core) : mem := ram (base c).
Definition on_base {A} (m : M Asm.cpu A) : X A := zoom base set_base m.

(** Paging, with the 4 Mbyte pages of [CR4_PSE] *)
Definition translate (c : core) (va : Z) : option Z :=
  if negb (Z.testbit (cr0 c) 31) then Some va else
  let pde := load32 (phys c) (cr3 c + 4 * PDX va) in
  if Z.land pde PTE_P =? 0 then None else
  if negb (Z.land pde PTE_PS =? 0) && Z.testbit (cr4 c) 4 then Some (pde / 2 ^ 22 * 2 ^ 22 + va mod 2 ^ 22) else
  let pte := load32 (phys c) (PTE_ADDR pde + 4 * PTX va) in
  if Z.land pte PTE_P =? 0 then None else Some (PTE_ADDR pte + va mod 2 ^ 12).

(** Where an operand at [off] in segment [r] lies in memory *)
Definition where_is (r : sreg) (off : Z) : X Z :=
  c ← get_state ;
  match hidden c r ≫= λ g, translate c (u32 (Seg.g_base g + off)) with
  | Some a => mret a
  | None => undefined "fault"
  end.

(** ** Instructions *)

Definition cli : X unit := on_base (modify (λ s, set_flags (Z.land (flags s) (Z.lnot FL_IF)) s)).
Definition movl_imm (v : Z) (r : reg) : X unit := on_base (Asm.movl_imm v r).
Definition movw_imm (v : Z) (r : reg) : X unit := on_base (Asm.movw_imm v r).
Definition movb_al (v : Z) : X unit := on_base (modify (λ s, setr EAX (regs s EAX - regs s EAX mod 2 ^ 8 + u8 v) s)).
Definition xorw_ax : X unit := on_base (modify (λ s, setr EAX (regs s EAX - regs s EAX mod 2 ^ 16) s)).
Definition orl_eax (v : Z) : X unit := on_base (modify (λ s, setr EAX (Z.lor (regs s EAX) v) s)).

Definition movl_from_cr (get : core → Z) : X unit := v ← gets get ; on_base (modify (setr EAX v)).
Definition movl_to_cr (set : Z → core → core) : X unit := modify (λ c, set (regs (base c) EAX) c).

(** The descriptor that a selector names *)
Definition descriptor_at (c : core) (sel : Z) : option Seg.segment :=
  if sel / 8 * 8 + 7 <=? (gdtr c).1 then
    let a := (gdtr c).2 + sel / 8 * 8 in Seg.segment_of (load32 (phys c) a + 2 ^ 32 * load32 (phys c) (a + 4))
  else None.

(** Loading a segment register: in real mode a selector is an address in units
    of 16 bytes; in protected mode the null selector leaves the register unusable. *)
Definition load_seg (r : sreg) (sel : Z) : X unit :=
  c ← get_state ;
  on_base (modify (sets r sel)) ;;
  if negb (Z.testbit (cr0 c) 0) then modify (set_hidden r (Some (Seg.mk_segment (16 * sel) 0xffff 0 false Seg.STA_W))) else
  if sel / 8 =? 0 then modify (set_hidden r None) else
  match descriptor_at c sel with
  | Some g => modify (set_hidden r (Some g))
  | None => undefined "segment not present"
  end.
Definition movw_seg (r : sreg) : X unit := v ← gets (λ c, regs (base c) EAX) ; load_seg r (u16 v).
Definition ljmp (sel off : Z) : X unit := load_seg CS sel ;; on_base (modify (set_pc off)).

(** [lgdt] in 16-bit code loads 24 bits of the base. *)
Definition lgdt (off : Z) : X unit :=
  a ← where_is DS off ;
  modify (λ c, let m := phys c in set_gdtr (m a + 2 ^ 8 * m (a + 1), load32 m (a + 2) mod 2 ^ 24) c).

Definition movl_mem (off : Z) (r : reg) : X unit :=
  a ← where_is DS off ;
  on_base (modify (λ s, setr r (load32 (ram s) a) s)).
Definition pushl (v : Z) : X unit :=
  sp ← gets (λ c, u32 (regs (base c) ESP - 4)) ;
  a ← where_is SS sp ;
  on_base (modify (λ s, set_ram (store32 (ram s) a v) (setr ESP sp s))).
Definition call_mem (off next : Z) : X unit :=
  a ← where_is DS off ;
  target ← gets (λ c, load32 (phys c) a) ;
  pushl next ;;
  on_base (modify (set_pc target)).

(** ** asm.h *)

Definition SEG_NULLASM : list Z := le16 0 ++ le16 0 ++ [0; 0; 0; 0].
Definition SEG_ASM (type base lim : Z) : list Z :=
  le16 (Z.land (Z.shiftr lim 12) 0xffff) ++ le16 (Z.land base 0xffff) ++
  [Z.land (Z.shiftr base 16) 0xff; Z.lor 0x90 type; Z.lor 0xC0 (Z.land (Z.shiftr lim 28) 0xf); Z.land (Z.shiftr base 24) 0xff].

(** The tables at the ends of bootasm.S and entryother.S *)
Definition gdt : list Z := SEG_NULLASM ++ SEG_ASM (Z.lor Seg.STA_X Seg.STA_R) 0x0 0xffffffff ++ SEG_ASM Seg.STA_W 0x0 0xffffffff.
Definition gdtdesc (gdt_addr : Z) : list Z := le16 (length gdt - 1) ++ le32 gdt_addr.

(** ** What bootasm.S and entryother.S share *)

Definition real_mode_segments : X unit :=
  cli ;;
  xorw_ax ;;
  movw_seg DS ;;
  movw_seg ES ;;
  movw_seg SS.

Definition protected_mode (gdtdesc start32 : Z) : X unit :=
  lgdt gdtdesc ;;
  movl_from_cr cr0 ;;
  orl_eax CR0_PE ;;
  movl_to_cr set_cr0 ;;
  ljmp (Z.shiftl SEG_KCODE 3) start32.

Definition protected_segments : X unit :=
  movw_imm (Z.shiftl SEG_KDATA 3) EAX ;;
  movw_seg DS ;;
  movw_seg ES ;;
  movw_seg SS ;;
  movw_imm 0 EAX ;;
  movw_seg FS ;;
  movw_seg GS.

Section boot.
(** The disk as in Boot.v; how long the keyboard controller takes, and a bound on
    the polls of one wait *)
Context (sectors : Z → list Z) (latency : Z → nat) (fuel : nat) (klatency polls : nat).
(** Addresses from the linker *)
Context (start start32 gdtdesc_addr after_bootmain : Z) (entry_addr entrypgdir_addr stack main : Z).

(** ** bootasm.S *)

Definition inb_0x64 : X unit :=
  n ← gets kbc ;
  modify (λ c, set_kbc (pred n) (kcmd c) (a20 c) c) ;;
  movb_al (match n with O => 0 | _ => 2 end).

(** Command 0xd1 makes the next byte the output port, whose bit 1 is the A20 gate. *)
Definition outb_al (port : Z) : X unit :=
  modify (λ c, let v := u8 (regs (base c) EAX) in
    if port =? 0x64 then set_kbc klatency v (a20 c) c
    else if kcmd c =? 0xd1 then set_kbc klatency 0 (Z.testbit v 1) c
    else set_kbc klatency 0 (a20 c) c).

(** The loops [seta20.1] and [seta20.2] *)
Fixpoint seta20 (n : nat) : X unit :=
  match n with
  | O => halt
  | S n =>
      inb_0x64 ;;
      al ← gets (λ c, u8 (regs (base c) EAX)) ;
      if negb (Z.land al 0x2 =? 0) then seta20 n else mret ()
  end.

(** The call of [bootmain]: with the A20 gate shut it could not reach memory above
    1 Mbyte. *)
Definition call_bootmain : X (option Z) :=
  pushl after_bootmain ;;
  b ← gets a20 ;
  if negb b then undefined "A20" else
  zoom (λ c, Boot.set_ram (phys c) (disk c)) (λ b c, set_disk b (set_base (set_ram (Boot.ram b) (base c)) c)) (Boot.bootmain sectors latency fuel).

Definition bootasm : X unit :=
  real_mode_segments ;;
  seta20 polls ;;
  movb_al 0xd1 ;;
  outb_al 0x64 ;;
  seta20 polls ;;
  movb_al 0xdf ;;
  outb_al 0x60 ;;
  protected_mode gdtdesc_addr start32 ;;
  protected_segments ;;
  movl_imm start ESP ;;
  r ← call_bootmain ;
  match r with
  | None => halt
  | Some e => on_base (modify (set_pc e))
  end.

(** ** entry.S, and the page directory of main.c *)

Definition entrypgdir (i : Z) : Z :=
  if (i =? 0) || (i =? Z.shiftr KERNBASE PDXSHIFT) then Z.lor (Z.lor (Z.lor 0 PTE_P) PTE_W) PTE_PS else 0.

Definition entry : X unit :=
  movl_from_cr cr4 ;;
  orl_eax CR4_PSE ;;
  movl_to_cr set_cr4 ;;
  movl_imm (V2P entrypgdir_addr) EAX ;;
  movl_to_cr set_cr3 ;;
  movl_from_cr cr0 ;;
  orl_eax (Z.lor CR0_PG CR0_WP) ;;
  movl_to_cr set_cr0 ;;
  movl_imm (stack + KSTACKSIZE) ESP ;;
  movl_imm main EAX ;;
  on_base (modify (λ s, set_pc (regs s EAX) s)).

(** From the boot sector to [main] *)
Definition power_on : X unit :=
  bootasm ;;
  ip ← gets (λ c, pc (base c)) ;
  if ip =? V2P entry_addr then entry else undefined "entry point".

(** ** entryother.S *)

Definition entryother (next : Z) : X unit :=
  real_mode_segments ;;
  protected_mode gdtdesc_addr start32 ;;
  protected_segments ;;
  movl_from_cr cr4 ;;
  orl_eax CR4_PSE ;;
  movl_to_cr set_cr4 ;;
  movl_mem (start - 12) EAX ;;
  movl_to_cr set_cr3 ;;
  movl_from_cr cr0 ;;
  orl_eax (Z.lor (Z.lor CR0_PE CR0_PG) CR0_WP) ;;
  movl_to_cr set_cr0 ;;
  movl_mem (start - 4) ESP ;;
  call_mem (start - 8) next.

End boot.

(** ** Running the blocks *)

Ltac exec1 :=
  lazymatch goal with
  | |- wp (mbind _ _) _ _ => apply wp_bind
  | |- wp (modify _) _ _ => apply wp_modify
  | |- wp (gets _) _ _ => apply wp_gets
  | |- wp get_state _ _ => apply wp_get_state
  | |- wp (mret _) _ _ => apply wp_ret
  | |- wp (zoom _ _ _) _ _ => apply wp_zoom
  | |- wp (movl_imm _ _) _ _ => unfold movl_imm, Asm.movl_imm
  | |- wp (movw_imm _ _) _ _ => unfold movw_imm, Asm.movw_imm
  | |- wp (on_base _) _ _ => unfold on_base
  | |- wp (movl_from_cr _) _ _ => unfold movl_from_cr
  | |- wp (movl_to_cr _) _ _ => unfold movl_to_cr
  | |- wp (orl_eax _) _ _ => unfold orl_eax
  | |- wp (movb_al _) _ _ => unfold movb_al
  | |- wp xorw_ax _ _ => unfold xorw_ax
  | |- wp cli _ _ => unfold cli
  | |- wp (movw_seg _) _ _ => unfold movw_seg
  end; view
with view :=
  cbn [base cr0 cr3 cr4 gdtr hidden disk kbc kcmd a20 set_base set_cr0 set_cr3 set_cr4 set_gdtr set_hidden set_disk set_kbc
    regs segs pc flags ram tabs setr sets set_pc set_flags set_ram reg_eqb sreg_eqb phys].
Ltac exec := view; repeat exec1.

Lemma u16_movw e v : 0 ≤ v < 2 ^ 16 → u16 (e - e mod 2 ^ 16 + v) = v.
Proof. intros Hv. unfold u16. change (2 ^ 16) with 65536 in Hv. change (2 ^ 16) with 65536. Z.div_mod_to_equations. lia. Qed.

Lemma u16_xorw e : u16 (e - e mod 2 ^ 16) = 0.
Proof. unfold u16. change (2 ^ 16) with 65536. Z.div_mod_to_equations. lia. Qed.

Lemma u8_movb e v : u8 (e - e mod 2 ^ 8 + u8 v) = u8 v.
Proof. unfold u8. change (2 ^ 8) with 256. Z.div_mod_to_equations. lia. Qed.

Lemma load_seg_real r sel c (Q : unit → core → list event → Prop) : Z.testbit (cr0 c) 0 = false →
  Q () (set_hidden r (Some (Seg.mk_segment (16 * sel) 0xffff 0 false Seg.STA_W)) (set_base (sets r sel (base c)) c)) [] → wp (load_seg r sel) c Q.
Proof. intros H HQ. unfold load_seg. exec. rewrite H. cbn [negb]. by exec. Qed.

Lemma load_seg_null r sel c (Q : unit → core → list event → Prop) : Z.testbit (cr0 c) 0 = true → sel / 8 = 0 →
  Q () (set_hidden r None (set_base (sets r sel (base c)) c)) [] → wp (load_seg r sel) c Q.
Proof. intros H Hs HQ. unfold load_seg. exec. rewrite H, Hs. cbn [negb]. change (0 =? 0) with true. cbv iota. by exec. Qed.

Lemma load_seg_protected r sel c g (Q : unit → core → list event → Prop) : Z.testbit (cr0 c) 0 = true → (sel / 8 =? 0) = false →
  descriptor_at c sel = Some g → Q () (set_hidden r (Some g) (set_base (sets r sel (base c)) c)) [] → wp (load_seg r sel) c Q.
Proof. intros H Hs Hg HQ. unfold load_seg. exec. rewrite H, Hs, Hg. cbn [negb]. by exec. Qed.

(** A block keeps memory and the state of the devices. *)
Definition frame (c c' : core) : Prop := phys c' = phys c ∧ cr3 c' = cr3 c ∧ cr4 c' = cr4 c ∧ disk c' = disk c ∧ a20 c' = a20 c.

Definition flat (kind : Z) : option Seg.segment := Some (Seg.mk_segment 0 0xffffffff 0 false kind).

Lemma real_mode_run c : Z.testbit (cr0 c) 0 = false →
  wp real_mode_segments c (λ _ c' _, frame c c' ∧ kbc c' = kbc c ∧ cr0 c' = cr0 c ∧ Z.land (flags (base c')) FL_IF = 0 ∧
    hidden c' DS = Some (Seg.mk_segment 0 0xffff 0 false Seg.STA_W)).
Proof.
  intros H. unfold real_mode_segments. exec. apply load_seg_real; [done|]. exec. apply load_seg_real; [done|]. exec.
  apply load_seg_real; [done|]. view. rewrite u16_xorw. split_and!; try done.
  rewrite <- Z.land_assoc. apply Z.land_0_r.
Qed.

(** The table of bootasm.S or entryother.S and its descriptor in memory *)
Definition has_gdt (m : mem) (desc table : Z) : Prop :=
  0 ≤ desc < 2 ^ 32 ∧ 0 ≤ table < 2 ^ 24 ∧ read_bytes m desc 6 = gdtdesc table ∧ read_bytes m table 24 = gdt.

Lemma read_bytes_nth m a n l i : read_bytes m a n = l → 0 ≤ i < n → m (a + i) = default 0 (l !! Z.to_nat i).
Proof. intros <- Hi. by rewrite lookup_read_bytes. Qed.

Lemma read_bytes_word m a n l i : read_bytes m a n = l → 0 ≤ i → i + 4 ≤ n → load32 m (a + i) = le32_val (drop (Z.to_nat i) l).
Proof.
  intros Hl Hi Hn. unfold load32. rewrite <- !Z.add_assoc, !(read_bytes_nth m a n l) by (done || lia).
  assert (length l = Z.to_nat n) as Hlen by (rewrite <- Hl; apply length_read_bytes).
  rewrite !Z2Nat.inj_add by lia. rewrite <- !(lookup_drop l (Z.to_nat i)). rewrite <- (Nat.add_0_r (Z.to_nat i)) at 1. rewrite <- lookup_drop.
  pose proof (length_drop l (Z.to_nat i)) as Hd. destruct (drop (Z.to_nat i) l) as [|? [|? [|? [|? ?]]]]; [cbn in Hd; lia.. |]. change (Z.to_nat 1) with 1%nat. change (Z.to_nat 2) with 2%nat. change (Z.to_nat 3) with 3%nat. cbn [default lookup list_lookup le32_val from_option id]. lia.
Qed.

Lemma gdtdesc_words m desc table : has_gdt m desc table → (m desc + 2 ^ 8 * m (desc + 1), load32 m (desc + 2) mod 2 ^ 24) = (23, table).
Proof.
  intros (_ & Ht & Hd & _). rewrite (read_bytes_word m desc 6 _ 2 Hd), (read_bytes_nth m desc 6 _ 1 Hd) by lia.
  replace (m desc) with (default 0 (gdtdesc table !! Z.to_nat 0)) by (symmetry; rewrite <- (read_bytes_nth m desc 6 _ 0 Hd) by lia; f_equal; lia).
  f_equal. change (drop (Z.to_nat 2) (gdtdesc table)) with (le32 table ++ []). rewrite le32_val_le32, u32_small by lia. apply Z.mod_small. lia.
Qed.

(** The selectors of the kernel's code and data name segments that cover all of
    memory. *)
Lemma descriptors_flat c desc table : has_gdt (phys c) desc table → gdtr c = (23, table) →
  descriptor_at c (Z.shiftl SEG_KCODE 3) = flat (Z.lor Seg.STA_X Seg.STA_R) ∧ descriptor_at c (Z.shiftl SEG_KDATA 3) = flat Seg.STA_W.
Proof.
  intros (_ & _ & _ & Hg) Hr. unfold descriptor_at. rewrite Hr. cbn [fst snd]. rewrite <- !Z.add_assoc.
  rewrite !(read_bytes_word _ table 24 _ _ Hg) by done. split; vm_compute; reflexivity.
Qed.

Lemma where_is_flat r off g c Q : hidden c r = Some g → Seg.g_base g = 0 → 0 ≤ off < 2 ^ 32 → ∀ a, translate c off = Some a → Q a c [] →
  wp (where_is r off) c Q.
Proof. intros Hr Hg Ho a Ha HQ. unfold where_is. exec. rewrite Hr. cbn [mbind option_bind]. rewrite Hg, Z.add_0_l, u32_small, Ha by done. by exec. Qed.

Lemma translate_off c va : Z.testbit (cr0 c) 31 = false → translate c va = Some va.
Proof. intros H. unfold translate. by rewrite H. Qed.

Lemma protected_mode_run c desc table start32 : has_gdt (phys c) desc table → hidden c DS = Some (Seg.mk_segment 0 0xffff 0 false Seg.STA_W) →
  Z.testbit (cr0 c) 31 = false →
  wp (protected_mode desc start32) c (λ _ c' _, frame c c' ∧ cr0 c' = Z.lor (cr0 c) CR0_PE ∧ gdtr c' = (23, table) ∧
    flags (base c') = flags (base c) ∧ hidden c' CS = flat (Z.lor Seg.STA_X Seg.STA_R) ∧ pc (base c') = start32).
Proof.
  intros Hm Hds Hpg. pose proof Hm as (Hdesc & _). unfold protected_mode, lgdt, ljmp. exec.
  eapply where_is_flat; [done | done | done | by apply translate_off|]. do 2 exec1.
  rewrite (gdtdesc_words _ _ _ Hm). exec.
  eapply load_seg_protected; [view; by rewrite Z.lor_spec, orb_true_r | done | eapply descriptors_flat; done|]. exec. by split_and!.
Qed.

Lemma protected_segments_run c desc table : has_gdt (phys c) desc table → gdtr c = (23, table) → Z.testbit (cr0 c) 0 = true →
  wp protected_segments c (λ _ c' _, frame c c' ∧ cr0 c' = cr0 c ∧ flags (base c') = flags (base c) ∧ hidden c' CS = hidden c CS ∧
    hidden c' DS = flat Seg.STA_W ∧ hidden c' ES = flat Seg.STA_W ∧ hidden c' SS = flat Seg.STA_W).
Proof.
  intros Hm Hg Hpe. unfold protected_segments. do 4 exec1. change (u16 (Z.shiftl SEG_KDATA 3)) with (Z.shiftl SEG_KDATA 3).
  do 3 (exec; rewrite u16_movw by done; eapply load_seg_protected; [done | done | eapply descriptors_flat; done|]).
  do 2 (exec; change (u16 0) with 0; rewrite u16_movw by done; apply load_seg_null; [done | done |]).
  by split_and!.
Qed.

Definition kept (c c' : core) : Prop :=
  phys c' = phys c ∧ cr3 c' = cr3 c ∧ cr4 c' = cr4 c ∧ disk c' = disk c ∧ cr0 c' = cr0 c ∧ flags (base c') = flags (base c) ∧
  hidden c' = hidden c.

Lemma kept_core_trans c1 c2 c3 : kept c1 c2 → kept c2 c3 → kept c1 c3.
Proof. intros (?&?&?&?&?&?&?) (?&?&?&?&?&?&?). split_and!; congruence. Qed.

Lemma seta20_run n : ∀ c, (kbc c < n)%nat → wp (seta20 n) c (λ _ c' _, kept c c' ∧ kcmd c' = kcmd c ∧ a20 c' = a20 c).
Proof.
  induction n as [|n IH]; intros c Hk; [lia|]. cbn [seta20]. unfold inb_0x64. exec. rewrite u8_movb. destruct (kbc c) as [|k].
  - change (negb (Z.land (u8 0) 2 =? 0)) with false. cbv iota. by exec.
  - change (negb (Z.land (u8 2) 2 =? 0)) with true. cbv iota.
    eapply wp_mono; [apply IH; cbn; lia|]. intros _ c' _ [Hc ?]. split; [|done]. eapply kept_core_trans; [|done]. done.
Qed.

(** The commands for the keyboard controller open the A20 gate. *)
Lemma open_a20_run klatency polls (rest : X unit) Q c : (kbc c < polls)%nat → (klatency < polls)%nat →
  (∀ c', kept c c' → a20 c' = true → wp rest c' (λ _ s _, Q s)) →
  wp (seta20 polls ;; movb_al 0xd1 ;; outb_al klatency 0x64 ;; seta20 polls ;; movb_al 0xdf ;; outb_al klatency 0x60 ;; rest) c (λ _ s _, Q s).
Proof.
  intros Hk Hl HQ. apply wp_bind. eapply wp_mono; [by apply seta20_run|]. intros _ c1 _ (Hc1 & _). unfold outb_al. exec. rewrite u8_movb.
  change (0x64 =? 0x64) with true. cbv iota. view. eapply wp_mono; [apply seta20_run; done|]. intros _ c2 _ (Hc2 & Hcmd & _). exec.
  rewrite Hcmd, u8_movb. cbn [kcmd set_kbc]. change (u8 0xd1 =? 0xd1) with true. change (0x60 =? 0x64) with false. cbv iota.
  apply HQ; [|done]. eapply kept_core_trans; [exact Hc1|]. eapply kept_core_trans; [|exact Hc2]. done.
Qed.

(** [entrypgdir] is in memory at [a]. *)
Definition has_entrypgdir (m : mem) (a : Z) : Prop := ∀ i, 0 ≤ i < 1024 → load32 m (a + 4 * i) = entrypgdir i.

(** Paging through [entrypgdir]: the first 4 Mbyte of memory, twice *)
Definition entry_map (va : Z) : option Z :=
  if decide (0 ≤ va < 2 ^ 22) then Some va else if decide (KERNBASE ≤ va < KERNBASE + 2 ^ 22) then Some (va - KERNBASE) else None.

Lemma translate_entry c va : Z.testbit (cr0 c) 31 = true → Z.testbit (cr4 c) 4 = true → has_entrypgdir (phys c) (cr3 c) → 0 ≤ va < 2 ^ 32 →
  translate c va = entry_map va.
Proof.
  intros Hpg Hpse Hdir Hva. unfold translate. cbv zeta. rewrite Hpg, Hpse, andb_true_r. cbn [negb].
  assert (PDX va = va / 2 ^ 22 ∧ 0 ≤ va / 2 ^ 22 < 1024) as [Hx Hr].
  { split; [|change (2 ^ 22) with 4194304; change (2 ^ 32) with 4294967296 in Hva; Z.div_mod_to_equations; lia].
    unfold PDX. change 0x3FF with (Z.ones 10). rewrite Z.land_ones, Z.shiftr_div_pow2 by done. apply Z.mod_small.
    change (2 ^ PDXSHIFT) with 4194304. change (2 ^ 10) with 1024. change (2 ^ 32) with 4294967296 in Hva. Z.div_mod_to_equations. lia. }
  rewrite Hx, !(Hdir _ Hr). unfold entrypgdir, entry_map, KERNBASE. change (Z.shiftr 0x80000000 PDXSHIFT) with 512. change (2 ^ 22) with 4194304 in *.
  destruct (Z.eqb_spec (va / 4194304) 0) as [H0|H0]; cbn [orb].
  - rewrite decide_True by (Z.div_mod_to_equations; lia). change (Some (0 + va mod 4194304) = Some va). f_equal. Z.div_mod_to_equations. lia.
  - rewrite decide_False by (Z.div_mod_to_equations; lia). destruct (Z.eqb_spec (va / 4194304) 512) as [H1|H1].
    + rewrite decide_True by (Z.div_mod_to_equations; lia). change (Some (0 + va mod 4194304) = Some (va - 0x80000000)). f_equal. Z.div_mod_to_equations. lia.
    + by rewrite decide_False by (Z.div_mod_to_equations; lia).
Qed.

Lemma entry_code_run dir stack main c : 0 ≤ main < 2 ^ 32 → 0 ≤ stack < 2 ^ 32 - KSTACKSIZE → has_entrypgdir (phys c) (V2P dir) →
  wp (entry dir stack main) c (λ _ c' _, phys c' = phys c ∧ (∀ va, 0 ≤ va < 2 ^ 32 → translate c' va = entry_map va) ∧
    pc (base c') = main ∧ regs (base c') ESP = stack + KSTACKSIZE ∧ flags (base c') = flags (base c) ∧ hidden c' = hidden c ∧ a20 c' = a20 c).
Proof.
  intros Hmain Hstack Hdir. unfold entry. exec. rewrite (u32_small main), (u32_small (stack + KSTACKSIZE)) by (unfold KSTACKSIZE in *; lia).
  split_and!; try done. intros va Hva. apply translate_entry; try done; view.
  - by rewrite Z.lor_spec, orb_true_r.
  - by rewrite Z.lor_spec, orb_true_r.
  - by rewrite (u32_small (V2P dir)) by apply u32_range.
Qed.

Lemma pushl_mem_run v c sp (Q : unit → core → list event → Prop) : hidden c SS = flat Seg.STA_W → regs (base c) ESP = sp → 4 ≤ sp < 2 ^ 32 →
  (∀ a, translate c (sp - 4) = Some a → Q () (set_base (set_ram (store32 (phys c) a v) (setr ESP (sp - 4) (base c))) c) []) →
  (∃ a, translate c (sp - 4) = Some a) → wp (pushl v) c Q.
Proof.
  intros Hss Hsp Hr HQ [a Ha]. unfold pushl. exec. rewrite Hsp, (u32_small (sp - 4)) by lia.
  eapply where_is_flat; [done | done | lia | done|]. exec. by apply HQ.
Qed.

Section power_on.
Context (sectors : Z → list Z) (latency : Z → nat) (fuel klatency polls : nat).
Context (start start32 gdtdesc_addr after_bootmain entry_addr entrypgdir_addr stack main gdt_addr : Z).
Context (disk_ok : Boot.disk_ok sectors latency fuel) (image_ok : Boot.image_ok sectors).
Context (start_ok : 4 ≤ start < 2 ^ 32) (klatency_ok : (klatency < polls)%nat).

Lemma call_bootmain_run c : hidden c SS = flat Seg.STA_W → regs (base c) ESP = start → Z.testbit (cr0 c) 31 = false → a20 c = true →
  (Boot.busy (disk c) < fuel)%nat →
  wp (call_bootmain sectors latency fuel after_bootmain) c (λ r c' _, r = Some (Boot.word sectors 24) ∧
    (∀ i, 0 ≤ i < Boot.phnum sectors → Boot.loaded sectors (phys c') i) ∧ cr0 c' = cr0 c ∧ flags (base c') = flags (base c) ∧
    hidden c' = hidden c ∧ a20 c' = true).
Proof using disk_ok image_ok start_ok.
  intros Hss Hsp Hpg Ha Hb. unfold call_bootmain. apply wp_bind. eapply pushl_mem_run; [done | done | done | | exists (start - 4); by apply translate_off].
  intros a _. exec. rewrite Ha. cbn [negb]. exec. eapply wp_mono; [by apply Boot.bootmain_loads|]. intros r b _ [-> Hl]. by split_and!.
Qed.

Lemma bootasm_run c : Z.testbit (cr0 c) 0 = false → Z.testbit (cr0 c) 31 = false → has_gdt (phys c) gdtdesc_addr gdt_addr →
  (kbc c < polls)%nat → (Boot.busy (disk c) < fuel)%nat →
  wp (bootasm sectors latency fuel klatency polls start start32 gdtdesc_addr after_bootmain) c (λ _ c' _,
    pc (base c') = Boot.word sectors 24 ∧ (∀ i, 0 ≤ i < Boot.phnum sectors → Boot.loaded sectors (phys c') i) ∧
    Z.land (flags (base c')) FL_IF = 0 ∧ a20 c' = true ∧
    hidden c' CS = flat (Z.lor Seg.STA_X Seg.STA_R) ∧ hidden c' DS = flat Seg.STA_W ∧ hidden c' ES = flat Seg.STA_W ∧ hidden c' SS = flat Seg.STA_W).
Proof using disk_ok image_ok start_ok klatency_ok.
  intros Hpe Hpg Hm Hk Hb. unfold bootasm. apply wp_bind. eapply wp_mono; [by apply real_mode_run|].
  intros _ c1 _ ((Hm1 & _ & _ & Hd1 & _) & Hk1 & Hcr1 & Hif1 & Hds1). apply open_a20_run; [by rewrite Hk1 | done|].
  intros c2 (Hm2 & _ & _ & Hd2 & Hcr2 & Hif2 & Hh2) Ha2. apply wp_bind. eapply wp_mono; [apply (protected_mode_run c2 _ gdt_addr)|].
  { by rewrite Hm2, Hm1. } { by rewrite Hh2. } { by rewrite Hcr2, Hcr1. }
  intros _ c3 _ ((Hm3 & _ & _ & Hd3 & Ha3) & Hcr3 & Hg3 & Hif3 & Hcs3 & _). apply wp_bind. eapply wp_mono; [apply (protected_segments_run c3 gdtdesc_addr gdt_addr)|].
  { by rewrite Hm3, Hm2, Hm1. } { done. } { by rewrite Hcr3, Z.lor_spec, orb_true_r. }
  intros _ c4 _ ((Hm4 & _ & _ & Hd4 & Ha4) & Hcr4 & Hif4 & Hcs4 & Hds4 & Hes4 & Hss4). exec.
  eapply wp_mono; [apply call_bootmain_run; view|].
  { done. } { by apply u32_small; lia. } { by rewrite Hcr4, Hcr3, Z.lor_spec, Hcr2, Hcr1, Hpg. } { congruence. } { by rewrite Hd4, Hd3, Hd2, Hd1. }
  intros r c5 _ (-> & Hl & _ & Hif5 & Hh5 & Ha5). exec. rewrite Hif5, Hh5. view. split_and!; try done; congruence.
Qed.

(** [entrypgdir] lies inside a segment of the image. *)
Definition image_has_entrypgdir : Prop :=
  ∃ i, 0 ≤ i < Boot.phnum sectors ∧ let a := V2P entrypgdir_addr in
    Boot.p_paddr sectors i ≤ a ∧ a + 4096 ≤ Boot.p_paddr sectors i + Boot.p_filesz sectors i ∧
    has_entrypgdir (Boot.image sectors) (Boot.p_off sectors i + (a - Boot.p_paddr sectors i)).

(** C19: From power on the boot processor reaches [main], on any disk with a
    well formed kernel image: it runs in 32-bit mode with interrupts off and
    segments that cover all of memory, on the stack of entry.S; all segments of the
    image are in memory, and paging maps the first 4 Mbyte both at 0 and at
    [KERNBASE], where the kernel is linked, and nothing else. *)
Theorem power_on_reaches_main c :
  Z.testbit (cr0 c) 0 = false → Z.testbit (cr0 c) 31 = false → has_gdt (phys c) gdtdesc_addr gdt_addr →
  (kbc c < polls)%nat → (Boot.busy (disk c) < fuel)%nat →
  Boot.word sectors 24 = V2P entry_addr → image_has_entrypgdir → 0 ≤ main < 2 ^ 32 → 0 ≤ stack < 2 ^ 32 - KSTACKSIZE →
  wp (power_on sectors latency fuel klatency polls start start32 gdtdesc_addr after_bootmain entry_addr entrypgdir_addr stack main) c
    (λ _ c' _, pc (base c') = main ∧ regs (base c') ESP = stack + KSTACKSIZE ∧ Z.land (flags (base c')) FL_IF = 0 ∧
      hidden c' CS = flat (Z.lor Seg.STA_X Seg.STA_R) ∧ hidden c' DS = flat Seg.STA_W ∧ hidden c' ES = flat Seg.STA_W ∧ hidden c' SS = flat Seg.STA_W ∧
      (∀ i, 0 ≤ i < Boot.phnum sectors → Boot.loaded sectors (phys c') i) ∧
      ∀ va, 0 ≤ va < 2 ^ 32 → translate c' va = entry_map va).
Proof using disk_ok image_ok start_ok klatency_ok.
  intros Hpe Hpg Hm Hk Hb He (i & Hi & Hlo & Hhi & Hdir) Hmain Hstack. unfold power_on. apply wp_bind. eapply wp_mono; [by apply bootasm_run|].
  intros _ c1 _ (Hpc & Hl & Hif & _ & Hcs & Hds & Hes & Hss). apply wp_bind, wp_gets. rewrite Hpc, He, Z.eqb_refl.
  eapply wp_mono; [apply entry_code_run; [done | done|]|].
  - intros j Hj. rewrite <- Hdir by done. destruct (Hl i Hi) as [Hh _].
    replace (V2P entrypgdir_addr + 4 * j) with (Boot.p_paddr sectors i + (V2P entrypgdir_addr - Boot.p_paddr sectors i + 4 * j)) by lia.
    rewrite (Boot.holds_word _ _ _ _ _ _ Hh) by lia. unfold Boot.word. f_equal. lia.
  - intros _ c2 _ (Hm2 & Ht & ? & ? & Hif2 & Hh2 & _). rewrite Hif2, Hh2, Hm2. by split_and!.
Qed.

End power_on.

(** Another processor reaches [mpenter] in the same state: started in real mode
    at the copy of entryother.S, it ends where the word at [start - 8] says, on the
    stack at [start - 4], with the page directory at [start - 12] in use; it changes
    no memory but the word it pushes on its stack. *)
Theorem entryother_reaches_mpenter start start32 gdtdesc_addr gdt_addr next sp c :
  let m := phys c in
  Z.testbit (cr0 c) 0 = false → Z.testbit (cr0 c) 31 = false → has_gdt m gdtdesc_addr gdt_addr → 12 ≤ start < 2 ^ 22 →
  load32 m (start - 4) = sp → KERNBASE + 4 ≤ sp ≤ KERNBASE + 2 ^ 22 →
  has_entrypgdir m (load32 m (start - 12)) →
  wp (entryother start start32 gdtdesc_addr next) c (λ _ c' _,
    pc (base c') = load32 m (start - 8) ∧ regs (base c') ESP = sp - 4 ∧ cr3 c' = load32 m (start - 12) ∧
    Z.testbit (cr0 c') 0 = true ∧ Z.testbit (cr0 c') 31 = true ∧ Z.land (flags (base c')) FL_IF = 0 ∧
    hidden c' CS = flat (Z.lor Seg.STA_X Seg.STA_R) ∧ hidden c' DS = flat Seg.STA_W ∧ hidden c' ES = flat Seg.STA_W ∧ hidden c' SS = flat Seg.STA_W ∧
    phys c' = store32 m (sp - 4 - KERNBASE) next).
Proof.
  intros m Hpe Hpg Hm Hst Hsp Hr Hdir. unfold entryother. apply wp_bind. eapply wp_mono; [by apply real_mode_run|].
  intros _ c1 _ ((Hm1 & _) & _ & Hcr1 & Hif1 & Hds1). apply wp_bind. eapply wp_mono; [apply (protected_mode_run c1 _ gdt_addr)|].
  { by rewrite Hm1. } { done. } { by rewrite Hcr1. }
  intros _ c2 _ ((Hm2 & _) & Hcr2 & Hg2 & Hif2 & Hcs2 & _). apply wp_bind. eapply wp_mono; [apply (protected_segments_run c2 gdtdesc_addr gdt_addr)|].
  { by rewrite Hm2, Hm1. } { done. } { by rewrite Hcr2, Z.lor_spec, orb_true_r. }
  intros _ c3 _ ((Hm3 & _) & Hcr3 & Hif3 & Hcs3 & Hds3 & Hes3 & Hss3).
  assert (phys c3 = m) as Em by by rewrite Hm3, Hm2, Hm1. unfold movl_mem, call_mem. exec.
  eapply where_is_flat; [done | done | lia | apply translate_off; view; by rewrite Hcr3, Hcr2, Hcr1, Z.lor_spec, Hpg|].
  exec. fold (phys c3). rewrite Em. set (c4 := set_cr0 _ _). assert (ram (base c4) = m) as Em4 by exact Em.
  assert (∀ c', cr0 c' = cr0 c4 → cr3 c' = cr3 c4 → cr4 c' = cr4 c4 → phys c' = m → ∀ va, 0 ≤ va < 2 ^ 32 → translate c' va = entry_map va) as Ht.
  { intros c' E0 E3 E4 Emm va Hva. apply translate_entry; [rewrite E0 | rewrite E4 | rewrite E3, Emm | done]; view; unfold c4; view;
      [by rewrite Z.lor_spec, orb_true_r | by rewrite Z.lor_spec, orb_true_r | done]. }
  assert (∀ va, 0 ≤ va < 2 ^ 22 → entry_map va = Some va) as Hlow by (intros va Hva; unfold entry_map; by rewrite decide_True).
  assert (entry_map (sp - 4) = Some (sp - 4 - KERNBASE)) as Hhigh.
  { unfold entry_map, KERNBASE in *. by rewrite decide_False, decide_True by lia. }
  eapply where_is_flat; [done | done | lia | rewrite Ht by (done || lia); apply Hlow; lia|]. exec.
  eapply where_is_flat; [done | done | lia | rewrite Ht by (done || lia); apply Hlow; lia|]. exec.
  apply (pushl_mem_run _ _ sp); [done | view; by rewrite ?Em4 | unfold KERNBASE in *; lia | | eexists; rewrite Ht by (done || unfold KERNBASE in *; lia); exact Hhigh].
  intros a Ha. rewrite Ht, Hhigh in Ha by (done || unfold KERNBASE in *; lia). injection Ha as <-. exec. rewrite Em4.
  split_and!; try done; unfold c4; view; rewrite ?Z.lor_spec, ?orb_true_r; try done; congruence.
Qed.

(** ** A disk with a small kernel *)

(** One segment, at 1 Mbyte, which starts with [entrypgdir] *)
Definition ex_image : mem :=
  mset (mset (write_bytes (write_bytes (λ _, 0) 0 ([0x7F; 0x45; 0x4C; 0x46] ++ replicate 20 0 ++ le32 0x101000 ++ le32 52 ++ replicate 12 0 ++ [1; 0]))
    52 (le32 1 ++ le32 4096 ++ le32 0x80100000 ++ le32 0x100000 ++ le32 4096 ++ le32 8192)) 4096 0x83) 6144 0x83.
Definition ex_sectors (n : Z) : list Z := read_bytes ex_image (512 * (n - 1)) 512.
Definition ex_core : core :=
  mk_core (mk_cpu (λ _, 0) (λ _, 0) 0x7c00 FL_IF (write_bytes (write_bytes (λ _, 0) 0x7c78 gdt) 0x7c90 (gdtdesc 0x7c78)) Seg.ex_tables)
    0 0 0 (0, 0) (λ _, None) (Boot.mk_machine (λ _, 0) 0 0 0 0 0 0 []) 1 0 false.

Lemma ex_image_at k : Boot.image ex_sectors k = ex_image k.
Proof.
  unfold Boot.image, ex_sectors, Boot.SECTSIZE. rewrite lookup_read_bytes by (apply Z.mod_pos_bound; lia). cbn. f_equal. Z.div_mod_to_equations. lia.
Qed.

Lemma ex_word k : Boot.word ex_sectors k = load32 ex_image k.
Proof. unfold Boot.word, load32. by rewrite !ex_image_at. Qed.

Lemma bytes_ok_write_bytes m a l : bytes_ok m → Forall (λ b, 0 ≤ b < 2 ^ 8) l → bytes_ok (write_bytes m a l).
Proof.
  intros Hm Hl x. unfold write_bytes. range_cases; [|apply Hm]. destruct (l !! _) eqn:E; cbn; [|apply Hm]. by eapply Forall_lookup_1 in Hl.
Qed.

Lemma bytes_ok_mset m a b : bytes_ok m → 0 ≤ b < 2 ^ 8 → bytes_ok (mset m a b).
Proof. intros Hm Hb x. unfold mset. destruct (_ =? _); [done | apply Hm]. Qed.

Lemma ex_image_ok : Boot.image_ok ex_sectors.
Proof.
  assert (Boot.phnum ex_sectors = 1) as Hn by (unfold Boot.phnum; rewrite !ex_image_at; by vm_compute).
  assert (Boot.phoff ex_sectors = 52) as Hp by (unfold Boot.phoff; rewrite ex_word; by vm_compute).
  split.
  - intros k. rewrite ex_image_at. revert k.
    repeat apply bytes_ok_mset; try done. repeat apply bytes_ok_write_bytes; [done | apply (bool_decide_unpack _); by vm_compute..].
  - rewrite ex_word. by vm_compute.
  - by rewrite Hn, Hp.
  - intros i Hi. assert (i = 0) as -> by lia. unfold Boot.first_byte, Boot.p_paddr, Boot.p_off, Boot.p_filesz, Boot.p_memsz.
    rewrite Hp, !ex_word. apply (bool_decide_unpack _). by vm_compute.
  - lia.
Qed.

Lemma ex_entrypgdir : image_has_entrypgdir ex_sectors 0x80100000.
Proof.
  assert (Boot.phoff ex_sectors = 52) as Hp by (unfold Boot.phoff; rewrite ex_word; by vm_compute).
  exists 0. split; [unfold Boot.phnum; rewrite !ex_image_at; by vm_compute|]. unfold Boot.p_paddr, Boot.p_filesz, Boot.p_off. rewrite Hp, !ex_word.
  split; [by vm_compute|]. split; [by vm_compute|]. intros i Hi. fold (Boot.word ex_sectors). unfold load32 at 1. rewrite !ex_image_at. fold (load32 ex_image).
  assert (Forall (λ i, load32 ex_image (4096 + 4 * i) = entrypgdir i) (seqZ 0 1024)) as Hall by (apply (bool_decide_unpack _); by vm_compute).
  exact (proj1 (Forall_forall _ _) Hall i (proj2 (elem_of_seqZ _ _ _) Hi)).
Qed.

(** At its link address the kernel finds its page directory, and the segment ends
    in zeros. *)
Lemma power_on_reaches_main_witness :
  wp (power_on ex_sectors (λ _, 2%nat) 3 1 2 0x7c00 0x7c31 0x7c90 0x7c50 0x80101000 0x80100000 0x80103000 0x80102000) ex_core (λ _ c' _,
    pc (base c') = 0x80102000 ∧ translate c' 0x80102000 = Some 0x102000 ∧ Boot.loaded ex_sectors (phys c') 0).
Proof.
  eapply wp_mono.
  { apply (power_on_reaches_main ex_sectors (λ _, 2%nat) 3 1 2 0x7c00 0x7c31 0x7c90 0x7c50 0x80101000 0x80100000 0x80103000 0x80102000 0x7c78).
    - split; [intros n; apply length_read_bytes | intros n; lia].
    - apply ex_image_ok.
    - lia.
    - lia.
    - done.
    - done.
    - split_and!; [lia | done | lia | done | by vm_compute | by vm_compute].
    - cbn. lia.
    - cbn. lia.
    - rewrite ex_word. by vm_compute.
    - apply ex_entrypgdir.
    - lia.
    - unfold KSTACKSIZE. lia. }
  intros _ c' _ (Hpc & _ & _ & _ & _ & _ & _ & Hl & Ht). split; [done|]. split; [by rewrite Ht|].
  apply Hl. unfold Boot.phnum. rewrite !ex_image_at. by vm_compute.
Defined.

End Entry.
