(* ===== verification/Umalloc.v ===== *)
(** * umalloc.c: the user memory allocator

    The allocator of Kernighan and Ritchie on the memory of the program: a
    circular list of free blocks, ordered by address, through the headers of the
    blocks. [heap] is the abstraction: the free blocks and the blocks the program
    holds, which together are all the memory taken from [sbrk]. *)

From stdpp Require Import sorting.
From S2P Require Import Prelude Layout Memory.

Module Umalloc.

(** ** The code *)

(** [sizeof(Header)]: the pointer, then the size in units of the header *)
Definition HDR : Z := 8.

Record ustate := mk_ustate { umem : mem; freep : Z; brk : Z }.

Definition ptr (m : mem) (p : Z) : Z := load32 m p.
Definition size (m : mem) (p : Z) : Z := load32 m (p + 4).
Definition set_ptr (p v : Z) (m : mem) : mem := store32 m p v.
Definition set_size (p v : Z) (m : mem) : mem := store32 m (p + 4) v.
(** [p + n] of a [Header*] *)
Definition hdr_add (p n : Z) : Z := u32 (p + HDR * n).

Section code.
(** The address of the static [base] *)
Context (base : Z).
(** Whether the kernel grows the process from a size by a number of bytes *)
Context (grant : Z → Z → bool).

(** The loop of [free]; [None] when it has not ended within [fuel] blocks *)
Fixpoint free_loop (fuel : nat) (m : mem) (bp p : Z) : option Z :=
  match fuel with
  | O => None
  | S f =>
      if (p <? bp) && (bp <? ptr m p) then Some p
      else if (ptr m p <=? p) && ((p <? bp) || (bp <? ptr m p)) then Some p
      else free_loop f m bp (ptr m p)
  end.

Definition join_upper (bp p : Z) (m : mem) : mem :=
  if hdr_add bp (size m bp) =? ptr m p then
    let m := set_size bp (u32 (size m bp + size m (ptr m p))) m in
    set_ptr bp (ptr m (ptr m p)) m
  else set_ptr bp (ptr m p) m.

Definition join_lower (bp p : Z) (m : mem) : mem :=
  if hdr_add p (size m p) =? bp then
    let m := set_size p (u32 (size m p + size m bp)) m in
    set_ptr p (ptr m bp) m
  else set_ptr p bp m.

Definition free (fuel : nat) (ap : Z) (s : ustate) : option ustate :=
  let bp := ap - HDR in
  p ← free_loop fuel (umem s) bp (freep s) ;
  Some (mk_ustate (join_lower bp p (join_upper bp p (umem s))) p (brk s)).

Definition sbrk (n : Z) (s : ustate) : Z * ustate :=
  if grant (brk s) n then (brk s, mk_ustate (umem s) (freep s) (u32 (brk s + n))) else (-1, s).

Definition morecore (fuel : nat) (nu : Z) (s : ustate) : option (Z * ustate) :=
  let nu := if nu <? 4096 then 4096 else nu in
  let '(p, s) := sbrk (s32 (nu * HDR)) s in
  if p =? -1 then Some (0, s) else
  s ← free fuel (p + HDR) (mk_ustate (set_size p nu (umem s)) (freep s) (brk s)) ;
  Some (freep s, s).

(** The block [p] is large enough: the end of it, or all of it, is taken. *)
Definition take_block (nunits prevp p : Z) (s : ustate) : Z * ustate :=
  let m := umem s in
  if size m p =? nunits then (hdr_add p 1, mk_ustate (set_ptr prevp (ptr m p) m) prevp (brk s))
  else
    let m := set_size p (u32 (size m p - nunits)) m in
    let p := hdr_add p (size m p) in
    (hdr_add p 1, mk_ustate (set_size p nunits m) prevp (brk s)).

Fixpoint malloc_loop (fuel : nat) (nunits prevp p : Z) (s : ustate) : option (Z * ustate) :=
  match fuel with
  | O => None
  | S f =>
      if nunits <=? size (umem s) p then Some (take_block nunits prevp p s)
      else if p =? freep s then
        '(p, s) ← morecore f nunits s ;
        if p =? 0 then Some (0, s) else malloc_loop f nunits p (ptr (umem s) p) s
      else malloc_loop f nunits p (ptr (umem s) p) s
  end.

Definition units (nbytes : Z) : Z := u32 (u32 (nbytes + HDR - 1) / HDR + 1).

Definition malloc (fuel : nat) (nbytes : Z) (s : ustate) : option (Z * ustate) :=
  let nunits := units nbytes in
  let s := if freep s =? 0 then mk_ustate (set_size base 0 (set_ptr base base (umem s))) base (brk s) else s in
  malloc_loop fuel nunits (freep s) (ptr (umem s) (freep s)) s.

End code.

(** ** The heap *)

(** A block: its address and its size in units *)
Abbreviation blk := (Z * Z)%type.

Definition first (l : list blk) (d : Z) : Z := match l with (a, _) :: _ => a | [] => d end.

(** The headers of [l] are linked, and the last points to [nxt]. *)
Fixpoint seg (m : mem) (l : list blk) (nxt : Z) : Prop :=
  match l with
  | [] => True
  | (a, n) :: l' => ptr m a = first l' nxt ∧ size m a = n ∧ seg m l' nxt
  end.

(** Blocks in the order of their addresses, between [lo] and [hi] *)
Fixpoint asc (lo : Z) (l : list blk) (hi : Z) : Prop :=
  match l with
  | [] => lo ≤ hi
  | (a, n) :: l' => lo ≤ a ∧ 0 < n ∧ asc (a + HDR * n) l' hi
  end.

Definition apart (x y : blk) : Prop := x.1 + HDR * x.2 ≤ y.1 ∨ y.1 + HDR * y.2 ≤ x.1.

Fixpoint total (l : list blk) : Z := match l with [] => 0 | x :: l => x.2 + total l end.

Fixpoint disjoint (l : list blk) : Prop := match l with [] => True | x :: l => Forall (apart x) l ∧ disjoint l end.

(** A block of the program: inside the heap, its size in its header, and apart
    from the free blocks *)
Definition held (start : Z) (s : ustate) (F : list blk) (x : blk) : Prop :=
  start ≤ x.1 ∧ 0 < x.2 ∧ x.1 + HDR * x.2 ≤ brk s ∧ size (umem s) x.1 = x.2 ∧ Forall (apart x) F.

(** The free blocks [F] and the blocks [L] of the program are all that is between
    [start] and [brk], and do not overlap. *)
Record heap (base start : Z) (s : ustate) (F L : list blk) : Prop := {
  h_links : seg (umem s) ((base, 0) :: F) base;
  h_freep : freep s ∈ base :: F.*1;
  h_base : 0 < base ∧ base + HDR ≤ start;
  h_brk : brk s < KERNBASE;
  h_asc : asc start F (brk s);
  h_held : Forall (held start s F) L;
  h_disjoint : disjoint L;
  h_total : HDR * (total F + total L) = brk s - start;
}.

(** The bytes of the blocks [L], headers included, are the same. *)
Definition kept (L : list blk) (m m' : mem) : Prop :=
  ∀ x, x ∈ L → ∀ b, x.1 ≤ b < x.1 + HDR * x.2 → m' b = m b.

(** ** Lists of blocks *)

Lemma seg_app m l1 l2 nxt : seg m (l1 ++ l2) nxt ↔ seg m l1 (first l2 nxt) ∧ seg m l2 nxt.
Proof. induction l1 as [|[a n] l1 IH]; simpl; [tauto|]. rewrite IH. destruct l1 as [|[b k] l1]; simpl; tauto. Qed.

Lemma seg_frame m m' l nxt :
  (∀ x, x ∈ l → ptr m' x.1 = ptr m x.1 ∧ size m' x.1 = size m x.1) → seg m l nxt → seg m' l nxt.
Proof.
  induction l as [|[a n] l IH]; simpl; [done|]. intros Hs (H1 & H2 & H3). destruct (Hs (a, n)) as [Hp Hz]; [by left|]. simpl in *. rewrite Hp, Hz.
  split; [done|]. split; [done|]. apply IH; [|done]. intros x Hx. apply Hs. by right.
Qed.

Lemma asc_app lo l1 l2 hi : asc lo (l1 ++ l2) hi ↔ ∃ mid, asc lo l1 mid ∧ asc mid l2 hi.
Proof.
  revert lo. induction l1 as [|[a n] l1 IH]; intros lo; simpl.
  - split; [intros H; exists lo; split; [lia | done]|]. intros (mid & ? & H). destruct l2 as [|[b k] l2]; simpl in *; [lia|]. intuition lia.
  - rewrite IH. naive_solver.
Qed.

Lemma asc_le lo l hi : asc lo l hi → lo ≤ hi.
Proof. revert lo. induction l as [|[a n] l IH]; intros lo; simpl; [done|]. intros (? & ? & ?%IH). unfold HDR in *. lia. Qed.

Lemma asc_lo lo lo' l hi : lo' ≤ lo → asc lo l hi → asc lo' l hi.
Proof. destruct l as [|[a n] l]; simpl; [lia | intuition lia]. Qed.

Lemma asc_hi lo l hi hi' : hi ≤ hi' → asc lo l hi → asc lo l hi'.
Proof. intros Hle. revert lo. induction l as [|[a n] l IH]; intros lo; simpl; [lia | naive_solver]. Qed.

Lemma asc_in lo l hi x : asc lo l hi → x ∈ l → lo ≤ x.1 ∧ 0 < x.2 ∧ x.1 + HDR * x.2 ≤ hi.
Proof.
  revert lo. induction l as [|[a n] l IH]; intros lo; simpl; [by intros _ ?%elem_of_nil|]. intros (H1 & H2 & H3) [->|Hx]%elem_of_cons.
  - apply asc_le in H3. simpl. lia.
  - destruct (IH _ H3 Hx) as (? & ? & ?). unfold HDR in *. lia.
Qed.

(** A block apart from those of [l] has its place among them. *)
Lemma asc_gap lo l hi x : asc lo l hi → 0 < x.2 → lo ≤ x.1 → x.1 + HDR * x.2 ≤ hi → Forall (apart x) l →
  ∃ l1 l2, l = l1 ++ l2 ∧ asc lo l1 x.1 ∧ asc (x.1 + HDR * x.2) l2 hi.
Proof.
  revert lo. induction l as [|[a n] l IH]; intros lo Hl Hx Hlo Hhi Hap; [exists [], []; done|]. simpl in Hl. destruct Hl as (H1 & H2 & H3).
  apply Forall_cons in Hap as [[Hb|Ha] Hap]; simpl in *.
  - exists [], ((a, n) :: l). simpl. split; [done|]. split; [done|]. split; [lia|]. by split.
  - destruct (IH _ H3 Hx Ha Hhi Hap) as (l1 & l2 & -> & Hl1 & Hl2). exists ((a, n) :: l1), l2. simpl. split; [done|]. split; [|done]. split; [done|]. by split.
Qed.

Lemma apart_sym x y : apart x y → apart y x.
Proof. unfold apart. tauto. Qed.

Lemma total_app l1 l2 : total (l1 ++ l2) = total l1 + total l2.
Proof. induction l1 as [|x l1 IH]; simpl; [done|]. rewrite IH. lia. Qed.

Lemma total_perm l1 l2 : l1 ≡ₚ l2 → total l1 = total l2.
Proof. induction 1; simpl; lia. Qed.

Lemma disjoint_perm l1 l2 : l1 ≡ₚ l2 → disjoint l1 → disjoint l2.
Proof.
  induction 1 as [|x l1 l2 Hp IH|x y l|l1 l2 l3 _ IH1 _ IH2]; simpl; [done | | | auto].
  - intros [Hx Hl]. split; [by rewrite <- Hp | auto].
  - rewrite !Forall_cons. intros [[Hyx Hy] [Hx Hl]]. split; [split; [by apply apart_sym | done]|]. by split.
Qed.

(** A block of the heap as an interval of addresses is not touched by a write to
    another. *)
Lemma hdr_write m a b v : a + HDR ≤ b ∨ b + HDR ≤ a →
  ptr (set_ptr a v m) b = ptr m b ∧ size (set_ptr a v m) b = size m b ∧
  ptr (set_size a v m) b = ptr m b ∧ size (set_size a v m) b = size m b.
Proof. intros H. unfold ptr, size, set_ptr, set_size, HDR in *. rewrite !load_store32_other by lia. done. Qed.

Lemma hdr_write_same m a v :
  ptr (set_ptr a v m) a = u32 v ∧ size (set_ptr a v m) a = size m a ∧
  ptr (set_size a v m) a = ptr m a ∧ size (set_size a v m) a = u32 v.
Proof. unfold ptr, size, set_ptr, set_size. rewrite !load_store32_same, !load_store32_other by lia. done. Qed.

(** The addresses of the blocks ascend. *)
Lemma asc_sorted lo l hi : asc lo l hi → StronglySorted Z.lt l.*1 ∧ Forall (λ a, lo ≤ a < hi) l.*1.
Proof.
  revert lo. induction l as [|[a n] l IH]; intros lo; simpl; [by split; constructor|]. intros (H1 & H2 & H3). pose proof (asc_le _ _ _ H3) as Hle.
  destruct (IH _ H3) as [Hs Hf]. unfold HDR in *. split; constructor; [done | | lia |]; (eapply Forall_impl; [exact Hf|]); simpl; lia.
Qed.

Lemma asc_nodup lo l hi : asc lo l hi → NoDup l.*1.
Proof.
  intros [Hs _]%asc_sorted. revert Hs. generalize l.*1. induction 1 as [|x xs Hs IH Hx]; constructor; [|done].
  intros Hin. rewrite Forall_forall in Hx. specialize (Hx x Hin). lia.
Qed.

(** ** free *)

(** The loop goes up through the blocks below [bp]. *)
Lemma free_loop_up m bp nxt l : ∀ x (fuel : nat), seg m (x :: l) nxt → StronglySorted Z.lt (x.1 :: l.*1) → Forall (λ a, a < bp) (x.1 :: l.*1) →
  bp < nxt ∨ nxt ≤ x.1 → (length l < fuel)%nat → free_loop fuel m bp x.1 = Some (default x (last l)).1.
Proof.
  induction l as [|y l IH]; intros [a n] [|f] Hseg Hs Hlt Hn Hf; simpl in Hf; try lia; destruct Hseg as (Hp & _ & Hseg); cbn [free_loop fst fmap list_fmap] in *; rewrite Hp.
  - apply Forall_cons in Hlt as [Ha _]. simpl. rewrite (proj2 (Z.ltb_lt a bp)) by done. simpl. destruct Hn as [Hn|Hn].
    + by rewrite (proj2 (Z.ltb_lt bp nxt)).
    + rewrite (proj2 (Z.leb_le nxt a)) by done. by destruct (bp <? nxt).
  - destruct y as [b k]. apply Forall_cons in Hlt as [Ha Hlt]. pose proof Hlt as [Hb _]%Forall_cons. apply StronglySorted_inv in Hs as [Hs [Hab _]%Forall_cons]. simpl in *.
    rewrite (proj2 (Z.ltb_ge bp b)), (proj2 (Z.leb_gt b a)), andb_false_r by lia. simpl.
    pose proof (IH (b, k) f) as Hi. cbn [fst] in Hi. rewrite Hi; [rewrite last_cons; by destruct (last l) | done | done | done | destruct Hn; [by left | right; lia] | lia].
Qed.

(** It goes past the blocks above [bp], to the beginning of the list. *)
Lemma free_loop_over m bp nxt l : ∀ (fuel : nat), seg m l nxt → StronglySorted Z.lt l.*1 → Forall (λ a, bp < a) l.*1 → nxt < bp →
  free_loop (length l + fuel) m bp (first l nxt) = free_loop fuel m bp nxt.
Proof.
  induction l as [|[a n] l IH]; intros f Hseg Hs Hlt Hn; [done|]. destruct Hseg as (Hp & _ & Hseg). cbn [length Nat.add free_loop first fmap list_fmap fst] in *. rewrite Hp.
  apply Forall_cons in Hlt as [Ha Hlt]. apply StronglySorted_inv in Hs as [Hs Hs']. simpl in Ha, Hs'.
  rewrite (proj2 (Z.ltb_ge a bp)) by lia. simpl. destruct l as [|[b k] l]; simpl in *.
  - rewrite (proj2 (Z.leb_le nxt a)), (proj2 (Z.ltb_ge bp nxt)) by lia. done.
  - apply Forall_cons in Hs' as [Hab _]. rewrite (proj2 (Z.leb_gt b a)) by lia. simpl. by apply IH.
Qed.

(** The last node of a list that begins with [x] *)
Definition lst (x : blk) (l : list blk) : blk := default x (last l).

Lemma lst_split (x y : blk) l l1 l2 : x :: l = l1 ++ y :: l2 → lst x l = lst y l2.
Proof.
  intros Heq. assert (last (x :: l) = last (y :: l2)) as Hl by (rewrite Heq; apply last_app_cons).
  rewrite !last_cons in Hl. unfold lst. destruct (last l), (last l2); simpl in *; congruence.
Qed.

(** Where [free] puts a block: after the last node below it. *)
Lemma free_loop_finds base start s F1 F2 L b (fuel : nat) :
  heap base start s (F1 ++ F2) L → asc start F1 b → asc (b + HDR) F2 (brk s) → (S (length (F1 ++ F2)) < fuel)%nat →
  free_loop fuel (umem s) b (freep s) = Some (lst (base, 0) F1).1.
Proof.
  intros [Hl Hf [Hb0 Hb] _ _ _ _ _] H1 H2 Hfuel. rewrite app_comm_cons, seg_app in Hl. destruct Hl as [Hs1 Hs2].
  destruct (asc_sorted _ _ _ H1) as [Ho1 Hr1]. destruct (asc_sorted _ _ _ H2) as [Ho2 Hr2]. pose proof (asc_le _ _ _ H1) as Hle. unfold HDR in *.
  assert (StronglySorted Z.lt ((base, 0) :: F1).*1) as Ho by (simpl; constructor; [done | eapply Forall_impl; [exact Hr1 | simpl; lia]]).
  assert (Forall (λ a, a < b) ((base, 0) :: F1).*1) as Hr by (simpl; constructor; [lia | eapply Forall_impl; [exact Hr1 | simpl; lia]]).
  assert (b < first F2 base ∨ first F2 base ≤ base) as Hn.
  { destruct F2 as [|[c k] F2]; simpl in *; [by right | left]. apply Forall_cons in Hr2 as [? _]. lia. }
  rewrite length_app in Hfuel. rewrite fmap_app, app_comm_cons in Hf. apply elem_of_app in Hf as [Hf|Hf].
  - assert (freep s ∈ ((base, 0) :: F1).*1) as ((a & n) & Hp & (l1 & l2 & Heq)%list_elem_of_split)%list_elem_of_fmap by done.
    rewrite Hp, (lst_split _ _ _ _ _ Heq). rewrite Heq, fmap_app in Ho, Hr. rewrite Heq, seg_app in Hs1. apply StronglySorted_app in Ho as (_ & _ & Ho). apply Forall_app in Hr as [_ Hr].
    apply (free_loop_up (umem s) b (first F2 base)); [apply Hs1 | done | done | |].
    + destruct Hn as [?|Hn]; [by left | right]. enough (base ≤ a) by (simpl; lia). assert (a ∈ ((base, 0) :: F1).*1) as Ha by (rewrite Heq, fmap_app; set_solver).
      simpl in Ha. apply elem_of_cons in Ha as [->|Ha]; [done|]. rewrite Forall_forall in Hr1. specialize (Hr1 a Ha). simpl in Hr1. lia.
    + apply (f_equal length) in Heq. rewrite length_app in Heq. simpl in Heq. lia.
  - apply list_elem_of_fmap in Hf as ((a & n) & Hp & (l1 & l2 & ->)%list_elem_of_split). rewrite seg_app in Hs2. destruct Hs2 as [_ Hs2].
    rewrite fmap_app in Ho2, Hr2. apply StronglySorted_app in Ho2 as (_ & _ & Ho2). apply Forall_app in Hr2 as [_ Hr2]. rewrite length_app in Hfuel. simpl in Hfuel.
    rewrite Hp. replace fuel with (length ((a, n) :: l2) + (fuel - length ((a, n) :: l2)))%nat by (simpl; lia).
    change (a, n).1 with (first ((a, n) :: l2) base). rewrite free_loop_over; [| done | done | eapply Forall_impl; [exact Hr2 | simpl; lia] | lia].
    apply (free_loop_up (umem s) b (first (l1 ++ (a, n) :: l2) base) F1 (base, 0)); [exact Hs1 | done | done | done | simpl; lia].
Qed.

(** The block [(b, n)] joined with the first of the blocks above it *)
Definition merge_up (b n : Z) (F : list blk) : Z * list blk :=
  match F with
  | (c, k) :: F' => if b + HDR * n =? c then (n + k, F') else (n, F)
  | [] => (n, F)
  end.

(** ... and with the last of the blocks below it *)
Definition glue (F : list blk) (b n : Z) (F2 : list blk) : list blk :=
  match last F with
  | Some (a, k) => if a + HDR * k =? b then removelast F ++ (a, k + n) :: F2 else F ++ (b, n) :: F2
  | None => (b, n) :: F2
  end.

Definition clear_of (y : blk) (F : list blk) : Prop := Forall (apart y) F.

Lemma merge_up_pure b n F hi : 0 < n → asc (b + HDR * n) F hi →
  let '(n', F') := merge_up b n F in
  n ≤ n' ∧ asc (b + HDR * n') F' hi ∧ n' + total F' = n + total F ∧ (length F' ≤ length F)%nat ∧ (∀ m nxt, seg m F nxt → seg m F' nxt) ∧
  ∀ y, 0 < y.2 → clear_of y ((b, n) :: F) → clear_of y ((b, n') :: F').
Proof.
  intros Hn Ha. destruct F as [|[c k] F]; simpl in *; [split_and!; done || lia|]. destruct Ha as (H1 & H2 & H3).
  destruct (Z.eqb_spec (b + HDR * n) c) as [<-|Hne]; [|split_and!; done || lia]. split_and!.
  - lia.
  - eapply asc_lo; [|exact H3]. unfold HDR. lia.
  - simpl. lia.
  - lia.
  - by intros m nxt (_ & _ & ?).
  - intros y Hy [Hb [Hc HF]%Forall_cons]%Forall_cons. constructor; [|done]. unfold apart, HDR in *. simpl in *. lia.
Qed.

Lemma glue_pure lo F b n F2 hi : 0 < n → asc lo F b → asc (b + HDR * n) F2 hi →
  let F' := glue F b n F2 in
  asc lo F' hi ∧ total F' = total F + n + total F2 ∧ (length F' ≤ S (length F + length F2))%nat ∧
  (∀ y, 0 < y.2 → clear_of y (F ++ (b, n) :: F2) → clear_of y F') ∧ ∃ z, z ∈ F' ∧ n ≤ z.2.
Proof.
  intros Hn H1 H2. assert (asc lo (F ++ (b, n) :: F2) hi) as Hplain by (apply asc_app; exists b; split; [done|]; simpl; split; [lia | by split]).
  assert (∃ z, z ∈ F ++ (b, n) :: F2 ∧ n ≤ z.2) as Hz by (exists (b, n); split; [set_solver | done]).
  unfold glue. destruct F as [|[a k] F _] using rev_ind.
  - split; [exact Hplain|]. split; [simpl; lia|]. split; [simpl; lia|]. done.
  - rewrite last_snoc, removelast_last. destruct (Z.eqb_spec (a + HDR * k) b) as [<-|Hne].
    + apply asc_app in H1 as (mid & H1 & Hm & Hk & _). split_and!.
      * apply asc_app. exists mid. split; [done|]. simpl. split; [done|]. split; [lia|]. eapply asc_lo; [|exact H2]. unfold HDR. lia.
      * rewrite !total_app. simpl. lia.
      * rewrite !length_app. simpl. lia.
      * intros y Hy. unfold clear_of. rewrite !Forall_app, !Forall_cons. intros [[HF [Ha _]] [Hb H]]. split; [done|]. split; [|done]. unfold apart, HDR in *. simpl in *. lia.
      * exists (a, k + n). split; [set_solver | simpl; lia].
    + split_and!; [done | rewrite !total_app; simpl; lia | rewrite !length_app; simpl; lia | done | done].
Qed.

Lemma first_range F base lo hi : asc lo F hi → 0 ≤ base < 2 ^ 32 → 0 ≤ lo → hi < 2 ^ 32 → 0 ≤ first F base < 2 ^ 32.
Proof. intros Ha Hb Hlo Hhi. destruct F as [|[c k] F]; simpl in *; [done|]. destruct Ha as (? & ? & ?%asc_le). unfold HDR in *. lia. Qed.

Lemma write_outside m a v : same_outside a HDR m (set_ptr a v m) ∧ same_outside a HDR m (set_size a v m).
Proof. unfold set_ptr, set_size, HDR. split; (eapply same_outside_mono; [| |apply store32_outside]; lia). Qed.

Lemma hdr_outside a m m' p : same_outside a HDR m m' → p + HDR ≤ a ∨ a + HDR ≤ p → ptr m' p = ptr m p ∧ size m' p = size m p.
Proof. intros Hs Hp. unfold ptr, size, HDR in *. by rewrite !(load32_same_outside a 8 m m') by (done || lia). Qed.

(** What [free] writes to the header of the block it frees *)
Lemma join_upper_mem m base b n p F2 hi :
  size m b = n → 0 < n → ptr m p = first F2 base → seg m F2 base → asc (b + HDR * n) F2 hi → 0 < base → base + HDR ≤ b → hi < KERNBASE → p + HDR ≤ b →
  let '(n', F') := merge_up b n F2 in
  let m' := join_upper b p m in same_outside b HDR m m' ∧ ptr m' b = first F' base ∧ size m' b = n'.
Proof.
  intros Hs Hn Hp Hseg Ha Hb0 Hb Hhi Hpb. pose proof (asc_le _ _ _ Ha) as Hle. pose proof (first_range F2 base _ _ Ha) as Hfr. unfold KERNBASE, HDR in *.
  unfold join_upper, hdr_add, HDR. rewrite Hs, Hp, (u32_small (b + 8 * n)) by lia. unfold merge_up, HDR.
  assert (∀ v, 0 ≤ v < 2 ^ 32 → same_outside b 8 m (set_ptr b v m) ∧ ptr (set_ptr b v m) b = v ∧ size (set_ptr b v m) b = n) as Hplain.
  { intros v Hv. destruct (write_outside m b v) as [? _]. destruct (hdr_write_same m b v) as (-> & -> & _). by rewrite u32_small. }
  destruct F2 as [|[c k] F2]; simpl in *; [rewrite (proj2 (Z.eqb_neq _ _)) by lia; apply Hplain; lia|].
  destruct (Z.eqb_spec (b + 8 * n) c) as [<-|Hne]; [|apply Hplain; lia]. destruct Hseg as (Hpc & Hsc & Hseg). destruct Ha as (_ & Hk & Ha). pose proof (asc_le _ _ _ Ha). rewrite Hsc.
  set (m1 := set_size b (u32 (n + k)) m). destruct (hdr_outside b m m1 p) as [-> _]; [by apply write_outside | unfold HDR; lia|]. rewrite Hp.
  destruct (hdr_outside b m m1 (b + 8 * n)) as [-> _]; [by apply write_outside | unfold HDR; lia|]. rewrite Hpc.
  destruct (hdr_write_same m1 b (first F2 base)) as (-> & -> & _). destruct (hdr_write_same m b (u32 (n + k))) as (_ & _ & _ & Hz). fold m1 in Hz. rewrite Hz.
  unfold HDR in *. pose proof (first_range F2 base _ _ Ha ltac:(lia) ltac:(lia) ltac:(lia)). rewrite (u32_small (n + k)), !u32_small by lia. split; [|done].
  eapply same_outside_trans; [apply (write_outside m b) | apply write_outside].
Qed.

(** ... and to the header of the node before it *)
Lemma join_lower_mem m b n nx p k :
  size m b = n → ptr m b = nx → size m p = k → 0 ≤ k → 0 < n → 0 ≤ nx < 2 ^ 32 → 0 ≤ p → p + HDR * k ≤ b → b + HDR * n < KERNBASE → p + HDR ≤ b →
  let m' := join_lower b p m in same_outside p HDR m m' ∧
  (if p + HDR * k =? b then ptr m' p = nx ∧ size m' p = k + n else ptr m' p = b ∧ size m' p = k).
Proof.
  intros Hs Hp Hk Hk0 Hn Hnx Hp0 Hpk Hhi Hpb. unfold KERNBASE, HDR in *. unfold join_lower, hdr_add, HDR. rewrite Hk, Hs, (u32_small (p + 8 * k)) by lia.
  destruct (Z.eqb_spec (p + 8 * k) b) as [He|Hne].
  - set (m1 := set_size p (u32 (k + n)) m). destruct (hdr_outside p m m1 b) as [-> _]; [by apply write_outside | unfold HDR; lia|]. rewrite Hp.
    destruct (hdr_write_same m1 p nx) as (-> & -> & _). destruct (hdr_write_same m p (u32 (k + n))) as (_ & _ & _ & Hz). fold m1 in Hz. rewrite Hz, (u32_small (k + n)), !u32_small by lia.
    split; [|done]. eapply same_outside_trans; [apply (write_outside m p) | apply write_outside].
  - destruct (hdr_write_same m p b) as (-> & -> & _). rewrite u32_small by lia. split; [apply write_outside | done].
Qed.

(** A list of nodes whose headers are outside what was written *)
Lemma seg_outside a m m' l nxt : same_outside a HDR m m' → (∀ x, x ∈ l → x.1 + HDR ≤ a ∨ a + HDR ≤ x.1) → seg m l nxt → seg m' l nxt.
Proof. intros Hs Hl. apply seg_frame. intros x Hx. apply (hdr_outside a); auto. Qed.

(** The node before the block that is freed *)
Lemma lst_node base start F b : asc start F b → base + HDR ≤ start →
  ∃ Q p k, (base, 0) :: F = Q ++ [(p, k)] ∧ lst (base, 0) F = (p, k) ∧ (∀ x, x ∈ Q → x.1 + HDR ≤ p) ∧ base ≤ p ∧ 0 ≤ k ∧ p + HDR * k ≤ b ∧ p + HDR ≤ b.
Proof.
  intros Ha Hb. destruct F as [|[a n] F _] using rev_ind; unfold lst.
  - simpl in Ha. exists [], base, 0. unfold HDR in *. split_and!; try done; try lia. by intros x ?%elem_of_nil.
  - apply asc_app in Ha as (mid & H1 & H2 & H3 & H4). simpl in H4. rewrite last_snoc. exists ((base, 0) :: F), a, n. simpl. pose proof (asc_le _ _ _ H1). unfold HDR in *. split_and!; try done; try lia.
    intros x [->|Hx]%elem_of_cons; [simpl; lia|]. destruct (asc_in _ _ _ x H1 Hx) as (? & ? & ?). unfold HDR in *. lia.
Qed.

Lemma glue_nodes base F b n F2 Q p k : (base, 0) :: F = Q ++ [(p, k)] → base < b →
  (base, 0) :: glue F b n F2 = Q ++ (if p + HDR * k =? b then [(p, k + n)] else [(p, k); (b, n)]) ++ F2.
Proof.
  intros HQ Hb. unfold glue. destruct F as [|[a j] F _] using rev_ind.
  - destruct Q as [|x Q]; simplify_eq/=; [|by destruct Q]. rewrite (proj2 (Z.eqb_neq _ _)) by lia. done.
  - rewrite last_snoc, removelast_last. rewrite app_comm_cons in HQ. apply app_inj_tail in HQ as [<- [= <- <-]]. destruct (_ =? b); [done|]. simpl. by rewrite <- app_assoc.
Qed.

(** The links after [free] *)
Lemma free_links base start m F1 b n F2 hi :
  seg m ((base, 0) :: F1 ++ F2) base → 0 < base → base + HDR ≤ start → hi < KERNBASE → asc start F1 b → 0 < n → size m b = n → asc (b + HDR * n) F2 hi →
  let p := (lst (base, 0) F1).1 in let m' := join_lower b p (join_upper b p m) in
  let '(n', F') := merge_up b n F2 in
  seg m' ((base, 0) :: glue F1 b n' F') base ∧ (∀ x, ¬ (p ≤ x < p + HDR) → ¬ (b ≤ x < b + HDR) → m' x = m x) ∧ p ∈ base :: (glue F1 b n' F').*1.
Proof.
  intros Hl Hb0 Hb Hhi H1 Hn Hs H2. destruct (lst_node base start F1 b H1 Hb) as (Q & p & k & HQ & -> & HQp & Hbp & Hk & Hpk & Hpb).
  rewrite app_comm_cons, HQ, !seg_app in Hl. simpl in Hl. destruct Hl as [[HsQ (Hpp & Hpz & _)] Hs2]. cbn [fst]. cbv zeta. pose proof (asc_le _ _ _ H1) as Hle.
  pose proof (merge_up_pure b n F2 hi Hn H2) as Hpure. pose proof (join_upper_mem m base b n p F2 hi Hs Hn Hpp Hs2 H2 Hb0 ltac:(unfold HDR in *; lia) Hhi Hpb) as Hup.
  destruct (merge_up b n F2) as [n' F']. destruct Hpure as (Hnn & Ha' & _ & _ & Hsub & _). destruct Hup as (Ho1 & Hp1 & Hz1). set (m1 := join_upper b p m) in *.
  pose proof (asc_le _ _ _ Ha') as Hle'. destruct (hdr_outside b m m1 p Ho1 (or_introl Hpb)) as [_ Hpz1]. rewrite Hpz in Hpz1.
  pose proof (join_lower_mem m1 b n' (first F' base) p k Hz1 Hp1 Hpz1 Hk) as Hlow. destruct Hlow as [Ho2 Hr]; try (unfold HDR, KERNBASE in *; lia).
  { eapply first_range; [exact Ha' | unfold KERNBASE, HDR in *; lia..]. }
  set (m2 := join_lower b p m1) in *. rewrite <- (fmap_cons fst (base, 0)), (glue_nodes base F1 b n' F' Q p k HQ) by (unfold HDR in *; lia). split; [|split].
  - assert (seg m2 Q p) as HQ2.
    { apply (seg_outside p m1 m2); [done | intros x Hx; left; by apply HQp|]. apply (seg_outside b m m1); [done | intros x Hx; left; specialize (HQp x Hx); unfold HDR in *; lia | done]. }
    assert (∀ x, x ∈ F' → b + HDR ≤ x.1) as HxF by (intros x Hx; destruct (asc_in _ _ _ x Ha' Hx); unfold HDR in *; lia).
    assert (seg m2 F' base) as HF2.
    { apply (seg_outside p m1 m2); [done | intros x Hx; right; specialize (HxF x Hx); unfold HDR in *; lia|]. apply (seg_outside b m m1); [done | intros x Hx; right; by apply HxF | by apply Hsub]. }
    destruct (hdr_outside p m1 m2 b Ho2) as [Hpb2 Hzb2]; [by right|]. rewrite !seg_app. destruct (_ =? b); destruct Hr as [Hr1 Hr2]; simpl; [done|]. rewrite Hpb2, Hzb2. done.
  - intros x Hx1 Hx2. rewrite Ho2, Ho1 by lia. done.
  - rewrite !fmap_app. apply elem_of_app. right. apply elem_of_app. left. destruct (_ =? b); simpl; by left.
Qed.

Lemma kept_size L m m' x : kept L m m' → x ∈ L → 0 < x.2 → size m' x.1 = size m x.1.
Proof. intros Hk Hx Hn. unfold size, load32. unfold HDR, kept in *. by rewrite !(Hk x Hx) by (unfold HDR; lia). Qed.

(** [free] takes a block from the program and joins it to the free memory. *)
Lemma free_spec base start s F L x (fuel : nat) :
  heap base start s F (x :: L) → (S (length F) < fuel)%nat →
  ∃ s' F', free fuel (x.1 + HDR) s = Some s' ∧ heap base start s' F' L ∧ kept L (umem s) (umem s') ∧ brk s' = brk s ∧
    (length F' ≤ S (length F))%nat ∧ ∃ z, z ∈ F' ∧ x.2 ≤ z.2.
Proof.
  intros Hh Hfuel. pose proof Hh as [Hl Hf [Hb0 Hb] Hbrk Ha Hheld [Hdx HdL] Htot]. apply Forall_cons in Hheld as [(Hx1 & Hx2 & Hx3 & Hx4 & Hx5) Hheld]. destruct x as [b n]. simpl in *.
  destruct (asc_gap _ _ _ (b, n) Ha Hx2 Hx1 Hx3 Hx5) as (F1 & F2 & -> & H1 & H2). simpl in *.
  pose proof (free_links base start (umem s) F1 b n F2 (brk s) Hl Hb0 Hb Hbrk H1 Hx2 Hx4 H2) as Hlinks. pose proof (merge_up_pure b n F2 _ Hx2 H2) as Hm. cbv zeta in Hlinks.
  destruct (merge_up b n F2) as [n' F2']. destruct Hm as (Hnn & Ha' & Ht' & Hlen & _ & Hclr). destruct Hlinks as (Hl' & Hsame & Hin).
  destruct (glue_pure start F1 b n' F2' (brk s) ltac:(lia) H1 Ha') as (Hg1 & Hg2 & Hg3 & Hg4 & z & Hz & Hzn). set (F' := glue F1 b n' F2') in *.
  unfold free. replace (b + HDR - HDR) with b by lia. rewrite (free_loop_finds base start s F1 F2 _ b fuel Hh); [|done | eapply asc_lo; [|exact H2]; unfold HDR; lia | done]. simpl.
  set (p := (lst (base, 0) F1).1) in *. set (m' := join_lower b p _) in *. rewrite length_app in *.
  assert (kept L (umem s) m') as Hkept.
  { intros y Hy c Hc. rewrite Forall_forall in Hheld, Hdx. destruct (Hheld y Hy) as (Hy1 & Hy2 & _ & _ & HyF). specialize (Hdx y Hy). apply Hsame.
    - destruct (lst_node base start F1 b H1 Hb) as (Q & p' & k & HQ & Hlst & _ & _ & Hk & _). unfold p. rewrite Hlst. simpl. destruct (decide (F1 = [])) as [->|Hne].
      + unfold lst in Hlst. simpl in Hlst. injection Hlst as <- <-. unfold HDR in *. lia.
      + assert ((p', k) ∈ F1) as Hp. { apply list_elem_of_lookup. exists (pred (length F1)). rewrite <- last_lookup. unfold lst in Hlst. destruct (last F1) eqn:E; simpl in Hlst; [by rewrite Hlst | by apply last_None in E]. }
        apply Forall_app in HyF as [HyF _]. rewrite Forall_forall in HyF. specialize (HyF _ Hp). destruct (asc_in _ _ _ _ H1 Hp) as (_ & Hk0 & _). unfold apart, HDR in *. simpl in *. lia.
    - unfold apart, HDR in *. simpl in *. lia. }
  eexists _, F'. split; [done|]. split; [|split; [done|]; split; [done|]; split; [lia|]; exists z; split; [done | lia]].
  split; simpl; [done | done | done | done | done | | done | rewrite total_app in Htot; lia].
  rewrite Forall_forall in Hheld, Hdx |- *. intros y Hy. destruct (Hheld y Hy) as (Hy1 & Hy2 & Hy3 & Hy4 & HyF). unfold held. simpl. split_and!; [done | done | done | |].
  - by rewrite (kept_size L (umem s) m').
  - apply Hg4; [done|]. apply Forall_app in HyF as [HyF1 HyF2]. apply Forall_app. split; [done|]. apply Hclr; [done|]. constructor; [by apply apart_sym, Hdx | done].
Qed.

(** ** malloc *)

(** A node that points to a block is right before it. *)
Lemma node_before base start m F hi q p : seg m ((base, 0) :: F) base → asc start F hi → q ∈ base :: F.*1 → ptr m q = p → p ≠ base →
  ∃ F1 k F2 A j, F = F1 ++ (p, k) :: F2 ∧ (base, 0) :: F1 = A ++ [(q, j)].
Proof.
  intros Hl Ha Hq Hp Hne. assert (q ∈ ((base, 0) :: F).*1) as ((q' & j) & -> & (A & Bs & HN)%list_elem_of_split)%list_elem_of_fmap by done.
  rewrite HN, seg_app in Hl. destruct Hl as [_ [Hpq _]]. simpl in Hp. rewrite Hpq in Hp. destruct Bs as [|[p' k] Bs]; simpl in Hp; [congruence | subst p'].
  destruct A as [|a A]; simplify_eq/=; [by exists [], k, Bs, [], 0|]. exists (A ++ [(q', j)]), k, Bs, ((base, 0) :: A), j. split; [by rewrite <- app_assoc | done].
Qed.

(** Blocks that are in order are apart. *)
Lemma asc_apart lo F1 p k F2 hi : asc lo (F1 ++ (p, k) :: F2) hi → clear_of (p, k) (F1 ++ F2).
Proof.
  intros (mid & H1 & H2 & H3 & H4)%asc_app. apply Forall_app. split; apply Forall_forall; intros y Hy.
  - destruct (asc_in _ _ _ y H1 Hy) as (? & ? & ?). right. simpl. lia.
  - destruct (asc_in _ _ _ y H4 Hy) as (? & ? & ?). left. simpl. lia.
Qed.

(** The heap after a block [(a, n)] has been made from the free block [(p, k)]. *)
Lemma heap_take base start s F1 p k F2 L m' q F' a n :
  heap base start s (F1 ++ (p, k) :: F2) L → seg m' ((base, 0) :: F') base → q ∈ base :: F'.*1 → asc start F' (brk s) →
  total F' + n = total F1 + k + total F2 → start ≤ a → 0 < n → a + HDR * n ≤ brk s → size m' a = n → clear_of (a, n) F' → kept L (umem s) m' →
  (∀ y, 0 < y.2 → apart y (p, k) → clear_of y (F1 ++ F2) → apart y (a, n) ∧ clear_of y F') →
  heap base start (mk_ustate m' q (brk s)) F' ((a, n) :: L).
Proof.
  intros [Hl Hf Hb Hbrk Ha Hheld Hd Htot] Hl' Hq Ha' Ht H1 H2 H3 H4 H5 Hkept Hy.
  assert (∀ y, y ∈ L → 0 < y.2 ∧ apart y (a, n) ∧ clear_of y F') as HyL.
  { intros y HyL. rewrite Forall_forall in Hheld. destruct (Hheld y HyL) as (_ & Hy2 & _ & _ & HyF). split; [done|].
    rewrite Forall_app, Forall_cons in HyF. destruct HyF as (? & ? & ?). apply Hy; [done | done | by apply Forall_app]. }
  split; simpl; [done | done | done | done | done | | | rewrite !total_app in Htot; simpl in Htot; lia].
  - constructor; [by split|]. rewrite Forall_forall in Hheld |- *. intros y Hyin. destruct (Hheld y Hyin) as (? & ? & ? & Hz & _), (HyL y Hyin) as (? & _ & ?).
    split_and!; [done | done | done | simpl; by rewrite (kept_size L (umem s) m') | done].
  - split; [|done]. apply Forall_forall. intros y Hyin. apply apart_sym. by apply HyL.
Qed.

(** The facts about the node [q] before the free block [(p, k)] *)
Lemma take_setup base start s F1 p k F2 A q j L :
  heap base start s (F1 ++ (p, k) :: F2) L → (base, 0) :: F1 = A ++ [(q, j)] →
  (∀ x, x ∈ A → x.1 + HDR ≤ q) ∧ base ≤ q ∧ q + HDR ≤ p ∧ start ≤ p ∧ 0 < k ∧ asc (p + HDR * k) F2 (brk s) ∧ 
  seg (umem s) (A ++ [(q, j)]) p ∧ ptr (umem s) p = first F2 base ∧ size (umem s) p = k ∧ seg (umem s) F2 base ∧
  (∀ y, y ∈ L → y.1 + HDR * y.2 ≤ q ∨ q + HDR ≤ y.1).
Proof.
  intros [Hl Hf [Hb0 Hb] Hbrk Ha Hheld Hd Htot] HA. pose proof Ha as (mid & H1 & H2 & H3 & H4)%asc_app.
  destruct (lst_node base start F1 p) as (A' & q' & j' & HA' & _ & HAq & Hbq & _ & _ & Hqp); [eapply asc_hi; [|exact H1]; lia | done|].
  rewrite HA in HA'. apply app_inj_tail in HA' as [<- [= <- <-]]. rewrite app_comm_cons, HA, seg_app in Hl. destruct Hl as [HlA (Hpp & Hzp & HlB)].
  pose proof (asc_le _ _ _ H1). split_and!; try done; [lia|]. intros y Hy. rewrite Forall_forall in Hheld. destruct (Hheld y Hy) as (Hy1 & Hy2 & _ & _ & HyF).
  destruct (decide (q = base)) as [->|Hne]; [right; lia|].
  assert ((q, j) ∈ F1) as Hq. { assert ((q, j) ∈ (base, 0) :: F1) as [[= -> ->]|?]%elem_of_cons by (rewrite HA; set_solver); done. }
  apply Forall_app in HyF as [HyF _]. rewrite Forall_forall in HyF. specialize (HyF _ Hq). destruct (asc_in _ _ _ _ H1 Hq) as (_ & ? & _). unfold apart, HDR in *. simpl in *. lia.
Qed.

(** All of a block is taken. *)
Lemma take_whole base start s F1 p k F2 A q j L :
  heap base start s (F1 ++ (p, k) :: F2) L → (base, 0) :: F1 = A ++ [(q, j)] →
  let m' := set_ptr q (ptr (umem s) p) (umem s) in
  heap base start (mk_ustate m' q (brk s)) (F1 ++ F2) ((p, k) :: L) ∧ kept L (umem s) m'.
Proof.
  intros Hh HA m'. destruct (take_setup _ _ _ _ _ _ _ _ _ _ _ Hh HA) as (HAq & Hbq & Hqp & Hsp & Hk & H4 & HlA & Hpp & Hzp & HlB & HyL). pose proof Hh as [_ _ [Hb0 Hb] Hbrk Ha _ _ _].
  pose proof (asc_apart _ _ _ _ _ _ Ha) as Hclr. pose proof (asc_le _ _ _ H4) as Hle. assert (same_outside q HDR (umem s) m') as Ho by apply write_outside.
  assert (kept L (umem s) m') as Hkept by (intros y Hy c Hc; apply Ho; specialize (HyL y Hy); unfold HDR in *; lia). split; [|done].
  assert (0 ≤ ptr (umem s) p < 2 ^ 32) as Hpr by (rewrite Hpp; eapply first_range; [exact H4 | unfold HDR, KERNBASE in *; lia..]).
  destruct (hdr_write_same (umem s) q (ptr (umem s) p)) as (Hp' & Hz' & _). fold m' in Hp', Hz'. rewrite u32_small in Hp' by done.
  rewrite seg_app in HlA. destruct HlA as [HlA (_ & Hzq & _)]. destruct (hdr_outside q _ m' p Ho (or_intror Hqp)) as [_ Hzp'].
  apply (heap_take base start s F1 p k F2 L); try done; [| | | rewrite total_app; lia | lia..].
  - rewrite app_comm_cons, HA, !seg_app. split; [split|].
    + apply (seg_outside q (umem s)); [done | intros x Hx; left; by apply HAq | done].
    + simpl. rewrite Hp', Hz', Hpp. done.
    + apply (seg_outside q (umem s)); [done | | done]. intros x Hx. right. destruct (asc_in _ _ _ x H4 Hx). unfold HDR in *. lia.
  - change (q ∈ ((base, 0) :: F1 ++ F2).*1). rewrite app_comm_cons, HA, !fmap_app. set_solver.
  - apply asc_app in Ha as (mid & H1 & H2 & _). apply asc_app. exists mid. split; [done|]. eapply asc_lo; [|exact H4]. unfold HDR in *. lia.
Qed.

(** The end of a block is taken. *)
Lemma take_part base start s F1 p k F2 A q j L n :
  heap base start s (F1 ++ (p, k) :: F2) L → (base, 0) :: F1 = A ++ [(q, j)] → 0 < n < k →
  let a := p + HDR * (k - n) in let m' := set_size a n (set_size p (k - n) (umem s)) in
  heap base start (mk_ustate m' q (brk s)) (F1 ++ (p, k - n) :: F2) ((a, n) :: L) ∧ kept L (umem s) m'.
Proof.
  intros Hh HA Hn a m'. destruct (take_setup _ _ _ _ _ _ _ _ _ _ _ Hh HA) as (HAq & Hbq & Hqp & Hsp & Hk & H4 & HlA & Hpp & Hzp & HlB & HyL). pose proof Hh as [_ _ [Hb0 Hb] Hbrk Ha Hheld _ _].
  pose proof (asc_le _ _ _ H4) as Hle. assert (p + HDR ≤ a) as Hpa by (unfold a, HDR; lia). assert (a + HDR * n = p + HDR * k) as Han by (unfold a, HDR; lia).
  assert (∀ x, ¬ (p ≤ x < p + HDR * k) → m' x = umem s x) as Ho.
  { intros x Hx. unfold m'. rewrite (proj2 (write_outside (set_size p (k - n) (umem s)) a n)), (proj2 (write_outside (umem s) p (k - n))) by (unfold HDR in *; lia). done. }
  assert (∀ c, c + HDR ≤ p ∨ p + HDR * k ≤ c → ptr m' c = ptr (umem s) c ∧ size m' c = size (umem s) c) as Hhdr.
  { intros c Hc. unfold ptr, size, load32. unfold HDR in *. by rewrite !Ho by lia. }
  destruct (hdr_write_same (set_size p (k - n) (umem s)) a n) as (_ & _ & _ & Hza). fold m' in Hza. rewrite u32_small in Hza by (unfold HDR, KERNBASE in *; lia).
  destruct (hdr_write (set_size p (k - n) (umem s)) a p n) as (_ & _ & Hp1 & Hz1); [by right|]. destruct (hdr_write_same (umem s) p (k - n)) as (_ & _ & Hp2 & Hz2).
  rewrite Hp2 in Hp1. rewrite Hz2, u32_small in Hz1 by (unfold HDR, KERNBASE in *; lia). fold m' in Hp1, Hz1.
  assert (kept L (umem s) m') as Hkept.
  { intros y Hy c Hc. apply Ho. rewrite Forall_forall in Hheld. destruct (Hheld y Hy) as (_ & _ & _ & _ & HyF). rewrite Forall_app, Forall_cons in HyF. destruct HyF as (_ & [?|?] & _); simpl in *; lia. }
  split; [|done]. pose proof Ha as (mid & H1 & H2 & _)%asc_app.
  assert (asc start (F1 ++ (p, k - n) :: F2) (brk s)) as HaF.
  { apply asc_app. exists mid. split; [done|]. simpl. split; [done|]. split; [lia|]. eapply asc_lo; [|exact H4]. unfold HDR. lia. }
  assert (clear_of (a, n) (F1 ++ (p, k - n) :: F2)) as Hclr.
  { apply Forall_app. split; [|constructor; [right; unfold a; simpl; lia|]]; apply Forall_forall; intros y Hy.
    - destruct (asc_in _ _ _ y H1 Hy) as (? & ? & ?). right. simpl. unfold HDR in *. lia.
    - destruct (asc_in _ _ _ y H4 Hy) as (? & ? & ?). left. simpl. lia. }
  apply (heap_take base start s F1 p k F2 L); try done; [| | rewrite total_app; simpl; lia | unfold HDR in *; lia | lia | lia |].
  - rewrite app_comm_cons, HA, seg_app. split.
    + eapply seg_frame; [|exact HlA]. intros x [Hx| ->%list_elem_of_singleton]%elem_of_app; apply Hhdr; left; [specialize (HAq x Hx); unfold HDR in *; lia | done].
    + simpl. split; [congruence|]. split; [done|]. eapply seg_frame; [|exact HlB]. intros x Hx. apply Hhdr. right. by destruct (asc_in _ _ _ x H4 Hx).
  - change (q ∈ ((base, 0) :: F1 ++ (p, k - n) :: F2).*1). rewrite app_comm_cons, HA, !fmap_app. set_solver.
  - intros y Hy Hyp HyF. unfold clear_of in *. rewrite Forall_app, Forall_cons in *. unfold apart, a, HDR in *. simpl in *. split; [lia|]. split; [apply HyF|]. split; [lia | apply HyF].
Qed.

Lemma take_spec base start s F L n q p :
  heap base start s F L → q ∈ base :: F.*1 → ptr (umem s) q = p → p ≠ base → 0 < n ≤ size (umem s) p →
  ∃ F' s' r, take_block n q p s = (r, s') ∧ heap base start s' F' ((r - HDR, n) :: L) ∧ kept L (umem s) (umem s') ∧ brk s' = brk s ∧ 0 < r.
Proof.
  intros Hh Hq Hp Hne Hn. pose proof Hh as [Hl _ [Hb0 Hb] Hbrk Ha _ _ _]. destruct (node_before base start (umem s) F (brk s) q p Hl Ha Hq Hp Hne) as (F1 & k & F2 & A & j & -> & HA).
  destruct (take_setup _ _ _ _ _ _ _ _ _ _ _ Hh HA) as (_ & _ & _ & Hsp & Hk & H4 & _ & _ & Hzp & _). pose proof (asc_le _ _ _ H4) as Hle. rewrite Hzp in Hn. unfold take_block. rewrite Hzp.
  unfold hdr_add, HDR, KERNBASE in *. destruct (Z.eqb_spec k n) as [->|Hkn].
  - destruct (take_whole _ _ _ _ _ _ _ _ _ _ _ Hh HA) as [Hh' Hkept]. rewrite u32_small by lia. do 3 eexists. split; [done|]. replace (p + 8 * 1 - 8) with p by lia. split_and!; done || lia.
  - destruct (take_part _ _ _ _ _ _ _ _ _ _ _ n Hh HA ltac:(lia)) as [Hh' Hkept]. unfold HDR in *. rewrite (u32_small (k - n)) by lia.
    destruct (hdr_write_same (umem s) p (k - n)) as (_ & _ & _ & ->). rewrite (u32_small (k - n)), (u32_small (p + 8 * (k - n))), u32_small by lia.
    do 3 eexists. split; [done|]. replace (p + 8 * (k - n) + 8 * 1 - 8) with (p + 8 * (k - n)) by lia. split_and!; done || lia.
Qed.

(** The search goes round the list once, to [freep]: it ends at a block that is
    large enough, or asks for more memory. *)
Lemma scan grant n s k d l : ∀ prev (fuel : nat), let N := l ++ [(freep s, k)] in
  seg (umem s) N d → freep s ∉ l.*1 → ptr (umem s) prev = first N 0 →
  (∃ q p, (q = prev ∨ q ∈ l.*1) ∧ ptr (umem s) q = p ∧ n ≤ size (umem s) p ∧
     malloc_loop grant (length l + S fuel) n prev (first N 0) s = Some (take_block n q p s)) ∨
  (Forall (λ x, x.2 < n) N ∧ malloc_loop grant (length l + S fuel) n prev (first N 0) s =
     '(p, s) ← morecore grant fuel n s ; if p =? 0 then Some (0, s) else malloc_loop grant fuel n p (ptr (umem s) p) s).
Proof.
  induction l as [|[a j] l IH]; intros prev fuel N Hseg Hf Hp; simpl in *; destruct Hseg as (Hpa & Hz & Hseg).
  - destruct (Z.leb_spec n (size (umem s) (freep s))) as [Hle|Hgt]; [left; exists prev, (freep s); split_and!; auto|].
    rewrite Z.eqb_refl. right. split; [|done]. constructor; [simpl; lia | constructor].
  - destruct (Z.leb_spec n (size (umem s) a)) as [Hle|Hgt]; [left; exists prev, a; split_and!; auto|].
    apply not_elem_of_cons in Hf as [Hfa Hf]. rewrite (proj2 (Z.eqb_neq a (freep s))) by done.
    assert (ptr (umem s) a = first (l ++ [(freep s, k)]) 0) as Hpa' by (rewrite Hpa; by destruct l as [|[? ?] ?]). rewrite Hpa'.
    destruct (IH a fuel Hseg Hf Hpa') as [(q & p & Hq & Hpq & Hn & Hr)|[Hall Hr]].
    + left. exists q, p. split; [right; destruct Hq as [->|]; set_solver | done].
    + right. split; [|done]. constructor; [simpl; lia | done].
Qed.

(** One search, in a heap *)
Lemma search base start grant n s F L (fuel : nat) :
  heap base start s F L → 0 < n →
  (∃ F' s' r, malloc_loop grant (length F + S fuel) n (freep s) (ptr (umem s) (freep s)) s = Some (r, s') ∧
     heap base start s' F' ((r - HDR, n) :: L) ∧ kept L (umem s) (umem s') ∧ brk s' = brk s ∧ 0 < r) ∨
  (Forall (λ x, x.2 < n) F ∧ malloc_loop grant (length F + S fuel) n (freep s) (ptr (umem s) (freep s)) s =
     '(p, s) ← morecore grant fuel n s ; if p =? 0 then Some (0, s) else malloc_loop grant fuel n p (ptr (umem s) p) s).
Proof.
  intros Hh Hn. pose proof Hh as [Hl Hf [Hb0 Hb] Hbrk Ha _ _ _]. pose proof Hl as (_ & Hz0 & _).
  assert (freep s ∈ ((base, 0) :: F).*1) as ((f & k) & Hfe & (S1 & S2 & HN)%list_elem_of_split)%list_elem_of_fmap by done. simpl in Hfe. subst f.
  destruct (asc_sorted _ _ _ Ha) as [Hso Hfa]. assert (NoDup (((base, 0) :: F).*1)) as Hnd.
  { simpl. constructor; [|by eapply asc_nodup]. intros Hin. rewrite Forall_forall in Hfa. specialize (Hfa base Hin). unfold HDR in *. lia. }
  rewrite HN in Hl. apply seg_app in Hl as [Hs1 (Hpf & Hzf & Hs2)]. assert (first (S1 ++ [(freep s, k)]) 0 = base) as Hfirst by (destruct S1 as [|[? ?] ?]; by simplify_eq/=).
  assert (seg (umem s) ((S2 ++ S1) ++ [(freep s, k)]) (first S2 base)) as Hseg.
  { rewrite <- app_assoc, seg_app. split; [|rewrite seg_app; by split]. clear -Hs2 Hfirst. destruct S1 as [|[? ?] ?]; simpl in *; by subst. }
  assert (ptr (umem s) (freep s) = first ((S2 ++ S1) ++ [(freep s, k)]) 0) as Hpfirst by (rewrite Hpf, <- app_assoc; destruct S2 as [|[? ?] ?]; simpl; [by rewrite Hfirst | done]).
  assert (freep s ∉ (S2 ++ S1).*1) as Hnin.
  { rewrite HN, fmap_app, fmap_cons in Hnd. apply NoDup_app in Hnd as (_ & H1 & [H2 _]%NoDup_cons). rewrite fmap_app, not_elem_of_app. split; [done|]. intros Hin. apply (H1 _ Hin). by left. }
  assert (length F = length (S2 ++ S1)) as Hlen by (apply (f_equal length) in HN; rewrite length_app in *; simpl in HN; lia).
  rewrite Hlen, Hpfirst. destruct (scan grant n s k _ _ (freep s) fuel Hseg Hnin Hpfirst) as [(q & p & Hq & Hpq & Hle & Hr)|[Hall Hr]].
  - left. rewrite Hr. destruct (take_spec base start s F L n q p Hh) as (F' & s' & r & Ht & H'); [| done | intros ->; lia | done | exists F', s', r; by rewrite Ht].
    destruct Hq as [->|Hq]; [done|]. change (q ∈ ((base, 0) :: F).*1). rewrite HN, fmap_app, fmap_cons. rewrite fmap_app in Hq. set_solver.
  - right. split; [|done]. rewrite Forall_forall in Hall |- *. intros x Hx. apply Hall. assert (x ∈ (base, 0) :: F) as Hx' by (by right). rewrite HN in Hx'. set_solver.
Qed.

(** What is documented of [sbrk]: the process does not grow past KERNBASE. *)
Definition grant_ok (grant : Z → Z → bool) : Prop := ∀ b n, 0 < n → grant b n = true → b + n < KERNBASE.

(** The memory [sbrk] gives is a block of the program's until it is freed. *)
Lemma heap_grow base start s F L n :
  heap base start s F L → 0 < n → brk s + HDR * n < KERNBASE →
  let s' := mk_ustate (set_size (brk s) n (umem s)) (freep s) (brk s + HDR * n) in
  heap base start s' F ((brk s, n) :: L) ∧ kept L (umem s) (umem s').
Proof.
  intros [Hl Hf [Hb0 Hb] Hbrk Ha Hheld Hd Htot] Hn Hlt s'. pose proof (asc_le _ _ _ Ha) as Hle. assert (same_outside (brk s) HDR (umem s) (umem s')) as Ho by apply write_outside.
  assert (∀ y, y ∈ L → start ≤ y.1 ∧ 0 < y.2 ∧ y.1 + HDR * y.2 ≤ brk s ∧ size (umem s) y.1 = y.2 ∧ Forall (apart y) F) as HyL by (rewrite Forall_forall in Hheld; exact Hheld).
  assert (kept L (umem s) (umem s')) as Hkept by (intros y Hy c Hc; destruct (HyL y Hy) as (_ & _ & ? & _); apply Ho; lia). split; [|done]. split; simpl.
  - destruct (hdr_outside (brk s) _ _ base Ho) as [Hp Hz]; [left; lia|]. destruct Hl as (H1 & H2 & H3). unfold s' in *. simpl in *. rewrite Hp, Hz. split; [done|]. split; [done|].
    apply (seg_outside (brk s) (umem s)); [done | | done]. intros x Hx. destruct (asc_in _ _ _ x Ha Hx) as (? & ? & ?). unfold HDR in *. lia.
  - done.
  - done.
  - done.
  - eapply asc_hi; [|exact Ha]. unfold HDR. lia.
  - constructor.
    + destruct (hdr_write_same (umem s) (brk s) n) as (_ & _ & _ & Hz). rewrite u32_small in Hz by (unfold KERNBASE, HDR in *; lia). unfold held. simpl. split_and!; [done | done | lia | done |].
      apply Forall_forall. intros x Hx. destruct (asc_in _ _ _ x Ha Hx) as (? & ? & ?). right. simpl. lia.
    + apply Forall_forall. intros y Hy. destruct (HyL y Hy) as (? & ? & ? & ? & ?). unfold held. simpl. split_and!; [done | done | unfold HDR in *; lia | by rewrite (kept_size L (umem s) (umem s')) | done].
  - split; [|done]. apply Forall_forall. intros y Hy. destruct (HyL y Hy) as (_ & _ & ? & _). right. simpl. lia.
  - unfold HDR in *. lia.
Qed.

Lemma kept_trans L m1 m2 m3 : kept L m1 m2 → kept L m2 m3 → kept L m1 m3.
Proof. intros H1 H2 x Hx b Hb. by rewrite (H2 x Hx b Hb), (H1 x Hx b Hb). Qed.

Lemma malloc_loop_spec base start grant n s F L (fuel : nat) :
  grant_ok grant → heap base start s F L → 0 < n → HDR * n < 2 ^ 31 → (2 * length F + 6 ≤ fuel)%nat →
  ∃ r s' F', malloc_loop grant fuel n (freep s) (ptr (umem s) (freep s)) s = Some (r, s') ∧ kept L (umem s) (umem s') ∧
    ((r = 0 ∧ s' = s ∧ F' = F ∧ grant (brk s) (HDR * Z.max n 4096) = false) ∨ (0 < r ∧ heap base start s' F' ((r - HDR, n) :: L))).
Proof.
  intros Hg Hh Hn Hmax Hfuel. replace fuel with (length F + S (fuel - S (length F)))%nat by lia. set (f := (fuel - S (length F))%nat) in *.
  destruct (search base start grant n s F L f Hh Hn) as [(F' & s' & r & Hr & Hh' & Hk & _ & Hr0)|[_ Hr]]; [exists r, s', F'; split; [done|]; split; [done|]; by right|]. rewrite Hr.
  unfold morecore, sbrk. set (nu := if n <? 4096 then 4096 else n). assert (nu = Z.max n 4096) as Hnu by (unfold nu; destruct (Z.ltb_spec n 4096); lia).
  replace (s32 (nu * HDR)) with (HDR * Z.max n 4096) by (rewrite s32_small; unfold HDR in *; lia). destruct (grant (brk s) _) eqn:Hgr; cbn [mbind option_bind Z.eqb].
  2: { exists 0, s, F. split; [done|]. split; [done|]. by left. }
  pose proof (Hg (brk s) (HDR * Z.max n 4096) ltac:(unfold HDR; lia) Hgr) as Hlt. pose proof Hh as [_ _ [Hb0 Hb] _ Ha _ _ _]. pose proof (asc_le _ _ _ Ha) as Hle. rewrite <- Hnu in *.
  rewrite (proj2 (Z.eqb_neq (brk s) (-1))) by (unfold HDR in *; lia). simpl. rewrite u32_small by (unfold HDR, KERNBASE in *; lia).
  destruct (heap_grow base start s F L nu Hh ltac:(lia) Hlt) as [Hh1 Hk1]. set (s1 := mk_ustate _ _ _) in *.
  destruct (free_spec base start s1 F L (brk s, nu) f Hh1 ltac:(lia)) as (s2 & F2 & Hfr & Hh2 & Hk2 & _ & Hlen & z & Hz & Hzn). simpl in Hfr. rewrite Hfr. simpl.
  pose proof Hh2 as [_ Hf2 _ _ Ha2 _ _ _]. assert (freep s2 ≠ 0) as Hf0.
  { intros Hf0. rewrite Hf0 in Hf2. apply elem_of_cons in Hf2 as [?|Hin]; [lia|]. destruct (asc_sorted _ _ _ Ha2) as [_ Hfa]. rewrite Forall_forall in Hfa. specialize (Hfa 0 Hin). unfold HDR in *. lia. }
  rewrite (proj2 (Z.eqb_neq _ _) Hf0). replace f with (length F2 + S (f - S (length F2)))%nat by lia.
  destruct (search base start grant n s2 F2 L (f - S (length F2)) Hh2 Hn) as [(F3 & s3 & r & Hr3 & Hh3 & Hk3 & _ & Hr0)|[Hsmall _]].
  - exists r, s3, F3. split; [done|]. split; [eapply kept_trans; [|exact Hk3]; by eapply kept_trans|]. by right.
  - rewrite Forall_forall in Hsmall. specialize (Hsmall z Hz). simpl in *. lia.
Qed.

(** The allocator in use, or before its first [malloc] *)
Definition ready (base start : Z) (s : ustate) (F L : list blk) : Prop :=
  heap base start s F L ∨
  (freep s = 0 ∧ F = [] ∧ L = [] ∧ 0 < base ∧ base + HDR ≤ start ∧ start = brk s ∧ brk s < KERNBASE).

Lemma heap_init base start s : 0 < base → base + HDR ≤ start → start = brk s → brk s < KERNBASE →
  heap base start (mk_ustate (set_size base 0 (set_ptr base base (umem s))) base (brk s)) [] [].
Proof.
  intros Hb Hs He Hk. destruct (hdr_write_same (set_ptr base base (umem s)) base 0) as (_ & _ & H3 & H4). destruct (hdr_write_same (umem s) base base) as (H1 & _).
  unfold KERNBASE, HDR in *. split; simpl; try done; [|by left|lia|lia]. rewrite H3, H1, H4, u32_small by lia. done.
Qed.

Lemma units_eq nbytes : 0 ≤ nbytes < 2 ^ 31 - 32 → units nbytes = (nbytes + 7) / 8 + 1.
Proof. intros H. unfold units, HDR. rewrite (u32_small (nbytes + 8 - 1)), u32_small by (Z.div_mod_to_equations; lia). do 2 f_equal. lia. Qed.

Lemma heap_perm base start s F L L' : L ≡ₚ L' → heap base start s F L → heap base start s F L'.
Proof.
  intros Hp [Hl Hf Hb Hbrk Ha Hheld Hd Htot]. split; try done; [by rewrite <- Hp | by eapply disjoint_perm | by rewrite <- (total_perm _ _ Hp)].
Qed.

(** C20: [malloc] gives the program memory of its own. For every request below
    2 GB it ends, within a bound linear in the number of free blocks. Either it
    returns a block that is in the heap, has room for the request behind its
    header, and overlaps neither a block the program holds nor a free one; or the
    kernel refused to grow the process, the result is 0 and the allocator is as it
    was. In both cases every block the program holds keeps its contents, and no
    memory of the heap is lost. *)
Theorem malloc_correct base start grant s F L nbytes (fuel : nat) :
  grant_ok grant → ready base start s F L → 0 ≤ nbytes < 2 ^ 31 - 32 → (2 * length F + 6 ≤ fuel)%nat →
  ∃ r s' F', malloc base grant fuel nbytes s = Some (r, s') ∧ kept L (umem s) (umem s') ∧
    ((r = 0 ∧ heap base start s' F L ∧ grant (brk s) (HDR * Z.max (units nbytes) 4096) = false) ∨
     (0 < r ∧ heap base start s' F' ((r - HDR, units nbytes) :: L) ∧ HDR + nbytes ≤ HDR * units nbytes)).
Proof.
  intros Hg Hr Hn Hfuel. pose proof (units_eq nbytes Hn) as Hu. set (n := units nbytes) in *.
  assert (0 < n ∧ HDR * n < 2 ^ 31 ∧ HDR + nbytes ≤ HDR * n) as (Hn1 & Hn2 & Hn3) by (unfold HDR; rewrite Hu; Z.div_mod_to_equations; lia).
  unfold malloc. fold n. set (s0 := if freep s =? 0 then _ else s).
  assert (heap base start s0 F L ∧ kept L (umem s) (umem s0) ∧ brk s0 = brk s) as (Hh & Hk0 & Hb).
  { unfold s0. destruct Hr as [Hh|(Hf & -> & -> & Hb1 & Hb2 & Hb3 & Hb4)].
    - pose proof Hh as [_ Hf [Hb0 Hb] _ Ha _ _ _]. destruct (asc_sorted _ _ _ Ha) as [_ Hfa]. rewrite (proj2 (Z.eqb_neq (freep s) 0)); [done|].
      intros H0. rewrite H0 in Hf. apply elem_of_cons in Hf as [?|Hf]; [lia|]. rewrite Forall_forall in Hfa. specialize (Hfa 0 Hf). unfold HDR in *. lia.
    - rewrite Hf. simpl. split; [by apply heap_init|]. split; [by intros x ?%elem_of_nil | done]. }
  destruct (malloc_loop_spec base start grant n s0 F L fuel Hg Hh Hn1 Hn2 Hfuel) as (r & s' & F' & Hr' & Hk & Hres).
  exists r, s', F'. split; [done|]. split; [by eapply kept_trans|]. destruct Hres as [(-> & -> & -> & Hno)|[Hpos Hh']]; [left | by right]. by rewrite <- Hb.
Qed.

(** [free] takes back a block the program holds: it ends within a bound linear
    in the number of free blocks, the memory of the block is free memory again,
    joined to what is free on either side of it, and every other block the program
    holds keeps its contents. *)
Theorem free_correct base start s F L L' a n (fuel : nat) :
  heap base start s F L → L ≡ₚ (a, n) :: L' → (S (length F) < fuel)%nat →
  ∃ s' F', free fuel (a + HDR) s = Some s' ∧ heap base start s' F' L' ∧ kept L' (umem s) (umem s') ∧ total F' = total F + n.
Proof.
  intros Hh Hp Hfuel. pose proof (heap_perm _ _ _ _ _ _ Hp Hh) as Hh1. destruct (free_spec base start s F L' (a, n) fuel Hh1 Hfuel) as (s' & F' & Hf & Hh' & Hk & Hbrk & _).
  exists s', F'. split; [done|]. split; [done|]. split; [done|]. destruct Hh1 as [_ _ _ _ _ _ _ Ht], Hh' as [_ _ _ _ _ _ _ Ht']. rewrite Hbrk in Ht'. simpl in Ht. unfold HDR in *. lia.
Qed.

(** A request near 4 GB wraps around to a block that is only a header. *)
Lemma units_wraps : units (2 ^ 32 - 1) = 1.
Proof. reflexivity. Qed.

Definition ex_grant (b n : Z) : bool := b + n <? 0x100000.
Lemma ex_grant_ok : grant_ok ex_grant.
Proof. intros b n _ H%Z.ltb_lt. unfold KERNBASE. lia. Qed.
Definition ex_heap : ustate := mk_ustate (λ _, 0) 0 0x4000.

Lemma malloc_correct_witness :
  ∃ s', malloc 0x1000 ex_grant 6 100 ex_heap = Some (0x4000 + HDR * 4082 + HDR, s') ∧
    ∃ F', heap 0x1000 0x4000 s' F' [(0x4000 + HDR * 4082, 14)].
Proof.
  assert (ready 0x1000 0x4000 ex_heap [] []) as Hready by (right; unfold HDR, KERNBASE; simpl; split_and!; done || lia).
  destruct (malloc_correct 0x1000 0x4000 ex_grant ex_heap [] [] 100 6 ex_grant_ok Hready ltac:(lia) ltac:(simpl; lia)) as (r & s' & F' & Hm & _ & Hres).
  assert (match malloc 0x1000 ex_grant 6 100 ex_heap with Some (r, _) => r = 0x4000 + HDR * 4082 + HDR | None => False end) as Hr by (vm_compute; reflexivity).
  rewrite Hm in Hr. rewrite Hr in Hres, Hm. exists s'. split; [exact Hm|]. clear Hm. destruct Hres as [[Hr0 _]|(_ & Hh & _)]; [by vm_compute in Hr0|].
  exists F'. replace (0x4000 + HDR * 4082 + HDR - HDR) with (0x4000 + HDR * 4082) in Hh by (unfold HDR; lia). exact Hh.
Defined.

Lemma ex_one_block : ∃ s F, heap 0x1000 0x4000 s F [(0x4000, 2)] ∧ (S (length F) < 4)%nat.
Proof.
  destruct (heap_grow 0x1000 0x4000 _ _ _ 2 (heap_init 0x1000 0x4000 ex_heap ltac:(lia) ltac:(unfold HDR; lia) eq_refl ltac:(by vm_compute))) as [Hh _]; [lia | by vm_compute|].
  do 2 eexists. split; [exact Hh | simpl; lia].
Defined.

Lemma free_correct_witness : ∃ s s' F', free 4 (0x4000 + HDR) s = Some s' ∧ heap 0x1000 0x4000 s' F' [].
Proof.
  destruct ex_one_block as (s & F & Hh & Hf). destruct (free_correct 0x1000 0x4000 s F [(0x4000, 2)] [] 0x4000 2 4 Hh) as (s' & F' & H1 & H2 & _); [done | done|].
  by exists s, s', F'.
Defined.

End Umalloc.
