(* ===== verification/Grep.v ===== *)
(** * grep.c: the pattern matcher and the line filter

    C strings are lists of bytes, the NUL at their end left out. The kernel's
    [read] is the list of what its calls return; what the program writes is the
    list of its [write] calls. The list of reads is any list: the 1024 bytes of
    [buf] bound each read, and a line that fills them makes the next read one of 0
    bytes, where the list ends. *)

From S2P Require Import Prelude Ulib.

Module Grep.
Import Ulib.

Definition newline : Z := 10.
Definition star_char : Z := 42.
Definition dot : Z := 46.
Definition dollar : Z := 36.
Definition caret : Z := 94.

(** ** The code *)

(** The loop of [matchstar(c, re, text)], where [here] is [matchhere(re, _)]. *)
Fixpoint matchstar (here : list Z → bool) (c : Z) (text : list Z) : bool :=
  if here text then true else
  match text with
  | [] => false
  | t :: text' => if (t =? c) || (c =? dot) then matchstar here c text' else false
  end.

Fixpoint matchhere (re text : list Z) : bool :=
  match re with
  | [] => true
  | c :: re1 =>
      let rest :=
        if (c =? dollar) && (match re1 with [] => true | _ => false end)
        then match text with [] => true | _ => false end
        else match text with
             | [] => false
             | t :: text' => if (c =? dot) || (c =? t) then matchhere re1 text' else false
             end in
      match re1 with
      | d :: re2 => if d =? star_char then matchstar (matchhere re2) c text else rest
      | [] => rest
      end
  end.

(** The loop of [match] *)
Fixpoint match_loop (re text : list Z) : bool :=
  if matchhere re text then true else
  match text with
  | [] => false
  | _ :: text' => match_loop re text'
  end.

Definition match_ (re text : list Z) : bool :=
  match re with
  | c :: re' => if c =? caret then matchhere re' text else match_loop re text
  | [] => match_loop re text
  end.

(** The inner loop of [grep]: the lines written, and what is left at [p]. *)
Fixpoint grep_lines (fuel : nat) (pattern p : list Z) : list (list Z) * list Z :=
  match strchr p newline with
  | None => ([], p)
  | Some q =>
      match fuel with
      | O => ([], p)
      | S f =>
          let line := take q p in
          let '(out, rest) := grep_lines f pattern (drop (S q) p) in
          (if match_ pattern line then (line ++ [newline]) :: out else out, rest)
      end
  end.

(** The outer loop of [grep]: [buf] is what is in the buffer, [reads] what the
    calls of [read] return; the lines written to file descriptor 1. *)
Fixpoint grep (pattern buf : list Z) (reads : list (list Z)) : list (list Z) :=
  match reads with
  | [] | [] :: _ => []
  | d :: reads' =>
      let p0 := buf ++ d in
      let '(out, p) := grep_lines (length p0) pattern p0 in
      let buf' := if (length p =? length p0)%nat then [] else p in
      out ++ grep pattern buf' reads'
  end.

(** [main], with [open_read] for what reading a file yields, [None] when it does
    not open; the writes it makes. *)
Fixpoint grep_files (open_read : list Z → option (list (list Z))) (pattern : list Z) (files : list (list Z)) : list (Z * list Z) :=
  match files with
  | [] => []
  | f :: files' =>
      match open_read f with
      | None => [(1, bytes "grep: cannot open " ++ f ++ [newline])]
      | Some reads => ((1,.) <$> grep pattern [] reads) ++ grep_files open_read pattern files'
      end
  end.

Definition main (open_read : list Z → option (list (list Z))) (stdin : list (list Z)) (argv : list (list Z)) : list (Z * list Z) :=
  match argv with
  | [] | [_] => [(2, bytes "usage: grep pattern [file ...]" ++ [newline])]
  | [_; pattern] => (1,.) <$> grep pattern [] stdin
  | _ :: pattern :: files => grep_files open_read pattern files
  end.

(** ** What a pattern means *)

(** A pattern is a sequence of single and starred characters, possibly bound to
    the beginning and to the end of the line. *)
Inductive class := Char (c : Z) | Any.
Inductive atom := One (k : class) | Many (k : class).

Definition class_of (c : Z) : class := if c =? dot then Any else Char c.
Definition in_class (k : class) (t : Z) : Prop := match k with Char c => t = c | Any => True end.

(** The atoms of a pattern without its caret, and whether it ends in a dollar sign. *)
Fixpoint atoms (re : list Z) : list atom * bool :=
  match re with
  | [] => ([], false)
  | c :: re1 =>
      let single := if (c =? dollar) && (match re1 with [] => true | _ => false end) then ([], true)
                    else let '(l, e) := atoms re1 in (One (class_of c) :: l, e) in
      match re1 with
      | d :: re2 => if d =? star_char then let '(l, e) := atoms re2 in (Many (class_of c) :: l, e) else single
      | [] => single
      end
  end.

(** The strings a sequence of atoms matches. *)
Fixpoint lang (l : list atom) (w : list Z) : Prop :=
  match l with
  | [] => w = []
  | One k :: l' => ∃ t w', w = t :: w' ∧ in_class k t ∧ lang l' w'
  | Many k :: l' => ∃ u v, w = u ++ v ∧ Forall (in_class k) u ∧ lang l' v
  end.

Definition prefix_match (re text : list Z) : Prop :=
  ∃ w post, text = w ++ post ∧ lang (atoms re).1 w ∧ ((atoms re).2 = true → post = []).

(** Some part of the line is matched. *)
Definition line_matches (re text : list Z) : Prop :=
  match re with
  | c :: re' => if c =? caret then prefix_match re' text else ∃ pre rest, text = pre ++ rest ∧ prefix_match re rest
  | [] => ∃ pre rest, text = pre ++ rest ∧ prefix_match re rest
  end.

Lemma class_ok c t : ((c =? dot) || (c =? t) = true) ↔ in_class (class_of c) t.
Proof. unfold class_of. destruct (Z.eqb_spec c dot); simpl; [done|]. rewrite Z.eqb_eq. split; congruence. Qed.

Lemma class_ok' c t : ((t =? c) || (c =? dot) = true) ↔ in_class (class_of c) t.
Proof. rewrite <- class_ok, Z.eqb_sym. by rewrite orb_comm. Qed.

Lemma matchstar_spec here c : ∀ text,
  matchstar here c text = true ↔ ∃ u v, text = u ++ v ∧ Forall (in_class (class_of c)) u ∧ here v = true.
Proof.
  induction text as [|t text IH]; cbn [matchstar].
  - destruct (here []) eqn:Hh; split; try done.
    + intros _. by exists [], [].
    + intros (u & v & Huv & _ & Hv). symmetry in Huv. apply app_eq_nil in Huv as [-> ->]. congruence.
  - destruct (here (t :: text)) eqn:Hh; [split; [|done]; intros _; by exists [], (t :: text)|].
    destruct ((t =? c) || (c =? dot)) eqn:Hc.
    + rewrite IH. split.
      * intros (u & v & -> & Hu & Hv). exists (t :: u), v. split; [done|]. split; [|done]. constructor; [by apply class_ok' | done].
      * intros ([|x u] & v & Huv & Hu & Hv); simpl in Huv; [subst; congruence|]. injection Huv as <- ->. exists u, v. by apply Forall_cons in Hu as [_ ?].
    + split; [done|]. intros ([|x u] & v & Huv & Hu & Hv); simpl in Huv; [subst; congruence|]. injection Huv as <- ->.
      apply Forall_cons in Hu as [Hu _]. apply class_ok' in Hu. congruence.
Qed.

Lemma prefix_one c re text l e :
  atoms (c :: re) = (One (class_of c) :: l, e) → atoms re = (l, e) →
  prefix_match (c :: re) text ↔ ∃ t text', text = t :: text' ∧ in_class (class_of c) t ∧ prefix_match re text'.
Proof.
  intros H1 H2. unfold prefix_match. rewrite H1, H2. cbn [fst snd lang]. split.
  - intros (w & post & -> & (t & w' & -> & Ht & Hl) & He). exists t, (w' ++ post). split; [done|]. split; [done|]. by exists w', post.
  - intros (t & text' & -> & Ht & (w & post & -> & Hl & He)). exists (t :: w), post. split; [done|]. split; [by exists t, w | done].
Qed.

Lemma prefix_many c re text l e :
  atoms (c :: star_char :: re) = (Many (class_of c) :: l, e) → atoms re = (l, e) →
  prefix_match (c :: star_char :: re) text ↔ ∃ u v, text = u ++ v ∧ Forall (in_class (class_of c)) u ∧ prefix_match re v.
Proof.
  intros H1 H2. unfold prefix_match. rewrite H1, H2. cbn [fst snd lang]. split.
  - intros (w & post & -> & (u & v & -> & Hu & Hl) & He). exists u, (v ++ post). split; [by rewrite app_assoc|]. split; [done|]. by exists v, post.
  - intros (u & v & -> & Hu & (w & post & -> & Hl & He)). exists (u ++ w), post. split; [by rewrite app_assoc|]. split; [by exists u, w | done].
Qed.

(** The case of [matchhere] without a star. *)
Lemma matchhere_one c re text :
  (c =? dollar) && (match re with [] => true | _ => false end) = false →
  atoms (c :: re) = (One (class_of c) :: (atoms re).1, (atoms re).2) →
  (∀ text, matchhere re text = true ↔ prefix_match re text) →
  match text with [] => false | t :: text' => if (c =? dot) || (c =? t) then matchhere re text' else false end = true ↔
  prefix_match (c :: re) text.
Proof.
  intros Hd Ha IH. rewrite (prefix_one _ _ _ _ _ Ha) by (by destruct (atoms re)). destruct text as [|t text].
  - split; [done|]. by intros (? & ? & ? & _).
  - destruct ((c =? dot) || (c =? t)) eqn:Hc; rewrite ?IH; split.
    + intros Hp. exists t, text. split; [done|]. split; [by apply class_ok | done].
    + by intros (t' & text' & [= -> ->] & _ & Hp).
    + done.
    + intros (t' & text' & [= -> ->] & Ht & _). apply class_ok in Ht. congruence.
Qed.

Lemma matchhere_cons c re1 text :
  matchhere (c :: re1) text =
    let rest :=
      if (c =? dollar) && (match re1 with [] => true | _ => false end) then match text with [] => true | _ => false end
      else match text with [] => false | t :: text' => if (c =? dot) || (c =? t) then matchhere re1 text' else false end in
    match re1 with
    | d :: re2 => if d =? star_char then matchstar (matchhere re2) c text else rest
    | [] => rest
    end.
Proof. done. Qed.

Lemma matchhere_spec re : ∀ text, matchhere re text = true ↔ prefix_match re text.
Proof.
  induction re as [re IH] using (induction_ltof1 _ (@length Z)); unfold ltof in IH. intros text. destruct re as [|c re1].
  - split; [|done]. intros _. exists [], text. by split_and!.
  - assert ((c =? dollar) && (match re1 with [] => true | _ => false end) = true → c = dollar ∧ re1 = []) as Hend.
    { rewrite andb_true_iff, Z.eqb_eq. destruct re1; naive_solver. }
    destruct ((c =? dollar) && (match re1 with [] => true | _ => false end)) eqn:Hd.
    + destruct (Hend eq_refl) as [-> ->]. unfold prefix_match. simpl. split.
      * destruct text; [|done]. intros _. by exists [], [].
      * intros (w & post & -> & -> & Hpost). by rewrite (Hpost eq_refl).
    + rewrite matchhere_cons, Hd. cbv zeta. destruct re1 as [|d re2].
      * apply (matchhere_one c [] text); [done | | by apply IH; simpl; lia]. simpl. by rewrite Hd.
      * destruct (Z.eqb_spec d star_char) as [->|Hns].
        -- rewrite matchstar_spec, (prefix_many c re2 text (atoms re2).1 (atoms re2).2) by (simpl; by destruct (atoms re2)).
           assert (∀ v, matchhere re2 v = true ↔ prefix_match re2 v) as IH2 by (apply IH; simpl; lia). by setoid_rewrite IH2.
        -- apply matchhere_one; [done | | by apply IH; simpl; lia].
           change (atoms (c :: d :: re2)) with (if d =? star_char then let '(l, e) := atoms re2 in (Many (class_of c) :: l, e) else
             if (c =? dollar) && false then ([], true) else let '(l, e) := atoms (d :: re2) in (One (class_of c) :: l, e)).
           rewrite (proj2 (Z.eqb_neq _ _) Hns), andb_false_r. by destruct (atoms (d :: re2)).
Qed.

Lemma match_loop_spec re : ∀ text, match_loop re text = true ↔ ∃ pre rest, text = pre ++ rest ∧ prefix_match re rest.
Proof.
  induction text as [|t text IH]; cbn [match_loop]; destruct (matchhere re _) eqn:Hh.
  1, 3: split; [intros _; apply matchhere_spec in Hh; by eexists [], _ | done].
  - split; [done|]. intros (pre & rest & Hpr & Hp). symmetry in Hpr. apply app_eq_nil in Hpr as [-> ->]. apply matchhere_spec in Hp. congruence.
  - rewrite IH. split.
    + intros (pre & rest & -> & Hp). by exists (t :: pre), rest.
    + intros ([|x pre] & rest & Hpr & Hp); simpl in Hpr; [subst; apply matchhere_spec in Hp; congruence|]. injection Hpr as <- ->. by exists pre, rest.
Qed.

Lemma match_spec re text : match_ re text = true ↔ line_matches re text.
Proof.
  unfold match_, line_matches. destruct re as [|c re]; [apply match_loop_spec|].
  destruct (c =? caret); [apply matchhere_spec | apply match_loop_spec].
Qed.

(** ** Lines *)

(** The lines of a text that end in a newline, and what is left. *)
Fixpoint split_lines (l : list Z) : list (list Z) * list Z :=
  match l with
  | [] => ([], [])
  | c :: l' =>
      let '(ls, r) := split_lines l' in
      if c =? newline then ([] :: ls, r) else match ls with [] => ([], c :: r) | h :: t => ((c :: h) :: t, r) end
  end.
Definition lines (l : list Z) : list (list Z) := (split_lines l).1.

Lemma split_lines_none l : newline ∉ l → split_lines l = ([], l).
Proof.
  induction l as [|c l IH]; intros Hl; [done|]. rewrite not_elem_of_cons in Hl. destruct Hl as [Hc Hl]. simpl. rewrite IH by done.
  by rewrite (proj2 (Z.eqb_neq _ _)) by done.
Qed.

Lemma split_lines_app l l' :
  split_lines (l ++ l') = ((split_lines l).1 ++ (split_lines ((split_lines l).2 ++ l')).1, (split_lines ((split_lines l).2 ++ l')).2).
Proof.
  induction l as [|c l IH]; simpl; [by destruct (split_lines l')|]. rewrite IH. destruct (split_lines l) as [ls r]. simpl.
  destruct (Z.eqb_spec c newline) as [->|Hc]; [done|]. destruct ls as [|h t]; simpl; [|done].
  destruct (split_lines (r ++ l')) as [ls' r'] eqn:E. simpl. rewrite (proj2 (Z.eqb_neq _ _)) by done. by destruct ls'.
Qed.

Lemma split_lines_rest l : newline ∉ (split_lines l).2.
Proof.
  induction l as [|c l IH]; [apply not_elem_of_nil|]. simpl. destruct (split_lines l) as [ls r]. destruct (Z.eqb_spec c newline); [done|].
  destruct ls; [|done]. simpl in *. by apply not_elem_of_cons.
Qed.

Lemma split_lines_line a b : newline ∉ a → split_lines (a ++ newline :: b) = (a :: (split_lines b).1, (split_lines b).2).
Proof.
  induction a as [|c a IH]; intros Ha; cbn [app split_lines].
  - destruct (split_lines b). done.
  - rewrite not_elem_of_cons in Ha. destruct Ha as [Hc Ha]. rewrite IH by done. by rewrite (proj2 (Z.eqb_neq _ _)) by done.
Qed.

Lemma split_lines_sub l x : x ∈ (split_lines l).2 → x ∈ l.
Proof.
  induction l as [|c l IH]; [done|]. simpl. destruct (split_lines l) as [ls r]. destruct (c =? newline); [by right; apply IH|].
  destruct ls; simpl; [|by right; apply IH]. rewrite !elem_of_cons. naive_solver.
Qed.

Lemma split_lines_shorter l : (newline ∈ l → length (split_lines l).2 < length l)%nat.
Proof.
  assert (∀ l, length (split_lines l).2 ≤ length l ∧ (newline ∈ l → (split_lines l).1 ≠ [] ∧ length (split_lines l).2 < length l))%nat as H; [|by apply H].
  clear. induction l as [|c l [IH1 IH2]]; [split; [done|]; by intros ?%elem_of_nil|]. simpl. destruct (split_lines l) as [ls r]. simpl in *.
  destruct (Z.eqb_spec c newline) as [->|Hc]; [simpl; split; [lia|]; intros _; split; [done | lia]|].
  split; [destruct ls; simpl; lia|]. intros [?|Hin]%elem_of_cons; [congruence|]. destruct (IH2 Hin) as [Hne Hlt]. destruct ls; [done|]. simpl. split; [done | lia].
Qed.

Lemma strchr_none l : 0 ∉ l → strchr l newline = None → newline ∉ l.
Proof.
  induction l as [|c l IH]; intros H0 Hs; [apply not_elem_of_nil|]. rewrite not_elem_of_cons in H0. destruct H0 as [Hc H0]. simpl in Hs.
  rewrite (proj2 (Z.eqb_neq c 0)) in Hs by done. destruct (Z.eqb_spec c newline) as [|Hn]; [done|]. apply fmap_None in Hs. apply not_elem_of_cons. auto.
Qed.

Lemma strchr_some l q : strchr l newline = Some q →
  l = take q l ++ newline :: drop (S q) l ∧ newline ∉ take q l ∧ (length (drop (S q) l) < length l)%nat.
Proof.
  revert q. induction l as [|c l IH]; intros q Hs; [done|]. simpl in Hs. destruct (c =? 0); [done|]. destruct (Z.eqb_spec c newline) as [->|Hn].
  - injection Hs as <-. simpl. rewrite drop_0. split; [done|]. split; [apply not_elem_of_nil | lia].
  - apply fmap_Some in Hs as (q' & Hq & ->). destruct (IH q' Hq) as (H1 & H2 & H3). cbn [take app]. split; [f_equal; exact H1|].
    split; [by apply not_elem_of_cons | cbn [length]; simpl drop; simpl drop in H3; lia].
Qed.

Definition selected (pattern : list Z) (ls : list (list Z)) : list (list Z) :=
  (λ l, l ++ [newline]) <$> filter (λ l, match_ pattern l = true) ls.

Lemma grep_lines_spec pattern (fuel : nat) : ∀ p, 0 ∉ p → (length p ≤ fuel)%nat →
  grep_lines fuel pattern p = (selected pattern (lines p), (split_lines p).2).
Proof.
  induction fuel as [|fuel IH]; intros p H0 Hf; simpl; destruct (strchr p newline) as [q|] eqn:Hs.
  1: destruct p; simpl in *; [done | lia].
  1, 3: unfold lines; by rewrite split_lines_none by (by apply strchr_none).
  destruct (strchr_some p q Hs) as (Hp & Hq & Hl). assert (0 ∉ drop (S q) p) as H0' by (intros Hin; apply H0; rewrite Hp; apply elem_of_app; right; by right).
  assert (split_lines p = (take q p :: (split_lines (drop (S q) p)).1, (split_lines (drop (S q) p)).2)) as Hsp by (rewrite Hp at 1; by apply split_lines_line).
  rewrite IH by (done || lia). unfold lines, selected. rewrite Hsp. cbn [fst snd]. rewrite filter_cons. by destruct (match_ pattern (take q p)).
Qed.

Lemma grep_spec pattern : ∀ reads buf,
  Forall (λ d, newline ∈ d ∧ 0 ∉ d) reads → newline ∉ buf → 0 ∉ buf →
  grep pattern buf reads = selected pattern (lines (buf ++ concat reads)).
Proof.
  induction reads as [|d reads IH]; intros buf Hr Hn H0; [unfold lines; simpl; by rewrite app_nil_r, split_lines_none|].
  apply Forall_cons in Hr as [[Hd Hd0] Hr]. assert (d ≠ []) as Hne by (intros ->; by apply elem_of_nil in Hd). cbn [grep]. destruct d as [|c d]; [done|].
  assert (0 ∉ buf ++ c :: d) as H0' by (rewrite elem_of_app; tauto).
  rewrite grep_lines_spec by done. cbn [concat]. rewrite app_assoc. set (p0 := buf ++ c :: d) in *. unfold lines. rewrite split_lines_app. cbn [fst].
  unfold selected. rewrite filter_app, fmap_app. f_equal. assert (newline ∈ p0) as Hp0 by (apply elem_of_app; by right).
  pose proof (split_lines_shorter p0 Hp0) as Hlt. rewrite (proj2 (Nat.eqb_neq _ _)) by lia. apply IH; [done | apply split_lines_rest |].
  intros Hin. by apply H0', split_lines_sub.
Qed.

(** C27: [grep] writes exactly the lines that contain a match of the pattern,
    in order, whatever the sizes of the reads, as long as every read brings the
    end of a line; and a line matches when part of it (the beginning after a
    caret, the end before a final dollar sign) is in the language of the pattern,
    where a dot stands for any character and a star for any number of what is
    before it. *)
Theorem grep_correct pattern reads :
  Forall (λ d, newline ∈ d ∧ 0 ∉ d) reads →
  grep pattern [] reads = selected pattern (lines (concat reads)) ∧
  ∀ l, match_ pattern l = true ↔ line_matches pattern l.
Proof.
  intros Hr. split; [|apply match_spec]. apply (grep_spec pattern reads []); [done | apply not_elem_of_nil..].
Qed.

Lemma grep_correct_witness :
  grep (bytes "b*c$") [] [[97; 98; 98; 99; 10; 97]; [10; 99; 10]] =
    selected (bytes "b*c$") (lines (concat [[97; 98; 98; 99; 10; 97]; [10; 99; 10]])) ∧
  ∀ l, match_ (bytes "b*c$") l = true ↔ line_matches (bytes "b*c$") l.
Proof. apply (grep_correct (bytes "b*c$") [[97; 98; 98; 99; 10; 97]; [10; 99; 10]]). repeat constructor; vm_compute; set_solver. Defined.

(** A line that arrives in two reads is not seen: without a newline in the
    buffer [grep] throws away what it has read. *)
Theorem grep_loses_split_line :
  grep (bytes "abc") [] [bytes "ab"; bytes "c" ++ [newline]] = [] ∧ line_matches (bytes "abc") (bytes "abc") ∧
  lines (concat [bytes "ab"; bytes "c" ++ [newline]]) = [bytes "abc"].
Proof. split; [done|]. split; [|done]. by apply match_spec. Qed.

End Grep.
