(* ===== verification/Sh.v ===== *)
(** * sh.c: the shell

    A [char*] into the command line is the rest of the line from there, without
    the NUL, so that [es] is the empty list; the parser only reads the line, and
    [nulterminate] writes to it through these pointers afterwards. [malloc] is
    taken to succeed, as the code does. What a command does is the tree of the
    system calls [runcmd] makes. *)

From S2P Require Import Prelude Layout Ulib.

Module Sh.
Import Ulib.

Definition MAXARGS : nat := 10.

Abbreviation ptr := (list Z).

(** The command structures; an argument is [argv[i]] with [eargv[i]]. *)
Inductive cmd :=
  | EXEC (argv : list (ptr * ptr))
  | REDIR (c : cmd) (file efile : ptr) (mode fd : Z)
  | PIPE (left right : cmd)
  | LIST (left right : cmd)
  | BACK (c : cmd).

(** What the parser does: return, or [panic], which prints [msg] and a newline and
    ends the process. *)
Inductive res (A : Type) :=
  | Val (a : A)
  | Panic (msg : list Z)
  | OutOfFuel.
#[global] Arguments Val {A} _.
#[global] Arguments Panic {A} _.
#[global] Arguments OutOfFuel {A}.

#[export] Instance res_ret : MRet res := λ A, Val.
#[export] Instance res_bind : MBind res := λ A B f m,
  match m with Val a => f a | Panic msg => Panic msg | OutOfFuel => OutOfFuel end.

(** ** Tokens *)

Definition whitespace : list Z := [32; 9; 13; 10; 11].
Definition symbols : list Z := bytes "<|>&;()".

(** [strchr(set, c)] as a test; no set contains the NUL *)
Definition one_of (set : list Z) (c : Z) : bool := existsb (Z.eqb c) set.

(** [while(s < es && strchr(whitespace, *s)) s++;] *)
Fixpoint skip_white (s : ptr) : ptr :=
  match s with
  | c :: s' => if one_of whitespace c then skip_white s' else s
  | [] => []
  end.

(** [while(s < es && !strchr(whitespace, *s) && !strchr(symbols, *s)) s++;] *)
Fixpoint skip_word (s : ptr) : ptr :=
  match s with
  | c :: s' => if negb (one_of whitespace c) && negb (one_of symbols c) then skip_word s' else s
  | [] => []
  end.

(** The token's kind, its start and end, and [*ps]. *)
Definition gettoken (ps : ptr) : Z * ptr * ptr * ptr :=
  let q := skip_white ps in
  let '(ret, eq) :=
    match q with
    | [] => (0, q)
    | c :: s =>
        if one_of (bytes "|();&<") c then (c, s)
        else if c =? 62 then match s with d :: s' => if d =? 62 then (43, s') else (c, s) | [] => (c, s) end
        else (97, skip_word q)
    end in
  (ret, q, eq, skip_white eq).

(** Whether the next token begins with one of [toks], and [*ps]. *)
Definition peek (ps : ptr) (toks : list Z) : bool * ptr :=
  let s := skip_white ps in
  (match s with c :: _ => one_of toks c | [] => false end, s).

(** ** The parser *)

Definition redir : Type := (ptr * ptr * Z * Z).
Definition redircmd (c : cmd) (r : redir) : cmd := let '(q, eq, mode, fd) := r in REDIR c q eq mode fd.

(** The loop of [parseredirs]: the redirections read, in order, and [*ps]. *)
Fixpoint parseredirs_loop (fuel : nat) (ps : ptr) : res (list redir * ptr) :=
  let '(b, ps) := peek ps (bytes "<>") in
  if negb b then Val ([], ps) else
  match fuel with
  | O => OutOfFuel
  | S f =>
      let '(tok, _, _, ps) := gettoken ps in
      let '(tok2, q, eq, ps) := gettoken ps in
      if negb (tok2 =? 97) then Panic (bytes "missing file for redirection") else
      '(rs, ps) ← parseredirs_loop f ps ;
      Val ((if tok =? 60 then [(q, eq, O_RDONLY, 0)]
            else if tok =? 62 then [(q, eq, Z.lor O_WRONLY O_CREATE, 1)]
            else if tok =? 43 then [(q, eq, Z.lor O_WRONLY O_CREATE, 1)]
            else []) ++ rs, ps)
  end.
Definition parseredirs (ps : ptr) : res (list redir * ptr) := parseredirs_loop (length ps) ps.

(** The loop of [parseexec]. [ret] wraps the command in the redirections [rs]
    while its [argv] is still being filled in. *)
Fixpoint parseargs (fuel : nat) (argv : list (ptr * ptr)) (rs : list redir) (ps : ptr) : res (cmd * ptr) :=
  let '(b, ps) := peek ps (bytes "|)&;") in
  let done := foldl redircmd (EXEC argv) rs in
  if b then Val (done, ps) else
  let '(tok, q, eq, ps) := gettoken ps in
  if tok =? 0 then Val (done, ps)
  else if negb (tok =? 97) then Panic (bytes "syntax")
  else
    let argv := argv ++ [(q, eq)] in
    if (MAXARGS <=? length argv)%nat then Panic (bytes "too many args") else
    match fuel with
    | O => OutOfFuel
    | S f =>
        '(rs', ps) ← parseredirs ps ;
        parseargs f argv (rs ++ rs') ps
    end.

(** The loop of [parseline]: a [BACK] for each ampersand. *)
Fixpoint parseback (fuel : nat) (c : cmd) (ps : ptr) : res (cmd * ptr) :=
  let '(b, ps) := peek ps (bytes "&") in
  if negb b then Val (c, ps) else
  match fuel with
  | O => OutOfFuel
  | S f => let '(_, _, _, ps) := gettoken ps in parseback f (BACK c) ps
  end.

Fixpoint parseline (fuel : nat) (ps : ptr) : res (cmd * ptr) :=
  match fuel with
  | O => OutOfFuel
  | S f =>
      '(c, ps) ← parsepipe f ps ;
      '(c, ps) ← parseback (length ps) c ps ;
      let '(b, ps) := peek ps (bytes ";") in
      if b then
        let '(_, _, _, ps) := gettoken ps in
        '(r, ps) ← parseline f ps ;
        Val (LIST c r, ps)
      else Val (c, ps)
  end
with parsepipe (fuel : nat) (ps : ptr) : res (cmd * ptr) :=
  match fuel with
  | O => OutOfFuel
  | S f =>
      '(c, ps) ← parseexec f ps ;
      let '(b, ps) := peek ps (bytes "|") in
      if b then
        let '(_, _, _, ps) := gettoken ps in
        '(r, ps) ← parsepipe f ps ;
        Val (PIPE c r, ps)
      else Val (c, ps)
  end
with parseexec (fuel : nat) (ps : ptr) : res (cmd * ptr) :=
  match fuel with
  | O => OutOfFuel
  | S f =>
      let '(b, ps) := peek ps (bytes "(") in
      if b then parseblock f ps
      else
        '(rs, ps) ← parseredirs ps ;
        parseargs MAXARGS [] rs ps
  end
with parseblock (fuel : nat) (ps : ptr) : res (cmd * ptr) :=
  match fuel with
  | O => OutOfFuel
  | S f =>
      let '(b, ps) := peek ps (bytes "(") in
      if negb b then Panic (bytes "parseblock") else
      let '(_, _, _, ps) := gettoken ps in
      '(c, ps) ← parseline f ps ;
      let '(b, ps) := peek ps (bytes ")") in
      if negb b then Panic (bytes "syntax - missing )") else
      let '(_, _, _, ps) := gettoken ps in
      '(rs, ps) ← parseredirs ps ;
      Val (foldl redircmd c rs, ps)
  end.

(** The index in the line [n] bytes long of the pointer [p]. *)
Definition index (n : nat) (p : ptr) : nat := n - length p.

(** The writes of [nulterminate] to [buf], the line [n] bytes long and its NUL. *)
Fixpoint nulterminate (n : nat) (c : cmd) (buf : list Z) : list Z :=
  match c with
  | EXEC argv => foldl (λ b a, <[index n a.2 := 0]> b) buf argv
  | REDIR c _ efile _ _ => <[index n efile := 0]> (nulterminate n c buf)
  | PIPE l r | LIST l r => nulterminate n r (nulterminate n l buf)
  | BACK c => nulterminate n c buf
  end.

(** The command and the line as [nulterminate] leaves it. *)
Definition parsecmd (s : list Z) : res (cmd * list Z) :=
  '(c, ps) ← parseline (4 * length s + 4) s ;
  let '(_, ps) := peek ps [] in
  match ps with
  | [] => Val (c, nulterminate (length s) c (s ++ [0]))
  | _ => Panic (bytes "leftovers: " ++ ps ++ [10] ++ bytes "syntax")
  end.

(** ** The parser ends *)

Lemma skip_white_le s : (length (skip_white s) ≤ length s)%nat.
Proof. induction s as [|c s IH]; simpl; [done|]. case_match; simpl; lia. Qed.

Lemma skip_word_le s : (length (skip_word s) ≤ length s)%nat.
Proof. induction s as [|c s IH]; simpl; [done|]. case_match; simpl; lia. Qed.

Lemma one_of_bytes toks c : one_of toks c = true ↔ c ∈ toks.
Proof.
  unfold one_of. rewrite existsb_exists. setoid_rewrite Z.eqb_eq. setoid_rewrite <- list_elem_of_In. naive_solver.
Qed.

Lemma skip_white_head s c s' : skip_white s = c :: s' → one_of whitespace c = false.
Proof. induction s as [|d s IH]; cbn [skip_white]; [done|]. destruct (one_of whitespace d) eqn:E; [apply IH|]. by intros [= <- <-]. Qed.

Lemma skip_white_stop c s : one_of whitespace c = false → skip_white (c :: s) = c :: s.
Proof. intros H. cbn [skip_white]. by rewrite H. Qed.

#[local] Arguments skip_white : simpl never.
#[local] Arguments one_of : simpl never.
#[local] Arguments bytes : simpl never.

Lemma symbol_cases c : one_of (bytes "|();&<") c = false → c ≠ 62 → one_of symbols c = false.
Proof.
  intros H1 H2. unfold one_of in *. apply Z.eqb_neq in H2. vm_compute bytes in H1. vm_compute symbols. simpl in *. repeat (apply orb_false_iff in H1 as [? H1]).
  repeat (apply orb_false_iff; split); done.
Qed.

(** A token other than the end of the line takes at least one byte. *)
Lemma gettoken_shorter ps tok q eq ps' :
  gettoken ps = (tok, q, eq, ps') → (length ps' ≤ length ps)%nat ∧ (skip_white ps ≠ [] → (length ps' < length ps)%nat).
Proof.
  unfold gettoken. pose proof (skip_white_le ps) as Hps. destruct (skip_white ps) as [|c s'] eqn:E.
  - intros [= <- <- <- <-]. simpl in *. split; [lia | done].
  - cbn [length] in Hps. pose proof (skip_white_le s') as Hw. destruct (one_of (bytes "|();&<") c) eqn:E1; [intros [= <- <- <- <-]; split; lia|].
    destruct (Z.eqb_spec c 62) as [->|Hc].
    + destruct s' as [|d s2]; [intros [= <- <- <- <-]; simpl in *; split; lia|]. pose proof (skip_white_le s2).
      destruct (d =? 62); intros [= <- <- <- <-]; cbn [length] in *; split; lia.
    + intros [= <- <- <- <-]. cbn [skip_word]. rewrite (skip_white_head _ _ _ E), symbol_cases by done. simpl andb. cbv iota.
      pose proof (skip_white_le (skip_word s')). pose proof (skip_word_le s'). split; lia.
Qed.

Lemma peek_shorter ps toks b ps' : peek ps toks = (b, ps') →
  (length ps' ≤ length ps)%nat ∧ skip_white ps' = ps' ∧ (b = true → ps' ≠ []).
Proof.
  unfold peek. intros [= <- <-]. split; [apply skip_white_le|]. split.
  - destruct (skip_white ps) as [|c s'] eqn:E; [done|]. by apply skip_white_stop, (skip_white_head _ _ _ E).
  - by destruct (skip_white ps).
Qed.

(** The outcome of a parser started at [ps]: it ends, with no more input than before. *)
Definition ends {A} (ps : ptr) (r : res (A * ptr)) : Prop :=
  match r with Val (_, ps') => (length ps' ≤ length ps)%nat | Panic _ => True | OutOfFuel => False end.

Lemma ends_bind {A B} ps (m : res (A * ptr)) (k : A * ptr → res (B * ptr)) :
  ends ps m → (∀ a ps', (length ps' ≤ length ps)%nat → ends ps (k (a, ps'))) → ends ps (m ≫= k).
Proof. destruct m as [[a ps']| |]; simpl; auto. Qed.

Lemma ends_le {A} ps ps' (r : res (A * ptr)) : ends ps' r → (length ps' ≤ length ps)%nat → ends ps r.
Proof. destruct r as [[a q]| |]; simpl; lia || done. Qed.

(** Deal with a [peek] or [gettoken] in the goal. *)
Ltac lex_step :=
  match goal with
  | |- context [peek ?s ?t] =>
      let E := fresh "E" in let H := fresh "Hpk" in
      destruct (peek s t) as [? ?] eqn:E; pose proof (peek_shorter _ _ _ _ E) as H
  | |- context [gettoken ?s] =>
      let E := fresh "E" in let H := fresh "Hgt" in
      destruct (gettoken s) as [[[? ?] ?] ?] eqn:E; pose proof (gettoken_shorter _ _ _ _ _ E) as H
  end.

Lemma parseredirs_ends_loop (fuel : nat) : ∀ ps, (length ps ≤ fuel)%nat → ends ps (parseredirs_loop fuel ps).
Proof.
  induction fuel as [|fuel IH]; intros ps Hf; cbn [parseredirs_loop]; lex_step; destruct Hpk as (Hl & Hsk & Hb); destruct b; simpl negb; cbv iota; try done.
  - destruct l; [by destruct (Hb eq_refl) | simpl in *; lia].
  - lex_step. destruct Hgt as [Hl1 Hl1']. rewrite Hsk in Hl1'. specialize (Hl1' (Hb eq_refl)). lex_step. destruct Hgt as [Hl2 _]. case_match; [done|].
    apply ends_bind; [eapply ends_le; [apply IH; lia | lia]|]. intros rs ps' Hps'. done.
Qed.

Lemma parseredirs_ends ps : ends ps (parseredirs ps).
Proof. by apply parseredirs_ends_loop. Qed.

Lemma parseargs_ends (fuel : nat) : ∀ argv rs ps, (MAXARGS ≤ length argv + fuel)%nat → ends ps (parseargs fuel argv rs ps).
Proof.
  induction fuel as [|fuel IH]; intros argv rs ps Hf; cbn [parseargs]; lex_step; destruct Hpk as (Hl & Hsk & Hb); (destruct b; [done|]); lex_step; destruct Hgt as [Hl1 _].
  all: destruct (z =? 0); [simpl; lia|]; destruct (negb (z =? 97)); [done|].
  all: destruct (MAXARGS <=? length (argv ++ [(l0, l1)]))%nat eqn:Hm; [done|]; apply Nat.leb_gt in Hm; rewrite length_app in Hm; simpl length in Hm.
  1: lia.
  eapply (ends_le _ l2); [|lia]. apply ends_bind; [apply parseredirs_ends|]. intros rs' ps' Hps'. eapply ends_le; [apply IH; rewrite length_app; simpl; lia | done].
Qed.

Lemma parseback_ends (fuel : nat) : ∀ c ps, (length ps ≤ fuel)%nat → ends ps (parseback fuel c ps).
Proof.
  induction fuel as [|fuel IH]; intros c ps Hf; cbn [parseback]; lex_step; destruct Hpk as (Hl & Hsk & Hb); destruct b; simpl negb; cbv iota; try done.
  - destruct l; [by destruct (Hb eq_refl) | simpl in *; lia].
  - lex_step. destruct Hgt as [Hl1 Hl1']. rewrite Hsk in Hl1'. specialize (Hl1' (Hb eq_refl)). eapply ends_le; [apply IH; lia | lia].
Qed.

Lemma parse_ends (fuel : nat) : ∀ ps,
  ((4 * length ps + 4 ≤ fuel)%nat → ends ps (parseline fuel ps)) ∧
  ((4 * length ps + 3 ≤ fuel)%nat → ends ps (parsepipe fuel ps)) ∧
  ((4 * length ps + 2 ≤ fuel)%nat → ends ps (parseexec fuel ps)) ∧
  ((4 * length ps + 1 ≤ fuel)%nat → ends ps (parseblock fuel ps)).
Proof.
  induction fuel as [|fuel IH]; intros ps; [lia|]. cbn [parseline parsepipe parseexec parseblock].
  assert (∀ c ps', skip_white ps' = ps' → ps' ≠ [] → gettoken ps' = c → (length c.2 < length ps')%nat) as Hget.
  { intros [[[tok q] eq] p2] ps' Hsk Hne Hg. destruct (gettoken_shorter _ _ _ _ _ Hg) as [_ Hlt]. rewrite Hsk in Hlt. by apply Hlt. }
  split_and!; intros Hf.
  - apply ends_bind; [apply IH; lia|]. intros c ps1 H1. apply ends_bind; [by eapply ends_le; [apply parseback_ends|]|]. intros c2 ps2 H2.
    lex_step. destruct Hpk as (Hl & Hsk & Hb). destruct b; [|simpl; lia]. destruct (gettoken l) as [[[? ?] ?] l3] eqn:Eg. specialize (Hget _ _ Hsk (Hb eq_refl) Eg). simpl in Hget.
    apply ends_bind; [eapply ends_le; [apply IH; lia | lia]|]. done.
  - apply ends_bind; [apply IH; lia|]. intros c ps1 H1.
    lex_step. destruct Hpk as (Hl & Hsk & Hb). destruct b; [|simpl; lia]. destruct (gettoken l) as [[[? ?] ?] l3] eqn:Eg. specialize (Hget _ _ Hsk (Hb eq_refl) Eg). simpl in Hget.
    apply ends_bind; [eapply ends_le; [apply IH; lia | lia]|]. done.
  - lex_step. destruct Hpk as (Hl & Hsk & Hb). destruct b; [eapply ends_le; [apply IH; lia | done]|].
    eapply (ends_le _ l); [|done]. apply ends_bind; [apply parseredirs_ends|]. intros rs ps1 H1. eapply ends_le; [apply parseargs_ends; simpl; lia | done].
  - lex_step. destruct Hpk as (Hl & Hsk & Hb). destruct b; [|done]. simpl negb. cbv iota. destruct (gettoken l) as [[[? ?] ?] l3] eqn:Eg. specialize (Hget _ _ Hsk (Hb eq_refl) Eg). simpl in Hget.
    eapply (ends_le _ l3); [|lia]. apply ends_bind; [apply IH; lia|]. intros c ps1 H1. lex_step. destruct Hpk as (Hl' & Hsk' & Hb'). destruct b; [|done]. simpl negb. cbv iota.
    lex_step. destruct Hgt as [Hl4 _]. apply ends_bind; [eapply ends_le; [apply parseredirs_ends | lia]|]. done.
Qed.

(** C34: [parsecmd] ends for every line: the recursive descent returns a command
    or panics, and its calls nest at most four deep per byte of the line and four
    more. *)
Theorem parsecmd_ends s : parsecmd s ≠ OutOfFuel.
Proof.
  unfold parsecmd. destruct (parse_ends (4 * length s + 4) s) as [H _]. specialize (H ltac:(lia)).
  destruct (parseline (4 * length s + 4) s) as [[c ps]|msg|]; simpl in *; [|done..]. by destruct (skip_white ps).
Qed.

(** ** The grammar *)

(** A command with its strings. *)
Inductive scmd :=
  | SExec (argv : list (list Z))
  | SRedir (c : scmd) (file : list Z) (mode fd : Z)
  | SPipe (l r : scmd)
  | SList (l r : scmd)
  | SBack (c : scmd).

Definition word_char (c : Z) : Prop := c ≠ 0 ∧ one_of whitespace c = false ∧ one_of symbols c = false.
Definition word_ok (w : list Z) : Prop := w ≠ [] ∧ Forall word_char w.

Definition redir_ok (mode fd : Z) : Prop := (mode = O_RDONLY ∧ fd = 0) ∨ (mode = Z.lor O_WRONLY O_CREATE ∧ fd = 1).
Fixpoint scmd_ok (c : scmd) : Prop :=
  match c with
  | SExec argv => Forall word_ok argv ∧ (length argv < MAXARGS)%nat
  | SRedir c file mode fd => scmd_ok c ∧ word_ok file ∧ redir_ok mode fd
  | SPipe l r | SList l r => scmd_ok l ∧ scmd_ok r
  | SBack c => scmd_ok c
  end.

(** The text of a command: a pipe binds tighter than an ampersand, and that
    tighter than a semicolon; both pipes and lists group to the right. [lvl] is
    the loosest operator allowed outside parentheses. *)
Definition paren (b : bool) (s : list Z) : list Z := if b then bytes "(" ++ s ++ bytes ")" else s.
Fixpoint print_words (ws : list (list Z)) : list Z :=
  match ws with
  | [] => []
  | [w] => w
  | w :: ws' => w ++ bytes " " ++ print_words ws'
  end.
Definition print_redir (file : list Z) (fd : Z) : list Z := bytes (if fd =? 0 then "<" else ">") ++ file.
Fixpoint print (c : scmd) (lvl : nat) : list Z :=
  match c with
  | SExec argv => print_words argv
  | SRedir c file _ fd => print c 0 ++ print_redir file fd
  | SPipe l r => paren (lvl <? 1)%nat (print l 0 ++ bytes "|" ++ print r 1)
  | SBack c => paren (lvl <? 2)%nat (print c 2 ++ bytes "&")
  | SList l r => paren (lvl <? 3)%nat (print l 2 ++ bytes ";" ++ print r 3)
  end.

(** The strings of a command, read from the line as [nulterminate] left it. *)
Fixpoint cstr (l : list Z) : list Z :=
  match l with
  | [] => []
  | c :: l' => if c =? 0 then [] else c :: cstr l'
  end.
Fixpoint strings (n : nat) (buf : list Z) (c : cmd) : scmd :=
  match c with
  | EXEC argv => SExec ((λ a, cstr (drop (index n a.1) buf)) <$> argv)
  | REDIR c file _ mode fd => SRedir (strings n buf c) (cstr (drop (index n file) buf)) mode fd
  | PIPE l r => SPipe (strings n buf l) (strings n buf r)
  | LIST l r => SList (strings n buf l) (strings n buf r)
  | BACK c => SBack (strings n buf c)
  end.

(** The pointers of a command delimit its strings in the line [L]. *)
Definition delimits (L w : list Z) (q eq : ptr) : Prop :=
  q = w ++ eq ∧ suffix q L ∧ word_ok w ∧ match eq with [] => True | c :: _ => ¬ word_char c end.
Inductive rep (L : list Z) : cmd → scmd → Prop :=
  | rep_exec argv ws : Forall2 (λ a w, delimits L w a.1 a.2) argv ws → rep L (EXEC argv) (SExec ws)
  | rep_redir c sc q eq w mode fd : rep L c sc → delimits L w q eq → rep L (REDIR c q eq mode fd) (SRedir sc w mode fd)
  | rep_pipe l r sl sr : rep L l sl → rep L r sr → rep L (PIPE l r) (SPipe sl sr)
  | rep_list l r sl sr : rep L l sl → rep L r sr → rep L (LIST l r) (SList sl sr)
  | rep_back c sc : rep L c sc → rep L (BACK c) (SBack sc).

(** *** Lexing what was printed *)

(** The text goes on with one of [set], or ends. *)
Definition stop (set : list Z) (t : list Z) : Prop := match t with [] => True | c :: _ => one_of set c = true end.

Lemma one_of_weaken set1 set2 c : Forall (λ x, one_of set2 x = true) set1 → one_of set1 c = true → one_of set2 c = true.
Proof. rewrite Forall_forall. intros H Hc%one_of_bytes. by apply H. Qed.

Lemma one_of_disjoint set1 set2 c : Forall (λ x, one_of set2 x = false) set1 → one_of set1 c = true → one_of set2 c = false.
Proof. rewrite Forall_forall. intros H Hc%one_of_bytes. by apply H. Qed.

Lemma stop_weaken set1 set2 t : Forall (λ x, one_of set2 x = true) set1 → stop set1 t → stop set2 t.
Proof. destruct t; [done|]. simpl. apply one_of_weaken. Qed.

Lemma stop_skip t : stop symbols t → skip_white t = t.
Proof.
  destruct t as [|c t]; [done|]. simpl. intros Hc. apply skip_white_stop. eapply one_of_disjoint; [|exact Hc]. vm_compute. by repeat constructor.
Qed.

Lemma peek_hit c t toks : one_of symbols c = true → one_of toks c = true → peek (c :: t) toks = (true, c :: t).
Proof. intros Hc Ht. unfold peek. rewrite stop_skip by done. by rewrite Ht. Qed.

Lemma peek_miss t set toks : stop set t → Forall (λ x, one_of symbols x = true) set → Forall (λ x, one_of toks x = false) set → peek t toks = (false, t).
Proof.
  intros Ht Hs Hm. unfold peek. rewrite stop_skip by (by eapply stop_weaken). destruct t as [|c t]; [done|]. by rewrite (one_of_disjoint set toks).
Qed.

Lemma peek_word w t toks : word_ok w → Forall (λ x, one_of symbols x = true) toks → peek (w ++ t) toks = (false, w ++ t).
Proof.
  intros [Hne Hw] Ht. destruct w as [|c w]; [done|]. apply Forall_cons in Hw as [(_ & Hws & Hsy) _]. unfold peek. simpl app. rewrite skip_white_stop by done.
  f_equal. apply not_true_is_false. intros Hc%one_of_bytes. rewrite Forall_forall in Ht. apply Ht in Hc. congruence.
Qed.

Lemma skip_word_app w t : Forall word_char w → match t with [] => True | c :: _ => ¬ word_char c ∧ c ≠ 0 end → skip_word (w ++ t) = t.
Proof.
  intros Hw Ht. induction Hw as [|c w (H0 & H1 & H2) _ IH]; simpl.
  - destruct t as [|c t]; [done|]. simpl. destruct Ht as [Ht H0]. destruct (one_of whitespace c) eqn:E1; [done|]. destruct (one_of symbols c) eqn:E2; [done|]. by destruct Ht.
  - by rewrite H1, H2.
Qed.

(** A word is followed by the end of the text, a blank or a symbol. *)
Definition after_word (t : list Z) : Prop := match t with [] => True | c :: _ => one_of (32 :: symbols) c = true end.

Lemma after_word_stop set t : Forall (λ x, one_of symbols x = true) set → stop set t → after_word t.
Proof. intros Hs. destruct t as [|c t]; [done|]. intros Hc. change ((c =? 32) || one_of symbols c = true). apply orb_true_iff. right. by eapply one_of_weaken. Qed.

Lemma after_word_char c t : after_word (c :: t) → ¬ word_char c ∧ c ≠ 0.
Proof.
  simpl. intros Hc%one_of_bytes. split.
  - intros (_ & H1 & H2). apply elem_of_cons in Hc as [->|Hc%one_of_bytes]; [done | congruence].
  - intros ->. vm_compute in Hc. set_unfold in Hc. destruct_or! Hc; done.
Qed.

Lemma gettoken_word w t : word_ok w → after_word t → gettoken (w ++ t) = (97, w ++ t, t, skip_white t).
Proof.
  intros [Hne Hw] Ht. unfold gettoken. assert (skip_word (w ++ t) = t) as Hsk.
  { apply skip_word_app; [done|]. destruct t; [done | by eapply after_word_char]. }
  destruct w as [|c w]; [done|]. apply Forall_cons in Hw as [(_ & Hws & Hsy) _]. simpl app in *. rewrite skip_white_stop by done.
  destruct (one_of (bytes "|();&<") c) eqn:E1.
  { apply (one_of_weaken _ symbols) in E1; [congruence | vm_compute; by repeat constructor]. }
  destruct (Z.eqb_spec c 62) as [->|]; [done|]. by rewrite Hsk.
Qed.

Lemma gettoken_symbol c t : one_of (bytes "|();&<") c = true → gettoken (c :: t) = (c, c :: t, t, skip_white t).
Proof.
  intros Hc. unfold gettoken. rewrite stop_skip by (simpl; eapply one_of_weaken; [|exact Hc]; vm_compute; by repeat constructor). by rewrite Hc.
Qed.

Lemma skip_white_word w t : word_ok w → skip_white (w ++ t) = w ++ t.
Proof. intros [Hne Hw]. destruct w as [|c w]; [done|]. apply Forall_cons in Hw as [(_ & Hws & _) _]. by apply skip_white_stop. Qed.

Lemma gettoken_redir fd w t : word_ok w →
  gettoken (bytes (if fd =? 0 then "<" else ">") ++ w ++ t) = ((if fd =? 0 then 60 else 62), bytes (if fd =? 0 then "<" else ">") ++ w ++ t, w ++ t, w ++ t).
Proof.
  intros Hw. destruct (fd =? 0).
  - change (bytes "<" ++ w ++ t) with (60 :: w ++ t). rewrite gettoken_symbol by done. by rewrite skip_white_word.
  - change (bytes ">" ++ w ++ t) with (62 :: w ++ t). unfold gettoken. rewrite skip_white_stop by done. change (one_of (bytes "|();&<") 62) with false. cbv iota. rewrite Z.eqb_refl.
    pose proof Hw as [Hne Hc]. rewrite <- (skip_white_word w t) at 4 by done. destruct w as [|c w]; [done|]. simpl app. apply Forall_cons in Hc as [(_ & _ & Hsy) _].
    destruct (Z.eqb_spec c 62) as [->|]; done.
Qed.

(** *** Parsing what was printed *)

Definition enders : list Z := bytes "|)&;".
Abbreviation sredir := (list Z * Z * Z)%type.
Definition redirs (rs : list sredir) : list Z := concat ((λ r, print_redir r.1.1 r.2) <$> rs).
Definition sredir_ok (r : sredir) : Prop := word_ok r.1.1 ∧ redir_ok r.1.2 r.2.
Definition redir_rep (L : list Z) (r : redir) (sr : sredir) : Prop :=
  delimits L sr.1.1 r.1.1.1 r.1.1.2 ∧ r.1.2 = sr.1.2 ∧ r.2 = sr.2.

Lemma after_redirs rs t : stop enders t → after_word (redirs rs ++ t).
Proof.
  intros Ht. destruct rs as [|[[w m] fd] rs]; [apply (after_word_stop enders); [vm_compute; by repeat constructor | done]|].
  unfold redirs. simpl. unfold print_redir. simpl. by destruct (fd =? 0).
Qed.

Lemma skip_redirs rs t : stop enders t → skip_white (redirs rs ++ t) = redirs rs ++ t.
Proof.
  intros Ht. apply stop_skip. destruct rs as [|[[w m] fd] rs]; [eapply stop_weaken; [|exact Ht]; vm_compute; by repeat constructor|].
  unfold redirs. simpl. unfold print_redir. simpl. by destruct (fd =? 0).
Qed.

Lemma delimits_intro L w t : suffix (w ++ t) L → word_ok w → after_word t → delimits L w (w ++ t) t.
Proof. intros Hs Hw Ht. split; [done|]. split; [done|]. split; [done|]. destruct t; [done|]. by eapply after_word_char. Qed.

Lemma suffix_drop (a b l : list Z) : suffix (a ++ b) l → suffix b l.
Proof. intros [k ->]. exists (k ++ a). by rewrite app_assoc. Qed.

Lemma parseredirs_print L t (fuel : nat) : stop enders t → ∀ rs, Forall sredir_ok rs → (length rs ≤ fuel)%nat → suffix (redirs rs ++ t) L →
  ∃ rs', parseredirs_loop fuel (redirs rs ++ t) = Val (rs', t) ∧ Forall2 (redir_rep L) rs' rs.
Proof.
  intros Ht. induction fuel as [|fuel IH]; intros rs Hrs Hf Hsuf.
  all: destruct rs as [|[[w m] fd] rs]; [exists []; cbn [redirs parseredirs_loop]; simpl app | ].
  1, 3: split; [|by apply Forall2_nil]; rewrite (peek_miss t enders); [done | done | vm_compute; by repeat constructor..].
  { simpl in Hf. lia. }
  apply Forall_cons in Hrs as [[Hw Hmf] Hrs]. cbn [fst snd] in Hw, Hmf.
  assert (redirs ((w, m, fd) :: rs) ++ t = bytes (if fd =? 0 then "<" else ">") ++ w ++ redirs rs ++ t) as Heq.
  { unfold redirs. simpl. unfold print_redir. simpl. by rewrite <- !app_assoc. }
  rewrite Heq in *. apply suffix_drop in Hsuf. pose proof (after_redirs rs t Ht) as Haf.
  destruct (IH rs Hrs ltac:(simpl in Hf; lia) (suffix_drop _ _ _ Hsuf)) as (rs' & Hrun & Hrep).
  exists ((w ++ redirs rs ++ t, redirs rs ++ t, m, fd) :: rs'). split; [|constructor; [split; [by apply delimits_intro | done] | done]].
  cbn [parseredirs_loop]. assert (∃ c, bytes (if fd =? 0 then "<" else ">") = [c] ∧ one_of symbols c = true ∧ one_of (bytes "<>") c = true) as (c & Hc & Hc1 & Hc2).
  { destruct (fd =? 0); by eexists. }
  rewrite Hc. simpl app. rewrite peek_hit by done. simpl negb. cbv iota. change (c :: w ++ redirs rs ++ t) with ([c] ++ w ++ redirs rs ++ t). rewrite <- Hc, gettoken_redir by done.
  rewrite gettoken_word by done. simpl negb. cbv iota. rewrite skip_redirs, Hrun by done. cbn [mbind res_bind].
  destruct Hmf as [[-> ->]|[-> ->]]; done.
Qed.

Lemma redirs_length rs t : Forall sredir_ok rs → (length rs ≤ length (redirs rs ++ t))%nat.
Proof.
  intros Hrs. rewrite length_app. assert (length rs ≤ length (redirs rs))%nat; [|lia].
  induction Hrs as [|[[w m] fd] rs [[Hw _] _] _ IH]; [done|].
  change (redirs ((w, m, fd) :: rs)) with (print_redir w fd ++ redirs rs). rewrite length_app. destruct w; [done|]. unfold print_redir. rewrite length_app. cbn [length]. lia.
Qed.

Lemma parseredirs_text L rs t : stop enders t → Forall sredir_ok rs → suffix (redirs rs ++ t) L →
  ∃ rs', parseredirs (redirs rs ++ t) = Val (rs', t) ∧ Forall2 (redir_rep L) rs' rs.
Proof. intros Ht Hrs Hs. apply parseredirs_print; [done | done | by apply redirs_length | done]. Qed.

(** The end of the arguments. *)
Lemma parseargs_stop (fuel : nat) argv rs t : stop enders t → parseargs fuel argv rs t = Val (foldl redircmd (EXEC argv) rs, t).
Proof.
  intros Ht. destruct t as [|c t]; [by destruct fuel|].
  assert (peek (c :: t) (bytes "|)&;") = (true, c :: t)) as Hp by (apply peek_hit; [eapply one_of_weaken; [|exact Ht]; vm_compute; by repeat constructor | done]).
  destruct fuel; unfold parseargs; fold parseargs; by rewrite Hp.
Qed.

Lemma print_words_cons w ws : ws ≠ [] → print_words (w :: ws) = w ++ bytes " " ++ print_words ws.
Proof. by destruct ws. Qed.

Lemma print_words_head ws : ws ≠ [] → Forall word_ok ws → ∃ w t, print_words ws = w ++ t ∧ word_ok w.
Proof.
  destruct ws as [|w ws]; [done|]. intros _ [Hw Hws]%Forall_cons. destruct ws as [|w2 ws]; [exists w, []; by rewrite app_nil_r|].
  exists w, (bytes " " ++ print_words (w2 :: ws)). done.
Qed.

Lemma parseredirs_word w t : word_ok w → parseredirs (w ++ t) = Val ([], w ++ t).
Proof.
  intros Hw. unfold parseredirs. generalize (length (w ++ t)). intros n.
  assert (peek (w ++ t) (bytes "<>") = (false, w ++ t)) as Hp by (apply peek_word; [done | vm_compute; by repeat constructor]).
  destruct n; cbn [parseredirs_loop]; by rewrite Hp.
Qed.

(** A command's arguments, and the redirections after the last of them. *)
Lemma parseargs_print L t rs : stop enders t → Forall sredir_ok rs → ∀ (fuel : nat) ws argv rs0,
  Forall word_ok ws → ws ≠ [] → (length argv + length ws < MAXARGS)%nat → (length ws ≤ fuel)%nat →
  suffix (print_words ws ++ redirs rs ++ t) L →
  ∃ av rs', parseargs fuel argv rs0 (print_words ws ++ redirs rs ++ t) = Val (foldl redircmd (EXEC (argv ++ av)) (rs0 ++ rs'), t) ∧
    Forall2 (λ a w, delimits L w a.1 a.2) av ws ∧ Forall2 (redir_rep L) rs' rs.
Proof.
  intros Ht Hrs. induction fuel as [|fuel IH]; intros ws argv rs0 Hws Hne Hlen Hf Hsuf; [destruct ws; simpl in *; [done | lia]|].
  destruct ws as [|w ws]; [done|]. apply Forall_cons in Hws as [Hw Hws]. cbn [length] in *. 
  set (rest := match ws with [] => [] | _ => bytes " " ++ print_words ws end ++ redirs rs ++ t).
  assert (print_words (w :: ws) ++ redirs rs ++ t = w ++ rest) as Heq by (unfold rest; destruct ws; cbn [print_words]; by rewrite ?app_nil_l, <- ?app_assoc).
  assert (after_word rest) as Haf by (unfold rest; destruct ws; [by apply after_redirs | done]).
  rewrite Heq in *. cbn [parseargs]. rewrite peek_word by (done || vm_compute; by repeat constructor). rewrite gettoken_word by done. cbv zeta.
  change (97 =? 0) with false. change (negb (97 =? 97)) with false. cbv iota.
  rewrite (proj2 (Nat.leb_gt _ _)) by (rewrite length_app; simpl; lia).
  assert (delimits L w (w ++ rest) rest) as Hdel by (by apply delimits_intro). apply suffix_drop in Hsuf.
  destruct ws as [|w2 ws].
  - unfold rest in *. rewrite app_nil_l in *. rewrite skip_redirs by done. destruct (parseredirs_text L rs t Ht Hrs Hsuf) as (rs' & Hrun & Hrep). rewrite Hrun. cbn [mbind res_bind].
    rewrite parseargs_stop by done. exists [(w ++ redirs rs ++ t, redirs rs ++ t)], rs'. split; [done|]. split; [apply Forall2_cons; split; [done | by apply Forall2_nil] | done].
  - destruct (print_words_head (w2 :: ws) ltac:(done) Hws) as (w3 & t3 & Hhd & Hw3).
    assert (skip_white rest = print_words (w2 :: ws) ++ redirs rs ++ t) as Hsk.
    { unfold rest. rewrite <- app_assoc. change (bytes " ") with [32]. rewrite Hhd, <- app_assoc. exact (skip_white_word w3 _ Hw3). }
    rewrite Hsk. assert (parseredirs (print_words (w2 :: ws) ++ redirs rs ++ t) = Val ([], print_words (w2 :: ws) ++ redirs rs ++ t)) as ->.
    { rewrite Hhd, <- app_assoc. by apply parseredirs_word. }
    cbn [mbind res_bind]. rewrite app_nil_r. unfold rest in Hsuf. rewrite <- app_assoc in Hsuf. apply suffix_drop in Hsuf.
    destruct (IH (w2 :: ws) (argv ++ [(w ++ rest, rest)]) rs0) as (av & rs' & Hrun & Hav & Hrep); [done | done | rewrite length_app; simpl in *; lia | simpl in *; lia | done|].
    exists ((w ++ rest, rest) :: av), rs'. rewrite Hrun, <- app_assoc. split; [done|]. split; [by apply Forall2_cons | done].
Qed.

(** Printed text does not begin with a blank. *)
Lemma skip_print sc : ∀ lvl t, scmd_ok sc → stop symbols t → skip_white (print sc lvl ++ t) = print sc lvl ++ t.
Proof.
  induction sc as [ws|sc IH w m fd|l IHl r IHr|l IHl r IHr|sc IH]; intros lvl t Hok Ht; cbn [print scmd_ok] in *.
  - destruct ws as [|w ws]; [by apply stop_skip|]. destruct (print_words_head (w :: ws) ltac:(done) (proj1 Hok)) as (w' & t' & -> & Hw). rewrite <- app_assoc. by apply skip_white_word.
  - rewrite <- app_assoc. apply IH; [by destruct Hok|]. unfold print_redir. by destruct (fd =? 0).
  - destruct (lvl <? 1)%nat; cbn [paren]; [done|]. rewrite <- !app_assoc. by apply IHl; [destruct Hok|].
  - destruct (lvl <? 3)%nat; cbn [paren]; [done|]. rewrite <- !app_assoc. by apply IHl; [destruct Hok|].
  - destruct (lvl <? 2)%nat; cbn [paren]; [done|]. rewrite <- !app_assoc. by apply IH.
Qed.

Section parses.
Context (L : list Z).

Definition parses_exec (sc : scmd) : Prop := ∀ rs t f,
  stop enders t → Forall sredir_ok rs → suffix (print sc 0 ++ redirs rs ++ t) L → (4 * length (print sc 0 ++ redirs rs ++ t) + 2 ≤ f)%nat →
  ∃ c rs', parseexec f (print sc 0 ++ redirs rs ++ t) = Val (foldl redircmd c rs', t) ∧ rep L c sc ∧ Forall2 (redir_rep L) rs' rs.
Definition parses_pipe (sc : scmd) : Prop := ∀ t f,
  stop (bytes ")&;") t → suffix (print sc 1 ++ t) L → (4 * length (print sc 1 ++ t) + 3 ≤ f)%nat →
  ∃ c, parsepipe f (print sc 1 ++ t) = Val (c, t) ∧ rep L c sc.
Definition parses_back (sc : scmd) : Prop := ∀ t f,
  stop (bytes ")&;") t → suffix (print sc 2 ++ t) L → (4 * length (print sc 2 ++ t) + 3 ≤ f)%nat →
  ∃ c n, parsepipe f (print sc 2 ++ t) = Val (c, replicate n 38 ++ t) ∧ rep L (Nat.iter n BACK c) sc.
Definition parses_line (sc : scmd) : Prop := ∀ t f,
  stop (bytes ")") t → suffix (print sc 3 ++ t) L → (4 * length (print sc 3 ++ t) + 4 ≤ f)%nat →
  ∃ c, parseline f (print sc 3 ++ t) = Val (c, t) ∧ rep L c sc.

Lemma parseback_print t : stop (bytes ");") t → ∀ n (fuel : nat) c, (n ≤ fuel)%nat →
  parseback fuel c (replicate n 38 ++ t) = Val (Nat.iter n BACK c, t).
Proof using.
  intros Ht. induction n as [|n IH]; intros fuel c Hf; simpl app.
  - assert (peek t (bytes "&") = (false, t)) as Hp by (apply (peek_miss t (bytes ");")); [done | vm_compute; by repeat constructor..]). destruct fuel; cbn [parseback]; by rewrite Hp.
  - destruct fuel as [|fuel]; [lia|]. cbn [parseback]. rewrite peek_hit by done. simpl negb. cbv iota. rewrite gettoken_symbol by done.
    rewrite stop_skip; [rewrite IH by lia; by rewrite Nat.iter_succ_r|]. destruct n; [|done]. eapply stop_weaken; [|exact Ht]. vm_compute. by repeat constructor.
Qed.

Lemma exec_to_pipe sc : print sc 1 = print sc 0 → parses_exec sc → parses_pipe sc.
Proof using.
  intros Hp Hex t f Ht Hs Hf. rewrite Hp in *. destruct f as [|f]; [lia|]. cbn [parsepipe].
  destruct (Hex [] t f) as (c & rs' & Hrun & Hrep & Hrs); [eapply stop_weaken; [|exact Ht]; vm_compute; by repeat constructor | done | done | simpl app; lia|].
  simpl app in Hrun. rewrite Hrun. cbn [mbind res_bind]. apply Forall2_nil_inv_r in Hrs as ->. cbn [foldl].
  rewrite (peek_miss t (bytes ")&;")) by (done || vm_compute; by repeat constructor). by exists c.
Qed.

Lemma pipe_to_back sc : print sc 2 = print sc 1 → parses_pipe sc → parses_back sc.
Proof using. intros Hp Hpi t f Ht Hs Hf. rewrite Hp in *. destruct (Hpi t f Ht Hs Hf) as (c & Hrun & Hrep). by exists c, 0%nat. Qed.

Lemma back_to_line sc : print sc 3 = print sc 2 → parses_back sc → parses_line sc.
Proof using.
  intros Hp Hb t f Ht Hs Hf. rewrite Hp in *. destruct f as [|f]; [lia|]. cbn [parseline].
  destruct (Hb t f) as (c & n & Hrun & Hrep); [eapply stop_weaken; [|exact Ht]; vm_compute; by repeat constructor | done | lia|].
  rewrite Hrun. cbn [mbind res_bind]. rewrite parseback_print; [|eapply stop_weaken; [|exact Ht]; vm_compute; by repeat constructor | rewrite length_app, length_replicate; lia].
  cbn [mbind res_bind]. rewrite (peek_miss t (bytes ")")) by (done || vm_compute; by repeat constructor). by exists (Nat.iter n BACK c).
Qed.

Lemma line_to_exec sc : scmd_ok sc → print sc 0 = paren true (print sc 3) → parses_line sc → parses_exec sc.
Proof using.
  intros Hok Hp Hl rs t f Ht Hrs Hs Hf. rewrite Hp in *. unfold paren in *. rewrite <- !app_assoc in *. change (bytes "(") with [40] in *. change (bytes ")") with [41] in *. simpl app in *.
  destruct f as [|f]; [lia|]. cbn [parseexec]. rewrite peek_hit by done. destruct f as [|f]; [simpl in Hf; lia|]. cbn [parseblock]. rewrite peek_hit by done. simpl negb. cbv iota.
  rewrite gettoken_symbol by done. rewrite skip_print by done.
  apply (suffix_drop [40]) in Hs. destruct (Hl (41 :: redirs rs ++ t) f) as (c & Hrun & Hrep); [done | done | simpl in Hf; lia|].
  rewrite Hrun. cbn [mbind res_bind]. rewrite peek_hit by done. simpl negb. cbv iota. rewrite gettoken_symbol by done. rewrite skip_redirs by done.
  apply suffix_drop, (suffix_drop [41]) in Hs. destruct (parseredirs_text L rs t Ht Hrs Hs) as (rs' & Hrun' & Hrep'). rewrite Hrun'. cbn [mbind res_bind]. by exists c, rs'.
Qed.

Lemma exec_parses ws : scmd_ok (SExec ws) → parses_exec (SExec ws).
Proof using.
  intros [Hws Hlen] rs t f Ht Hrs Hs Hf. cbn [print] in *. destruct f as [|f]; [lia|]. cbn [parseexec]. destruct ws as [|w ws].
  - simpl app in *. assert (peek (redirs rs ++ t) (bytes "(") = (false, redirs rs ++ t)) as ->.
    { apply (peek_miss _ (bytes "<>|)&;")); [|vm_compute; by repeat constructor..]. destruct rs as [|[[w m] fd] rs]; [eapply stop_weaken; [|exact Ht]; vm_compute; by repeat constructor|].
      change (redirs ((w, m, fd) :: rs)) with (print_redir w fd ++ redirs rs). unfold print_redir. by destruct (fd =? 0). }
    destruct (parseredirs_text L rs t Ht Hrs Hs) as (rs' & Hrun & Hrep). rewrite Hrun. cbn [mbind res_bind]. rewrite parseargs_stop by done.
    exists (EXEC []), rs'. split; [done|]. split; [constructor; by apply Forall2_nil | done].
  - destruct (print_words_head (w :: ws) ltac:(done) Hws) as (w' & t' & Hhd & Hw'). rewrite Hhd, <- app_assoc. rewrite peek_word by (done || vm_compute; by repeat constructor).
    rewrite parseredirs_word by done. cbn [mbind res_bind]. rewrite app_assoc, <- Hhd.
    destruct (parseargs_print L t rs Ht Hrs MAXARGS (w :: ws) [] []) as (av & rs' & Hrun & Hav & Hrep); [done | done | done | lia | done|].
    rewrite Hrun. exists (EXEC av), rs'. split; [done|]. split; [by constructor | done].
Qed.

(** The text between operators goes on with the operator. *)
Lemma pipe_parses l r : scmd_ok r → parses_exec l → parses_pipe r → parses_pipe (SPipe l r).
Proof using.
  intros Hr Hl Hp t f Ht Hs Hf. cbn [print] in *. change (1 <? 1)%nat with false in *. cbn [paren] in *. rewrite <- !app_assoc in *. change (bytes "|") with [124] in *. simpl app in *.
  destruct f as [|f]; [lia|]. cbn [parsepipe].
  destruct (Hl [] (124 :: print r 1 ++ t) f) as (c & rs' & Hrun & Hrep & Hrs); [done | done | done | simpl app; lia|].
  simpl app in Hrun. rewrite Hrun. cbn [mbind res_bind]. apply Forall2_nil_inv_r in Hrs as ->. cbn [foldl]. rewrite peek_hit by done. rewrite gettoken_symbol by done.
  rewrite skip_print; [|done | eapply stop_weaken; [|exact Ht]; vm_compute; by repeat constructor]. apply suffix_drop, (suffix_drop [124]) in Hs.
  destruct (Hp t f Ht Hs) as (c2 & Hrun2 & Hrep2); [rewrite !length_app in *; simpl in *; rewrite !length_app in *; lia|].
  rewrite Hrun2. cbn [mbind res_bind]. exists (PIPE c c2). split; [done | by constructor].
Qed.

Lemma list_parses l r : scmd_ok r → parses_back l → parses_line r → parses_line (SList l r).
Proof using.
  intros Hr Hl Hp t f Ht Hs Hf. cbn [print] in *. change (3 <? 3)%nat with false in *. cbn [paren] in *. rewrite <- !app_assoc in *. change (bytes ";") with [59] in *. simpl app in *.
  destruct f as [|f]; [lia|]. cbn [parseline].
  destruct (Hl (59 :: print r 3 ++ t) f) as (c & n & Hrun & Hrep); [done | done | lia|].
  rewrite Hrun. cbn [mbind res_bind]. rewrite parseback_print; [|done | rewrite length_app, length_replicate; lia]. cbn [mbind res_bind].
  rewrite peek_hit by done. rewrite gettoken_symbol by done. rewrite skip_print; [|done | eapply stop_weaken; [|exact Ht]; vm_compute; by repeat constructor].
  apply suffix_drop, (suffix_drop [59]) in Hs.
  destruct (Hp t f Ht Hs) as (c2 & Hrun2 & Hrep2); [rewrite !length_app in *; simpl in *; rewrite !length_app in *; lia|].
  rewrite Hrun2. cbn [mbind res_bind]. exists (LIST (Nat.iter n BACK c) c2). split; [done | by constructor].
Qed.

Lemma back_parses sc : parses_back sc → parses_back (SBack sc).
Proof using.
  intros Hb t f Ht Hs Hf. cbn [print] in *. change (2 <? 2)%nat with false in *. cbn [paren] in *. rewrite <- !app_assoc in *. change (bytes "&") with [38] in *. simpl app in *.
  destruct (Hb (38 :: t) f) as (c & n & Hrun & Hrep); [done | done | lia|]. exists c, (S n). split; [|simpl; by constructor].
  rewrite Hrun. do 2 f_equal. rewrite replicate_S_end, <- app_assoc. done.
Qed.

Lemma redir_parses sc w m fd : word_ok w → redir_ok m fd → parses_exec sc → parses_exec (SRedir sc w m fd).
Proof using.
  intros Hw Hm Hex rs t f Ht Hrs Hs Hf. cbn [print] in *. rewrite <- !app_assoc in *.
  assert (print_redir w fd ++ redirs rs ++ t = redirs ((w, m, fd) :: rs) ++ t) as Heq by (change (redirs ((w, m, fd) :: rs)) with (print_redir w fd ++ redirs rs); by rewrite <- app_assoc).
  rewrite Heq in *. destruct (Hex ((w, m, fd) :: rs) t f) as (c & rs' & Hrun & Hrep & Hrs'); [done | by constructor | done | done|].
  apply Forall2_cons_inv_r in Hrs' as ([[[q eq] m'] fd'] & rs2 & (Hd & Hm1 & Hm2) & Hrs2 & ->). simpl in Hd, Hm1, Hm2. subst m' fd'.
  exists (REDIR c q eq m fd), rs2. rewrite Hrun. split; [done|]. split; [by constructor | done].
Qed.

Lemma print_parses sc : scmd_ok sc → parses_exec sc ∧ parses_pipe sc ∧ parses_back sc ∧ parses_line sc.
Proof using.
  induction sc as [ws|sc IH w m fd|l IHl r IHr|l IHl r IHr|sc IH]; intros Hok.
  - pose proof (exec_parses ws Hok) as H1. pose proof (exec_to_pipe (SExec ws) eq_refl H1) as H2. pose proof (pipe_to_back (SExec ws) eq_refl H2) as H3. split_and!; [done.. | by apply back_to_line].
  - destruct Hok as (Hsc & Hw & Hm). destruct (IH Hsc) as [H0 _]. pose proof (redir_parses sc w m fd Hw Hm H0) as H1. pose proof (exec_to_pipe (SRedir sc w m fd) eq_refl H1) as H2.
    pose proof (pipe_to_back (SRedir sc w m fd) eq_refl H2) as H3. split_and!; [done.. | by apply back_to_line].
  - pose proof Hok as [Hl Hr]. destruct (IHl Hl) as [H0 _]. destruct (IHr Hr) as (_ & H0' & _). pose proof (pipe_parses l r Hr H0 H0') as H2.
    pose proof (pipe_to_back (SPipe l r) eq_refl H2) as H3. pose proof (back_to_line (SPipe l r) eq_refl H3) as H4. split_and!; [by apply line_to_exec | done..].
  - pose proof Hok as [Hl Hr]. destruct (IHl Hl) as (_ & _ & H0 & _). destruct (IHr Hr) as (_ & _ & _ & H0'). pose proof (list_parses l r Hr H0 H0') as H4.
    pose proof (line_to_exec (SList l r) Hok eq_refl H4) as H1. pose proof (exec_to_pipe (SList l r) eq_refl H1) as H2. split_and!; [done | done | by apply pipe_to_back | done].
  - destruct (IH Hok) as (_ & _ & H0 & _). pose proof (back_parses sc H0) as H3. pose proof (back_to_line (SBack sc) eq_refl H3) as H4.
    pose proof (line_to_exec (SBack sc) Hok eq_refl H4) as H1. split_and!; [done | by apply exec_to_pipe | done | done].
Qed.

End parses.

(** *** Reading the strings back *)

(** Where [nulterminate] writes. *)
Fixpoint ends_of (n : nat) (c : cmd) : list nat :=
  match c with
  | EXEC argv => (λ a, index n a.2) <$> argv
  | REDIR c _ efile _ _ => index n efile :: ends_of n c
  | PIPE l r | LIST l r => ends_of n l ++ ends_of n r
  | BACK c => ends_of n c
  end.

Lemma insert_zero_lookup (buf : list Z) e i :
  (<[e := 0]> buf : list Z) !! i = if decide (i = e) then (λ _, 0) <$> buf !! i else buf !! i.
Proof.
  case_decide as Hi; [subst|by rewrite list_lookup_insert_ne].
  destruct (buf !! e) eqn:E; [rewrite list_lookup_insert_eq; [done | by eapply lookup_lt_Some]|].
  rewrite list_insert_ge by (by apply lookup_ge_None). by rewrite E.
Qed.

Lemma nulterminate_lookup n c : ∀ buf i,
  nulterminate n c buf !! i = if decide (i ∈ ends_of n c) then (λ _, 0) <$> buf !! i else buf !! i.
Proof.
  assert (∀ (i : nat) (l1 l2 : list nat) (o : option Z),
    (if decide (i ∈ l2) then (λ _, 0) <$> (if decide (i ∈ l1) then (λ _, 0) <$> o else o) else if decide (i ∈ l1) then (λ _, 0) <$> o else o) =
    if decide (i ∈ l1 ++ l2) then (λ _, 0) <$> o else o) as Hjoin.
  { intros i l1 l2 o. repeat case_decide; rewrite ?elem_of_app in *; (tauto || by destruct o). }
  induction c as [argv|c IH f ef m fd|l IHl r IHr|l IHl r IHr|c IH]; intros buf i; cbn [nulterminate ends_of]; [|..|done].
  - revert buf. induction argv as [|a argv IH]; intros buf; [by rewrite decide_False by apply not_elem_of_nil|].
    cbn [foldl]. rewrite fmap_cons, IH, insert_zero_lookup. change (index n a.2 :: _) with ([index n a.2] ++ ((λ a, index n a.2) <$> argv)).
    rewrite <- Hjoin. assert (i ∈ [index n a.2] ↔ i = index n a.2) as Hs by apply list_elem_of_singleton. destruct (decide (i = index n a.2)), (decide (i ∈ [index n a.2])); (done || tauto).
  - rewrite insert_zero_lookup, IH. repeat case_decide; set_solver || (by destruct (buf !! i)).
  - by rewrite IHr, IHl, Hjoin.
  - by rewrite IHr, IHl, Hjoin.
Qed.

Lemma cstr_prefix w l : Forall word_char w → (∀ k x, w !! k = Some x → l !! k = Some x) → l !! length w = Some 0 → cstr l = w.
Proof.
  intros Hw. revert l. induction Hw as [|c w (H0 & _) Hw IH]; intros l Hl He; destruct l as [|d l]; try done.
  - simpl in He. by injection He as ->.
  - specialize (Hl 0%nat c eq_refl) as Hd. injection Hd as ->. simpl. rewrite (proj2 (Z.eqb_neq _ _)) by done. f_equal. apply IH; [|done].
    intros k x Hk. by apply (Hl (S k)).
Qed.

Section strings.
Context (L buf : list Z).
(** The line with some bytes overwritten, none of them in a word. *)
Context (Hwords : ∀ i x, L !! i = Some x → word_char x → buf !! i = Some x).

Lemma cstr_delimits w q eq : delimits L w q eq → buf !! index (length L) eq = Some 0 → cstr (drop (index (length L) q) buf) = w.
Proof using Hwords.
  intros (-> & [pre HL] & [_ Hw] & _) He. assert (index (length L) (w ++ eq) = length pre ∧ index (length L) eq = (length pre + length w)%nat) as [Hi Hi'].
  { unfold index. rewrite HL, !length_app. lia. }
  rewrite Hi, Hi' in *. apply cstr_prefix; [done| |by rewrite lookup_drop].
  intros k x Hk. rewrite lookup_drop. apply Hwords; [|rewrite Forall_forall in Hw; by eapply Hw, list_elem_of_lookup_2].
  rewrite HL, lookup_app_r by lia. rewrite lookup_app_l by (replace (length pre + k - length pre)%nat with k by lia; by eapply lookup_lt_Some). by replace (length pre + k - length pre)%nat with k by lia.
Qed.

Lemma rep_strings c sc : rep L c sc → (∀ e, e ∈ ends_of (length L) c → buf !! e = Some 0) → strings (length L) buf c = sc.
Proof using Hwords.
  induction 1 as [argv ws Hav|c sc q eq w mode fd Hrep IH Hd|l r sl sr Hl IHl Hr IHr|l r sl sr Hl IHl Hr IHr|c sc Hrep IH]; intros He; cbn [strings ends_of] in *.
  - f_equal. induction Hav as [|a w av ws Hd Hav IH]; [done|]. rewrite fmap_cons. f_equal; [apply (cstr_delimits w a.1 a.2 Hd); apply He; left|].
    apply IH. intros e Hin. apply He. by right.
  - f_equal; [apply IH; intros e Hin; apply He; by right|]. apply (cstr_delimits w q eq Hd). apply He. left.
  - f_equal; [apply IHl | apply IHr]; intros e Hin; apply He, elem_of_app; auto.
  - f_equal; [apply IHl | apply IHr]; intros e Hin; apply He, elem_of_app; auto.
  - f_equal. by apply IH.
Qed.

End strings.

(** The bytes overwritten end words. *)
Lemma rep_ends L c sc e : rep L c sc → e ∈ ends_of (length L) c → ∃ x, (L ++ [0]) !! e = Some x ∧ ¬ word_char x.
Proof.
  assert (∀ w q eq, delimits L w q eq → ∃ x, (L ++ [0]) !! index (length L) eq = Some x ∧ ¬ word_char x) as Hdel.
  { intros w q eq (-> & [pre ->] & _ & He). unfold index. rewrite !length_app. replace (length pre + (length w + length eq) - length eq)%nat with (length (pre ++ w)) by (rewrite length_app; lia).
    rewrite !app_assoc, <- (app_assoc (pre ++ w)). rewrite lookup_app_r, Nat.sub_diag by lia. destruct eq as [|x eq]; simpl; [exists 0; split; [done|]; by intros [? _]|]. by exists x. }
  induction 1 as [argv ws Hav|c sc q eq w mode fd Hrep IH Hd|l r sl sr Hl IHl Hr IHr|l r sl sr Hl IHl Hr IHr|c sc Hrep IH]; cbn [ends_of].
  - intros ([q eq] & -> & Hin)%list_elem_of_fmap. apply list_elem_of_lookup in Hin as [k Hk]. destruct (Forall2_lookup_l _ _ _ _ _ Hav Hk) as (w & _ & Hd). by eapply Hdel.
  - intros [->|Hin]%elem_of_cons; [by eapply Hdel | by apply IH].
  - intros [Hin|Hin]%elem_of_app; auto.
  - intros [Hin|Hin]%elem_of_app; auto.
  - done.
Qed.

Lemma nulterminate_strings L c sc : rep L c sc → strings (length L) (nulterminate (length L) c (L ++ [0])) c = sc.
Proof.
  intros Hrep. apply (rep_strings L); [|done|].
  - intros i x Hx Hw. rewrite nulterminate_lookup. assert ((L ++ [0]) !! i = Some x) as Hx' by (by apply lookup_app_l_Some).
    rewrite decide_False; [done|]. intros Hin. destruct (rep_ends L c sc i Hrep Hin) as (y & Hy & Hny). rewrite Hx' in Hy. by injection Hy as ->.
  - intros e He. rewrite nulterminate_lookup, decide_True by done. destruct (rep_ends L c sc e Hrep He) as (y & -> & _). done.
Qed.

(** C10: the parser of the shell inverts the grammar: the text of any command,
    with pipes, lists, background commands, redirections and arguments nested and
    combined in any way and parentheses only where the binding strength and
    grouping of the operators need them, is parsed into that command, and once
    [nulterminate] has written its NULs to the line, each pointer in it is the C
    string it should be. *)
Theorem parsecmd_print sc : scmd_ok sc →
  ∃ c buf, parsecmd (print sc 3) = Val (c, buf) ∧ strings (length (print sc 3)) buf c = sc.
Proof.
  intros Hok. destruct (print_parses (print sc 3) sc Hok) as (_ & _ & _ & Hl).
  destruct (Hl [] (4 * length (print sc 3) + 4)%nat) as (c & Hrun & Hrep); [done | by rewrite app_nil_r | by rewrite app_nil_r|].
  rewrite app_nil_r in Hrun. unfold parsecmd. rewrite Hrun. exists c, (nulterminate (length (print sc 3)) c (print sc 3 ++ [0])). split; [done|].
  by apply nulterminate_strings.
Qed.

Lemma parsecmd_print_witness :
  ∃ c buf, parsecmd (print (SList (SBack (SPipe (SExec [bytes "ls"; bytes "-l"]) (SRedir (SList (SExec [bytes "wc"]) (SExec [])) (bytes "out") 0x201 1))) (SExec [bytes "x"])) 3) = Val (c, buf) ∧
    strings (length (print (SList (SBack (SPipe (SExec [bytes "ls"; bytes "-l"]) (SRedir (SList (SExec [bytes "wc"]) (SExec [])) (bytes "out") 0x201 1))) (SExec [bytes "x"])) 3)) buf c =
    SList (SBack (SPipe (SExec [bytes "ls"; bytes "-l"]) (SRedir (SList (SExec [bytes "wc"]) (SExec [])) (bytes "out") 0x201 1))) (SExec [bytes "x"]).
Proof.
  apply (parsecmd_print (SList (SBack (SPipe (SExec [bytes "ls"; bytes "-l"]) (SRedir (SList (SExec [bytes "wc"]) (SExec [])) (bytes "out") 0x201 1))) (SExec [bytes "x"]))).
  assert (∀ w, w ≠ [] → forallb (λ c, negb (c =? 0) && negb (one_of whitespace c) && negb (one_of symbols c)) w = true → word_ok w) as Hw.
  { intros w Hne Hf. split; [done|]. apply Forall_forall. intros c Hc%list_elem_of_In. rewrite forallb_forall in Hf. specialize (Hf c Hc).
    apply andb_true_iff in Hf as [[H1%negb_true_iff%Z.eqb_neq H2%negb_true_iff]%andb_true_iff H3%negb_true_iff]. done. }
  cbn [scmd_ok]. unfold MAXARGS. split_and!; try (simpl; lia); repeat (apply Forall_cons; split); try apply Forall_nil_2; try (by apply Hw). by right.
Defined.

(** ** Running a command *)

(** The system calls a process makes; [Exec] goes on only when it fails, [Fork]
    has the child, the parent and the failure. *)
Inductive proc :=
  | Exit
  | Exec (path : list Z) (argv : list (list Z)) (failed : proc)
  | Close (fd : Z) (k : proc)
  | Open (file : list Z) (mode : Z) (k : Z → proc)
  | Dup (fd : Z) (k : proc)
  | MkPipe (k : option (Z * Z) → proc)
  | Fork (child parent failed : proc)
  | Wait (k : proc)
  | Write (fd : Z) (text : list Z) (k : proc)
  | Chdir (path : list Z) (k : Z → proc)
  | Gets (max : Z) (k : list Z → proc).

Definition newline : list Z := [10].
Definition panic (s : list Z) : proc := Write 2 (s ++ newline) Exit.
Definition fork1 (child parent : proc) : proc := Fork child parent (panic (bytes "fork")).

Fixpoint runcmd (c : scmd) : proc :=
  match c with
  | SExec [] => Exit
  | SExec (path :: args) => Exec path (path :: args) (Write 2 (bytes "exec " ++ path ++ bytes " failed" ++ newline) Exit)
  | SRedir c file mode fd =>
      Close fd (Open file mode (λ r,
        if r <? 0 then Write 2 (bytes "open " ++ file ++ bytes " failed" ++ newline) Exit else runcmd c))
  | SList l r => fork1 (runcmd l) (Wait (runcmd r))
  | SPipe l r =>
      MkPipe (λ p, match p with
        | None => panic (bytes "pipe")
        | Some (p0, p1) =>
            fork1 (Close 1 (Dup p1 (Close p0 (Close p1 (runcmd l)))))
              (fork1 (Close 0 (Dup p0 (Close p0 (Close p1 (runcmd r)))))
                (Close p0 (Close p1 (Wait (Wait Exit)))))
        end)
  | SBack c => fork1 (runcmd c) Exit
  end.

(** [getcmd(buf, sizeof(buf))]: the line; [None] at the end of the input *)
Definition getcmd (k : option (list Z) → proc) : proc :=
  Write 2 (bytes "$ ") (Gets 100 (λ l, k (match cstr l with [] => None | buf => Some buf end))).

(** [runcmd(parsecmd(buf))] *)
Definition run_line (buf : list Z) : proc :=
  match parsecmd buf with
  | Val (c, b) => runcmd (strings (length buf) b c)
  | Panic msg => panic msg
  | OutOfFuel => Exit
  end.

(** The loop of [main], for [n] lines. *)
Fixpoint main_loop (n : nat) : proc :=
  match n with
  | O => Exit
  | S n => getcmd (λ l, match l with
      | None => Exit
      | Some (99 :: 100 :: 32 :: path) =>
          let path := removelast path in
          Chdir path (λ r, if r <? 0 then Write 2 (bytes "cannot cd " ++ path ++ newline) (main_loop n) else main_loop n)
      | Some buf => fork1 (run_line buf) (Wait (main_loop n))
      end)
  end.

(** [main] first opens the console until a descriptor of 3 or more comes back,
    which is within four calls. *)
Fixpoint open_consoles (fuel : nat) (k : proc) : proc :=
  match fuel with
  | O => Exit
  | S f => Open (bytes "console") O_RDWR (λ fd,
      if fd <? 0 then k else if 3 <=? fd then Close fd k else open_consoles f k)
  end.
Definition main (n : nat) : proc := open_consoles 4 (main_loop n).

(** *** The file descriptors of a pipeline *)

Section fds.
(** What a descriptor refers to. *)
Context {O : Type}.
Abbreviation fds := (list (option O)).

(** The lowest free descriptor, as the kernel's [fdalloc] chooses it. *)
Definition fdalloc (T : fds) (o : O) : option (Z * fds) :=
  match list_find (λ x, x = None) T with Some (k, _) => Some (Z.of_nat k, <[k := Some o]> T) | None => None end.

(** The steps of a process on its descriptors; a [fork] goes on in either process. *)
Inductive fd_step : proc * fds → proc * fds → Prop :=
  | step_close fd k (T : fds) : fd_step (Close fd k, T) (k, <[Z.to_nat fd := None]> T)
  | step_dup fd k (T T' : fds) o n : T !! Z.to_nat fd = Some (Some o) → fdalloc T o = Some (n, T') → fd_step (Dup fd k, T) (k, T')
  | step_pipe k (T T1 T2 : fds) r w p0 p1 :
      fdalloc T r = Some (p0, T1) → fdalloc T1 w = Some (p1, T2) → fd_step (MkPipe k, T) (k (Some (p0, p1)), T2)
  | step_child c p f T : fd_step (Fork c p f, T) (c, T)
  | step_parent c p f T : fd_step (Fork c p f, T) (p, T)
  | step_wait k T : fd_step (Wait k, T) (k, T)
  | step_open file mode k (T T' : fds) o n : fdalloc T o = Some (n, T') → fd_step (Open file mode k, T) (k n, T')
  | step_open_fails file mode k T : fd_step (Open file mode k, T) (k (-1), T)
  | step_exec_fails path argv k T : fd_step (Exec path argv k, T) (k, T)
  | step_fork_fails c p f T : fd_step (Fork c p f, T) (f, T)
  | step_write fd text k T : fd_step (Write fd text k, T) (k, T)
  | step_chdir path k r T : fd_step (Chdir path k, T) (k r, T)
  | step_gets max k l T : fd_step (Gets max k, T) (k l, T).

Lemma fdalloc_first (T : fds) o (k : nat) : T !! k = Some None → (∀ j, (j < k)%nat → ∃ x, T !! j = Some (Some x)) →
  fdalloc T o = Some (Z.of_nat k, <[k := Some o]> T).
Proof.
  intros Hk Hlt. unfold fdalloc. destruct (list_find (λ x, x = None) T) as [[j x]|] eqn:E.
  - apply list_find_Some in E as (Hj & -> & Hbelow). destruct (decide (j = k)) as [->|Hne]; [done|]. destruct (decide (j < k)%nat) as [Hl|Hl].
    + destruct (Hlt j Hl) as [x Hx]. congruence.
    + destruct (Hbelow k None Hk ltac:(lia)). done.
  - apply list_find_None in E. rewrite Forall_forall in E. destruct (E None); [by eapply list_elem_of_lookup_2 | done].
Qed.

Lemma fdalloc_inv (T T' : fds) o n : fdalloc T o = Some (n, T') →
  ∃ k, n = Z.of_nat k ∧ T !! k = Some None ∧ T' = <[k := Some o]> T ∧ (∀ j, (j < k)%nat → ∃ x, T !! j = Some (Some x)).
Proof.
  unfold fdalloc. destruct (list_find (λ x, x = None) T) as [[k x]|] eqn:E; [|done]. intros [= <- <-].
  apply list_find_Some in E as (Hk & -> & Hbelow). exists k. split_and!; try done. intros j Hj.
  destruct (lookup_lt_is_Some_2 T j) as [[x|] Hx]; [by eapply Nat.lt_trans, lookup_lt_Some | by exists x | by destruct (Hbelow j None Hx Hj)].
Qed.

Lemma insert_lookup_if (T : fds) k x j : (k < length T)%nat → (<[k := x]> T : fds) !! j = if decide (j = k) then Some x else T !! j.
Proof. intros Hk. case_decide; [subst; by rewrite list_lookup_insert_eq | by rewrite list_lookup_insert_ne]. Qed.

(** The child's part of a pipeline: descriptor [d] becomes the end of the pipe
    that is at [p], and the two descriptors of the pipe are closed. *)
Lemma child_fds (T : fds) (d p0 p1 p : nat) rd wr o k :
  (p0 < length T)%nat → (p1 < length T)%nat → (d < length T)%nat → d ≠ p0 → d ≠ p1 → p0 ≠ p1 → p = p0 ∨ p = p1 →
  T !! p0 = Some None → T !! p1 = Some None → (∀ j, (j < d)%nat → ∃ x, T !! j = Some (Some x)) →
  (<[p1 := Some wr]> (<[p0 := Some rd]> T) : fds) !! p = Some (Some o) →
  star fd_step (Close (Z.of_nat d) (Dup (Z.of_nat p) (Close (Z.of_nat p0) (Close (Z.of_nat p1) k))), <[p1 := Some wr]> (<[p0 := Some rd]> T))
    (k, <[d := Some o]> T).
Proof.
  intros H0 H1 Hd Hd0 Hd1 H01 Hp HT0 HT1 Hlow Ho.
  assert (∀ j, (j < d)%nat → j ≠ p0 ∧ j ≠ p1) as Hlow' by (intros j Hj; destruct (Hlow j Hj) as [x Hx]; split; intros ->; congruence).
  set (T2 := <[p1 := Some wr]> (<[p0 := Some rd]> T) : fds) in *. set (T3 := <[d := None]> T2 : fds).
  assert (length T2 = length T) as Hl2 by (unfold T2; by rewrite !length_insert).
  eapply star_left; [apply step_close|]. rewrite Nat2Z.id. fold T3.
  assert (T3 !! p = Some (Some o)) as Hp3 by (unfold T3; rewrite insert_lookup_if, decide_False by (lia || destruct Hp; congruence); done).
  assert (fdalloc T3 o = Some (Z.of_nat d, <[d := Some o]> T3)) as Hfd.
  { apply fdalloc_first; [unfold T3; by rewrite insert_lookup_if, decide_True by lia|]. intros j Hj. destruct (Hlow j Hj) as [x Hx], (Hlow' j Hj). exists x.
    unfold T3, T2. by rewrite !insert_lookup_if, !decide_False by (rewrite ?length_insert; lia). }
  eapply star_left; [eapply step_dup; [rewrite Nat2Z.id; exact Hp3 | exact Hfd]|]. eapply star_left; [apply step_close|]. eapply star_left; [apply step_close|]. rewrite !Nat2Z.id.
  assert (<[p1 := None]> (<[p0 := None]> (<[d := Some o]> T3)) = <[d := Some o]> T) as ->; [|apply star_refl].
  apply list_eq. intros j. unfold T3, T2. rewrite !insert_lookup_if by (rewrite ?length_insert; lia). repeat case_decide; subst; congruence.
Qed.

(** a pipeline is plumbed as it should be: with standard input and output
    open and two descriptors free, [runcmd] of a pipe runs the left command with
    its standard output, and the right one with its standard input, replaced by
    the ends of one new pipe and with the descriptors otherwise as they were, so
    that no process keeps another end open, and the shell itself ends up with the
    descriptors it had. *)
Theorem runcmd_pipe l r (T T1 T2 : fds) o0 o1 rd wr p0 p1 :
  T !! 0%nat = Some (Some o0) → T !! 1%nat = Some (Some o1) → fdalloc T rd = Some (p0, T1) → fdalloc T1 wr = Some (p1, T2) →
  star fd_step (runcmd (SPipe l r), T) (runcmd l, <[1%nat := Some wr]> T) ∧
  star fd_step (runcmd (SPipe l r), T) (runcmd r, <[0%nat := Some rd]> T) ∧
  star fd_step (runcmd (SPipe l r), T) (Exit, T).
Proof.
  intros Ho0 Ho1 Hp0 Hp1. pose proof (step_pipe (λ p, match p with None => panic (bytes "pipe") | Some (p0, p1) =>
    fork1 (Close 1 (Dup p1 (Close p0 (Close p1 (runcmd l))))) (fork1 (Close 0 (Dup p0 (Close p0 (Close p1 (runcmd r))))) (Close p0 (Close p1 (Wait (Wait Exit))))) end)
    T T1 T2 rd wr p0 p1 Hp0 Hp1) as Hstep. cbv beta iota in Hstep.
  apply fdalloc_inv in Hp0 as (k0 & -> & HT0 & -> & _). apply fdalloc_inv in Hp1 as (k1 & -> & HT1 & -> & _).
  pose proof (lookup_lt_Some _ _ _ HT0) as Hl0. pose proof (lookup_lt_Some _ _ _ HT1) as Hl1. rewrite length_insert in Hl1. pose proof (lookup_lt_Some _ _ _ Ho0). pose proof (lookup_lt_Some _ _ _ Ho1).
  rewrite insert_lookup_if in HT1 by done. case_decide as Hk; [done|].
  assert (0%nat ≠ k0 ∧ 0%nat ≠ k1 ∧ 1%nat ≠ k0 ∧ 1%nat ≠ k1) as (? & ? & ? & ?) by (split_and!; intros <-; congruence).
  split_and!; (eapply star_left; [exact Hstep|]).
  - eapply star_left; [apply step_child|]. apply (child_fds T 1 k0 k1 k1 rd wr wr); auto.
    + intros j Hj. exists o0. by replace j with 0%nat by lia.
    + rewrite insert_lookup_if, decide_True by (rewrite ?length_insert; lia). done.
  - eapply star_left; [apply step_parent|]. eapply star_left; [apply step_child|]. apply (child_fds T 0 k0 k1 k0 rd wr rd); auto.
    + intros j Hj. lia.
    + rewrite !insert_lookup_if, decide_False, decide_True by (rewrite ?length_insert; lia). done.
  - eapply star_left; [apply step_parent|]. eapply star_left; [apply step_parent|]. do 2 (eapply star_left; [apply step_close|]). do 2 (eapply star_left; [apply step_wait|]).
    rewrite !Nat2Z.id. assert (<[k1 := None]> (<[k0 := None]> (<[k1 := Some wr]> (<[k0 := Some rd]> T))) = T) as ->; [|apply star_refl].
    apply list_eq. intros j. rewrite !insert_lookup_if by (rewrite ?length_insert; lia). repeat case_decide; subst; congruence.
Qed.

(** The descriptors below 3 that are free *)
Definition missing (T : fds) : nat := length (filter (λ x, x = None) (take 3 T)).

Lemma missing_insert (T : fds) o k : T !! k = Some None → (k < 3)%nat → missing T = S (missing (<[k := Some o]> T)).
Proof.
  intros Hk Hlt. unfold missing. rewrite take_insert_lt by done.
  assert (take 3 T !! k = Some None) as Hk' by (by rewrite lookup_take_lt). pose proof (take_drop_middle _ _ _ Hk') as Heq.
  rewrite <- Heq at 1. rewrite insert_take_drop by (by eapply lookup_lt_Some). rewrite !filter_app, !length_app. rewrite (filter_cons_True _ None), (filter_cons_False _ (Some o)) by done. simpl. lia.
Qed.

Lemma fdalloc_some (T : fds) o k : T !! k = Some None → ∃ n T', fdalloc T o = Some (n, T').
Proof.
  intros Hk. unfold fdalloc. destruct (list_find (λ x, x = None) T) as [[j x]|] eqn:E; [by do 2 eexists|].
  apply list_find_None in E. rewrite Forall_forall in E. destruct (E None); [by eapply list_elem_of_lookup_2 | done].
Qed.

Lemma open_consoles_ends p con k : (3 ≤ k)%nat → ∀ fuel (T : fds), (missing T < fuel)%nat → T !! k = Some None →
  ∃ T', star fd_step (open_consoles fuel p, T) (p, T') ∧
    ∀ j, T' !! j = if decide (j < 3)%nat then (λ x, Some (default con x)) <$> T !! j else T !! j.
Proof.
  intros Hk. induction fuel as [|f IH]; intros T Hm HT; [lia|]. destruct (fdalloc_some T con k HT) as (n & T1 & Hf).
  pose proof (step_open (bytes "console") O_RDWR (λ fd, if fd <? 0 then p else if 3 <=? fd then Close fd p else open_consoles f p) T T1 con n Hf) as Hstep. cbv beta in Hstep.
  apply fdalloc_inv in Hf as (i & -> & Hi & -> & Hlow). pose proof (lookup_lt_Some _ _ _ Hi) as Hl.
  rewrite (proj2 (Z.ltb_ge i 0)) in Hstep by lia. destruct (Z.leb_spec 3 i).
  - exists T. split.
    + eapply star_left; [exact Hstep|]. eapply star_left; [apply step_close|]. rewrite Nat2Z.id, list_insert_insert_eq, list_insert_id by done. apply star_refl.
    + intros j. case_decide; [|done]. destruct (Hlow j ltac:(lia)) as [x Hx]. by rewrite Hx.
  - destruct (IH (<[i := Some con]> T)) as (T' & Hs & HT').
    + rewrite (missing_insert T con i) in Hm by (done || lia). lia.
    + rewrite insert_lookup_if, decide_False by lia. done.
    + exists T'. split; [by eapply star_left|]. intros j. rewrite HT', insert_lookup_if by done. repeat case_decide; subst; [by rewrite Hi | done | lia | done].
Qed.

(** the shell starts with standard input, output and error open: with a
    console to open and a descriptor to spare, whatever descriptors it was started
    with, [main] reaches its loop with descriptors 0, 1 and 2 open, those that
    were open as they were and those it opened the console, and the descriptors
    above them as they were. *)
Theorem main_opens_console n (T : fds) con k :
  (3 ≤ k)%nat → T !! k = Some None →
  ∃ T', star fd_step (main n, T) (main_loop n, T') ∧
    ∀ j, T' !! j = if decide (j < 3)%nat then (λ x, Some (default con x)) <$> T !! j else T !! j.
Proof.
  intros Hk HT. apply (open_consoles_ends _ con k); [done | | done]. unfold missing.
  pose proof (length_filter (λ x : option O, x = None) (take 3 T)). rewrite length_take in *. lia.
Qed.

End fds.

Lemma runcmd_pipe_witness :
  let T := [Some 0; Some 1; Some 2; None; None; None] in
  star fd_step (runcmd (SPipe (SExec [bytes "ls"]) (SExec [bytes "wc"])), T) (runcmd (SExec [bytes "ls"]), <[1%nat := Some 11]> T) ∧
  star fd_step (runcmd (SPipe (SExec [bytes "ls"]) (SExec [bytes "wc"])), T) (runcmd (SExec [bytes "wc"]), <[0%nat := Some 10]> T) ∧
  star fd_step (runcmd (SPipe (SExec [bytes "ls"]) (SExec [bytes "wc"])), T) (Exit, T).
Proof.
  intros T. apply (runcmd_pipe (SExec [bytes "ls"]) (SExec [bytes "wc"]) T (<[3%nat := Some 10]> T) (<[4%nat := Some 11]> (<[3%nat := Some 10]> T)) 0 1 10 11 3 4);
    vm_compute; reflexivity.
Defined.

Lemma main_opens_console_witness :
  ∃ T', star fd_step (main 1, [None; Some 5; None; None; None]) (main_loop 1, T') ∧ ∀ j, T' !! j = [Some 9; Some 5; Some 9; None; None] !! j.
Proof.
  destruct (main_opens_console 1 [None; Some 5; None; None; None] 9 3 ltac:(lia) eq_refl) as (T' & Hs & HT'). exists T'. split; [exact Hs|].
  intros j. rewrite HT'. do 5 (destruct j as [|j]; [reflexivity|]). reflexivity.
Defined.

End Sh.
