(* ===== verification/File.v ===== *)
(** * file.c, and pipe.c's use of it: open files

    The file table and the operations on open files. A file is a pipe or an
    inode; the operations pass the work on to pipe.c and fs.c and wrap changes of
    the file system in transactions. *)

From S2P Require Import Prelude Layout Memory Pipe Sleeplock Bio Log Block Fs FsBlock FsFile FsRw.

(** What file.c uses of log.c. *)
Class TxnLayer (B : Type) := {
  l_begin_op : M B unit;
  l_end_op : M B unit;
  l_as : Z → B → B;   (** run as the process with this pid *)
}.

#[export] Instance log_txn : TxnLayer Log.lstate := { l_begin_op := Log.begin_op; l_end_op := Log.end_op; l_as := Log.set_pid }.

Module File.
Import Fs.

Inductive fdtype := FD_NONE | FD_PIPE | FD_INODE.

(** [struct file]; [pipe] and [ip] are indices. *)
Record file := mk_file {
  ftype : fdtype;
  ref : Z;
  readable : Z;
  writable : Z;
  fpipe : nat;
  fip : nat;
  off : Z;
}.

Definition set_ftype (x : fdtype) (f : file) : file := mk_file x (ref f) (readable f) (writable f) (fpipe f) (fip f) (off f).
Definition set_ref (x : Z) (f : file) : file := mk_file (ftype f) x (readable f) (writable f) (fpipe f) (fip f) (off f).
Definition set_off (x : Z) (f : file) : file := mk_file (ftype f) (ref f) (readable f) (writable f) (fpipe f) (fip f) x.

Section file.
Context {B : Type} {BL : BlockLayer B} {TX : TxnLayer B}.
Abbreviation fstate := (fstate (B:=B)).
Context (devsw_read : Z → option (nat → Z → M fstate (Z * list Z))).
Context (devsw_write : Z → option (nat → list Z → M fstate Z)).

(** The state: the file system below, [ftable], the pages that hold pipes, and
    the [killed] flag of the running process. *)
Record fenv := mk_fenv {
  ffs : fstate;
  ftable : list file;
  pipes : list (option Pipe.pipe);
  fkilled : Z;
}.

Definition set_ffs (x : fstate) (s : fenv) : fenv := mk_fenv x (ftable s) (pipes s) (fkilled s).
Definition set_ftable (x : list file) (s : fenv) : fenv := mk_fenv (ffs s) x (pipes s) (fkilled s).
Definition set_pipes (x : list (option Pipe.pipe)) (s : fenv) : fenv := mk_fenv (ffs s) (ftable s) x (fkilled s).

#[local] Abbreviation K := (M fenv).

(** Operations of fs.c and log.c *)
(** The state as a process with this pid, working directory and [killed] flag
    runs it *)
Definition fenv_as (pid : Z) (cwd : option nat) (killed : Z) (e : fenv) : fenv :=
  mk_fenv (mk_fstate (l_as pid (fblk (ffs e))) (Fs.sb (ffs e)) (icache (ffs e)) pid (default 0%nat cwd)) (ftable e) (pipes e) killed.

Definition on_fs {A} : M fstate A → K A := zoom ffs set_ffs.
Definition begin_op : K unit := on_fs (blk l_begin_op).
Definition end_op : K unit := on_fs (blk l_end_op).

Definition getf (f : nat) : K file := λ s,
  match ftable s !! f with Some x => Ok x s [] | None => Crashed (Undefined "file pointer") [] end.
Definition updf (f : nat) (g : file → file) : K unit := modify (λ s, set_ftable (alter g f (ftable s)) s).

(** ** pipe.c, seen from the file table *)

Definition getpipe (p : nat) : K Pipe.pipe := λ s,
  match default None (pipes s !! p) with Some x => Ok x s [] | None => Crashed (Undefined "pipe pointer") [] end.
Definition setpipe (p : nat) (x : option Pipe.pipe) : K unit := modify (λ s, set_pipes (<[p := x]> (pipes s)) s).

(** Run one pass of [piperead] or [pipewrite]. *)
Definition run_pass {L A} (p : nat) (r : pass L Pipe.pipe A) : K A :=
  match r with
  | Done a x tr => setpipe p (Some x) ;; for_each tr emit ;; mret a
  | Wait c _ x tr => setpipe p (Some x) ;; for_each tr emit ;; block_on c
  end.

(** The return value and the bytes read *)
Definition piperead (p : nat) (n : Z) : K (Z * list Z) :=
  acquire (Lpipe p) ;;
  x ← getpipe p ;
  k ← gets fkilled ;
  run_pass p (Pipe.read_pass p k n () x).

Definition pipewrite (p : nat) (src : list Z) : K Z :=
  acquire (Lpipe p) ;;
  x ← getpipe p ;
  k ← gets fkilled ;
  r ← run_pass p (Pipe.write_pass p k (Z.of_nat (length src)) src x) ;
  mret r.1.

Definition pipeclose (p : nat) (writable : Z) : K unit :=
  x ← getpipe p ;
  match Pipe.pipeclose p writable x with
  | Ok free x' tr => for_each tr emit ;; setpipe p (if free : bool then None else Some x')
  | Blocked c _ _ => block_on c
  | Crashed _ _ => panic "pipeclose"
  end.

(** ** file.c *)

Definition filealloc : K (option nat) :=
  acquire Lftable ;;
  t ← gets ftable ;
  match list_find (λ f, ref f = 0) t with
  | Some (f, _) => updf f (set_ref 1) ;; release Lftable ;; mret (Some f)
  | None => release Lftable ;; mret None
  end.

Definition filedup (f : nat) : K nat :=
  acquire Lftable ;;
  x ← getf f ;
  if ref x <? 1 then panic "filedup" else
  updf f (λ x, set_ref (ref x + 1) x) ;;
  release Lftable ;;
  mret f.

Definition fileclose (f : nat) : K unit :=
  acquire Lftable ;;
  x ← getf f ;
  if ref x <? 1 then panic "fileclose" else
  updf f (λ x, set_ref (ref x - 1) x) ;;
  if 0 <? ref x - 1 then release Lftable else
  ff ← getf f ;
  updf f (set_ref 0) ;;
  updf f (set_ftype FD_NONE) ;;
  release Lftable ;;
  match ftype ff with
  | FD_PIPE => pipeclose (fpipe ff) (writable ff)
  | FD_INODE => begin_op ;; on_fs (iput (fip ff)) ;; end_op
  | FD_NONE => mret ()
  end.

(** [None] for -1 *)
Definition filestat (f : nat) : K (option stat) :=
  x ← getf f ;
  match ftype x with
  | FD_INODE =>
      on_fs (ilock (fip x)) ;;
      st ← on_fs (stati (fip x)) ;
      on_fs (iunlock (fip x)) ;;
      mret (Some st)
  | _ => mret None
  end.

(** The return value and the bytes stored at [addr] *)
Definition fileread (f : nat) (n : Z) : K (Z * list Z) :=
  x ← getf f ;
  if readable x =? 0 then mret (-1, []) else
  match ftype x with
  | FD_PIPE => piperead (fpipe x) n
  | FD_INODE =>
      on_fs (ilock (fip x)) ;;
      r ← on_fs (readi devsw_read (fip x) (off x) (u32 n)) ;
      when (0 <? r.1) (updf f (λ x, set_off (u32 (off x + r.1)) x)) ;;
      on_fs (iunlock (fip x)) ;;
      mret r
  | FD_NONE => panic "fileread"
  end.

(** The most bytes written in one transaction *)
Definition maxwrite : Z := (MAXOPBLOCKS - 1 - 1 - 2) / 2 * 512.

(** The loop of [filewrite]: the value of [i] at its end. *)
Fixpoint filewrite_loop (fuel : nat) (f : nat) (src : list Z) (i : Z) : K Z :=
  let n := Z.of_nat (length src) in
  if n <=? i then mret i else
  match fuel with
  | O => undefined "filewrite does not terminate"
  | S fuel' =>
      let n1 := Z.min (n - i) maxwrite in
      begin_op ;;
      x ← getf f ;
      on_fs (ilock (fip x)) ;;
      r ← on_fs (writei devsw_write (fip x) (take (Z.to_nat n1) (drop (Z.to_nat i) src)) (off x)) ;
      when (0 <? r) (updf f (λ x, set_off (u32 (off x + r)) x)) ;;
      on_fs (iunlock (fip x)) ;;
      end_op ;;
      if r <? 0 then mret i
      else if negb (r =? n1) then panic "short filewrite"
      else filewrite_loop fuel' f src (i + r)
  end.

Definition filewrite (f : nat) (src : list Z) : K Z :=
  let n := Z.of_nat (length src) in
  x ← getf f ;
  if writable x =? 0 then mret (-1) else
  match ftype x with
  | FD_PIPE => pipewrite (fpipe x) src
  | FD_INODE =>
      i ← filewrite_loop (length src) f src 0 ;
      mret (if i =? n then n else -1)
  | FD_NONE => panic "filewrite"
  end.

(** [pipealloc(&f0, &f1)] with [junk] for what the page holds; a free page is
    the first entry of [pipes] without a pipe. *)
Definition pipealloc (junk : list Z) : K (option (nat * nat)) :=
  f0 ← filealloc ;
  match f0 with
  | None => mret None
  | Some f0 =>
      f1 ← filealloc ;
      match f1 with
      | None => fileclose f0 ;; mret None
      | Some f1 =>
          ps ← gets pipes ;
          match list_find (λ p, p = None) ps with
          | None => fileclose f0 ;; fileclose f1 ;; mret None
          | Some (p, _) =>
              setpipe p (Some (Pipe.new_pipe junk)) ;;
              updf f0 (λ x, mk_file FD_PIPE (ref x) 1 0 p (fip x) (off x)) ;;
              updf f1 (λ x, mk_file FD_PIPE (ref x) 0 1 p (fip x) (off x)) ;;
              mret (Some (f0, f1))
          end
      end
  end.

(** ** The file table *)

Lemma wp_getf (fe : fenv) f x (Q : file → fenv → list event → Prop) : ftable fe !! f = Some x → Q x fe [] → wp (getf f) fe Q.
Proof using. intros Hx HQ. unfold wp, getf. by rewrite Hx. Qed.

Lemma wp_updf (fe : fenv) f x g (Q : unit → fenv → list event → Prop) :
  ftable fe !! f = Some x → Q () (set_ftable (<[f := g x]> (ftable fe)) fe) [] → wp (updf f g) fe Q.
Proof using. intros Hx HQ. unfold wp, updf, modify. by rewrite (alter_as_insert _ _ _ x). Qed.

Lemma wp_filealloc (fe : fenv) (Q : option nat → fenv → list event → Prop) :
  (∀ f x tr, ftable fe !! f = Some x → ref x = 0 → Q (Some f) (set_ftable (<[f := set_ref 1 x]> (ftable fe)) fe) tr) →
  (∀ tr, Forall (λ x, ref x ≠ 0) (ftable fe) → Q None fe tr) → wp filealloc fe Q.
Proof using.
  intros H1 H2. unfold filealloc. do 2 wp_step. apply wp_bind, wp_gets. destruct (list_find (λ f, ref f = 0) (ftable fe)) as [[f x]|] eqn:E.
  - apply list_find_Some in E as (Hf & Hr & _). apply wp_bind. eapply wp_updf; [done|]. do 2 wp_step. apply wp_ret. by apply H1.
  - apply list_find_None in E. do 2 wp_step. apply wp_ret. by apply H2.
Qed.

Lemma wp_emits {S} (l : list event) (s : S) (Q : unit → S → list event → Prop) : Q () s l → wp (for_each l emit) s Q.
Proof using.
  revert Q. induction l as [|e l IH]; intros Q HQ; [done|]. cbn [for_each]. apply wp_bind. unfold wp at 1, emit at 1. by apply IH.
Qed.

(** Closing the last reference. *)
Definition unused (x : file) : file := set_ftype FD_NONE (set_ref 0 x).

Lemma wp_fileclose_none (fe : fenv) f x (Q : unit → fenv → list event → Prop) :
  ftable fe !! f = Some x → ref x = 1 → ftype x = FD_NONE →
  (∀ tr, Q () (set_ftable (<[f := unused x]> (ftable fe)) fe) tr) → wp (fileclose f) fe Q.
Proof using.
  intros Hx Hr Ht HQ. pose proof (lookup_lt_Some _ _ _ Hx) as Hlt. unfold fileclose. do 2 wp_step. apply wp_bind. eapply wp_getf; [done|]. rewrite Hr. simpl Z.ltb. cbv iota.
  apply wp_bind. eapply wp_updf; [done|]. apply wp_bind. eapply wp_getf; [apply list_lookup_insert_eq; simpl; rewrite ?length_insert; done|].
  apply wp_bind. eapply wp_updf; [apply list_lookup_insert_eq; simpl; rewrite ?length_insert; done|]. apply wp_bind. eapply wp_updf; [apply list_lookup_insert_eq; simpl; rewrite ?length_insert; done|].
  do 2 wp_step. simpl. rewrite Ht. apply wp_ret. simpl. rewrite !list_insert_insert_eq. apply HQ.
Qed.

Lemma wp_fileclose_pipe (fe : fenv) f x px (Q : unit → fenv → list event → Prop) :
  ftable fe !! f = Some x → ref x = 1 → ftype x = FD_PIPE → pipes fe !! fpipe x = Some (Some px) →
  let px' := if truth (writable x) then Pipe.mk_pipe (Pipe.data px) (Pipe.nread px) (Pipe.nwrite px) (Pipe.readopen px) 0
             else Pipe.mk_pipe (Pipe.data px) (Pipe.nread px) (Pipe.nwrite px) 0 (Pipe.writeopen px) in
  let free := (Pipe.readopen px' =? 0) && (Pipe.writeopen px' =? 0) in
  (∀ tr, Q () (set_pipes (<[fpipe x := if free then None else Some px']> (pipes fe)) (set_ftable (<[f := unused x]> (ftable fe)) fe)) tr) →
  wp (fileclose f) fe Q.
Proof using.
  intros Hx Hr Ht Hp px' free HQ. pose proof (lookup_lt_Some _ _ _ Hx) as Hlt. unfold fileclose. do 2 wp_step. apply wp_bind. eapply wp_getf; [done|]. rewrite Hr. simpl Z.ltb. cbv iota.
  apply wp_bind. eapply wp_updf; [done|]. apply wp_bind. eapply wp_getf; [apply list_lookup_insert_eq; simpl; rewrite ?length_insert; done|].
  apply wp_bind. eapply wp_updf; [apply list_lookup_insert_eq; simpl; rewrite ?length_insert; done|]. apply wp_bind. eapply wp_updf; [apply list_lookup_insert_eq; simpl; rewrite ?length_insert; done|].
  do 2 wp_step. simpl. rewrite Ht. unfold pipeclose. apply wp_bind. unfold wp at 1. unfold getpipe. simpl. rewrite Hp. simpl. rewrite !list_insert_insert_eq.
  assert (∃ tr, Pipe.pipeclose (fpipe x) (writable x) px = Ok free px' tr) as [tr ->] by (unfold Pipe.pipeclose, free, px'; mrun; destruct (truth (writable x)); eexists; reflexivity).
  apply wp_bind, wp_emits. unfold wp, setpipe, modify. apply HQ.
Qed.

(** The files in use are the same, and the others are still unused. *)
Definition same_files (ft ft' : list file) : Prop :=
  length ft' = length ft ∧ ∀ f x, ft !! f = Some x → ∃ x', ft' !! f = Some x' ∧ (ref x ≠ 0 → x' = x) ∧ (ref x = 0 → x' = unused x').

Definition types_ok (ft : list file) : Prop := ∀ f x, ft !! f = Some x → ref x = 0 → ftype x = FD_NONE.

Lemma same_files_refl ft : types_ok ft → same_files ft ft.
Proof using.
  intros Ht. split; [done|]. intros f x Hx. exists x. split; [done|]. split; [done|]. intros Hr. pose proof (Ht f x Hx Hr) as Hty. destruct x. unfold unused, set_ftype, set_ref. simpl in *. by subst.
Qed.

Lemma same_files_insert ft ft' f x y : same_files ft ft' → ft !! f = Some x → ref x = 0 → y = unused y → same_files ft (<[f := y]> ft').
Proof using.
  intros [Hl Hs] Hx Hr Hy. split; [by rewrite length_insert|]. intros g z Hz. destruct (decide (g = f)) as [->|Hne].
  - exists y. rewrite list_lookup_insert_eq by (rewrite Hl; by eapply lookup_lt_Some). split; [done|]. assert (z = x) as -> by congruence. split; [done|]. by intros _.
  - rewrite list_lookup_insert_ne by done. by apply Hs.
Qed.

(** The files of a new pipe. *)
Definition read_end (p : nat) (x : file) : file := mk_file FD_PIPE 1 1 0 p (fip x) (off x).
Definition write_end (p : nat) (x : file) : file := mk_file FD_PIPE 1 0 1 p (fip x) (off x).

Lemma wp_pipealloc (fe : fenv) page (Q : option (nat * nat) → fenv → list event → Prop) :
  types_ok (ftable fe) →
  (∀ f0 f1 p x0 x1 tr, f0 ≠ f1 → ftable fe !! f0 = Some x0 → ref x0 = 0 → ftable fe !! f1 = Some x1 → ref x1 = 0 → pipes fe !! p = Some None →
     Q (Some (f0, f1)) (set_pipes (<[p := Some (Pipe.new_pipe page)]> (pipes fe))
       (set_ftable (<[f1 := write_end p x1]> (<[f0 := read_end p x0]> (ftable fe))) fe)) tr) →
  (∀ ft' tr, same_files (ftable fe) ft' → Q None (set_ftable ft' fe) tr) →
  wp (pipealloc page) fe Q.
Proof using.
  intros Hty Hok Hbad. assert (set_ftable (ftable fe) fe = fe) as Hid by (by destruct fe). unfold pipealloc. apply wp_bind, wp_filealloc.
  2: { intros tr _. apply wp_ret. rewrite <- Hid. apply Hbad. by apply same_files_refl. }
  intros f0 x0 tr0 Hf0 Hr0. pose proof (lookup_lt_Some _ _ _ Hf0) as Hl0. apply wp_bind, wp_filealloc.
  2: { intros tr1 _. apply wp_bind. eapply wp_fileclose_none; [by apply list_lookup_insert_eq | done | exact (Hty _ _ Hf0 Hr0)|]. intros tr2. apply wp_ret. simpl. rewrite list_insert_insert_eq.
       apply Hbad. eapply same_files_insert; [by apply same_files_refl | done | done | done]. }
  intros f1 x1 tr1 Hf1 Hr1. simpl in Hf1. assert (f0 ≠ f1) as Hne by (intros <-; rewrite list_lookup_insert_eq in Hf1 by done; by injection Hf1 as <-).
  rewrite list_lookup_insert_ne in Hf1 by done. pose proof (lookup_lt_Some _ _ _ Hf1) as Hl1. apply wp_bind, wp_gets. simpl. destruct (list_find (λ p, p = None) (pipes fe)) as [[p y]|] eqn:E.
  - apply list_find_Some in E as (Hp & -> & _). apply wp_bind. unfold wp at 1, setpipe, modify. apply wp_bind.
    eapply wp_updf; [simpl; rewrite list_lookup_insert_ne, list_lookup_insert_eq by done; done|]. apply wp_bind. eapply wp_updf; [simpl; rewrite list_lookup_insert_ne, list_lookup_insert_eq by (rewrite ?length_insert; done); done|].
    apply wp_ret. simpl.
    assert (<[f1 := write_end p x1]> (<[f0 := read_end p x0]> (<[f1 := set_ref 1 x1]> (<[f0 := set_ref 1 x0]> (ftable fe)))) = <[f1 := write_end p x1]> (<[f0 := read_end p x0]> (ftable fe))) as Heq.
    { rewrite (list_insert_insert_ne _ f0 f1) by done. by rewrite !list_insert_insert_eq. }
    specialize (Hok f0 f1 p x0 x1). unfold set_pipes, set_ftable in *. simpl in *. unfold write_end, read_end in *. simpl in *. rewrite Heq. by apply Hok.
  - apply wp_bind. eapply wp_fileclose_none; [simpl; rewrite list_lookup_insert_ne, list_lookup_insert_eq by done; done | done | exact (Hty _ _ Hf0 Hr0)|]. intros tr2. simpl.
    apply wp_bind. eapply wp_fileclose_none; [simpl; rewrite list_lookup_insert_ne, list_lookup_insert_eq by (rewrite ?length_insert; done); done | done | exact (Hty _ _ Hf1 Hr1)|]. intros tr3. apply wp_ret. simpl.
    unfold set_ftable. simpl. rewrite (list_insert_insert_ne _ f0 f1) by done. rewrite !list_insert_insert_eq. apply Hbad.
    eapply same_files_insert; [eapply same_files_insert; [by apply same_files_refl | done | done | done] | done | done | done].
Qed.

End file.

End File.
