(* ===== verification/Sysfile.v ===== *)
(** * sysfile.c: the file system calls

    The handlers run in the process table, whose environment is here the open
    files and the file system of File.v with the user memory of the running
    process. They fetch and check their arguments and call file.c and fs.c. *)

From S2P Require Import Prelude Layout Memory Proc Signal Sched Syscall Pipe Log Block Fs FsRw File.

Module Sysfile.
Import Proc Signal Syscall Fs File LogBlocks.

(** [C("...")]: a string constant with its NUL *)
Definition cstring (s : string) : list Z := bytes s ++ [0].

Section sysfile.
Context {B : Type} {BL : BlockLayer B} {TX : TxnLayer B} {U : Type} {UM : UserMem U}.
Abbreviation fstate := (fstate (B:=B)).
Abbreviation fenv := (fenv (B:=B)).
Context (devsw_read : Z → option (nat → Z → M fstate (Z * list Z))).
Context (devsw_write : Z → option (nat → list Z → M fstate Z)).
(** What an uninitialised [char name[DIRSIZ]] holds. *)
Context (junk : list Z).
(** What a page from [kalloc] holds. *)
Context (page : list Z).

Record kenv := mk_kenv { kfile : fenv; kuser : U }.
Definition set_kfile (x : fenv) (e : kenv) : kenv := mk_kenv x (kuser e).
Definition set_kuser (x : U) (e : kenv) : kenv := mk_kenv (kfile e) x.

#[export] Program Instance kenv_mem : UserMem kenv := {|
  user_ok e := user_ok (kuser e);
  load8 e a := load8 (kuser e) a;
  store8 e a v := (λ u, set_kuser u e) <$> store8 (kuser e) a v;
|}.
Next Obligation. intros e a v. simpl. rewrite fmap_is_Some. apply store8_mapped. Qed.
Next Obligation. intros e a v e'. simpl. intros Hok (u & Hu & ->)%fmap_Some. simpl. by apply load8_store8. Qed.

#[local] Abbreviation K := (M (pstate kenv)).

(** file.c and fs.c run with the pid, working directory and [killed] flag of the
    running process. *)
Definition view (s : pstate kenv) : fenv :=
  match cur s ≫= (procs s !!.) with
  | Some p => fenv_as (pid p) (Proc.cwd p) (killed p) (kfile (env s))
  | None => kfile (env s)
  end.
Definition on_file {A} : M fenv A → K A := zoom view (λ fe s, set_env (set_kfile fe (env s)) s).
Definition on_inode {A} (m : M fstate A) : K A := on_file (on_fs m).
Definition begin_op : K unit := on_file File.begin_op.
Definition end_op : K unit := on_file File.end_op.

(** The bytes of a string argument *)
Definition argpath (n : Z) : K (option (list Z)) :=
  r ← argstr n ;
  match r with
  | None => mret None
  | Some (a, len) => l ← on_env (get_bytes a (Z.to_nat len)) ; mret (Some l)
  end.

(** ** File descriptors *)

(** The descriptor and the file *)
Definition argfd (n : Z) : K (option (nat * nat)) :=
  r ← argint n ;
  match r with
  | None => mret None
  | Some fd =>
      if (fd <? 0) || (NOFILE <=? fd) then mret None else
      '(_, p) ← curproc 40 ;
      match default None (ofile p !! Z.to_nat fd) with
      | None => mret None
      | Some f => mret (Some (Z.to_nat fd, f))
      end
  end.

(** [myproc()->ofile[fd] = f] *)
Definition set_fd (fd : nat) (f : option nat) : K unit :=
  '(i, _) ← curproc 40 ;
  updp i (λ p, set_ofile (<[fd := f]> (ofile p)) p).

Definition fdalloc (f : nat) : K (option nat) :=
  '(i, p) ← curproc 40 ;
  match list_find (λ x, x = None) (ofile p) with
  | Some (fd, _) => updp i (λ p, set_ofile (<[fd := Some f]> (ofile p)) p) ;; mret (Some fd)
  | None => mret None
  end.

Definition sys_dup : K Z :=
  r ← argfd 0 ;
  match r with
  | None => mret (-1)
  | Some (_, f) =>
      fd ← fdalloc f ;
      match fd with
      | None => mret (-1)
      | Some fd => on_file (filedup f) ;; mret (Z.of_nat fd)
      end
  end.

(** The three arguments of [read] and [write] *)
Definition argbuf : K (option (nat * Z * Z)) :=
  r ← argfd 0 ;
  match r with
  | None => mret None
  | Some (_, f) =>
      n ← argint 2 ;
      match n with
      | None => mret None
      | Some n =>
          p ← argptr 1 n ;
          match p with
          | None => mret None
          | Some p => mret (Some (f, p, n))
          end
      end
  end.

Definition sys_read : K Z :=
  r ← argbuf ;
  match r with
  | None => mret (-1)
  | Some (f, p, n) =>
      x ← on_file (fileread devsw_read f n) ;
      on_env (put_bytes p x.2) ;;
      mret x.1
  end.

Definition sys_write : K Z :=
  r ← argbuf ;
  match r with
  | None => mret (-1)
  | Some (f, p, n) =>
      src ← on_env (get_bytes p (Z.to_nat n)) ;
      on_file (filewrite devsw_write f src)
  end.

Definition sys_close : K Z :=
  r ← argfd 0 ;
  match r with
  | None => mret (-1)
  | Some (fd, f) =>
      set_fd fd None ;;
      on_file (fileclose f) ;;
      mret 0
  end.

(** Store a [struct stat], 20 bytes with padding. *)
Definition put_stat (a : Z) (st : stat) : M kenv unit :=
  put_bytes a (le16 (st_type st)) ;;
  put_word (a + 4) (st_dev st) ;;
  put_word (a + 8) (st_ino st) ;;
  put_bytes (a + 12) (le16 (st_nlink st)) ;;
  put_word (a + 16) (st_size st).

Definition sys_fstat : K Z :=
  r ← argfd 0 ;
  match r with
  | None => mret (-1)
  | Some (_, f) =>
      a ← argptr 1 20 ;
      match a with
      | None => mret (-1)
      | Some a =>
          st ← on_file (filestat f) ;
          match st with
          | None => mret (-1)
          | Some st => on_env (put_stat a st) ;; mret 0
          end
      end
  end.

(** ** Links *)

Definition set_nlink (n : Z) (i : inode) : inode :=
  let d := idata i in set_idata (mk_dinode (d_type d) (d_major d) (d_minor d) n (d_size d) (d_addrs d)) i.

(** [ip->nlink += k; iupdate(ip)] *)
Definition add_nlink (ip : nat) (k : Z) : M fstate unit :=
  updi ip (λ i, set_nlink (s16 (d_nlink (idata i) + k)) i) ;;
  iupdate ip.

(** From the label [bad] *)
Definition link_bad (ip : nat) : M fstate Z :=
  ilock ip ;;
  add_nlink ip (-1) ;;
  iunlockput ip ;;
  mret (-1).

(** [sys_link] between [begin_op] and [end_op] *)
Definition link_op (old new : list Z) : M fstate Z :=
  ip ← namei devsw_read old junk ;
  match ip with
  | None => mret (-1)
  | Some ip =>
      ilock ip ;;
      i ← geti ip ;
      if itype i =? T_DIR then iunlockput ip ;; mret (-1) else
      add_nlink ip 1 ;;
      iunlock ip ;;
      '(dp, name) ← nameiparent devsw_read new junk ;
      match dp with
      | None => link_bad ip
      | Some dp =>
          ilock dp ;;
          d ← geti dp ;
          i ← geti ip ;
          if negb (idev d =? idev i) then iunlockput dp ;; link_bad ip else
          r ← dirlink devsw_read devsw_write dp name (inum i) ;
          if r <? 0 then iunlockput dp ;; link_bad ip else
          iunlockput dp ;;
          iput ip ;;
          mret 0
      end
  end.

Definition sys_link : K Z :=
  old ← argpath 0 ;
  match old with
  | None => mret (-1)
  | Some old =>
      new ← argpath 1 ;
      match new with
      | None => mret (-1)
      | Some new =>
          begin_op ;;
          r ← on_inode (link_op old new) ;
          end_op ;;
          mret r
      end
  end.

(** The loop of [isdirempty] *)
Fixpoint isdirempty_loop (fuel : nat) (dp : nat) (off : Z) : M fstate bool :=
  i ← geti dp ;
  if isize i <=? off then mret true else
  match fuel with
  | O => undefined "isdirempty does not terminate"
  | S f =>
      de ← read_dirent devsw_read dp off "isdirempty: readi" ;
      if negb (de_inum de =? 0) then mret false else isdirempty_loop f dp (off + 16)
  end.
Definition isdirempty (dp : nat) : M fstate bool :=
  i ← geti dp ;
  isdirempty_loop (Z.to_nat (isize i / 16 + 1)) dp 32.

(** [sys_unlink] between [begin_op] and [end_op] *)
Definition unlink_op (path : list Z) : M fstate Z :=
  '(dp, name) ← nameiparent devsw_read path junk ;
  match dp with
  | None => mret (-1)
  | Some dp =>
      ilock dp ;;
      let bad := iunlockput dp ;; mret (-1) in
      if (namecmp name (cstring ".") =? 0) || (namecmp name (cstring "..") =? 0) then bad else
      r ← dirlookup devsw_read dp name ;
      match r with
      | None => bad
      | Some (ip, off) =>
          ilock ip ;;
          i ← geti ip ;
          if d_nlink (idata i) <? 1 then panic "unlink: nlink < 1" else
          e ← (if itype i =? T_DIR then isdirempty ip else mret true) ;
          if negb e then iunlockput ip ;; bad else
          n ← writei devsw_write dp (replicate 16 0) off ;
          if negb (n =? 16) then panic "unlink: writei" else
          when (itype i =? T_DIR) (add_nlink dp (-1)) ;;
          iunlockput dp ;;
          add_nlink ip (-1) ;;
          iunlockput ip ;;
          mret 0
      end
  end.

Definition sys_unlink : K Z :=
  path ← argpath 0 ;
  match path with
  | None => mret (-1)
  | Some path =>
      begin_op ;;
      r ← on_inode (unlink_op path) ;
      end_op ;;
      mret r
  end.

(** ** Creating and opening *)

(** The new inode is returned locked. *)
Definition create (path : list Z) (type major minor : Z) : M fstate (option nat) :=
  '(dp, name) ← nameiparent devsw_read path junk ;
  match dp with
  | None => mret None
  | Some dp =>
      ilock dp ;;
      r ← dirlookup devsw_read dp name ;
      match r with
      | Some (ip, _) =>
          iunlockput dp ;;
          ilock ip ;;
          i ← geti ip ;
          if (type =? T_FILE) && (itype i =? T_FILE) then mret (Some ip)
          else iunlockput ip ;; mret None
      | None =>
          d ← geti dp ;
          ip ← ialloc (idev d) type ;
          ilock ip ;;
          updi ip (λ i, let e := idata i in set_idata (mk_dinode (d_type e) (s16 major) (s16 minor) 1 (d_size e) (d_addrs e)) i) ;;
          iupdate ip ;;
          i ← geti ip ;
          when (type =? T_DIR)
            (add_nlink dp 1 ;;
             r1 ← dirlink devsw_read devsw_write ip (cstring ".") (inum i) ;
             if r1 <? 0 then panic "create dots" else
             r2 ← dirlink devsw_read devsw_write ip (cstring "..") (inum d) ;
             if r2 <? 0 then panic "create dots" else mret ()) ;;
          r ← dirlink devsw_read devsw_write dp name (inum i) ;
          if r <? 0 then panic "create: dirlink" else
          iunlockput dp ;;
          mret (Some ip)
      end
  end.

(** The inode that [sys_open] opens, locked. *)
Definition open_inode (path : list Z) (omode : Z) : M fstate (option nat) :=
  if truth (Z.land omode O_CREATE) then create path T_FILE 0 0 else
  ip ← namei devsw_read path junk ;
  match ip with
  | None => mret None
  | Some ip =>
      ilock ip ;;
      i ← geti ip ;
      if (itype i =? T_DIR) && negb (omode =? O_RDONLY) then iunlockput ip ;; mret None
      else mret (Some ip)
  end.

Definition sys_open : K Z :=
  path ← argpath 0 ;
  match path with
  | None => mret (-1)
  | Some path =>
      omode ← argint 1 ;
      match omode with
      | None => mret (-1)
      | Some omode =>
          begin_op ;;
          ip ← on_inode (open_inode path omode) ;
          match ip with
          | None => end_op ;; mret (-1)
          | Some ip =>
              f ← on_file filealloc ;
              match f with
              | None => on_inode (iunlockput ip) ;; end_op ;; mret (-1)
              | Some f =>
                  fd ← fdalloc f ;
                  match fd with
                  | None =>
                      on_file (fileclose f) ;;
                      on_inode (iunlockput ip) ;;
                      end_op ;;
                      mret (-1)
                  | Some fd =>
                      on_inode (iunlock ip) ;;
                      end_op ;;
                      let r := if truth (Z.land omode O_WRONLY) then 0 else 1 in
                      let w := if truth (Z.land omode O_WRONLY) || truth (Z.land omode O_RDWR) then 1 else 0 in
                      on_file (updf f (λ x, mk_file FD_INODE (ref x) r w (fpipe x) ip 0)) ;;
                      mret (Z.of_nat fd)
                  end
              end
          end
      end
  end.

Definition sys_mkdir : K Z :=
  begin_op ;;
  path ← argpath 0 ;
  ip ← (match path with None => mret None | Some path => on_inode (create path T_DIR 0 0) end) ;
  match ip with
  | None => end_op ;; mret (-1)
  | Some ip => on_inode (iunlockput ip) ;; end_op ;; mret 0
  end.

Definition sys_mknod : K Z :=
  begin_op ;;
  path ← argpath 0 ;
  major ← (match path with None => mret None | Some _ => argint 1 end) ;
  minor ← (match major with None => mret None | Some _ => argint 2 end) ;
  ip ← (match path, major, minor with
        | Some path, Some major, Some minor => on_inode (create path T_DEV major minor)
        | _, _, _ => mret None
        end) ;
  match ip with
  | None => end_op ;; mret (-1)
  | Some ip => on_inode (iunlockput ip) ;; end_op ;; mret 0
  end.

Definition sys_chdir : K Z :=
  '(i, p) ← curproc 104 ;
  begin_op ;;
  path ← argpath 0 ;
  ip ← (match path with None => mret None | Some path => on_inode (namei devsw_read path junk) end) ;
  match ip with
  | None => end_op ;; mret (-1)
  | Some ip =>
      on_inode (ilock ip) ;;
      x ← on_inode (geti ip) ;
      if negb (itype x =? T_DIR) then on_inode (iunlockput ip) ;; end_op ;; mret (-1) else
      on_inode (iunlock ip) ;;
      match Proc.cwd p with Some c => on_inode (iput c) | None => undefined "null inode" end ;;
      end_op ;;
      updp i (set_cwd (Some ip)) ;;
      mret 0
  end.

(** [exec(path, argv)] of exec.c *)
Context (exec : list Z → list (list Z) → K Z).

(** The loop of [sys_exec] over the pointers at [uargv]; [fuel] entries of
    [argv] are left. *)
Fixpoint exec_args (fuel : nat) (uargv : Z) (argv : list (list Z)) : K (option (list (list Z))) :=
  match fuel with
  | O => mret None
  | S f =>
      r ← fetchint (u32 (uargv + 4 * length argv)) ;
      match r with
      | None => mret None
      | Some uarg =>
          if uarg =? 0 then mret (Some argv) else
          l ← fetchstr (u32 uarg) ;
          match l with
          | None => mret None
          | Some len => a ← on_env (get_bytes (u32 uarg) (Z.to_nat len)) ; exec_args f uargv (argv ++ [a])
          end
      end
  end.

Definition sys_exec : K Z :=
  path ← argpath 0 ;
  match path with
  | None => mret (-1)
  | Some path =>
      uargv ← argint 1 ;
      match uargv with
      | None => mret (-1)
      | Some uargv =>
          argv ← exec_args (Z.to_nat MAXARG) (u32 uargv) [] ;
          match argv with
          | None => mret (-1)
          | Some argv => exec path argv
          end
      end
  end.

Definition sys_pipe : K Z :=
  fd ← argptr 0 8 ;
  match fd with
  | None => mret (-1)
  | Some fd =>
      r ← on_file (pipealloc page) ;
      match r with
      | None => mret (-1)
      | Some (rf, wf) =>
          fd0 ← fdalloc rf ;
          match fd0 with
          | None => on_file (fileclose rf) ;; on_file (fileclose wf) ;; mret (-1)
          | Some fd0 =>
              fd1 ← fdalloc wf ;
              match fd1 with
              | None => set_fd fd0 None ;; on_file (fileclose rf) ;; on_file (fileclose wf) ;; mret (-1)
              | Some fd1 =>
                  on_env (put_word fd (Z.of_nat fd0)) ;;
                  on_env (put_word (fd + 4) (Z.of_nat fd1)) ;;
                  mret 0
              end
          end
      end
  end.

(** ** Pipes and descriptors *)

Section at_proc.
Context (s : pstate kenv) (i : nat) (Hcur : cur s = Some i) (Hi : (i < length (procs s))%nat).

Definition viewp (p : proc) (e : kenv) : fenv := fenv_as (pid p) (Proc.cwd p) (killed p) (kfile e).

Lemma wp_on_file {A} (m : M fenv A) p e (Q : A → pstate kenv → list event → Prop) :
  wp m (viewp p e) (λ a fe tr, Q a (at_proc s i p (set_kfile fe e)) tr) → wp (on_file m) (at_proc s i p e) Q.
Proof using Hcur Hi.
  intros Hm. apply wp_zoom. assert (view (at_proc s i p e) = viewp p e) as ->; [|exact Hm].
  unfold view, at_proc. simpl. rewrite Hcur. simpl. by rewrite list_lookup_insert_eq.
Qed.

Lemma wp_curproc_at p e off (Q : nat * proc → pstate kenv → list event → Prop) :
  Q (i, p) (at_proc s i p e) [ECli] → wp (curproc off) (at_proc s i p e) Q.
Proof using Hcur Hi.
  intros HQ. unfold curproc. apply wp_bind, wp_myproc. simpl. rewrite Hcur. apply wp_bind, wp_ret, wp_bind, wp_getp_at; [done|]. by apply wp_ret.
Qed.

Lemma wp_fdalloc p e f (Q : option nat → pstate kenv → list event → Prop) :
  (∀ fd tr, ofile p !! fd = Some None → Q (Some fd) (at_proc s i (set_ofile (<[fd := Some f]> (ofile p)) p) e) tr) →
  (∀ tr, None ∉ ofile p → Q None (at_proc s i p e) tr) → wp (fdalloc f) (at_proc s i p e) Q.
Proof using Hcur Hi.
  intros H1 H2. unfold fdalloc. apply wp_bind, wp_curproc_at. destruct (list_find (λ x, x = None) (ofile p)) as [[fd y]|] eqn:E1.
  - apply list_find_Some in E1 as (Hfd & -> & _). apply wp_bind, wp_updp_at; [done|]. apply wp_ret. by apply H1.
  - apply list_find_None in E1. apply wp_ret, H2. intros Hin. rewrite Forall_forall in E1. by apply (E1 None).
Qed.

(** The failure of [sys_pipe] after the pipe was made: both files are closed,
    and with them the pipe. *)
Lemma wp_unpipe p e f0 f1 k x0 x1 (Q : Z → pstate kenv → list event → Prop) :
  types_ok (ftable (kfile e)) → f0 ≠ f1 → ftable (kfile e) !! f0 = Some x0 → ref x0 = 0 → ftable (kfile e) !! f1 = Some x1 → ref x1 = 0 → pipes (kfile e) !! k = Some None →
  (∀ e' tr, same_files (ftable (kfile e)) (ftable (kfile e')) → pipes (kfile e') = pipes (kfile e) → kuser e' = kuser e → Q (-1) (at_proc s i p e') tr) →
  wp (on_file (fileclose f0) ;; on_file (fileclose f1) ;; mret (-1))
    (at_proc s i p (set_kfile (set_pipes (<[k := Some (Pipe.new_pipe page)]> (pipes (kfile e)))
      (set_ftable (<[f1 := write_end k x1]> (<[f0 := read_end k x0]> (ftable (kfile e)))) (viewp p e))) e)) Q.
Proof using Hcur Hi.
  intros Hty Hne Hf0 Hr0 Hf1 Hr1 Hk HQ. pose proof (lookup_lt_Some _ _ _ Hf0) as Hl0. pose proof (lookup_lt_Some _ _ _ Hf1) as Hl1. pose proof (lookup_lt_Some _ _ _ Hk) as Hlk.
  apply wp_bind, wp_on_file. eapply wp_fileclose_pipe; [simpl; rewrite list_lookup_insert_ne, list_lookup_insert_eq by done; done | done | done | by apply list_lookup_insert_eq|]. intros tr. simpl.
  apply wp_bind, wp_on_file. eapply wp_fileclose_pipe; [simpl; rewrite list_lookup_insert_ne, list_lookup_insert_eq by (rewrite ?length_insert; done); done | done | done | simpl; apply list_lookup_insert_eq; by rewrite length_insert|].
  intros tr'. simpl. apply wp_ret. apply HQ; [|simpl; rewrite !list_insert_insert_eq; by apply list_insert_id | done]. simpl.
  rewrite (list_insert_insert_ne _ f0 f1) by done. rewrite !list_insert_insert_eq.
  eapply same_files_insert; [eapply same_files_insert; [by apply same_files_refl | done | done | done] | done | done | done].
Qed.

End at_proc.

(** A word stored for the user leaves the files alone. *)
Lemma wp_put_user l : ∀ (e : kenv) a (Q : unit → kenv → list event → Prop),
  0 ≤ a → a + length l ≤ 2 ^ 32 → mapped e a (length l) → (∀ e', loads_as e e' a l → kfile e' = kfile e → Q () e' []) → wp (put_bytes a l) e Q.
Proof using Type.
  intros e a Q H1 H2 H3 HQ. pose proof (wp_put_bytes l e a H1 H2 H3) as Hw. unfold wp in *.
  assert (match put_bytes a l e with Ok _ e' _ => kfile e' = kfile e | _ => True end) as Hk.
  { clear. revert e a. induction l as [|b l IH]; intros e a; [done|]. cbn. destruct (store8 (kuser e) a b) as [u|]; [|done]. apply (IH (set_kuser u e)). }
  destruct (put_bytes a l e) as [[] e' tr| |]; [|done..]. destruct Hw as [-> Hw]. by apply HQ.
Qed.

(** What [pipe] has done when it returns 0: two unused descriptors are the read
    end and the write end of a new pipe, and their numbers are stored at [a]. *)
Definition piped (p : proc) (e : kenv) (p' : proc) (e' : kenv) : Prop :=
  ∃ a fd0 fd1 f0 f1 k x0 x1,
    0 ≤ a ∧ a + 8 ≤ sz p ∧ fd0 ≠ fd1 ∧ ofile p !! fd0 = Some None ∧ ofile p !! fd1 = Some None ∧
    p' = set_ofile (<[fd1 := Some f1]> (<[fd0 := Some f0]> (ofile p))) p ∧
    f0 ≠ f1 ∧ ftable (kfile e) !! f0 = Some x0 ∧ ref x0 = 0 ∧ ftable (kfile e) !! f1 = Some x1 ∧ ref x1 = 0 ∧
    ftable (kfile e') = <[f1 := write_end k x1]> (<[f0 := read_end k x0]> (ftable (kfile e))) ∧
    pipes (kfile e) !! k = Some None ∧ pipes (kfile e') = <[k := Some (Pipe.new_pipe page)]> (pipes (kfile e)) ∧
    loads_as e e' a (le32 (Z.of_nat fd0) ++ le32 (Z.of_nat fd1)).

(** C26: [pipe] is all or nothing: whatever its argument, with any number of
    files, pages and descriptors left, it returns without a fault; either it
    returns 0 and two unused descriptors are the two ends of one new pipe, with
    their numbers in the user's array, or it returns -1 and the descriptors, the
    open files, the pipes and the user's memory are as they were, nothing that
    was allocated on the way having leaked. *)
Theorem sys_pipe_all_or_nothing (s : pstate kenv) i p :
  running s i p → types_ok (ftable (kfile (env s))) →
  wp sys_pipe s (λ r s' _, ∃ p' e', s' = at_proc s i p' e' ∧
    ((r = 0 ∧ piped p (env s) p' e') ∨
     (r = -1 ∧ p' = p ∧ same_files (ftable (kfile (env s))) (ftable (kfile e')) ∧ pipes (kfile e') = pipes (kfile (env s)) ∧ kuser e' = kuser (env s)))).
Proof using Type.
  intros Hrun Hty. pose proof Hrun as (Hcur & Hp & Hsz & Hm). change KERNBASE with (2 ^ 31) in Hsz. pose proof (lookup_lt_Some _ _ _ Hp) as Hi. set (e := env s) in *.
  match goal with |- wp _ _ ?Q => set (Post := Q) end. assert (s = at_proc s i p e) as Hs by (by apply at_proc_id).
  assert (∀ e' tr, same_files (ftable (kfile e)) (ftable (kfile e')) → pipes (kfile e') = pipes (kfile e) → kuser e' = kuser e → Post (-1) (at_proc s i p e') tr) as Hbad.
  { intros e' tr H1 H2 H3. exists p, e'. split; [done|]. right. done. }
  unfold sys_pipe. apply wp_bind. eapply wp_mono; [exact (wp_argptr s i p 0 8 Hrun ltac:(lia))|]. intros [a|] s0 tr0 [-> Ha].
  2: { apply wp_ret. exists p, e. split; [done|]. right. split; [done|]. split; [done|]. split; [by apply same_files_refl | done]. }
  destruct (Ha a eq_refl) as (Ha0 & _ & _ & Ha1). refine (eq_ind_r (λ x, wp _ x (λ b s2 t2, Post b s2 (tr0 ++ t2))) _ Hs). apply wp_bind, wp_on_file; [done | done|]. apply wp_pipealloc; [done | |].
  2: { intros ft' tr Hsf. apply wp_ret. by apply Hbad. }
  intros f0 f1 k x0 x1 tr1 Hne Hf0 Hr0 Hf1 Hr1 Hk. apply wp_bind, wp_fdalloc; [done | done | |].
  2: { intros tr2 _. by eapply wp_unpipe. }
  intros fd0 tr2 Hfd0. apply wp_bind, wp_fdalloc; [done | done | |].
  2: { intros tr3 _. apply wp_bind. unfold set_fd. apply wp_bind, wp_curproc_at; [done | done|]. apply wp_updp_at; [done|]. simpl ofile. rewrite list_insert_insert_eq, list_insert_id by done.
       replace (set_ofile (ofile p) (set_ofile (<[fd0 := Some f0]> (ofile p)) p)) with p by (by destruct p). by eapply wp_unpipe. }
  intros fd1 tr3 Hfd1. simpl in Hfd1. assert (fd0 ≠ fd1) as Hfd.
  { intros <-. rewrite list_lookup_insert_eq in Hfd1 by (by eapply lookup_lt_Some). done. }
  rewrite list_lookup_insert_ne in Hfd1 by done. set (e1 := set_kfile _ e).
  apply wp_bind, wp_env_at, wp_put_user; [done | simpl; lia | eapply mapped_sub; [exact Hm | simpl; lia..]|]. intros e2 He2 Hk2.
  apply wp_bind, wp_env_at, wp_put_user; [lia | simpl; lia | |].
  { eapply loads_as_mapped; [exact He2|]. eapply mapped_sub; [exact Hm | simpl; lia..]. }
  intros e3 He3 Hk3. apply wp_ret. do 2 eexists. split; [reflexivity|]. left. split; [done|]. rewrite Hk2 in Hk3.
  exists a, fd0, fd1, f0, f1, k, x0, x1. rewrite Hk3. do 14 (split; [done|]). exact (loads_as_app_up e1 e2 e3 a _ _ (a + 4) He2 He3 eq_refl).
Qed.

End sysfile.

(** A process with descriptor 0 open, two of three files unused and one page
    left; the argument of the call is the address 0. *)
Definition ex_kproc : proc := set_ofile (Some 0%nat :: replicate 15 None) (set_sz 0x4000 (ex_proc 0 0)).
Definition ex_kstate : pstate (kenv (B:=Log.lstate) (U:=flat)) :=
  mk_pstate [ex_kproc] 8 None (Some 0%nat) false
    (mk_kenv (mk_fenv FsRw.ex_fs [mk_file FD_INODE 1 1 1 0 0 0; mk_file FD_NONE 0 0 0 0 0 0; mk_file FD_NONE 0 0 0 0 0 0] [None] 0) (λ _, Some 0)).

Lemma sys_pipe_all_or_nothing_witness :
  wp (sys_pipe []) ex_kstate (λ r s' _, r = 0 ∧ ∃ p' e', s' = at_proc ex_kstate 0 p' e' ∧ piped [] ex_kproc (env ex_kstate) p' e').
Proof.
  assert (match sys_pipe [] ex_kstate with Ok r _ _ => r = 0 | _ => False end) as Hr by (vm_compute; reflexivity).
  assert (types_ok (ftable (kfile (env ex_kstate)))) as Ht by (intros [|[|[|f]]] x [= <-] Hx; done).
  assert (running ex_kstate 0 ex_kproc) as Hrun.
  { split; [done|]. split; [done|]. split; [by vm_compute|]. split; [done|]. by intros x _. }
  pose proof (sys_pipe_all_or_nothing [] ex_kstate 0 ex_kproc Hrun Ht) as Hw. unfold wp in *.
  destruct (sys_pipe [] ex_kstate) as [r s' tr| |]; [|done..]. subst r. split; [done|].
  destruct Hw as (p' & e' & -> & [[_ Hpd]|[? _]]); [|done]. by exists p', e'.
Defined.

End Sysfile.
