(* ===== verification/Exec.v ===== *)
(** * exec.c: loading a program

    [exec] with its ELF headers, [loaduvm] of vm.c, and the initial stack of the
    program. The state is that of the file system calls on the machine of
    Machine.v. The theorems: the program finds [argc] and [argv] where its [main]
    expects them, and [exec] changes the caller alone in the process table; what
    it does to memory is in ExecImage.v. *)

From S2P Require Import Prelude Layout Memory Cstring Kalloc Vm Proc Signal Sched Syscall Block Fs File Sysfile Machine.

Module Exec.
Import Kalloc Vm Proc Signal Machine.

(** ** elf.h *)

Definition ELF_MAGIC : Z := 0x464C457F.
Definition ELF_PROG_LOAD : Z := 1.

Record elfhdr := mk_elfhdr {
  magic : Z; e_type : Z; machine : Z; version : Z; entry : Z; phoff : Z; shoff : Z; eflags : Z;
  ehsize : Z; phentsize : Z; phnum : Z; shentsize : Z; shnum : Z; shstrndx : Z;
}.
Record proghdr := mk_proghdr {
  p_type : Z; p_off : Z; vaddr : Z; paddr : Z; filesz : Z; memsz : Z; p_flags : Z; p_align : Z;
}.

(** The 52 and 32 bytes of the headers: words and half words *)
Definition elfhdr_of (l : list Z) : elfhdr :=
  let w k := u32 (word_at l k) in let h k := u16 (half_at l k) in
  mk_elfhdr (w 0%nat) (h 8%nat) (h 9%nat) (w 5%nat) (w 6%nat) (w 7%nat) (w 8%nat) (w 9%nat)
    (h 20%nat) (h 21%nat) (h 22%nat) (h 23%nat) (h 24%nat) (h 25%nat).
Definition proghdr_of (l : list Z) : proghdr :=
  let w k := u32 (word_at l k) in
  mk_proghdr (w 0%nat) (w 1%nat) (w 2%nat) (w 3%nat) (w 4%nat) (w 5%nat) (w 6%nat) (w 7%nat).

(** ** The stack of the new program *)

Section stack.
Context (kend : Z).

(** The loop over [argv]: the stack pointer and the addresses of the strings,
    [ustack[3..]]. *)
Fixpoint push_args (pgdir sp : Z) (argv : list (list Z)) (ptrs : list Z) : M kmem (option (Z * list Z)) :=
  match argv with
  | [] => mret (Some (sp, ptrs))
  | a :: argv =>
      if (MAXARG <=? length ptrs)%nat then mret None else
      let sp := Z.land (u32 (sp - (length a + 1))) 0xFFFFFFFC in
      r ← copyout pgdir sp (a ++ [0]) ;
      if r <? 0 then mret None else push_args pgdir sp argv (ptrs ++ [sp])
  end.

(** From the end [sz] of the program to the stack pointer: the new size and the
    stack pointer. *)
Definition exec_stack (pgdir sz : Z) (argv : list (list Z)) : M kmem (option (Z * Z)) :=
  let sz := PGROUNDUP sz in
  sz ← allocuvm kend pgdir sz (u32 (sz + 2 * PGSIZE)) ;
  if sz =? 0 then mret None else
  clearpteu pgdir (u32 (sz - 2 * PGSIZE)) ;;
  r ← push_args pgdir sz argv [] ;
  match r with
  | None => mret None
  | Some (sp, ptrs) =>
      let argc := Z.of_nat (length ptrs) in
      let ustack := [0xffffffff; argc; u32 (sp - (argc + 1) * 4)] ++ ptrs ++ [0] in
      let sp := u32 (sp - (3 + argc + 1) * 4) in
      r ← copyout pgdir sp (concat (le32 <$> ustack)) ;
      if r <? 0 then mret None else mret (Some (sz, sp))
  end.
End stack.

(** ** exec *)

Create HintDb outside.

Section exec.
Context (kend kdata : Z).
Context {B : Type} {BL : BlockLayer B} {TX : TxnLayer B}.
Abbreviation fstate := (Fs.fstate (B:=B)).
Abbreviation kenv := (Sysfile.kenv (B:=B) (U:=Machine.machine)).
(** Only its [lcr3] is used. *)
Context {PE : ProcEnv kenv}.
Context (devsw_read : Z → option (nat → Z → M fstate (Z * list Z))).
Context (junk : list Z).
#[local] Abbreviation K := (M (pstate kenv)).

Definition on_mem {A} (m : M kmem A) : K A := on_env (zoom Sysfile.kuser Sysfile.set_kuser (zoom mm set_mm m)).
Definition on_inode {A} (m : M fstate A) : K A := Sysfile.on_inode m.
Definition readi (ip : nat) (off n : Z) : K (Z * list Z) := on_inode (Fs.readi devsw_read ip off n).

(** The loop of [loaduvm]; [fuel] bounds the pages. *)
Fixpoint loaduvm_loop (fuel : nat) (pgdir addr : Z) (ip : nat) (offset sz i : Z) : K Z :=
  if sz <=? i then mret 0 else
  match fuel with
  | O => undefined "loaduvm does not terminate"
  | S f =>
      pte ← on_mem (walkpgdir pgdir (u32 (addr + i)) false) ;
      if pte =? 0 then panic "loaduvm: address should exist" else
      e ← on_mem (ld pte) ;
      let pa := PTE_ADDR e in
      let n := if sz - i <? PGSIZE then sz - i else PGSIZE in
      '(r, data) ← readi ip (u32 (offset + i)) n ;
      on_mem (modify (λ s, set_mem (write_bytes (kmemory s) (P2V pa) data) s)) ;;
      if negb (r =? n) then mret (-1) else loaduvm_loop f pgdir addr ip offset sz (u32 (i + PGSIZE))
  end.

Definition loaduvm (pgdir addr : Z) (ip : nat) (offset sz : Z) : K Z :=
  if negb (addr mod PGSIZE =? 0) then panic "loaduvm: addr must be page aligned" else
  loaduvm_loop (Z.to_nat (sz / PGSIZE + 1)) pgdir addr ip offset sz 0.

(** The loop over the program headers: the size of the program. *)
Fixpoint load_segments (n : nat) (ip : nat) (pgdir off sz : Z) : K (option Z) :=
  match n with
  | O => mret (Some sz)
  | S n =>
      '(r, data) ← readi ip (u32 off) 32 ;
      if negb (r =? 32) then mret None else
      let ph := proghdr_of data in
      if negb (p_type ph =? ELF_PROG_LOAD) then load_segments n ip pgdir (off + 32) sz else
      if memsz ph <? filesz ph then mret None else
      if u32 (vaddr ph + memsz ph) <? vaddr ph then mret None else
      sz ← on_mem (allocuvm kend pgdir sz (u32 (vaddr ph + memsz ph))) ;
      if sz =? 0 then mret None else
      if negb (vaddr ph mod PGSIZE =? 0) then mret None else
      r ← loaduvm pgdir (vaddr ph) ip (p_off ph) (filesz ph) ;
      if r <? 0 then mret None else load_segments n ip pgdir (off + 32) sz
  end.

(** The label [bad]: [ip] is there until it has been unlocked, [pgdir] once
    there is one. *)
Definition exec_bad (pgdir : Z) (ip : option nat) : K Z :=
  when (truth pgdir) (on_mem (freevm kend pgdir)) ;;
  match ip with
  | Some ip => on_inode (Fs.iunlockput ip) ;; Sysfile.end_op
  | None => mret ()
  end ;;
  mret (-1).

(** [last]: what follows the last slash *)
Fixpoint last_elem (last s : list Z) : list Z :=
  match s with
  | [] => last
  | c :: s => last_elem (if c =? 47 then s else last) s
  end.

(** A handler of the old program is not one of the new. *)
Definition reset_handler (h : Z) : Z :=
  if negb (h =? SIG_DFL) && negb (h =? SIG_IGN) then SIG_DFL else h.

(** From "Save program name" to the end. *)
Definition exec_commit (i : nat) (path : list Z) (pgdir' sz' eip' sp : Z) : K Z :=
  updp i (Sched.copy_name (last_elem path path ++ [0])) ;;
  p ← getp i ;
  let oldpgdir := pgdir p in
  updp i (set_pgdir pgdir') ;;
  updp i (set_sz sz') ;;
  updp i (λ p, set_tf (set_eip eip' (tf p)) p) ;;
  updp i (λ p, set_tf (set_esp sp (tf p)) p) ;;
  updp i (λ p, set_signal_handlers (reset_handler <$> signal_handlers p) p) ;;
  Sched.switchuvm (Some i) ;;
  on_mem (freevm kend oldpgdir) ;;
  mret 0.

Definition exec (path : list Z) (argv : list (list Z)) : K Z :=
  np ← myproc ;
  Sysfile.begin_op ;;
  ip ← on_inode (Fs.namei devsw_read path junk) ;
  match ip with
  | None =>
      Sysfile.end_op ;;
      cprintf "exec: fail\n" [] ;;
      mret (-1)
  | Some ip =>
      on_inode (Fs.ilock ip) ;;
      '(r, data) ← readi ip 0 52 ;
      if negb (r =? 52) then exec_bad 0 (Some ip) else
      let elf := elfhdr_of data in
      if negb (magic elf =? ELF_MAGIC) then exec_bad 0 (Some ip) else
      pgdir ← on_mem (setupkvm kend kdata) ;
      if pgdir =? 0 then exec_bad 0 (Some ip) else
      sz ← load_segments (Z.to_nat (phnum elf)) ip pgdir (phoff elf) 0 ;
      match sz with
      | None => exec_bad pgdir (Some ip)
      | Some sz =>
          on_inode (Fs.iunlockput ip) ;;
          Sysfile.end_op ;;
          r ← on_mem (exec_stack kend pgdir sz argv) ;
          match r with
          | None => exec_bad pgdir None
          | Some (sz, sp) => i ← deref np 108 ; exec_commit i path pgdir sz (entry elf) sp
          end
      end
  end.

(** ** The process table *)

(** The operation changes the memory and the files, not the process table. *)
Definition outside {A} (m : K A) : Prop :=
  ∀ s, hoare True m s (λ _ s', ∃ e, s' = set_env e s) (λ s', ∃ e, s' = set_env e s).

Lemma outside_ret {A} (a : A) : outside (mret a).
Proof. intros s. exists (env s). by destruct s. Qed.
Lemma outside_emit e : outside (emit e).
Proof. intros s. exists (env s). by destruct s. Qed.
Lemma outside_panic {A} msg : outside (panic (A := A) msg).
Proof. by intros s. Qed.
Lemma outside_undefined {A} msg : outside (undefined (A := A) msg).
Proof. by intros s. Qed.
Lemma outside_bind {A A'} (m : K A) (k : A → K A') : outside m → (∀ a, outside (k a)) → outside (m ≫= k).
Proof.
  intros Hm Hk s. apply hoare_bind. eapply hoare_mono; [apply Hm| |done]. intros a s1 [e1 ->].
  eapply hoare_mono; [apply Hk|..]; [intros a' s2 [e2 ->] | intros s2 [e2 ->]]; by exists e2.
Qed.
Lemma outside_zoom {T A} (get : pstate kenv → T) f (m : M T A) : outside (zoom get (λ t s, set_env (f t s) s) m).
Proof. intros s. unfold hoare, zoom. destruct (m (get s)); [by eexists.. | done]. Qed.
Lemma outside_on_mem {A} (m : M kmem A) : outside (on_mem m).
Proof. apply (outside_zoom env (λ t _, t)). Qed.
Lemma outside_on_inode {A} (m : M fstate A) : outside (on_inode m).
Proof. apply outside_zoom. Qed.
Lemma outside_begin_op : outside Sysfile.begin_op.
Proof. apply outside_zoom. Qed.
Lemma outside_end_op : outside Sysfile.end_op.
Proof. apply outside_zoom. Qed.

Hint Resolve outside_ret outside_emit outside_panic outside_undefined outside_on_mem outside_on_inode outside_begin_op outside_end_op : outside.
Ltac outside_step :=
  lazymatch goal with
  | |- outside (mbind _ _) => apply outside_bind; [|intros ?]
  | |- outside (match ?x with _ => _ end) => destruct x
  | |- outside (when ?x _) => destruct x; simpl when
  | |- outside (cprintf _ _) => apply outside_emit
  | _ => solve [auto with outside]
  end.
Ltac outside := repeat outside_step.

Lemma outside_loaduvm pgdir addr ip offset sz : outside (loaduvm pgdir addr ip offset sz).
Proof.
  unfold loaduvm. outside. generalize (Z.to_nat (sz / PGSIZE + 1)) as fuel. intros fuel. generalize 0.
  induction fuel as [|fuel IH]; intros i; cbn [loaduvm_loop]; unfold readi; outside.
Qed.
Hint Resolve outside_loaduvm : outside.

Lemma outside_load_segments n : ∀ ip pgdir off sz, outside (load_segments n ip pgdir off sz).
Proof. induction n as [|n IH]; intros; cbn [load_segments]; unfold readi; outside. Qed.
Lemma outside_exec_bad pgdir ip : outside (exec_bad pgdir ip).
Proof. unfold exec_bad. outside. Qed.
Hint Resolve outside_load_segments outside_exec_bad : outside.

(** The process once the new program is in place *)
Definition started (path : list Z) (pgdir' sz' eip' sp : Z) (p : proc) : proc :=
  set_signal_handlers (reset_handler <$> signal_handlers p)
    (set_tf (set_esp sp (set_eip eip' (tf p)))
      (set_sz sz' (set_pgdir pgdir' (Sched.copy_name (last_elem path path ++ [0]) p)))).

Lemma hoare_outside {A A'} (m : K A) (k : A → K A') e s (Q : A' → pstate kenv → Prop) (G : pstate kenv → Prop) :
  outside m → (∀ e', G (set_env e' s)) → (∀ a e', hoare True (k a) (set_env e' s) Q G) → hoare True (m ≫= k) (set_env e s) Q G.
Proof.
  intros Hm HB Hk. apply hoare_bind. eapply hoare_mono; [apply Hm|..]; [intros a s' [e' ->] | intros s' [e' ->]]; [apply (Hk a e') | apply HB].
Qed.

Lemma hoare_exec_commit i path pgdir' sz' eip' sp s p (G : pstate kenv → Prop) :
  procs s !! i = Some p → (∀ e, G (at_proc s i (started path pgdir' sz' eip' sp p) e)) →
  hoare True (exec_commit i path pgdir' sz' eip' sp) s
    (λ r s', r = 0 ∧ ∃ e, s' = at_proc s i (started path pgdir' sz' eip' sp p) e) G.
Proof.
  intros Hp HB. pose proof (lookup_lt_Some _ _ _ Hp) as Hi. unfold exec_commit. rewrite (at_proc_id s i p Hp) at 1. unfold Sched.switchuvm, on_mem.
  repeat slot_step. match goal with |- hoare _ _ (at_proc s i ?q _) _ _ => change q with (started path pgdir' sz' eip' sp p); set (p' := started _ _ _ _ _ _) in * end.
  destruct (kstack p' =? 0); [done|]. destruct (pgdir p' =? 0); [done|]. repeat slot_step. unfold hoare at 1. destruct (env_lcr3 _ _) as [? e1 ?|? e1 ?|]; [|apply HB | done].
  repeat slot_step. unfold hoare at 1. destruct (zoom _ _ _ e1) as [? e2 ?|? e2 ?|]; [|apply HB | done]. apply hoare_ret. split; [done|]. by eexists.
Qed.

(** Of the processes, at most the caller has changed. *)
Definition exec_outcome (path : list Z) (s : pstate kenv) (i : nat) (p : proc) (r : Z) (s' : pstate kenv) : Prop :=
  (r = -1 ∧ ∃ e, s' = set_env e s) ∨
  (r = 0 ∧ ∃ pgdir' sz' eip' sp e, pgdir' ≠ 0 ∧ s' = at_proc s i (started path pgdir' sz' eip' sp p) e).

Lemma hoare_exec path argv s i p :
  cur s = Some i → procs s !! i = Some p →
  hoare True (exec path argv) s (exec_outcome path s i p) (λ s', ∃ r, exec_outcome path s i p r s').
Proof.
  intros Hc Hp. set (G := λ s', ∃ r, exec_outcome path s i p r s'). assert (∀ e, G (set_env e s)) as HG by (intros e; exists (-1); left; eauto).
  assert (∀ e pgdir ip, hoare True (exec_bad pgdir ip) (set_env e s) (exec_outcome path s i p) G) as Hbad.
  { intros e pgdir ip. unfold exec_bad. repeat (apply hoare_outside; [outside | done | intros ??]). apply hoare_ret. left. eauto. }
  assert (s = set_env (env s) s) as Hs by (by destruct s). rewrite Hs at 1. unfold exec, myproc. apply hoare_bind, hoare_bind, hoare_emit, hoare_gets. simpl cur. rewrite Hc.
  apply hoare_outside; [outside | done | intros _ e1]. apply hoare_outside; [outside | done | intros ip e2]. destruct ip as [ip|].
  2: { do 2 (apply hoare_outside; [outside | done | intros ??]). apply hoare_ret. left. eauto. }
  apply hoare_outside; [outside | done | intros _ e3]. apply hoare_outside; [unfold readi; outside | done | intros [r data] e4].
  destruct (negb _); [apply Hbad|]. destruct (negb _); [apply Hbad|]. apply hoare_outside; [outside | done | intros pgdir e5]. destruct (Z.eqb_spec pgdir 0) as [_|Hd]; [apply Hbad|].
  apply hoare_outside; [outside | done | intros sz e6]. destruct sz as [sz|]; [|apply Hbad]. do 2 (apply hoare_outside; [outside | done | intros ??]).
  apply hoare_outside; [outside | done | intros st e9]. destruct st as [[sz' sp]|]; [|apply Hbad]. apply hoare_bind, hoare_ret.
  eapply hoare_mono; [apply (hoare_exec_commit i path _ _ _ _ _ p G); [exact Hp|]|..].
  - intros e. exists 0. right. split; [done|]. do 5 eexists. split; [exact Hd | reflexivity].
  - intros r' s' [-> [e ->]]. right. split; [done|]. do 5 eexists. split; [exact Hd | reflexivity].
  - done.
Qed.

End exec.

(** ** What the program finds on its stack *)

(** Below [sp] for each argument: the address of its string *)
Fixpoint arg_ptrs (sp : Z) (argv : list (list Z)) : list Z :=
  match argv with
  | [] => []
  | a :: argv => let sp := (sp - (length a + 1)) / 4 * 4 in sp :: arg_ptrs sp argv
  end.
Fixpoint args_bottom (sp : Z) (argv : list (list Z)) : Z :=
  match argv with
  | [] => sp
  | a :: argv => args_bottom ((sp - (length a + 1)) / 4 * 4) argv
  end.

(** The program reads the bytes [bs] at [a]. *)
Definition reads (m : mem) (um : Z → option (Z * Z)) (a : Z) (bs : list Z) : Prop :=
  ∀ j b, bs !! j = Some b → uread m um (a + Z.of_nat j) = Some b.

(** What [main] is called with: at the stack pointer a return address, [argc]
    and [argv], and then the array [argv] with the strings it points to. *)
Definition entry_stack (m : mem) (um : Z → option (Z * Z)) (sp : Z) (argv : list (list Z)) : Prop :=
  ∃ ptrs, length ptrs = length argv ∧
    reads m um sp (concat (le32 <$> [0xffffffff; Z.of_nat (length argv); sp + 12] ++ ptrs ++ [0])) ∧
    ∀ i a p, argv !! i = Some a → ptrs !! i = Some p → reads m um p (a ++ [0]).

Section stack_proof.
Context (kend : Z) (kend_high : KERNBASE < kend).

Lemma align_down x : 0 ≤ x < 2 ^ 32 → Z.land (u32 x) 0xFFFFFFFC = x / 4 * 4.
Proof using.
  intros Hx. rewrite u32_small by done. change 0xFFFFFFFC with (Z.shiftl (Z.ones 30) 2). rewrite <- (Z.shiftl_mul_pow2 _ 2), <- (Z.shiftr_div_pow2 _ 2) by lia.
  apply Z.bits_inj'. intros j Hj. rewrite Z.land_spec. destruct (decide (j < 2)) as [Hl|Hl].
  - by rewrite !Z.shiftl_spec_low, andb_false_r by lia.
  - rewrite !Z.shiftl_spec, Z.shiftr_spec by lia. replace (j - 2 + 2) with j by lia. destruct (decide (j < 32)).
    + by rewrite Z.ones_spec_low, andb_true_r by lia.
    + rewrite <- (Z.mod_small x (2 ^ 32)) by lia. by rewrite Z.mod_pow2_bits_high by lia.
Qed.

Lemma args_bottom_le argv : ∀ sp, args_bottom sp argv ≤ sp.
Proof using. induction argv as [|a argv IH]; intros sp; simpl; [lia|]. specialize (IH ((sp - (length a + 1)) / 4 * 4)). Z.div_mod_to_equations. lia. Qed.

(** The stack page is [n], the guard page below it [n - 1], and everything below
    is mapped. *)
Definition stack_pages (um : Z → option (Z * Z)) (n : Z) : Prop :=
  1 ≤ n < NUPAGES ∧ accessible um n = true ∧ accessible um (n - 1) = false ∧ ∀ k, 0 ≤ k ≤ n → um k ≠ None.

Lemma copyout_stack s l d tabs um n va buf :
  space kend s l d tabs um → stack_pages um n → 0 ≤ va → va + length buf ≤ (n + 1) * PGSIZE → n * PGSIZE - 4 < va + length buf → buf ≠ [] →
  wp (copyout d va buf) s (λ r s' _, space kend s' l d tabs um ∧ evolves (user_page um) s s' ∧
    ((r = 0 ∧ n * PGSIZE ≤ va ∧ copied_out (kmemory s) um va buf (length buf) (kmemory s')) ∨ (r = -1 ∧ va < n * PGSIZE))).
Proof using kend_high.
  intros Hsp (Hn & Hacc & Hguard & Hall) Hva Hend Hlow Hne. change NUPAGES with 524288 in Hn.
  assert (0 < length buf) as Hpos by (destruct buf; [done | simpl; lia]).
  eapply wp_mono; [apply (copyout_loop_spec kend kend_high d tabs um _ s l va buf Hsp); [done | done | unfold KERNBASE, PGSIZE in *; lia|]|].
  { intros k Hk _ Hlt Ht. destruct (um k) as [[p f]|] eqn:Hp; [|apply (Hall k); [unfold PGSIZE in *; lia | done]].
    destruct (mapped_table kend kend_high s l d tabs um k p f Hsp Hp) as (t & Ht' & _). congruence. }
  intros r s' tr (Hsp' & Hev & k & Hk & Hc & Ha & Hr). split; [done|]. split; [done|]. destruct Hr as [[-> ->]|(-> & Hlt & Hna)].
  - left. split; [done|]. split; [|done]. destruct (decide (n * PGSIZE ≤ va)) as [|Hlo]; [done|]. exfalso.
    assert (accessible um (Z.max va (n * PGSIZE - 4) / PGSIZE) = true) as Hx by (apply Ha; lia).
    replace (Z.max va (n * PGSIZE - 4) / PGSIZE) with (n - 1) in Hx by (unfold PGSIZE in *; Z.div_mod_to_equations; lia). congruence.
  - right. split; [done|]. destruct (decide (va < n * PGSIZE)) as [|Hhi]; [done|]. exfalso.
    replace ((va + k) / PGSIZE) with n in Hna by (unfold PGSIZE in *; Z.div_mod_to_equations; lia). congruence.
Qed.

(** Reading what is outside the bytes copied. *)
Lemma copied_reads m um va buf m' a bs :
  copied_out m um va buf (length buf) m' → reads m um a bs → va + length buf ≤ a → reads m' um a bs.
Proof using. intros Hc Hr Ha j b Hj. rewrite Hc, (proj2 (in_range_false _ _ _)) by lia. by apply Hr. Qed.

Lemma copied_reads_same m um va buf m' : copied_out m um va buf (length buf) m' → reads m' um va buf.
Proof using.
  intros Hc j b Hj. pose proof (lookup_lt_Some _ _ _ Hj). rewrite Hc, (proj2 (in_range_true _ _ _)) by lia.
  by replace (Z.to_nat (va + j - va)) with j by lia.
Qed.

Lemma push_args_spec d tabs um n l argv : ∀ s sp ptrs,
  space kend s l d tabs um → stack_pages um n → n * PGSIZE ≤ sp ≤ (n + 1) * PGSIZE → 0 ≤ args_bottom sp argv →
  wp (push_args d sp argv ptrs) s (λ r s' _, space kend s' l d tabs um ∧ evolves (user_page um) s s' ∧
    match r with
    | Some (sp', ptrs') => sp' = args_bottom sp argv ∧ n * PGSIZE ≤ sp' ∧ ptrs' = ptrs ++ arg_ptrs sp argv ∧
        (∀ x, x < sp' ∨ sp ≤ x → uread (kmemory s') um x = uread (kmemory s) um x) ∧
        ∀ i a p, argv !! i = Some a → arg_ptrs sp argv !! i = Some p → reads (kmemory s') um p (a ++ [0])
    | None => (MAXARG < length ptrs + length argv)%nat ∨ args_bottom sp argv < n * PGSIZE
    end).
Proof using kend_high.
  induction argv as [|a argv IH]; intros s sp ptrs Hsp Hst Hpg Hbot; cbn [push_args args_bottom arg_ptrs] in *.
  { apply wp_ret. split; [done|]. split; [done|]. split_and!; [done | lia | by rewrite app_nil_r | done | done]. }
  pose proof Hst as (Hn & _). change NUPAGES with 524288 in Hn. set (sp1 := (sp - (length a + 1)) / 4 * 4) in *.
  pose proof (args_bottom_le argv sp1) as Hle. assert (sp - (length a + 1) - 3 ≤ sp1 ≤ sp - (length a + 1)) as Hsp1 by (unfold sp1; Z.div_mod_to_equations; lia).
  destruct (MAXARG <=? length ptrs)%nat eqn:Hmax; [apply Nat.leb_le in Hmax; apply wp_ret; split; [done|]; split; [done|]; left; simpl; lia|].
  rewrite align_down by (unfold PGSIZE in *; lia). fold sp1. assert (Z.of_nat (length (a ++ [0])) = length a + 1) as Hlen by (rewrite length_app; simpl; lia).
  apply wp_bind. eapply wp_mono; [apply (copyout_stack s l d tabs um n sp1 (a ++ [0]) Hsp Hst); [lia | lia | lia | by destruct a]|].
  intros r s1 t1 (Hspc1 & Hev1 & [(-> & Hlo & Hc)|(-> & Hlo)]); cbn [Z.ltb Z.compare].
  2: { apply wp_ret. split; [done|]. split; [done|]. right. lia. }
  eapply wp_mono; [apply (IH s1 sp1 (ptrs ++ [sp1]) Hspc1 Hst); lia|]. intros [[sp' ptrs']|] s2 t2 (Hsp2 & Hev2 & Hr); (split; [done|]; split; [by eapply evolves_trans|]).
  - destruct Hr as (-> & Hge & -> & Hout & Hstr). split_and!; [done | done | by rewrite <- app_assoc | |].
    + intros x Hx. rewrite Hout by lia. rewrite Hc, (proj2 (in_range_false _ _ _)) by lia. done.
    + intros [|i] b p Hb Hp; simpl in Hb, Hp; [|by eapply Hstr]. injection Hb as <-. injection Hp as <-.
      intros j c Hj. rewrite Hout by lia. by apply (copied_reads_same _ _ _ _ _ Hc).
  - destruct Hr as [Hr|Hr]; [left | by right]. rewrite length_app in Hr. simpl in *. lia.
Qed.

Definition entry_sp (top : Z) (argv : list (list Z)) : Z := args_bottom top argv - 4 * (length argv + 4).

Lemma length_arg_ptrs argv : ∀ sp, length (arg_ptrs sp argv) = length argv.
Proof using. induction argv as [|a argv IH]; intros sp; simpl; [done | by rewrite IH]. Qed.

Lemma arg_ptrs_ge argv : ∀ sp i p, arg_ptrs sp argv !! i = Some p → args_bottom sp argv ≤ p.
Proof using.
  induction argv as [|a argv IH]; intros sp [|i] p Hp; simpl in *; [done | done | | by eapply IH].
  injection Hp as <-. apply args_bottom_le.
Qed.

(** From the stack pages on: the strings and then the words. *)
Lemma stack_words s l d tabs um n argv (Q : option (Z * Z) → kmem → list event → Prop) :
  space kend s l d tabs um → stack_pages um n → let top := (n + 1) * PGSIZE in 0 ≤ entry_sp top argv →
  (∀ s' tr, space kend s' l d tabs um → evolves (user_page um) s s' → (∀ x, x < n * PGSIZE → uread (kmemory s') um x = uread (kmemory s) um x) →
     n * PGSIZE ≤ entry_sp top argv → entry_stack (kmemory s') um (entry_sp top argv) argv → Q (Some (top, entry_sp top argv)) s' tr) →
  (∀ s' tr, space kend s' l d tabs um → evolves (user_page um) s s' → (MAXARG < length argv)%nat ∨ entry_sp top argv < n * PGSIZE → Q None s' tr) →
  wp (r ← push_args d top argv [] ;
      match r with
      | None => mret None
      | Some (sp, ptrs) =>
          let argc := Z.of_nat (length ptrs) in
          let ustack := [0xffffffff; argc; u32 (sp - (argc + 1) * 4)] ++ ptrs ++ [0] in
          let sp := u32 (sp - (3 + argc + 1) * 4) in
          r ← copyout d sp (concat (le32 <$> ustack)) ;
          if r <? 0 then mret None else mret (Some (top, sp))
      end) s Q.
Proof using kend_high.
  intros Hsp Hst top Hpos HQ HQ'. pose proof Hst as (Hn & _). change NUPAGES with 524288 in Hn. pose proof (args_bottom_le argv top) as Hle. unfold entry_sp in *.
  apply wp_bind. eapply wp_mono; [apply (push_args_spec d tabs um n l argv s top [] Hsp Hst); unfold top, PGSIZE in *; lia|].
  intros [[sp ptrs]|] s1 t1 (Hsp1 & Hev1 & Hr); [|apply wp_ret, HQ'; [done | done |]; destruct Hr; [by left | right; lia]].
  destruct Hr as (-> & Hge & -> & Hout & Hstr). rewrite app_nil_l. set (ptrs := arg_ptrs top argv) in *. assert (length ptrs = length argv) as Hlp by apply length_arg_ptrs.
  rewrite Hlp. set (bot := args_bottom top argv) in *. set (sp := bot - 4 * (length argv + 4)) in *. cbv zeta.
  rewrite (u32_small (bot - (3 + _ + 1) * 4)), (u32_small (bot - (_ + 1) * 4)) by (unfold top, PGSIZE in *; lia).
  replace (bot - (3 + length argv + 1) * 4) with sp by lia. replace (bot - (length argv + 1) * 4) with (sp + 12) by lia.
  set (ws := [0xffffffff; Z.of_nat (length argv); sp + 12] ++ ptrs ++ [0]).
  assert (Z.of_nat (length (concat (le32 <$> ws))) = 4 * (length argv + 4)) as Hlw by (rewrite length_le32s; unfold ws; rewrite !length_app; simpl; lia).
  apply wp_bind. eapply wp_mono; [apply (copyout_stack s1 l d tabs um n sp (concat (le32 <$> ws)) Hsp1 Hst); [lia | unfold top in *; lia | lia | done]|].
  intros r s2 t2 (Hsp2 & Hev2 & [(-> & Hlo & Hc)|(-> & Hlo)]); cbn [Z.ltb Z.compare]; apply wp_ret; [|apply HQ'; [done | by eapply evolves_trans | right; lia]].
  apply HQ; [done | by eapply evolves_trans | | done |].
  - intros x Hx. rewrite Hc, (proj2 (in_range_false _ _ _)), Hout by lia. done.
  - exists ptrs. split; [done|]. split; [by apply (copied_reads_same _ _ _ _ _ Hc)|].
    intros i a p Ha Hp. eapply copied_reads; [exact Hc | by eapply Hstr |]. rewrite Hlw.
    pose proof (arg_ptrs_ge argv top i p Hp) as Hbp. fold bot in Hbp. lia.
Qed.

(** The stack pointer is not checked: an argument longer than the program takes it
    below 0, and where the page directory of the new program has no page table for
    the address it wraps around to, [copyout] reads through a null pointer. *)
Lemma push_args_wraps s l d tabs um sp a argv :
  space kend s l d tabs um → tabs (PDX (PGROUNDDOWN (Z.land (u32 (sp - (length a + 1))) 0xFFFFFFFC))) = None →
  crashes (push_args d sp (a :: argv) []) s (Undefined "null pte").
Proof using kend_high.
  intros Hsp Ht. cbn [push_args length]. destruct (copyout_no_table kend kend_high s l d tabs um _ (default 0 (head (a ++ [0]))) (tail (a ++ [0])) Hsp Ht) as [tr Htr].
  assert (default 0 (head (a ++ [0])) :: tail (a ++ [0]) = a ++ [0]) as Heq by (by destruct a). rewrite Heq in Htr.
  exists tr. simpl. unfold mbind, M_bind. by rewrite Htr.
Qed.

Lemma exec_stack_spec s l d tabs um sz argv :
  space kend s l d tabs um → 0 ≤ sz < KERNBASE → let top := PGROUNDUP sz + 2 * PGSIZE in top < KERNBASE →
  (∀ n, 0 ≤ n → n * PGSIZE < sz → um n ≠ None) → above_free um (PGROUNDUP sz / PGSIZE) → 0 ≤ entry_sp top argv →
  wp (exec_stack kend d sz argv) s (λ r s' _, ∃ l' tabs' um',
    space kend s' l' d tabs' um' ∧ (∀ p, pool l' d tabs' um' p ↔ pool l d tabs um p) ∧ evolves (pool l d tabs um) s s' ∧
    match r with
    | Some (sz', sp) => sz' = top ∧ sp = entry_sp top argv ∧ top - PGSIZE ≤ sp ∧
        accessible um' (sp / PGSIZE) = true ∧ accessible um' (sp / PGSIZE - 1) = false ∧
        (∀ n, n * PGSIZE < PGROUNDUP sz → um' n = um n) ∧ (∀ n, top ≤ n * PGSIZE → um' n = None) ∧
        (∀ va, 0 ≤ va < PGROUNDUP sz → uread (kmemory s') um' va = uread (kmemory s) um va) ∧
        entry_stack (kmemory s') um' sp argv
    | None => ((∀ n, um' n = um n) ∧ crowded (top / PGSIZE) (pool l d tabs um)) ∨ (MAXARG < length argv)%nat ∨ entry_sp top argv < top - PGSIZE
    end).
Proof using kend_high.
  intros Hsp Hsz top Htop Hall Hfree Hpos. unfold exec_stack.
  destruct (PGROUNDUP_bounds sz) as [Hup Hupm]; [unfold top, KERNBASE, PGSIZE in *; lia|]. set (lo := PGROUNDUP sz / PGSIZE) in *.
  assert (PGROUNDUP sz = lo * PGSIZE) as Hlo by (unfold lo, PGSIZE in *; Z.div_mod_to_equations; lia). unfold top in *. rewrite Hlo in *.
  rewrite (u32_small (lo * PGSIZE + _)) by (unfold KERNBASE, PGSIZE in *; lia). replace (lo * PGSIZE + 2 * PGSIZE) with ((lo + 1 + 1) * PGSIZE) in * by lia. apply wp_bind.
  eapply wp_mono; [apply (allocuvm_spec kend kend_high s l d tabs um (lo * PGSIZE) ((lo + 1 + 1) * PGSIZE) Hsp); [unfold PGSIZE in *; lia | done | rewrite PGROUNDUP_page by (unfold KERNBASE, PGSIZE in *; lia); by rewrite Z.div_mul]|].
  rewrite !PGROUNDUP_page, !Z.div_mul by (unfold KERNBASE, PGSIZE in *; lia). intros r s1 t1 (l1 & tabs1 & um1 & Hsp1 & Hp1 & Hev1 & Hread1 & [[-> Hdone]|(-> & Hum & Hcr)]).
  2: { rewrite Z.eqb_refl. apply wp_ret. exists l1, tabs1, um1. split; [done|]. split; [done|]. split; [done|]. by left. }
  rewrite (proj2 (Z.eqb_neq _ 0)) by (unfold PGSIZE in *; lia).
  destruct Hdone as (Hd1 & Hd2 & Hd3). destruct (Hd3 lo) as (p0 & Hp0 & _); [lia | unfold PGSIZE in *; lia|]. destruct (Hd3 (lo + 1)) as (p1 & Hp1' & _); [lia | unfold PGSIZE in *; lia|].
  rewrite u32_small by (unfold KERNBASE, PGSIZE in *; lia). replace ((lo + 1 + 1) * PGSIZE - 2 * PGSIZE) with (lo * PGSIZE) by lia. apply wp_bind.
  eapply wp_mono; [by apply (clearpteu_spec kend kend_high s1 l1 d tabs1 um1 lo p0)|]. intros _ s2 t2 (Hsp2 & Hp2 & Hev2 & Hread2). set (um2 := upd_tab um1 lo (Some (p0, 3))) in *.
  assert (stack_pages um2 (lo + 1)) as Hst.
  { split; [change NUPAGES with 524288; unfold KERNBASE, PGSIZE in *; lia|]. unfold accessible, um2. rewrite upd_tab_other, Hp1' by lia. replace (lo + 1 - 1) with lo by lia. rewrite upd_tab_same.
    split; [done|]. split; [done|]. intros k Hk. destruct (decide (k = lo)) as [->|]; [by rewrite upd_tab_same|]. rewrite upd_tab_other by done.
    destruct (decide (k = lo + 1)) as [->|]; [by rewrite Hp1'|]. rewrite Hd1 by lia. apply Hall; [lia|]. unfold PGSIZE in *. lia. }
  assert (∀ s3, evolves (user_page um2) s2 s3 → evolves (pool l d tabs um) s s3) as Hev.
  { intros s3 Hev3. eapply evolves_trans; [exact Hev1|]. eapply evolves_trans; (eapply evolves_mono; [|done]); [intros p Hp; apply Hp1; by right; left|].
    intros p Hp. apply Hp1, Hp2. by right; right. }
  apply (stack_words s2 l1 d tabs1 um2 (lo + 1) argv); [done | done | done | |].
  - intros s3 t3 Hsp3 Hev3 Hout Hge Hent. exists l1, tabs1, um2. split; [done|]. split; [intros p; by rewrite Hp2, Hp1|]. split; [by apply Hev|]. pose proof (args_bottom_le argv ((lo + 1 + 1) * PGSIZE)) as Hle.
    assert (entry_sp ((lo + 1 + 1) * PGSIZE) argv / PGSIZE = lo + 1) as Hpg by (unfold entry_sp, PGSIZE in *; Z.div_mod_to_equations; lia).
    rewrite Hpg. destruct Hst as (_ & ? & ? & _). split_and!; [done | done | unfold PGSIZE in *; lia | done | done | | | | done].
    + intros n Hn. unfold um2. rewrite upd_tab_other by (unfold PGSIZE in *; lia). apply Hd1. unfold PGSIZE in *. lia.
    + intros n Hn. unfold um2. rewrite upd_tab_other by (unfold PGSIZE in *; lia). apply Hd2; [|done]. unfold PGSIZE in *. lia.
    + intros va Hva. rewrite Hout, Hread2, Hread1 by (unfold PGSIZE in *; lia). done.
  - intros s3 t3 Hsp3 Hev3 Hr. exists l1, tabs1, um2. split; [done|]. split; [intros p; by rewrite Hp2, Hp1|]. split; [by apply Hev|]. right.
    destruct Hr as [?|?]; [by left | right; unfold PGSIZE in *; lia].
Qed.

(** C23: [exec] gives the program the stack its [main] expects. Above a program
    whose pages are mapped up to [sz], for any arguments that stay above address
    0: either two pages are added, the lower one not accessible to the program,
    and the program finds at its stack pointer, in the upper one, the return
    address, [argc] and [argv], with every [argv[i]] the NUL-terminated argument,
    and its own bytes as they were; or the result is a failure, because memory ran
    out, there are more than MAXARG arguments, or they do not fit the page. No page
    is lost in either case. *)
Theorem exec_stack_correct s l d tabs um sz argv :
  space kend s l d tabs um → 0 ≤ sz < KERNBASE → let top := PGROUNDUP sz + 2 * PGSIZE in top < KERNBASE →
  (∀ n, 0 ≤ n → n * PGSIZE < sz → um n ≠ None) → above_free um (PGROUNDUP sz / PGSIZE) → 0 ≤ entry_sp top argv →
  wp (exec_stack kend d sz argv) s (λ r s' _, ∃ l' tabs' um',
    space kend s' l' d tabs' um' ∧ (∀ p, pool l' d tabs' um' p ↔ pool l d tabs um p) ∧
    match r with
    | Some (sz', sp) => sz' = top ∧ sp = entry_sp top argv ∧ top - PGSIZE ≤ sp ∧
        accessible um' (sp / PGSIZE) = true ∧ accessible um' (sp / PGSIZE - 1) = false ∧
        (∀ va, 0 ≤ va < sz → uread (kmemory s') um' va = uread (kmemory s) um va) ∧
        entry_stack (kmemory s') um' sp argv
    | None => (∀ n, um' n = um n) ∨ (MAXARG < length argv)%nat ∨ entry_sp top argv < top - PGSIZE
    end).
Proof using kend_high.
  intros Hsp Hsz top Htop Hall Hfree Hpos. destruct (PGROUNDUP_bounds sz) as [Hup _]; [unfold KERNBASE, PGSIZE in *; lia|].
  eapply wp_mono; [by apply exec_stack_spec|]. intros r s' _ (l' & tabs' & um' & Hsp' & Hp & _ & Hr). exists l', tabs', um'. split; [done|]. split; [done|].
  destruct r as [[sz' sp]|]; [|destruct Hr as [[? _]|?]; auto].
  destruct Hr as (? & ? & ? & ? & ? & _ & _ & Hread & ?). split_and!; [done.. | | done]. intros va Hva. apply Hread. lia.
Qed.

End stack_proof.

(** A machine with three free pages and an empty page directory above them. *)
Definition three_pages : kmem :=
  mk_kmem true (kend0 + 2 * PGSIZE) (store32 (store32 (λ _, 0) (kend0 + 2 * PGSIZE) (kend0 + PGSIZE)) (kend0 + PGSIZE) kend0).
Definition ex_pd : Z := kend0 + 3 * PGSIZE.

Lemma ex_space : space kend0 three_pages [kend0 + 2 * PGSIZE; kend0 + PGSIZE; kend0] ex_pd (λ _, None) (λ _, None).
Proof.
  apply zero_page_space.
  - split_and!; [by vm_compute | |].
    + rewrite NoDup_ListNoDup. repeat constructor; vm_compute; intuition lia.
    + repeat constructor; vm_compute; intuition discriminate.
  - by vm_compute.
  - rewrite !not_elem_of_cons. split_and!; [done.. | apply not_elem_of_nil].
  - intros x Hx. unfold in_page, ex_pd, PGSIZE in Hx. unfold three_pages, PGSIZE. simpl. rewrite !store32_outside by lia. done.
Qed.

Lemma exec_stack_correct_witness :
  let argv := [bytes "echo"; bytes "hello"] in
  wp (exec_stack kend0 ex_pd 0 argv) three_pages (λ r s' _, r = Some (0x2000, 0x1fd8) ∧ ∃ um', entry_stack (kmemory s') um' 0x1fd8 argv).
Proof.
  intros argv.
  assert (match exec_stack kend0 ex_pd 0 argv three_pages with Ok r _ _ => r = Some (0x2000, 0x1fd8) | _ => False end) as Hr by (vm_compute; reflexivity).
  pose proof (exec_stack_correct kend0 ltac:(done) three_pages _ ex_pd _ _ 0 argv ex_space) as Hw. unfold wp in *.
  destruct (exec_stack kend0 ex_pd 0 argv three_pages) as [r s' tr| |]; [|done..]. subst r. split; [done|].
  destruct Hw as (l' & tabs' & um' & _ & _ & _ & _ & _ & _ & _ & _ & Hent); [done | done | intros n H1 H2; unfold PGSIZE in *; lia | done | by vm_compute |]. by exists um'.
Defined.

End Exec.
