(* ===== verification/ExecImage.v ===== *)
(** * exec.c: the program in memory

    What [exec] leaves in memory, as the new program reads it, against the file
    it was loaded from: [read_program] is the part of [exec] and [loaduvm] that
    reads the file, and [image] the memory its segments describe. [exec] puts
    this image, the stack of Exec.v and the entry point in place of the old
    program, or gives back every page it took and leaves the caller as it was. *)

From S2P Require Import Prelude Layout Memory Kalloc Vm Proc Sched Block Fs File Sysfile Machine Exec.

Module ExecImage.
Import Kalloc Vm Proc Machine Exec.

(** The byte at [va] of the memory described by pieces of a file, the last one
    loaded first; there are zeros between them. *)
Fixpoint image (img : list (Z * list Z)) (va : Z) : Z :=
  match img with
  | [] => 0
  | (a, bs) :: img => if in_range a (length bs) va then default 0 (bs !! Z.to_nat (va - a)) else image img va
  end.

(** An executable file: its entry point, the end of its memory, its pieces. *)
Record program := mk_program { pr_entry : Z; pr_sz : Z; pr_img : list (Z * list Z) }.

(** The size of a process that runs it, with the guard page and the stack page. *)
Definition pr_top (pr : program) : Z := PGROUNDUP (pr_sz pr) + 2 * PGSIZE.

(** ** The states of [exec] *)

Section states.
Context (kend : Z) {B : Type} {BL : BlockLayer B} {TX : TxnLayer B}.
Abbreviation kenv := (Sysfile.kenv (B:=B) (U:=Machine.machine)).
Context (s : pstate kenv).

(** If [m] stops the machine [C] holds, and if it gives up the CPU [W]. *)
Definition may {A} (C W : Prop) (m : M (pstate kenv) A) (x : pstate kenv) : Prop := hoare C m x (λ _ _, True) (λ _, W).

Definition mem0 : kmem := mm (Sysfile.kuser (env s)).

(** The files are [fe] and the memory is [km]; the processes are those of [s]. *)
Definition at_files (fe : File.fenv) (km : kmem) : pstate kenv :=
  set_env (Sysfile.mk_kenv fe (set_mm km (Sysfile.kuser (env s)))) s.

Lemma at_files_id : s = at_files (Sysfile.kfile (env s)) mem0.
Proof using. unfold at_files, mem0, set_mm. destruct s as [????? [? []]]. done. Qed.

(** Operations on files do not see the memory, and those on memory do not see the files. *)
Lemma hoare_on_file {A} C W (m : M File.fenv A) fe km (Q : A → pstate kenv → Prop) (G : pstate kenv → Prop) :
  may C W (Sysfile.on_file m) (at_files fe mem0) →
  (∀ a fe', gives (Sysfile.on_file m) (at_files fe mem0) a (at_files fe' mem0) → Q a (at_files fe' km)) →
  (∀ fe', W → G (at_files fe' km)) → hoare C (Sysfile.on_file m) (at_files fe km) Q G.
Proof using.
  unfold may. intros Hm HQ HG. unfold hoare, gives, Sysfile.on_file, zoom in *.
  change (Sysfile.view (at_files fe km)) with (Sysfile.view (at_files fe mem0)).
  destruct (m (Sysfile.view (at_files fe mem0))) as [a fe' tr|c fe' tr|]; [|by apply (HG fe') | done]. apply (HQ a fe'). by exists tr.
Qed.

Lemma hoare_on_mem {A} C (m : M kmem A) fe km (Q : A → pstate kenv → Prop) (G : pstate kenv → Prop) :
  wp m km (λ a km' _, Q a (at_files fe km')) → hoare C (on_mem m) (at_files fe km) Q G.
Proof using. unfold wp, hoare, on_mem, on_env, zoom. simpl. destruct (m km); done. Qed.

(** ** The memory being built *)

Context (l : list Z).

(** Nothing but pages that were free has changed. *)
Definition beside (km : kmem) : Prop := evolves (λ p, p ∈ l) mem0 km.

(** The address space [d] made out of the free pages [l], with the pieces [img]
    loaded below [sz]. *)
Definition built (d sz : Z) (img : list (Z * list Z)) (km : kmem) : Prop := ∃ l1 tabs um,
  space kend km l1 d tabs um ∧ (∀ p, pool l1 d tabs um p ↔ p ∈ l) ∧ beside km ∧
  0 ≤ sz < KERNBASE ∧ above_free um (PGROUNDUP sz / PGSIZE) ∧ (∀ n, 0 ≤ n → n * PGSIZE < sz → ∃ p, um n = Some (p, 7)) ∧
  Forall (λ '(a, bs), 0 ≤ a ∧ a + length bs ≤ sz) img ∧
  ∀ va, 0 ≤ va < PGROUNDUP sz → uread (kmemory km) um va = Some (image img va).

Lemma image_above img sz va : Forall (λ '(a, bs), 0 ≤ a ∧ a + length bs ≤ sz) img → sz ≤ va → image img va = 0.
Proof using.
  intros Himg Hva. induction img as [|[a bs] img IH]; [done|]. apply Forall_cons in Himg as [[_ Ha] Himg]. simpl.
  rewrite (proj2 (in_range_false _ _ _)) by lia. by apply IH.
Qed.

Lemma built_beside d sz img km : built d sz img km → beside km.
Proof using. by intros (l1 & tabs & um & _ & _ & ? & _). Qed.

Context (kend_high : KERNBASE < kend).

Lemma built_alloc d sz img km newsz :
  NoDup l → built d sz img km → 0 ≤ newsz →
  wp (allocuvm kend d sz newsz) km (λ r km' _,
    (r = 0 ∧ built d sz img km' ∧ (KERNBASE ≤ newsz ∨ length l ≤ 1026 + PGROUNDUP newsz / PGSIZE)) ∨
    (r = Z.max sz newsz ∧ newsz < KERNBASE ∧ built d r img km')).
Proof using kend_high.
  intros Hnd Hb Hnew. destruct (Z.le_gt_cases KERNBASE newsz) as [Hbig|Hsmall].
  { unfold allocuvm. rewrite (proj2 (Z.leb_le _ _)) by done. apply wp_ret. left. auto. }
  destruct (Z.lt_ge_cases newsz sz) as [Hlt|Hge].
  { unfold allocuvm. rewrite (proj2 (Z.leb_gt _ _)), (proj2 (Z.ltb_lt _ _)) by done. apply wp_ret. right. rewrite Z.max_l by lia. auto. }
  destruct Hb as (l1 & tabs & um & Hsp & Hpool & Hev & Hsz & Hfree & Hmap & Himg & Hread).
  destruct (PGROUNDUP_bounds sz) as [Hup Hupm]; [unfold KERNBASE, PGSIZE in *; lia|]. destruct (PGROUNDUP_bounds newsz) as [Hup' Hupm']; [unfold KERNBASE, PGSIZE in *; lia|].
  eapply wp_mono; [apply (allocuvm_spec kend kend_high km l1 d tabs um sz newsz Hsp); [lia | done | done]|]. intros r km' _ (l2 & tabs2 & um2 & Hsp2 & Hpool2 & Hev2 & Hread2 & Hr).
  assert (beside km') as Hev' by (eapply evolves_trans; [exact Hev|]; eapply evolves_mono; [|exact Hev2]; intros p; apply Hpool).
  assert (∀ p, pool l2 d tabs2 um2 p ↔ p ∈ l) as Hpool' by (intros p; by rewrite Hpool2).
  destruct Hr as [[-> (Hd1 & Hd2 & Hd3)]|(-> & Hum & Hcr)].
  - right. rewrite Z.max_r by lia. split; [done|]. split; [done|]. exists l2, tabs2, um2. split_and!; try done; try lia.
    + intros n Hn. apply Hd2; unfold PGSIZE in *; Z.div_mod_to_equations; lia.
    + intros n Hn Hlt. destruct (Z.lt_ge_cases n (PGROUNDUP sz / PGSIZE)) as [Hlo|Hhi].
      * rewrite Hd1 by done. apply Hmap; [done|]. unfold PGSIZE in *. Z.div_mod_to_equations. lia.
      * destruct (Hd3 n Hhi Hlt) as (p & Hp & _). eauto.
    + eapply Forall_impl; [exact Himg|]. intros [a bs]. lia.
    + intros va Hva. destruct (Z.lt_ge_cases va (PGROUNDUP sz)) as [Hlo|Hhi]; [rewrite Hread2 by lia; apply Hread; lia|].
      destruct (Hd3 (va / PGSIZE)) as (p & Hp & _ & Hz); [unfold PGSIZE in *; Z.div_mod_to_equations; lia..|].
      unfold uread. rewrite Hp, Hz by apply page_offset. by rewrite (image_above _ sz) by (done || lia).
  - left. split; [done|]. split; [|right; apply Hcr; [done|]; intros p; apply Hpool].
    exists l2, tabs2, um2. split_and!; try done; try lia.
    + intros n Hn. rewrite Hum. by apply Hfree.
    + intros n Hn Hlt. rewrite Hum. by apply Hmap.
    + intros va Hva. rewrite Hread2 by lia. apply Hread; lia.
Qed.

(** A piece of a file is stored in one page, where [walkpgdir] finds it. *)
Lemma built_piece d sz img km va data :
  built d sz img km → 0 ≤ va → va mod PGSIZE = 0 → length data ≤ PGSIZE → va < sz → va + length data ≤ sz →
  ∃ pte e, walkpgdir d va false km = Ok pte km [] ∧ pte ≠ 0 ∧ load32 (kmemory km) pte = e ∧
    built d sz ((va, data) :: img) (set_mem (write_bytes (kmemory km) (P2V (PTE_ADDR e)) data) km).
Proof using kend_high.
  intros (l1 & tabs & um & Hsp & Hpool & [Hlk Hoff] & Hsz & Hfree & Hmap & Himg & Hread) Hva Hal Hlen Hlt Hend.
  set (n := va / PGSIZE). assert (va = n * PGSIZE) as Hn by (unfold n, PGSIZE in *; Z.div_mod_to_equations; lia). rewrite Hn in *. clear Hn.
  destruct (Hmap n) as [p Hp]; [unfold PGSIZE in *; lia | lia |].
  destruct (mapped_table kend kend_high km l1 d tabs um n p 7 Hsp Hp) as (t & Ht & He & Hpok & _). pose proof Hsp as ((_ & Hrep & _) & _ & Hsep).
  exists (t + 4 * PTX (n * PGSIZE)), (V2P p + 7). split; [by rewrite (walk_lookup kend kend_high km d tabs), Ht|].
  split; [pose proof (entry_addr_pos kend kend_high t (n * PGSIZE)) as Hpos; intros H0; rewrite H0 in Hpos; discriminate Hpos; eapply owns_ok; [done | by eapply owns_table]|].
  split; [done|]. destruct (entry_decode kend kend_high p 7 Hpok) as (_ & -> & _); [done..|].
  destruct (uread_write kend km l1 d tabs um n p 7 0 data Hsp Hp) as [Hsp' Hr]; [done | lia|]. rewrite !Z.add_0_r in *.
  exists l1, tabs, um. split_and!; try done; try lia.
  - eapply evolves_trans; [by split|]. split; [done|]. apply (same_off_page _ p); [apply Hpool; right; right; eauto|].
    intros x Hx. apply write_bytes_outside. lia.
  - apply Forall_cons. split; [lia | done].
  - intros va' Hva'. etransitivity; [apply Hr|]. simpl. destruct (in_range _ _ va') eqn:Hin; [|by apply Hread].
    apply in_range_true in Hin. destruct (lookup_lt_is_Some_2 data (Z.to_nat (va' - n * PGSIZE))) as [b ->]; [lia | done].
Qed.

End states.

(** The memory of a process that starts to run the program: the image of the
    file, for the user, then the guard page and the stack, and nothing else. *)
Definition loaded (pr : program) (argv : list (list Z)) (m : mem) (um : Z → option (Z * Z)) : Prop :=
  let sp := entry_sp (pr_top pr) argv in
  (∀ va, 0 ≤ va < PGROUNDUP (pr_sz pr) → uread m um va = Some (image (pr_img pr) va) ∧ accessible um (va / PGSIZE) = true) ∧
  accessible um (sp / PGSIZE - 1) = false ∧ accessible um (sp / PGSIZE) = true ∧ pr_top pr - PGSIZE ≤ sp ∧
  (∀ n, pr_top pr ≤ n * PGSIZE → um n = None) ∧ entry_stack m um sp argv.

(** Reasons why a program cannot be run with [free] free pages *)
Definition cannot_run (free : nat) (pr : program) (argv : list (list Z)) : Prop :=
  KERNBASE ≤ pr_top pr ∨ free ≤ 1026 + pr_top pr / PGSIZE ∨ (MAXARG < length argv)%nat ∨ entry_sp (pr_top pr) argv < pr_top pr - PGSIZE.

Section image.
Context (kend kdata : Z).
Context {B : Type} {BL : BlockLayer B} {TX : TxnLayer B}.
Abbreviation fstate := (Fs.fstate (B:=B)).
Abbreviation kenv := (Sysfile.kenv (B:=B) (U:=Machine.machine)).
Context {PE : ProcEnv kenv}.
Context (devsw_read : Z → option (nat → Z → M fstate (Z * list Z))).
Context (junk : list Z).
#[local] Abbreviation K := (M (pstate kenv)).
#[local] Abbreviation readi := (readi devsw_read).

(** ** Reading the file *)

(** [n] pages of a segment, from byte [i] of it *)
Fixpoint read_pages (n : nat) (addr : Z) (ip : nat) (offset sz i : Z) (img : list (Z * list Z)) : K (option (list (Z * list Z))) :=
  match n with
  | O => mret (Some img)
  | S n =>
      let k := Z.min (sz - i) PGSIZE in
      '(r, data) ← readi ip (u32 (offset + i)) k ;
      if negb (r =? k) then mret None else read_pages n addr ip offset sz (i + PGSIZE) ((addr + i, data) :: img)
  end.

Definition pages (sz : Z) : nat := Z.to_nat ((sz + PGSIZE - 1) / PGSIZE).

(** The segments of [n] program headers from [off] on; [sz] is the end of memory so far. *)
Fixpoint read_segments (n : nat) (ip : nat) (off sz : Z) (img : list (Z * list Z)) : K (option (Z * list (Z * list Z))) :=
  match n with
  | O => mret (Some (sz, img))
  | S n =>
      '(r, data) ← readi ip (u32 off) 32 ;
      if negb (r =? 32) then mret None else
      let ph := proghdr_of data in
      if negb (p_type ph =? ELF_PROG_LOAD) then read_segments n ip (off + 32) sz img else
      let sz := Z.max sz (vaddr ph + memsz ph) in
      if (memsz ph <? filesz ph) || (KERNBASE <=? vaddr ph + memsz ph) || (sz =? 0) || negb (vaddr ph mod PGSIZE =? 0) then mret None else
      r ← read_pages (pages (filesz ph)) (vaddr ph) ip (p_off ph) (filesz ph) 0 img ;
      match r with None => mret None | Some img => read_segments n ip (off + 32) sz img end
  end.

Definition read_program (path : list Z) : K (option program) :=
  Sysfile.begin_op ;;
  ip ← on_inode (Fs.namei devsw_read path junk) ;
  match ip with
  | None => mret None
  | Some ip =>
      on_inode (Fs.ilock ip) ;;
      '(r, data) ← readi ip 0 52 ;
      let elf := elfhdr_of data in
      if negb (r =? 52) || negb (magic elf =? ELF_MAGIC) then mret None else
      r ← read_segments (Z.to_nat (phnum elf)) ip (phoff elf) 0 [] ;
      match r with
      | None => mret None
      | Some (sz, img) =>
          on_inode (Fs.iunlockput ip) ;;
          Sysfile.end_op ;;
          mret (Some (mk_program (entry elf) sz img))
      end
  end.

(** A device driver stores no more bytes than it is asked for. *)
Definition short_reads : Prop := ∀ major f ip n x r data y,
  devsw_read major = Some f → gives (f ip n) x (r, data) y → (length data ≤ Z.to_nat n)%nat.

(** [C] holds when an operation of the file system stops the machine, and [W] when
    one gives up the CPU. *)
Definition file_ops (C W : Prop) : Prop :=
  (∀ x, may C W Sysfile.begin_op x) ∧ (∀ x, may C W Sysfile.end_op x) ∧ (∀ path x, may C W (on_inode (Fs.namei devsw_read path junk)) x) ∧
  (∀ ip x, may C W (on_inode (Fs.ilock ip)) x ∧ may C W (on_inode (Fs.iunlockput ip)) x) ∧ ∀ ip off n x, may C W (readi ip off n) x.

Lemma readi_loop_length fuel ip n : ∀ tot off acc x d y,
  length acc ≤ tot → tot ≤ n → gives (Fs.readi_loop fuel ip tot off n acc) x d y → length d ≤ n.
Proof using.
  induction fuel as [|fuel IH]; intros tot off acc x d y Hacc Htot; cbn [Fs.readi_loop];
    (destruct (n <=? tot); [intros [tr [= <- _ _]]; lia|]); [by intros []|].
  do 5 (intros (? & ? & _ & ?)%gives_bind_inv; revert select (gives _ _ _ _)). apply IH; [|lia].
  rewrite length_app, length_take. change Fs.BSIZE with 512. pose proof (Z.mod_pos_bound off 512). lia.
Qed.

Lemma readi_length ip off n s r data s' :
  short_reads → 0 ≤ off < 2 ^ 32 → 0 ≤ n → gives (readi ip off n) s (r, data) s' → (length data ≤ Z.to_nat n)%nat.
Proof using.
  intros Hdev Hoff Hn (t & (u & H & _)%gives_zoom_inv & _)%gives_zoom_inv. revert H. unfold Fs.readi.
  intros (i & x & _ & H)%gives_bind_inv. revert H. case_match.
  - destruct (Fs.dev_fun _ _) as [f|] eqn:Hf; [|intros [tr [= _ <- _ _]]; simpl; lia]. intros Hgive. unfold Fs.dev_fun in Hf. case_match; [done|]. by eapply Hdev.
  - destruct (_ || _) eqn:Hg; [intros [tr [= _ <- _ _]]; simpl; lia|]. apply orb_false_iff in Hg as [H1%Z.ltb_ge H2%Z.ltb_ge]. cbv zeta.
    assert (u32 (off + n) ≤ off + n) as Hle by (unfold u32; apply Z.mod_le; lia).
    set (n' := if _ <? _ then _ else n). assert (0 ≤ n' ≤ n) as Hn'.
    { unfold n'. pose proof (u32_range (off + n)). destruct (Z.ltb_spec (Fs.isize i) (u32 (off + n))); [|lia]. rewrite u32_small by lia. lia. }
    intros (d & y & Hd & [tr [= _ <- _ _]])%gives_bind_inv. enough (length d ≤ n') by lia.
    apply (readi_loop_length _ _ _ _ _ _ _ _ _) in Hd; [done | done | lia].
Qed.

(** ** Loading the segments *)

Section load.
Context (kend_high : KERNBASE < kend) (C W : Prop) (short : short_reads).
Context (s : pstate kenv) (l : list Z) (distinct : NoDup l).
#[local] Abbreviation at_files := (at_files s).
#[local] Abbreviation built := (built kend s l).
#[local] Abbreviation m0 := (mem0 s).

(** Where [exec] gives up the CPU *)
Definition waiting (x : pstate kenv) : Prop := W ∧ ∃ fe km, x = at_files fe km ∧ beside s l km.

(** The file system works from [x] on, or it is known that [read] returns there
    with [good]: what a step of [read] does, [exec] can do as well. *)
Definition sure {A} (read : K A) (good : A → pstate kenv → Prop) (x : pstate kenv) : Prop :=
  file_ops C W ∨ ∃ a y, gives read x a y ∧ good a y.

Lemma sure_bind {A A'} (m : K A) (k : A → K A') good x : sure (m ≫= k) good x → sure m (λ a, sure (k a) good) x.
Proof using. intros [?|(b & y & (a & x1 & Hm & Hk)%gives_bind_inv & Hg)]; [by left | right]. exists a, x1. split; [done|]. right. eauto. Qed.

Lemma sure_after {A A'} (m : K A) (k : A → K A') good x a x1 : sure (m ≫= k) good x → gives m x a x1 → sure (k a) good x1.
Proof using. intros [?|(b & y & H & Hg)] Hm; [by left | right]. exists b, y. split; [by eapply gives_after | done]. Qed.

Lemma sure_op {A A'} (m : K A) (k : A → K A') good x : (file_ops C W → may C W m x) → sure (m ≫= k) good x → may C W m x.
Proof using. intros Hm [H|(b & y & (a & x1 & [tr Hx] & _)%gives_bind_inv & _)]; [by apply Hm|]. unfold may, hoare. by rewrite Hx. Qed.

Lemma hoare_readi {A} (k : Z * list Z → K A) good d sz img fe km ip off n (Q : Z * list Z → pstate kenv → Prop) :
  built d sz img km → 0 ≤ n → sure (readi ip (u32 off) n ≫= k) good (at_files fe m0) →
  (∀ r data fe', (length data ≤ Z.to_nat n)%nat → gives (readi ip (u32 off) n) (at_files fe m0) (r, data) (at_files fe' m0) →
     sure (k (r, data)) good (at_files fe' m0) → Q (r, data) (at_files fe' km)) →
  hoare C (readi ip (u32 off) n) (at_files fe km) Q waiting.
Proof using short.
  intros Hb Hn Hs HQ. apply (hoare_on_file _ _ W); [apply (sure_op _ _ _ _) in Hs; [done|]; by intros (_ & _ & _ & _ & Hr) | |].
  - intros [r data] fe' Hg. apply HQ; [|done|by eapply sure_after]. eapply readi_length; [done | apply u32_range | done | exact Hg].
  - intros fe' HW. split; [done|]. exists fe', km. split; [done|]. by eapply built_beside.
Qed.

Lemma pages_step sz i : pages (sz - i) = if sz <=? i then O else S (pages (sz - (i + PGSIZE))).
Proof using. unfold pages, PGSIZE. destruct (Z.leb_spec sz i); Z.div_mod_to_equations; lia. Qed.

Lemma loaduvm_loop_image d sz addr ip offset fsz good : ∀ fuel fe km img i,
  sure (read_pages (pages (fsz - i)) addr ip offset fsz i img) good (at_files fe m0) → built d sz img km → 0 ≤ addr → addr mod PGSIZE = 0 → 0 ≤ i → i mod PGSIZE = 0 → addr + fsz ≤ sz → (pages (fsz - i) ≤ fuel)%nat →
  hoare C (loaduvm_loop devsw_read fuel d addr ip offset fsz i) (at_files fe km) (λ r x, ∃ fe' km' res, x = at_files fe' km' ∧
    gives (read_pages (pages (fsz - i)) addr ip offset fsz i img) (at_files fe m0) res (at_files fe' m0) ∧
    match res with Some img' => r = 0 ∧ built d sz img' km' | None => r = -1 ∧ ∃ img', built d sz img' km' end) waiting.
Proof using kend_high short.
  induction fuel as [|fuel IH]; intros fe km img i Hs Hb Haddr Hal Hi Hial Hend Hfuel; rewrite pages_step in *; cbn [loaduvm_loop];
    (destruct (Z.leb_spec fsz i) as [Hle|Hlt]; [apply hoare_ret; exists fe, km, (Some img); split; [done|]; split; [apply gives_ret | done]|]); [lia|].
  assert (0 ≤ sz < KERNBASE) as Hsz by (by destruct Hb as (? & ? & ? & _ & _ & _ & ? & _)). assert ((addr + i) mod PGSIZE = 0) as Hm by (unfold PGSIZE in *; Z.div_mod_to_equations; lia).
  rewrite (u32_small (addr + i)) by (unfold KERNBASE in *; lia). set (k := Z.min (fsz - i) PGSIZE).
  replace (if fsz - i <? PGSIZE then fsz - i else PGSIZE) with k by (unfold k; destruct (Z.ltb_spec (fsz - i) PGSIZE); lia).
  destruct (built_piece kend s l kend_high d sz img km (addr + i) [] Hb) as (pte & e & Hw & Hnz & He & _); [lia | done | simpl; unfold PGSIZE; lia | lia | simpl; lia |].
  apply hoare_bind, hoare_on_mem, wp_Ok. exists pte, km, []. split; [done|]. rewrite (proj2 (Z.eqb_neq pte 0)) by done.
  apply hoare_bind, hoare_on_mem. unfold ld. wp_steps. apply hoare_bind.
  cbn [read_pages] in *. fold k in Hs |- *.
  eapply (hoare_readi _ _ d sz img); [done | unfold k, PGSIZE; lia | exact Hs|]. clear Hs. intros r data fe' Hlen Hg. cbv beta iota. intros Hs. apply hoare_bind, hoare_on_mem. wp_step.
  destruct (built_piece kend s l kend_high d sz img km (addr + i) data Hb) as (pte' & e' & Hw' & _ & He' & Hb'); [lia | done | unfold k, PGSIZE in *; lia | lia | unfold k in *; lia |].
  rewrite Hw in Hw'. injection Hw' as <-. rewrite <- He' in Hb'. clear He'. destruct (r =? k) eqn:Hr; simpl negb; cbv iota.
  2: { apply hoare_ret. eexists fe', _, None. split; [done|]. split; [eapply gives_bind; [exact Hg|]; cbv beta iota; rewrite Hr; apply gives_ret|]. split; [done|]. by eexists. }
  replace (u32 (i + PGSIZE)) with (i + PGSIZE) by (rewrite u32_small; unfold KERNBASE, PGSIZE in *; lia).
  eapply hoare_mono; [apply (IH fe' _ ((addr + i, data) :: img) (i + PGSIZE) Hs Hb'); try done; [unfold PGSIZE; lia | unfold PGSIZE in *; Z.div_mod_to_equations; lia | lia]| |done].
  intros r' x (fe2 & km2 & res & -> & Hg2 & Hres). exists fe2, km2, res. split; [done|]. split; [|done].
  eapply gives_bind; [exact Hg|]. cbv beta iota. by rewrite Hr.
Qed.

Lemma read_segments_mono n : ∀ ip off sz img x szf imgf y,
  gives (read_segments n ip off sz img) x (Some (szf, imgf)) y → sz ≤ szf ∧ (sz < KERNBASE → szf < KERNBASE).
Proof using.
  induction n as [|n IH]; intros ip off sz img x szf imgf y; cbn [read_segments]; [intros [tr [= -> _ _ _]]; lia|].
  intros ([r data] & x1 & _ & H)%gives_bind_inv. revert H. cbv beta iota. destruct (negb _); [by intros [? [=]]|]. destruct (negb _); [apply IH|].
  destruct (_ || _) eqn:Hg; [by intros [? [=]]|]. intros ([img'|] & x2 & _ & H)%gives_bind_inv; [|by destruct H as [? [=]]]. apply IH in H.
  rewrite !orb_false_iff in Hg. destruct Hg as [[[_ Hk%Z.leb_gt] _] _]. lia.
Qed.

(** The end of a segment is at most that of the program. *)
Lemma pages_mono a b : 0 ≤ a ≤ b → b < KERNBASE → PGROUNDUP a / PGSIZE ≤ PGROUNDUP b / PGSIZE.
Proof using.
  intros Hab Hb. rewrite !PGROUNDUP_eq by (unfold KERNBASE, PGSIZE in *; lia). unfold PGSIZE in *. Z.div_mod_to_equations. lia.
Qed.

Lemma proghdr_words data : let ph := proghdr_of data in
  0 ≤ vaddr ph < 2 ^ 32 ∧ 0 ≤ memsz ph < 2 ^ 32 ∧ 0 ≤ filesz ph < 2 ^ 32.
Proof using. simpl. split_and!; apply u32_range. Qed.

Lemma loaduvm_image d sz addr ip offset fsz good fe km img :
  sure (read_pages (pages fsz) addr ip offset fsz 0 img) good (at_files fe m0) → built d sz img km → 0 ≤ addr → addr mod PGSIZE = 0 → 0 ≤ fsz → addr + fsz ≤ sz →
  hoare C (loaduvm devsw_read d addr ip offset fsz) (at_files fe km) (λ r x, ∃ fe' km' res, x = at_files fe' km' ∧
    gives (read_pages (pages fsz) addr ip offset fsz 0 img) (at_files fe m0) res (at_files fe' m0) ∧
    match res with Some img' => r = 0 ∧ built d sz img' km' | None => r = -1 ∧ ∃ img', built d sz img' km' end) waiting.
Proof using kend_high short.
  intros Hs Hb Ha Hal Hf Hend. unfold loaduvm. rewrite Hal. change (negb (0 =? 0)) with false. cbv iota.
  replace (pages fsz) with (pages (fsz - 0)) in * by (by rewrite Z.sub_0_r). eapply (loaduvm_loop_image d sz); try done.
  unfold pages, PGSIZE. Z.div_mod_to_equations. lia.
Qed.

(** What [load_segments] leaves, against what [read] reads: the image, or, when
    it fails on a program that can be read, a memory too small for it. *)
Definition loaded_as (read : K (option (Z * list (Z * list Z)))) (fe : File.fenv) (d : Z) (r : option Z) (x : pstate kenv) : Prop :=
  ∃ fe' km, x = at_files fe' km ∧
    match r with
    | Some sz => ∃ img, gives read (at_files fe m0) (Some (sz, img)) (at_files fe' m0) ∧ built d sz img km
    | None => (∃ sz img, built d sz img km) ∧ ∀ sz img y,
        gives read (at_files fe m0) (Some (sz, img)) y → length l ≤ 1026 + PGROUNDUP sz / PGSIZE
    end.

Lemma loaded_after {A} (m : K A) k fe a fe1 d r x :
  gives m (at_files fe m0) a (at_files fe1 m0) → loaded_as (k a) fe1 d r x → loaded_as (m ≫= k) fe d r x.
Proof using.
  intros Hm (fe' & km & -> & Hr). exists fe', km. split; [done|]. destruct r as [sz|].
  - destruct Hr as (img & Hk & Hb). exists img. split; [by eapply gives_bind | done].
  - destruct Hr as [Hb Hk]. split; [done|]. intros sz img y H. by eapply Hk, gives_after.
Qed.

Lemma loaded_none fe d sz img km : built d sz img km → loaded_as (mret None) fe d None (at_files fe km).
Proof using. intros Hb. exists fe, km. split; [done|]. split; [eauto|]. intros ??? [? [=]]. Qed.

Lemma load_segments_image n good : ∀ fe km img ip d off sz,
  sure (read_segments n ip off sz img) good (at_files fe m0) → built d sz img km →
  hoare C (load_segments kend devsw_read n ip d off sz) (at_files fe km) (loaded_as (read_segments n ip off sz img) fe d) waiting.
Proof using kend_high short distinct.
  induction n as [|n IH]; intros fe km img ip d off sz Hs Hb; cbn [load_segments read_segments] in *.
  { apply hoare_ret. exists fe, km. split; [done|]. exists img. split; [apply gives_ret | done]. }
  apply hoare_bind. eapply (hoare_readi _ _ d sz img); [done | done | exact Hs|]. clear Hs. intros r data fe1 _ Hg1 Hs.
  eapply hoare_mono; [|intros r' x; by apply (loaded_after _ _ _ _ _ _ _ _ Hg1) | done]. revert Hs. cbv beta iota.
  destruct (negb (r =? 32)); [intros _; by eapply hoare_ret, loaded_none|]. pose proof (proghdr_words data) as (Hv & Hm & Hf). set (ph := proghdr_of data) in *. clearbody ph. cbv zeta.
  destruct (negb (p_type ph =? _)); [intros Hs; by apply IH|]. assert (0 ≤ sz < KERNBASE) as Hsz by (by destruct Hb as (? & ? & ? & _ & _ & _ & ? & _)).
  destruct (memsz ph <? filesz ph) eqn:Hmf; [intros _; by eapply hoare_ret, loaded_none|]. apply Z.ltb_ge in Hmf. cbn [orb].
  destruct (Z.ltb_spec (u32 (vaddr ph + memsz ph)) (vaddr ph)) as [Hwrap|Hwrap].
  { rewrite (proj2 (Z.leb_le KERNBASE _)); [intros _; by eapply hoare_ret, loaded_none|].
    destruct (Z.lt_ge_cases (vaddr ph + memsz ph) (2 ^ 32)); [rewrite u32_small in Hwrap by lia; lia | unfold KERNBASE; lia]. }
  assert (u32 (vaddr ph + memsz ph) = vaddr ph + memsz ph) as ->.
  { unfold u32 in *. Z.div_mod_to_equations. lia. }
  intros Hs. apply hoare_bind, hoare_on_mem. eapply wp_mono; [apply (built_alloc kend s l kend_high d sz img km); [done | done | lia]|].
  intros sz1 km1 _ [(-> & Hb1 & Hwhy)|(-> & Hlt & Hb1)].
  - rewrite Z.eqb_refl. apply hoare_ret. exists fe1, km1. split; [done|]. split; [eauto|]. intros szf imgf y. destruct (_ || _) eqn:Hg; [by intros [? [=]]|].
    rewrite !orb_false_iff in Hg. destruct Hg as [[Hk%Z.leb_gt _] _]. intros ([img'|] & x2 & _ & H)%gives_bind_inv; [|by destruct H as [? [=]]].
    apply read_segments_mono in H as [Hle Hsf]. destruct Hwhy as [?|Hwhy]; [lia|]. pose proof (pages_mono (vaddr ph + memsz ph) szf ltac:(lia) ltac:(lia)). lia.
  - revert Hs. rewrite (proj2 (Z.leb_gt _ _)) by done. cbn [orb]. destruct (_ =? 0); [intros _; by eapply hoare_ret, loaded_none|]. cbn [orb].
    destruct (Z.eqb_spec (vaddr ph mod PGSIZE) 0) as [Hal|Hal]; cbn [negb]; [|intros _; by eapply hoare_ret, loaded_none]. intros Hs.
    apply hoare_bind. eapply hoare_mono; [apply (loaduvm_image d (Z.max sz (vaddr ph + memsz ph)) _ _ _ _ _ _ _ _ (sure_bind _ _ _ _ Hs)); [done | lia | done | lia | lia]| |done].
    intros r' x (fe2 & km2 & res & -> & Hg2 & Hres). eapply hoare_mono; [|intros r2 x; by apply (loaded_after _ _ _ _ _ _ _ _ Hg2) | done].
    apply (sure_after _ _ _ _ _ _ Hs) in Hg2.
    destruct res as [img'|]; [destruct Hres as [-> Hb2]; by apply IH | destruct Hres as [-> [img' Hb2]]; by eapply hoare_ret, loaded_none].
Qed.

(** ** The stack and the two ways out *)

(** The address space [d] is made out of the free pages. *)
Definition owned (d : Z) (km : kmem) : Prop := ∃ l1 tabs um,
  space kend km l1 d tabs um ∧ (∀ p, pool l1 d tabs um p ↔ p ∈ l) ∧ beside s l km.
(** Every page is free again. *)
Definition given_back (km : kmem) : Prop := beside s l km ∧ ∃ l', free_list kend km l' ∧ ∀ p, p ∈ l' ↔ p ∈ l.

Lemma built_owned d sz img km : built d sz img km → owned d km.
Proof using. intros (l1 & tabs & um & ? & ? & ? & _). by exists l1, tabs, um. Qed.

Lemma exec_bad_returns d ip fe km :
  (ip = None ∨ file_ops C W) → (d = 0 ∧ given_back km) ∨ (d ≠ 0 ∧ owned d km) →
  hoare C (exec_bad kend d ip) (at_files fe km) (λ r x, r = -1 ∧ ∃ fe' km', x = at_files fe' km' ∧ given_back km') waiting.
Proof using kend_high.
  intros Hfiles Hd. unfold exec_bad. apply hoare_bind.
  assert (∀ km, given_back km → hoare C (match ip with Some ip => on_inode (Fs.iunlockput ip) ;; Sysfile.end_op | None => mret () end ;; mret (-1)) (at_files fe km)
    (λ r x, r = -1 ∧ ∃ fe' km', x = at_files fe' km' ∧ given_back km') waiting) as Hrest.
  { intros km' Hg. assert (∀ fe, W → waiting (at_files fe km')) as Hw by (intros fe' HW; split; [done|]; exists fe', km'; split; [done | apply Hg]). apply hoare_bind. destruct ip as [ip|].
    - destruct Hfiles as [?|(_ & Hend & _ & Hput & _)]; [done|].
      apply hoare_bind, (hoare_on_file _ _ W); [apply Hput | | done]. intros _ fe1 _. apply (hoare_on_file _ _ W); [apply Hend | | done]. intros _ fe2 _. apply hoare_ret. eauto 10.
    - do 2 apply hoare_ret. eauto 10. }
  destruct Hd as [[-> Hg]|[Hnz (l1 & tabs & um & Hsp & Hpool & Hev)]].
  - apply hoare_ret. by apply Hrest.
  - rewrite (proj2 (truth_true d)) by done. apply hoare_on_mem. eapply wp_mono; [by apply (freevm_spec kend kend_high km l1 d tabs um)|].
    intros _ km' _ (l' & Hfl & Hev' & Hl'). apply Hrest. split; [|exists l'; split; [done|]; intros q; by rewrite Hl', Hpool].
    eapply evolves_trans; [exact Hev|]. eapply evolves_mono; [|exact Hev']. intros q. apply Hpool.
Qed.

Lemma args_bottom_shift argv k : ∀ sp, args_bottom (sp + 4 * k) argv = args_bottom sp argv + 4 * k.
Proof using. induction argv as [|a argv IH]; intros sp; simpl; [done|]. rewrite <- IH. f_equal. Z.div_mod_to_equations. lia. Qed.

Lemma entry_sp_shift argv n : 0 ≤ n → entry_sp (2 * PGSIZE) argv ≤ entry_sp (n * PGSIZE + 2 * PGSIZE) argv.
Proof using.
  intros Hn. unfold entry_sp. replace (n * PGSIZE + 2 * PGSIZE) with (2 * PGSIZE + 4 * (n * 1024)) by (unfold PGSIZE; lia). rewrite args_bottom_shift. lia.
Qed.

Lemma exec_stack_image argv d pr km :
  0 ≤ entry_sp (2 * PGSIZE) argv → built d (pr_sz pr) (pr_img pr) km →
  wp (exec_stack kend d (pr_sz pr) argv) km (λ r km' _,
    match r with
    | Some (sz, sp) => sz = pr_top pr ∧ sp = entry_sp (pr_top pr) argv ∧
        ∃ l1 tabs um, space kend km' l1 d tabs um ∧ (∀ p, pool l1 d tabs um p ↔ p ∈ l) ∧ beside s l km' ∧ loaded pr argv (kmemory km') um
    | None => owned d km' ∧ cannot_run (length l) pr argv
    end).
Proof using kend_high distinct.
  intros Hargs Hb. destruct Hb as (l1 & tabs & um & Hsp & Hpool & Hev & Hsz & Hfree & Hmap & Himg & Hread). unfold cannot_run, loaded.
  unfold pr_top. set (sz := pr_sz pr) in *.
  destruct (PGROUNDUP_bounds sz) as [Hup Hupm]; [unfold KERNBASE, PGSIZE in *; lia|].
  destruct (Z.le_gt_cases KERNBASE (PGROUNDUP sz + 2 * PGSIZE)) as [Hbig|Hsmall].
  { unfold exec_stack, allocuvm. rewrite u32_small by (unfold KERNBASE, PGSIZE in *; lia). rewrite (proj2 (Z.leb_le KERNBASE _)) by done. do 2 wp_step. split; [by exists l1, tabs, um | by left]. }
  eapply wp_mono; [apply (exec_stack_spec kend kend_high km l1 d tabs um sz argv Hsp Hsz Hsmall); [|done|]|].
  { intros n H1 H2. by destruct (Hmap n H1 H2) as [p ->]. }
  { pose proof (entry_sp_shift argv (PGROUNDUP sz / PGSIZE)) as Hs. replace (PGROUNDUP sz / PGSIZE * PGSIZE) with (PGROUNDUP sz) in Hs by (unfold PGSIZE in *; Z.div_mod_to_equations; lia).
    specialize (Hs ltac:(apply Z.div_pos; unfold PGSIZE; lia)). lia. }
  intros r km' _ (l2 & tabs2 & um2 & Hsp2 & Hpool2 & Hev2 & Hr). assert (∀ p, pool l2 d tabs2 um2 p ↔ p ∈ l) as Hpool' by (intros p; by rewrite Hpool2).
  assert (beside s l km') as Hev' by (eapply evolves_trans; [exact Hev|]; eapply evolves_mono; [|exact Hev2]; intros p; apply Hpool).
  destruct r as [[sz' sp]|].
  - destruct Hr as (-> & -> & Hge & Hacc & Hguard & Hsame & Hnone & Hread2 & Hent). split; [done|]. split; [done|]. exists l2, tabs2, um2.
    split_and!; try done. intros va Hva. rewrite Hread2, Hread by done. split; [done|]. unfold accessible.
    destruct (Hmap (va / PGSIZE)) as [p Hp]; [unfold PGSIZE in *; Z.div_mod_to_equations; lia..|].
    rewrite Hsame, Hp by (unfold PGSIZE in *; Z.div_mod_to_equations; lia). done.
  - split; [by exists l2, tabs2, um2|]. right. destruct Hr as [[_ Hcr]|Hr]; [left | by right]. apply Hcr; [done|]. intros p. apply Hpool.
Qed.

(** ** The caller *)

Context (i : nat) (p : proc) (ptabs : Z → option Z) (pum : Z → option (Z * Z)).
Context (caller : procs s !! i = Some p) (running : cur s = Some i) (has_stack : kstack p ≠ 0).
Context (old : space kend m0 l (pgdir p) ptabs pum) (data : data_ok kdata).
Context (lcr3 : ∀ a e, env_lcr3 a e = Ok () (Sysfile.set_kuser (set_cr3 a (Sysfile.kuser e)) e) []).

(** The process runs [pr]: it has the new address space [d] and the pages of the
    old one are free. *)
Definition replaced (path : list Z) (argv : list (list Z)) (pr : program) (fe : File.fenv) (x : pstate kenv) : Prop := ∃ km d l' tabs um,
  x = at_proc s i (started path d (pr_top pr) (pr_entry pr) (entry_sp (pr_top pr) argv) p)
        (Sysfile.mk_kenv fe (set_cr3 (V2P d) (set_mm km (Sysfile.kuser (env s))))) ∧
  space kend km l' d tabs um ∧ (∀ q, pool l' d tabs um q ↔ pool l (pgdir p) ptabs pum q) ∧
  evolves (pool l (pgdir p) ptabs pum) m0 km ∧ loaded pr argv (kmemory km) um.

(** Only the files and pages that were free have changed, these are free again, and the
    process reads what it read. *)
Definition left_alone (x : pstate kenv) : Prop := ∃ fe km l',
  x = at_files fe km ∧ evolves (λ q, q ∈ l) m0 km ∧ (∀ q, q ∈ l' ↔ q ∈ l) ∧
  space kend km l' (pgdir p) ptabs pum ∧ ∀ va, uread (kmemory km) pum va = uread (kmemory m0) pum va.

Lemma given_back_alone fe km : given_back km → left_alone (at_files fe km).
Proof using old.
  intros [Hev (l' & Hfl & Hl)]. exists fe, km, l'. split; [done|]. split; [done|]. split; [done|].
  apply (space_beside kend m0 l); [done | done | done | apply Hl].
Qed.

(** Reads depend on the pages of the user only. *)
Lemma loaded_same pr argv m m' um :
  (∀ n q f x, um n = Some (q, f) → in_page q x → m' x = m x) → loaded pr argv m um → loaded pr argv m' um.
Proof using.
  intros Hm. assert (∀ va, uread m' um va = uread m um va) as Hr.
  { intros va. unfold uread. destruct (um (va / PGSIZE)) as [[q f]|] eqn:Hq; [|done]. f_equal. eapply Hm; [exact Hq | apply page_offset]. }
  intros (H1 & H2 & H3 & H4 & H5 & ptrs & H6 & H7 & H8). split_and!; try done; [intros va Hva; rewrite Hr; by apply H1|].
  exists ptrs. split; [done|]. split; [intros j b Hj; rewrite Hr; by apply H7|]. intros k a q Ha Hq j b Hj. rewrite Hr. by eapply H8.
Qed.

(** Giving the old address space back leaves the new one as it is. *)
Lemma free_old km l1 d tabs um km' l' :
  space kend km l1 d tabs um → (∀ q, pool l1 d tabs um q ↔ q ∈ l) → space kend km l1 (pgdir p) ptabs pum →
  free_list kend km' l' → evolves (pool l1 (pgdir p) ptabs pum) km km' → (∀ q, q ∈ l' ↔ pool l1 (pgdir p) ptabs pum q) →
  space kend km' l' d tabs um ∧ (∀ q, pool l' d tabs um q ↔ pool l (pgdir p) ptabs pum q) ∧
  ∀ n q f x, um n = Some (q, f) → in_page q x → kmemory km' x = kmemory km x.
Proof using old.
  intros Hsp Hpool Hold Hfl [_ Hoff] Hl'.
  assert (∀ q, used d tabs um q → ¬ pool l1 (pgdir p) ptabs pum q) as Hapart.
  { intros q Hq Hin. assert (q ∈ l) as Hql by (apply Hpool; by right).
    destruct Hin as [Hin|Hin]; [by apply (space_used kend km l1 d tabs um q) | by apply (space_used kend m0 l (pgdir p) ptabs pum q)]. }
  pose proof Hsp as ((_ & Hrep & _) & Hu & Hsep).
  destruct (space_frame kend (pool l1 (pgdir p) ptabs pum) (kmemory km) (kmemory km') d tabs um) as (Hrep' & Hu' & Hc); [done | done | done | | done |].
  { intros q. by eapply pool_ok. }
  split; [|split; [|done]].
  - split; [split; [done|]; split; [done|] | split; [done|]].
    + intros q Ho Hin. apply Hl' in Hin. revert Hin. apply Hapart. by left.
    + intros n q f Hn. split; [|by destruct (Hsep n q f Hn)]. intros Hin%Hl'. revert Hin. apply Hapart. right. eauto.
  - intros q. unfold pool at 1. rewrite Hl'. unfold pool in *. specialize (Hpool q). tauto.
Qed.

Lemma commit_replaces path argv pr fe km d l1 tabs um :
  d ≠ 0 → space kend km l1 d tabs um → (∀ q, pool l1 d tabs um q ↔ q ∈ l) → beside s l km → loaded pr argv (kmemory km) um →
  hoare C (exec_commit kend i path d (pr_top pr) (pr_entry pr) (entry_sp (pr_top pr) argv)) (at_files fe km)
    (λ r x, r = 0 ∧ replaced path argv pr fe x) waiting.
Proof using kend_high caller has_stack old lcr3.
  intros Hd Hsp Hpool Hev Hld. pose proof (lookup_lt_Some _ _ _ caller) as Hi. unfold exec_commit, ExecImage.at_files.
  set (e := Sysfile.mk_kenv fe _). assert (set_env e s = at_proc s i p e) as -> by (unfold at_proc; by rewrite list_insert_id).
  unfold Sched.switchuvm, on_mem. repeat slot_step. match goal with |- hoare _ _ (at_proc s i ?q _) _ _ => change q with (started path d (pr_top pr) (pr_entry pr) (entry_sp (pr_top pr) argv) p) end.
  set (p' := started _ _ _ _ _ _). change (kstack p') with (kstack p). change (pgdir p') with d. rewrite !(proj2 (Z.eqb_neq _ 0)) by done.
  repeat slot_step. unfold hoare at 1. rewrite lcr3. repeat slot_step. do 2 apply hoare_zoom. simpl mm.
  destruct (space_beside kend m0 l (pgdir p) ptabs pum km l1 old Hev) as [Hold Hsame]; [apply Hsp | intros q Hq; apply Hpool; by left|].
  unfold hoare. change (pgdir _) with (pgdir p).
  pose proof (freevm_spec kend kend_high km l1 (pgdir p) ptabs pum Hold) as Hw. unfold wp in Hw.
  destruct (freevm kend (pgdir p) km) as [u km' tr| |]; [|done..]. destruct Hw as (l' & Hfl & Hev' & Hl'). split; [done|].
  destruct (free_old km l1 d tabs um km' l' Hsp Hpool Hold Hfl Hev' Hl') as (Hsp' & Hpool' & Hc). exists km', d, l', tabs, um.
  split; [done|]. split; [done|]. split; [done|]. split; [|by eapply loaded_same].
  eapply evolves_trans; eapply evolves_mono; [|exact Hev | |exact Hev']; [by left|]. intros q Hq. apply Hpool'. left. by apply Hl'.
Qed.

(** ** exec *)

Context (path : list Z) (argv : list (list Z)) (fits : 0 ≤ entry_sp (2 * PGSIZE) argv).

(** What [exec] leaves, against what [read] reads *)
Definition exec_as (read : K (option program)) (fe : File.fenv) (r : Z) (x : pstate kenv) : Prop :=
  (r = -1 ∧ (∃ fe' km, x = at_files fe' km ∧ given_back km) ∧
     ∀ pr y, gives read (at_files fe m0) (Some pr) y → cannot_run (length l) pr argv) ∨
  (r = 0 ∧ ∃ pr fe', gives read (at_files fe m0) (Some pr) (at_files fe' m0) ∧ replaced path argv pr fe' x).

Lemma exec_after {A} (m : K A) k fe a fe1 r x :
  gives m (at_files fe m0) a (at_files fe1 m0) → exec_as (k a) fe1 r x → exec_as (m ≫= k) fe r x.
Proof using.
  intros Hm [(-> & Hx & Hwhy)|(-> & pr & fe' & Hg & Hx)]; [left | right].
  - split; [done|]. split; [done|]. intros pr y H. by eapply Hwhy, gives_after.
  - split; [done|]. exists pr, fe'. split; [by eapply gives_bind | done].
Qed.

(** [read] reads a program that can be run. *)
Definition runnable (o : option program) (_ : pstate kenv) : Prop := ∃ pr, o = Some pr ∧ ¬ cannot_run (length l) pr argv.

(** The failures before and after there is a new page directory *)
Lemma exec_fails read d ip fe fe' km :
  sure read runnable (at_files fe m0) → (d = 0 ∧ given_back km) ∨ (d ≠ 0 ∧ owned d km) →
  (∀ pr y, gives read (at_files fe m0) (Some pr) y → cannot_run (length l) pr argv) →
  hoare C (exec_bad kend d ip) (at_files fe' km) (exec_as read fe) waiting.
Proof using kend_high.
  intros [Hf|(o & y & Hg & pr & -> & Hrun)] Hd Hwhy; [|by destruct Hrun; eapply Hwhy].
  eapply hoare_mono; [apply exec_bad_returns; [by right | done]| |done]. intros r x [-> Hx]. by left.
Qed.

(** A file operation, in [exec] and in [read_program] *)
Lemma hoare_files {A} (m : M File.fenv A) (k : A → K Z) k' fe km :
  (file_ops C W → may C W (Sysfile.on_file m) (at_files fe m0)) → beside s l km →
  (∀ a fe1, sure (k' a) runnable (at_files fe1 m0) → hoare C (k a) (at_files fe1 km) (exec_as (k' a) fe1) waiting) →
  sure (Sysfile.on_file m ≫= k') runnable (at_files fe m0) →
  hoare C (Sysfile.on_file m ≫= k) (at_files fe km) (exec_as (Sysfile.on_file m ≫= k') fe) waiting.
Proof using.
  intros Hm Hb Hk Hs. apply hoare_bind, (hoare_on_file _ _ W); [by eapply sure_op | | intros fe' HW; split; [done|]; by exists fe', km]. intros a fe1 Hg.
  eapply hoare_mono; [by eapply Hk, sure_after | | done]. intros r x. by apply exec_after.
Qed.

Lemma pr_top_pos pr : 0 ≤ pr_top pr / PGSIZE.
Proof using.
  apply Z.div_pos; [|done]. unfold pr_top, PGROUNDUP. pose proof (u32_range (pr_sz pr + PGSIZE - 1)).
  assert (0 ≤ Z.land (u32 (pr_sz pr + PGSIZE - 1)) (Z.lnot (PGSIZE - 1))) by (apply Z.land_nonneg; lia). unfold PGSIZE in *. lia.
Qed.

Lemma setupkvm_builds :
  wp (setupkvm kend kdata) m0 (λ d km _, (d = 0 ∧ given_back km ∧ (length l ≤ 513)%nat) ∨ (d ≠ 0 ∧ built d 0 [] km)).
Proof using kend_high old data.
  destruct old as ((Hfl & _) & _). eapply wp_mono; [by apply (setupkvm_spec kend kdata kend_high m0 l)|].
  intros d km _ [Hev [(-> & Hlen & l' & Hfl' & Hl')|(l' & tabs & Hd & Hsp & Hpool & _)]]; [left | right].
  - split; [done|]. split; [|done]. split; [done|]. by exists l'.
  - pose proof (page_ok_range kend kend_high d Hd). split; [lia|]. exists l', tabs, (λ _, None). change (PGROUNDUP 0) with 0.
    split_and!; try done; [intros n; unfold PGSIZE; lia | intros va; lia].
Qed.

(** Once the file has been read: the stack, and the new program in place of the old *)
Lemma exec_finishes pr fe km d :
  sure (mret (Some pr)) runnable (at_files fe m0) → d ≠ 0 → built d (pr_sz pr) (pr_img pr) km →
  hoare C (r ← on_mem (exec_stack kend d (pr_sz pr) argv) ;
      match r with
      | None => exec_bad kend d None
      | Some (sz, sp) => i ← deref (Some i) 108 ; exec_commit kend i path d sz (pr_entry pr) sp
      end) (at_files fe km) (exec_as (mret (Some pr)) fe) waiting.
Proof using kend_high distinct caller has_stack old lcr3 fits.
  intros Hs Hd Hb. apply hoare_bind, hoare_on_mem. eapply wp_mono; [by apply exec_stack_image|]. intros [[sz sp]|] km' _ Hr.
  - destruct Hr as (-> & -> & l1 & tabs & um & Hsp & Hpool & Hev & Hld). apply hoare_bind, hoare_ret.
    eapply hoare_mono; [by apply (commit_replaces path argv pr fe km' d l1 tabs um)| |done]. intros r x [-> Hx]. right. split; [done|].
    exists pr, fe. split; [apply gives_ret | done].
  - destruct Hr as [Ho Hwhy]. apply exec_fails; [done | by right|]. by intros pr' y [tr [= <- _ _]].
Qed.

Lemma exec_runs fe :
  sure (read_program path) runnable (at_files fe m0) →
  hoare C (exec kend kdata devsw_read junk path argv) (at_files fe m0) (exec_as (read_program path) fe) waiting.
Proof using All.
  assert (beside s l m0) as Hb0 by done. assert (given_back m0) as Hg0 by (split; [done|]; exists l; split; [apply old | done]).
  unfold exec, read_program, myproc. intros Hs. apply hoare_bind, hoare_bind, hoare_emit, hoare_gets. simpl cur. rewrite running. revert Hs.
  apply hoare_files; [intros Hf; apply Hf | done |]. intros _ fe1. apply hoare_files; [intros (_ & _ & Hn & _); apply Hn | done |]. intros [ip|] fe2.
  2: { intros [(_ & Hend & _)|(o & y & [tr [= <- _ _]] & pr & [=] & _)]. apply hoare_bind, (hoare_on_file _ _ W); [apply Hend | |intros fe' HW; split; [done|]; by exists fe', m0].
       intros _ fe3 _. apply hoare_bind, hoare_emit, hoare_ret. left. split; [done|]. split; [by exists fe3, m0|]. intros pr y [? [=]]. }
  apply hoare_files; [intros (_ & _ & _ & Hl & _); apply Hl | done |]. intros _ fe3.
  apply hoare_files; [intros (_ & _ & _ & _ & Hr); apply Hr | done |]. intros [r data'] fe4. cbv beta iota. set (elf := elfhdr_of data'). clearbody elf.
  assert (∀ fe, sure (mret None) runnable (at_files fe m0) → hoare C (exec_bad kend 0 (Some ip)) (at_files fe m0) (exec_as (mret None) fe) waiting) as Hbad.
  { intros fe5 Hs. apply exec_fails; [done | by left|]. intros pr y [? [=]]. }
  destruct (negb (r =? 52)); [apply Hbad|]. cbn [orb]. destruct (negb (magic _ =? _)); [apply Hbad|]. clear Hbad. intros Hs.
  apply hoare_bind, hoare_on_mem. eapply wp_mono; [apply setupkvm_builds|]. intros d km _ [(-> & Hg & Hlen)|[Hd Hb]].
  { apply exec_fails; [done | by left|]. intros pr y _. right; left. pose proof (pr_top_pos pr). lia. }
  rewrite (proj2 (Z.eqb_neq d 0)) by done. apply hoare_bind. eapply hoare_mono; [eapply load_segments_image; [exact (sure_bind _ _ _ _ Hs) | done]| |done].
  intros [sz|] x (fe5 & km5 & -> & Hr).
  - destruct Hr as (img & Hgs & Hb5). eapply hoare_mono; [|intros r' x; by apply (exec_after _ _ _ _ _ _ _ Hgs)|done]. apply (sure_after _ _ _ _ _ _ Hs) in Hgs. revert Hgs.
    cbv beta iota. pose proof (built_beside _ _ _ _ _ _ _ Hb5) as Hbe.
    apply hoare_files; [intros (_ & _ & _ & Hl & _); apply Hl | done |]. intros _ fe6. apply hoare_files; [intros Hf; apply Hf | done |]. intros _ fe7 Hs7.
    by apply (exec_finishes (mk_program (entry elf) sz img)).
  - destruct Hr as [(sz & img & Hb5) Hwhy]. apply exec_fails; [done | right; split; [done | by eapply built_owned]|].
    intros pr y ([[szf imgf]|] & y1 & Hgs & H)%gives_bind_inv; [|by destruct H as [? [=]]]. apply Hwhy in Hgs. right; left.
    apply gives_bind_inv in H as (_ & y2 & _ & H). apply gives_bind_inv in H as (_ & y3 & _ & [tr [= <- _ _]]). unfold pr_top. simpl pr_sz.
    rewrite Z.div_add by done. lia.
Qed.

End load.
End image.
End ExecImage.
