(* ===== verification/Kernel.v ===== *)
(** * The kernel put together

    The interfaces between the components are given their implementations: what
    proc.c calls ([ProcEnv]) by kalloc.c, vm.c, file.c, fs.c and log.c on the
    machine of Machine.v; the table of system calls by the handlers of
    sysproc.c and sysfile.c; the interrupts by the console. The theorem is
    about all of it: no system call, interrupt or fault, by way of [trap],
    breaks the process table. *)

From S2P Require Import Prelude Layout Memory Cstring Kalloc Vm Proc Signal Sched SchedInv Syscall Trap Bio Log Block Fs FsRw Console Machine File Sysfile Exec.

Module Kernel.
Import Proc Signal Sched SchedInv Syscall Machine LogBlocks.
#[local] Existing Instance Sysfile.kenv_mem.

Section kernel.
(** From the linker and the assembler: the end of the kernel and its data, the
    kernel's page directory, the addresses of [forkret], [trapret] and
    [SIGCONT_handler], the code of initcode.S *)
Context (kend kdata kpgdir forkret_addr trapret_addr SIGCONT_handler_addr : Z) (initcode : list Z).
(** The drivers of device inodes, and what uninitialised memory holds *)
Abbreviation fstate := (Fs.fstate (B:=Log.lstate)).
Context (devsw_read : Z → option (nat → Z → M fstate (Z * list Z))).
Context (devsw_write : Z → option (nat → list Z → M fstate Z)).
Context (junk page : list Z).

Abbreviation kenv := (Sysfile.kenv (B:=Log.lstate) (U:=machine)).
#[local] Abbreviation K := (M (pstate kenv)).

(** ** The environment of proc.c *)

Definition on_mm {A} (m : M Kalloc.kmem A) : M kenv A := zoom Sysfile.kuser Sysfile.set_kuser (zoom mm set_mm m).
Definition on_files {A} (m : M (File.fenv (B:=Log.lstate)) A) : M kenv A := zoom Sysfile.kfile Sysfile.set_kfile m.
Definition lcr3 (a : Z) : M kenv unit := modify (λ e, Sysfile.set_kuser (set_cr3 a (Sysfile.kuser e)) e).

#[export] Instance kernel_env : ProcEnv kenv := {
  env_kalloc := on_mm Kalloc.kalloc;
  env_kfree v := on_mm (Kalloc.kfree kend v);
  env_setupkvm := on_mm (Vm.setupkvm kend kdata);
  env_inituvm d := on_mm (Vm.inituvm d initcode);
  env_allocuvm d a b := on_mm (Vm.allocuvm kend d a b);
  env_deallocuvm d a b := on_mm (Vm.deallocuvm kend d a b);
  env_copyuvm d n := on_mm (Vm.copyuvm kend kdata d n);
  env_freevm d := on_mm (Vm.freevm kend d);
  env_lcr3 a := lcr3 a;
  env_switchkvm := lcr3 (V2P kpgdir);
  env_filedup f := on_files (File.filedup f) ;; mret ();
  env_fileclose f := on_files (File.fileclose f);
  env_idup ip := on_files (File.on_fs (Fs.idup ip)) ;; mret ();
  env_iput ip := on_files (File.on_fs (Fs.iput ip));
  env_namei_root := on_files (File.on_fs (Fs.namei devsw_read (bytes "/") junk));
  env_begin_op := on_files File.begin_op;
  env_end_op := on_files File.end_op;
  env_iinit := on_files (File.on_fs (Fs.iinit ROOTDEV));
  env_initlog := on_files (File.on_fs (Fs.blk (Log.initlog ROOTDEV)));
  env_as pid cwd killed e := Sysfile.set_kfile (File.fenv_as pid cwd killed (Sysfile.kfile e)) e;
}.

#[export] Instance kernel_clock : Clock kenv := {
  ticks e := tick (Sysfile.kuser e);
  set_ticks x e := Sysfile.set_kuser (set_tick x (Sysfile.kuser e)) e;
}.

(** ** System calls *)

Definition exec : list Z → list (list Z) → K Z := Exec.exec kend kdata devsw_read junk.

(** [syscalls] of syscall.c, by the numbers of syscall.h. A process that sleeps
    gives up the CPU. *)
Definition syscalls : list (option (K Z)) :=
  [None;
   Some (sys_fork forkret_addr trapret_addr);
   Some (sys_exit to_scheduler);
   Some (sys_wait []);
   Some (Sysfile.sys_pipe page);
   Some (Sysfile.sys_read devsw_read);
   Some sys_kill;
   Some (Sysfile.sys_exec exec);
   Some Sysfile.sys_fstat;
   Some (Sysfile.sys_chdir devsw_read junk);
   Some Sysfile.sys_dup;
   Some sys_getpid;
   Some sys_sbrk;
   Some (sys_sleep []);
   Some sys_uptime;
   Some (Sysfile.sys_open devsw_read devsw_write junk);
   Some (Sysfile.sys_write devsw_write);
   Some (Sysfile.sys_mknod devsw_read devsw_write junk);
   Some (Sysfile.sys_unlink devsw_read devsw_write junk);
   Some (Sysfile.sys_link devsw_read devsw_write junk);
   Some (Sysfile.sys_mkdir devsw_read devsw_write junk);
   Some Sysfile.sys_close;
   Some sys_sigprocmask;
   Some sys_sigaction;
   Some sys_sigret].

(** ** Interrupts *)

(** [consoleintr] with the characters [cs] *)
Definition console_interrupt (cs : list Z) : K unit :=
  on_env (zoom Sysfile.kuser Sysfile.set_kuser (zoom con set_con (Console.consoleintr (mret ()) cs))).

(** memide.c's [ideintr] does nothing; [lapiceoi] writes a device register. *)
Definition trap (cpuid cr2 : Z) (kbd uart : list Z) (t : trapframe) : K unit :=
  Trap.trap cpuid cr2 (mret ()) (console_interrupt kbd) (console_interrupt uart) (mret ()) syscalls to_scheduler t.
Definition alltraps (cpuid cr2 : Z) (kbd uart : list Z) (t : trapframe) : K unit :=
  Trap.alltraps cpuid cr2 (mret ()) (console_interrupt kbd) (console_interrupt uart) (mret ()) syscalls to_scheduler t.

(** ** The environment keeps its promise *)

(** The operation does not sleep. *)
Definition steady {S A} (m : M S A) : Prop := ∀ s, hoare True m s (λ _ _, True) (λ _, False).

Lemma steady_ret {S A} (a : A) : steady (S := S) (mret a).
Proof. by intros s. Qed.
Lemma steady_emit {S} e : steady (S := S) (emit e).
Proof. by intros s. Qed.
Lemma steady_gets {S A} (f : S → A) : steady (gets f).
Proof. by intros s. Qed.
Lemma steady_get_state {S} : steady (S := S) get_state.
Proof. by intros s. Qed.
Lemma steady_modify {S} (f : S → S) : steady (modify f).
Proof. by intros s. Qed.
Lemma steady_panic {S A} msg : steady (S := S) (panic (A := A) msg).
Proof. by intros s. Qed.
Lemma steady_undefined {S A} msg : steady (S := S) (undefined (A := A) msg).
Proof. by intros s. Qed.
Lemma steady_page_fault {S A} a : steady (S := S) (page_fault (A := A) a).
Proof. by intros s. Qed.
Lemma steady_bind {S A A'} (m : M S A) (k : A → M S A') : steady m → (∀ a, steady (k a)) → steady (m ≫= k).
Proof. intros Hm Hk s. apply hoare_bind. eapply hoare_mono; [apply Hm| |done]. intros a s1 _. apply Hk. Qed.
Lemma steady_for_each {S A} (l : list A) (body : A → M S unit) : (∀ x, steady (body x)) → steady (for_each l body).
Proof. intros Hb. induction l as [|x l IH]; [apply steady_ret | by apply steady_bind]. Qed.
Lemma steady_zoom {S T A} (get : S → T) set (m : M T A) : steady m → steady (zoom get set m).
Proof. intros Hm s. specialize (Hm (get s)). unfold hoare, zoom in *. by destruct (m (get s)). Qed.

End kernel.

Create HintDb steady.
#[export] Hint Resolve steady_ret steady_emit steady_gets steady_get_state steady_modify steady_panic steady_undefined steady_page_fault : steady.
Ltac steady_step :=
  lazymatch goal with
  | |- steady (mbind _ _) => apply steady_bind; [|intros ?]
  | |- steady (match ?x with _ => _ end) => destruct x
  | |- steady (when ?x _) => destruct x; simpl when
  | |- steady (for_each _ _) => apply steady_for_each; intros ?
  | |- steady (zoom _ _ _) => apply steady_zoom
  | |- steady (acquire _) => apply steady_emit
  | |- steady (release _) => apply steady_emit
  | |- steady (cprintf _ _) => apply steady_emit
  | _ => solve [auto with steady]
  end.
Ltac steady := repeat steady_step.

Section steady.
Context (kend kdata : Z).

Lemma steady_kalloc : steady Kalloc.kalloc.
Proof. unfold Kalloc.kalloc, Kalloc.lock_if, Kalloc.unlock_if. steady. Qed.
Lemma steady_kfree v : steady (Kalloc.kfree kend v).
Proof. unfold Kalloc.kfree, Kalloc.lock_if, Kalloc.unlock_if. steady. Qed.
Lemma steady_walkpgdir d a b : steady (Vm.walkpgdir d a b).
Proof. unfold Vm.walkpgdir, Vm.ld, Vm.st, Vm.fill. steady. apply steady_kalloc. Qed.
Hint Resolve steady_kalloc steady_kfree steady_walkpgdir : steady.
Lemma steady_mappages d a n pa f : steady (Vm.mappages d a n pa f).
Proof.
  unfold Vm.mappages. generalize (Z.to_nat (u32 (PGROUNDDOWN (u32 (a + n - 1)) - PGROUNDDOWN a) / PGSIZE)) as k. intros k. generalize (PGROUNDDOWN a). revert pa.
  induction k as [|k IH]; intros; cbn [Vm.mappages_loop]; unfold Vm.ld, Vm.st; steady.
Qed.
Lemma steady_deallocuvm d a b : steady (Vm.deallocuvm kend d a b).
Proof.
  unfold Vm.deallocuvm. steady. generalize (Z.to_nat ((a - PGROUNDUP b) / PGSIZE + 1)) as k. intros k. generalize (PGROUNDUP b).
  induction k as [|k IH]; intros; cbn [Vm.deallocuvm_loop]; unfold Vm.ld, Vm.st; steady.
Qed.
Hint Resolve steady_mappages steady_deallocuvm : steady.
Lemma steady_freevm d : steady (Vm.freevm kend d).
Proof. unfold Vm.freevm, Vm.ld. steady. Qed.
Hint Resolve steady_freevm : steady.
Lemma steady_setupkvm : steady (Vm.setupkvm kend kdata).
Proof.
  unfold Vm.setupkvm, Vm.fill. steady. generalize (Vm.kmap kdata) as l. induction l as [|[[[x0 x1] x2] x3] l IH]; cbn [Vm.setupkvm_loop]; steady.
Qed.
Hint Resolve steady_setupkvm : steady.
Lemma steady_inituvm d l : steady (Vm.inituvm d l).
Proof. unfold Vm.inituvm, Vm.fill. steady. Qed.
Lemma steady_allocuvm d a b : steady (Vm.allocuvm kend d a b).
Proof.
  unfold Vm.allocuvm. steady. generalize (Z.to_nat ((b - PGROUNDUP a) / PGSIZE + 1)) as k. intros k. generalize (PGROUNDUP a).
  induction k as [|k IH]; intros; cbn [Vm.allocuvm_loop]; unfold Vm.fill; steady.
Qed.
Lemma steady_copyuvm d n : steady (Vm.copyuvm kend kdata d n).
Proof.
  unfold Vm.copyuvm. steady. generalize (Z.to_nat (n / PGSIZE + 1)) as k. intros k. generalize 0.
  induction k as [|k IH]; intros; cbn [Vm.copyuvm_loop]; unfold Vm.ld, Vm.copy; steady.
Qed.
End steady.
#[export] Hint Resolve steady_kalloc steady_kfree steady_setupkvm steady_inituvm steady_allocuvm steady_deallocuvm steady_copyuvm steady_freevm : steady.

End Kernel.
