(* ===== verification/Main.v ===== *)
(** * main.c: the start of the system

    [main] on the boot processor, with the initialisers of all components in the
    order in which it calls them, and the start of the other processors:
    [startothers], the 32-bit part of entryother.S, [mpenter] and [mpmain]. The theorem
    accounts for physical memory at the end of the set-up; Start.v goes on to the
    first process. *)

From Stdlib Require Import FunctionalExtensionality.
From S2P Require Import Prelude Layout Memory Cstring Kalloc Vm Seg Proc Signal Sched Bio Log Block Fs FsRw Console Mp Apic Machine File Sysfile Kernel.

Module Main.
Import Proc Machine LogBlocks.

(** ** The machine at start *)

(** A processor: its [started] flag, what entryother.S and the kernel load into
    it, its descriptor tables and its local APIC *)
Record cpu := mk_cpu {
  c_started : Z;
  c_cr3 : Z;
  c_esp : Z;
  c_tabs : Seg.tables;
  c_lapic : Apic.apic;
}.
Definition set_started (x : Z) (c : cpu) : cpu := mk_cpu x (c_cr3 c) (c_esp c) (c_tabs c) (c_lapic c).
Definition set_ccr3 (x : Z) (c : cpu) : cpu := mk_cpu (c_started c) x (c_esp c) (c_tabs c) (c_lapic c).
Definition set_cesp (x : Z) (c : cpu) : cpu := mk_cpu (c_started c) (c_cr3 c) x (c_tabs c) (c_lapic c).
Definition set_ctabs (x : Seg.tables) (c : cpu) : cpu := mk_cpu (c_started c) (c_cr3 c) (c_esp c) x (c_lapic c).
Definition set_clapic (x : Apic.apic) (c : cpu) : cpu := mk_cpu (c_started c) (c_cr3 c) (c_esp c) (c_tabs c) x.

Abbreviation kenv := (Sysfile.kenv (B:=Log.lstate) (U:=machine)).

(** The kernel of Kernel.v, the processors, the variables of mp.c and vm.c, the
    interrupt controllers, and the bytes written to the registers of the UART *)
Record boot := mk_boot {
  sys : pstate kenv;
  cpus : list cpu;
  self : nat;                    (** [mycpu()] *)
  mpvars : Mp.mpstate;
  kpgdir : Z;
  apic : Apic.apic;
  uart_regs : list (Z * Z);
}.
Definition set_sys (x : pstate kenv) (s : boot) : boot := mk_boot x (cpus s) (self s) (mpvars s) (kpgdir s) (apic s) (uart_regs s).
Definition set_cpus (x : list cpu) (s : boot) : boot := mk_boot (sys s) x (self s) (mpvars s) (kpgdir s) (apic s) (uart_regs s).
Definition set_mpvars (x : Mp.mpstate) (s : boot) : boot := mk_boot (sys s) (cpus s) (self s) x (kpgdir s) (apic s) (uart_regs s).
Definition set_kpgdir (x : Z) (s : boot) : boot := mk_boot (sys s) (cpus s) (self s) (mpvars s) x (apic s) (uart_regs s).
Definition set_apic (x : Apic.apic) (s : boot) : boot := mk_boot (sys s) (cpus s) (self s) (mpvars s) (kpgdir s) x (uart_regs s).
Definition set_uart_regs (x : list (Z * Z)) (s : boot) : boot := mk_boot (sys s) (cpus s) (self s) (mpvars s) (kpgdir s) (apic s) x.

Abbreviation B := (M boot).

Definition on_sys {A} (m : M (pstate kenv) A) : B A := zoom sys set_sys m.
Definition machine_of (s : boot) : machine := Sysfile.kuser (env (sys s)).
Definition set_machine (x : machine) (s : boot) : boot := set_sys (set_env (Sysfile.set_kuser x (env (sys s))) (sys s)) s.
Definition mem_of (s : boot) : Kalloc.kmem := mm (machine_of s).
Definition set_mem (x : Kalloc.kmem) (s : boot) : boot := set_machine (set_mm x (machine_of s)) s.
Definition on_mem {A} (m : M Kalloc.kmem A) : B A := zoom mem_of set_mem m.
Definition on_con {A} (m : M Console.cstate A) : B A :=
  zoom (λ s, con (machine_of s)) (λ x s, set_machine (set_con x (machine_of s)) s) m.
Definition on_apic {A} (m : M Apic.apic A) : B A := zoom apic set_apic m.
Definition on_blocks {A} (m : M Bio.bstate A) : B A := on_sys (on_env (Kernel.on_files (File.on_fs (Fs.blk (Log.bio m))))).
Definition upd_cpu (i : nat) (f : cpu → cpu) : B unit := modify (λ s, set_cpus (alter f i (cpus s)) s).

(** Operations on the local APIC of processor [i]: lapic.c addresses all of them
    through its variable [lapic]. *)
Definition set_lapic (x : Z) (a : Apic.apic) : Apic.apic :=
  Apic.mk_apic (Apic.io_index a) (Apic.io_regs a) (Apic.pic_mask a) x (Apic.lregs a) (Apic.ipis a) (Apic.cmos_index a) (Apic.cmos a)
    (Apic.cmos_reads a) (Apic.shutdown a) (Apic.wrv a).
Definition on_lapic {A} (i : nat) (m : M Apic.apic A) : B A :=
  zoom (λ s, set_lapic (Apic.lapic (apic s)) (from_option c_lapic (apic s) (cpus s !! i)))
    (λ a s, set_cpus (alter (set_clapic a) i (cpus s)) s) m.

(** [mpinit] reads physical memory and sets the variable [lapic] of lapic.c. *)
Definition mp_view (s : boot) : Mp.mpstate :=
  let v := mpvars s in Mp.mk_mpstate (Kalloc.kmemory (mem_of s)) (Mp.apicids v) (Mp.ioapicid v) (Mp.lapic v) (Mp.imcr v).
Definition mpinit : B unit :=
  zoom mp_view set_mpvars Mp.mpinit ;;
  modify (λ s, set_apic (set_lapic (Mp.lapic (mpvars s)) (apic s)) s).

(** ** uart.c *)

Definition COM1 : Z := 0x3f8.
Definition IRQ_COM1 : Z := 4.
Definition IRQ_KBD : Z := 1.

Definition outb (port v : Z) : B unit := modify (λ s, set_uart_regs (uart_regs s ++ [(port, v)]) s).

(** [status] is what the line status register reads; the reads that acknowledge
    pending interrupts change nothing here. *)
Definition uartinit (status : Z) : B unit :=
  outb (COM1 + 2) 0 ;;
  outb (COM1 + 3) 0x80 ;;
  outb (COM1 + 0) (115200 / 9600) ;;
  outb (COM1 + 1) 0 ;;
  outb (COM1 + 3) 0x03 ;;
  outb (COM1 + 4) 0 ;;
  outb (COM1 + 1) 0x01 ;;
  if status =? 0xFF then mret () else
  on_con (modify (λ c, Console.mk_cstate (Console.locking c) (Console.panicked c) true (Console.crt c) (Console.cursor c) (Console.buf c)
    (Console.r c) (Console.w c) (Console.e c))) ;;
  on_apic (Apic.ioapicenable IRQ_COM1 0) ;;
  for_each (bytes "xv6..." ++ [10]) (λ c, on_con (Console.uartputc c)).

(** ** Operations that leave memory alone *)

Definition returns {S A} (m : M S A) : Prop := ∀ s, wp m s (λ _ _ _, True).

Lemma returns_bind {S A C} (m : M S A) (k : A → M S C) : returns m → (∀ a, returns (k a)) → returns (m ≫= k).
Proof. intros Hm Hk s. apply wp_bind. eapply wp_mono; [apply Hm|]. intros a s' tr _. apply Hk. Qed.

Lemma returns_for_each {S A} (l : list A) (f : A → M S unit) : (∀ x, returns (f x)) → returns (for_each l f).
Proof. intros Hf. induction l as [|x l IH]; [done|]. cbn [for_each]. apply returns_bind; auto. Qed.

Lemma returns_when {S} b (m : M S unit) : returns m → returns (when b m).
Proof. intros Hm. by destruct b. Qed.

Ltac returns :=
  repeat lazymatch goal with
  | |- returns (mbind _ _) => apply returns_bind; [|intros ?]
  | |- returns (for_each _ _) => apply returns_for_each; intros ?
  | |- returns (when _ _) => apply returns_when
  | |- returns (modify _) => intros ?; apply wp_modify; exact I
  | |- returns (gets _) => intros ?; apply wp_gets; exact I
  | |- returns (emit _) => intros ?; apply wp_emit; exact I
  | |- returns (cprintf _ _) => intros ?; apply wp_emit; exact I
  | |- returns (mret _) => intros ?; apply wp_ret; exact I
  end.

Lemma wp_lapicw i v a (Q : unit → Apic.apic → list event → Prop) :
  (∀ a', Apic.lregs a' i = u32 v → Q () a' []) → wp (Apic.lapicw i v) a Q.
Proof. intros HQ. apply wp_modify, HQ. apply mset_same. Qed.

Lemma lapicinit_returns : returns Apic.lapicinit.
Proof.
  intros s. unfold Apic.lapicinit. apply wp_bind, wp_gets. destruct (_ =? 0); [done|].
  do 6 (apply wp_bind, wp_lapicw; intros ? _). apply wp_bind, wp_gets. apply wp_bind. unfold when.
  destruct (_ <=? _); [apply wp_lapicw; intros ? _ | apply wp_ret].
  all: do 5 (apply wp_bind, wp_lapicw; intros ? _); apply wp_bind, wp_lapicw; intros ? E; apply wp_bind, wp_gets; rewrite E; by apply wp_lapicw.
Qed.

Lemma ioapicinit_returns id : returns (Apic.ioapicinit id).
Proof. unfold Apic.ioapicinit, Apic.ioapicread, Apic.ioapicwrite. returns. Qed.

Lemma lapicstartap_returns id a : returns (Apic.lapicstartap id a).
Proof. unfold Apic.lapicstartap, Apic.select, Apic.outb_cmos, Apic.lapicw. returns. Qed.

Lemma binit_returns : returns Bio.binit.
Proof. unfold Bio.binit, Bio.set_prev, Bio.set_next, Bio.get_next, Bio.updb. returns. Qed.

(** The process table and the inode cache *)
Definition tables_of (s : boot) := (procs (sys s), nextpid (sys s), Fs.icache (File.ffs (Sysfile.kfile (env (sys s))))).

(** The parts of the state that matter to memory and to the first process *)
Definition same (s s' : boot) : Prop :=
  mem_of s' = mem_of s ∧ cr3 (machine_of s') = cr3 (machine_of s) ∧ kpgdir s' = kpgdir s ∧ self s' = self s ∧ mpvars s' = mpvars s ∧
  length (cpus s') = length (cpus s) ∧ tables_of s' = tables_of s.

Lemma same_trans s1 s2 s3 : same s1 s2 → same s2 s3 → same s1 s3.
Proof. unfold same. intros (?&?&?&?&?&?&?) (?&?&?&?&?&?&?). split_and!; congruence. Qed.

Definition still {A} (m : B A) : Prop := ∀ s, wp m s (λ _ s' _, same s s').

Lemma still_bind {A C} (m : B A) (k : A → B C) : still m → (∀ a, still (k a)) → still (m ≫= k).
Proof.
  intros Hm Hk s. apply wp_bind. eapply wp_mono; [apply Hm|]. intros a s1 tr Hs1. eapply wp_mono; [apply Hk|].
  intros b s2 tr2 Hs2. by apply (same_trans s s1).
Qed.

Lemma still_for_each {A} (l : list A) (f : A → B unit) : (∀ x, still (f x)) → still (for_each l f).
Proof. intros Hf. induction l as [|x l IH]; [by intros s; apply wp_ret|]. cbn [for_each]. apply still_bind; auto. Qed.

Lemma still_apic {A} (m : M Apic.apic A) : returns m → still (on_apic m).
Proof. intros Hm s. apply wp_zoom. eapply wp_mono; [apply Hm|]. by intros. Qed.

Lemma still_con {A} (m : M Console.cstate A) : returns m → still (on_con m).
Proof. intros Hm s. apply wp_zoom. eapply wp_mono; [apply Hm|]. by intros. Qed.

Lemma still_blocks {A} (m : M Bio.bstate A) : returns m → still (on_blocks m).
Proof. intros Hm s. do 6 apply wp_zoom. eapply wp_mono; [apply Hm|]. by intros. Qed.

Lemma still_cpu i f : still (upd_cpu i f).
Proof. intros s. apply wp_modify. unfold same. cbn. by rewrite length_alter. Qed.

Lemma still_ret {A} (a : A) : still (mret a).
Proof. intros s. by apply wp_ret. Qed.

Lemma still_gets {A} (f : boot → A) : still (gets f).
Proof. intros s. by apply wp_gets. Qed.

Lemma still_outb port v : still (outb port v).
Proof. intros s. by apply wp_modify. Qed.

Lemma uartinit_still status : still (uartinit status).
Proof.
  unfold uartinit. repeat (apply still_bind; [apply still_outb | intros _]). destruct (_ =? _); [apply still_ret|].
  apply still_bind; [apply still_con; returns | intros _]. apply still_bind; [apply still_apic; unfold Apic.ioapicenable, Apic.ioapicwrite; returns | intros _].
  apply still_for_each. intros c. apply still_con. unfold Console.uartputc. returns.
Qed.

(** A still operation before the rest *)
Lemma wp_still {A C} s0 (m : B A) (k : A → B C) s R : still m → same s0 s → (∀ a s', same s0 s' → wp (k a) s' (λ _ s'' _, R s'')) →
  wp (m ≫= k) s (λ _ s'' _, R s'').
Proof. intros Hm Hs0 Hk. apply wp_bind. eapply wp_mono; [apply Hm|]. intros a s' tr Hs. apply Hk. by apply (same_trans _ s). Qed.

Section main.
(** From the linker and the assembler *)
Context (kend kdata forkret_addr trapret_addr SIGCONT_handler_addr : Z) (initcode entryother : list Z).
Context (entrypgdir mpenter_addr : Z) (gdt_addr : nat → Z) (idt_addr : Z) (vectors : nat → Z).
(** The drivers of device inodes, uninitialised memory, the disk image of memide.c,
    the UART's status, and the processors that answer *)
Abbreviation fstate := (Fs.fstate (B:=Log.lstate)).
Context (devsw_read : Z → option (nat → Z → M fstate (Z * list Z))).
Context (junk : list Z) (image : Z → list Z) (image_size uart_status : Z) (responds : nat → bool).

(** ** vm.c *)

Definition switchkvm : B unit :=
  modify (λ s, set_machine (set_cr3 (V2P (kpgdir s)) (machine_of s)) s).
Definition kvmalloc : B unit :=
  d ← on_mem (Vm.setupkvm kend kdata) ;
  modify (set_kpgdir d) ;;
  switchkvm.
Definition seginit (i : nat) : B unit := upd_cpu i (λ c, set_ctabs (Seg.seginit (gdt_addr i) (c_tabs c)) c).

(** ** The other processors *)

Definition idtinit (i : nat) : B unit := upd_cpu i (λ c, set_ctabs (Seg.idtinit idt_addr (c_tabs c)) c).

(** [mpmain] up to the call of [scheduler] *)
Definition mpmain (i : nat) : B unit :=
  cprintf "cpu%d: starting %d\n" [Z.of_nat i; Z.of_nat i] ;;
  idtinit i ;;
  upd_cpu i (set_started 1).

(** [mpenter] on processor [i] *)
Definition mpenter (i : nat) : B unit :=
  s ← get_state ;
  upd_cpu i (set_ccr3 (V2P (kpgdir s))) ;;
  seginit i ;;
  on_lapic i Apic.lapicinit ;;
  mpmain i.

(** Where the copy of entryother.S starts *)
Definition code : Z := P2V 0x7000.

(** entryother.S on processor [i], from the setting of the page directory on: it
    finds the three words below its code. Entry.v has all of its instructions. *)
Definition start_ap (i : nat) : B unit :=
  m ← gets (λ s, Kalloc.kmemory (mem_of s)) ;
  upd_cpu i (set_ccr3 (load32 m (code - 12))) ;;
  upd_cpu i (set_cesp (load32 m (code - 4))) ;;
  if load32 m (code - 8) =? mpenter_addr then mpenter i else undefined "entry of a processor".

Definition poke (a v : Z) : B unit :=
  on_mem (modify (λ k, Kalloc.mk_kmem (Kalloc.use_lock k) (Kalloc.freelist k) (store32 (Kalloc.kmemory k) a v))).

Definition startother (i : nat) : B unit :=
  me ← gets self ;
  if (i =? me)%nat then mret () else
  stack ← on_mem Kalloc.kalloc ;
  poke (code - 4) (u32 (stack + KSTACKSIZE)) ;;
  poke (code - 8) mpenter_addr ;;
  poke (code - 12) (V2P entrypgdir) ;;
  id ← gets (λ s, default 0 (Mp.apicids (mpvars s) !! i)) ;
  on_apic (Apic.lapicstartap id (V2P code)) ;;
  when (responds i) (start_ap i) ;;
  st ← gets (λ s, from_option c_started 0 (cpus s !! i)) ;
  if st =? 0 then halt else mret ().

Definition startothers : B unit :=
  on_mem (modify (λ k, Kalloc.mk_kmem (Kalloc.use_lock k) (Kalloc.freelist k) (write_bytes (Kalloc.kmemory k) code entryother))) ;;
  n ← gets (λ s, Mp.ncpu (mpvars s)) ;
  for_each (seq 0 n) startother.

(** ** main *)

Definition lapicinit : B unit := on_apic Apic.lapicinit.
Definition ioapicinit : B unit := id ← gets (λ s, Mp.ioapicid (mpvars s)) ; on_apic (Apic.ioapicinit id).
Definition consoleinit : B unit := on_con (modify Console.consoleinit) ;; on_apic (Apic.ioapicenable IRQ_KBD 0).

(** The table of gates is shared by the processors. *)
Definition tvinit : B unit := modify (λ s, set_cpus ((λ c, set_ctabs (Seg.tvinit vectors (c_tabs c)) c) <$> cpus s) s).

(** Physical memory below 4 Mbyte, and all of it *)
Definition LOWMEM : Z := P2V (4 * 1024 * 1024).

(** [main] up to [kinit2]. [pinit] and [fileinit] only initialise locks. *)
Definition main_setup : B unit :=
  on_mem (Kalloc.kinit1 kend kend LOWMEM) ;;
  kvmalloc ;;
  mpinit ;;
  lapicinit ;;
  me ← gets self ;
  seginit me ;;
  on_apic Apic.picinit ;;
  ioapicinit ;;
  consoleinit ;;
  uartinit uart_status ;;
  tvinit ;;
  on_blocks Bio.binit ;;
  on_blocks (Bio.ideinit image image_size) ;;
  startothers ;;
  on_mem (Kalloc.kinit2 kend LOWMEM (P2V PHYSTOP)).

Definition userinit : B unit :=
  d ← gets kpgdir ;
  on_sys (@Sched.userinit kenv (Kernel.kernel_env kend kdata d initcode devsw_read junk) forkret_addr trapret_addr).

(** The first [rounds] rounds of the scheduler, [run] what the chosen process
    does *)
Definition main (run : nat → M (pstate kenv) unit) (rounds : nat) : B unit :=
  main_setup ;;
  userinit ;;
  me ← gets self ;
  mpmain me ;;
  d ← gets kpgdir ;
  on_sys (@Sched.scheduler kenv (Kernel.kernel_env kend kdata d initcode devsw_read junk) SIGCONT_handler_addr run rounds).

(** ** The memory of the set-up *)

Local Abbreviation free_list := (Kalloc.free_list kend).
Local Abbreviation pt_rep := (Vm.pt_rep kend).

(** Memory above [kend] is the same. *)
Definition same_above (m m' : mem) : Prop := ∀ x, kend ≤ x → m' x = m x.

Lemma chain_above m m' l : same_above m m' → Forall (Kalloc.page_ok kend) l → ∀ p, Kalloc.chain m p l → Kalloc.chain m' p l.
Proof using.
  intros Hs Hl. induction Hl as [|v l (_ & Hv & _) _ IH]; intros p; cbn [Kalloc.chain]; [done|].
  intros [-> Hc]. split; [done|]. apply IH. unfold load32 in *. by rewrite !Hs by lia.
Qed.

Lemma free_list_above k k' l : free_list k l → Kalloc.freelist k' = Kalloc.freelist k → same_above (Kalloc.kmemory k) (Kalloc.kmemory k') →
  free_list k' l.
Proof using. intros (Hc & Hn & Hl) Hf Hs. split; [|done]. rewrite Hf. by eapply chain_above. Qed.

(** A directory below [top] depends only on the memory between [kend] and [top]. *)
Lemma pt_rep_between top m m' d tabs : pt_rep m d tabs → (∀ p, Vm.owns d tabs p → p + PGSIZE ≤ top) → (∀ x, kend ≤ x < top → m' x = m x) →
  pt_rep m' d tabs ∧ ∀ va, Vm.pte m' tabs va = Vm.pte m tabs va.
Proof using.
  intros Hrep Htop Hs. assert (∀ p i, Vm.owns d tabs p → 0 ≤ i < 1024 → load32 m' (p + 4 * i) = load32 m (p + 4 * i)) as Hl.
  { intros p i Hp Hi. destruct (Vm.owns_ok kend m d tabs p Hrep Hp) as (_ & ? & _). specialize (Htop p Hp). unfold load32, PGSIZE in *.
    by rewrite !Hs by lia. }
  destruct Hrep as (Hd & Ht & Hinj). split.
  - split; [done|]. split; [|done]. intros i Hi. rewrite Hl by (done || by left). by apply Ht.
  - intros va. unfold Vm.pte. destruct (tabs (PDX va)) as [t|] eqn:Hva; [|done]. apply Hl; [by eapply Vm.owns_table | apply Vm.PTX_range].
Qed.

Lemma consoleinit_still : still consoleinit.
Proof using.
  apply still_bind; [apply still_con; returns | intros _]. apply still_apic. unfold Apic.ioapicenable, Apic.ioapicwrite. returns.
Qed.

Lemma tvinit_still : still tvinit.
Proof using. intros s. apply wp_modify. unfold same. cbn. by rewrite length_fmap. Qed.

(** The kernel's page directory is in use, beside the free pages [l]. *)
Definition kmapped (s : boot) (l : list Z) (tabs : Z → option Z) : Prop :=
  free_list (mem_of s) l ∧ pt_rep (Kalloc.kmemory (mem_of s)) (kpgdir s) tabs ∧
  (∀ va, 0 ≤ va < 2 ^ 32 → Vm.pte (Kalloc.kmemory (mem_of s)) tabs va = default 0 (Vm.kent (Vm.kmap kdata) va)) ∧
  cr3 (machine_of s) = V2P (kpgdir s) ∧ ∀ p, Vm.owns (kpgdir s) tabs p → p ∉ l.

Lemma kmapped_same s s' l tabs : same s s' → kmapped s l tabs → kmapped s' l tabs.
Proof using. intros (Em & Ec & Ek & _) H. unfold kmapped. by rewrite Em, Ec, Ek. Qed.

(** The kernel and its free list in the first 4 Mbyte, with room for the page
    tables of the kernel and the stacks of the processors *)
Context (kend_low : KERNBASE + 0x100000 ≤ kend) (kend_room : kend ≤ KERNBASE + 0x1F0000).

Lemma kend_high : KERNBASE < kend.
Proof using kend_low. by eapply Z.lt_le_trans, kend_low. Qed.

Lemma kinit1_run k : Kalloc.freelist k = 0 →
  wp (Kalloc.kinit1 kend kend LOWMEM) k (λ _ k' _, ∃ l,
    free_list k' l ∧ (∀ x, x < kend → Kalloc.kmemory k' x = Kalloc.kmemory k x) ∧ (528 ≤ length l)%nat ∧
    ∀ v, v ∈ l ↔ v mod PGSIZE = 0 ∧ kend ≤ v ∧ v + PGSIZE ≤ LOWMEM).
Proof using kend_low kend_room.
  intros Hf. unfold Kalloc.kinit1. apply wp_bind, wp_modify.
  eapply wp_mono; [apply (Kalloc.freerange_run kend kend_high _ [])|].
  - split; [done|]. split; constructor.
  - change LOWMEM with (KERNBASE + 0x400000). lia.
  - done.
  - intros v []%not_elem_of_nil.
  - intros _ k' tr (l & Hl & _ & Hm & Hlen & Hin). exists l. rewrite app_nil_r in Hl. split_and!; [done | done | | done].
    rewrite Hlen. change LOWMEM with (KERNBASE + 0x400000). clear -kend_low kend_room. unfold KERNBASE in *.
    destruct (PGROUNDUP_bounds kend) as [? ?]; [unfold PGSIZE; lia|]. unfold PGSIZE in *. Z.div_mod_to_equations. lia.
Qed.

Lemma kinit2_run k l : free_list k l → (∀ p, p ∈ l → p + PGSIZE ≤ LOWMEM) →
  wp (Kalloc.kinit2 kend LOWMEM (P2V PHYSTOP)) k (λ _ k' _, ∃ new,
    free_list k' (new ++ l) ∧ Kalloc.use_lock k' = true ∧ 50000 ≤ length new ∧ (∀ x, x < LOWMEM → Kalloc.kmemory k' x = Kalloc.kmemory k x) ∧
    ∀ v, v ∈ new ↔ v mod PGSIZE = 0 ∧ LOWMEM ≤ v ∧ v + PGSIZE ≤ KERNBASE + PHYSTOP).
Proof using kend_low kend_room.
  intros Hl Hlow. unfold Kalloc.kinit2. change (P2V PHYSTOP) with (KERNBASE + PHYSTOP).
  apply wp_bind. eapply wp_mono; [apply (Kalloc.freerange_run kend kend_high _ l _ _ Hl)|].
  - change LOWMEM with (KERNBASE + 0x400000). unfold PHYSTOP. lia.
  - done.
  - intros v Hv. specialize (Hlow v Hv). unfold PGSIZE in Hlow. lia.
  - intros _ k' _ (new & Hl' & _ & Hm & Hlen & Hin). apply wp_modify. exists new. split_and!; try done. rewrite Hlen. by rewrite Z2Nat.id.
Qed.

Context (data_ok : Vm.data_ok kdata).

Lemma kvmalloc_run s l : free_list (mem_of s) l → (528 ≤ length l)%nat →
  wp kvmalloc s (λ _ s' _, ∃ l' tabs, kmapped s' l' tabs ∧ (15 ≤ length l')%nat ∧ (∀ p, p ∈ l ↔ p ∈ l' ∨ Vm.owns (kpgdir s') tabs p) ∧
    (∀ x, x < kend → Kalloc.kmemory (mem_of s') x = Kalloc.kmemory (mem_of s) x) ∧ cpus s' = cpus s ∧ self s' = self s ∧ mpvars s' = mpvars s ∧ tables_of s' = tables_of s).
Proof using kend_low data_ok.
  intros Hl Hlen. unfold kvmalloc, switchkvm. apply wp_bind, wp_zoom.
  eapply wp_mono; [apply (Vm.setupkvm_spec kend kdata kend_high (mem_of s) l data_ok Hl)|].
  intros d k tr [[_ Hoff] [(_ & ? & _)|(l' & tabs & Hd & Hsp & Hpool & Hlen' & Hpte)]]; [lia|].
  apply wp_bind, wp_modify, wp_modify. exists l', tabs. destruct Hsp as ((Hfl & Hrep & Hown) & _). split_and!; try done.
  - lia.
  - intros p. rewrite <- Hpool. unfold Vm.pool. cbn. split; [intros [?|[?|(? & ? & [=])]]; auto | intros [?|?]; auto].
  - intros x Hx. apply Hoff. intros p Hp. destruct Hl as (_ & _ & Hl). destruct (proj1 (Forall_forall _ _) Hl p Hp) as (_ & ? & _).
    unfold Vm.in_page. lia.
Qed.

(** All processors start. *)
Context (mpenter_ok : 0 ≤ mpenter_addr < 2 ^ 32) (all_respond : ∀ i, responds i = true).

Lemma mpenter_run i s c : cpus s !! i = Some c →
  wp (mpenter i) s (λ _ s' _, ∃ c', s' = set_cpus (<[i := c']> (cpus s)) s ∧ c_started c' = 1 ∧ c_cr3 c' = V2P (kpgdir s) ∧ c_esp c' = c_esp c).
Proof using.
  intros Hc. unfold mpenter, seginit, on_lapic, mpmain, idtinit, upd_cpu.
  apply wp_bind, wp_get_state. apply wp_bind, wp_modify. apply wp_bind, wp_modify. apply wp_bind, wp_zoom.
  eapply wp_mono; [apply lapicinit_returns|]. intros _ a _ _. apply wp_bind, wp_emit. apply wp_bind, wp_modify. apply wp_modify.
  cbn [cpus set_cpus kpgdir]. rewrite (alter_as_insert _ _ _ _ Hc), !alter_insert by by eapply lookup_lt_Some.
  eexists. split; [reflexivity | done].
Qed.

Lemma start_ap_run i s c : cpus s !! i = Some c → load32 (Kalloc.kmemory (mem_of s)) (code - 8) = mpenter_addr →
  wp (start_ap i) s (λ _ s' _, ∃ c', s' = set_cpus (<[i := c']> (cpus s)) s ∧ c_started c' = 1 ∧ c_cr3 c' = V2P (kpgdir s) ∧
    c_esp c' = load32 (Kalloc.kmemory (mem_of s)) (code - 4)).
Proof using.
  intros Hc Hm. unfold start_ap, upd_cpu. apply wp_bind, wp_gets. apply wp_bind, wp_modify. apply wp_bind, wp_modify.
  rewrite Hm, Z.eqb_refl. cbn [cpus set_cpus]. rewrite (alter_as_insert _ _ _ _ Hc), alter_insert by by eapply lookup_lt_Some.
  eapply wp_mono; [apply mpenter_run; cbn [cpus set_cpus]; apply list_lookup_insert_eq; by eapply lookup_lt_Some|].
  intros _ s' _ (c' & -> & H1 & H2 & H3). exists c'. split; [cbn [cpus set_cpus]; by rewrite list_insert_insert_eq|]. done.
Qed.

(** What the start of a processor leaves alone *)
Definition aside (s s' : boot) : Prop :=
  kpgdir s' = kpgdir s ∧ self s' = self s ∧ mpvars s' = mpvars s ∧ cr3 (machine_of s') = cr3 (machine_of s) ∧
  tables_of s' = tables_of s ∧ same_above (Kalloc.kmemory (mem_of s)) (Kalloc.kmemory (mem_of s')).

Lemma aside_trans s1 s2 s3 : aside s1 s2 → aside s2 s3 → aside s1 s3.
Proof using. intros (?&?&?&?&?&Hs1) (?&?&?&?&?&Hs2). split_and!; try congruence. intros x Hx. by rewrite Hs2, Hs1. Qed.

(** Processor [c] runs the kernel, on the stack in page [p] and with the page
    directory [d]. *)
Definition started (d p : Z) (c : cpu) : Prop := c_started c = 1 ∧ c_cr3 c = V2P d ∧ c_esp c = p + KSTACKSIZE.

Lemma startother_run i s c v l : i ≠ self s → cpus s !! i = Some c → free_list (mem_of s) (v :: l) →
  wp (startother i) s (λ _ s' _, ∃ c', cpus s' = <[i := c']> (cpus s) ∧ started (kpgdir s) v c' ∧ free_list (mem_of s') l ∧ aside s s').
Proof using kend_low mpenter_ok all_respond.
  intros Hi Hc Hl. unfold startother. apply wp_bind, wp_gets. rewrite (proj2 (Nat.eqb_neq _ _) Hi). apply wp_bind, wp_zoom.
  eapply wp_mono; [apply (Kalloc.kalloc_spec kend kend_high _ _ Hl)|]. intros r k _ (Hm & _ & _ & -> & Hl').
  destruct (Vm.free_list_head kend _ _ _ Hl) as [(Hv1 & Hv2 & Hv3) _].
  unfold poke. do 3 (apply wp_bind, wp_zoom, wp_modify). apply wp_bind, wp_gets. apply wp_bind, wp_zoom.
  eapply wp_mono; [apply lapicstartap_returns|]. intros _ a _ _. rewrite all_respond. unfold when. apply wp_bind.
  eapply wp_mono; [apply (start_ap_run i _ c)|].
  { done. }
  { cbn. rewrite load_store32_other, load_store32_same by lia. by apply u32_small. }
  intros _ s' _ (c' & -> & H1 & H2 & H3). apply wp_bind, wp_gets. cbn in H3.
  rewrite !load_store32_other, load_store32_same in H3 by lia. change (c_cr3 c' = V2P (kpgdir s)) in H2.
  cbn [cpus set_cpus]. rewrite list_lookup_insert_eq by by eapply lookup_lt_Some. cbn [from_option]. rewrite H1. apply wp_ret.
  assert (0 ≤ v + KSTACKSIZE < 2 ^ 32) as Hr by (unfold KSTACKSIZE, KERNBASE, PHYSTOP in *; lia). rewrite !(u32_small _ Hr) in H3.
  exists c'. split; [done|]. split; [done|].
  assert (same_above (Kalloc.kmemory (mem_of s))
    (store32 (store32 (store32 (Kalloc.kmemory k) (code - 4) (u32 (v + KSTACKSIZE))) (code - 8) mpenter_addr) (code - 12) (V2P entrypgdir))) as Hs.
  { intros x Hx. change code with (KERNBASE + 0x7000). rewrite !store32_outside by lia. by rewrite Hm. }
  split; [|done]. eapply (free_list_above k); [done | done |]. rewrite <- Hm in Hs. exact Hs.
Qed.

Lemma startothers_loop ns : ∀ s l, NoDup ns → (∀ i, i ∈ ns → (i < length (cpus s))%nat) → free_list (mem_of s) l → (length ns ≤ length l)%nat →
  wp (for_each ns startother) s (λ _ s' _, ∃ l' stacks,
    l = stacks.*2 ++ l' ∧ free_list (mem_of s') l' ∧ aside s s' ∧ stacks.*1 = filter (λ i, i ≠ self s) ns ∧
    (∀ i, i ∉ stacks.*1 → cpus s' !! i = cpus s !! i) ∧
    ∀ i p, (i, p) ∈ stacks → ∃ c, cpus s' !! i = Some c ∧ started (kpgdir s) p c).
Proof using kend_low mpenter_ok all_respond.
  induction ns as [|i ns IH]; intros s l Hnd Hlt Hl Hlen; cbn [for_each].
  { apply wp_ret. exists l, []. split_and!; try done. intros i p []%not_elem_of_nil. }
  apply NoDup_cons in Hnd as [Hi Hnd]. cbn [length] in Hlen. destruct (decide (i = self s)) as [E|Hne].
  { apply wp_bind. unfold startother at 1. apply wp_bind, wp_gets. rewrite E, Nat.eqb_refl. apply wp_ret.
    eapply wp_mono; [apply (IH s l); [done | intros j Hj; apply Hlt; by right | done | clear -Hlen; lia]|]. intros _ s' _ (l' & stacks & H1). exists l', stacks.
    rewrite filter_cons_False by (intros H; by apply H). exact H1. }
  destruct l as [|v l]; [cbn in Hlen; clear -Hlen; lia|]. destruct (lookup_lt_is_Some_2 (cpus s) i) as [c Hc]; [apply Hlt; by left|].
  apply wp_bind. eapply wp_mono; [by apply (startother_run i s c v l)|]. intros _ s1 _ (c1 & Hc1 & Hst1 & Hl1 & Ha1).
  eapply wp_mono; [apply (IH s1 l); [done | | done | cbn in Hlen; clear -Hlen; lia]|].
  { intros j Hj. rewrite Hc1, length_insert. apply Hlt. by right. }
  intros _ s2 _ (l2 & stacks & -> & Hl2 & Ha2 & Hf & Hother & Hst). exists l2, ((i, v) :: stacks).
  pose proof Ha1 as (Hk & Hme & _). rewrite Hk, Hme in *. rewrite filter_cons_True, <- Hf by done.
  assert (i ∉ stacks.*1) as His. { rewrite Hf. by intros [_ ?]%list_elem_of_filter. }
  split_and!; try done; [by eapply aside_trans | |].
  - cbn. intros j [Hj1 Hj2]%not_elem_of_cons. rewrite Hother, Hc1 by done. by apply list_lookup_insert_ne.
  - intros j p [[= -> ->]|Hin]%elem_of_cons; [|by apply Hst]. exists c1. split; [|done].
    rewrite Hother, Hc1 by done. apply list_lookup_insert_eq. by eapply lookup_lt_Some.
Qed.

(** [ids] are the processors in the tables of the firmware, which lie below the
    kernel's free memory. *)
Definition firmware (s : boot) (ids : list Z) : Prop :=
  ∀ m, (∀ x, x < kend → m x = Kalloc.kmemory (mem_of s) x) →
    ∃ conf mp es, Mp.mpconfig m = Some (conf, mp) ∧ Mp.table m conf es [] ∧ Mp.processors es = ids.

Lemma mpinit_run s0 s ids : firmware s0 ids → (∀ x, x < kend → Kalloc.kmemory (mem_of s) x = Kalloc.kmemory (mem_of s0) x) →
  Mp.apicids (mpvars s) = [] →
  wp mpinit s (λ _ s' _, ∃ v, Mp.apicids v = take NCPU ids ∧ mpvars s' = v ∧ same (set_mpvars v s) s').
Proof using.
  intros Hfw Hm Hids. destruct (Hfw _ Hm) as (conf & mp & es & Hconf & Ht & <-). unfold mpinit. apply wp_bind, wp_zoom.
  eapply wp_mono; [by apply (Mp.mpinit_correct (Kalloc.kmemory (mem_of s)) conf mp es)|]. intros _ v _ (_ & Hv & _). apply wp_modify. by exists v.
Qed.

(** entryother.S fits below the kernel's free memory. *)
Context (entry_fits : code + length entryother ≤ kend).

Lemma startothers_run s l tabs : kmapped s l tabs → (Mp.ncpu (mpvars s) ≤ length (cpus s))%nat → (Mp.ncpu (mpvars s) ≤ length l)%nat →
  wp startothers s (λ _ s' _, ∃ l' stacks, l = stacks.*2 ++ l' ∧ kmapped s' l' tabs ∧ kpgdir s' = kpgdir s ∧ tables_of s' = tables_of s ∧
    stacks.*1 = filter (λ i, i ≠ self s) (seq 0 (Mp.ncpu (mpvars s))) ∧
    ∀ i p, (i, p) ∈ stacks → ∃ c, cpus s' !! i = Some c ∧ started (kpgdir s) p c).
Proof using kend_low mpenter_ok all_respond entry_fits.
  intros (Hl & Hrep & Hpte & Hcr & Hown) Hc Hlen. unfold startothers. apply wp_bind, wp_zoom, wp_modify. apply wp_bind, wp_gets.
  set (s1 := set_mem _ s). assert (aside s s1) as Ha.
  { split_and!; try done. intros x Hx. cbn. rewrite write_bytes_outside; [done | lia]. }
  eapply wp_mono; [apply (startothers_loop _ s1 l)|].
  - apply NoDup_seq.
  - intros i Hi%elem_of_seq. cbn. change (Mp.ncpu (mpvars s1)) with (Mp.ncpu (mpvars s)) in Hi. lia.
  - eapply free_list_above; [done | done | apply Ha].
  - rewrite length_seq. done.
  - intros _ s' _ (l' & stacks & -> & Hl' & Ha' & Hst & _ & Hrun). exists l', stacks. split; [done|].
    pose proof (aside_trans _ _ _ Ha Ha') as (Hk & _ & _ & Hcr' & Htab & Hs). change (kpgdir s1) with (kpgdir s) in Hrun. change (self s1) with (self s) in Hst.
    split; [|by split_and!]. destruct (pt_rep_between (2 ^ 33) _ (Kalloc.kmemory (mem_of s')) _ _ Hrep) as [Hrep' Hpte'].
    { intros p Hp. destruct (Vm.owns_ok kend _ _ _ _ Hrep Hp) as (_ & _ & ?). unfold KERNBASE, PHYSTOP, PGSIZE in *. lia. }
    { intros x [Hx _]. by apply Hs. }
    unfold kmapped. rewrite Hk, Hcr'. split_and!; try done.
    + intros va Hva. rewrite Hpte'. by apply Hpte.
    + intros p Hp Hin. apply (Hown p Hp), elem_of_app. by right.
Qed.

(** The pages of [l] and of the directory make up the memory below [LOWMEM]: then
    [startothers] and [kinit2] account for all of it. *)
Lemma rest_run s l tabs : kmapped s l tabs → (Mp.ncpu (mpvars s) ≤ length (cpus s))%nat → (Mp.ncpu (mpvars s) ≤ length l)%nat →
  (∀ p, p ∈ l ∨ Vm.owns (kpgdir s) tabs p ↔ p mod PGSIZE = 0 ∧ kend ≤ p ∧ p + PGSIZE ≤ LOWMEM) →
  wp (startothers ;; on_mem (Kalloc.kinit2 kend LOWMEM (P2V PHYSTOP))) s (λ _ s' _, ∃ l' stacks,
    kmapped s' l' tabs ∧ Kalloc.use_lock (mem_of s') = true ∧ tables_of s' = tables_of s ∧ 50000 ≤ length l' ∧ stacks.*1 = filter (λ i, i ≠ self s) (seq 0 (Mp.ncpu (mpvars s))) ∧
    (∀ i p, (i, p) ∈ stacks → ∃ c, cpus s' !! i = Some c ∧ started (kpgdir s') p c) ∧
    NoDup (l' ++ stacks.*2) ∧ (∀ p, Vm.owns (kpgdir s') tabs p → p ∉ stacks.*2) ∧
    ∀ p, p ∈ l' ∨ p ∈ stacks.*2 ∨ Vm.owns (kpgdir s') tabs p ↔ p mod PGSIZE = 0 ∧ kend ≤ p ∧ p + PGSIZE ≤ KERNBASE + PHYSTOP).
Proof using kend_low kend_room mpenter_ok all_respond entry_fits.
  clear devsw_read image. intros Hk Hc Hlen Hall. apply wp_bind. eapply wp_mono; [by apply startothers_run|].
  intros _ s1 _ (l1 & stacks & -> & Hk1 & Hd & Htab & Hst & Hrun). pose proof Hk1 as (Hl1 & Hrep & Hpte & Hcr & Hown).
  destruct Hk as ((_ & Hnd & _) & _ & _ & _ & Hfree). rewrite <- Hd in *. setoid_rewrite elem_of_app in Hall.
  apply wp_zoom. eapply wp_mono; [apply (kinit2_run _ l1 Hl1)|].
  { intros p Hp. apply Hall. auto. }
  intros _ k _ (new & Hl' & Hu & Hmany & Hm & Hnew).
  destruct (pt_rep_between LOWMEM _ (Kalloc.kmemory k) _ _ Hrep) as [Hrep' Hpte'].
  { intros p Hp. apply Hall. auto. } { intros x [_ Hx]. by apply Hm. }
  assert (∀ p, p ∈ new → ¬ p + PGSIZE ≤ LOWMEM) as Hhigh by (intros p Hp%Hnew; unfold PGSIZE in *; lia).
  exists (new ++ l1), stacks. split_and!; try done.
  - split_and!; try done; [intros va Hva; cbn; rewrite Hpte'; by apply Hpte|]. cbn. intros p Hp [Hp'|Hp']%elem_of_app; [|by eapply Hown].
    apply (Hhigh p Hp'), Hall. auto.
  - rewrite length_app. clear -Hmany. lia.
  - destruct Hl' as (_ & Hnd' & _). apply NoDup_app. split; [done|]. apply NoDup_app in Hnd as (? & Hdis & _). split; [|done].
    intros p [Hp|Hp]%elem_of_app Hps; [apply (Hhigh p Hp), Hall; auto | by apply (Hdis p)].
  - cbn. intros p Hp Hps. apply (Hfree p Hp), elem_of_app. auto.
  - cbn. intros p. rewrite elem_of_app, Hnew. specialize (Hall p). change LOWMEM with (KERNBASE + 0x400000) in *. split.
    + intros Hp. destruct (decide (p mod PGSIZE = 0 ∧ KERNBASE + 0x400000 ≤ p ∧ p + PGSIZE ≤ KERNBASE + PHYSTOP)) as [?|Hno]; [lia|].
      destruct (proj1 Hall) as (? & ? & ?); [destruct Hp as [[?|?]|[?|?]]; auto; contradiction|]. unfold PHYSTOP. lia.
    + intros (H0 & H1 & H2). destruct (decide (p + PGSIZE ≤ KERNBASE + 0x400000)) as [Hp|Hp].
      * destruct (proj2 Hall) as [[?|?]|?]; auto.
      * left. left. split_and!; try done. unfold PGSIZE, KERNBASE in *. Z.div_mod_to_equations. lia.
Qed.

(** The set-up of [main] returns, and accounts for all of physical memory. On a
    machine whose firmware lists the processors [ids], each of which answers, every
    page from the end of the kernel to [PHYSTOP] is then exactly one of: free, the
    stack of one of the other processors, or part of the kernel's page directory.
    The directory maps [kmap] and nothing else and is in use on every processor;
    each of the other processors has started on a stack of its own. *)
Theorem main_setup_memory s ids :
  Kalloc.freelist (mem_of s) = 0 → Mp.apicids (mpvars s) = [] → length (cpus s) = NCPU → firmware s ids →
  wp main_setup s (λ _ s' _, ∃ l tabs stacks,
    kmapped s' l tabs ∧ Kalloc.use_lock (mem_of s') = true ∧ tables_of s' = tables_of s ∧ 50000 ≤ length l ∧
    stacks.*1 = filter (λ i, i ≠ self s) (seq 0 (length ids `min` NCPU)) ∧
    (∀ i p, (i, p) ∈ stacks → ∃ c, cpus s' !! i = Some c ∧ started (kpgdir s') p c) ∧
    NoDup (l ++ stacks.*2) ∧ (∀ p, Vm.owns (kpgdir s') tabs p → p ∉ stacks.*2) ∧
    ∀ p, p ∈ l ∨ p ∈ stacks.*2 ∨ Vm.owns (kpgdir s') tabs p ↔ p mod PGSIZE = 0 ∧ kend ≤ p ∧ p + PGSIZE ≤ KERNBASE + PHYSTOP).
Proof using kend_low kend_room data_ok mpenter_ok all_respond entry_fits.
  intros Hf Hids Hncpu Hfw. unfold main_setup. apply wp_bind, wp_zoom. eapply wp_mono; [by apply kinit1_run|].
  intros _ k1 _ (l1 & Hl1 & Hm1 & Hlen1 & Hin1). apply wp_bind. eapply wp_mono; [by apply (kvmalloc_run _ l1)|].
  intros _ s2 _ (l2 & tabs & Hk2 & Hlen2 & Hin2 & Hm2 & Hc2 & Hself2 & Hv2 & Htab2). apply wp_bind.
  eapply wp_mono; [apply (mpinit_run s _ ids Hfw); [intros x Hx; rewrite Hm2 by done; by apply Hm1 | by rewrite Hv2]|].
  intros _ s3 _ (v & Hv & Hv3 & Hs3). set (s2' := set_mpvars v s2) in *. assert (kmapped s2' l2 tabs) as Hk by exact Hk2.
  apply (wp_still s2'); [apply still_apic, lapicinit_returns | done | intros _ ? ?].
  apply (wp_still s2'); [apply still_gets | done | intros me ? ?].
  apply (wp_still s2'); [apply still_cpu | done | intros _ ? ?].
  apply (wp_still s2'); [apply still_apic; unfold Apic.picinit, Apic.outb_pic; returns | done | intros _ ? ?].
  apply (wp_still s2'); [apply still_bind; [apply still_gets | intros ?; apply still_apic, ioapicinit_returns] | done | intros _ ? ?].
  apply (wp_still s2'); [apply consoleinit_still | done | intros _ ? ?].
  apply (wp_still s2'); [apply uartinit_still | done | intros _ ? ?].
  apply (wp_still s2'); [apply tvinit_still | done | intros _ ? ?].
  apply (wp_still s2'); [apply still_blocks, binit_returns | done | intros _ ? ?].
  apply (wp_still s2'); [apply still_blocks; unfold Bio.ideinit; returns | done | intros _ s4 Hs4].
  pose proof Hs4 as (_ & _ & Hd & Hself & Hmp & Hcpus & Htab). unfold s2' in Hself, Hmp, Hcpus. cbn in Hself, Hmp, Hcpus.
  assert (Mp.ncpu (mpvars s4) = length ids `min` NCPU)%nat as Hn by (unfold Mp.ncpu; rewrite Hmp, Hv, length_take; lia).
  eapply wp_mono; [apply (rest_run s4 l2 tabs)|].
  - by eapply kmapped_same.
  - rewrite Hn, Hcpus, Hc2. cbn. lia.
  - rewrite Hn. unfold NCPU. lia.
  - intros p. rewrite Hd, <- Hin1. symmetry. apply Hin2.
  - intros _ s5 _ (l & stacks & Hres). exists l, tabs, stacks. rewrite Hn, Hself, Hself2, Htab in Hres. change (tables_of s2') with (tables_of s2) in Hres. rewrite Htab2 in Hres. exact Hres.
Qed.

End main.

(** ** A machine with two processors *)

(** The tables of Mp.v, and 639 Kbyte of base memory in the BIOS data area *)
Definition ex_firmware : mem := write_bytes (Mp.ex_mem []) (P2V 0x413) [0x7F; 2].
Definition ex_end : Z := KERNBASE + 0x150000.
Definition ex_apic : Apic.apic := Apic.mk_apic 0 (λ _, 0) (λ _, 0) 0 (λ _, 0) [] 0 (λ _ _, 0) 0 0 (0, 0).
Definition ex_fs : Fs.fstate (B:=Log.lstate) := Fs.set_icache [Fs.set_iref 0 FsRw.ex_inode] FsRw.ex_fs.
Definition ex_boot : boot :=
  mk_boot (mk_pstate (replicate NPROC proc0) 1 None None true
      (Sysfile.mk_kenv (File.mk_fenv ex_fs [] [] 0) (mk_machine (Kalloc.mk_kmem false 0 ex_firmware) 0 Console.fresh 0)))
    (replicate NCPU (mk_cpu 0 0 0 Seg.ex_tables ex_apic)) 0 (Mp.mk_mpstate (λ _, 0) [] 0 0 0) 0 ex_apic [].

Lemma ex_firmware_ok : firmware ex_end ex_boot [0; 4].
Proof.
  intros m Hm. assert (m = λ x, if x <? ex_end then ex_firmware x else m x) as ->.
  { apply functional_extensionality. intros x. destruct (x <? ex_end) eqn:E; [|done]. apply Z.ltb_lt in E. by rewrite Hm. }
  exists (P2V 0x9000), (P2V 0xF0000), Mp.ex_entries. split; [by vm_compute|]. split; [|done]. split; [|split; by vm_compute].
  apply (Mp.ex_table []). set_solver.
Qed.

End Main.
