(* ===== verification/Start.v ===== *)
(** * The first process

    [main] on the boot processor up to [mpmain]: the set-up of Main.v and then
    [userinit], with the memory, page table and file system code behind
    it. The theorem shows that the system starts with one process, ready to run
    initcode.S, and that physical memory is divided up without overlap. *)

From S2P Require Import Prelude Layout Memory Cstring Kalloc Vm Proc Signal Sched SchedInv Bio Log Block Fs FsDir FsRw Mp Machine File Sysfile Kernel Main.

Module Start.
Import Proc Machine LogBlocks Main.

Abbreviation kenv := (Sysfile.kenv (B:=Log.lstate) (U:=machine)).

Lemma quiet_wp {S A} (m : M S A) s Q : quiet m s Q → wp m s (λ a s' _, Q a s').
Proof. intros (a & s' & (tr & H & _) & HQ). unfold wp. by rewrite H. Qed.

Section start.
Context (kend kdata forkret_addr trapret_addr : Z) (initcode : list Z) (d : Z).
Abbreviation fstate := (Fs.fstate (B:=Log.lstate)).
Context (devsw_read : Z → option (nat → Z → M fstate (Z * list Z))) (junk : list Z).
Context (kend_high : KERNBASE < kend) (data_ok : Vm.data_ok kdata) (init_ok : length initcode < PGSIZE).
#[local] Instance env_of : ProcEnv kenv := Kernel.kernel_env kend kdata d initcode devsw_read junk.

Lemma wp_updp_first f p ps n i c b e (Q : unit → pstate kenv → list event → Prop) :
  Q () (mk_pstate (f p :: ps) n i c b e) [] → wp (updp 0 f) (mk_pstate (p :: ps) n i c b e) Q.
Proof. intros HQ. by apply wp_modify. Qed.

Lemma wp_updp_each {A} (g : A → proc → proc) l : ∀ p ps n i c b e (Q : unit → pstate kenv → list event → Prop),
  Q () (mk_pstate (foldl (λ p x, g x p) p l :: ps) n i c b e) [] → wp (for_each l (λ x, updp 0 (g x))) (mk_pstate (p :: ps) n i c b e) Q.
Proof.
  induction l as [|x l IH]; intros p ps n i c b e Q HQ; cbn [for_each foldl] in *; [by apply wp_ret|].
  apply wp_bind, wp_updp_first. eapply wp_mono; [by apply IH|]. done.
Qed.

Lemma namei_root_returns (f : fstate) : FsDir.has_entry f ROOTDEV Fs.ROOTINO →
  wp (Fs.namei devsw_read (bytes "/") junk) f (λ _ _ _, True).
Proof.
  intros Hf. unfold Fs.namei, Fs.namex. change (bytes "/") with [47]. change (47 =? Fs.slash) with true. cbv iota.
  do 2 apply wp_bind. eapply wp_mono; [by apply quiet_wp, FsDir.iget_spec|]. intros ip f' tr _. apply wp_ret. done.
Qed.

Lemma allocproc_first v l ps (e : kenv) i c b : Kalloc.free_list kend (mm (Sysfile.kuser e)) (v :: l) →
  wp (Sched.allocproc forkret_addr trapret_addr) (mk_pstate (proc0 :: ps) 1 i c b e) (λ r s' _, ∃ k,
    r = Some 0%nat ∧ Kalloc.kmemory k = Kalloc.kmemory (mm (Sysfile.kuser e)) ∧ Kalloc.use_lock k = Kalloc.use_lock (mm (Sysfile.kuser e)) ∧
    Kalloc.free_list kend k l ∧
    s' = mk_pstate (Sched.embryo forkret_addr trapret_addr proc0 1 v :: ps) 2 i c b (Sysfile.set_kuser (set_mm k (Sysfile.kuser e)) e)).
Proof.
  intros Hl. unfold Sched.allocproc. apply wp_bind, wp_emit. apply wp_bind, wp_gets. cbn [procs]. cbn [list_find]. rewrite decide_True by done.
  apply wp_bind, wp_updp_first. apply wp_bind, wp_emit. apply wp_bind. unfold Sched.allocpid. apply wp_bind, wp_emit. apply wp_bind, wp_gets.
  apply wp_bind, wp_modify. apply wp_bind, wp_emit. apply wp_ret. apply wp_bind, wp_updp_first. apply wp_bind. do 3 apply wp_zoom.
  eapply wp_mono; [apply (Kalloc.kalloc_spec kend kend_high _ _ Hl)|]. intros r k _ (Hm & Hu & _ & -> & Hl').
  destruct (Vm.free_list_head kend _ _ _ Hl) as [Hv _]. pose proof (Kalloc.page_ok_range kend kend_high v Hv).
  apply wp_bind, wp_updp_first. rewrite (proj2 (Z.eqb_neq v 0)) by lia. unfold Sched.init_kstack. apply wp_bind.
  do 4 apply wp_bind, wp_updp_first. apply wp_updp_first. apply wp_bind, wp_updp_each. apply wp_bind, wp_updp_first. apply wp_ret.
  exists k. split; [done|]. split; [exact Hm|]. split; [exact Hu|]. split; [exact Hl'|].
  rewrite (Sched.foldl_set_handlers _ 32). unfold Sched.embryo. reflexivity.
Qed.

(** [userinit]'s process: it starts in [forkret], which returns to [trapret] and
    so to address 0, with its stack at the end of its only page. *)
Definition first_process (p : proc) : Prop :=
  let uds := 8 * SEG_UDATA + DPL_USER in
  state p = RUNNABLE ∧ pid p = 1 ∧ sz p = PGSIZE ∧
  tf p = mk_tf 0 0 0 0 0 0 0 0 0 0 uds uds 0 0 0 (8 * SEG_UCODE + DPL_USER) FL_IF PGSIZE uds ∧
  tf_ptr p = kstack p + KSTACKSIZE - TFSIZE ∧ ctx p = mk_ctx 0 0 0 0 forkret_addr ∧ ret_slot p = trapret_addr ∧
  signal_handlers p = replicate 32 SIG_DFL ∧ pending_signals p = 0.

Lemma embryo_first v dir ip : 0 ≤ v < 2 ^ 32 - KSTACKSIZE →
  let uds := Z.lor (Z.shiftl SEG_UDATA 3) DPL_USER in
  first_process (set_state RUNNABLE (set_cwd ip (Sched.copy_name Sched.initcode_name
    (set_tf (mk_tf 0 0 0 0 0 0 0 0 0 0 uds uds 0 0 0 (Z.lor (Z.shiftl SEG_UCODE 3) DPL_USER) FL_IF PGSIZE uds)
      (set_sz PGSIZE (set_pgdir dir (Sched.embryo forkret_addr trapret_addr proc0 1 v))))))).
Proof.
  intros Hv uds. unfold KSTACKSIZE in Hv. split_and!; try reflexivity.
  change (u32 (u32 (v + KSTACKSIZE) - TFSIZE) = v + KSTACKSIZE - TFSIZE). unfold KSTACKSIZE, TFSIZE. by rewrite (u32_small (v + 4096)), u32_small by lia.
Qed.

Lemma userinit_run l ps (e : kenv) i c b :
  Kalloc.free_list kend (mm (Sysfile.kuser e)) l → 3000 ≤ length l → FsDir.has_entry (File.ffs (Sysfile.kfile e)) ROOTDEV Fs.ROOTINO →
  wp (Sched.userinit forkret_addr trapret_addr) (mk_pstate (proc0 :: ps) 1 i c b e) (λ _ s' _, ∃ p l' tabs page,
    let k := mm (Sysfile.kuser (env s')) in
    let um := Vm.upd_tab (λ _, None) 0 (Some (page, 7)) in
    procs s' = p :: ps ∧ initproc s' = Some 0%nat ∧ first_process p ∧
    Vm.space kend k l' (pgdir p) tabs um ∧
    (∀ va, KERNBASE ≤ va < 2 ^ 32 → Vm.pte (Kalloc.kmemory k) tabs va = default 0 (Vm.kent (Vm.kmap kdata) va)) ∧
    (∀ x, 0 ≤ x < PGSIZE → Vm.uread (Kalloc.kmemory k) um x = Some (default 0 (initcode !! Z.to_nat x))) ∧
    (∀ q, q ∈ l ↔ q = kstack p ∨ Vm.pool l' (pgdir p) tabs um q) ∧ ¬ Vm.pool l' (pgdir p) tabs um (kstack p) ∧
    Vm.evolves (λ q, q ∈ l) (mm (Sysfile.kuser e)) k ∧ cr3 (Sysfile.kuser (env s')) = cr3 (Sysfile.kuser e)).
Proof.
  intros Hl Hlen Hf. destruct l as [|v l]; [cbn in Hlen; lia|]. unfold Sched.userinit. apply wp_bind.
  eapply wp_mono; [by apply allocproc_first|]. intros r s1 _ (k1 & -> & Hm1 & Hu1 & Hl1 & ->).
  apply wp_bind, wp_modify. apply wp_bind, wp_ret. apply wp_bind. do 3 apply wp_zoom.
  eapply wp_mono; [apply (Vm.setupkvm_spec kend kdata kend_high k1 l data_ok Hl1)|].
  intros dir k2 _ [Hev2 Hr2]. destruct Hr2 as [(_ & ? & _)|(l2 & tabs2 & Hd & Hsp2 & Hpool2 & Hlen2 & Hpte2)]; [cbn in Hlen; lia|].
  pose proof (Kalloc.page_ok_range kend kend_high dir Hd). apply wp_bind, wp_updp_first. rewrite (proj2 (Z.eqb_neq dir 0)) by lia.
  apply wp_bind. do 3 apply wp_zoom. eapply wp_mono; [apply (Vm.inituvm_spec kend kend_high k2 l2 dir tabs2 initcode Hsp2); [cbn in Hlen; lia | done]|].
  intros _ k3 _ [Hev3 (page & l3 & tabs3 & Hsp3 & Hpool3 & Hk3 & Hread)].
  do 3 apply wp_bind, wp_updp_first. apply wp_bind. do 3 apply wp_zoom. eapply wp_mono; [by apply namei_root_returns|].
  intros ip f _ _. apply wp_bind, wp_updp_first. apply wp_bind, wp_emit. apply wp_bind, wp_updp_first. apply wp_emit.
  eexists _, l3, tabs3, page. cbv zeta. split; [reflexivity|]. split; [reflexivity|].
  split; [apply embryo_first; destruct (Vm.free_list_head kend _ _ _ Hl) as [Hv _]; unfold Kalloc.page_ok, KERNBASE, PHYSTOP, KSTACKSIZE in *; lia|].
  split; [exact Hsp3|]. split; [intros va Hva; etransitivity; [apply (Hk3 va Hva) | apply Hpte2; unfold KERNBASE in *; lia]|].
  split; [exact Hread|]. split; [|split; [|split; [|reflexivity]]].
  - intros q. rewrite elem_of_cons, <- Hpool2, <- Hpool3. reflexivity.
  - intros Hq%Hpool3%Hpool2. by apply (Vm.free_list_head kend _ _ _ Hl).
  - apply (Vm.evolves_trans _ _ k1); [split; [done|]; by rewrite Hm1|]. apply (Vm.evolves_trans _ _ k2); eapply Vm.evolves_mono; [|exact Hev2| |exact Hev3].
    + by right.
    + intros q Hq. right. apply Hpool2. destruct Hq as [?|?]; [by left | by right; left].
Qed.

End start.

Section main.
Context (kend kdata forkret_addr trapret_addr : Z) (initcode entryother : list Z).
Context (entrypgdir mpenter_addr : Z) (gdt_addr : nat → Z) (idt_addr : Z) (vectors : nat → Z).
Context (devsw_read : Z → option (nat → Z → M (Fs.fstate (B:=Log.lstate)) (Z * list Z))).
Context (junk : list Z) (image : Z → list Z) (image_size uart_status : Z) (responds : nat → bool).
Context (kend_low : KERNBASE + 0x100000 ≤ kend) (kend_room : kend ≤ KERNBASE + 0x1F0000) (data_ok : Vm.data_ok kdata).
Context (mpenter_ok : 0 ≤ mpenter_addr < 2 ^ 32) (all_respond : ∀ i, responds i = true) (entry_fits : code + length entryother ≤ kend).
Context (init_ok : length initcode < PGSIZE).

(** C5: [main], on a machine whose firmware lists the processors [ids] and whose
    tables are as the loader leaves them, gets past [userinit]. There is then
    exactly one process, with pid 1, ready to run: its address space is one user page,
    which holds initcode.S, and the kernel's mappings. Every other processor has
    started, on a stack of its own and with the kernel's page directory. Each page
    from the end of the kernel to [PHYSTOP] is exactly one of: free, that process's
    kernel stack, in its address space, the stack of a processor, or part of the
    kernel's page directory. *)
Theorem main_starts_init s ids :
  Kalloc.freelist (mem_of s) = 0 → Mp.apicids (mpvars s) = [] → length (cpus s) = NCPU → firmware kend s ids →
  procs (sys s) = replicate NPROC proc0 → nextpid (sys s) = 1 →
  FsDir.has_entry (File.ffs (Sysfile.kfile (env (sys s)))) ROOTDEV Fs.ROOTINO →
  wp (main_setup kend kdata entryother entrypgdir mpenter_addr gdt_addr idt_addr vectors image image_size uart_status responds ;;
      userinit kend kdata forkret_addr trapret_addr initcode devsw_read junk) s (λ _ s' _, ∃ p l tabs stacks ptabs page,
    let m := Kalloc.kmemory (mem_of s') in
    let um := Vm.upd_tab (λ _, None) 0 (Some (page, 7)) in
    let free_or_user := Vm.pool l (pgdir p) ptabs um in
    procs (sys s') = p :: replicate (NPROC - 1) proc0 ∧ initproc (sys s') = Some 0%nat ∧ first_process forkret_addr trapret_addr p ∧
    Vm.space kend (mem_of s') l (pgdir p) ptabs um ∧
    (∀ va, KERNBASE ≤ va < 2 ^ 32 → Vm.pte m ptabs va = default 0 (Vm.kent (Vm.kmap kdata) va)) ∧
    (∀ x, 0 ≤ x < PGSIZE → Vm.uread m um x = Some (default 0 (initcode !! Z.to_nat x))) ∧
    kmapped kend kdata s' l tabs ∧
    stacks.*1 = filter (λ i, i ≠ self s) (seq 0 (length ids `min` NCPU)) ∧
    (∀ i a, (i, a) ∈ stacks → ∃ c, cpus s' !! i = Some c ∧ started (kpgdir s') a c) ∧
    NoDup (kstack p :: stacks.*2) ∧
    (∀ q, q ∈ kstack p :: stacks.*2 → ¬ free_or_user q ∧ ¬ Vm.owns (kpgdir s') tabs q) ∧
    (∀ q, Vm.owns (kpgdir s') tabs q → ¬ free_or_user q) ∧
    ∀ q, free_or_user q ∨ q ∈ kstack p :: stacks.*2 ∨ Vm.owns (kpgdir s') tabs q ↔
      q mod PGSIZE = 0 ∧ kend ≤ q ∧ q + PGSIZE ≤ KERNBASE + PHYSTOP).
Proof using kend_low kend_room data_ok mpenter_ok all_respond entry_fits init_ok.
  intros Hf Hids Hncpu Hfw Hprocs Hpid Hroot. apply wp_bind. eapply wp_mono; [by apply (main_setup_memory kend kdata)|].
  intros _ s1 _ (l & tabs & stacks & Hk & _ & Htab & Hlen & Hst & Hrun & Hnd & Hown & Hall). unfold userinit.
  apply wp_bind, wp_gets. apply wp_zoom. unfold tables_of in Htab. injection Htab as Hp1 Hn1 Hi1.
  destruct (sys s1) as [ps np ip cu fi e] eqn:Hsys. cbn in Hp1, Hn1, Hi1. rewrite Hprocs in Hp1. rewrite Hpid in Hn1. subst ps np.
  change (replicate NPROC proc0) with (proc0 :: replicate (NPROC - 1) proc0).
  pose proof Hk as (Hl & Hrep & Hpte & Hcr & Hfree). assert (machine_of s1 = Sysfile.kuser e) as Ee by (unfold machine_of; by rewrite Hsys).
  assert (mem_of s1 = mm (Sysfile.kuser e)) as Em by (unfold mem_of; by rewrite Ee).
  assert (FsDir.has_entry (File.ffs (Sysfile.kfile e)) ROOTDEV Fs.ROOTINO) as Hroot1 by (unfold FsDir.has_entry; by rewrite Hi1).
  eapply wp_mono; [apply (userinit_run kend kdata forkret_addr trapret_addr initcode (kpgdir s1) devsw_read junk) with (l := l)|].
  { unfold KERNBASE in *; lia. } { done. } { done. } { by rewrite <- Em. } { clear -Hlen; lia. } { exact Hroot1. }
  intros _ s2 _ (p & l' & ptabs & page & Hps & Hip & Hp & Hsp & Hkern & Hread & Hpool & Hstack & [_ Hoff] & Hcr2).
  assert (∀ q, Vm.pool l' (pgdir p) ptabs (Vm.upd_tab (λ _, None) 0 (Some (page, 7))) q → q ∈ l) as Hin by (intros q Hq; apply Hpool; by right).
  assert (kstack p ∈ l) as Hks by (apply Hpool; by left). apply NoDup_app in Hnd as (_ & Hdis & Hnd).
  exists p, l', tabs, stacks, ptabs, page. cbv zeta. change (mem_of (set_sys s2 s1)) with (mm (Sysfile.kuser (env s2))).
  change (kpgdir (set_sys s2 s1)) with (kpgdir s1). change (sys (set_sys s2 s1)) with s2.
  do 6 (split; [assumption|]). split; [|split; [exact Hst|]; split; [exact Hrun|]; split; [|split; [|split]]].
  - destruct (Vm.pt_rep_off kend (λ q, q ∈ l) _ (Kalloc.kmemory (mm (Sysfile.kuser (env s2)))) _ _ Hrep) as [Hrep' Hpte'].
    { by rewrite Em. } { destruct Hl as (_ & _ & Hl). by apply Forall_forall. } { done. }
    split; [apply Hsp|]. split; [exact Hrep'|]. split; [intros va Hva; rewrite <- (Hpte va Hva); apply Hpte'|].
    split; [etransitivity; [exact Hcr2|]; rewrite <- Ee; exact Hcr|]. intros q Ho Hq. apply (Hfree q Ho), Hin. by left.
  - apply NoDup_cons. split; [by apply Hdis | done].
  - intros q [->|Hq]%elem_of_cons; (split; [|intros Ho]); [done | by apply (Hfree _ Ho) | intros Hq'%Hin; by apply (Hdis q) | by apply (Hown q)].
  - intros q Ho Hq%Hin. by apply (Hfree q).
  - intros q. rewrite <- Hall, (Hpool q), elem_of_cons. clear. tauto.
Qed.

End main.

(** The machine of Main.v with two processors; the code is that of a loop. *)
Lemma main_starts_init_witness :
  wp (main_setup ex_end Vm.kdata0 (replicate 100 0x90) 0x80109000 0x80103000 (λ _, 0x80112000) 0x80114000 (λ _, 0x80105000) (λ _, []) 0 0 (λ _, true) ;;
      userinit ex_end Vm.kdata0 0x80103100 0x80106000 [0xeb; 0xfe] (λ _, None) []) ex_boot (λ _ s' _, ∃ p um,
    procs (sys s') !! 0%nat = Some p ∧ state p = RUNNABLE ∧ pid p = 1 ∧
    Vm.uread (Kalloc.kmemory (mem_of s')) um 0 = Some 0xeb ∧ Vm.uread (Kalloc.kmemory (mem_of s')) um 1 = Some 0xfe).
Proof.
  eapply wp_mono.
  { apply (main_starts_init ex_end Vm.kdata0 0x80103100 0x80106000 [0xeb; 0xfe] (replicate 100 0x90) 0x80109000 0x80103000 (λ _, 0x80112000) 0x80114000
      (λ _, 0x80105000) (λ _, None) [] (λ _, []) 0 0 (λ _, true) ltac:(done) ltac:(done) ltac:(done) ltac:(done) ltac:(done) ltac:(done) ltac:(done)
      ex_boot [0; 4]); [done | done | done | apply ex_firmware_ok | done | done | exists 0%nat; eexists; split; [reflexivity | by right]]. }
  intros _ s' _ (p & l & tabs & stacks & ptabs & page & Hps & _ & (Hst & Hpid & _) & _ & _ & Hread & _).
  exists p, (Vm.upd_tab (λ _, None) 0 (Some (page, 7))). rewrite Hps. split_and!; [done | done | done | by apply (Hread 0) | by apply (Hread 1)].
Defined.

End Start.
