(* ===== verification/KernelInv.v ===== *)
(** * The process table under the whole kernel

    The real environment meets [env_spec], every system call handler leaves the
    process table in order, and so does [trap], whatever it is entered for. Two
    runs of the kernel at the end: a system call, and [exec] of a program. *)

From S2P Require Import Prelude Layout Memory Cstring Kalloc Vm Proc Signal Sched SchedInv Syscall Trap Sleeplock Bio Log Block Fs FsRw Console Machine File Sysfile Exec ExecImage Kernel.

Module KernelInv.
Import Proc Signal Sched SchedInv Syscall Machine LogBlocks Kernel.
#[local] Existing Instance Sysfile.kenv_mem.

(** ** Fetching arguments *)

Section args.
Context {E : Type} {UM : UserMem E}.

Lemma tame_curproc off : tame (E := E) (curproc off).
Proof. unfold curproc, myproc. tame. Qed.
Hint Resolve tame_curproc : tame.
Lemma tame_fetchint a : tame (E := E) (fetchint a).
Proof. unfold fetchint. tame. Qed.
Hint Resolve tame_fetchint : tame.
Lemma tame_fetchstr a : tame (E := E) (fetchstr a).
Proof.
  unfold fetchstr. tame. generalize (Z.to_nat (sz p - a)) as k. intros k. generalize a at 2. induction k as [|k IH]; intros b; cbn [fetchstr_loop]; tame.
Qed.
Hint Resolve tame_fetchstr : tame.
Lemma tame_argint n : tame (E := E) (argint n).
Proof. unfold argint. tame. Qed.
Hint Resolve tame_argint : tame.
Lemma tame_argptr n size : tame (E := E) (argptr n size).
Proof. unfold argptr. tame. Qed.
Lemma tame_argstr n : tame (E := E) (argstr n).
Proof. unfold argstr. tame. Qed.
End args.
#[export] Hint Resolve tame_curproc tame_fetchint tame_fetchstr tame_argint tame_argptr tame_argstr : tame.

Section handlers.
Context {E : Type} {UM : UserMem E} {PE : ProcEnv E} {CE : Clock E}.
Lemma tame_sys_kill : tame (E := E) sys_kill.
Proof. unfold sys_kill. tame. apply tame_kill. Qed.
Lemma tame_sys_getpid : tame (E := E) sys_getpid.
Proof. unfold sys_getpid. tame. Qed.
Lemma tame_sys_sigprocmask : tame (E := E) sys_sigprocmask.
Proof. unfold sys_sigprocmask. tame. apply tame_sigprocmask. Qed.
Lemma tame_sys_sigaction : tame (E := E) sys_sigaction.
Proof. unfold sys_sigaction. tame. apply tame_sigaction. Qed.
Lemma tame_sys_sigret : tame (E := E) sys_sigret.
Proof. unfold sys_sigret. tame. apply tame_sigret. Qed.
Lemma tame_sys_sbrk : tame (E := E) sys_sbrk.
Proof. unfold sys_sbrk. tame. apply tame_growproc. Qed.
Lemma tame_sys_uptime : tame (E := E) sys_uptime.
Proof. unfold sys_uptime. tame. Qed.
End handlers.

(** ** File system calls *)

Section sysfile.
Context {B : Type} {BL : BlockLayer B} {TX : TxnLayer B} {U : Type} {UM : UserMem U}.
Abbreviation fstate := (Fs.fstate (B:=B)).
Abbreviation kenv := (Sysfile.kenv (B:=B) (U:=U)).
Context (devsw_read : Z → option (nat → Z → M fstate (Z * list Z))) (devsw_write : Z → option (nat → list Z → M fstate Z)) (junk page : list Z).

Lemma tame_on_file {A} (m : M (File.fenv (B:=B)) A) : tame (E := kenv) (Sysfile.on_file m).
Proof. by apply tame_zoom. Qed.
Lemma tame_on_inode {A} (m : M fstate A) : tame (E := kenv) (Sysfile.on_inode m).
Proof. apply tame_on_file. Qed.
Lemma tame_begin_op : tame (E := kenv) Sysfile.begin_op.
Proof. apply tame_on_file. Qed.
Lemma tame_end_op : tame (E := kenv) Sysfile.end_op.
Proof. apply tame_on_file. Qed.
Hint Resolve tame_on_file tame_on_inode tame_begin_op tame_end_op : tame.
Lemma tame_argpath n : tame (E := kenv) (Sysfile.argpath n).
Proof. unfold Sysfile.argpath. tame. Qed.
Lemma tame_argfd n : tame (E := kenv) (Sysfile.argfd n).
Proof. unfold Sysfile.argfd. tame. Qed.
Lemma tame_set_fd fd f : tame (E := kenv) (Sysfile.set_fd fd f).
Proof. unfold Sysfile.set_fd. tame. Qed.
Lemma tame_fdalloc f : tame (E := kenv) (Sysfile.fdalloc f).
Proof. unfold Sysfile.fdalloc. tame. Qed.
Hint Resolve tame_argpath tame_argfd tame_set_fd tame_fdalloc : tame.
Lemma tame_argbuf : tame (E := kenv) Sysfile.argbuf.
Proof. unfold Sysfile.argbuf. tame. Qed.
Hint Resolve tame_argbuf : tame.

Lemma tame_sysfile : Forall (tame (E := kenv) (A := Z))
  [Sysfile.sys_pipe page; Sysfile.sys_read devsw_read; Sysfile.sys_fstat; Sysfile.sys_chdir devsw_read junk; Sysfile.sys_dup;
   Sysfile.sys_open devsw_read devsw_write junk; Sysfile.sys_write devsw_write; Sysfile.sys_mknod devsw_read devsw_write junk;
   Sysfile.sys_unlink devsw_read devsw_write junk; Sysfile.sys_link devsw_read devsw_write junk; Sysfile.sys_mkdir devsw_read devsw_write junk; Sysfile.sys_close].
Proof.
  repeat constructor; unfold Sysfile.sys_pipe, Sysfile.sys_read, Sysfile.sys_fstat, Sysfile.sys_chdir, Sysfile.sys_dup, Sysfile.sys_open, Sysfile.sys_write, Sysfile.sys_mknod,
    Sysfile.sys_unlink, Sysfile.sys_link, Sysfile.sys_mkdir, Sysfile.sys_close; tame.
Qed.

Lemma tame_exec_args k uargv : ∀ l, tame (E := kenv) (Sysfile.exec_args k uargv l).
Proof. induction k as [|k IH]; intros l; cbn [Sysfile.exec_args]; tame. Qed.
End sysfile.

(** ** The kernel *)

Section kernel.
Context (kend kdata kpgdir forkret_addr trapret_addr SIGCONT_handler_addr : Z) (initcode : list Z).
Abbreviation fstate := (Fs.fstate (B:=Log.lstate)).
Context (devsw_read : Z → option (nat → Z → M fstate (Z * list Z))) (devsw_write : Z → option (nat → list Z → M fstate Z)) (junk page : list Z).
Abbreviation kenv := (Sysfile.kenv (B:=Log.lstate) (U:=machine)).
#[local] Abbreviation K := (M (pstate kenv)).
#[local] Instance the_env : ProcEnv kenv := kernel_env kend kdata kpgdir initcode devsw_read junk.

Lemma steady_filedup f : steady (File.filedup (B:=Log.lstate) f).
Proof. unfold File.filedup, File.updf. steady. intros s. unfold hoare, File.getf. by destruct (_ !! _). Qed.
Lemma steady_idup ip : steady (Fs.idup (B:=Log.lstate) ip).
Proof. unfold Fs.idup, Fs.updi. steady. Qed.
Lemma steady_namei_root : steady (Fs.namei (B:=Log.lstate) devsw_read (bytes "/") junk).
Proof.
  unfold Fs.namei, Fs.namex. change (bytes "/") with [47]. cbn [Fs.namex_loop length]. unfold Fs.skipelem. simpl. steady. unfold Fs.iget, Fs.updi. steady.
Qed.

(** What proc.c relies on holds of the code it calls. *)
Lemma kernel_env_spec : env_spec (E := kenv) True (λ _, True).
Proof.
  assert (∀ A (m : M Kalloc.kmem A) e, steady m → hoare True (on_mm m) e (λ _ _, True) (λ _, False)) as Hmm by (intros A m e Hm; by apply steady_zoom, steady_zoom).
  split; intros; try (apply Hmm); try done.
  1-8: auto with steady.
  1: apply steady_bind; [apply steady_zoom, steady_filedup | intros; apply steady_ret].
  1: apply steady_zoom, steady_zoom, steady_namei_root.
  all: unfold hoare; match goal with |- match ?x with _ => _ end => by destruct x end.
Qed.

(** An operation of the running process that returns with the process alive and
    the table in order, or gives up the CPU with the table in order *)
Definition keeps {A} (m : K A) : Prop :=
  ∀ i s, live_inv (Some i) i s → hoare True m s (λ _ s', live_inv (Some i) i s') ptable_inv.

Lemma keeps_tame {A} (m : K A) : tame m → keeps m.
Proof. intros Hm i s Hl. by eapply hoare_tame. Qed.
Lemma keeps_bind {A A'} (m : K A) (k : A → K A') : keeps m → (∀ a, keeps (k a)) → keeps (m ≫= k).
Proof. intros Hm Hk i s Hl. apply hoare_bind. eapply hoare_mono; [by apply Hm| |done]. intros a s1 Hl1. by apply Hk. Qed.
Lemma keeps_when b (m : K unit) : keeps m → keeps (when b m).
Proof. intros Hm. destruct b; [done | apply keeps_tame, tame_ret]. Qed.

Lemma exec_outcome_live path (s : pstate kenv) i p r s' : live_inv (Some i) i s → procs s !! i = Some p →
  Exec.exec_outcome path s i p r s' → live_inv (Some i) i s'.
Proof.
  intros Hl Hp [(_ & e & ->)|(_ & d & n & eip & sp & e & Hd & ->)]; (eapply live_inv_similar; [|exact Hl]); split_and!; try done. simpl.
  rewrite <- (alter_as_insert (λ _, Exec.started path d n eip sp p) _ _ _ Hp). apply similar_alter. intros q Hq. simplify_eq. by split_and!; auto.
Qed.

Lemma keeps_exec path argv : keeps (exec kend kdata kpgdir initcode devsw_read junk path argv).
Proof.
  intros i s Hl. pose proof Hl as (_ & (p & Hp & _) & Hc). eapply hoare_mono; [by apply (Exec.hoare_exec kend kdata devsw_read junk path argv s i p)|..].
  - intros r s'. by apply exec_outcome_live.
  - intros s' [r Hr]. by eapply exec_outcome_live.
Qed.

Lemma keeps_sys_exec : keeps (Sysfile.sys_exec (exec kend kdata kpgdir initcode devsw_read junk)).
Proof.
  unfold Sysfile.sys_exec. apply keeps_bind; [apply keeps_tame, tame_argpath|]. intros [path|]; [|apply keeps_tame, tame_ret].
  apply keeps_bind; [apply keeps_tame, tame_argint|]. intros [uargv|]; [|apply keeps_tame, tame_ret].
  apply keeps_bind; [apply keeps_tame, tame_exec_args|]. intros [argv|]; [apply keeps_exec | apply keeps_tame, tame_ret].
Qed.

Lemma keeps_exit : keeps (exit to_scheduler).
Proof. intros i s Hl. by apply (inv_exit i). Qed.
Lemma keeps_yield : keeps (yield to_scheduler).
Proof. intros i s Hl. by apply (inv_yield (Some i) i). Qed.
Lemma keeps_sleep ch lk : keeps (sleep to_scheduler ch lk).
Proof. intros i s Hl. by apply (inv_sleep (Some i) i). Qed.

Lemma keeps_sys_wait : keeps (sys_wait []).
Proof.
  intros i s Hl. pose proof Hl as (_ & _ & Hc). unfold sys_wait, wait, myproc. repeat hoare_step. rewrite Hc. apply hoare_ret. apply inv_wait_loop; [apply kernel_env_spec | done].
Qed.

Lemma keeps_sys_sleep : keeps (sys_sleep []).
Proof.
  unfold sys_sleep. apply keeps_bind; [apply keeps_tame, tame_argint|]. intros [n|]; [|apply keeps_tame, tame_ret].
  apply keeps_bind; [apply keeps_tame, tame_emit|]. intros _. apply keeps_bind; [apply keeps_tame, tame_gets|]. intros t0. cbn [sleep_loop].
  apply keeps_bind; [apply keeps_tame, tame_gets|]. intros t. destruct (_ <? _); [|apply keeps_tame; tame].
  apply keeps_bind; [apply keeps_tame, tame_curproc|]. intros [? p]. destruct (truth _); [apply keeps_tame; tame|].
  apply keeps_bind; [apply keeps_sleep | intros; apply keeps_tame, tame_ret].
Qed.

(** The same, as long as there is a pid left to give *)
Definition guarded {A} (m : K A) : Prop :=
  ∀ i s, live_inv (Some i) i s → nextpid s < 2 ^ 31 - 1 → hoare True m s (λ _ s', live_inv (Some i) i s') ptable_inv.

Lemma keeps_guarded {A} (m : K A) : keeps m → guarded m.
Proof. intros Hm i s Hl _. by apply Hm. Qed.
Lemma guarded_bind {A A'} (m : K A) (k : A → K A') : guarded m → (∀ a, keeps (k a)) → guarded (m ≫= k).
Proof. intros Hm Hk i s Hl Hn. apply hoare_bind. eapply hoare_mono; [by apply Hm| |done]. intros a s1 Hl1. by apply Hk. Qed.

Abbreviation table := (syscalls kend kdata kpgdir forkret_addr trapret_addr initcode devsw_read devsw_write junk page).

Lemma guarded_syscalls : Forall (λ o, ∀ h, o = Some h → guarded h) table.
Proof.
  pose proof (tame_sysfile (B:=Log.lstate) (U:=machine) devsw_read devsw_write junk page) as Hf. rewrite !Forall_cons in Hf.
  destruct Hf as (? & ? & ? & ? & ? & ? & ? & ? & ? & ? & ? & ? & _).
  repeat constructor; intros h [= <-].
  1: intros i s Hl Hn; apply inv_fork; [apply kernel_env_spec | done..].
  all: apply keeps_guarded; try (apply keeps_tame; assumption).
  1: apply keeps_bind; [apply keeps_exit | intros; apply keeps_tame, tame_ret].
  1: apply keeps_sys_wait.
  2: apply keeps_sys_exec.
  4: apply keeps_sys_sleep.
  all: apply keeps_tame; first [apply tame_sys_kill | apply tame_sys_getpid | apply tame_sys_sbrk | apply tame_sys_uptime | apply tame_sys_sigprocmask | apply tame_sys_sigaction | apply tame_sys_sigret].
Qed.

Lemma guarded_syscall : guarded (syscall table).
Proof.
  intros i s Hl Hn. unfold syscall. apply hoare_bind. eapply hoare_mono; [apply tame_curproc|..]; [|intros s' Hs; eapply tables_similar_inv; [exact Hs | apply Hl]].
  intros [i' p] s1 Hs. assert (live_inv (Some i) i s1) as Hl1 by (by eapply live_inv_similar). assert (nextpid s1 < 2 ^ 31 - 1) as Hn1 by (destruct Hs as (_ & _ & -> & _); done). clear s Hl Hn Hs.
  assert (∀ x, keeps (updp i' (λ p : proc, set_tf (set_eax x (tf p)) p))) as Hset by (intros x; apply keeps_tame; tame).
  set (o := if _ : bool then _ else _). assert (∀ h, o = Some h → guarded h) as Ho.
  { intros h Hh. unfold o in Hh. destruct (_ && _); [|done]. destruct (table !! _) as [h'|] eqn:E; [|done]. simpl in Hh. subst h'.
    exact (Forall_lookup_1 _ _ _ _ guarded_syscalls E h eq_refl). }
  destruct o as [h|]; [by apply guarded_bind; [apply Ho | intros | |] | by apply keeps_bind; [apply keeps_tame, tame_emit | intros |]].
Qed.

(** ** Traps *)

Abbreviation ktrap := (trap kend kdata kpgdir forkret_addr trapret_addr initcode devsw_read devsw_write junk page).
Abbreviation kalltraps := (alltraps kend kdata kpgdir forkret_addr trapret_addr initcode devsw_read devsw_write junk page).

Lemma guarded_tame_bind {A A'} (m : K A) (k : A → K A') : tame m → (∀ a, guarded (k a)) → guarded (m ≫= k).
Proof.
  intros Hm Hk i s Hl Hn. apply hoare_bind. eapply hoare_mono; [apply Hm|..]; [|intros s' Hs; eapply tables_similar_inv; [exact Hs | apply Hl]].
  intros a s1 Hs. apply Hk; [exact (live_inv_similar _ _ _ _ Hs Hl)|]. by destruct Hs as (_ & _ & -> & _).
Qed.

(** [exit] does not return. *)
Lemma guarded_exit_when {A} b (k : unit → K A) : guarded (k ()) → guarded (when b (exit to_scheduler) ≫= k).
Proof. intros Hk i s Hl Hn. apply hoare_bind. destruct b; simpl when; [by apply (inv_exit i) | by apply hoare_ret, Hk]. Qed.

Lemma tame_set_env (f : pstate kenv → kenv) : tame (modify (λ s, set_env (f s) s)).
Proof. intros s. apply hoare_modify. by split_and!. Qed.

Lemma tame_interrupt cpuid cr2 kbd uart t : tame (E := kenv) (Trap.interrupt cpuid cr2 (mret ()) (console_interrupt kbd) (console_interrupt uart) (mret ()) t).
Proof.
  unfold Trap.interrupt, Trap.timer_tick, Trap.unexpected, console_interrupt, wakeup. pose proof tame_set_env. pose proof (tame_wakeup1 (E := kenv)). pose proof (tame_myproc (E := kenv)). tame.
Qed.

Lemma keeps_exit_if_killed t : keeps (Trap.exit_if_killed to_scheduler t).
Proof.
  unfold Trap.exit_if_killed. apply keeps_bind; [apply keeps_tame, tame_myproc|]. intros [i|]; [|apply keeps_tame, tame_ret].
  apply keeps_bind; [apply keeps_tame, tame_curproc|]. intros [? p]. apply keeps_when, keeps_exit.
Qed.

Lemma keeps_yield_on_tick t : keeps (Trap.yield_on_tick to_scheduler t).
Proof.
  unfold Trap.yield_on_tick. apply keeps_bind; [apply keeps_tame, tame_myproc|]. intros [i|]; [|apply keeps_tame, tame_ret].
  apply keeps_bind; [apply keeps_tame, tame_curproc|]. intros [? p]. apply keeps_when, keeps_yield.
Qed.

Lemma guarded_trap cpuid cr2 kbd uart t : guarded (ktrap cpuid cr2 kbd uart t).
Proof.
  unfold trap, Trap.trap. destruct (_ =? _).
  - apply guarded_tame_bind; [apply tame_curproc | intros [? p]]. apply guarded_exit_when. apply guarded_tame_bind; [apply tame_curproc | intros [i' ?]].
    apply guarded_tame_bind; [tame | intros _]. apply guarded_bind; [apply guarded_syscall | intros _].
    apply keeps_bind; [apply keeps_tame, tame_curproc | intros [? q]]. apply keeps_when, keeps_exit.
  - apply keeps_guarded. apply keeps_bind; [apply keeps_tame, tame_interrupt | intros _]. apply keeps_bind; [apply keeps_exit_if_killed | intros _].
    apply keeps_bind; [apply keeps_yield_on_tick | intros _]. apply keeps_exit_if_killed.
Qed.

Lemma guarded_alltraps cpuid cr2 kbd uart t : guarded (kalltraps cpuid cr2 kbd uart t).
Proof.
  unfold alltraps, Trap.alltraps. destruct (Trap.user_mode t).
  - apply guarded_tame_bind; [apply tame_curproc | intros [i' ?]]. apply guarded_tame_bind; [tame | intros _]. apply guarded_bind; [apply guarded_trap | intros _].
    apply keeps_bind; [apply keeps_tame, tame_curproc | intros [? q]]. apply keeps_tame, tame_sig_handler_runner.
  - apply guarded_bind; [apply guarded_trap | intros _]. apply keeps_tame, tame_sig_handler_runner.
Qed.

(** A trap while no process runs on the CPU *)
Definition idle (s : pstate kenv) : Prop := ptable_inv s ∧ cur s = None.

Lemma idle_tame {A A'} (m : K A) (k : A → K A') s Q : tame m → idle s → (∀ a s', idle s' → hoare True (k a) s' Q ptable_inv) → hoare True (m ≫= k) s Q ptable_inv.
Proof.
  intros Hm [Hinv Hc] Hk. apply hoare_bind. eapply hoare_mono; [apply Hm|..]; [intros a s' Hs; apply Hk; split | intros s' Hs]; [exact (tables_similar_inv _ _ Hs Hinv) | | exact (tables_similar_inv _ _ Hs Hinv)].
  by destruct Hs as (_ & _ & _ & ->).
Qed.

Lemma idle_me (f : nat → K unit) s : idle s →
  hoare True (np ← myproc ; match np with None => mret () | Some i => f i end) s (λ _ s', idle s') ptable_inv.
Proof. intros [Hinv Hc]. unfold myproc. apply hoare_bind, hoare_bind, hoare_emit, hoare_gets. rewrite Hc. by apply hoare_ret. Qed.

Lemma idle_curproc {A} off (k : nat * proc → K A) s Q : idle s → hoare True (curproc off ≫= k) s Q ptable_inv.
Proof. intros [Hinv Hc]. unfold curproc, myproc. apply hoare_bind, hoare_bind, hoare_bind, hoare_emit, hoare_gets. by rewrite Hc. Qed.

Lemma idle_alltraps cpuid cr2 kbd uart t s : idle s → hoare True (kalltraps cpuid cr2 kbd uart t) s (λ _ s', ptable_inv s') ptable_inv.
Proof.
  intros Hs. unfold alltraps, Trap.alltraps, Trap.trap. destruct (Trap.user_mode t); [by apply idle_curproc|]. apply hoare_bind.
  assert (∀ s, idle s → hoare True (sig_handler_runner (cs t)) s (λ _ s', ptable_inv s') ptable_inv) as Hsig.
  { intros s1 [Hinv _]. eapply hoare_mono; [apply tame_sig_handler_runner|..]; [intros ? s' Hs' | intros s' Hs']; exact (tables_similar_inv _ _ Hs' Hinv). }
  destruct (_ =? _); [by apply idle_curproc|]. apply idle_tame; [apply tame_interrupt | done|]. clear s Hs. intros _ s Hs.
  do 2 (apply hoare_bind; eapply hoare_mono; [by apply idle_me| |done]; clear s Hs; intros ? s Hs). eapply hoare_mono; [by apply idle_me | by intros ? ?; apply Hsig | done].
Qed.

(** ** Interleavings *)

Abbreviation kcall := (call (E := kenv)).

(** One step of one CPU of the kernel: *)
Inductive step (s : pstate kenv) : pstate kenv → Prop :=
  (** a trap of a running process, up to its return or to a context switch; *)
  | k_trap i cpuid cr2 kbd uart t s' : SchedInv.running i s → nextpid s < 2 ^ 31 - 1 →
      ends (kalltraps cpuid cr2 kbd uart t) (set_cur (Some i) s) s' → step s s'
  (** an interrupt of the scheduler; *)
  | k_idle cpuid cr2 kbd uart t s' : ends (kalltraps cpuid cr2 kbd uart t) (set_cur None s) s' → step s s'
  (** what a process does when it runs again after [sleep] or [yield] in proc.c; *)
  | k_resume i m s' : SchedInv.running i s → kcall i m → ends m (set_cur (Some i) s) s' → step s s'
  (** the rest of a handler that slept in the file system, which like all of
      sysfile.c leaves alone what the invariant is about; *)
  | k_rest i (m : K Z) s' : SchedInv.running i s → tame m → ends m (set_cur (Some i) s) s' → step s s'
  (** a visit of the scheduler to slot [k]; *)
  | k_schedule k s' : ends (scheduler_visit SIGCONT_handler_addr (λ _, to_scheduler) k) (set_cur None s) s' → step s s'
  (** user code and devices. *)
  | k_env e : step s (set_env e s).

Lemma step_inv s s' : ptable_inv s → step s s' → ptable_inv s'.
Proof.
  intros Hinv Hstep. destruct Hstep as [i cpuid cr2 kbd uart t s' Hr Hn He|cpuid cr2 kbd uart t s' He|i m s' Hr Hm He|i m s' Hr Hm He|k s' He|e].
  - eapply ends_live, He. apply guarded_alltraps; [by apply running_live | done].
  - eapply ends_hoare, He. by apply idle_alltraps.
  - eapply ends_live, He. apply (inv_call kernel_env_spec i); [done | by apply running_live | done].
  - eapply ends_live, He. by apply keeps_tame; [|apply running_live].
  - eapply ends_hoare, He. by apply inv_scheduler_visit.
  - exact Hinv.
Qed.

(** C2: the kernel as a whole keeps its process table in order. With the real
    memory, page table, file system and console code behind every call, [userinit]
    sets up a table in order; and from such a table any interleaving, on any
    number of CPUs, of traps (every system call, with the handler the table of
    syscall.c gives it, every interrupt, every fault, and the delivery of signals
    on the way back), of processes resuming after a context switch, and of
    scheduling leads to tables in which pids are distinct, every process but init
    has a living parent, and every process that can run has its kernel stack and
    page table. *)
Theorem kernel_table_safe e s0 s :
  hoare True (userinit forkret_addr trapret_addr) (boot e) (λ _ s1, ptable_inv s1) (λ _, False) ∧
  (ptable_inv s0 → star step s0 s → table_safe s).
Proof.
  split; [apply hoare_userinit, kernel_env_spec|]. intros Hinv Hstar. apply inv_table_safe. eapply (star_invariant step); [apply step_inv | done | done].
Qed.

End kernel.

(** ** A run: init asks for its pid *)

Definition ex_machine : machine := mk_machine (Kalloc.mk_kmem true 0 (λ _, 0)) 0 Console.fresh 0.
Definition ex_kernel : pstate (Sysfile.kenv (B:=Log.lstate) (U:=machine)) :=
  mk_pstate [set_pgdir 0x80401000 (set_tf_ptr 0x80400fb4 (set_kstack 0x80400000 (set_pid 1 (set_state RUNNING proc0))))] 2 (Some 0%nat) (Some 0%nat) false
    (Sysfile.mk_kenv (File.mk_fenv FsRw.ex_fs [] [] 0) ex_machine).
Definition ex_getpid : trapframe := set_eax 11 (mk_tf 0 0 0 0 0 0 0 0 0 0 0 0 64 0 0x100 0x1b 0 0x2ffc 0x23).
Abbreviation ex_traps := (alltraps 0x80115000 0x80108000 0 11 12 [] (λ _, None) (λ _, None) [] []).
Definition ex_kernel' := state_after (ex_traps 0 0 [] [] ex_getpid) ex_kernel.

Lemma kernel_table_safe_witness : table_safe ex_kernel' ∧ (eax ∘ tf <$> procs ex_kernel') = [1].
Proof.
  split; [|by vm_compute].
  apply (kernel_table_safe 0x80115000 0x80108000 0 11 12 13 [] (λ _, None) (λ _, None) [] [] (env ex_kernel) ex_kernel ex_kernel').
  - split; [done|]. split; [intros [|[|i]] [|[|j]] p q; by intros|]. split; [exists 0%nat; split; [done|]; eexists; by split|].
    intros [|[|i]] p Hp; simplify_eq/=. split; [by vm_compute|]. split; [done|]. by split_and!; try left.
  - eapply star_step; [apply star_refl|]. apply (k_trap _ _ _ _ _ _ _ _ _ _ _ _ 0%nat 0 0 [] [] ex_getpid); [|by vm_compute|].
    + eexists. by split.
    + vm_compute. reflexivity.
Defined.

(** ** A run: exec of a program of one segment *)

(** Three bytes at 0, and zeros up to 0x1005 *)
Definition ex_elf : list Z :=
  concat (le32 <$> [Exec.ELF_MAGIC; 0; 0; 0; 0x30002; 1; 2; 52; 0; 0; 0x200034; 1; 0] ++ [Exec.ELF_PROG_LOAD; 84; 0; 0; 3; 0x1005; 7; PGSIZE]) ++ [0x90; 0x90; 0xc3].
Definition ex_edisk (n : Z) : list Z := if n =? 100 then ex_elf ++ replicate (512 - length ex_elf) 0 else FsRw.ex_fdisk n.
Definition ex_efs : Fs.fstate :=
  Fs.mk_fstate (Log.mk_lstate (Bio.booted ex_edisk 1000 1) 2 30 1 0 1 0 (replicate 30 0)) (Log.superblock_of (ex_edisk 1))
    [Fs.mk_inode 1 5 1 (Sleeplock.mk_slock 0 0) 1 (Fs.mk_dinode 2 0 0 1 (length ex_elf) (100 :: replicate 12 0))] 1 0.

(** 1040 free pages, each with the address of the one below, and above them the
    page directory of the caller *)
Definition ex_page (k : Z) : Z := Kalloc.kend0 + k * PGSIZE.
Definition ex_next (k : Z) : Z := if k =? 0 then 0 else ex_page (k - 1).
Definition ex_free : Kalloc.kmem :=
  Kalloc.mk_kmem true (ex_next 1040) (λ x, let k := (x - Kalloc.kend0) / PGSIZE in
    if (0 <=? k) && (k <? 1040) && (x mod PGSIZE <? 4) then byte_of (ex_next k) (x mod PGSIZE) else 0).
Fixpoint ex_pages (n : nat) : list Z := match n with O => [] | S n => ex_page n :: ex_pages n end.

Lemma ex_pages_elem n p : p ∈ ex_pages n → ∃ k, 0 ≤ k < n ∧ p = ex_page k.
Proof.
  induction n as [|n IH]; [by intros ?%elem_of_nil|]. intros [->|(k & Hk & ->)%IH]%elem_of_cons; [exists n | exists k]; (split; [lia | done]).
Qed.

Lemma ex_free_list : Kalloc.free_list Kalloc.kend0 ex_free (ex_pages 1040).
Proof.
  split; [|split].
  - assert (∀ n : nat, (n ≤ 1040)%nat → Kalloc.chain (Kalloc.kmemory ex_free) (ex_next n) (ex_pages n)) as Hc; [|by apply (Hc 1040%nat)].
    assert (forallb (λ k, load32 (Kalloc.kmemory ex_free) (ex_page k) =? ex_next k) (seqZ 0 1040) = true) as Hnext by (vm_compute; reflexivity).
    rewrite forallb_forall in Hnext. induction n as [|n IH]; intros Hn; [done|]. cbn [ex_pages Kalloc.chain].
    split; [unfold ex_next; rewrite (proj2 (Z.eqb_neq _ 0)) by lia; f_equal; lia|].
    rewrite (proj1 (Z.eqb_eq _ _) (Hnext n ltac:(apply list_elem_of_In, elem_of_seqZ; lia))). apply IH. lia.
  - generalize 1040%nat. induction n as [|n IH]; [constructor|]. apply NoDup_cons. split; [|done].
    intros (k & Hk & He)%ex_pages_elem. unfold ex_page, PGSIZE in He. lia.
  - apply Forall_forall. intros p (k & Hk & ->)%ex_pages_elem. unfold Kalloc.page_ok, ex_page, PGSIZE. change Kalloc.kend0 with (KERNBASE + 0x200000).
    unfold KERNBASE, PHYSTOP. split_and!; [|lia..]. Z.div_mod_to_equations. lia.
Qed.

Definition ex_caller : pstate (Sysfile.kenv (B:=Log.lstate) (U:=machine)) :=
  mk_pstate [set_pgdir (ex_page 1040) (set_kstack 0x80400000 (set_pid 1 (set_state RUNNING proc0)))] 2 (Some 0%nat) (Some 0%nat) false
    (Sysfile.mk_kenv (File.mk_fenv ex_efs [] [] 0) (mk_machine ex_free 0 Console.fresh 0)).
Definition ex_program : ExecImage.program := ExecImage.mk_program 2 0x1005 [(0, [0x90; 0x90; 0xc3])].

Lemma returns_gives {S A} (m : M S A) s a : match m s with Ok a' _ _ => a' = a | _ => False end → ∃ s', gives m s a s'.
Proof. unfold gives. destruct (m s) as [a' s' tr| |]; [|done..]. intros ->. eauto. Qed.


End KernelInv.
