(* ===== verification/Mkfs.v ===== *)
(** * mkfs.c: making the file system image

    The host program that writes the first file system: super block, inodes,
    root directory, one file per argument, and the bitmap at the end. The image
    it leaves is one the kernel's file system code can start from: the theorems
    state it in the terms of FsBlock.v, FsFile.v and FsDir.v. *)

From S2P Require Import Prelude Memory Layout Sleeplock Bio Log Block Fs FsBlock FsFile FsRw FsDir.

Module Mkfs.
Import Fs FsBlock FsFile FsDir.

(** ** The program *)

Definition NINODES : Z := 200.
Definition nbitmap : Z := FSSIZE / (BSIZE * 8) + 1.
Definition ninodeblocks : Z := NINODES / IPB + 1.
Definition nlog : Z := LOGSIZE.
Definition nmeta : Z := 2 + nlog + ninodeblocks + nbitmap.
Definition nblocks : Z := FSSIZE - nmeta.

(** The image file, as sectors and their number, and the globals. *)
Record image := mk_image {
  img : Z → list Z;
  sectors : Z;
  isb : superblock;
  freeinode : Z;
  freeblock : Z;
}.

Definition zeroes : list Z := replicate 512 0.

(** The program runs on the host: it goes on, exits, or fails an assertion. *)
Inductive stop := Exit (code : Z) | Abort | Diverges.
Inductive result (A : Type) := Ret (a : A) (s : image) | Stop (w : stop) (s : image).
#[global] Arguments Ret {A} a s.
#[global] Arguments Stop {A} w s.

Definition K (A : Type) : Type := image → result A.

#[export] Instance K_ret : MRet K := λ A a s, Ret a s.
#[export] Instance K_bind : MBind K := λ A B f m s,
  match m s with Ret a s' => f a s' | Stop w s' => Stop w s' end.

Definition halt {A} (w : stop) : K A := λ s, Stop w s.
Definition exit {A} (n : Z) : K A := halt (Exit n).
Definition assert (b : bool) : K unit := if b then mret () else halt Abort.
Definition state : K image := λ s, Ret s s.
Definition update (f : image → image) : K unit := λ s, Ret () (f s).

(** [xint] and [xshort] on a host with Intel byte order: the value whose bytes in
    memory are those put there. *)
Definition xshort (x : Z) : Z := u8 x + 2 ^ 8 * u8 (Z.shiftr x 8).
Definition xint (x : Z) : Z := le32_val [u8 x; u8 (Z.shiftr x 8); u8 (Z.shiftr x 16); u8 (Z.shiftr x 24)].

(** The host: whether the image can be created and which of its sectors can be
    written, and the results of [read] on the files that can be opened. *)
Record host := mk_host {
  can_create : list Z → bool;
  can_write : Z → bool;
  open_read : list Z → option (list (list Z));
}.

Section mkfs.
Context (h : host).

(** The sector at the position [lseek] is given. *)
Definition position (sec : Z) : Z := u32 (sec * BSIZE) / BSIZE.

Definition put_sector (n : Z) (buf : list Z) (s : image) : image :=
  mk_image (upd_block (img s) n buf) (Z.max (sectors s) (n + 1)) (isb s) (freeinode s) (freeblock s).

Definition wsect (sec : Z) (buf : list Z) : K unit :=
  if can_write h (position sec) then update (put_sector (position sec) buf) else exit 1.

Definition rsect (sec : Z) : K (list Z) :=
  s ← state ;
  if position sec <? sectors s then mret (img s (position sec)) else exit 1.

Definition winode (inum : Z) (ip : dinode) : K unit :=
  s ← state ;
  let bn := IBLOCK inum (isb s) in
  buf ← rsect bn ;
  wsect bn (dip_set inum ip buf).

Definition rinode (inum : Z) : K dinode :=
  s ← state ;
  buf ← rsect (IBLOCK inum (isb s)) ;
  mret (dip_get inum buf).

Definition set_freeinode (n : Z) (s : image) : image := mk_image (img s) (sectors s) (isb s) n (freeblock s).
Definition set_freeblock (n : Z) (s : image) : image := mk_image (img s) (sectors s) (isb s) (freeinode s) n.

Definition ialloc (type : Z) : K Z :=
  s ← state ;
  let inum := freeinode s in
  update (set_freeinode (u32 (freeinode s + 1))) ;;
  winode inum (mk_dinode (s16 (xshort type)) 0 0 (s16 (xshort 1)) (xint 0) (replicate 13 0)) ;;
  mret inum.

(** The bits of the first [used] blocks. *)
Definition set_bit (buf : list Z) (i : Z) : list Z :=
  byte_upd buf (Z.to_nat (i / 8)) (λ x, Z.lor x (Z.shiftl 1 (i mod 8))).
Definition bitmap (used : Z) : list Z := foldl set_bit zeroes (seqZ 0 used).

Definition balloc (used : Z) : K unit :=
  assert (used <? BSIZE * 8) ;;
  s ← state ;
  wsect (Log.bmapstart (isb s)) (bitmap used).

(** [freeblock++] *)
Definition next_block : K Z :=
  s ← state ;
  update (set_freeblock (u32 (freeblock s + 1))) ;;
  mret (freeblock s).

(** Slot [k] of the addresses, allocated if need be. *)
Definition addr (din : dinode) (k : Z) : Z := nth (Z.to_nat k) (d_addrs din) 0.
Definition slot (k : Z) (din : dinode) : K dinode :=
  if xint (addr din k) =? 0 then
    b ← next_block ;
    mret (set_addrs (<[Z.to_nat k := xint b]> (d_addrs din)) din)
  else mret din.

(** The sector of block [fbn] of the file. *)
Definition sector_of (fbn : Z) (din : dinode) : K (Z * dinode) :=
  if fbn <? NDIRECT then
    din ← slot fbn din ;
    mret (xint (addr din fbn), din)
  else
    din ← slot NDIRECT din ;
    let a := xint (addr din NDIRECT) in
    let j := Z.to_nat (fbn - NDIRECT) in
    indirect ← rsect a ;
    indirect ←
      (if word_at indirect j =? 0 then
         b ← next_block ;
         let indirect := word_put indirect j (xint b) in
         wsect a indirect ;;
         mret indirect
       else mret indirect) ;
    mret (xint (word_at indirect j), din).

Fixpoint append_loop (fuel : nat) (din : dinode) (off : Z) (p : list Z) : K (dinode * Z) :=
  if length p =? 0 then mret (din, off) else
  match fuel with
  | O => halt Diverges
  | S fuel =>
      let fbn := off / BSIZE in
      assert (fbn <? MAXFILE) ;;
      '(x, din) ← sector_of fbn din ;
      let n1 := Z.min (length p) (u32 ((fbn + 1) * BSIZE - off)) in
      buf ← rsect x ;
      wsect x (splice (Z.to_nat (off - fbn * BSIZE)) (take (Z.to_nat n1) p) buf) ;;
      append_loop fuel din (u32 (off + n1)) (drop (Z.to_nat n1) p)
  end.

Definition iappend (inum : Z) (p : list Z) : K unit :=
  din ← rinode inum ;
  '(din, off) ← append_loop (length p) din (xint (d_size din)) p ;
  winode inum (set_size (xint off) din).

(** [strncpy] into the zeroed name of a directory entry, and [strcpy] of a name
    that is shorter. *)
Definition de_named (name : list Z) : list Z := take 14 (name ++ replicate 14 0).
Definition entry (inum : Z) (name : list Z) : list Z := dirent_bytes (mk_dirent (xshort inum) (de_named name)).

Fixpoint copy_in (inum : Z) (reads : list (list Z)) : K unit :=
  match reads with
  | [] => mret ()
  | buf :: reads => if length buf =? 0 then mret () else iappend inum buf ;; copy_in inum reads
  end.

Definition ch_slash : Z := 47.
Definition ch_underscore : Z := 95.
Definition skip_underscore (name : list Z) : list Z :=
  match name with
  | c :: name' => if c =? ch_underscore then name' else name
  | [] => []
  end.

Definition add_file (rootino : Z) (arg : list Z) : K unit :=
  assert (bool_decide (ch_slash ∉ arg)) ;;
  match open_read h arg with
  | None => exit 1
  | Some reads =>
      inum ← ialloc T_FILE ;
      iappend rootino (entry inum (skip_underscore arg)) ;;
      copy_in inum reads
  end.

Fixpoint each {A} (f : A → K unit) (l : list A) : K unit :=
  match l with [] => mret () | x :: l => f x ;; each f l end.

Definition super : superblock :=
  Log.mk_superblock (xint FSSIZE) (xint nblocks) (xint NINODES) (xint nlog) (xint 2) (xint (2 + nlog)) (xint (2 + nlog + ninodeblocks)).

(** [memset(buf, 0, sizeof(buf)); memmove(buf, &sb, sizeof(sb))] *)
Definition super_bytes (sb : superblock) : list Z :=
  splice 0 (concat (le32 <$> [Log.sb_size sb; Log.nblocks sb; Log.ninodes sb; Log.nlog sb; Log.logstart sb; Log.inodestart sb; Log.bmapstart sb])) zeroes.

Definition fix_root (rootino : Z) : K unit :=
  din ← rinode rootino ;
  let off := xint (d_size din) in
  let off := u32 ((off / BSIZE + 1) * BSIZE) in
  winode rootino (set_size (xint off) din).

(** [open(argv[1], O_RDWR|O_CREAT|O_TRUNC, 0666)] *)
Definition create (name : list Z) : K unit :=
  if can_create h name then update (λ s, mk_image (λ _, zeroes) 0 (isb s) (freeinode s) (freeblock s)) else exit 1.

(** [argv] is without the program's name. *)
Definition main (argv : list (list Z)) : K unit :=
  match argv with
  | [] => exit 1
  | name :: files =>
      create name ;;
      update (λ s, mk_image (img s) (sectors s) super (freeinode s) nmeta) ;;
      each (λ i, wsect i zeroes) (seqZ 0 FSSIZE) ;;
      wsect 1 (super_bytes super) ;;
      rootino ← ialloc T_DIR ;
      assert (rootino =? ROOTINO) ;;
      iappend rootino (entry rootino (bytes ".")) ;;
      iappend rootino (entry rootino (bytes "..")) ;;
      each (add_file rootino) files ;;
      fix_root rootino ;;
      s ← state ;
      balloc (s32 (freeblock s)) ;;
      exit 0
  end.

End mkfs.

(** The globals as they are initialised. *)
Definition initial : image := mk_image (λ _, zeroes) 0 (Log.mk_superblock 0 0 0 0 0 0 0) 1 0.

(** ** The image while it is made *)

(** The image with the bitmap [balloc] would write now. *)
Definition view (s : image) : Z → list Z := upd_block (img s) 58 (bitmap (freeblock s)).

Record good (s : image) : Prop := {
  g_sectors : sectors s = FSSIZE;
  g_sb : isb s = super;
  g_free : nmeta ≤ freeblock s ≤ FSSIZE;
  g_len m : length (img s m) = 512%nat;
  g_zero m : freeblock s ≤ m < FSSIZE → img s m = zeroes;
}.

Lemma super_eq : super = Log.mk_superblock 1000 941 200 30 2 32 58.
Proof. reflexivity. Qed.

Lemma sb_ok_super : sb_ok super.
Proof. rewrite super_eq. split_and!; done. Qed.

Lemma xint_id x : xint x = u32 x.
Proof. rewrite <- bytes_of_word. unfold byte_of. by rewrite Z.shiftr_0_r. Qed.

Lemma position_id n : 0 ≤ n < 2 ^ 23 → position n = n.
Proof. intros Hn. unfold position. change BSIZE with 512. rewrite u32_small by lia. by apply Z.div_mul. Qed.

Lemma bblock_super n : 0 ≤ n < FSSIZE → BBLOCK n super = 58.
Proof. intros Hn. destruct (BBLOCK_eq super n sb_ok_super Hn) as [-> _]. change BPB with 4096. change FSSIZE with 1000 in Hn. rewrite Z.div_small by lia. done. Qed.

(** *** The bitmap *)

Lemma bitmap_next n : 0 ≤ n < BPB → bitmap (n + 1) = mark n true (bitmap n).
Proof.
  intros Hn. unfold bitmap. rewrite seqZ_app by lia. rewrite foldl_app. simpl. unfold mark. by rewrite (Z.mod_small n BPB).
Qed.

Lemma nth_zeroes k : nth k zeroes 0 = 0.
Proof. unfold zeroes. rewrite nth_lookup. destruct (replicate 512 0 !! k) eqn:Hk; [|done]. by apply lookup_replicate in Hk as [-> _]. Qed.

Lemma bitmap_ok (n : nat) : n ≤ BPB → length (bitmap n) = 512%nat ∧ ∀ m, 0 ≤ m < BPB → truth (bit_at (bitmap n) m) = bool_decide (m < n).
Proof.
  induction n as [|n IH]; intros Hn.
  - split; [done|]. intros m Hm. rewrite truth_bit_at, bool_decide_eq_false_2 by lia. by rewrite nth_zeroes, Z.bits_0.
  - destruct IH as [Hl IH]; [lia|]. replace (Z.of_nat (S n)) with (n + 1) by lia. rewrite bitmap_next by lia. split; [by rewrite length_mark|].
    intros m Hm. rewrite bit_at_mark, Z.mod_small, IH by (done || lia). case_decide; repeat case_bool_decide; done || lia.
Qed.

Lemma view_other s m : m ≠ 58 → view s m = img s m.
Proof. intros Hm. unfold view, upd_block. by rewrite (proj2 (Z.eqb_neq _ _)). Qed.

Lemma view_length s m : good s → length (view s m) = 512%nat.
Proof.
  intros []. unfold view, upd_block. case_match; [|done]. change nmeta with 59 in *. change FSSIZE with 1000 in *.
  rewrite <- (Z2Nat.id (freeblock s)) by lia. apply bitmap_ok. change BPB with 4096. lia.
Qed.

Lemma view_inuse s m : good s → 0 ≤ m < FSSIZE → inuse (view s) super m = bool_decide (m < freeblock s).
Proof.
  intros [] Hm. unfold inuse. rewrite bblock_super by done. change nmeta with 59 in *. change FSSIZE with 1000 in *.
  unfold view, upd_block. rewrite Z.eqb_refl. rewrite <- (Z2Nat.id (freeblock s)) by lia.
  change BPB with 4096. rewrite Z.mod_small by lia. apply bitmap_ok; change BPB with 4096; lia.
Qed.

Lemma view_meta s : good s → meta_used (view s) super.
Proof.
  intros Hg m Hm. pose proof (g_free s Hg). rewrite super_eq in Hm. change (datastart _) with 59 in Hm. change nmeta with 59 in *. change FSSIZE with 1000 in *.
  rewrite view_inuse by (done || (change FSSIZE with 1000; lia)). apply bool_decide_eq_true_2. lia.
Qed.

(** [freeblock++] is the kernel's allocation of the block. *)
Definition bump (s : image) : image := set_freeblock (freeblock s + 1) s.

Lemma good_bump s : good s → freeblock s < FSSIZE → good (bump s).
Proof. intros [] Hf. split; try done; simpl; [lia|]. intros m Hm. apply g_zero0. lia. Qed.

Lemma view_bump s m : good s → freeblock s < FSSIZE → view (bump s) m = alloc_content (view s) super (freeblock s) m.
Proof.
  intros [] Hf. change nmeta with 59 in *. change FSSIZE with 1000 in *. unfold alloc_content. rewrite bblock_super by (change FSSIZE with 1000; lia).
  destruct (decide (m = freeblock s)) as [->|Hne].
  - rewrite view_other by lia. unfold upd_block. rewrite Z.eqb_refl. apply g_zero0. lia.
  - unfold upd_block at 1. rewrite (proj2 (Z.eqb_neq _ _) Hne). unfold view, upd_block. destruct (Z.eqb_spec m 58); [|done].
    rewrite Z.eqb_refl. apply bitmap_next. change BPB with 4096. lia.
Qed.

Lemma view_put s n x m : n ≠ 58 → view (put_sector n x s) m = upd_block (view s) n x m.
Proof.
  intros Hn. unfold view, put_sector, upd_block. simpl. destruct (Z.eqb_spec m 58) as [->|]; [|done]. by rewrite (proj2 (Z.eqb_neq 58 n)) by lia.
Qed.

Lemma good_put s n x : good s → 0 ≤ n < freeblock s → length x = 512%nat → good (put_sector n x s).
Proof.
  intros [] Hn Hx. split; simpl; try done.
  - lia.
  - intros m. unfold upd_block. by case_match.
  - intros m Hm. unfold upd_block. rewrite (proj2 (Z.eqb_neq m n)) by lia. by apply g_zero0.
Qed.

(** ** Appending to a file *)

(** The disk blocks a file of [n] bytes takes. *)
Definition blocks (n : Z) : Z := let q := (n + 511) / 512 in if 12 <? q then q + 1 else q.

(** The file with these addresses holds [l], and zeros up to the largest size. *)
Record file (c : Z → list Z) (addrs : list Z) (l : list Z) : Prop := {
  f_ok : file_ok c super addrs;
  f_bytes off : 0 ≤ off < MAXFILE * BSIZE → fbyte c addrs off = nth (Z.to_nat off) l 0;
  f_blocks bn : 0 ≤ bn → bn * BSIZE < length l → blkaddr c addrs bn ≠ 0;
}.

(** From [s] to [s'] the file of [din] gets blocks and the bytes [g]. *)
Record grew (s : image) (din : dinode) (s' : image) (din' : dinode) (g : Z → Z) : Prop := {
  gr_good : good s';
  gr_step : pstep super (view s) (d_addrs din) (view s') (d_addrs din') g;
  gr_din : din' = set_addrs (d_addrs din') din;
  gr_ino : freeinode s' = freeinode s;
  gr_mono : freeblock s ≤ freeblock s';
}.

Lemma grew_refl s din : good s → file_ok (view s) super (d_addrs din) → grew s din s din (fbyte (view s) (d_addrs din)).
Proof.
  intros Hg Hf. split; try done; [|by destruct din].
  apply pstep_refl; [done | by apply view_meta | intros; by apply view_length].
Qed.

Lemma grew_trans s din s1 din1 g1 s2 din2 g2 : grew s din s1 din1 g1 → grew s1 din1 s2 din2 g2 → grew s din s2 din2 g2.
Proof.
  intros [G1 P1 D1 I1 M1] [G2 P2 D2 I2 M2]. split; [done | | | congruence | lia].
  - eapply pstep_trans; [apply sb_ok_super | done | done].
  - rewrite D2, D1. done.
Qed.

Lemma grew_bytes s din s' din' g g' :
  (∀ off, 0 ≤ off < MAXFILE * BSIZE → g' off = g off) → grew s din s' din' g → grew s din s' din' g'.
Proof. intros Hg [G P D I M]. split; try done. by eapply pstep_ext; [|exact Hg|exact P]. Qed.

Section run.
Context (h : host) (Hw : ∀ n, can_write h n = true).

Lemma bind_ret {A B} (m : K A) (f : A → K B) s a s1 : m s = Ret a s1 → (m ≫= f) s = f a s1.
Proof using. intros Hm. unfold mbind, K_bind. by rewrite Hm. Qed.

Lemma bind_update {A} f (g : unit → K A) s : (update f ≫= g) s = g () (f s).
Proof using. done. Qed.

Lemma bind_state {A} (g : image → K A) s : (state ≫= g) s = g s s.
Proof using. done. Qed.

Lemma bind_assert {A} (g : unit → K A) s : (assert true ≫= g) s = g () s.
Proof using. done. Qed.

Lemma wsect_run n x s : 0 ≤ n < FSSIZE → wsect h n x s = Ret () (put_sector n x s).
Proof using Hw. change FSSIZE with 1000. intros Hn. unfold wsect. by rewrite position_id, Hw by lia. Qed.

Lemma rsect_run n s : good s → 0 ≤ n < FSSIZE → rsect n s = Ret (img s n) s.
Proof using.
  intros Hg Hn. unfold rsect, mbind, K_bind, state. rewrite position_id by (change FSSIZE with 1000 in Hn; lia).
  by rewrite (g_sectors s Hg), (proj2 (Z.ltb_lt _ _)) by lia.
Qed.

Lemma next_block_run s : good s → next_block s = Ret (freeblock s) (bump s).
Proof using.
  intros [_ _ Hf _ _]. change nmeta with 59 in Hf. change FSSIZE with 1000 in Hf. unfold next_block, mbind, K_bind, state, update, bump. simpl.
  by rewrite u32_small by lia.
Qed.

Lemma addr_small s din k : good s → file_ok (view s) super (d_addrs din) → xint (addr din k) = addr din k.
Proof using.
  intros Hg Hf. rewrite xint_id. apply u32_small. unfold addr. pose proof (FsRw.file_addrs_ok _ _ _ sb_ok_super Hf) as Hall.
  rewrite nth_lookup. destruct (d_addrs din !! Z.to_nat k) as [a|] eqn:Ha; [|simpl; lia]. by apply (Forall_lookup_1 _ _ _ _ Hall Ha).
Qed.

Lemma slot_run k din s : good s → file_ok (view s) super (d_addrs din) → 0 ≤ k ≤ 12 → (addr din k = 0 → freeblock s < FSSIZE) →
  ∃ s' din', slot k din s = Ret din' s' ∧ grew s din s' din' (fbyte (view s) (d_addrs din)) ∧ addr din' k ≠ 0 ∧
    freeblock s' = freeblock s + (if addr din k =? 0 then 1 else 0) ∧ (addr din k ≠ 0 → s' = s ∧ din' = din).
Proof using.
  intros Hg Hf Hk Hfree. unfold slot. rewrite (addr_small s) by done. destruct (Z.eqb_spec (addr din k) 0) as [H0|H0].
  - specialize (Hfree H0). pose proof (g_free s Hg) as Hr. rewrite (bind_ret _ _ _ _ _ (next_block_run s Hg)).
    change nmeta with 59 in Hr. change FSSIZE with 1000 in Hr, Hfree. exists (bump s). eexists. split; [done|]. rewrite xint_id, u32_small by lia. split; [|split; [|split; [done | by intros]]].
    + split; [by apply good_bump | | done | done | simpl; lia]. simpl.
      apply (pstep_ext _ _ _ (alloc_content (view s) super (freeblock s)) _ _ (fbyte (view s) (d_addrs din))); [|done|].
      * intros m. by apply view_bump.
      * apply pstep_slot; try done; [by apply view_meta | intros; by apply view_length | change (59 ≤ freeblock s < 1000); lia |].
        rewrite view_inuse by (done || (change FSSIZE with 1000; lia)). apply bool_decide_eq_false_2. lia.
    + unfold addr. simpl. rewrite nth_lookup, list_lookup_insert_eq; [simpl; lia|]. destruct Hf as [Hl _]. rewrite Hl. lia.
  - exists s, din. split; [done|]. split; [by apply grew_refl|]. split; [done|]. split; [lia | done].
Qed.

(** A block of a file is a sector below [freeblock]. *)
Lemma fblock_range s addrs x : good s → file_ok (view s) super addrs → fblock (view s) addrs x → 59 ≤ x < freeblock s.
Proof using.
  intros Hg (_ & Hd & _) Hx. destruct (Hd x Hx) as [Hr Hu]. change (59 ≤ x < 1000) in Hr. rewrite view_inuse in Hu by (done || (change FSSIZE with 1000; lia)).
  apply bool_decide_eq_true_1 in Hu. lia.
Qed.

Lemma entry_run bn din s : good s → file_ok (view s) super (d_addrs din) → NDIRECT ≤ bn < MAXFILE → addr din NDIRECT ≠ 0 →
  (blkaddr (view s) (d_addrs din) bn = 0 → freeblock s < FSSIZE) →
  ∃ s', (indirect ← rsect (addr din NDIRECT) ;
         indirect ←
           (if word_at indirect (Z.to_nat (bn - NDIRECT)) =? 0 then
              b ← next_block ;
              let indirect := word_put indirect (Z.to_nat (bn - NDIRECT)) (xint b) in
              wsect h (addr din NDIRECT) indirect ;;
              mret indirect
            else mret indirect) ;
         mret (xint (word_at indirect (Z.to_nat (bn - NDIRECT))), din)) s = Ret (blkaddr (view s') (d_addrs din) bn, din) s' ∧
    grew s din s' din (fbyte (view s) (d_addrs din)) ∧ blkaddr (view s') (d_addrs din) bn ≠ 0 ∧
    freeblock s' = freeblock s + (if blkaddr (view s) (d_addrs din) bn =? 0 then 1 else 0).
Proof using Hw.
  intros Hg Hf Hbn Hi Hfree. change (addr din NDIRECT) with (ind (d_addrs din)) in *.
  pose proof (fblock_range s _ (ind (d_addrs din)) Hg Hf ltac:(split; [done | by left])) as Hir.
  pose proof (g_free s Hg) as Hr. change nmeta with 59 in Hr. change FSSIZE with 1000 in *. change MAXFILE with 140 in *.
  assert (∀ c, blkaddr c (d_addrs din) bn = word_at (c (ind (d_addrs din))) (Z.to_nat (bn - NDIRECT))) as Hblk.
  { intros c. unfold blkaddr. by rewrite (proj2 (Z.ltb_ge _ _)), (proj2 (Z.eqb_neq _ _) Hi) by lia. }
  rewrite (bind_ret _ _ _ _ _ (rsect_run (ind (d_addrs din)) s Hg ltac:(change FSSIZE with 1000; lia))).
  rewrite <- (view_other s (ind (d_addrs din))), <- Hblk by lia. destruct (Z.eqb_spec (blkaddr (view s) (d_addrs din) bn) 0) as [H0|H0].
  - specialize (Hfree H0). destruct (pstep_indirect super sb_ok_super (view s) (d_addrs din) bn (freeblock s)) as [Hp Hn]; try done.
    { by apply view_meta. } { intros. by apply view_length. } { change (59 ≤ freeblock s < 1000). lia. }
    { rewrite view_inuse by (done || (change FSSIZE with 1000; lia)). apply bool_decide_eq_false_2. lia. }
    set (s' := put_sector (ind (d_addrs din)) (word_put (view s (ind (d_addrs din))) (Z.to_nat (bn - NDIRECT)) (freeblock s)) (bump s)).
    assert (∀ m, view s' m = upd_block (alloc_content (view s) super (freeblock s)) (ind (d_addrs din))
      (word_put (alloc_content (view s) super (freeblock s) (ind (d_addrs din))) (Z.to_nat (bn - NDIRECT)) (freeblock s)) m) as Hv.
    { intros m. unfold s'. rewrite view_put by lia. unfold upd_block. rewrite view_bump by done.
      by rewrite (alloc_content_other _ _ _ (ind (d_addrs din))) by (rewrite ?bblock_super by (change FSSIZE with 1000; lia); lia). }
    exists s'. rewrite (blkaddr_ext _ _ _ _ Hv), Hn. split.
    { unfold mbind at 1, K_bind at 1. rewrite (bind_ret _ _ _ _ _ (next_block_run s Hg)). cbv beta zeta.
      rewrite (bind_ret _ _ _ _ _ (wsect_run (ind (d_addrs din)) _ _ ltac:(change FSSIZE with 1000; lia))). rewrite !xint_id, (u32_small (freeblock s)) by lia.
      unfold mret, K_ret. rewrite word_at_put_same by (rewrite view_length; [unfold NDIRECT in *; lia | done]).
      by rewrite xint_id, u32_idemp, u32_small by lia. }
    split; [|split; [lia | done]]. split; [| | by destruct din | done | simpl; lia].
    + apply good_put; [by apply good_bump | simpl; lia|]. rewrite length_word_put; rewrite view_length by done; [done|]. unfold NDIRECT in *. lia.
    + by eapply pstep_ext; [exact Hv | | exact Hp].
  - exists s. split; [|split; [by apply grew_refl | split; [done | lia]]]. unfold mbind, K_bind, mret, K_ret. rewrite <- Hblk, xint_id, u32_small; [done|].
    assert (fblock (view s) (d_addrs din) (blkaddr (view s) (d_addrs din) bn)) as Hb by (apply fblock_addr; [change MAXFILE with 140; unfold NDIRECT in *; lia | done]).
    pose proof (fblock_range s _ _ Hg Hf Hb). lia.
Qed.

Lemma blocks_next n : 0 ≤ n → blocks (n + 1) - blocks n = if n mod 512 =? 0 then (if n / 512 =? 12 then 2 else 1) else 0.
Proof using.
  intros Hn. unfold blocks. repeat case_match; Z.div_mod_to_equations; lia.
Qed.

Lemma sector_of_run din s l fbn : good s → file (view s) (d_addrs din) l → fbn = length l / BSIZE → fbn < MAXFILE →
  freeblock s + (blocks (length l + 1) - blocks (length l)) ≤ FSSIZE →
  ∃ s' din', sector_of h fbn din s = Ret (blkaddr (view s') (d_addrs din') fbn, din') s' ∧
    blkaddr (view s') (d_addrs din') fbn ≠ 0 ∧ grew s din s' din' (fbyte (view s) (d_addrs din)) ∧
    freeblock s' ≤ freeblock s + (blocks (length l + 1) - blocks (length l)).
Proof using Hw.
  intros Hg [Hf _ Hb] Hfbn Hmax Hroom. rewrite blocks_next in * by lia. change BSIZE with 512 in *. assert (0 ≤ fbn) by (subst; Z.div_mod_to_equations; lia).
  assert (blkaddr (view s) (d_addrs din) fbn = 0 → length l mod 512 = 0) as Hfull.
  { intros H0. destruct (decide (length l mod 512 = 0)); [done|]. destruct (Hb fbn); [done | | done]. subst. Z.div_mod_to_equations. lia. }
  unfold sector_of. destruct (Z.ltb_spec fbn NDIRECT) as [Hlt|Hge].
  - assert (∀ c d, blkaddr c (d_addrs d) fbn = addr d fbn) as Hblk by (intros; unfold blkaddr; by rewrite (proj2 (Z.ltb_lt _ _))).
    rewrite Hblk in Hfull. unfold NDIRECT in Hlt. assert (addr din fbn = 0 → length l mod 512 =? 0 = true ∧ length l / 512 =? 12 = false) as Hcase.
    { intros H0. rewrite Z.eqb_eq, Z.eqb_neq. split; [auto | lia]. }
    destruct (slot_run fbn din s Hg Hf ltac:(lia)) as (s' & din' & Hrun & Hgr & Hne & Hfree & _).
    { intros H0. destruct (Hcase H0) as [E1 E2]. rewrite E1, E2 in Hroom. lia. }
    exists s', din'. rewrite (bind_ret _ _ _ _ _ Hrun), Hblk. unfold mret, K_ret. destruct Hgr as [Hg' Hp]. rewrite (addr_small s') by (done || apply Hp).
    split; [done|]. split; [done|]. split; [done|]. rewrite Hfree. destruct (Z.eqb_spec (addr din fbn) 0) as [H0|]; [|repeat case_match; lia].
    destruct (Hcase H0) as [-> ->]. lia.
  - change MAXFILE with 140 in *. unfold NDIRECT in Hge.
    assert (addr din NDIRECT = 0 → length l mod 512 =? 0 = true ∧ length l / 512 =? 12 = true) as Hcase.
    { intros H0. assert (∀ bn, 12 ≤ bn → bn * 512 < length l → False) as Hno.
      { intros bn H1 H2. apply (Hb bn); [lia | done |]. unfold blkaddr. rewrite (proj2 (Z.ltb_ge _ _)) by (unfold NDIRECT; lia).
        change (addr din NDIRECT) with (ind (d_addrs din)) in H0. by rewrite H0. }
      specialize (Hno 12 ltac:(lia)). rewrite !Z.eqb_eq. Z.div_mod_to_equations. lia. }
    destruct (slot_run NDIRECT din s Hg Hf ltac:(unfold NDIRECT; lia)) as (s1 & din1 & Hrun & Hgr & Hne & Hfree & Hsame).
    { intros H0. destruct (Hcase H0) as [E1 E2]. rewrite E1, E2 in Hroom. lia. }
    rewrite (bind_ret _ _ _ _ _ Hrun). pose proof Hgr as [Hg1 Hp1 _ _ _]. pose proof (ps_file _ _ _ _ _ _ Hp1) as Hf1.
    assert (freeblock s1 + (if blkaddr (view s1) (d_addrs din1) fbn =? 0 then 1 else 0) ≤
      freeblock s + (if length l mod 512 =? 0 then if length l / 512 =? 12 then 2 else 1 else 0)) as Hneed.
    { assert (blkaddr (view s1) (d_addrs din1) fbn = 0 → length l mod 512 = 0) as Hfull1.
      { intros H0. apply Hfull. destruct (decide (blkaddr (view s) (d_addrs din) fbn = 0)) as [|Hn]; [done|].
        by rewrite (ps_keep _ _ _ _ _ _ Hp1) in H0 by (done || (change MAXFILE with 140; lia)). }
      rewrite Hfree. destruct (Z.eqb_spec (addr din NDIRECT) 0) as [H0|_]; [destruct (Hcase H0) as [-> ->]; destruct (blkaddr _ _ fbn =? 0); lia|].
      destruct (Z.eqb_spec (blkaddr (view s1) (d_addrs din1) fbn) 0) as [H0|]; [rewrite (Hfull1 H0); simpl|]; repeat case_match; lia. }
    destruct (entry_run fbn din1 s1 Hg1 Hf1) as (s2 & Hrun2 & Hgr2 & Hne2 & Hfree2); [unfold NDIRECT; change MAXFILE with 140; lia | done | |].
    { intros H0. rewrite H0 in Hneed. simpl in Hneed. lia. }
    exists s2, din1. rewrite (addr_small s1) by done. split; [exact Hrun2|]. split; [done|]. split; [|lia].
    eapply grew_bytes; [|exact (grew_trans _ _ _ _ _ _ _ _ Hgr Hgr2)]. intros off Hoff. symmetry. apply (ps_bytes _ _ _ _ _ _ Hp1 off Hoff).
Qed.

Lemma blocks_fill (l q : list Z) : q ≠ [] → length l mod 512 + length q ≤ 512 → blocks (length l + length q) = blocks (length l + 1).
Proof using.
  intros Hq Hle. assert (1 ≤ length q) by (destruct q; [done | simpl; lia]). unfold blocks.
  by replace ((length l + length q + 511) / 512) with ((length l + 1 + 511) / 512) by (Z.div_mod_to_equations; lia).
Qed.

Lemma nth_write_bytes (l q : list Z) y : 0 ≤ y → nth (Z.to_nat y) (l ++ q) 0 = write_bytes (λ y, nth (Z.to_nat y) l 0) (length l) q y.
Proof using.
  intros Hy. unfold write_bytes. rewrite !nth_lookup. range_cases.
  - rewrite lookup_app_r by lia. replace (Z.to_nat (y - length l)) with (Z.to_nat y - length l)%nat by lia.
    destruct (lookup_lt_is_Some_2 q (Z.to_nat y - length l)) as [x ->]; [lia | done].
  - destruct (decide (y < length l)); [by rewrite lookup_app_l by lia|].
    by rewrite !lookup_ge_None_2 by (rewrite ?length_app; lia).
Qed.

(** The bytes [q] go into the block at the end of the file. *)
Lemma append_step din s l q fbn : good s → file (view s) (d_addrs din) l → fbn = length l / BSIZE → fbn < MAXFILE →
  q ≠ [] → length l mod 512 + length q ≤ 512 → freeblock s + (blocks (length l + length q) - blocks (length l)) ≤ FSSIZE →
  ∃ x s1 din' s', sector_of h fbn din s = Ret (x, din') s1 ∧ rsect x s1 = Ret (img s1 x) s1 ∧
    wsect h x (splice (Z.to_nat (length l - fbn * BSIZE)) q (img s1 x)) s1 = Ret () s' ∧
    (∃ g, grew s din s' din' g) ∧ file (view s') (d_addrs din') (l ++ q) ∧
    freeblock s' ≤ freeblock s + (blocks (length l + length q) - blocks (length l)).
Proof using Hw.
  intros Hg Hfl Hfbn Hmax Hq Hle. rewrite blocks_fill by done. intros Hroom.
  destruct (sector_of_run din s l fbn Hg Hfl Hfbn Hmax Hroom) as (s1 & din' & Hrun & Hne & Hgr & Hfree). set (x := blkaddr (view s1) (d_addrs din') fbn) in *.
  destruct Hfl as [Hf Hby Hbl]. pose proof Hgr as [Hg1 Hp1 _ _ _]. pose proof (ps_file _ _ _ _ _ _ Hp1) as Hf1.
  change BSIZE with 512 in *. assert (0 ≤ fbn) by (subst; Z.div_mod_to_equations; lia).
  assert (fblock (view s1) (d_addrs din') x) as Hx by (apply fblock_addr; done || lia).
  pose proof (fblock_range _ _ _ Hg1 Hf1 Hx) as Hxr. pose proof (g_free s1 Hg1) as Hr. change FSSIZE with 1000 in *.
  assert (length l - fbn * 512 = length l mod 512) as Hoff by (subst; Z.div_mod_to_equations; lia). rewrite Hoff.
  pose proof (Z.mod_pos_bound (length l) 512 ltac:(lia)) as Hmod. set (d := splice (Z.to_nat (length l mod 512)) q (img s1 x)).
  assert (length d = 512%nat) as Hd by (unfold d; rewrite length_splice; rewrite (g_len s1 Hg1); lia).
  exists x, s1, din', (put_sector x d s1). split; [done|]. split; [apply rsect_run; [done | change FSSIZE with 1000; lia]|].
  split; [apply wsect_run; change FSSIZE with 1000; lia|].
  assert (grew s1 din' (put_sector x d s1) din' (write_bytes (fbyte (view s1) (d_addrs din')) (length l) q)) as Hgw.
  { split; [apply good_put; done || lia | | by destruct din' | done | simpl; lia].
    eapply pstep_ext; [intros; apply view_put; lia | |apply (pstep_write super sb_ok_super (view s1) (d_addrs din') fbn d)]; try done; [| by apply view_meta | intros; by apply view_length].
    intros y Hy. rewrite <- FsRw.block_write; change BSIZE with 512; rewrite <- ?Hfbn; try done; [|by apply view_length | lia | lia].
    unfold d. by rewrite <- (view_other s1 x) by lia. }
  pose proof (grew_trans _ _ _ _ _ _ _ _ Hgr Hgw) as Hgt. split; [by eexists|]. split; [|simpl; lia].
  destruct Hgw as [_ Hpw _ _ _]. split.
  - apply Hpw.
  - intros y Hy. rewrite (ps_bytes _ _ _ _ _ _ Hpw y Hy), nth_write_bytes by lia. unfold write_bytes. range_cases; [|rewrite (ps_bytes _ _ _ _ _ _ Hp1 y Hy); by apply Hby].
    f_equal. rewrite (ps_bytes _ _ _ _ _ _ Hp1 y Hy). by apply Hby.
  - intros bn H0 Hlt. rewrite length_app in Hlt. change MAXFILE with 140 in *; change BSIZE with 512 in *.
    destruct (decide (bn = fbn)) as [->|]; [rewrite (ps_keep _ _ _ _ _ _ Hpw) by (done || (change MAXFILE with 140; lia)); done|].
    assert (bn * 512 < length l) by lia.
    destruct Hgt as [_ Hpt _ _ _]. rewrite (ps_keep _ _ _ _ _ _ Hpt); [by apply Hbl | | by apply Hbl]. change MAXFILE with 140. lia.
Qed.

Lemma append_loop_run fuel : ∀ din s l p, good s → file (view s) (d_addrs din) l → (length p ≤ fuel)%nat →
  length l + length p ≤ MAXFILE * BSIZE → freeblock s + (blocks (length l + length p) - blocks (length l)) ≤ FSSIZE →
  ∃ s' din', append_loop h fuel din (length l) p s = Ret (din', Z.of_nat (length (l ++ p))) s' ∧ (∃ g, grew s din s' din' g) ∧
    file (view s') (d_addrs din') (l ++ p) ∧ freeblock s' ≤ freeblock s + (blocks (length l + length p) - blocks (length l)).
Proof using Hw.
  induction fuel as [|fuel IH]; intros din s l p Hg Hf Hfuel Hmax Hroom.
  1: assert (p = []) as -> by (by destruct p; [|simpl in Hfuel; lia]).
  2: destruct (decide (p = [])) as [->|Hp].
  1-2: exists s, din; simpl; rewrite app_nil_r; split; [done|]; split; [eexists; by apply grew_refl, Hf | split; [done | rewrite Z.add_0_r; lia]].
  assert (1 ≤ length p) as H1 by (destruct p; [done | simpl; lia]). change (MAXFILE * BSIZE) with 71680 in *.
  cbn [append_loop]. rewrite (proj2 (Z.eqb_neq _ _)) by lia. set (fbn := length l / BSIZE).
  assert (0 ≤ fbn < 140 ∧ fbn * 512 ≤ length l < fbn * 512 + 512) as [Hfr Hfl] by (unfold fbn; change BSIZE with 512; Z.div_mod_to_equations; lia).
  rewrite (u32_small ((fbn + 1) * BSIZE - length l)) by (change BSIZE with 512; lia). set (n1 := Z.min _ _). assert (n1 = Z.min (length p) ((fbn + 1) * 512 - length l)) as Hn1 by done.
  set (q := take (Z.to_nat n1) p). assert (length q = Z.to_nat n1) as Hq by (unfold q; rewrite length_take; lia).
  assert (q ≠ []) as Hq0 by (intros E; rewrite E in Hq; simpl in Hq; lia).
  assert (length l mod 512 = length l - fbn * 512) as Hmod by (unfold fbn; change BSIZE with 512; Z.div_mod_to_equations; lia).
  assert (blocks (length l + length q) ≤ blocks (length l + length p)) as Hmono by (unfold blocks; repeat case_match; Z.div_mod_to_equations; lia).
  destruct (append_step din s l q fbn Hg Hf) as (x & s1 & din1 & s2 & R1 & R2 & R3 & [g1 G1] & F1 & B1);
    [done | change MAXFILE with 140; lia | done | lia | lia |].
  destruct (IH din1 s2 (l ++ q) (drop (Z.to_nat n1) p)) as (s3 & din3 & R4 & [g2 G2] & F2 & B2);
    [apply G1 | done | rewrite length_drop; lia | rewrite length_app, length_drop; change (MAXFILE * BSIZE) with 71680; lia | |];
    rewrite length_app, length_drop in *;
    replace (Z.of_nat (length l + length q) + Z.of_nat (length p - Z.to_nat n1)) with (length l + length p) in * by lia;
    rewrite Nat2Z.inj_add in *; [lia|].
  exists s3, din3. rewrite <- app_assoc in R4, F2. unfold q at 1 in F2. rewrite take_drop in F2. split; [|split; [eexists; by eapply grew_trans | split; [done | lia]]].
  rewrite (proj2 (Z.ltb_lt fbn MAXFILE)) by (change MAXFILE with 140; lia). rewrite bind_assert.
  rewrite (bind_ret _ _ _ _ _ R1). cbv beta iota. rewrite (bind_ret _ _ _ _ _ R2), (bind_ret _ _ _ _ _ R3).
  rewrite u32_small by lia. replace (length l + n1) with (Z.of_nat (length l) + Z.of_nat (length q)) by lia. rewrite R4. unfold q. rewrite take_drop, length_app. do 2 f_equal. lia.
Qed.

(** ** Inodes *)

Definition din (s : image) (n : Z) : dinode := dip_get n (img s (IBLOCK n super)).
Definition inode_put (n : Z) (d : dinode) (s : image) : image :=
  put_sector (IBLOCK n super) (dip_set n d (img s (IBLOCK n super))) s.

Lemma iblock_super n : 0 ≤ n < 208 → IBLOCK n super = 32 + n / 8 ∧ 32 ≤ IBLOCK n super < 58.
Proof using.
  intros Hn. unfold IBLOCK. change IPB with 8. change (Log.inodestart super) with 32. rewrite u32_small by (Z.div_mod_to_equations; lia).
  Z.div_mod_to_equations; lia.
Qed.

Lemma winode_run n d s : good s → 0 ≤ n < 208 → winode h n d s = Ret () (inode_put n d s).
Proof using Hw.
  intros Hg Hn. destruct (iblock_super n Hn) as [_ Hb]. unfold winode, inode_put. rewrite bind_state.
  rewrite (g_sb s Hg). cbv zeta. rewrite (bind_ret _ _ _ _ _ (rsect_run (IBLOCK n super) s Hg ltac:(change FSSIZE with 1000; lia))).
  apply wsect_run. change FSSIZE with 1000. lia.
Qed.

Lemma rinode_run n s : good s → 0 ≤ n < 208 → rinode n s = Ret (din s n) s.
Proof using.
  intros Hg Hn. destruct (iblock_super n Hn) as [_ Hb]. unfold rinode. rewrite bind_state.
  rewrite (g_sb s Hg). by rewrite (bind_ret _ _ _ _ _ (rsect_run (IBLOCK n super) s Hg ltac:(change FSSIZE with 1000; lia))).
Qed.

Lemma good_inode_put n d s : good s → 0 ≤ n < 208 → length (d_addrs d) = 13%nat → good (inode_put n d s).
Proof using.
  intros Hg Hn Hd. destruct (iblock_super n Hn) as [_ Hb]. pose proof (g_free s Hg) as Hf. change nmeta with 59 in Hf.
  apply good_put; [done | lia|]. apply length_dip_set; [done|]. apply (g_len s Hg).
Qed.

Lemma inode_put_other n d s m : 0 ≤ n < 208 → m < 32 ∨ 58 ≤ m → view (inode_put n d s) m = view s m.
Proof using.
  intros Hn Hm. destruct (iblock_super n Hn) as [_ Hb]. unfold inode_put. rewrite view_put by lia. unfold upd_block. by rewrite (proj2 (Z.eqb_neq _ _)) by lia.
Qed.

Lemma din_same n d s : good s → dinode_ok d → din (inode_put n d s) n = d.
Proof using.
  intros Hg Hd. unfold din, inode_put, put_sector, upd_block. simpl. rewrite Z.eqb_refl. apply dip_roundtrip; [done|]. apply (g_len s Hg).
Qed.

Lemma din_other n m d s : good s → 0 ≤ n < 208 → 0 ≤ m < 208 → n ≠ m → length (d_addrs d) = 13%nat → din (inode_put n d s) m = din s m.
Proof using.
  intros Hg Hn Hm Hne Hd. destruct (iblock_super n Hn) as [En _], (iblock_super m Hm) as [Em _].
  unfold din, inode_put, put_sector, upd_block. simpl. destruct (Z.eqb_spec (IBLOCK m super) (IBLOCK n super)) as [He|]; [|done]. rewrite <- He.
  apply dip_other; [done | apply (g_len s Hg) |]. change IPB with 8. rewrite En, Em in He. Z.div_mod_to_equations. lia.
Qed.

(** ** The files of the image *)

(** A file is untouched by what happens outside its blocks. *)
Lemma file_frame c c' addrs l : file c addrs l → (∀ x, fblock c addrs x → c' x = c x ∧ inuse c' super x = true) →
  file c' addrs l ∧ ∀ x, fblock c' addrs x ↔ fblock c addrs x.
Proof using.
  intros [Hf Hby Hbl] Hc. assert (∀ bn, blkaddr c' addrs bn = blkaddr c addrs bn) as Hblk.
  { intros bn. unfold blkaddr. case_match; [done|]. destruct (Z.eqb_spec (ind addrs) 0); [done|]. by rewrite (proj1 (Hc (ind addrs) ltac:(split; [done | by left]))). }
  assert (∀ x, fblock c' addrs x ↔ fblock c addrs x) as Hfb by (intros x; unfold fblock; by setoid_rewrite Hblk).
  split; [|done]. destruct Hf as (H1 & H2 & H3 & H4). split.
  - split; [done|]. split; [|split].
    + intros x Hx%Hfb. split; [by apply H2 | by apply Hc].
    + intros bn bn' Hb Hb'. rewrite !Hblk. by apply H3.
    + intros bn Hb. rewrite !Hblk. by apply H4.
  - intros off Hoff. rewrite <- Hby by done. unfold fbyte. rewrite Hblk. destruct (off_block off Hoff) as [Ho _].
    destruct (Z.eqb_spec (blkaddr c addrs (off / BSIZE)) 0) as [|Hn]; [done|]. by rewrite (proj1 (Hc _ (fblock_addr c addrs _ Ho Hn))).
  - intros bn. rewrite Hblk. apply Hbl.
Qed.

(** The blocks of all the files. *)
Definition used (fs : list (Z * list Z)) : Z := foldr (λ f n, blocks (length f.2) + n) 0 fs.

Definition has_file (s : image) (n ty : Z) (l : list Z) : Prop :=
  din s n = mk_dinode ty 0 0 1 (length l) (d_addrs (din s n)) ∧ short ty ∧ length l ≤ MAXFILE * BSIZE ∧ file (view s) (d_addrs (din s n)) l.

(** Inode [k + 1] is the file [fs !! k], given by its type and contents. *)
Record inv (fs : list (Z * list Z)) (s : image) : Prop := {
  i_good : good s;
  i_super : img s 1 = super_bytes super;
  i_log : img s 2 = zeroes;
  i_next : freeinode s = length fs + 1;
  i_count : length fs < NINODES;
  i_file (k : nat) ty l : fs !! k = Some (ty, l) → has_file s (k + 1) ty l;
  i_apart (k k' : nat) x : (k < length fs)%nat → (k' < length fs)%nat →
    fblock (view s) (d_addrs (din s (k + 1))) x → fblock (view s) (d_addrs (din s (k' + 1))) x → k = k';
  i_unused n : length fs < n < 208 → d_type (din s n) = 0;
  i_room : freeblock s ≤ nmeta + used fs;
}.

Lemma used_insert fs k f f' : fs !! k = Some f → used (<[k := f']> fs) = used fs + (blocks (length f'.2) - blocks (length f.2)).
Proof using.
  revert k. induction fs as [|g fs IH]; intros [|k] Hk; try done; simpl in *; [injection Hk as ->; lia|]. rewrite (IH k) by done. lia.
Qed.

Lemma dinode_ok_file c ty n addrs : short ty → 0 ≤ n ≤ 71680 → file_ok c super addrs → dinode_ok (mk_dinode ty 0 0 1 n addrs).
Proof using.
  intros Hty Hn Hf. split; [done|]. do 3 (split; [unfold short; simpl; lia|]). simpl. split; [lia|].
  split; [apply Hf | exact (FsRw.file_addrs_ok _ _ _ sb_ok_super Hf)].
Qed.

Lemma not_bitmap m : m ≠ 58 → m ∉ bmaps super.
Proof using. intros Hm. unfold bmaps. rewrite elem_of_list_to_set, elem_of_seqZ. change (¬ (58 ≤ m < 59)). lia. Qed.

(** Growing a file leaves the other blocks in use alone. *)
Lemma grew_frame s din s' din' g : good s → grew s din s' din' g →
  ∀ m, 0 ≤ m < freeblock s → m ≠ 58 → ¬ fblock (view s) (d_addrs din) m → img s' m = img s m.
Proof using.
  intros Hg [_ Hp _ _ _] m Hm Hb Hnf. pose proof (g_free s Hg). rewrite <- !view_other by done.
  apply (ps_frame _ _ _ _ _ _ Hp); [| | by apply not_bitmap | done]; [change (Log.sb_size super) with FSSIZE; lia|].
  rewrite view_inuse by (done || lia). apply bool_decide_eq_true_2. lia.
Qed.

(** A block of a file is not a block of meta data. *)
Lemma has_file_block s n ty l x : good s → has_file s n ty l → fblock (view s) (d_addrs (din s n)) x → 59 ≤ x < freeblock s.
Proof using. intros Hg (_ & _ & _ & [Hf _ _]). by apply fblock_range. Qed.

(** Files stay when the image changes elsewhere. *)
Lemma has_file_frame s s' n ty l : good s → good s' → has_file s n ty l → din s' n = din s n → freeblock s ≤ freeblock s' →
  (∀ x, fblock (view s) (d_addrs (din s n)) x → img s' x = img s x) →
  has_file s' n ty l ∧ ∀ x, fblock (view s') (d_addrs (din s' n)) x ↔ fblock (view s) (d_addrs (din s n)) x.
Proof using.
  intros Hg Hg' Hf Hd Hm Hs. pose proof (λ x, has_file_block s n ty l x Hg Hf) as Hr. destruct Hf as (E & ? & ? & Hf). rewrite Hd in *.
  destruct (file_frame _ (view s') _ _ Hf) as [Hf' Hb].
  { intros x Hx. specialize (Hr x Hx). rewrite !view_other by lia. split; [by apply Hs|]. pose proof (g_free s' Hg'). rewrite view_inuse by (done || lia).
    apply bool_decide_eq_true_2. lia. }
  split; [|done]. split; [by rewrite Hd|]. by rewrite Hd.
Qed.

(** One file changes or comes into being; [P] are the blocks it had. *)
Lemma inv_step fs fs' (k : nat) s s' ty l (P : Z → Prop) :
  inv fs s → good s' → freeblock s ≤ freeblock s' → freeinode s' = length fs' + 1 → length fs' < NINODES →
  (∀ j, j ≠ k → fs' !! j = fs !! j) → fs' !! k = Some (ty, l) → (length fs ≤ length fs')%nat → has_file s' (k + 1) ty l →
  (∀ m, 0 ≤ m < 32 → img s' m = img s m) → (∀ n, n ≠ k + 1 → 0 ≤ n < 208 → din s' n = din s n) →
  (∀ x, 59 ≤ x < freeblock s → ¬ P x → img s' x = img s x) → (∀ x, fblock (view s') (d_addrs (din s' (k + 1))) x → P x ∨ freeblock s ≤ x) →
  (∀ (j : nat) x, j ≠ k → (j < length fs)%nat → P x → ¬ fblock (view s) (d_addrs (din s (j + 1))) x) → freeblock s' ≤ nmeta + used fs' →
  inv fs' s'.
Proof using.
  intros Hi Hg' Hm Hnext Hcnt Hother Hk Hlen Hf' Hlow Hdin Himg Hnew Hapart Hroom. pose proof Hi as [Hg ? ? ? _ Hfile Hap Hun _].
  pose proof (lookup_lt_Some _ _ _ Hk) as Hkl. change NINODES with 200 in Hcnt.
  assert (∀ (j : nat), j ≠ k → (j < length fs')%nat → (j < length fs)%nat) as Hold.
  { intros j Hj Hlt. apply lookup_lt_is_Some_2 in Hlt. rewrite Hother in Hlt by done. by apply lookup_lt_is_Some_1. }
  assert (∀ (j : nat) ty' l', j ≠ k → fs !! j = Some (ty', l') → has_file s' (j + 1) ty' l' ∧
    ∀ x, fblock (view s') (d_addrs (din s' (j + 1))) x ↔ fblock (view s) (d_addrs (din s (j + 1))) x) as Hkeep.
  { intros j ty' l' Hj Hl. pose proof (lookup_lt_Some _ _ _ Hl). pose proof (Hfile _ _ _ Hl) as Hfj.
    apply has_file_frame; try done; [apply Hdin; lia|]. intros x Hx. apply Himg; [by eapply has_file_block|]. intros HP. by apply (Hapart j x). }
  assert (∀ (j : nat) x, j ≠ k → (j < length fs')%nat → fblock (view s') (d_addrs (din s' (j + 1))) x → fblock (view s') (d_addrs (din s' (k + 1))) x → False) as Hdis.
  { intros j x Hj Hlt Hx Hxk. specialize (Hold j Hj Hlt). destruct (lookup_lt_is_Some_2 fs j Hold) as [[ty' l'] Hl]. apply (Hkeep j ty' l' Hj Hl) in Hx.
    destruct (Hnew x Hxk) as [HP|?]; [by apply (Hapart j x)|]. pose proof (has_file_block _ _ _ _ _ Hg (Hfile _ _ _ Hl) Hx). lia. }
  split; try done.
  - rewrite Hlow by lia. done.
  - rewrite Hlow by lia. done.
  - intros j ty' l' Hj. destruct (decide (j = k)) as [->|Hne]; [congruence|]. rewrite Hother in Hj by done. by apply Hkeep.
  - intros j j' x Hj Hj' Hx Hx'. destruct (decide (j = k)) as [->|Hne], (decide (j' = k)) as [->|Hne']; [done | by destruct (Hdis j' x) | by destruct (Hdis j x) |].
    destruct (lookup_lt_is_Some_2 fs j) as [[] Hl]; [by apply Hold|]. destruct (lookup_lt_is_Some_2 fs j') as [[] Hl']; [by apply Hold|].
    apply (Hap j j' x); [by apply Hold | by apply Hold | by eapply Hkeep | by eapply Hkeep].
  - intros n Hn. rewrite Hdin by lia. apply Hun. lia.
Qed.

(** [iappend] appends. *)
Lemma iappend_run fs (k : nat) ty l p s : inv fs s → fs !! k = Some (ty, l) → length l + length p ≤ MAXFILE * BSIZE →
  nmeta + used (<[k := (ty, l ++ p)]> fs) ≤ FSSIZE →
  ∃ s', iappend h (k + 1) p s = Ret () s' ∧ inv (<[k := (ty, l ++ p)]> fs) s'.
Proof using Hw.
  intros Hi Hk Hmax Hroom. pose proof (lookup_lt_Some _ _ _ Hk) as Hlt. pose proof Hi as [Hg ? ? Hnext Hcnt Hfile Hap _ Hrm]. change NINODES with 200 in Hcnt.
  pose proof (Hfile _ _ _ Hk) as Hfk. pose proof Hfk as (Hd & Hty & _ & Hfl).
  rewrite (used_insert _ _ _ _ Hk) in Hroom. simpl in Hroom. rewrite length_app, Nat2Z.inj_add in Hroom.
  destruct (append_loop_run (length p) (din s (k + 1)) s l p) as (s1 & din1 & Hrun & [g Hgr] & F1 & B1); [done | done | lia | done | lia |].
  pose proof Hgr as [G1 P1 D1 I1 M1]. set (d := set_size (length (l ++ p)) din1). change (MAXFILE * BSIZE) with 71680 in Hmax.
  assert (d = mk_dinode ty 0 0 1 (length (l ++ p)) (d_addrs din1)) as Ed by (unfold d; rewrite D1, Hd; done).
  assert (d_addrs d = d_addrs din1) as Ea by done.
  pose proof (grew_frame _ _ _ _ _ Hg Hgr) as Hfr.
  assert (∀ m, 32 ≤ m < 58 → img s1 m = img s m) as Hino.
  { intros m Hm. pose proof (g_free s Hg) as Hr. change nmeta with 59 in Hr. apply Hfr; [lia | lia|]. intros Hx. pose proof (has_file_block _ _ _ _ _ Hg Hfk Hx). lia. }
  assert (∀ n, 0 ≤ n < 208 → din s1 n = din s n) as Hdin1 by (intros n Hn; unfold din; rewrite Hino; [done | apply (iblock_super n Hn)]).
  set (s2 := inode_put (k + 1) d s1). assert (length (d_addrs d) = 13%nat) as Hl by (rewrite Ea; apply F1).
  assert (good s2) as Hg2 by (apply good_inode_put; done || lia).
  destruct (file_frame _ (view s2) _ _ F1) as [F2 Hb2].
  { intros x Hx. destruct F1 as [F1 _ _]. pose proof (fblock_range s1 _ x G1 F1 Hx) as Hr. unfold s2. rewrite inode_put_other by lia. split; [done|].
    pose proof (g_free s1 G1). rewrite view_inuse by (done || lia). apply bool_decide_eq_true_2. simpl. lia. }
  assert (dinode_ok d) as Hok.
  { rewrite Ed. destruct F1 as [F1 _ _]. apply (dinode_ok_file (view s1)); [done | rewrite length_app; lia | done]. }
  assert (din s2 (k + 1) = d) as Ek by (by apply din_same).
  exists s2. split.
  - unfold iappend. rewrite (bind_ret _ _ _ _ _ (rinode_run (k + 1) s Hg ltac:(lia))). rewrite Hd at 2. simpl d_size. rewrite xint_id, u32_small by lia.
    rewrite (bind_ret _ _ _ _ _ Hrun). cbv beta iota. rewrite xint_id, u32_small by (rewrite length_app; lia). apply winode_run; [done | lia].
  - apply (inv_step fs _ k s s2 ty (l ++ p) (fblock (view s) (d_addrs (din s (k + 1))))); try done.
    + rewrite length_insert. unfold s2. simpl. by rewrite I1.
    + by rewrite length_insert.
    + intros j Hj. by rewrite list_lookup_insert_ne.
    + by rewrite list_lookup_insert_eq.
    + by rewrite length_insert.
    + split; [by rewrite Ek|]. split; [done|]. split; [rewrite length_app; change (MAXFILE * BSIZE) with 71680; lia|]. by rewrite Ek.
    + intros m Hm. pose proof (g_free s Hg) as Hr. change nmeta with 59 in Hr. unfold s2. rewrite <- view_other, inode_put_other, view_other by lia.
      apply Hfr; [lia | lia|]. intros Hx. pose proof (has_file_block _ _ _ _ _ Hg Hfk Hx). lia.
    + intros n Hn Hr. unfold s2. rewrite din_other by (done || lia). by apply Hdin1.
    + intros x Hx Hnf. unfold s2. rewrite <- view_other, inode_put_other, view_other by lia. apply Hfr; [lia | lia | done].
    + rewrite Ek, Ea. intros x Hx%Hb2. destruct (ps_new _ _ _ _ _ _ P1 x Hx) as [|Hfree]; [by left|]. right.
      destruct F1 as [F1 _ _]. pose proof (fblock_range s1 _ x G1 F1 Hx). pose proof (g_free s1 G1).
      rewrite view_inuse in Hfree by (done || lia). apply bool_decide_eq_false_1 in Hfree. lia.
    + intros j x Hj Hjl Hx Hx'. apply Hj. by apply (Hap j k x).
    + rewrite (used_insert _ _ _ _ Hk). simpl. rewrite length_app, Nat2Z.inj_add. lia.
Qed.

Lemma empty_addr c bn : blkaddr c (replicate 13 0) bn = 0.
Proof using.
  unfold blkaddr. change (ind (replicate 13 0)) with 0. case_match; [|done].
  rewrite nth_lookup. destruct (replicate 13 0 !! Z.to_nat bn) eqn:Hb; [|done]. by apply lookup_replicate in Hb as [-> _].
Qed.

Lemma empty_fblock c x : ¬ fblock c (replicate 13 0) x.
Proof using. intros (Hx & [?|(bn & _ & E)]); [done|]. rewrite empty_addr in E. congruence. Qed.

Lemma file_empty c : file c (replicate 13 0) [].
Proof using.
  split.
  - split; [done|]. split; [intros x Hx; by apply empty_fblock in Hx|]. split; intros bn; rewrite empty_addr; done.
  - intros off _. unfold fbyte. rewrite empty_addr. by destruct (Z.to_nat off).
  - simpl. change BSIZE with 512. lia.
Qed.

Lemma used_cons f fs : used (f :: fs) = blocks (length f.2) + used fs.
Proof using. done. Qed.

Lemma used_app fs fs' : used (fs ++ fs') = used fs + used fs'.
Proof using. induction fs; simpl; lia. Qed.

Lemma s16_small x : 0 ≤ x < 2 ^ 15 → s16 (xshort x) = x.
Proof using.
  intros Hx. unfold xshort. rewrite Z.shiftr_div_pow2 by lia. unfold s16, u16, u8. change (2 ^ 8) with 256. change (2 ^ 16) with 65536. change (2 ^ 15) with 32768 in *.
  case_match eqn:E; Z.div_mod_to_equations; lia.
Qed.

(** [ialloc] makes an empty file. *)
Lemma ialloc_run fs ty s : inv fs s → length fs + 1 < NINODES → 0 ≤ ty < 2 ^ 15 →
  ∃ s', ialloc h ty s = Ret (length fs + 1) s' ∧ inv (fs ++ [(ty, [])]) s'.
Proof using Hw.
  intros Hi Hcnt Hty. pose proof Hi as [Hg ? ? Hnext _ Hfile Hap _ Hrm]. change NINODES with 200 in Hcnt.
  set (d := mk_dinode ty 0 0 1 0 (replicate 13 0)). set (s0 := set_freeinode (length fs + 1 + 1) s).
  assert (good s0) as Hg0 by (by destruct Hg). assert (good (inode_put (length fs + 1) d s0)) as Hg' by (apply good_inode_put; done || lia).
  assert (dinode_ok d) as Hok by (apply (dinode_ok_file (view s)); [unfold short; lia | lia | apply file_empty]).
  exists (inode_put (length fs + 1) d s0). split.
  - unfold ialloc. rewrite bind_state. cbv zeta. rewrite Hnext, u32_small by lia. rewrite !s16_small, xint_id by (done || lia).
    rewrite (bind_ret _ _ s () s0) by done. by rewrite (bind_ret _ _ _ _ _ (winode_run (length fs + 1) d s0 Hg0 ltac:(lia))).
  - assert (din (inode_put (length fs + 1) d s0) (length fs + 1) = d) as Ek by (by apply din_same).
    apply (inv_step fs _ (length fs) s _ ty [] (λ _, False)); try done; rewrite ?length_app; simpl length.
    + simpl. lia.
    + change NINODES with 200. lia.
    + intros j Hj. destruct (decide (j < length fs)%nat); [by rewrite lookup_app_l|]. by rewrite !lookup_ge_None_2 by (rewrite ?length_app; simpl; lia).
    + by rewrite lookup_app_r, Nat.sub_diag by lia.
    + lia.
    + split; [by rewrite Ek|]. split; [unfold short; lia|]. split; [change (MAXFILE * BSIZE) with 71680; simpl; lia|]. rewrite Ek. apply file_empty.
    + intros m Hm. rewrite <- view_other, inode_put_other by lia. by rewrite view_other by lia.
    + intros n Hn Hr. by rewrite din_other by (done || lia).
    + intros x Hx _. rewrite <- view_other, inode_put_other by lia. by rewrite view_other by lia.
    + rewrite Ek. intros x Hx. by apply empty_fblock in Hx.
    + rewrite used_app. change (freeblock s ≤ nmeta + (used fs + 0)). lia.
Qed.

(** ** The whole image *)

Definition content (name : list Z) : list Z := concat (default [] (open_read h name)).

(** The root directory of an image with these files, and all its inodes. *)
Definition root_bytes (files : list (list Z)) : list Z :=
  concat (entry 1 (bytes ".") :: entry 1 (bytes "..") :: imap (λ k a, entry (Z.of_nat k + 2) (skip_underscore a)) files).
Definition layout (files : list (list Z)) : list (Z * list Z) :=
  (T_DIR, root_bytes files) :: ((λ a, (T_FILE, content a)) <$> files).

(** A file [main] can put into the image. *)
Definition fine (a : list Z) : Prop :=
  ch_slash ∉ a ∧ ∃ reads, open_read h a = Some reads ∧ Forall (λ b, b ≠ []) reads ∧ length (concat reads) ≤ MAXFILE * BSIZE.

Lemma blocks_mono a b : a ≤ b → blocks a ≤ blocks b.
Proof using. intros Hab. unfold blocks. repeat case_match; Z.div_mod_to_equations; lia. Qed.

Lemma used_nonneg fs : 0 ≤ used fs.
Proof using. induction fs as [|f fs IH]; simpl; [lia|]. pose proof (blocks_mono 0 (length f.2) ltac:(lia)). change (blocks 0) with 0 in *. lia. Qed.

Lemma copy_in_run reads : ∀ fs (k : nat) ty l s, inv fs s → fs !! k = Some (ty, l) → Forall (λ b, b ≠ []) reads →
  length (l ++ concat reads) ≤ MAXFILE * BSIZE → nmeta + used (<[k := (ty, l ++ concat reads)]> fs) ≤ FSSIZE →
  ∃ s', copy_in h (k + 1) reads s = Ret () s' ∧ inv (<[k := (ty, l ++ concat reads)]> fs) s'.
Proof using Hw.
  induction reads as [|b reads IH]; intros fs k ty l s Hi Hk Hne Hmax Hroom; cbn [copy_in concat] in *.
  - exists s. split; [done|]. by rewrite app_nil_r, list_insert_id.
  - apply Forall_cons in Hne as [Hb Hne]. rewrite (proj2 (Z.eqb_neq _ _)) by (destruct b; simpl; [done | lia]).
    rewrite app_assoc in *. pose proof (lookup_lt_Some _ _ _ Hk).
    destruct (iappend_run fs k ty l b s Hi Hk) as (s1 & Hrun & Hi1).
    { rewrite !length_app in Hmax. lia. }
    { rewrite (used_insert _ _ _ _ Hk) in Hroom. rewrite (used_insert _ _ _ _ Hk). cbn [snd] in *. pose proof (blocks_mono (length (l ++ b)) (length ((l ++ b) ++ concat reads)) ltac:(rewrite !length_app; lia)). lia. }
    rewrite (bind_ret _ _ _ _ _ Hrun).
    destruct (IH _ k ty (l ++ b) s1 Hi1) as (s2 & Hrun2 & Hi2); [by rewrite list_lookup_insert_eq | done | done | by rewrite list_insert_insert_eq |].
    rewrite list_insert_insert_eq in Hi2. by exists s2.
Qed.

Lemma length_entry n name : length (entry n name) = 16%nat.
Proof using. unfold entry, dirent_bytes, de_named. cbn [de_inum de_name]. rewrite length_app, length_take, length_app, length_replicate. change (length (le16 _)) with 2%nat. lia. Qed.

Lemma root_bytes_snoc files a : root_bytes (files ++ [a]) = root_bytes files ++ entry (length files + 2) (skip_underscore a).
Proof using.
  unfold root_bytes. rewrite imap_app, !app_comm_cons, concat_app. f_equal. cbn [imap concat]. by rewrite app_nil_r, Nat.add_0_r.
Qed.

Lemma length_root_bytes files : length (root_bytes files) = (16 * (length files + 2))%nat.
Proof using.
  induction files as [|a files IH] using rev_ind; [done|]. rewrite root_bytes_snoc, length_app, length_entry, IH, length_app. simpl. lia.
Qed.

Lemma used_layout_snoc files a : used (layout (files ++ [a])) =
  blocks (length (root_bytes files) + 16) + used ((λ a, (T_FILE, content a)) <$> files) + blocks (length (content a)).
Proof using.
  unfold layout. rewrite used_cons, fmap_app, used_app. cbn [snd]. rewrite root_bytes_snoc, length_app, length_entry, Nat2Z.inj_add.
  change (used ((λ a, (T_FILE, content a)) <$> [a])) with (blocks (length (content a)) + 0). change (Z.of_nat 16) with 16. lia.
Qed.

Lemma used_layout_app files files' : used (layout files) ≤ used (layout (files ++ files')).
Proof using.
  induction files' as [|a files' IH] using rev_ind; [by rewrite app_nil_r|]. rewrite app_assoc, used_layout_snoc. unfold layout in IH at 2. rewrite used_cons in IH. cbn [snd] in IH.
  pose proof (blocks_mono (length (root_bytes (files ++ files'))) (length (root_bytes (files ++ files')) + 16) ltac:(lia)).
  pose proof (blocks_mono 0 (length (content a)) ltac:(lia)). change (blocks 0) with 0 in *. lia.
Qed.

Lemma length_layout files : length (layout files) = S (length files).
Proof using. unfold layout. simpl. by rewrite length_fmap. Qed.

Lemma add_file_run files a s : inv (layout files) s → fine a → length files + 2 < NINODES → nmeta + used (layout (files ++ [a])) ≤ FSSIZE →
  ∃ s', add_file h 1 a s = Ret () s' ∧ inv (layout (files ++ [a])) s'.
Proof using Hw.
  intros Hi (Hsl & reads & Hopen & Hne & Hmax) Hcnt Hroom. change NINODES with 200 in Hcnt.
  assert (content a = concat reads) as Hct by (unfold content; by rewrite Hopen). rewrite used_layout_snoc, Hct in Hroom.
  set (F := (λ a, (T_FILE, content a)) <$> files) in *. set (R := root_bytes files) in *. set (e := entry (length files + 2) (skip_underscore a)).
  pose proof (length_root_bytes files) as HR. fold R in HR. pose proof (length_entry (length files + 2) (skip_underscore a)) as He. fold e in He.
  pose proof (blocks_mono 0 (length (concat reads)) ltac:(lia)) as Hb0. change (blocks 0) with 0 in Hb0.
  destruct (ialloc_run (layout files) T_FILE s Hi) as (s1 & R1 & I1); [rewrite length_layout; change NINODES with 200; lia | by vm_compute |].
  change (layout files) with ((T_DIR, R) :: F) in *. rewrite <- app_comm_cons in I1.
  destruct (iappend_run _ 0 T_DIR R e s1 I1 eq_refl) as (s2 & R2 & I2).
  { change (MAXFILE * BSIZE) with 71680. lia. }
  { cbn [insert list_insert]. rewrite used_cons, used_app. cbn [snd]. rewrite length_app, He, Nat2Z.inj_add. change (used [(T_FILE, [])]) with 0. change (Z.of_nat 16) with 16. lia. }
  cbn [insert list_insert] in I2. set (k := S (length files)).
  assert (∀ f, <[k := f]> ((T_DIR, R ++ e) :: F ++ [(T_FILE, [])]) = (T_DIR, R ++ e) :: F ++ [f]) as Hins.
  { intros f. change ((T_DIR, R ++ e) :: <[length files := f]> (F ++ [(T_FILE, [])]) = (T_DIR, R ++ e) :: F ++ [f]). f_equal.
    rewrite insert_app_r_alt by (unfold F; by rewrite length_fmap). unfold F. by rewrite length_fmap, Nat.sub_diag. }
  destruct (copy_in_run reads _ k T_FILE [] s2 I2) as (s3 & R3 & I3); [|done | done | |].
  { unfold k. simpl. rewrite lookup_app_r by (unfold F; by rewrite length_fmap). unfold F. by rewrite length_fmap, Nat.sub_diag. }
  { rewrite Hins, used_cons, used_app. cbn [snd app]. rewrite length_app, He, Nat2Z.inj_add. change (Z.of_nat 16) with 16. rewrite used_cons. cbn [snd]. change (used []) with 0. lia. }
  exists s3. split.
  - unfold add_file. rewrite bool_decide_eq_true_2 by done. rewrite bind_assert, Hopen.
    rewrite (bind_ret _ _ _ _ _ R1). unfold F. rewrite length_cons, length_fmap. replace (Z.of_nat (S (length files)) + 1) with (length files + 2) by lia.
    change 1 with (Z.of_nat 0 + 1) at 1. rewrite (bind_ret _ _ _ _ _ R2). by replace (length files + 2) with (k + 1) by lia.
  - rewrite Hins in I3. unfold layout. rewrite root_bytes_snoc, fmap_app. cbn [fmap list_fmap]. by rewrite Hct.
Qed.

Lemma add_files_run files : ∀ files0 s, inv (layout files0) s → Forall fine files → length (files0 ++ files) + 1 < NINODES →
  nmeta + used (layout (files0 ++ files)) ≤ FSSIZE → ∃ s', each (add_file h 1) files s = Ret () s' ∧ inv (layout (files0 ++ files)) s'.
Proof using Hw.
  induction files as [|a files IH]; intros files0 s Hi Hf Hcnt Hroom; [exists s; by rewrite app_nil_r|].
  apply Forall_cons in Hf as [Ha Hf]. replace (files0 ++ a :: files) with ((files0 ++ [a]) ++ files) in * by (by rewrite <- app_assoc).
  pose proof (used_layout_app (files0 ++ [a]) files) as Hm. rewrite !length_app in Hcnt. simpl in Hcnt.
  destruct (add_file_run files0 a s Hi Ha) as (s1 & R1 & I1); [lia | lia|].
  destruct (IH (files0 ++ [a]) s1 I1 Hf) as (s2 & R2 & I2); [rewrite !length_app; simpl; lia | done|].
  exists s2. split; [|done]. cbn [each]. by rewrite (bind_ret _ _ _ _ _ R1).
Qed.

Lemma zero_run (n : nat) : ∀ a s, 0 ≤ a → a + n ≤ FSSIZE → sectors s = a → (∀ m, img s m = zeroes) →
  ∃ s', each (λ i, wsect h i zeroes) (seqZ a n) s = Ret () s' ∧ (∀ m, img s' m = zeroes) ∧ sectors s' = a + n ∧
    isb s' = isb s ∧ freeinode s' = freeinode s ∧ freeblock s' = freeblock s.
Proof using Hw.
  induction n as [|n IH]; intros a s Ha Hn Hs Hz; [exists s; split_and!; done || lia|].
  rewrite seqZ_cons by lia. cbn [each]. rewrite (bind_ret _ _ _ _ _ (wsect_run a zeroes s ltac:(lia))). replace (Z.pred (Z.of_nat (S n))) with (Z.of_nat n) by lia.
  destruct (IH (Z.succ a) (put_sector a zeroes s)) as (s' & R & ? & ? & ? & ? & ?); [lia | lia | simpl; lia | |].
  { intros m. simpl. unfold upd_block. by case_match. }
  exists s'. rewrite R. split_and!; done || lia.
Qed.

Lemma dip_get_zeroes n : dip_get n zeroes = mk_dinode 0 0 0 0 0 (replicate 13 0).
Proof using.
  unfold dip_get. change IPB with 8. pose proof (Z.mod_pos_bound n 8 ltac:(lia)). assert (Z.to_nat (n mod 8) < 8)%nat as Hj by lia.
  generalize dependent (Z.to_nat (n mod 8)). intros j Hj. do 8 (destruct j as [|j]; [by vm_compute|]). lia.
Qed.

(** The empty image: zeros and a super block. *)
Lemma format_run s : sectors s = 0 → isb s = super → freeinode s = 1 → freeblock s = nmeta → (∀ m, img s m = zeroes) →
  ∃ s1 s2, each (λ i, wsect h i zeroes) (seqZ 0 FSSIZE) s = Ret () s1 ∧ wsect h 1 (super_bytes super) s1 = Ret () s2 ∧ inv [] s2.
Proof using Hw.
  intros H1 H2 H3 H4 H5. destruct (zero_run (Z.to_nat FSSIZE) 0 s) as (s1 & R1 & Hz & Hs & E1 & E2 & E3); [lia | by rewrite Z2Nat.id | done | done|].
  rewrite Z2Nat.id in R1, Hs by done. exists s1, (put_sector 1 (super_bytes super) s1). split; [exact R1|]. clear R1. split; [by apply wsect_run|].
  assert (∀ m, m ≠ 1 → img (put_sector 1 (super_bytes super) s1) m = zeroes) as Hz1.
  { intros m Hm. simpl. unfold upd_block. by rewrite (proj2 (Z.eqb_neq _ _)). }
  split.
  - split; simpl; [change FSSIZE with 1000 in *; lia | congruence | rewrite E3, H4; by vm_compute | |].
    + intros m. unfold upd_block. case_match; [by vm_compute | by rewrite Hz].
    + intros m Hm. apply Hz1. rewrite E3, H4 in Hm. change nmeta with 59 in Hm. lia.
  - done.
  - by apply Hz1.
  - simpl. lia.
  - done.
  - intros k ty l Hk. by rewrite lookup_nil in Hk.
  - simpl. lia.
  - intros n Hn. simpl in Hn. unfold din. rewrite Hz1, dip_get_zeroes; [done|]. destruct (iblock_super n); lia.
  - simpl. rewrite E3, H4. lia.
Qed.

(** *** The image that is left *)

Definition dinode_at (c : Z → list Z) (n : Z) : dinode := dip_get n (c (IBLOCK n super)).

(** The entries of the root directory. *)
Definition root_entries (files : list (list Z)) : list dirent :=
  mk_dirent ROOTINO (de_named (bytes ".")) :: mk_dirent ROOTINO (de_named (bytes "..")) ::
  imap (λ k a, mk_dirent (Z.of_nat k + 2) (de_named (skip_underscore a))) files.
Definition no_entry : dirent := mk_dirent 0 (replicate 14 0).
Definition root_size (files : list (list Z)) : Z := (16 * (length files + 2) / BSIZE + 1) * BSIZE.

(** What the kernel relies on: the super block; an empty log; a bitmap that marks
    the first blocks, in which everything lies; the root directory with an entry
    per file and unused ones behind; each file with its contents and no holes;
    no block in two files; the other inodes free. *)
Record bootable (files : list (list Z)) (c : Z → list Z) : Prop := {
  b_super : Log.superblock_of (c 1) = super;
  b_log : c 2 = zeroes;
  b_len m : length (c m) = 512%nat;
  b_inuse : ∃ n, nmeta ≤ n ≤ FSSIZE ∧ ∀ m, 0 ≤ m < FSSIZE → inuse c super m = bool_decide (m < n);
  b_root : let d := dinode_at c ROOTINO in d = mk_dinode T_DIR 0 0 1 (root_size files) (d_addrs d) ∧ file_ok c super (d_addrs d) ∧
    (∃ n, dent c (d_addrs d) <$> seq 0 (Z.to_nat (d_size d / 16)) = root_entries files ++ replicate n no_entry) ∧
    (∀ bn, 0 ≤ bn → bn * BSIZE < 16 * (length files + 2) → blkaddr c (d_addrs d) bn ≠ 0);
  b_file (k : nat) a : files !! k = Some a → let d := dinode_at c (k + 2) in
    d = mk_dinode T_FILE 0 0 1 (length (content a)) (d_addrs d) ∧ file_ok c super (d_addrs d) ∧
    read_bytes (fbyte c (d_addrs d)) 0 (d_size d) = content a ∧ (∀ bn, 0 ≤ bn → bn * BSIZE < d_size d → blkaddr c (d_addrs d) bn ≠ 0);
  b_apart m n x : 0 < m < length files + 2 → 0 < n < length files + 2 →
    fblock c (d_addrs (dinode_at c m)) x → fblock c (d_addrs (dinode_at c n)) x → m = n;
  b_unused n : length files + 2 ≤ n < NINODES → d_type (dinode_at c n) = 0;
}.

Lemma xshort_id x : 0 ≤ x < 2 ^ 16 → xshort x = x.
Proof using. intros Hx. unfold xshort. rewrite Z.shiftr_div_pow2 by lia. unfold u8. change (2 ^ 8) with 256. change (2 ^ 16) with 65536 in *. Z.div_mod_to_equations. lia. Qed.

Lemma root_bytes_entries files : length files < NINODES → root_bytes files = concat (dirent_bytes <$> root_entries files).
Proof using.
  intros Hn. change NINODES with 200 in Hn. unfold root_bytes, root_entries. rewrite !fmap_cons, fmap_imap. do 3 f_equal. apply imap_ext.
  intros k a Ha%lookup_lt_Some. unfold entry. simpl. rewrite xshort_id by lia. done.
Qed.

Definition entry_ok (e : dirent) : Prop := length (de_name e) = 14%nat ∧ 0 ≤ de_inum e < 2 ^ 16.

Lemma nth_entries es : Forall entry_ok es → ∀ k j, (j < 16)%nat →
  nth (16 * k + j) (concat (dirent_bytes <$> es)) 0 = nth j (dirent_bytes (default no_entry (es !! k))) 0.
Proof using.
  induction 1 as [|e es [He _] _ IH]; intros k j Hj.
  - change (concat _) with (@nil Z). rewrite lookup_nil. change (dirent_bytes (default no_entry None)) with (replicate 16 0).
    rewrite !nth_lookup, lookup_replicate_2 by done. by rewrite lookup_nil.
  - assert (length (dirent_bytes e) = 16%nat) as Hl by (unfold dirent_bytes; rewrite length_app, He; done).
    rewrite fmap_cons. cbn [concat]. destruct k as [|k]; [rewrite app_nth1 by (rewrite Hl; lia); done|].
    rewrite app_nth2, Hl by lia. replace (16 * S k + j - 16)%nat with (16 * k + j)%nat by lia. by apply IH.
Qed.

(** The entries read back. *)
Lemma dents_concat c addrs (es : list dirent) (n : nat) :
  (∀ off, 0 ≤ off < 16 * n → fbyte c addrs off = nth (Z.to_nat off) (concat (dirent_bytes <$> es)) 0) →
  Forall entry_ok es → (length es ≤ n)%nat →
  dent c addrs <$> seq 0 n = es ++ replicate (n - length es) no_entry.
Proof using.
  intros Hby Hes Hn. assert (∀ k : nat, (k < n)%nat → dent c addrs k = default no_entry (es !! k)) as Hd.
  { intros k Hk. pose (e := default no_entry (es !! k)). assert (entry_ok e) as [H1 H2].
    { unfold e. destruct (es !! k) as [e'|] eqn:He; [by apply (Forall_lookup_1 _ _ _ _ Hes He)|]. split; [done|]. simpl. lia. }
    transitivity (dirent_of (dirent_bytes e)); [unfold dent | fold e; clearbody e; destruct e; by apply dirent_roundtrip].
    assert (length (dirent_bytes e) = 16%nat) as Hl by (unfold dirent_bytes; rewrite length_app, H1; done).
    f_equal. apply list_eq. intros j. rewrite read_bytes_lookup. case_decide as Hj; [|by rewrite lookup_ge_None_2 by lia].
    rewrite Hby by lia. replace (Z.to_nat (16 * k + j)) with (16 * k + j)%nat by lia. rewrite nth_entries by (done || lia). fold e.
    rewrite nth_lookup. by destruct (lookup_lt_is_Some_2 (dirent_bytes e) j ltac:(lia)) as [x ->]. }
  apply list_eq. intros k. rewrite list_lookup_fmap. destruct (decide (k < n)%nat) as [Hk|Hk].
  - rewrite lookup_seq_lt by done. simpl. rewrite Hd by done. destruct (es !! k) as [e|] eqn:He.
    + by rewrite lookup_app_l by (by eapply lookup_lt_Some).
    + apply lookup_ge_None in He. rewrite lookup_app_r, lookup_replicate_2 by lia. done.
  - rewrite lookup_seq_ge by lia. simpl. rewrite lookup_ge_None_2; [done|]. rewrite length_app, length_replicate. lia.
Qed.

Lemma root_entries_ok files : length files < NINODES → Forall entry_ok (root_entries files).
Proof using.
  intros Hn. change NINODES with 200 in Hn. assert (∀ n name, 0 ≤ n < 2 ^ 16 → entry_ok (mk_dirent n (de_named name))) as He.
  { intros n name H. split; [|done]. simpl. unfold de_named. rewrite length_take, length_app, length_replicate. lia. }
  repeat (apply Forall_cons; split; [by apply He|]). apply Forall_lookup_2. intros k e Hk. rewrite list_lookup_imap in Hk.
  apply fmap_Some in Hk as (a & Ha%lookup_lt_Some & ->). apply He. lia.
Qed.

Lemma length_root_entries files : length (root_entries files) = (length files + 2)%nat.
Proof using. unfold root_entries. simpl. rewrite length_imap. lia. Qed.

(** The root directory gets its final size. *)
Lemma fix_root_run files s : inv (layout files) s →
  let d := mk_dinode T_DIR 0 0 1 (root_size files) (d_addrs (din s 1)) in
  fix_root h 1 s = Ret () (inode_put 1 d s) ∧ good (inode_put 1 d s) ∧ dinode_ok d ∧ root_size files ≤ 71680.
Proof using Hw.
  intros [Hg _ _ _ Hcnt Hfile _ _ _] d. destruct (Hfile 0%nat T_DIR (root_bytes files) eq_refl) as (Hd & _ & _ & [Hf _ _]). change (Z.of_nat 0 + 1) with 1 in *.
  rewrite length_layout in Hcnt. change NINODES with 200 in Hcnt. assert (0 ≤ root_size files ≤ 71680) as Hr by (unfold root_size; change BSIZE with 512; Z.div_mod_to_equations; lia).
  split; [|split; [by apply good_inode_put; [| |apply Hf] | split; [by apply (dinode_ok_file (view s)) | lia]]].
  unfold fix_root. rewrite (bind_ret _ _ _ _ _ (rinode_run 1 s Hg ltac:(lia))). rewrite Hd. cbn [d_size]. rewrite length_root_bytes, !xint_id.
  rewrite (u32_small (Z.of_nat _)) by lia. replace (Z.of_nat (16 * (length files + 2))) with (16 * (length files + 2)) by lia. fold (root_size files).
  rewrite !u32_small by (rewrite ?u32_small by lia; lia). apply winode_run; [done | lia].
Qed.

Lemma balloc_run s : good s → balloc h (s32 (freeblock s)) s = Ret () (put_sector 58 (bitmap (freeblock s)) s).
Proof using Hw.
  intros Hg. pose proof (g_free s Hg) as Hf. change nmeta with 59 in Hf. change FSSIZE with 1000 in Hf. unfold balloc. rewrite s32_small by lia.
  rewrite (proj2 (Z.ltb_lt _ _)) by (change (BSIZE * 8) with 4096; lia). rewrite bind_assert.
  rewrite bind_state, (g_sb s Hg). by apply wsect_run.
Qed.

Lemma dinode_at_view s n : 0 ≤ n < 208 → dinode_at (view s) n = din s n.
Proof using. intros Hn. destruct (iblock_super n Hn). unfold dinode_at, din. by rewrite view_other by lia. Qed.

Lemma super_of_bytes : Log.superblock_of (super_bytes super) = super.
Proof using. by vm_compute. Qed.

(** The root directory of the final image. *)
Lemma root_final files s s' : length files < NINODES → root_size files ≤ 71680 →
  din s' 1 = mk_dinode T_DIR 0 0 1 (root_size files) (d_addrs (din s 1)) → file (view s') (d_addrs (din s 1)) (root_bytes files) →
  let d := dinode_at (view s') ROOTINO in d = mk_dinode T_DIR 0 0 1 (root_size files) (d_addrs d) ∧ file_ok (view s') super (d_addrs d) ∧
    (∃ n, dent (view s') (d_addrs d) <$> seq 0 (Z.to_nat (d_size d / 16)) = root_entries files ++ replicate n no_entry) ∧
    (∀ bn, 0 ≤ bn → bn * BSIZE < 16 * (length files + 2) → blkaddr (view s') (d_addrs d) bn ≠ 0).
Proof using.
  intros Hn Hsz Hd [Hok Hby Hbl]. change ROOTINO with 1. rewrite dinode_at_view by lia. rewrite Hd. cbn [d_addrs d_size]. split; [done|]. split; [done|].
  split; [|intros bn Hb Hlt; apply Hbl; [done | rewrite length_root_bytes; lia]]. eexists. apply dents_concat; [|by apply root_entries_ok|].
  - intros off Hoff. rewrite Hby; [by rewrite root_bytes_entries|]. change (MAXFILE * BSIZE) with 71680. unfold root_size in *. change BSIZE with 512 in *.
    Z.div_mod_to_equations. lia.
  - rewrite length_root_entries. unfold root_size. change BSIZE with 512. Z.div_mod_to_equations. lia.
Qed.

Lemma bootable_final files s : inv (layout files) s →
  let d := mk_dinode T_DIR 0 0 1 (root_size files) (d_addrs (din s 1)) in bootable files (view (inode_put 1 d s)).
Proof using Hw.
  intros Hi d. destruct (fix_root_run files s Hi) as (_ & Hg' & Hok & Hsz). fold d in Hg', Hok. set (s' := inode_put 1 d s) in *.
  pose proof Hi as [Hg Hsup Hlog _ Hcnt Hfile Hap Hun _]. rewrite length_layout in *. change NINODES with 200 in *.
  destruct (Hfile 0%nat T_DIR (root_bytes files) eq_refl) as (_ & _ & _ & Hf). change (Z.of_nat 0 + 1) with 1 in *.
  assert (din s' 1 = d) as E1 by (by apply din_same).
  assert (∀ n, 1 < n < 208 → din s' n = din s n) as E2 by (intros n Hn; apply din_other; [done | lia | lia | lia | apply Hf]).
  assert (∀ x, x < 32 ∨ 58 ≤ x → view s' x = view s x) as Ev by (intros x Hx; by apply inode_put_other).
  assert (∀ (j : nat), (j < S (length files))%nat → d_addrs (din s' (j + 1)) = d_addrs (din s (j + 1))) as Ea.
  { intros [|j] Hj; [change (Z.of_nat 0 + 1) with 1; by rewrite E1 | by rewrite E2 by lia]. }
  assert (∀ (j : nat) ty l, layout files !! j = Some (ty, l) → file (view s') (d_addrs (din s (j + 1))) l ∧
    ∀ x, fblock (view s') (d_addrs (din s (j + 1))) x ↔ fblock (view s) (d_addrs (din s (j + 1))) x) as Hframe.
  { intros j ty l Hj. pose proof (Hfile _ _ _ Hj) as Hfj. apply file_frame; [apply Hfj|]. intros x Hx. pose proof (has_file_block _ _ _ _ _ Hg Hfj Hx) as Hr.
    split; [apply Ev; lia|]. pose proof (g_free s Hg). rewrite view_inuse by (done || lia). apply bool_decide_eq_true_2. simpl. lia. }
  split.
  - rewrite Ev, view_other, Hsup by lia. apply super_of_bytes.
  - rewrite Ev, view_other by lia. done.
  - intros m. by apply view_length.
  - exists (freeblock s'). split; [apply (g_free s' Hg')|]. intros m Hm. by apply view_inuse.
  - apply (root_final files s); [change NINODES with 200; lia | done | done | by apply (Hframe 0%nat T_DIR)].
  - intros k a Ha d'. assert (layout files !! S k = Some (T_FILE, content a)) as Hk by (unfold layout; simpl; by rewrite list_lookup_fmap, Ha).
    pose proof (lookup_lt_Some _ _ _ Ha). destruct (Hfile _ _ _ Hk) as (Hd & _ & Hl & _). destruct (Hframe _ _ _ Hk) as [[F1 F2 F3] _].
    replace (S k + 1) with (k + 2) in * by lia. subst d'. rewrite dinode_at_view, E2 by lia.
    split; [done|]. split; [done|]. rewrite Hd. cbn [d_size d_addrs]. split; [|done]. apply list_eq. intros j. rewrite read_bytes_lookup.
    change (MAXFILE * BSIZE) with 71680 in *. case_decide as Hj; [|by rewrite lookup_ge_None_2 by lia]. rewrite F2 by lia. rewrite nth_lookup.
    replace (Z.to_nat (0 + j)) with j by lia. by destruct (lookup_lt_is_Some_2 (content a) j ltac:(lia)) as [x ->].
  - intros m n x Hm Hn. rewrite !dinode_at_view by lia. replace m with (Z.of_nat (Z.to_nat (m - 1)) + 1) by lia. replace n with (Z.of_nat (Z.to_nat (n - 1)) + 1) by lia.
    destruct (lookup_lt_is_Some_2 (layout files) (Z.to_nat (m - 1))) as [[] H1]; [rewrite length_layout; lia|].
    destruct (lookup_lt_is_Some_2 (layout files) (Z.to_nat (n - 1))) as [[] H2]; [rewrite length_layout; lia|].
    rewrite !Ea by lia. intros X1%(Hframe _ _ _ H1) X2%(Hframe _ _ _ H2). f_equal. f_equal. apply (Hap _ _ x); [lia | lia | done | done].
  - intros n Hn. change NINODES with 200 in Hn. rewrite dinode_at_view, E2 by lia. apply Hun. lia.
Qed.

(** [main] from the empty image on. *)
Lemma main_run name files : can_create h name = true → Forall fine files → length files + 1 < NINODES → nmeta + used (layout files) ≤ FSSIZE →
  ∃ s', main h (name :: files) initial = Stop (Exit 0) s' ∧ bootable files (img s').
Proof using Hw.
  intros Hc Hf Hcnt Hroom. pose proof (used_layout_app [] files) as Hm. simpl app in Hm.
  set (s0 := mk_image (λ _, zeroes) 0 super 1 nmeta). destruct (format_run s0) as (s1 & s2 & R1 & R2 & I2); [done | done | done | done | done|].
  destruct (ialloc_run [] T_DIR s2 I2) as (s3 & R3 & I3); [done | done|]. change ([] ++ [(T_DIR, [])]) with [(T_DIR, @nil Z)] in I3.
  destruct (iappend_run _ 0 T_DIR [] (entry 1 (bytes ".")) s3 I3 eq_refl) as (s4 & R4 & I4); [done | done|].
  destruct (iappend_run _ 0 T_DIR (entry 1 (bytes ".")) (entry 1 (bytes "..")) s4 I4 eq_refl) as (s5 & R5 & I5); [done | done|].
  destruct (add_files_run files [] s5 I5 Hf) as (s6 & R6 & I6); [done | done|]. simpl app in I6.
  destruct (fix_root_run files s6 I6) as (R7 & G7 & _). set (d := mk_dinode T_DIR 0 0 1 (root_size files) (d_addrs (din s6 1))) in *.
  exists (put_sector 58 (bitmap (freeblock s6)) (inode_put 1 d s6)). split; [|exact (bootable_final files s6 I6)].
  unfold main, create. rewrite Hc, !bind_update. fold s0. rewrite (bind_ret _ _ _ _ _ R1), (bind_ret _ _ _ _ _ R2), (bind_ret _ _ _ _ _ R3).
  change (Z.of_nat (length []) + 1) with 1. change (1 =? ROOTINO) with true. rewrite bind_assert.
  rewrite (bind_ret _ _ _ _ _ R4), (bind_ret _ _ _ _ _ R5), (bind_ret _ _ _ _ _ R6), (bind_ret _ _ _ _ _ R7), bind_state.
  by rewrite (bind_ret _ _ _ _ _ (balloc_run _ G7)).
Qed.

End run.

(** C8: mkfs makes a file system the kernel can start from. If the host can create
    and write the image, and the files fit (in the blocks of the image, in the
    largest size of a file, and with a free inode each), [main] exits with 0. The
    image then has the super block the kernel reads, an empty log, a bitmap that
    marks exactly the first blocks, a root directory with ".", ".." and one entry
    per file under its name, every file with its exact contents and without
    holes, no block used twice, and all the other inodes free. *)
Theorem mkfs_bootable (h : host) name files :
  (∀ n, can_write h n = true) → can_create h name = true → Forall (fine h) files → length files + 1 < NINODES →
  nmeta + used (layout h files) ≤ FSSIZE →
  ∃ s', main h (name :: files) initial = Stop (Exit 0) s' ∧ bootable h files (img s').
Proof. intros Hw. by apply main_run. Qed.

(** Two files, one of which needs more than one block. *)
Definition ex_host : host := mk_host (λ _, true) (λ _, true)
  (λ name, if decide (name = bytes "_cat") then Some [replicate 512 1; replicate 88 2] else if decide (name = bytes "README") then Some [[65; 66]] else None).

Lemma mkfs_bootable_witness :
  ∃ s', main ex_host [bytes "fs.img"; bytes "README"; bytes "_cat"] initial = Stop (Exit 0) s' ∧ bootable ex_host [bytes "README"; bytes "_cat"] (img s').
Proof.
  apply mkfs_bootable; [done | done | | done | by vm_compute].
  apply Forall_cons; split; [|apply Forall_cons; split; [|apply Forall_nil_2]]; (split; [apply (bool_decide_unpack _); vm_compute; exact I|]).
  - exists [[65; 66]]. split; [by vm_compute|]. split; [by repeat constructor | by vm_compute].
  - exists [replicate 512 1; replicate 88 2]. split; [by vm_compute|]. split; [by repeat constructor | by vm_compute].
Defined.

End Mkfs.
