(* ===== verification/User.v ===== *)
(** * The small user programs

    cat.c, echo.c, init.c, kill.c, ln.c, ls.c, mkdir.c, rm.c, wc.c and zombie.c
    as interaction trees: a program is the tree of the system calls it may make,
    with the kernel's answers as branches, so that [init], which never ends, is a
    program like the others. *)

From ITree Require Import ITree ITreeFacts.
From Paco Require Import paco.
From S2P Require Import Prelude Layout Memory Sleeplock Bio Log Block Fs Ulib.

Module User.
Import Ulib.

(** ** System calls *)

(** [read] and [fstat] also yield what they store through their pointer, [read]
    as many bytes as it returns. *)
Variant sysE : Type → Type :=
  | Open (path : list Z) (mode : Z) : sysE Z
  | Read (fd n : Z) : sysE (Z * list Z)
  | Write (fd : Z) (d : list Z) : sysE Z
  | Close (fd : Z) : sysE Z
  | Fstat (fd : Z) : sysE (Z * Fs.stat)
  | Dup (fd : Z) : sysE Z
  | Mknod (path : list Z) (major minor : Z) : sysE Z
  | Link (old new : list Z) : sysE Z
  | Unlink (path : list Z) : sysE Z
  | Mkdir (path : list Z) : sysE Z
  | Fork : sysE Z
  | Exec (path : list Z) (argv : list (list Z)) : sysE Z
  | Wait : sysE Z
  | Kill (pid signum : Z) : sysE Z
  | Sleep (n : Z) : sysE Z
  | Exit : sysE Empty_set.

Abbreviation prog := (itree sysE).
#[export] Instance prog_ret : MRet prog := λ A a, Ret a.
#[export] Instance prog_bind : MBind prog := λ A B k t, ITree.bind t k.
Definition sys {A} (e : sysE A) : prog A := ITree.trigger e.

Definition exit {A} : prog A := e ← sys Exit ; match (e : Empty_set) with end.

Fixpoint each {A} (l : list A) (f : A → prog unit) : prog unit :=
  match l with [] => mret () | x :: l => f x ;; each l f end.

(** [printf]: one call of [write] per byte; the formats below all have their
    arguments, so [Ulib.printf] does not fail. *)
Definition printf (fd : Z) (fmt : string) (ap : list arg) : prog unit :=
  each (default [] (Ulib.printf (bytes fmt) ap)) (λ c, sys (Write fd [c]) ;; mret ()).

Definition nl : Z := 10.
Definition line (s : string) : string := s +:+ String (Ascii.ascii_of_nat 10) EmptyString.
Definition str (s : list Z) : arg := Str (Some s).
Definition O_RDONLY : Z := 0.
Definition O_RDWR : Z := 2.
Definition SIGKILL : Z := 9.

(** ** cat.c *)

Definition cat (fd : Z) : prog unit :=
  n ← ITree.iter (λ _ : unit,
    '(n, buf) ← sys (Read fd 512) ;
    if 0 <? n then
      r ← sys (Write 1 buf) ;
      if r =? n then mret (inl ()) else printf 1 (line "cat: write error") [] ;; exit
    else mret (inr n)) () ;
  if n <? 0 then printf 1 (line "cat: read error") [] ;; exit else mret ().

Definition cat_main (argv : list (list Z)) : prog unit :=
  match argv with
  | [] | [_] => cat 0 ;; exit
  | _ :: files =>
      each files (λ f,
        fd ← sys (Open f 0) ;
        if fd <? 0 then printf 1 (line "cat: cannot open %s") [str f] ;; exit else
        cat fd ;;
        sys (Close fd) ;; mret ()) ;;
      exit
  end.

(** ** wc.c *)

(** The counters [l], [w], [c] and [inword] *)
Record counts := mk_counts { cl : Z; cw : Z; cc : Z; inword : bool }.

(** Membership in the string of blanks, by [strchr] *)
Definition space (c : Z) : bool := match strchr [32; 13; 9; 10; 11] c with Some _ => true | None => false end.

Definition count (s : counts) (c : Z) : counts :=
  mk_counts (if c =? nl then s32 (cl s + 1) else cl s)
    (if space c then cw s else if inword s then cw s else s32 (cw s + 1))
    (s32 (cc s + 1))
    (negb (space c)).

(** The [while] loop of [wc] *)
Definition wc_read (fd : Z) : counts → prog (Z * counts) :=
  ITree.iter (λ s,
    '(n, buf) ← sys (Read fd 512) ;
    if 0 <? n then mret (inl (foldl count s buf)) else mret (inr (n, s))).

Definition wc (fd : Z) (name : list Z) : prog unit :=
  '(n, s) ← wc_read fd (mk_counts 0 0 0 false) ;
  if n <? 0 then printf 1 (line "wc: read error") [] ;; exit else
  printf 1 (line "%d %d %d %s") [Int (cl s); Int (cw s); Int (cc s); str name].

Definition wc_main (argv : list (list Z)) : prog unit :=
  match argv with
  | [] | [_] => wc 0 [] ;; exit
  | _ :: files =>
      each files (λ f,
        fd ← sys (Open f 0) ;
        if fd <? 0 then printf 1 (line "wc: cannot open %s") [str f] ;; exit else
        wc fd f ;;
        sys (Close fd) ;; mret ()) ;;
      exit
  end.

(** ** echo.c, kill.c, ln.c, mkdir.c, rm.c, zombie.c *)

Fixpoint echo_args (args : list (list Z)) : prog unit :=
  match args with
  | [] => mret ()
  | a :: args => printf 1 "%s%s" [str a; str (match args with [] => [nl] | _ => [32] end)] ;; echo_args args
  end.
Definition echo_main (argv : list (list Z)) : prog unit := echo_args (tail argv) ;; exit.

Definition kill_main (argv : list (list Z)) : prog unit :=
  match argv with
  | [] | [_] => printf 2 (line "usage: kill pid...") [] ;; exit
  | _ :: pids => each pids (λ p, sys (Kill (atoi p) SIGKILL) ;; mret ()) ;; exit
  end.

Definition ln_main (argv : list (list Z)) : prog unit :=
  match argv with
  | [_; old; new] =>
      r ← sys (Link old new) ;
      (if r <? 0 then printf 2 (line "link %s %s: failed") [str old; str new] else mret ()) ;;
      exit
  | _ => printf 2 (line "Usage: ln old new") [] ;; exit
  end.

(** The loops of mkdir.c and rm.c, which stop at the first failure *)
Fixpoint until_failure (call : list Z → sysE Z) (msg : string) (args : list (list Z)) : prog unit :=
  match args with
  | [] => mret ()
  | a :: args => r ← sys (call a) ; if r <? 0 then printf 2 msg [str a] else until_failure call msg args
  end.

Definition mkdir_main (argv : list (list Z)) : prog unit :=
  match argv with
  | [] | [_] => printf 2 (line "Usage: mkdir files...") [] ;; exit
  | _ :: args => until_failure Mkdir (line "mkdir: %s failed to create") args ;; exit
  end.

Definition rm_main (argv : list (list Z)) : prog unit :=
  match argv with
  | [] | [_] => printf 2 (line "Usage: rm files...") [] ;; exit
  | _ :: args => until_failure Unlink (line "rm: %s failed to delete") args ;; exit
  end.

Definition zombie_main : prog unit :=
  pid ← sys Fork ;
  (if 0 <? pid then sys (Sleep 5) ;; mret () else mret ()) ;;
  exit.

(** ** ls.c *)

Definition slash : Z := 47.
Definition DIRSIZ : nat := 14.

(** The part behind the last slash *)
Fixpoint last_elem (path : list Z) : list Z :=
  match path with
  | [] => []
  | c :: path' => if existsb (Z.eqb slash) path' then last_elem path' else if c =? slash then path' else path
  end.

Definition fmtname (path : list Z) : list Z :=
  let p := last_elem path in
  if bool_decide (DIRSIZ ≤ length p)%nat then p else p ++ replicate (DIRSIZ - length p) 32.

(** [stat] of ulib.c *)
Definition stat (path : list Z) : prog (Z * Fs.stat) :=
  fd ← sys (Open path O_RDONLY) ;
  if fd <? 0 then mret (-1, Fs.mk_stat 0 0 0 0 0) else
  r ← sys (Fstat fd) ;
  sys (Close fd) ;;
  mret r.

Definition ls_line (path : list Z) (st : Fs.stat) : prog unit :=
  printf 1 (line "%s %d %d %d") [str (fmtname path); Int (Fs.st_type st); Int (Fs.st_ino st); Int (Fs.st_size st)].

(** The string in the [DIRSIZ] bytes of a name *)
Fixpoint cstring (l : list Z) : list Z := match l with [] => [] | c :: l => if c =? 0 then [] else c :: cstring l end.

Definition ls_entry (buf : list Z) : prog unit :=
  '(r, st) ← stat buf ;
  if r <? 0 then printf 1 (line "ls: cannot stat %s") [str buf] else ls_line buf st.

(** The loop over the entries of a directory *)
Definition ls_dir (fd : Z) (path : list Z) : prog unit :=
  ITree.iter (λ _ : unit,
    '(n, d) ← sys (Read fd 16) ;
    if negb (n =? 16) then mret (inr ()) else
    let de := Fs.dirent_of d in
    if Fs.de_inum de =? 0 then mret (inl ()) else
    ls_entry (path ++ [slash] ++ cstring (Fs.de_name de)) ;;
    mret (inl ())) ().

Definition ls (path : list Z) : prog unit :=
  fd ← sys (Open path 0) ;
  if fd <? 0 then printf 2 (line "ls: cannot open %s") [str path] else
  '(r, st) ← sys (Fstat fd) ;
  if r <? 0 then printf 2 (line "ls: cannot stat %s") [str path] ;; sys (Close fd) ;; mret () else
  (if Fs.st_type st =? Fs.T_FILE then ls_line path st
   else if Fs.st_type st =? Fs.T_DIR then
     if bool_decide (512 < length path + 1 + DIRSIZ + 1)%nat then printf 1 (line "ls: path too long") [] else
     ls_dir fd path
   else mret ()) ;;
  sys (Close fd) ;; mret ().

Definition ls_main (argv : list (list Z)) : prog unit :=
  match argv with
  | [] | [_] => ls (bytes ".") ;; exit
  | _ :: args => each args ls ;; exit
  end.

(** ** init.c *)

(** Waiting for the shell [pid] *)
Definition init_wait (pid : Z) : prog unit :=
  ITree.iter (λ _ : unit,
    wpid ← sys Wait ;
    if (0 <=? wpid) && negb (wpid =? pid) then printf 1 (line "zombie!") [] ;; mret (inl ()) else mret (inr ())) ().

(** The loop that starts shells *)
Definition init_loop : prog unit :=
  ITree.iter (λ _ : unit,
    printf 1 (line "init: starting sh") [] ;;
    pid ← sys Fork ;
    if pid <? 0 then printf 1 (line "init: fork failed") [] ;; exit
    else if pid =? 0 then
      sys (Exec (bytes "sh") [bytes "sh"]) ;;
      printf 1 (line "init: exec sh failed") [] ;;
      exit
    else init_wait pid ;; mret (inl ())) ().

Definition init_main : prog unit :=
  fd ← sys (Open (bytes "console") O_RDWR) ;
  (if fd <? 0 then
     sys (Mknod (bytes "console") 1 1) ;;
     sys (Open (bytes "console") O_RDWR) ;; mret ()
   else mret ()) ;;
  sys (Dup 0) ;;
  sys (Dup 0) ;;
  init_loop.

(** ** Total correctness of a program

    [sat Q X t w]: whatever the kernel [os] answers, the program [t] started in
    the world [w] ends, by returning a result and a world in [Q] or by [exit] in
    a world in [X]. Every call made is one the kernel has an answer to. *)
Section logic.
Context {W : Type} (os : ∀ B, sysE B → W → B → W → Prop).

Inductive sat {A} (Q : A → W → Prop) (X : W → Prop) : prog A → W → Prop :=
  | sat_ret_of t a w : t ≈ Ret a → Q a w → sat Q X t w
  | sat_exit_of t k w : t ≈ Vis Exit k → X w → sat Q X t w
  | sat_sys_of t B (e : sysE B) k w : t ≈ Vis e k → (∃ b w', os B e w b w') →
      (∀ b w', os B e w b w' → sat Q X (k b) w') → sat Q X t w.

Lemma sat_eutt {A} Q X (t t' : prog A) w : t' ≈ t → sat Q X t w → sat Q X t' w.
Proof.
  intros Ht Hs; destruct Hs as [t a w E HQ | t k w E HX | t B e k w E Hex Hk].
  - apply sat_ret_of with a; [by rewrite Ht | done].
  - apply sat_exit_of with k; [by rewrite Ht | done].
  - apply sat_sys_of with B e k; [by rewrite Ht | done | done].
Qed.

Lemma sat_ret {A} (Q : A → W → Prop) X a w : Q a w → sat Q X (mret a) w.
Proof. intros HQ. by apply sat_ret_of with a. Qed.

Lemma sat_bind {A B} (Q : B → W → Prop) X (t : prog A) (k : A → prog B) w :
  sat (λ a w, sat Q X (k a) w) X t w → sat Q X (t ≫= k) w.
Proof.
  induction 1 as [t a w E HQ | t k' w E HX | t C e k' w E Hex Hk IH]; unfold mbind, prog_bind in *.
  - eapply sat_eutt; [|exact HQ]. by rewrite E, Eqit.bind_ret_l.
  - eapply sat_exit_of; [|exact HX]. by rewrite E, bind_vis.
  - eapply sat_sys_of; [by rewrite E, bind_vis | exact Hex | exact IH].
Qed.

Lemma sat_call {A B} (Q : A → W → Prop) X (e : sysE B) (k : B → prog A) w :
  (∃ b w', os B e w b w') → (∀ b w', os B e w b w' → sat Q X (k b) w') → sat Q X (sys e ≫= k) w.
Proof. intros Hex Hk. eapply sat_sys_of; [apply eq_sub_eutt, bind_trigger | exact Hex | exact Hk]. Qed.

Lemma sat_exit {A} (Q : A → W → Prop) (X : W → Prop) w : X w → sat Q X exit w.
Proof. intros HX. eapply sat_exit_of; [apply eq_sub_eutt, bind_trigger | exact HX]. Qed.

Lemma sat_iter {A I} (Q : A → W → Prop) X (f : I → prog (I + A)) i w :
  sat (λ r w, match r with inl i => sat Q X (ITree.iter f i) w | inr a => Q a w end) X (f i) w →
  sat Q X (ITree.iter f i) w.
Proof.
  intros H. eapply sat_eutt; [apply eq_sub_eutt, unfold_iter|]. apply sat_bind.
  revert H. generalize (f i) as t. intros t H.
  induction H as [t r w E HQ | t k w E HX | t B e k w E Hex Hk IH].
  - eapply sat_ret_of; [exact E|]. destruct r as [i' | a]; [|by apply sat_ret].
    eapply sat_eutt; [|exact HQ]. apply tau_eutt.
  - by eapply sat_exit_of.
  - by eapply sat_sys_of.
Qed.

End logic.

(** ** What the programs rely on from the kernel's files

    A descriptor open for reading is what is left to read behind it; one open for
    writing is what has been written to it; [sent] are the signals sent. *)
Record file := mk_file { fstatus : Fs.stat; data : list Z }.
Record world := mk_world { files : gmap (list Z) file; fds : gmap Z file; outs : gmap Z (list Z);
  sent : list (Z * Z) }.

Definition set_files (w : world) v := mk_world v (fds w) (outs w) (sent w).
Definition set_fds (w : world) v := mk_world (files w) v (outs w) (sent w).
Definition put (fd : Z) (l : list Z) (w : world) := mk_world (files w) (fds w) (alter (.++ l) fd (outs w)) (sent w).

(** What [read] may return of the bytes left: of a directory or a regular file as
    much as was asked for, of a device (a terminal, say) any part of it, and
    nothing only at the end. *)
Definition may_read (f : file) (n : Z) (d : list Z) : Prop :=
  d `prefix_of` data f ∧ length d ≤ n ∧ (d = [] → data f = []) ∧
  (Fs.st_type (fstatus f) ≠ Fs.T_DEV → Z.of_nat (length d) = Z.min n (length (data f))).

Definition fsys {A} (e : sysE A) (w : world) : A → world → Prop :=
  match e in sysE A return A → world → Prop with
  | Open path mode => λ r w', mode = O_RDONLY ∧
      match files w !! path with
      | Some f => 0 ≤ r ∧ fds w !! r = None ∧ outs w !! r = None ∧ w' = set_fds w (<[r := f]> (fds w))
      | None => r = -1 ∧ w' = w
      end
  | Read fd n => λ r w',
      match fds w !! fd with
      | Some f => may_read f n r.2 ∧ r.1 = length r.2 ∧
                  w' = set_fds w (<[fd := mk_file (fstatus f) (drop (length r.2) (data f))]> (fds w))
      | None => r = (-1, []) ∧ w' = w
      end
  | Write fd d => λ r w', r = match outs w !! fd with Some _ => Z.of_nat (length d) | None => -1 end ∧ w' = put fd d w
  | Close fd => λ r w', w' = mk_world (files w) (delete fd (fds w)) (delete fd (outs w)) (sent w)
  | Fstat fd => λ r w', w' = w ∧ match fds w !! fd with Some f => r = (0, fstatus f) | None => r.1 = -1 end
  | Link old new => λ r w',
      match files w !! old, files w !! new with
      | Some f, None => r = 0 ∧ w' = set_files w (<[new := f]> (files w))
      | _, _ => r = -1 ∧ w' = w
      end
  | Mkdir path => λ r w',
      match files w !! path with
      | None => r = 0 ∧ ∃ f, Fs.st_type (fstatus f) = Fs.T_DIR ∧ w' = set_files w (<[path := f]> (files w))
      | Some _ => r = -1 ∧ w' = w
      end
  | Kill pid signum => λ r w', w' = mk_world (files w) (fds w) (outs w) (sent w ++ [(pid, signum)])
  | Unlink path => λ r w', r = (if decide (is_Some (files w !! path)) then 0 else -1) ∧ w' = set_files w (delete path (files w))
  | _ => λ _ _, False
  end.

Abbreviation fsat := (sat (@fsys)).

Lemma put_put fd l l' w : put fd l' (put fd l w) = put fd (l ++ l') w.
Proof.
  unfold put; cbn. f_equal. apply map_eq. intros i. destruct (decide (fd = i)) as [->|]; simplify_map_eq; [|done].
  destruct (outs w !! i); cbn; by rewrite ?app_assoc.
Qed.

Lemma put_nil fd w : put fd [] w = w.
Proof.
  destruct w as [f r o s]. unfold put; cbn. f_equal. apply map_eq. intros i. destruct (decide (fd = i)) as [->|]; simplify_map_eq; [|done].
  destruct (o !! i); cbn; by rewrite ?app_nil_r.
Qed.

Lemma fsat_write {A} (Q : A → world → Prop) X fd d k w :
  fsat Q X (k match outs w !! fd with Some _ => Z.of_nat (length d) | None => -1 end) (put fd d w) →
  fsat Q X (sys (Write fd d) ≫= k) w.
Proof. intros Hk. apply sat_call; [by eexists _, _|]. by intros b w' [-> ->]. Qed.

Lemma fsat_printf (Q : unit → world → Prop) X fd fmt ap l w :
  Ulib.printf (bytes fmt) ap = Some l → Q () (put fd l w) → fsat Q X (printf fd fmt ap) w.
Proof.
  intros Hl. unfold printf. rewrite Hl; cbn [default]. clear Hl. revert w.
  induction l as [|c l IH]; intros w HQ; cbn [each].
  - apply sat_ret. by rewrite put_nil in HQ.
  - apply sat_bind, fsat_write, sat_ret, IH. by rewrite put_put.
Qed.

Lemma fsat_print {A} (Q : A → world → Prop) X fd fmt ap l (k : unit → prog A) w :
  Ulib.printf (bytes fmt) ap = Some l → fsat Q X (k ()) (put fd l w) → fsat Q X (printf fd fmt ap ≫= k) w.
Proof. intros Hl Hk. by eapply sat_bind, fsat_printf. Qed.

Lemma fsat_open {A} (Q : A → world → Prop) X path k w :
  (files w !! path = None → fsat Q X (k (-1)) w) →
  (∀ f fd, files w !! path = Some f → 0 ≤ fd → fds w !! fd = None → outs w !! fd = None →
     fsat Q X (k fd) (set_fds w (<[fd := f]> (fds w)))) →
  fsat Q X (sys (Open path O_RDONLY) ≫= k) w.
Proof.
  intros Hno Hyes. apply sat_call.
  - cbn. destruct (files w !! path) as [f|]; [|by eexists _, _].
    set (used := dom (fds w) ∪ dom (outs w)).
    set (n := fresh (set_map (D := gset nat) Z.to_nat used)).
    assert (Z.of_nat n ∉ used) as Hn.
    { intros Hin. apply (is_fresh (set_map (D := gset nat) Z.to_nat used)).
      apply elem_of_map. exists (Z.of_nat n). split; [|exact Hin]. by rewrite Nat2Z.id. }
    unfold used in Hn. rewrite not_elem_of_union, !not_elem_of_dom in Hn. destruct Hn as [Hn1 Hn2].
    exists (Z.of_nat n), (set_fds w (<[Z.of_nat n := f]> (fds w))).
    split_and!; done || lia.
  - intros r w' [_ Hr]. destruct (files w !! path) as [f|] eqn:Hf; [|by destruct Hr as [-> ->]; apply Hno].
    destruct Hr as (? & ? & ? & ->). by apply Hyes.
Qed.

Lemma fsat_close {A} (Q : A → world → Prop) X fd k w :
  (∀ r, fsat Q X (k r) (mk_world (files w) (delete fd (fds w)) (delete fd (outs w)) (sent w))) → fsat Q X (sys (Close fd) ≫= k) w.
Proof. intros Hk. apply sat_call; [by exists 0; eexists|]. by intros b w' ->. Qed.

(** [read] of an open descriptor: the file is split at what is read. *)
Lemma fsat_read {A} (Q : A → world → Prop) X fd n k w f :
  fds w !! fd = Some f → 0 < n →
  (∀ d c, data f = d ++ c → may_read f n d →
     fsat Q X (k (Z.of_nat (length d), d)) (set_fds w (<[fd := mk_file (fstatus f) c]> (fds w)))) →
  fsat Q X (sys (Read fd n) ≫= k) w.
Proof.
  intros Hf Hn Hk. apply sat_call; cbn; rewrite Hf.
  - set (d := take (Z.to_nat n) (data f)). exists (Z.of_nat (length d), d). eexists. split_and!; [|done..].
    unfold may_read, d; cbn. rewrite length_take. split_and!; [by exists (drop (Z.to_nat n) (data f)); rewrite take_drop | lia | | lia].
    intros E. destruct (data f) as [|x l]; [done|]. destruct (Z.to_nat n) eqn:?; [lia | done].
  - intros [r d] w' (Hd & Hr & ->). cbn [fst snd] in *. subst r. destruct (proj1 Hd) as [c Hc].
    rewrite Hc, drop_app_length. by apply Hk.
Qed.

(** ** cat and wc *)

(** The loop of cat.c and wc.c over their arguments *)
Definition over_files (msg : string) (body : Z → list Z → prog unit) (args : list (list Z)) : prog unit :=
  each args (λ f,
    fd ← sys (Open f 0) ;
    if fd <? 0 then printf 1 msg [str f] ;; exit else
    body fd f ;;
    sys (Close fd) ;; mret ()).

(** What is printed: the report on each file, up to the first that is missing. *)
Fixpoint reports (report : list Z → list Z → list Z) (missing : list Z → list Z) (fs : gmap (list Z) file)
    (args : list (list Z)) : list Z :=
  match args with
  | [] => []
  | a :: args => match fs !! a with Some f => report a (data f) ++ reports report missing fs args | None => missing a end
  end.

(** [body] prints [report] for the file behind a descriptor, which it reads to
    its end; it may exit early only when nothing can be printed. *)
Definition prints (body : Z → list Z → prog unit) (report : list Z → list Z → list Z) : Prop :=
  ∀ (Q : unit → world → Prop) X w fd name f, fds w !! fd = Some f →
    (outs w !! 1 = None → ∀ w', outs w' = outs w → X w') →
    Q () (put 1 (report name (data f)) (set_fds w (<[fd := mk_file (fstatus f) []]> (fds w)))) →
    fsat Q X (body fd name) w.

Lemma put_closed fd l w : outs w !! fd = None → outs (put fd l w) = outs w.
Proof. intros H. apply map_eq. intros i. cbn. destruct (decide (fd = i)) as [->|]; by simplify_map_eq. Qed.

Lemma over_files_correct msg missing body report args : prints body report →
  (∀ a, Ulib.printf (bytes msg) [str a] = Some (missing a)) →
  ∀ (Q : unit → world → Prop) (X : world → Prop) w,
  (∀ w', outs w' = outs (put 1 (reports report missing (files w) args) w) → Q () w' ∧ X w') →
  fsat Q X (over_files msg body args) w.
Proof.
  intros Hbody Hmsg. unfold over_files. induction args as [|a args IH]; intros Q X w HX; cbn [each reports] in *.
  { apply sat_ret, HX. by rewrite put_nil. }
  apply sat_bind, fsat_open.
  - intros Ha. rewrite Ha in HX. cbn. eapply fsat_print; [apply Hmsg|]. by apply sat_exit, HX.
  - intros f fd Ha Hfd Hf Ho. rewrite Ha in HX. rewrite (proj2 (Z.ltb_ge fd 0)) by done.
    apply sat_bind. eapply Hbody; [by cbn; simplify_map_eq | |].
    + intros H1 w' Hw'. apply HX. cbn in H1. rewrite put_closed by done. done.
    + apply fsat_close. intros _. apply sat_ret. apply IH. intros w' Hw'. apply HX. rewrite Hw', <- put_put. cbn.
      rewrite delete_id; [done|]. destruct (decide (fd = 1)) as [->|]; by simplify_map_eq.
Qed.

Lemma put_set_fds fd l w v : put fd l (set_fds w v) = set_fds (put fd l w) v.
Proof. done. Qed.

Lemma cat_prints : prints (λ fd _, cat fd) (λ _ d, d).
Proof.
  intros Q X w fd name f Hf HX HQ. unfold cat. apply sat_bind.
  remember (data f) as l eqn:Hl. revert w f Hf Hl HX HQ.
  induction (well_founded_ltof _ (@length Z) l) as [l _ IH]. intros w f Hf -> HX HQ.
  apply sat_iter, (fsat_read _ _ _ _ _ _ f); [done | lia|]. intros d c Hdc (_ & _ & Hd & _).
  destruct d as [|x d]; [cbn; apply sat_ret|].
  - rewrite Hd in HQ, Hdc by done. cbn in Hdc. subst c. apply sat_ret. by rewrite put_nil in HQ.
  - cbn [length Z.ltb]. change (0 <? Z.of_nat (S (length d))) with true. cbv iota. apply fsat_write. cbn [outs set_fds].
    destruct (outs w !! 1) as [o|] eqn:Ho.
    + rewrite Z.eqb_refl. apply sat_ret. eapply (IH c).
      * unfold ltof. rewrite Hdc, length_app. cbn. lia.
      * by cbn; simplify_map_eq.
      * done.
      * intros H1. cbn in H1. by simplify_map_eq.
      * rewrite Hdc in HQ. change (x :: d ++ c) with ((x :: d) ++ c) in HQ. cbn [fds put set_fds fstatus]. rewrite insert_insert_eq. rewrite <- put_put, !put_set_fds in HQ. exact HQ.
    + rewrite (proj2 (Z.eqb_neq (-1) _)) by lia. eapply fsat_print; [reflexivity|]. apply sat_exit, HX; [done|].
      by rewrite put_closed; rewrite put_closed.
Qed.

(** The specification of the counters *)
Definition lines (d : list Z) : Z := length (filter (λ c, c = nl) d).

(** The words of [d]: its bytes that are not blank and follow a blank, the first
    byte following what [b] says. *)
Fixpoint words (b : bool) (d : list Z) : Z :=
  match d with
  | [] => 0
  | c :: d => (if b && negb (space c) then 1 else 0) + words (space c) d
  end.

Lemma count_spec d : ∀ l w c b, foldl count (mk_counts (s32 l) (s32 w) (s32 c) (negb b)) d =
  mk_counts (s32 (l + lines d)) (s32 (w + words b d)) (s32 (c + length d)) (negb (default b (space <$> last d))).
Proof.
  induction d as [|x d IH]; intros l w c b; cbn [foldl].
  { cbn. by rewrite !Z.add_0_r. }
  unfold count at 2. cbn [cl cw cc inword].
  rewrite !s32_add. replace (if x =? nl then s32 (l + 1) else s32 l) with (s32 (l + if x =? nl then 1 else 0))
    by (destruct (x =? nl); [done | by rewrite Z.add_0_r]).
  replace (if space x then s32 w else if negb b then s32 w else s32 (w + 1))
    with (s32 (w + if b && negb (space x) then 1 else 0)) by (destruct (space x), b; cbn; by rewrite ?Z.add_0_r).
  rewrite IH. f_equal.
  - f_equal. unfold lines. rewrite filter_cons. destruct (x =? nl) eqn:E; case_decide; cbn; lia.
  - f_equal. cbn [words]. lia.
  - f_equal. cbn. lia.
  - by rewrite last_cons; destruct (last d).
Qed.

Definition decimal (x : Z) : list Z := printint (s32 x) 10 true.
Definition wc_line (name d : list Z) : list Z :=
  decimal (lines d) ++ [32] ++ decimal (words true d) ++ [32] ++ decimal (length d) ++ [32] ++ name ++ [nl].

Lemma wc_reads (Q : Z * counts → world → Prop) X fd l : ∀ w f s, fds w !! fd = Some f → data f = l →
  Q (0, foldl count s l) (set_fds w (<[fd := mk_file (fstatus f) []]> (fds w))) → fsat Q X (wc_read fd s) w.
Proof.
  induction (well_founded_ltof _ (@length Z) l) as [l _ IH]. intros w f s Hf Hl HQ. unfold wc_read.
  apply sat_iter, (fsat_read _ _ _ _ _ _ f); [done | lia|]. intros d c Hdc (_ & _ & Hd & _). subst l.
  destruct d as [|x d].
  - rewrite Hd in HQ, Hdc by done. cbn in Hdc. subst c. by apply sat_ret.
  - change (0 <? Z.of_nat (length (x :: d))) with true. cbv iota. apply sat_ret. eapply (IH c).
    + unfold ltof. rewrite Hdc, length_app. cbn. lia.
    + by cbn; simplify_map_eq.
    + done.
    + rewrite Hdc, foldl_app in HQ. cbn [fds set_fds fstatus]. by rewrite insert_insert_eq.
Qed.

Lemma wc_prints : prints wc wc_line.
Proof.
  intros Q X w fd name f Hf HX HQ. apply sat_bind. eapply wc_reads; [done..|].
  change (mk_counts 0 0 0 false) with (mk_counts (s32 0) (s32 0) (s32 0) (negb true)). rewrite count_spec.
  cbn [Z.ltb Z.compare cl cw cc Z.add]. eapply fsat_printf; [reflexivity|].
  revert HQ. unfold wc_line, decimal. by rewrite !(s32_idem).
Qed.

(** cat, on every kernel that reads and writes files as documented and
    whatever pieces its reads return, ends with exactly the contents of its
    argument files written to its standard output, in order, up to the first file
    that cannot be opened, which it reports; nothing is written to any other
    descriptor, and nothing at all when the standard output is closed. Without
    arguments it copies its standard input, or reports that it cannot be read. *)
Theorem cat_correct argv w :
  fsat (λ _ _, False)
    (λ w', outs w' = outs (put 1 match tail argv with
        | [] => match fds w !! 0 with Some f => data f | None => bytes (line "cat: read error") end
        | args => reports (λ _ d, d) (λ a, bytes "cat: cannot open " ++ a ++ [nl]) (files w) args
        end w))
    (cat_main argv) w.
Proof.
  assert (match tail argv with [] => cat_main argv = (cat 0 ;; exit)
    | args => cat_main argv = (over_files (line "cat: cannot open %s") (λ fd _, cat fd) args ;; exit) end) as E
    by (by destruct argv as [|? [|? ?]]).
  destruct (tail argv) as [|a args]; rewrite E; apply sat_bind.
  - destruct (fds w !! 0) as [f|] eqn:Hf.
    + eapply (cat_prints _ _ _ _ []); [done | intros ? w' ->; by rewrite put_closed | by apply sat_exit].
    + apply sat_bind, sat_iter, sat_call; cbn; rewrite Hf; [by eexists _, _|]. intros b w' [-> ->]. cbn.
      apply sat_ret. cbn. eapply fsat_print; [reflexivity|]. by apply sat_exit.
  - eapply over_files_correct; [apply cat_prints | done |]. intros w' Hw'. split; [|done]. by apply sat_exit.
Qed.

(** C31: wc, under the same conditions, prints for each file its lines (newline
    bytes), its words (bytes that are not blank after a blank or at the start), its
    length and its name, however the reads cut the file, a word across two reads
    included; it stops at the first file that cannot be opened, with a message. *)
Theorem wc_correct argv w :
  fsat (λ _ _, False)
    (λ w', outs w' = outs (put 1 match tail argv with
        | [] => match fds w !! 0 with Some f => wc_line [] (data f) | None => bytes (line "wc: read error") end
        | args => reports wc_line (λ a, bytes "wc: cannot open " ++ a ++ [nl]) (files w) args
        end w))
    (wc_main argv) w.
Proof.
  assert (match tail argv with [] => wc_main argv = (wc 0 [] ;; exit)
    | args => wc_main argv = (over_files (line "wc: cannot open %s") wc args ;; exit) end) as E
    by (by destruct argv as [|? [|? ?]]).
  destruct (tail argv) as [|a args]; rewrite E; apply sat_bind.
  - destruct (fds w !! 0) as [f|] eqn:Hf.
    + eapply wc_prints; [done | intros ? w' ->; by rewrite put_closed | by apply sat_exit].
    + apply sat_bind, sat_iter, sat_call; cbn; rewrite Hf; [by eexists _, _|]. intros b w' [-> ->]. cbn.
      apply sat_ret. cbn. eapply fsat_print; [reflexivity|]. by apply sat_exit.
  - eapply over_files_correct; [apply wc_prints | done |]. intros w' Hw'. split; [|done]. by apply sat_exit.
Qed.

(** ** ls *)

Lemma outs_put fd l w : outs (put fd l w) = alter (.++ l) fd (outs w).
Proof. done. Qed.

Lemma put_comm fd fd' l l' w : fd ≠ fd' → put fd l (put fd' l' w) = put fd' l' (put fd l w).
Proof.
  intros Hne. unfold put; cbn. f_equal. apply map_eq. intros i.
  destruct (decide (fd = i)) as [->|]; [|destruct (decide (fd' = i)) as [->|]]; by simplify_map_eq.
Qed.

Lemma fsat_fstat {A} (Q : A → world → Prop) X fd k w f :
  fds w !! fd = Some f → fsat Q X (k (0, fstatus f)) w → fsat Q X (sys (Fstat fd) ≫= k) w.
Proof. intros Hf Hk. apply sat_call; cbn; rewrite Hf; [by eexists _, _|]. by intros b w' [-> ->]. Qed.

(** What is left of a descriptor opened and closed again *)
Lemma open_close w fd f : fds w !! fd = None → outs w !! fd = None →
  mk_world (files w) (delete fd (<[fd := f]> (fds w))) (delete fd (outs w)) (sent w) = w.
Proof. intros Hf Ho. rewrite delete_insert_id, delete_id by done. by destruct w. Qed.

Lemma fsat_stat (Q : Z * Fs.stat → world → Prop) X path w :
  (∀ r st, match files w !! path with Some f => r = 0 ∧ st = fstatus f | None => r = -1 end → Q (r, st) w) →
  fsat Q X (stat path) w.
Proof.
  intros HQ. apply fsat_open.
  - intros Hp. apply sat_ret, HQ. by rewrite Hp.
  - intros f fd Hp Hfd Hf Ho. rewrite (proj2 (Z.ltb_ge fd 0)) by done.
    eapply fsat_fstat; [by cbn; simplify_map_eq|]. apply fsat_close. intros _. cbn. rewrite open_close by done.
    apply sat_ret, HQ. by rewrite Hp.
Qed.

(** The entries of a directory: its whole 16-byte records that are in use *)
Fixpoint entries (n : nat) (d : list Z) : list (list Z) :=
  match n with
  | O => []
  | S n => let e := Fs.dirent_of (take 16 d) in
           (if Fs.de_inum e =? 0 then [] else [cstring (Fs.de_name e)]) ++ entries n (drop 16 d)
  end.
Definition dir_entries (d : list Z) : list (list Z) := entries (length d / 16) d.

Definition stat_line (path : list Z) (st : Fs.stat) : list Z :=
  fmtname path ++ [32] ++ decimal (Fs.st_type st) ++ [32] ++ decimal (Fs.st_ino st) ++ [32] ++ decimal (Fs.st_size st) ++ [nl].

Definition entry_line (fs : gmap (list Z) file) (path : list Z) : list Z :=
  match fs !! path with Some f => stat_line path (fstatus f) | None => bytes "ls: cannot stat " ++ path ++ [nl] end.

Definition list_file (fs : gmap (list Z) file) (path : list Z) (f : file) : list Z :=
  if Fs.st_type (fstatus f) =? Fs.T_FILE then stat_line path (fstatus f)
  else if Fs.st_type (fstatus f) =? Fs.T_DIR then
    if bool_decide (512 < length path + 1 + DIRSIZ + 1)%nat then bytes (line "ls: path too long")
    else concat ((λ name, entry_line fs (path ++ [slash] ++ name)) <$> dir_entries (data f))
  else [].

(** What ls writes to its standard output and to its standard error for an argument *)
Definition ls_out (fs : gmap (list Z) file) (path : list Z) : list Z :=
  match fs !! path with Some f => list_file fs path f | None => [] end.
Definition ls_err (fs : gmap (list Z) file) (path : list Z) : list Z :=
  match fs !! path with Some _ => [] | None => bytes "ls: cannot open " ++ path ++ [nl] end.

Lemma ls_line_prints (Q : unit → world → Prop) X path st w : Q () (put 1 (stat_line path st) w) → fsat Q X (ls_line path st) w.
Proof. intros HQ. by eapply fsat_printf; [reflexivity|]. Qed.

(** A directory of at least one record, split behind the first *)
Lemma dir_entries_cons e c : length e = 16%nat →
  dir_entries (e ++ c) = (let de := Fs.dirent_of e in if Fs.de_inum de =? 0 then [] else [cstring (Fs.de_name de)]) ++ dir_entries c.
Proof.
  intros He. unfold dir_entries. rewrite length_app, He, (Nat.div_add_l 1 16) by done. cbn [Nat.add entries].
  by rewrite take_app_length', drop_app_length'.
Qed.

Lemma dir_entries_short d : (length d < 16)%nat → dir_entries d = [].
Proof. intros Hd. unfold dir_entries. by rewrite Nat.div_small. Qed.

Lemma ls_entry_prints (Q : unit → world → Prop) X (buf : list Z) w : Q () (put 1 (entry_line (files w) buf) w) →
  fsat Q X (ls_entry buf) w.
Proof.
  intros HQ. apply sat_bind, fsat_stat. intros r st Hr. unfold entry_line in HQ.
  destruct (files w !! buf) as [g|]; [destruct Hr as [-> ->] | subst r]; cbn.
  - by apply ls_line_prints.
  - by eapply fsat_printf; [reflexivity|].
Qed.

Lemma ls_dir_prints (Q : unit → world → Prop) X fd path d : ∀ w f,
  fds w !! fd = Some f → Fs.st_type (fstatus f) = Fs.T_DIR → data f = d →
  (∀ g, Q () (put 1 (concat ((λ name, entry_line (files w) (path ++ [slash] ++ name)) <$> dir_entries d))
    (set_fds w (<[fd := g]> (fds w))))) →
  fsat Q X (ls_dir fd path) w.
Proof.
  induction (well_founded_ltof _ (@length Z) d) as [d _ IH]. intros w f Hf Ht Hd HQ.
  apply sat_iter, (fsat_read _ _ _ _ _ _ f); [done..|]. intros e c Hec (_ & _ & _ & Hlen).
  specialize (Hlen ltac:(by rewrite Ht)). rewrite Hd in Hlen, Hec. clear Hd. subst d.
  destruct (decide (length e = 16%nat)) as [He|He]; cycle 1.
  { rewrite (proj2 (Z.eqb_neq _ 16)) by lia. apply sat_ret. specialize (HQ (mk_file (fstatus f) c)).
    rewrite dir_entries_short in HQ by (rewrite length_app in *; lia). by rewrite put_nil in HQ. }
  rewrite (proj2 (Z.eqb_eq _ 16)) by lia. cbn [negb]. cbv zeta.
  assert (∀ l, (∀ g, Q () (put 1 (l ++ concat ((λ name, entry_line (files w) (path ++ [slash] ++ name)) <$> dir_entries c))
      (set_fds w (<[fd := g]> (fds w))))) →
    fsat Q X (ls_dir fd path) (put 1 l (set_fds w (<[fd := mk_file (fstatus f) c]> (fds w))))) as Hnext.
  { intros l Hl. apply (IH c) with (mk_file (fstatus f) c); [|by cbn; simplify_map_eq | done..|].
    { unfold ltof. rewrite length_app. lia. }
    intros g. specialize (Hl g). rewrite <- put_put in Hl. cbn [files fds set_fds put]. by rewrite insert_insert_eq. }
  rewrite dir_entries_cons, fmap_app, concat_app in HQ by done. cbv zeta in HQ.
  destruct (Fs.de_inum (Fs.dirent_of e) =? 0).
  - apply sat_ret. rewrite <- (put_nil 1 (set_fds _ _)). by apply Hnext.
  - cbn [fmap list_fmap concat] in HQ. rewrite app_nil_r in HQ.
    apply sat_bind, ls_entry_prints, sat_ret. by apply Hnext.
Qed.

Lemma ls_prints (Q : unit → world → Prop) X path w :
  (∀ w', files w' = files w → outs w' = outs (put 1 (ls_out (files w) path) (put 2 (ls_err (files w) path) w)) → Q () w') →
  fsat Q X (ls path) w.
Proof.
  unfold ls_out, ls_err. intros HQ. apply fsat_open.
  { intros Hp. rewrite Hp in HQ. eapply fsat_printf; [reflexivity|]. apply HQ; [done|]. by rewrite put_nil. }
  intros f fd Hp Hfd Hf Ho. rewrite Hp, put_nil in HQ. rewrite (proj2 (Z.ltb_ge fd 0)) by done.
  eapply fsat_fstat; [by cbn; simplify_map_eq|]. cbn [Z.ltb Z.compare].
  assert (∀ g, fsat Q X (sys (Close fd) ;; mret ()) (put 1 (list_file (files w) path f) (set_fds w (<[fd := g]> (fds w))))) as Hclose.
  { intros g. apply fsat_close. intros _. apply sat_ret, HQ; [done|]. cbn.
    apply delete_id. destruct (decide (fd = 1)) as [->|]; by simplify_map_eq. }
  apply sat_bind. unfold list_file in Hclose.
  destruct (Fs.st_type (fstatus f) =? Fs.T_FILE); [by apply ls_line_prints|].
  destruct (Fs.st_type (fstatus f) =? Fs.T_DIR) eqn:Ht.
  - apply Z.eqb_eq in Ht. case_bool_decide; [by eapply fsat_printf; [reflexivity|]|].
    eapply ls_dir_prints; [by cbn; simplify_map_eq | done..|]. intros g. cbn [files fds set_fds]. rewrite insert_insert_eq. apply Hclose.
  - apply sat_ret. specialize (Hclose f). by rewrite put_nil in Hclose.
Qed.

(** ls lists each of its arguments, or the current directory: a line for a file,
    a line for each record of a directory that is in use, with the type, the inode
    number and the size of what the entry names. *)
Theorem ls_correct argv w :
  let args := match tail argv with [] => [bytes "."] | args => args end in
  fsat (λ _ _, False)
    (λ w', outs w' = outs (put 1 (concat (ls_out (files w) <$> args)) (put 2 (concat (ls_err (files w) <$> args)) w)))
    (ls_main argv) w.
Proof.
  assert (∀ args (Q : unit → world → Prop) X w, (∀ w', outs w' =
      outs (put 1 (concat (ls_out (files w) <$> args)) (put 2 (concat (ls_err (files w) <$> args)) w)) → Q () w') →
    fsat Q X (each args ls) w) as Hall.
  { clear. induction args as [|a args IH]; intros Q X w HQ; cbn [each].
    { apply sat_ret, HQ. cbn [fmap list_fmap concat]. by rewrite !put_nil. }
    apply sat_bind, ls_prints. intros w1 Hfs Ho. apply IH. intros w' Hw'. apply HQ. rewrite Hw', Hfs. cbn [fmap list_fmap concat].
    rewrite <- !put_put. rewrite (put_comm 1 2 (ls_out _ a)) by done. rewrite !outs_put, Ho. by rewrite !outs_put. }
  cbv zeta. destruct argv as [|? [|a args]]; cbn [tail ls_main]; apply sat_bind.
  1, 2: apply ls_prints; intros w' _ Hw'; apply sat_exit; rewrite Hw'; cbn [fmap list_fmap concat]; by rewrite !app_nil_r.
  apply Hall. intros w' Hw'. by apply sat_exit.
Qed.

(** ** echo, kill, ln, mkdir and rm *)

(** echo's arguments, each followed by a blank, the last by a newline *)
Fixpoint echoed (args : list (list Z)) : list Z :=
  match args with
  | [] => []
  | [a] => a ++ [nl]
  | a :: args => a ++ [32] ++ echoed args
  end.

Theorem echo_correct argv w : fsat (λ _ _, False) (λ w', w' = put 1 (echoed (tail argv)) w) (echo_main argv) w.
Proof.
  unfold echo_main. apply sat_bind. revert w.
  induction (tail argv) as [|a args IH]; intros w; cbn [echo_args].
  - apply sat_ret, sat_exit. by rewrite put_nil.
  - eapply fsat_print; [reflexivity|]. destruct args as [|b args].
    + apply sat_ret, sat_exit. cbn [echoed app]. by rewrite app_nil_r.
    + specialize (IH (put 1 (a ++ [32]) w)). rewrite put_put, <- app_assoc in IH. apply IH.
Qed.

(** kill sends SIGKILL, and no other signal, to each of its arguments in order. *)
Theorem kill_sends_sigkill argv w : (2 ≤ length argv)%nat →
  fsat (λ _ _, False) (λ w', outs w' = outs w ∧ sent w' = sent w ++ ((λ p, (atoi p, SIGKILL)) <$> tail argv)) (kill_main argv) w.
Proof.
  intros Hlen. destruct argv as [|prog [|p pids]]; [cbn in Hlen; lia..|]. cbn [kill_main tail].
  apply sat_bind. clear Hlen prog. revert w. induction (p :: pids) as [|q qs IH]; intros w; cbn [each fmap list_fmap].
  - apply sat_ret, sat_exit. by rewrite app_nil_r.
  - apply sat_bind, sat_call; [by exists 0; eexists|]. intros _ w' ->. apply sat_ret. specialize (IH (mk_world (files w) (fds w) (outs w)
      (sent w ++ [(atoi q, SIGKILL)]))). cbn [outs sent] in IH. by rewrite <- app_assoc in IH.
Qed.

(** rm removes its arguments up to the first that does not exist, which it
    reports. *)
Fixpoint removed (fs : gmap (list Z) file) (args : list (list Z)) : gmap (list Z) file * list Z :=
  match args with
  | [] => (fs, [])
  | a :: args => match fs !! a with
                 | Some _ => removed (delete a fs) args
                 | None => (fs, bytes "rm: " ++ a ++ bytes (line " failed to delete"))
                 end
  end.

Theorem rm_correct argv w : (2 ≤ length argv)%nat →
  fsat (λ _ _, False) (λ w', w' = put 2 (removed (files w) (tail argv)).2 (set_files w (removed (files w) (tail argv)).1)) (rm_main argv) w.
Proof.
  intros Hlen. destruct argv as [|prog [|p ps]]; [cbn in Hlen; lia..|]. cbn [rm_main tail].
  apply sat_bind. clear Hlen prog. revert w. induction (p :: ps) as [|q qs IH]; intros w; cbn [until_failure removed].
  - apply sat_ret, sat_exit. rewrite put_nil. by destruct w.
  - apply sat_call; [by eexists _, _|]. intros r w' [-> ->].
    destruct (files w !! q) as [f|] eqn:Hq; (case_decide as Hd; [|try by exfalso; apply Hd; eauto]); cbn [Z.ltb Z.compare].
    + apply (IH (set_files w _)).
    + by destruct Hd.
    + eapply fsat_printf; [reflexivity|]. apply sat_exit. cbn [fst snd]. by rewrite delete_id.
Qed.

Theorem ln_correct prog old new w :
  fsat (λ _ _, False)
    (λ w', match files w !! old, files w !! new with
           | Some f, None => w' = set_files w (<[new := f]> (files w))
           | _, _ => w' = put 2 (bytes "link " ++ old ++ [32] ++ new ++ bytes (line ": failed")) w
           end) (ln_main [prog; old; new]) w.
Proof.
  cbn [ln_main]. apply sat_call; cbn [fsys]; destruct (files w !! old), (files w !! new); try by eexists _, _.
  all: intros r w' [-> ->]; cbn [Z.ltb Z.compare]; apply sat_bind.
  1, 3, 4: by eapply fsat_printf; [reflexivity | apply sat_exit].
  by apply sat_ret, sat_exit.
Qed.

(** ** Programs that do not end

    [safe t w]: whatever the kernel answers, [t] never returns and never stops
    making calls unless by [exit], and every call it makes is allowed by [P] in
    the world it is made in. *)
Section safety.
Context {W : Type} (os : ∀ B, sysE B → W → B → W → Prop) (P : ∀ B, sysE B → W → Prop).

Variant safe_gen (r : prog unit → W → Prop) (t : prog unit) (w : W) : Prop :=
  | safe_sys B (e : sysE B) k : t ≈ Vis e k → P B e w → (∀ b w', os B e w b w' → r (k b) w') → safe_gen r t w.

Lemma safe_gen_mon : monotone2 safe_gen.
Proof. intros t w r r' [B e k E HP Hk] Hle. econstructor; eauto. Qed.
#[local] Hint Resolve safe_gen_mon : paco.

Definition safe : prog unit → W → Prop := paco2 safe_gen bot2.

#[global] Instance psafe_eutt r : Proper (eutt eq ==> eq ==> iff) (paco2 safe_gen r).
Proof.
  intros t t' Ht w _ <-. split; intros H; punfold H; destruct H as [B e k E HP Hk]; pfold; apply safe_sys with B e k; try done.
  - by rewrite <- Ht.
  - by rewrite Ht.
Qed.

Lemma psafe_call r {B} (e : sysE B) k w :
  P B e w → (∀ b w', os B e w b w' → upaco2 safe_gen r (k b) w') → paco2 safe_gen r (ITree.bind (sys e) k) w.
Proof. intros HP Hk. pfold. eapply safe_sys; [apply eq_sub_eutt, bind_trigger | done | done]. Qed.

Lemma psafe_print r fd fmt ap k w : (∀ d, P Z (Write fd d) w) → (∀ d b w', os Z (Write fd d) w b w' → w' = w) →
  default [] (Ulib.printf (bytes fmt) ap) ≠ [] → (∀ t, t ≈ k () → upaco2 safe_gen r t w) →
  paco2 safe_gen r (ITree.bind (printf fd fmt ap) k) w.
Proof.
  intros HP Hos Hne Hk. unfold printf. induction (default [] _) as [|c l IH]; [done|]. cbn [each].
  unfold mbind, prog_bind, mret, prog_ret in *. rewrite !Eqit.bind_bind. apply psafe_call; [apply HP|].
  intros b w' Hw'. apply Hos in Hw' as ->. destruct l as [|c' l].
  - apply Hk. cbn [each]. unfold mret, prog_ret. rewrite !Eqit.bind_ret_l. reflexivity.
  - left. rewrite Eqit.bind_ret_l. by apply IH.
Qed.

End safety.

(** What init relies on: the processes it has forked and not yet waited for, and
    whether it is the forked copy. [wait] may also return a process that init has
    inherited from another that exited; it fails only without children. *)
Record procs := mk_procs { child : bool; failed : bool; shells : gset Z }.

Definition psys {A} (e : sysE A) (w : procs) : A → procs → Prop :=
  match e in sysE A return A → procs → Prop with
  | Fork => λ r w', r < 0 ∧ w' = mk_procs (child w) true (shells w) ∨ r = 0 ∧ w' = mk_procs true (failed w) ∅ ∨
                    0 < r ∧ r ∉ shells w ∧ w' = mk_procs (child w) (failed w) ({[r]} ∪ shells w)
  | Wait => λ r w', r ∈ shells w ∧ w' = mk_procs (child w) (failed w) (shells w ∖ {[r]}) ∨
                    0 ≤ r ∧ r ∉ shells w ∧ w' = w ∨ r = -1 ∧ shells w = ∅ ∧ w' = w
  | _ => λ _ w', w' = w
  end.

(** One shell at a time: init forks when it has no shell and waits while it has
    one; only the copy becomes the shell, and init itself exits only when it
    could not fork. *)
Definition init_calls {A} (e : sysE A) (w : procs) : Prop :=
  match e with
  | Fork => child w = false ∧ shells w = ∅
  | Wait => child w = false ∧ ∃ pid, shells w = {[pid]}
  | Exec path argv => child w = true ∧ path = bytes "sh" ∧ argv = [bytes "sh"]
  | Exit => child w = true ∨ failed w = true
  | Open path _ | Mknod path _ _ => path = bytes "console"
  | Write fd _ => fd = 1
  | Dup fd => fd = 0
  | _ => False
  end.

Abbreviation psafe := (paco2 (safe_gen (@psys) (@init_calls))).

Lemma exit_bind {A B} (k : A → prog B) : ITree.bind exit k ≈ exit.
Proof. unfold exit, mbind, prog_bind. rewrite Eqit.bind_bind. apply eutt_eq_bind. intros []. Qed.

Lemma init_loop_eq : init_loop ≈ (printf 1 (line "init: starting sh") [] ;;
    pid ← sys Fork ;
    if pid <? 0 then printf 1 (line "init: fork failed") [] ;; exit
    else if pid =? 0 then
      sys (Exec (bytes "sh") [bytes "sh"]) ;; printf 1 (line "init: exec sh failed") [] ;; exit
    else init_wait pid ;; init_loop).
Proof.
  unfold init_loop at 1. rewrite unfold_iter. unfold mbind, prog_bind. rewrite Eqit.bind_bind.
  apply eutt_eq_bind. intros _. rewrite Eqit.bind_bind. apply eutt_eq_bind. intros pid.
  destruct (pid <? 0); [|destruct (pid =? 0)]; rewrite !Eqit.bind_bind; apply eutt_eq_bind; intros _.
  - apply exit_bind.
  - rewrite !Eqit.bind_bind. apply eutt_eq_bind. intros _. apply exit_bind.
  - unfold mret, prog_ret. by rewrite Eqit.bind_ret_l, tau_eutt.
Qed.

Lemma init_wait_eq pid : init_wait pid ≈ (wpid ← sys Wait ;
    if (0 <=? wpid) && negb (wpid =? pid) then printf 1 (line "zombie!") [] ;; init_wait pid else mret ()).
Proof.
  unfold init_wait at 1. rewrite unfold_iter. unfold mbind, prog_bind. rewrite Eqit.bind_bind.
  apply eutt_eq_bind. intros wpid. destruct (_ && _).
  - rewrite Eqit.bind_bind. apply eutt_eq_bind. intros _. unfold mret, prog_ret. by rewrite Eqit.bind_ret_l, tau_eutt.
  - unfold mret, prog_ret. by rewrite Eqit.bind_ret_l.
Qed.

Lemma psafe_exit r w : child w = true ∨ failed w = true → psafe r exit w.
Proof. intros Hw. apply psafe_call; [exact Hw | by intros []]. Qed.

(** The two places of init's loop *)
Definition at_loop (t : prog unit) (w : procs) : Prop := t ≈ init_loop ∧ child w = false ∧ shells w = ∅.
Definition at_wait (t : prog unit) (w : procs) : Prop :=
  ∃ pid, t ≈ (init_wait pid ;; init_loop) ∧ 0 < pid ∧ child w = false ∧ shells w = {[pid]}.

Lemma at_loop_step r t w : (∀ t w, at_wait t w → upaco2 (safe_gen (@psys) (@init_calls)) r t w) → at_loop t w → psafe r t w.
Proof.
  intros Hwait (Ht & Hc & Hs). rewrite Ht, init_loop_eq. apply psafe_print; [done..|]. intros u Hu. left. rewrite Hu. apply psafe_call; [done|].
  intros pid w' [[Hp ->] | [[-> ->] | (Hp & _ & ->)]].
  - left. rewrite (proj2 (Z.ltb_lt pid 0)) by done. apply psafe_print; [done..|]. intros v Hv. left. rewrite Hv. apply psafe_exit. by right.
  - left. cbn [Z.ltb Z.eqb Z.compare]. apply psafe_call; [done|]. intros b w' ->. left. apply psafe_print; [done..|]. intros v Hv. left. rewrite Hv. apply psafe_exit. by left.
  - rewrite (proj2 (Z.ltb_ge pid 0)), (proj2 (Z.eqb_neq pid 0)) by lia. apply Hwait. exists pid. rewrite Hs. set_solver.
Qed.

Lemma at_wait_step r t w : (∀ t w, at_wait t w → upaco2 (safe_gen (@psys) (@init_calls)) r t w) → at_wait t w → psafe r t w.
Proof.
  intros Hwait (pid & Ht & Hp & Hc & Hs). rewrite Ht. unfold mbind, prog_bind. rewrite init_wait_eq. unfold mbind, prog_bind.
  rewrite Eqit.bind_bind. apply psafe_call; [by split; [|exists pid]|].
  intros wpid w' [[Hin ->] | [(Hw & Hnin & ->) | (_ & Hemp & _)]]; [| |set_solver].
  - left. rewrite Hs in *. apply elem_of_singleton in Hin as ->. rewrite Z.eqb_refl, andb_false_r.
    unfold mret, prog_ret. rewrite Eqit.bind_ret_l. apply at_loop_step; [done|]. cbn. split_and!; [done..|set_solver].
  - rewrite Hs in Hnin. rewrite (proj2 (Z.leb_le 0 wpid)), (proj2 (Z.eqb_neq wpid pid)) by (done || set_solver). cbn [andb negb].
    left. rewrite Eqit.bind_bind. apply psafe_print; [done..|]. intros u Hu. apply Hwait. by exists pid.
Qed.

(** C30: init, on every kernel whose fork and wait work as documented, never
    returns and never hangs without a system call; it starts a shell only when the
    last one has been waited for, whatever orphans it inherits in between, waits
    only while it has exactly one, executes sh in the forked copy alone, and exits
    only in that copy or when it cannot fork. *)
Theorem init_one_shell w : child w = false → shells w = ∅ → safe (@psys) (@init_calls) init_main w.
Proof.
  intros Hc Hs. unfold safe, init_main, mbind, prog_bind, mret, prog_ret.
  assert (∀ t w, at_wait t w → psafe bot2 t w) as Hwait.
  { pcofix CIH. intros t u Hu. apply at_wait_step; [|done]. auto. }
  assert (∀ t w, at_loop t w → psafe bot2 t w) as Hloop.
  { intros t u Hu. apply at_loop_step; [|done]. auto. }
  assert (psafe bot2 (ITree.bind (sys (Dup 0)) (λ _, ITree.bind (sys (Dup 0)) (λ _, init_loop))) w) as Hdup.
  { do 2 (apply psafe_call; [done|]; intros ? ? ->; left). by apply Hloop. }
  apply psafe_call; [done|]. intros fd ? ->. left. destruct (fd <? 0); [|by rewrite Eqit.bind_ret_l].
  do 2 (rewrite Eqit.bind_bind; apply psafe_call; [done|]; intros ? ? ->; left). by rewrite Eqit.bind_ret_l.
Qed.

Lemma init_one_shell_witness : safe (@psys) (@init_calls) init_main (mk_procs false false ∅).
Proof. by apply init_one_shell. Defined.

End User.
